(* ===== verification/_CoqProject ===== *)
-Q . S2P
Prelude.v
Errors.v
Rlp.v
Nibbles.v
Patricia.v
Prque.v
LazyQueue.v
Common.v
Merkle.v
StackTrie.v
Derive.v
TrieNode.v
Trie.v
TrieCommit.v
TrieProof.v
TrieMap.v
Validator.v
Codec.v
Transaction.v
Block.v
Types.v
Signer.v
Signing.v
ChainConfig.v
ChainSigner.v
PriceNonce.v
TxList.v
TxPool.v
PoolHead.v
Pool.v
PoolGas.v
PoolSchedule.v
PoolIndex.v
PoolOk.v
PoolAdd.v
PoolCount.v
PoolRuns.v
PoolConsistent.v
PoolLimits.v
Cache.v
MessageSet.v
Backlog.v
Protocol.v
RoundState.v
Core.v
Outbox.v
Backend.v
Gossip.v
Proposal.v
Refinement.v
Safety.v
Progress.v
Behaviour.v
Phases.v
Liveness.v
LiveNetwork.v
Node.v
NodeProgress.v
Sealing.v
Scenario.v
Witnesses.v
Network.v
NodeWitnesses.v
