(* ===== verification/Prelude.v ===== *)
(** * A verification of HotStuff in GoQuorum

    GoQuorum's consensus engine [consensus/hotstuff] runs basic HotStuff: the
    validators take turns in leading a view, and a block is handed to the chain
    after three rounds of votes, each closed by a certificate with a threshold
    signature.  This library translates the engine, what it is built on and
    what it is embedded in to Rocq definitions, function by function, and
    proves what makes them correct.

    ** The parts of the program and where they are

    Foundations.
    - [Prelude]: machine integers with their wrap-around, bytes, lemmas on
      lists that several files share.  [Errors]: the errors of the packages,
      the three ways a Go call can end ([outcome]: a value, an error, a panic)
      and the state monad [M] of the stateful code, which keeps the state a call
      has reached when it returns an error.
    - [Rlp] ([rlp/encode.go], [rlp/raw.go], [rlp/decode.go]) and [Codec] (the
      codecs that reflection derives, each with its round-trip laws).
    - [Common] ([common/types.go], [crypto/crypto.go]): addresses and hashes.
    - [Prque] and [LazyQueue] ([common/prque], and Go's [container/heap] as a
      typeclass of heap interfaces with a notion of simulation between them).

    Tries ([trie], [core/types/hashing.go]).
    - [Nibbles]: keys.  [Patricia] and [Merkle]: the reference, a radix tree of
      canonical shape and its root hash.  [TrieNode], [Trie], [TrieCommit],
      [TrieProof]: nodes with cached hashes, lookups and updates that load
      nodes, committing, proofs; [n_rep] relates nodes to trees.  [StackTrie]
      and [Derive]: the trie for increasing keys and [DeriveSha].  [TrieMap]:
      what users of a trie can rely on.

    Chain data ([core/types]).
    - [Transaction], [Signing], [PriceNonce]: transactions, their encodings,
      signers and caches, and the order in which a miner is offered them.
      [Block]: headers, extra-data and blocks.
    - [ChainConfig] ([params/config.go]): forks, transitions and the checks on
      configurations; [ChainSigner]: the signer they choose.

    The transaction pool ([core/tx_pool.go], [tx_list.go], [tx_noncer.go]).
    - [TxList]: the lists of an account; [TxPool]: the indices by hash and by
      price and the set of local accounts; [PoolHead]: the walk down two
      branches after a reorganisation; [Pool]: the pool itself, from admission
      to truncation, with the schedule of its background runs.
    - [PoolIndex], [PoolOk], [PoolAdd], [PoolCount], [PoolRuns]: the invariant
      of the pool and that every operation keeps it.  It says of the two maps
      of lists which transactions each account has, and of those that are in no
      list for the moment who sent them; [ends] is the logic for the monad.
      [PoolConsistent] and [PoolLimits] state what users of the pool can rely
      on, [PoolSchedule] and [PoolGas] properties of its parts.

    The consensus ([consensus/hotstuff]).
    - [Validator] ([validator]), [Types] ([types.go]), [Signer] ([signer]).
    - [MessageSet], [Backlog], [RoundState], [Core] ([core]): the engine of a
      replica.  [handleEvent] is the whole of its event loop for one event;
      what it sends and asks for is a log.
    - [Cache], [Backend] ([backend]): the engine's surroundings in the process,
      with header checks, gossip, sealing goroutines and the peers' messages.
    - [Node]: backend and engine composed as [backend.go] composes them, with
      the events that goroutines post in any order, and [Sealing] with the
      steps of the sealing goroutines in any order.

    The state of a component is a record with the fields of its struct, an
    interface is a typeclass or an inductive type of its implementations, a
    method is a definition with the method's name (with the type as a prefix
    where two would clash).  A map is a [gmap]; where Go ranges over one the
    order is an argument.  A pointer that can be nil is an option and its
    dereference can be [Panic].

    ** What is shown

    - Safety ([Protocol], [Refinement], [Safety], [Node]): every event the
      engine handles is a sequence of steps of an abstract protocol, a node is
      such an engine whatever its peers and its scheduling do, views and locks
      only move as they may, and two honest nodes never hand different blocks
      to their chains at one height if at most [F] validators are faulty, no
      replica restarts and no decide message carries a certificate for
      height 0.
    - Panic freedom ([Progress], [NodeProgress]): no message and no sequence of
      actions makes an engine or a node panic.
    - Liveness ([Phases], [Liveness], [LiveNetwork]): when the leader of a view
      and enough validators for a quorum are ready for it, there is a sequence
      of deliveries of what they send after which all of them have committed
      the leader's block.
    - The handlers ([Behaviour], [Backlog], [Gossip]): when certificates are
      made, what a locked replica refuses, what is replayed, posted, sent.
    - Blocks ([Proposal], [Sealing], [Block]): a sealed block is accepted by
      the other validators, a committed one is imported, a miner gets at most
      one result and only the block it asked for, hashes bind headers.
    - Data structures ([Rlp], [Prque], [LazyQueue], [PriceNonce]): encoders and
      queues refine their specifications and decoders accept nothing else.
    - Tries ([TrieMap], [Transaction]): a trie is a map through loading,
      caching, committing and reopening; its root hash is a function of the
      contents, is the one the stack trie computes, and binds the contents;
      proofs say what the trie holds and nothing else.
    - Transactions ([Transaction], [Signing]): encodings are canonical, signing
      and recovering agree, other chains refuse, caches do not show.
    - Chain configurations ([ChainConfig], [ChainSigner]): a compatible
      configuration leaves the past of a chain alone, the search for a conflict
      ends unless chain identifiers differ, and forks keep senders.
    - The transaction pool ([PoolConsistent], [PoolLimits], [PoolHead],
      [TxList], [TxPool]): whatever it is asked to do, it returns, its lists and
      indices describe the same transactions and its counts are exact; a
      background run leaves it within its limits, and takes what it drops from
      the remote accounts above their slots; a reorganisation brings back
      exactly the transactions that the new branch lacks.
    - Where the code does not do what it means to, the theorem says what it
      does: a restart forgets the lock ([restart_forgets_lock]), a decide
      message with a certificate for height 0 is believed
      ([forged_decide_commits]), the round timer overflows
      ([round_timeout_bounds]), the comparison of configurations with different
      chain identifiers can run for ever ([check_compatible_diverges]), and
      others in the same files.

    ** Assumptions

    Code that is not in the repository is a parameter with laws that are
    documented of it: Keccak-256 ([Keccak]: digests have 32 bytes), ECDSA and
    threshold BLS ([Crypto], [CryptoLaws]), libsecp256k1 ([Secp256k1],
    [Secp256k1Laws]), bounded caches ([Eviction], [Cache], [CacheLaws]).  The
    order in which Go ranges over a map ([Ranges], [RangesLaws]: some
    permutation of its entries) is one too; the pool's view of the chain
    (blocks, states, permissions, private transactions) is the record
    [PoolChain].  The theorems on the pool are about transactions with fields
    in range whose hashes determine price and nonce ([genuine_ok]).  That
    digests do not collide is never assumed in general, which no function could
    satisfy, but of the byte strings a theorem speaks of.  The files
    [Scenario], [Witnesses], [Network] and [NodeWitnesses] and the last
    sections of the others have concrete instances of all parameters, among
    them a network of four nodes that commits a block, and apply every theorem
    with a hypothesis to them.

    ** Recursion

    Recursion that is not structural has fuel, and the lemmas on each such
    definition show that what its callers give it is enough: the length of the
    input for decoders, the size of the queue for heaps and for the replay of
    messages and requests, eight rounds for the bytes of a 64-bit size, twice
    the length of the key and two for walks down a trie (a node that has to be
    loaded costs one step more), two rounds for the refreshing of a lazy queue,
    the number of a block and one for the walk down a branch, the length of a
    list for reducing it.  The walks, the lazy queue and the reduction would be
    [Panic] without fuel, which their theorems exclude.  The search for a
    conflict of configurations has no bound ([CheckCompatible] takes the fuel
    and answers [None] without any).  A privacy marker stands for a private
    transaction that is not a marker ([marker_depth], a law of the pool's view
    of the chain).

    ** Not modelled

    Mutexes, except that of the sealing goroutines: a method is one step.  Log
    statements, metrics and printing.  The reflection layer of [rlp] and its
    streams.  The node database behind a trie, beyond that it is a map from
    hashes to encodings, range proofs, trie iterators and writing a stack trie
    to a database.  The JSON form of transactions, receipts.  Of the pool: the
    journal of local transactions and the subscription to its feed.  Of chain
    configurations: the constants of public networks, checkpoints and the
    settings only other engines read.  The chain itself with execution, state
    and storage, the miner's filling of blocks, networking,
    the other consensus engines, private transactions, permissioning, RPC and
    command line: what the engine sees of them is an argument of the
    definitions, arbitrary in the theorems but for what they state.  The engine
    of [consensus/hotstuff/faulty] misbehaves on purpose and is a faulty
    validator for the theorems.

    This file holds the prelude. *)
From Stdlib Require Import ZArith Lia Strings.Byte.
From stdpp Require Import base list option gmap strings sorting countable.
Open Scope Z_scope.

(** ** Machine integers *)

(** [uint64(z)]: the value of [z] modulo [2^64]; also [big.Int.Uint64]. *)
Definition u64 (z : Z) : Z := z mod 2 ^ 64.

(** [int64(z)]: two's complement wrap-around; also [big.Int.Int64]. *)
Definition i64 (z : Z) : Z := (z + 2 ^ 63) mod 2 ^ 64 - 2 ^ 63.

(** [big.Int.Cmp]: -1, 0 or 1. *)
Definition cmp_Z (x y : Z) : Z :=
  match x ?= y with Lt => -1 | Eq => 0 | Gt => 1 end.

(** ** Bytes *)

Abbreviation bytes := (list byte).

Definition Z_of_byte (b : byte) : Z := Z.of_N (Byte.to_N b).

Definition byte_of_Z (z : Z) : byte :=
  match Byte.of_N (Z.to_N (z mod 256)) with Some b => b | None => x00 end.

(** [n] big-endian bytes of [z], the value taken modulo [256^n]. *)
Fixpoint be_fixed (n : nat) (z : Z) : bytes :=
  match n with
  | O => []
  | S n' => be_fixed n' (z / 256) ++ [byte_of_Z z]
  end.

(** The number a big-endian byte string denotes. *)
Definition be_value (bs : bytes) : Z :=
  fold_left (fun acc b => acc * 256 + Z_of_byte b) bs 0.

#[global] Instance byte_eq_dec : EqDecision byte := Byte.byte_eq_dec.

(** ** Lemmas on machine integers *)

Lemma u64_range z : 0 <= u64 z < 2 ^ 64.
Proof. unfold u64. apply Z.mod_pos_bound. lia. Qed.

Lemma u64_small z : 0 <= z < 2 ^ 64 -> u64 z = z.
Proof. intros. unfold u64. by apply Z.mod_small. Qed.

Lemma i64_small z : - 2 ^ 63 <= z < 2 ^ 63 -> i64 z = z.
Proof. intros. unfold i64. rewrite Z.mod_small; lia. Qed.

Lemma i64_eq_u64 x y : i64 (x - y) = 0 -> u64 x = u64 y.
Proof.
  unfold i64, u64. intros E. pose proof (Z.div_mod (x - y + 2 ^ 63) (2 ^ 64) ltac:(lia)) as Hd.
  replace x with (y + (x - y + 2 ^ 63) / 2 ^ 64 * 2 ^ 64) by lia. by apply Z_mod_plus_full.
Qed.

Lemma i64_range z : - 2 ^ 63 <= i64 z < 2 ^ 63.
Proof. unfold i64. pose proof (Z.mod_pos_bound (z + 2 ^ 63) (2 ^ 64)). lia. Qed.

(** ** Lemmas on bytes *)

Lemma Z_of_byte_range b : 0 <= Z_of_byte b < 256.
Proof. unfold Z_of_byte. pose proof (Byte.to_N_bounded b). lia. Qed.

Lemma Z_of_byte_of_Z z : Z_of_byte (byte_of_Z z) = z mod 256.
Proof.
  unfold Z_of_byte, byte_of_Z.
  pose proof (Z.mod_pos_bound z 256 ltac:(lia)).
  destruct (Byte.of_N (Z.to_N (z mod 256))) as [b|] eqn:E.
  - apply Byte.to_of_N in E. rewrite E. lia.
  - apply Byte.of_N_None_iff in E. lia.
Qed.

Lemma byte_of_Z_of_byte b : byte_of_Z (Z_of_byte b) = b.
Proof.
  unfold byte_of_Z. rewrite Z.mod_small by apply Z_of_byte_range.
  unfold Z_of_byte. rewrite N2Z.id, Byte.of_to_N. done.
Qed.

Lemma Z_of_byte_inj b1 b2 : Z_of_byte b1 = Z_of_byte b2 -> b1 = b2.
Proof. intros H. by rewrite <- (byte_of_Z_of_byte b1), H, byte_of_Z_of_byte. Qed.

Lemma be_value_app bs1 bs2 :
  be_value (bs1 ++ bs2) = be_value bs1 * 256 ^ Z.of_nat (length bs2) + be_value bs2.
Proof.
  unfold be_value. rewrite fold_left_app.
  generalize (fold_left (fun acc b => acc * 256 + Z_of_byte b) bs1 0) as a.
  induction bs2 as [|b bs2 IH] using rev_ind; intros a; [simpl; lia|].
  rewrite !fold_left_app, length_app, IH. simpl.
  rewrite Nat2Z.inj_add, Z.pow_add_r by lia. simpl. lia.
Qed.

Lemma be_value_snoc bs b : be_value (bs ++ [b]) = be_value bs * 256 + Z_of_byte b.
Proof. unfold be_value. by rewrite fold_left_app. Qed.

Lemma be_value_cons b bs :
  be_value (b :: bs) = Z_of_byte b * 256 ^ Z.of_nat (length bs) + be_value bs.
Proof. apply (be_value_app [b] bs). Qed.

Lemma be_value_range bs : 0 <= be_value bs < 256 ^ Z.of_nat (length bs).
Proof.
  induction bs as [|b bs IH] using rev_ind; [by vm_compute|].
  rewrite be_value_snoc, length_app, Nat2Z.inj_add, Z.pow_add_r by lia.
  pose proof (Z_of_byte_range b). simpl. lia.
Qed.

Lemma length_be_fixed n z : length (be_fixed n z) = n.
Proof.
  revert z. induction n as [|n IH]; intros z; simpl; [done|].
  rewrite length_app, IH. simpl. lia.
Qed.

Lemma be_value_fixed n z : 0 <= z -> be_value (be_fixed n z) = z mod 256 ^ Z.of_nat n.
Proof.
  revert z. induction n as [|n IH]; intros z Hz; [simpl; by rewrite Z.mod_1_r|].
  cbn [be_fixed]. rewrite be_value_snoc, IH, Z_of_byte_of_Z by (apply Z.div_pos; lia).
  rewrite Nat2Z.inj_succ, Z.pow_succ_r by lia.
  rewrite (Z.rem_mul_r z 256 (256 ^ Z.of_nat n)) by lia. lia.
Qed.

Lemma be_fixed_value bs : be_fixed (length bs) (be_value bs) = bs.
Proof.
  induction bs as [|b bs IH] using rev_ind; [done|].
  rewrite length_app, Nat.add_comm. cbn [Nat.add length be_fixed].
  rewrite be_value_snoc. pose proof (Z_of_byte_range b).
  replace ((be_value bs * 256 + Z_of_byte b) / 256) with (be_value bs)
    by (rewrite Z.div_add_l, (Z.div_small (Z_of_byte b)) by lia; lia).
  rewrite IH. f_equal. f_equal.
  rewrite <- (byte_of_Z_of_byte b) at 2. unfold byte_of_Z.
  by rewrite Z.add_comm, Z.mod_add by lia.
Qed.

Lemma be_value_fixed_small n z :
  0 <= z < 256 ^ Z.of_nat n -> be_value (be_fixed n z) = z.
Proof. intros. rewrite be_value_fixed by lia. by apply Z.mod_small. Qed.

(** ** Lemmas on lists *)

Lemma filter_split_length {A} (P : A -> Prop) `{!forall x, Decision (P x)} (l : list A) :
  (length (filter P l) + length (filter (fun x => ~ P x) l) = length l)%nat.
Proof.
  induction l as [|x l IH]; [done|]. rewrite !filter_cons.
  destruct (decide (P x)), (decide (~ P x)); simpl; tauto || lia.
Qed.

Lemma filter_none {A} (P : A -> Prop) `{!forall x, Decision (P x)} (l : list A) :
  (forall x, x ∈ l -> ~ P x) -> filter P l = [].
Proof.
  induction l as [|x l IH]; intros Hn; [done|]. rewrite filter_cons_False by (apply Hn; left).
  apply IH. intros y Hy. apply Hn. by right.
Qed.

Lemma filter_ext_in {A} (P Q : A -> Prop) `{!forall x, Decision (P x)} `{!forall x, Decision (Q x)} (l : list A) :
  (forall x, x ∈ l -> P x <-> Q x) -> filter P l = filter Q l.
Proof.
  induction l as [|x l IH]; intros Hx; [done|]. rewrite !filter_cons, IH by (intros; apply Hx; by right).
  specialize (Hx x ltac:(left)). by destruct (decide (P x)), (decide (Q x)); try tauto.
Qed.

Lemma filter_all {A} (P : A -> Prop) `{!forall x, Decision (P x)} (l : list A) :
  (forall x, x ∈ l -> P x) -> filter P l = l.
Proof.
  induction l as [|x l IH]; intros Hn; [done|]. rewrite filter_cons_True by (apply Hn; left).
  f_equal. apply IH. intros y Hy. apply Hn. by right.
Qed.

(** Two duplicate-free lists over [l] share at least as many elements as
    their lengths exceed that of [l]. *)
Lemma list_intersection_length {A} `{!EqDecision A} (a b l : list A) :
  NoDup a -> NoDup b -> a ⊆ l -> b ⊆ l ->
  (length a + length b <= length l + length (filter (fun x => x ∈ b) a))%nat.
Proof.
  intros Ha Hb Hal Hbl.
  assert (filter (fun x => x ∉ b) a ++ b ⊆+ l) as Hsub%submseteq_length.
  { apply NoDup_submseteq.
    - apply list.NoDup_app. split_and!; [by apply list.NoDup_filter| |done].
      intros x [? _]%list_elem_of_filter. done.
    - intros x [[_ ?]%list_elem_of_filter|?]%elem_of_app; auto. }
  rewrite length_app in Hsub. pose proof (filter_split_length (fun x => x ∈ b) a). lia.
Qed.

(** Reading [n] consecutive positions cyclically is a rotation. *)
Lemma cyclic_lookup {A} (l : list A) (c : Z) : 0 <= c -> l <> [] ->
  (fun k : nat => l !! Z.to_nat ((c + Z.of_nat k) mod Z.of_nat (length l))) <$> seq 0 (length l)
  = Some <$> rotate (Z.to_nat c) l.
Proof.
  intros Hc Hl. apply list_eq. intros i. rewrite !list_lookup_fmap.
  destruct (decide (i < length l)%nat) as [Hi|Hi].
  - rewrite lookup_seq_lt by done. cbn [fmap option_fmap option_map Nat.add].
    rewrite lookup_rotate_r by done. unfold rotate_nat_add. rewrite Z2Nat.id by done.
    set (m := Z.to_nat _).
    destruct (lookup_lt_is_Some_2 l m) as [x Hx]; [|by rewrite Hx].
    unfold m. pose proof (Z.mod_pos_bound (c + Z.of_nat i) (Z.of_nat (length l))).
    destruct l; [done|]. cbn [length] in *. lia.
  - rewrite lookup_seq_ge by lia. rewrite lookup_ge_None_2; [done|]. rewrite length_rotate. lia.
Qed.

Lemma rotate_Permutation {A} n (l : list A) : rotate n l ≡ₚ l.
Proof. unfold rotate. by rewrite Permutation_app_comm, take_drop. Qed.

(** The first element of what is left of a list. *)
Lemma drop_lookup_cons {A} (l : list A) n x r : drop n l = x :: r -> l !! n = Some x /\ drop (S n) l = r.
Proof.
  intros E. split; [rewrite <- (Nat.add_0_r n), <- lookup_drop, E; done|]. rewrite <- Nat.add_1_r, <- drop_drop, E. done.
Qed.

(** ** Tactics *)

(** Decide a closed decidable proposition by evaluation. *)
Ltac decide_eval := refine (bool_decide_unpack _ _); vm_compute; exact I.
