(* ===== verification/Errors.v ===== *)
(** * Errors, outcomes and the state monad

    Go's sentinel errors ([consensus/hotstuff/error.go] and the few that the
    other modelled packages return), the three ways a Go call can end (a value,
    an error, a run-time panic such as a nil dereference), and the small state
    monad in which the handlers of [consensus/hotstuff/core] are written.  An
    error is a value in Go: the state reached when a call returns an error is
    kept, which is why the monad pairs the outcome with the state instead of
    discarding it. *)
From S2P Require Import Prelude.
From Stdlib Require Import ZArith.
From stdpp Require Import base list strings.

(** ** Errors *)

Inductive error : Type :=
(* consensus/hotstuff/error.go *)
| ErrInvalidMessage | ErrInvalidSigner | ErrUnauthorizedAddress
| ErrInconsistentVote | ErrInvalidDigest | ErrNotFromProposer
| ErrNotToProposer | ErrFutureMessage | ErrFarAwayFutureMessage
| ErrOldMessage | ErrFailedDecodeNewView | ErrFailedDecodePrepare
| ErrFailedDecodePrepareVote | ErrFailedDecodePreCommit
| ErrFailedDecodePreCommitVote | ErrFailedDecodeCommit
| ErrFailedDecodeCommitVote | ErrState | ErrNoRequest
| ErrVerifyUnsealedProposal | ErrExtend | ErrSafeNode | ErrAddNewViews
| ErrAddPrepareVote | ErrAddPreCommitVote | ErrInvalidSignature
| ErrIncorrectAggInfo | ErrInsufficientAggPub | ErrInvalidAggregatedSig
| ErrEmptyAggregatedSig | ErrInvalidProposalMyself
| ErrTestIncorrectConversion | ErrInvalidNode | ErrNilHighQC
| ErrInvalidRawHash | ErrInvalidQC | ErrFailedDecodeMessage | ErrInvalidCode
| ErrInvalidBlock | ErrInvalidProposal | ErrUnknownBlock | ErrUnauthorized
| ErrInvalidDifficulty | ErrInvalidExtraDataFormat | ErrInvalidMixDigest
| ErrInvalidUncleHash | ErrInvalidTimestamp | ErrInvalidCommittedSeals
| ErrEmptyCommittedSeals | ErrMismatchTxhashes | ErrDecodeFailed
(* consensus/hotstuff/backend/errors.go *)
| ErrStartedEngine | ErrStoppedEngine
(* consensus, core and core/types *)
| ErrUnknownAncestor | ErrFutureBlock | ErrBlacklistedHash
| ErrInvalidHotstuffHeaderExtra | ErrInvalidIstanbulHeaderExtra
| ErrInvalidSig | ErrInvalidChainId | ErrTxTypeNotSupported | ErrEmptyTypedTx
(* rlp *)
| ErrUnexpectedEOF | ErrCanonSize | ErrCanonInt | ErrValueTooLarge
| ErrExpectedString | ErrExpectedList | ErrUintOverflow | ErrMoreThanOneValue
| ErrTooFewElements | ErrTooManyElements | ErrStringTooLong
| ErrStringTooShort | ErrNegativeBigInt
(* core/tx_pool.go and core/error.go *)
| ErrAlreadyKnown | ErrInvalidSender | ErrUnderpriced | ErrTxPoolOverflow
| ErrReplaceUnderpriced | ErrGasLimit | ErrNegativeValue | ErrOversizedData
| ErrInvalidGasPrice | ErrEtherValueUnsupported | ErrNonceTooLow
| ErrInsufficientFunds | ErrGasUintOverflow | ErrIntrinsicGas
(* trie *)
| ErrMissingNode (hash : Z) (path : list nat)
(* fmt.Errorf with its format string; errors of code outside the repository *)
| ErrFmt (msg : string)
| ErrExternal (code : Z).

#[global] Instance error_eq_dec : EqDecision error.
Proof. solve_decision. Defined.

(** ** Outcomes *)

Inductive outcome (A : Type) : Type :=
| Ret (a : A)
| Err (e : error)
| Panic.
Arguments Ret {A} _.
Arguments Err {A} _.
Arguments Panic {A}.

#[global] Instance outcome_ret : MRet outcome := fun A a => Ret a.
#[global] Instance outcome_bind : MBind outcome := fun A B f m =>
  match m with Ret a => f a | Err e => Err e | Panic => Panic end.

#[global] Instance outcome_fmap : FMap outcome := fun A B f m =>
  match m with Ret a => Ret (f a) | Err e => Err e | Panic => Panic end.

(** [if err := ...; err != nil { return err' }]: replace the error. *)
Definition on_err {A} (m : outcome A) (e' : error) : outcome A :=
  match m with Ret a => Ret a | Err _ => Err e' | Panic => Panic end.

(** A nil dereference: the value behind a pointer, or a panic. *)
Definition deref {A} (p : option A) : outcome A :=
  match p with Some a => Ret a | None => Panic end.

(** [if cond { return err }] *)
Definition fail_if (c : bool) (e : error) : outcome unit :=
  if c then Err e else Ret tt.

(** ** The state monad *)

Definition M (S A : Type) : Type := S -> outcome A * S.

#[global] Instance M_ret S : MRet (M S) := fun A a s => (Ret a, s).
#[global] Instance M_bind S : MBind (M S) := fun A B f m s =>
  match m s with
  | (Ret a, s') => f a s'
  | (Err e, s') => (Err e, s')
  | (Panic, s') => (Panic, s')
  end.

Definition get {S} : M S S := fun s => (Ret s, s).
Definition put {S} (s' : S) : M S unit := fun _ => (Ret tt, s').
Definition modify {S} (f : S -> S) : M S unit := fun s => (Ret tt, f s).
Definition throw {S A} (e : error) : M S A := fun s => (Err e, s).
Definition panic {S A} : M S A := fun s => (Panic, s).

(** A call that reads the state and may return an error or panic. *)
Definition asks {S A} (f : S -> outcome A) : M S A := fun s => (f s, s).

(** A call whose error is replaced by another one. *)
Definition wrap {S A} (m : M S A) (e' : error) : M S A := fun s =>
  match m s with (Err _, s') => (Err e', s') | r => r end.

(** A call whose error is only logged: the caller goes on to return. *)
Definition ignore {S} (m : M S unit) : M S unit := fun s =>
  match m s with (Err _, s') => (Ret tt, s') | r => r end.

Definition when {S} (b : bool) (m : M S unit) : M S unit :=
  if b then m else mret tt.

(** ** Reasoning about the state monad *)

(** [wp m Q s]: running [m] from [s] ends in an outcome and a state in [Q]. *)
Definition wp {S A} (m : M S A) (Q : outcome A -> S -> Prop) (s : S) : Prop :=
  Q (m s).1 (m s).2.

(** [respects R m]: [m] moves the state along [R], however it ends. *)
Definition respects {S A} (R : S -> S -> Prop) (m : M S A) : Prop :=
  forall s, R s (m s).2.

Lemma wp_bind {S A B} (m : M S A) (f : A -> M S B) Q s :
  wp m (fun o s' => match o with
                    | Ret a => wp (f a) Q s'
                    | Err e => Q (Err e) s'
                    | Panic => Q Panic s'
                    end) s ->
  wp (m ≫= f) Q s.
Proof. unfold wp, mbind, M_bind. by destruct (m s) as [[a|e|] s']. Qed.

Lemma wp_ret {S A} (a : A) (Q : outcome A -> S -> Prop) s :
  Q (Ret a) s -> wp (mret a) Q s.
Proof. done. Qed.

Lemma wp_asks {S A} (f : S -> outcome A) Q s : Q (f s) s -> wp (asks f) Q s.
Proof. done. Qed.

Lemma wp_mono {S A} (m : M S A) (Q Q' : outcome A -> S -> Prop) s :
  wp m Q s -> (forall o s', Q o s' -> Q' o s') -> wp m Q' s.
Proof. unfold wp. auto. Qed.

Lemma bind_Ret {S A B} (m : M S A) (k : A -> M S B) s x s' : m s = (Ret x, s') -> (m ≫= k) s = k x s'.
Proof. intros E. unfold mbind, M_bind. by rewrite E. Qed.

Section Respects.
Context {S : Type} (R : S -> S -> Prop) `{!PreOrder R}.

Lemma respects_ret {A} (a : A) : respects R (mret a).
Proof. intros s. simpl. reflexivity. Qed.

Lemma respects_throw {A} e : respects R (throw (A:=A) e).
Proof. intros s. simpl. reflexivity. Qed.

Lemma respects_panic {A} : respects R (panic (A:=A)).
Proof. intros s. simpl. reflexivity. Qed.

Lemma respects_asks {A} (f : S -> outcome A) : respects R (asks f).
Proof. intros s. simpl. reflexivity. Qed.

Lemma respects_get : respects R get.
Proof. intros s. simpl. reflexivity. Qed.

Lemma respects_modify (f : S -> S) : (forall s, R s (f s)) -> respects R (modify f).
Proof. intros H s. apply H. Qed.

Lemma respects_bind {A B} (m : M S A) (f : A -> M S B) :
  respects R m -> (forall a, respects R (f a)) -> respects R (m ≫= f).
Proof.
  intros Hm Hf s. unfold mbind, M_bind. pose proof (Hm s) as H.
  destruct (m s) as [[a|e|] s'] eqn:E; simpl in *; try done.
  etrans; [exact H|]. apply Hf.
Qed.

Lemma respects_wrap {A} (m : M S A) e : respects R m -> respects R (wrap m e).
Proof. intros Hm s. specialize (Hm s). unfold wrap. by destruct (m s) as [[]]. Qed.

Lemma respects_ignore (m : M S unit) : respects R m -> respects R (ignore m).
Proof. intros Hm s. specialize (Hm s). unfold ignore. by destruct (m s) as [[]]. Qed.

Lemma respects_when b (m : M S unit) : respects R m -> respects R (when b m).
Proof. destruct b; simpl; auto using respects_ret. Qed.

End Respects.

Create HintDb respects.
#[export] Hint Resolve respects_ret respects_throw respects_panic respects_asks
  respects_get respects_bind respects_wrap respects_ignore respects_when : respects.

Lemma outcome_fmap_Ret {A B} (f : A -> B) (m : outcome A) b :
  f <$> m = Ret b -> exists a, m = Ret a /\ b = f a.
Proof. destruct m; try done. intros [= <-]. eauto. Qed.

Lemma outcome_bind_Ret {A B} (m : outcome A) (f : A -> outcome B) b :
  (m ≫= f) = Ret b -> exists a, m = Ret a /\ f a = Ret b.
Proof. destruct m; simpl; intros; [eauto|done|done]. Qed.

Lemma fail_if_Ret c e u : fail_if c e = Ret u -> c = false.
Proof. by destruct c. Qed.

Lemma deref_Ret {A} (p : option A) a : deref p = Ret a -> p = Some a.
Proof. destruct p; simpl; congruence. Qed.

Lemma on_err_Ret {A} (m : outcome A) e a : on_err m e = Ret a -> m = Ret a.
Proof. destruct m; simpl; congruence. Qed.

(** ** Computations without panics *)

Definition safe {A} (m : outcome A) : Prop := m <> Panic.

Lemma safe_Ret {A} (a : A) : safe (Ret a).
Proof. done. Qed.

Lemma safe_Err {A} e : safe (Err (A:=A) e).
Proof. done. Qed.

Lemma safe_bind {A B} (m : outcome A) (f : A -> outcome B) :
  safe m -> (forall a, m = Ret a -> safe (f a)) -> safe (m ≫= f).
Proof. unfold safe. destruct m; simpl; auto. Qed.

Lemma safe_fmap {A B} (f : A -> B) (m : outcome A) : safe m -> safe (f <$> m).
Proof. by destruct m. Qed.

Lemma safe_on_err {A} (m : outcome A) e : safe m -> safe (on_err m e).
Proof. by destruct m. Qed.

Lemma safe_fail_if c e : safe (fail_if c e).
Proof. by destruct c. Qed.

Lemma safe_deref {A} (p : option A) : is_Some p -> safe (deref p).
Proof. by intros [a ->]. Qed.

Create HintDb safe.
#[export] Hint Resolve safe_Ret safe_Err safe_fmap safe_on_err safe_fail_if safe_deref : safe.
#[export] Hint Extern 2 (safe (_ ≫= _)) => apply safe_bind; [|intros ? ?] : safe.
#[export] Hint Extern 2 (safe (if ?b then _ else _)) => destruct b eqn:? : safe.
