(* ===== verification/Rlp.v ===== *)
(** * RLP: the wire and storage encoding (package [rlp])

    [item] is the shape every RLP value has: a byte string or a list.  The
    encoder is modelled twice: [encode], the recursive definition, and
    [encbuf], the buffer of [rlp/encode.go] that collects string data and list
    headers separately and interleaves them in [toBytes].  The decoder is
    [rlp/raw.go]: [readKind], [readSize] and [Split], with the recursion of
    [decodeInterface] on top of it ([DecodeBytes]).  The typed codecs of the
    other files translate records to and from [item]. *)
From S2P Require Import Prelude Errors.
From Stdlib Require Import ZArith Lia Strings.Byte.
From stdpp Require Import base list.
Open Scope Z_scope.

(** ** Values *)

Inductive item : Type :=
| Str (b : bytes)
| Lst (l : list item).

Definition zlen {A} (l : list A) : Z := Z.of_nat (length l).

(** ** Encoder *)

(** [intsize]: the number of bytes needed to store [i]; at most eight rounds of
    the loop, since [i] is a [uint64]. *)
Fixpoint intsize_loop (fuel : nat) (size i : Z) : Z :=
  match fuel with
  | O => size
  | S f => let i' := Z.shiftr i 8 in
           if i' =? 0 then size else intsize_loop f (size + 1) i'
  end.
Definition intsize (i : Z) : Z := intsize_loop 8 1 i.

(** [putint]: big-endian bytes of [i], as few as possible. *)
Definition putint (i : Z) : bytes :=
  if i <? Z.shiftl 1 8 then be_fixed 1 i
  else if i <? Z.shiftl 1 16 then be_fixed 2 i
  else if i <? Z.shiftl 1 24 then be_fixed 3 i
  else if i <? Z.shiftl 1 32 then be_fixed 4 i
  else if i <? Z.shiftl 1 40 then be_fixed 5 i
  else if i <? Z.shiftl 1 48 then be_fixed 6 i
  else if i <? Z.shiftl 1 56 then be_fixed 7 i
  else be_fixed 8 i.

Definition headsize (size : Z) : Z := if size <? 56 then 1 else 1 + intsize size.

Definition puthead (smalltag largetag size : Z) : bytes :=
  if size <? 56 then [byte_of_Z (smalltag + size)]
  else let s := putint size in byte_of_Z (largetag + zlen s) :: s.

Definition encodeStringHeader (size : Z) : bytes :=
  if size <? 56 then [byte_of_Z (128 + size)]
  else let s := putint size in byte_of_Z (183 + zlen s) :: s.

Definition encodeString (b : bytes) : bytes :=
  match b with
  | [x] => if Z_of_byte x <=? 127 then [x] else encodeStringHeader 1 ++ b
  | _ => encodeStringHeader (zlen b) ++ b
  end.

Definition encodeUint (i : Z) : bytes :=
  if i =? 0 then [byte_of_Z 128]
  else if i <? 128 then [byte_of_Z i]
  else let s := putint i in byte_of_Z (128 + zlen s) :: s.

(** The encoding of a value: the package documentation's definition. *)
Fixpoint encode (it : item) : bytes :=
  match it with
  | Str b => encodeString b
  | Lst l => let c := concat (map encode l) in puthead 192 247 (zlen c) ++ c
  end.

(** *** The buffered encoder *)

Record listhead := mkListhead { lh_offset : Z; lh_size : Z }.

Record encbuf := mkEncbuf {
  eb_str : bytes;
  eb_lheads : list listhead;
  eb_lhsize : Z
}.

Definition encbuf_reset : encbuf := mkEncbuf [] [] 0.

Definition listhead_encode (h : listhead) : bytes := puthead 192 247 (lh_size h).

Definition encbuf_size (w : encbuf) : Z := zlen (eb_str w) + eb_lhsize w.

Definition encbuf_encodeString (b : bytes) (w : encbuf) : encbuf :=
  mkEncbuf (eb_str w ++ encodeString b) (eb_lheads w) (eb_lhsize w).

(** [list]: push a header whose size field holds the header bytes so far. *)
Definition encbuf_list (w : encbuf) : nat * encbuf :=
  (length (eb_lheads w),
   mkEncbuf (eb_str w)
     (eb_lheads w ++ [mkListhead (zlen (eb_str w)) (eb_lhsize w)]) (eb_lhsize w)).

(** [listEnd]: the list's size is what was added since [list]. *)
Definition encbuf_listEnd (index : nat) (w : encbuf) : encbuf :=
  match eb_lheads w !! index with
  | None => w
  | Some lh =>
      let size := encbuf_size w - lh_offset lh - lh_size lh in
      mkEncbuf (eb_str w)
        (<[index := mkListhead (lh_offset lh) size]> (eb_lheads w))
        (if size <? 56 then eb_lhsize w + 1
         else eb_lhsize w + (1 + intsize size))
  end.

(** The writer of a value: strings are appended, lists open and close a head. *)
Fixpoint encbuf_write (it : item) (w : encbuf) : encbuf :=
  match it with
  | Str b => encbuf_encodeString b w
  | Lst l =>
      let '(index, w1) := encbuf_list w in
      encbuf_listEnd index (fold_left (fun w' x => encbuf_write x w') l w1)
  end.

Fixpoint toBytes_loop (str : bytes) (strpos : Z) (heads : list listhead) : bytes :=
  match heads with
  | [] => drop (Z.to_nat strpos) str
  | head :: heads' =>
      let chunk := drop (Z.to_nat strpos) (take (Z.to_nat (lh_offset head)) str) in
      chunk ++ listhead_encode head
        ++ toBytes_loop str (strpos + zlen chunk) heads'
  end.

Definition toBytes (w : encbuf) : bytes := toBytes_loop (eb_str w) 0 (eb_lheads w).

Definition EncodeToBytes (it : item) : bytes := toBytes (encbuf_write it encbuf_reset).

(** ** Decoder *)

Inductive Kind : Type := KByte | KString | KList.

Definition readSize (b : bytes) (slen : Z) : outcome Z :=
  if zlen b <? slen then Err ErrUnexpectedEOF
  else
    let s := if (1 <=? slen) && (slen <=? 8)
             then be_value (take (Z.to_nat slen) b) else 0 in
    if (s <? 56) || (match b with x :: _ => Z_of_byte x =? 0 | [] => false end)
    then Err ErrCanonSize else Ret s.

Definition readKind (buf : bytes) : outcome (Kind * Z * Z) :=
  match buf with
  | [] => Err ErrUnexpectedEOF
  | b0 :: rest =>
      let b := Z_of_byte b0 in
      '(k, tagsize, contentsize) ←
        (if b <? 128 then Ret (KByte, 0, 1)
         else if b <? 184 then
           let contentsize := b - 128 in
           if (contentsize =? 1) &&
              (match rest with x :: _ => Z_of_byte x <? 128 | [] => false end)
           then Err ErrCanonSize
           else Ret (KString, 1, contentsize)
         else if b <? 192 then
           cs ← readSize rest (b - 183); Ret (KString, b - 183 + 1, cs)
         else if b <? 248 then Ret (KList, 1, b - 192)
         else cs ← readSize rest (b - 247); Ret (KList, b - 247 + 1, cs));
      if u64 (zlen buf - tagsize) <? contentsize then Err ErrValueTooLarge
      else Ret (k, tagsize, contentsize)
  end.

Definition Split (b : bytes) : outcome (Kind * bytes * bytes) :=
  '(k, ts, cs) ← readKind b;
  Ret (k, take (Z.to_nat cs) (drop (Z.to_nat ts) b), drop (Z.to_nat (ts + cs)) b).

Definition SplitString (b : bytes) : outcome (bytes * bytes) :=
  '(k, content, rest) ← Split b;
  match k with KList => Err ErrExpectedString | _ => Ret (content, rest) end.

Definition SplitList (b : bytes) : outcome (bytes * bytes) :=
  '(k, content, rest) ← Split b;
  match k with KList => Ret (content, rest) | _ => Err ErrExpectedList end.

Definition SplitUint64 (b : bytes) : outcome (Z * bytes) :=
  '(content, rest) ← SplitString b;
  match content with
  | [] => Ret (0, rest)
  | [x] => if Z_of_byte x =? 0 then Err ErrCanonInt else Ret (Z_of_byte x, rest)
  | _ =>
      if 8 <? zlen content then Err ErrUintOverflow
      else match readSize content (zlen content) with
           | Ret x => Ret (x, rest)
           | Err _ => Err ErrCanonInt
           | Panic => Panic
           end
  end.

(** The elements of a list's content, as [decodeInterface] reads them.  Every
    recursive call is on a strictly shorter string, so [length b] is fuel
    enough. *)
Fixpoint decodeList (fuel : nat) (b : bytes) : outcome (list item) :=
  match b, fuel with
  | [], _ => Ret []
  | _, O => Err ErrUnexpectedEOF
  | _, S f =>
      '(k, c, rest) ← Split b;
      it ← (match k with
            | KList => l ← decodeList f c; Ret (Lst l)
            | _ => Ret (Str c)
            end);
      tl ← decodeList f rest;
      Ret (it :: tl)
  end.

(** [DecodeBytes]: exactly one value and no trailing data. *)
Definition DecodeBytes (b : bytes) : outcome item :=
  '(k, c, rest) ← Split b;
  it ← (match k with
        | KList => l ← decodeList (length c) c; Ret (Lst l)
        | _ => Ret (Str c)
        end);
  match rest with [] => Ret it | _ => Err ErrMoreThanOneValue end.

(** ** Codecs of basic values *)

(** [writeBigInt]: the minimal big-endian string; negative numbers are refused. *)
Definition bigint_bytes (z : Z) : bytes :=
  if z =? 0 then [] else be_fixed (Z.to_nat (Z.log2 z / 8 + 1)) z.

Definition writeBigInt (z : Z) : outcome item :=
  if z <? 0 then Err ErrNegativeBigInt else Ret (Str (bigint_bytes z)).

(** [decodeBigInt] *)
Definition decodeBigInt (it : item) : outcome Z :=
  match it with
  | Lst _ => Err ErrExpectedString
  | Str b =>
      match b with
      | x :: _ => if Z_of_byte x =? 0 then Err ErrCanonInt else Ret (be_value b)
      | [] => Ret 0
      end
  end.

(** [writeUint] and [decodeUint] at 64 bits. *)
Definition writeUint (i : Z) : item := Str (bigint_bytes i).

Definition decodeUint (bits : Z) (it : item) : outcome Z :=
  match it with
  | Lst _ => Err ErrExpectedString
  | Str b =>
      if bits / 8 <? zlen b then Err ErrUintOverflow
      else match b with
           | x :: _ => if Z_of_byte x =? 0 then Err ErrCanonInt else Ret (be_value b)
           | [] => Ret 0
           end
  end.

(** [writeBytes] and [decodeByteSlice] *)
Definition decodeByteSlice (it : item) : outcome bytes :=
  match it with Str b => Ret b | Lst _ => Err ErrExpectedString end.

(** [makeByteArrayWriter] and [decodeByteArray] for a [[n]byte] held as a number. *)
Definition writeByteArray (n : nat) (z : Z) : item := Str (be_fixed n z).

Definition decodeByteArray (n : nat) (it : item) : outcome Z :=
  match it with
  | Lst _ => Err ErrExpectedString
  | Str b => if (n <? length b)%nat then Err ErrStringTooLong
             else if (length b <? n)%nat then Err ErrStringTooShort
             else Ret (be_value b)
  end.

(** [decodeListSlice] with the element decoder [dec]. *)
Fixpoint mapM_outcome {A B} (f : A -> outcome B) (l : list A) : outcome (list B) :=
  match l with
  | [] => Ret []
  | x :: l' => y ← f x; ys ← mapM_outcome f l'; Ret (y :: ys)
  end.

Definition decodeListSlice {A} (dec : item -> outcome A) (it : item) : outcome (list A) :=
  match it with Lst l => mapM_outcome dec l | Str _ => Err ErrExpectedList end.

(** ** Lemmas: integers *)

Lemma shiftl_pow n : 0 <= n -> Z.shiftl 1 n = 2 ^ n.
Proof. intros. rewrite Z.shiftl_mul_pow2 by lia. lia. Qed.

(** [putint] writes the minimal number of bytes. *)
Lemma putint_spec i : 0 <= i < 2 ^ 64 ->
  exists n : nat, (1 <= n <= 8)%nat /\ putint i = be_fixed n i /\
    i < 256 ^ Z.of_nat n /\ (n = 1%nat \/ 256 ^ (Z.of_nat n - 1) <= i).
Proof.
  intros Hi. unfold putint. rewrite !shiftl_pow by lia.
  repeat match goal with
  | |- context [?a <? ?b] => destruct (Z.ltb_spec a b)
  end; [exists 1%nat|exists 2%nat|exists 3%nat|exists 4%nat|exists 5%nat
       |exists 6%nat|exists 7%nat|exists 8%nat]; (repeat split; [lia|lia| |]);
  cbn [Z.of_nat Pos.of_succ_nat Pos.succ]; try (left; lia); lia || (right; lia).
Qed.

Lemma length_putint i : 0 <= i < 2 ^ 64 -> (1 <= length (putint i) <= 8)%nat.
Proof.
  intros (n & Hn & -> & _)%putint_spec. rewrite length_be_fixed. lia.
Qed.

Lemma be_value_putint i : 0 <= i < 2 ^ 64 -> be_value (putint i) = i.
Proof.
  intros Hi. destruct (putint_spec i Hi) as (n & Hn & -> & Hlt & _).
  apply be_value_fixed_small. lia.
Qed.

Lemma be_fixed_cons_hd n z : 0 <= z < 256 ^ Z.of_nat (S n) ->
  exists b tl, be_fixed (S n) z = b :: tl /\ length tl = n /\
    Z_of_byte b = z / 256 ^ Z.of_nat n.
Proof.
  intros Hz. pose proof (length_be_fixed (S n) z) as Hl.
  destruct (be_fixed (S n) z) as [|b tl] eqn:E; [simpl in Hl; lia|].
  exists b, tl. split; [done|]. simpl in Hl. split; [lia|].
  assert (length tl = n) as Hl' by lia.
  pose proof (be_value_fixed_small (S n) z Hz) as Hv. rewrite E, be_value_cons, Hl' in Hv.
  pose proof (be_value_range tl) as Hr. rewrite Hl' in Hr.
  rewrite <- Hv, Z.div_add_l by lia. rewrite Z.div_small by lia. lia.
Qed.

(** The first byte of a minimal encoding is not zero. *)
Lemma be_fixed_hd_nonzero n z :
  256 ^ Z.of_nat n <= z < 256 ^ Z.of_nat (S n) ->
  exists b tl, be_fixed (S n) z = b :: tl /\ Z_of_byte b <> 0.
Proof.
  intros Hz. destruct (be_fixed_cons_hd n z) as (b & tl & E & _ & Hb); [lia|].
  exists b, tl. split; [done|]. rewrite Hb.
  pose proof (Z.div_le_lower_bound z (256 ^ Z.of_nat n) 1). lia.
Qed.

Lemma putint_hd i : 56 <= i < 2 ^ 64 ->
  exists b tl, putint i = b :: tl /\ Z_of_byte b <> 0.
Proof.
  intros Hi. destruct (putint_spec i) as (n & Hn & -> & Hlt & Hge); [lia|].
  destruct n as [|n]; [lia|].
  destruct (be_fixed_hd_nonzero n i) as (b & tl & ? & ?); [|eauto].
  split; [|lia]. destruct Hge as [Heq|Hge].
  - injection Heq as ->. simpl. lia.
  - replace (Z.of_nat (S n) - 1) with (Z.of_nat n) in Hge by lia. lia.
Qed.

(** A byte string without a leading zero is determined by the number it denotes. *)
Lemma putint_be_value b bs : Z_of_byte b <> 0 -> (length (b :: bs) <= 8)%nat ->
  putint (be_value (b :: bs)) = b :: bs.
Proof.
  intros Hb Hl. set (i := be_value (b :: bs)).
  pose proof (be_value_range (b :: bs)) as Hr. fold i in Hr.
  pose proof (Z_of_byte_range b) as Hbr.
  assert (256 ^ Z.of_nat (length bs) <= i) as Hlo.
  { unfold i. rewrite be_value_cons. pose proof (be_value_range bs). nia. }
  assert (256 ^ Z.of_nat (length (b :: bs)) <= 2 ^ 64) as H64.
  { change (2 ^ 64) with (256 ^ 8). apply Z.pow_le_mono_r; lia. }
  destruct (putint_spec i) as (n & Hn & -> & Hlt & Hge); [lia|].
  enough (n = length (b :: bs)) as -> by apply be_fixed_value.
  simpl length in *.
  assert (n <= S (length bs))%nat.
  { destruct Hge as [->|Hge]; [lia|].
    enough (~ (S (length bs) < n)%nat) by lia. intros Hc.
    assert (256 ^ Z.of_nat (S (length bs)) <= 256 ^ (Z.of_nat n - 1))
      by (apply Z.pow_le_mono_r; lia). lia. }
  enough (~ (n < S (length bs))%nat) by lia. intros Hc.
  assert (256 ^ Z.of_nat n <= 256 ^ Z.of_nat (length bs))
    by (apply Z.pow_le_mono_r; lia). lia.
Qed.

Lemma readSize_putint s rest : 56 <= s < 2 ^ 64 ->
  readSize (putint s ++ rest) (zlen (putint s)) = Ret s.
Proof.
  intros Hs. unfold readSize, zlen. rewrite length_app.
  pose proof (length_putint s ltac:(lia)) as Hl.
  destruct (Z.ltb_spec (Z.of_nat (length (putint s) + length rest))
             (Z.of_nat (length (putint s)))); [lia|].
  rewrite !(proj2 (Z.leb_le _ _)) by lia. cbn [andb].
  rewrite Nat2Z.id, take_app_length, be_value_putint by lia.
  destruct (putint_hd s Hs) as (b & tl & -> & Hb). cbn [app].
  destruct (Z.ltb_spec s 56); [lia|]. destruct (Z.eqb_spec (Z_of_byte b) 0); [done|]. done.
Qed.

Lemma readSize_inv b slen s : 1 <= slen <= 8 -> readSize b slen = Ret s ->
  56 <= s < 2 ^ 64 /\ exists rest, b = putint s ++ rest /\ zlen (putint s) = slen.
Proof.
  intros Hslen. unfold readSize, zlen.
  destruct (Z.ltb_spec (Z.of_nat (length b)) slen); [done|].
  rewrite !(proj2 (Z.leb_le _ _)) by lia. cbn [andb].
  set (v := be_value _). destruct (Z.ltb_spec v 56); [done|]. cbn [orb].
  destruct b as [|x b]; [simpl in *; lia|].
  destruct (Z.eqb_spec (Z_of_byte x) 0) as [|Hx]; [done|]. intros [= <-].
  assert (take (Z.to_nat slen) (x :: b) = x :: take (Z.to_nat slen - 1) b) as Ht.
  { destruct (Z.to_nat slen) eqn:E; [lia|]. simpl. by rewrite Nat.sub_0_r. }
  unfold v in *. rewrite Ht in *. clear v.
  set (t := take (Z.to_nat slen - 1) b) in *.
  assert (length (x :: t) = Z.to_nat slen) as Hlt.
  { rewrite <- Ht, length_take. lia. }
  pose proof (be_value_range (x :: t)) as Hr. rewrite Hlt in Hr.
  assert (256 ^ Z.of_nat (Z.to_nat slen) <= 2 ^ 64) as H64.
  { change (2 ^ 64) with (256 ^ 8). apply Z.pow_le_mono_r; lia. }
  rewrite (putint_be_value x t Hx) by lia. split; [lia|].
  exists (drop (Z.to_nat slen) (x :: b)). split; [|lia].
  rewrite <- Ht. by rewrite take_drop.
Qed.

(** ** Lemmas: headers *)

(** The two tag families: strings at 0x80/0xB7, lists at 0xC0/0xF7. *)
Inductive tags : Kind -> Z -> Z -> Prop :=
| tags_string : tags KString 128 183
| tags_list : tags KList 192 247.

Lemma zlen_app {A} (l1 l2 : list A) : zlen (l1 ++ l2) = zlen l1 + zlen l2.
Proof. unfold zlen. rewrite length_app. lia. Qed.

Lemma zlen_cons {A} (x : A) l : zlen (x :: l) = 1 + zlen l.
Proof. unfold zlen. simpl. lia. Qed.

Lemma zlen_nonneg {A} (l : list A) : 0 <= zlen l.
Proof. unfold zlen. lia. Qed.

Lemma encodeStringHeader_puthead size :
  encodeStringHeader size = puthead 128 183 size.
Proof. done. Qed.

Lemma Z_of_byte_of_small z : 0 <= z < 256 -> Z_of_byte (byte_of_Z z) = z.
Proof. intros. rewrite Z_of_byte_of_Z. by apply Z.mod_small. Qed.

Ltac Zcases :=
  repeat match goal with
  | |- context [?a <? ?b] =>
      lazymatch a with context [u64] => fail | _ => idtac end;
      destruct (Z.ltb_spec a b); try lia
  | |- context [?a <=? ?b] => destruct (Z.leb_spec a b); try lia
  | |- context [?a =? ?b] => destruct (Z.eqb_spec a b); try lia
  end.

Lemma readKind_puthead k small large size tl :
  tags k small large -> 0 <= size < 2 ^ 64 -> size <= zlen tl ->
  zlen (puthead small large size ++ tl) < 2 ^ 64 ->
  (k = KString -> size = 1 -> match tl with x :: _ => 128 <= Z_of_byte x | [] => False end) ->
  readKind (puthead small large size ++ tl) =
    Ret (k, zlen (puthead small large size), size).
Proof.
  intros Ht Hs Htl Hlen Hone. unfold puthead in *.
  destruct (Z.ltb_spec size 56) as [Hsm|Hlg]; cbn [app] in *; unfold readKind.
  - rewrite zlen_cons in *. rewrite Z_of_byte_of_small by (destruct Ht; lia).
    assert (k = KString -> (small + size - 128 =? 1) &&
      match tl with [] => false | x :: _ => Z_of_byte x <? 128 end = false) as Hcanon.
    { intros Hk. destruct Ht; [|done]. replace (128 + size - 128) with size by lia.
      destruct (Z.eqb_spec size 1) as [H1|]; [|done]. specialize (Hone Hk H1).
      destruct tl; [done|]. cbn [andb]. by apply Z.ltb_ge. }
    destruct Ht; [rewrite (Hcanon eq_refl)|]; Zcases; cbn [mbind outcome_bind];
      rewrite u64_small by (pose proof (zlen_nonneg tl); lia); Zcases; do 2 f_equal; lia.
  - pose proof (length_putint size ltac:(lia)) as Hp.
    assert (1 <= zlen (putint size) <= 8) as Hz by (unfold zlen; lia).
    rewrite zlen_cons, zlen_app in *. rewrite Z_of_byte_of_small by (destruct Ht; lia).
    destruct Ht; Zcases.
    + replace (183 + zlen (putint size) - 183) with (zlen (putint size)) by lia.
      rewrite readSize_putint by lia. cbn [mbind outcome_bind].
      rewrite u64_small by (pose proof (zlen_nonneg tl); lia). Zcases.
      rewrite zlen_cons. by replace (1 + zlen (putint size)) with (zlen (putint size) + 1) by lia.
    + replace (247 + zlen (putint size) - 247) with (zlen (putint size)) by lia.
      rewrite readSize_putint by lia. cbn [mbind outcome_bind].
      rewrite u64_small by (pose proof (zlen_nonneg tl); lia). Zcases.
      rewrite zlen_cons. by replace (1 + zlen (putint size)) with (zlen (putint size) + 1) by lia.
Qed.

Lemma Split_at hd c rest k :
  readKind (hd ++ c ++ rest) = Ret (k, zlen hd, zlen c) ->
  Split (hd ++ c ++ rest) = Ret (k, c, rest).
Proof.
  intros H. unfold Split. rewrite H. cbn [mbind outcome_bind]. unfold zlen.
  rewrite <- Nat2Z.inj_add, !Nat2Z.id, drop_app_length, take_app_length.
  rewrite <- length_app, app_assoc, drop_app_length. done.
Qed.

Lemma Split_list c rest : zlen (puthead 192 247 (zlen c) ++ c ++ rest) < 2 ^ 64 ->
  Split (puthead 192 247 (zlen c) ++ c ++ rest) = Ret (KList, c, rest).
Proof.
  intros Hlen. apply Split_at, readKind_puthead; try done; [constructor| |].
  - rewrite !zlen_app in Hlen. pose proof (zlen_nonneg c). pose proof (zlen_nonneg rest).
    pose proof (zlen_nonneg (puthead 192 247 (zlen c))). lia.
  - rewrite zlen_app. pose proof (zlen_nonneg rest). lia.
Qed.

Lemma Split_string b rest : zlen (encodeString b ++ rest) < 2 ^ 64 ->
  exists k, k <> KList /\ Split (encodeString b ++ rest) = Ret (k, b, rest).
Proof.
  assert (forall b, (forall x, b = [x] -> 127 < Z_of_byte x) ->
    zlen (encodeStringHeader (zlen b) ++ b ++ rest) < 2 ^ 64 ->
    exists k, k <> KList /\ Split (encodeStringHeader (zlen b) ++ b ++ rest) = Ret (k, b, rest)) as Hgen.
  { clear b. intros b Hb Hlen. exists KString. split; [done|].
    rewrite encodeStringHeader_puthead in *. apply Split_at, readKind_puthead; try done.
    - constructor.
    - rewrite !zlen_app in Hlen. pose proof (zlen_nonneg b). pose proof (zlen_nonneg rest).
      pose proof (zlen_nonneg (puthead 128 183 (zlen b))). lia.
    - rewrite zlen_app. pose proof (zlen_nonneg rest). lia.
    - intros _ H1. destruct b as [|x [|y b]]; unfold zlen in H1; simpl in *; try lia.
      specialize (Hb x eq_refl). lia. }
  intros Hlen. unfold encodeString in *. destruct b as [|x [|y b]].
  - by apply (Hgen []).
  - destruct (Z.leb_spec (Z_of_byte x) 127) as [Hx|Hx].
    + exists KByte. split; [done|]. apply (Split_at [] [x] rest).
      unfold readKind. cbn [app]. pose proof (Z_of_byte_range x). Zcases.
      cbn [mbind outcome_bind app] in *. rewrite zlen_cons in *.
      pose proof (zlen_nonneg rest). rewrite u64_small by lia. Zcases. done.
    + rewrite <- app_assoc in *. apply (Hgen [x]); [|done]. by intros ? [= <-].
  - rewrite <- app_assoc in *. by apply (Hgen (x :: y :: b)).
Qed.

(** [readKind] accepts only the header the encoder would have written. *)
Lemma readKind_inv b k ts cs : zlen b < 2 ^ 64 -> readKind b = Ret (k, ts, cs) ->
  match k with
  | KByte => exists x tl, b = x :: tl /\ Z_of_byte x <= 127 /\ ts = 0 /\ cs = 1
  | _ => exists small large tl, tags k small large /\ b = puthead small large cs ++ tl /\
           ts = zlen (puthead small large cs) /\ 0 <= cs <= zlen tl /\
           (k = KString -> cs = 1 ->
             match tl with x :: _ => 128 <= Z_of_byte x | [] => False end)
  end.
Proof.
  intros Hlen. unfold readKind. destruct b as [|x tl]; [done|].
  pose proof (Z_of_byte_range x) as Hx. pose proof (zlen_nonneg tl) as Htl.
  rewrite zlen_cons in *.
  destruct (Z.ltb_spec (Z_of_byte x) 128).
  { cbn [mbind outcome_bind]. rewrite u64_small by lia. Zcases.
    intros [= <- <- <-]. exists x, tl. repeat split; lia. }
  destruct (Z.ltb_spec (Z_of_byte x) 184).
  { destruct ((_ =? 1) && _) eqn:Ec; [done|]. cbn [mbind outcome_bind].
    rewrite u64_small by lia.
    destruct (Z.ltb_spec (1 + zlen tl - 1) (Z_of_byte x - 128)); [done|]. intros [= <- <- <-].
    exists 128, 183, tl. unfold puthead. Zcases.
    replace (128 + (Z_of_byte x - 128)) with (Z_of_byte x) by lia.
    rewrite byte_of_Z_of_byte. repeat split; try lia; [constructor|].
    intros _ Hc1. rewrite Hc1 in Ec. cbn [Z.eqb Pos.eqb andb] in Ec.
    destruct tl; [unfold zlen in *; simpl in *; lia|]. by apply Z.ltb_ge in Ec. }
  assert (forall k small large cs',
    tags k small large -> 1 <= Z_of_byte x - large <= 8 ->
    readSize tl (Z_of_byte x - large) = Ret cs' ->
    (u64 (1 + zlen tl - (Z_of_byte x - large + 1)) <? cs') = false ->
    exists tl', x :: tl = puthead small large cs' ++ tl' /\
      Z_of_byte x - large + 1 = zlen (puthead small large cs') /\ 56 <= cs' <= zlen tl') as Hlong.
  { intros k' small large cs' Ht Hr Hrs Hu.
    destruct (readSize_inv _ _ _ Hr Hrs) as (Hcs & tl' & -> & Hp).
    exists tl'. unfold puthead. Zcases. rewrite Hp, zlen_cons, Hp.
    replace (large + (Z_of_byte x - large)) with (Z_of_byte x) by lia.
    rewrite byte_of_Z_of_byte. rewrite zlen_app in *.
    pose proof (zlen_nonneg tl'). rewrite u64_small in Hu by lia.
    apply Z.ltb_ge in Hu. repeat split; lia. }
  destruct (Z.ltb_spec (Z_of_byte x) 192).
  { destruct (readSize tl (Z_of_byte x - 183)) as [cs'| |] eqn:E; cbn [mbind outcome_bind]; [|done|done].
    destruct (u64 _ <? _) eqn:Hu; [done|]. intros [= <- <- <-].
    destruct (Hlong KString 128 183 cs') as (tl' & ? & ? & ?); try done; [constructor|lia|].
    exists 128, 183, tl'. repeat split; try done; try lia. constructor. }
  destruct (Z.ltb_spec (Z_of_byte x) 248).
  { cbn [mbind outcome_bind]. rewrite u64_small by lia.
    destruct (Z.ltb_spec (1 + zlen tl - 1) (Z_of_byte x - 192)); [done|]. intros [= <- <- <-].
    exists 192, 247, tl. unfold puthead. Zcases.
    replace (192 + (Z_of_byte x - 192)) with (Z_of_byte x) by lia.
    rewrite byte_of_Z_of_byte. repeat split; try lia; [constructor|done]. }
  destruct (readSize tl (Z_of_byte x - 247)) as [cs'| |] eqn:E; cbn [mbind outcome_bind]; [|done|done].
  destruct (u64 _ <? _) eqn:Hu; [done|]. intros [= <- <- <-].
  destruct (Hlong KList 192 247 cs') as (tl' & ? & ? & ?); try done; [constructor|lia|].
  exists 192, 247, tl'. repeat split; try done; try lia. constructor.
Qed.

Definition encode_kind (k : Kind) (c : bytes) : bytes :=
  match k with
  | KList => puthead 192 247 (zlen c) ++ c
  | _ => encodeString c
  end.

Lemma Split_inv b k c rest : zlen b < 2 ^ 64 -> Split b = Ret (k, c, rest) ->
  b = encode_kind k c ++ rest.
Proof.
  intros Hlen (((k' & ts) & cs) & Hk & Heq)%outcome_bind_Ret. injection Heq as -> <- <-.
  pose proof (readKind_inv _ _ _ _ Hlen Hk) as Hinv.
  assert (forall small large tl, b = puthead small large cs ++ tl ->
    ts = zlen (puthead small large cs) -> 0 <= cs <= zlen tl ->
    take (Z.to_nat cs) (drop (Z.to_nat ts) b) = take (Z.to_nat cs) tl /\
    drop (Z.to_nat (ts + cs)) b = drop (Z.to_nat cs) tl /\
    zlen (take (Z.to_nat cs) tl) = cs) as Hpos.
  { intros small large tl -> -> Hcs. unfold zlen in *.
    rewrite Nat2Z.id, drop_app_length, Z2Nat.inj_add, Nat2Z.id, drop_app_add, length_take by lia.
    repeat split; lia. }
  destruct k; cbn [encode_kind].
  - destruct Hinv as (x & tl & -> & Hx & -> & ->). simpl. Zcases. by rewrite drop_0.
  - destruct Hinv as (small & large & tl & Ht & Hb & Hts & Hcs & Hone).
    destruct (Hpos _ _ _ Hb Hts Hcs) as (Hc & Hr & Hlc). rewrite Hc, Hr. inversion Ht; subst small large.
    rewrite <- Hlc in Hb at 1. set (c := take (Z.to_nat cs) tl) in *.
    transitivity (encodeStringHeader (zlen c) ++ c ++ drop (Z.to_nat cs) tl).
    { rewrite Hb. unfold c. by rewrite take_drop. }
    rewrite app_assoc. f_equal. unfold encodeString. destruct c as [|y [|z c']] eqn:Ec; try done.
    unfold zlen in Hlc. simpl in Hlc. specialize (Hone eq_refl (eq_sym Hlc)).
    destruct tl as [|x tl]; [done|]. unfold c in Ec.
    destruct (Z.to_nat cs) eqn:En; simpl in Ec; [done|]. injection Ec as -> _. Zcases. done.
  - destruct Hinv as (small & large & tl & Ht & Hb & Hts & Hcs & _).
    destruct (Hpos _ _ _ Hb Hts Hcs) as (Hc & Hr & Hlc). rewrite Hc, Hr. inversion Ht; subst small large.
    rewrite Hlc, Hb, <- app_assoc. f_equal. by rewrite take_drop.
Qed.

Lemma encode_kind_length k c : (1 <= length (encode_kind k c))%nat /\
  (k = KList -> (length c < length (encode_kind k c))%nat).
Proof.
  assert (forall s l z, (1 <= length (puthead s l z))%nat) as Hp.
  { intros. unfold puthead. destruct (_ <? _); simpl; lia. }
  destruct k; cbn [encode_kind].
  1,2: split; [|done]; unfold encodeString; destruct c as [|x [|y c]];
    try destruct (_ <=? _); simpl; rewrite ?length_app; simpl; try lia;
    rewrite encodeStringHeader_puthead; specialize (Hp 128 183 0); lia.
  rewrite length_app. specialize (Hp 192 247 (zlen c)). split; [lia|intros; lia].
Qed.

(** ** Round trips *)

Definition item_kind (it : item) : Kind :=
  match it with
  | Lst _ => KList
  | Str [x] => if Z_of_byte x <=? 127 then KByte else KString
  | Str _ => KString
  end.

Definition item_content (it : item) : bytes :=
  match it with Str b => b | Lst l => concat (map encode l) end.

Lemma Split_encode it rest : zlen (encode it ++ rest) < 2 ^ 64 ->
  exists k, Split (encode it ++ rest) = Ret (k, item_content it, rest) /\
    (k = KList <-> exists l, it = Lst l).
Proof.
  intros Hlen. destruct it as [b|l]; cbn [encode item_content] in *.
  - destruct (Split_string b rest Hlen) as (k & Hk & ->). exists k. split; [done|].
    split; [done|]. by intros [? ?].
  - rewrite <- app_assoc in *. exists KList. split; [by apply Split_list|]. naive_solver.
Qed.

Lemma encode_length it : (1 <= length (encode it))%nat /\
  (forall l, it = Lst l -> (length (item_content it) < length (encode it))%nat).
Proof.
  destruct it as [b|l]; cbn [encode item_content].
  - destruct (encode_kind_length KString b) as [? _]. split; [done|]. by intros.
  - destruct (encode_kind_length KList (concat (map encode l))) as [? H].
    split; [done|]. intros _ _. by apply H.
Qed.

Lemma decodeList_encode fuel l :
  (length (concat (map encode l)) <= fuel)%nat ->
  zlen (concat (map encode l)) < 2 ^ 64 ->
  decodeList fuel (concat (map encode l)) = Ret l.
Proof.
  revert l. induction fuel as [|fuel IH]; intros l Hf Hlen.
  - destruct l as [|it l]; [done|]. simpl in Hf. rewrite length_app in Hf.
    pose proof (encode_length it). lia.
  - destruct l as [|it l]; [done|]. cbn [map concat] in *.
    destruct (encode_length it) as [Hpos Hcont]. rewrite length_app in Hf.
    destruct (Split_encode it (concat (map encode l)) Hlen) as (k & HS & Hk).
    destruct (encode it ++ concat (map encode l)) as [|x b'] eqn:E.
    { apply (f_equal length) in E. rewrite length_app in E. simpl in E. lia. }
    cbn [decodeList]. rewrite HS. cbn [mbind outcome_bind].
    assert (zlen (concat (map encode l)) < 2 ^ 64) as Hl.
    { unfold zlen in *. apply (f_equal length) in E. rewrite length_app in E. lia. }
    assert ((match k with KList => l0 ← decodeList fuel (item_content it); Ret (Lst l0)
             | _ => Ret (Str (item_content it)) end) = Ret it) as ->.
    { destruct it as [b|l'].
      - destruct k; try done. by destruct (proj1 Hk eq_refl).
      - rewrite (proj2 Hk (ex_intro _ l' eq_refl)). cbn [item_content].
        specialize (Hcont l' eq_refl). cbn [item_content] in Hcont.
        rewrite IH; [done|lia|]. unfold zlen in *. apply (f_equal length) in E.
        rewrite length_app in E. lia. }
    cbn [mbind outcome_bind]. rewrite IH by (done || lia). done.
Qed.

Lemma DecodeBytes_encode it : zlen (encode it) < 2 ^ 64 -> DecodeBytes (encode it) = Ret it.
Proof.
  intros Hlen. unfold DecodeBytes. rewrite <- (app_nil_r (encode it)) in *.
  destruct (Split_encode it [] Hlen) as (k & -> & Hk). cbn [mbind outcome_bind].
  destruct it as [b|l]; cbn [item_content].
  - destruct k; try done. by destruct (proj1 Hk eq_refl).
  - rewrite (proj2 Hk (ex_intro _ l eq_refl)), decodeList_encode; [done|done|].
    destruct (encode_length (Lst l)) as [_ H]. specialize (H l eq_refl). cbn [item_content] in H.
    rewrite app_nil_r in Hlen. unfold zlen in *. lia.
Qed.

Lemma decodeList_canonical fuel b l :
  zlen b < 2 ^ 64 -> decodeList fuel b = Ret l -> concat (map encode l) = b.
Proof.
  revert b l. induction fuel as [|fuel IH]; intros b l Hlen H.
  - destruct b; simpl in H; [|done]. by injection H as <-.
  - destruct b as [|x b']; [simpl in H; by injection H as <-|].
    cbn [decodeList] in H. set (b := x :: b') in *.
    apply outcome_bind_Ret in H as (((k & c) & rest) & HS & H).
    apply outcome_bind_Ret in H as (it & Hit & H).
    apply outcome_bind_Ret in H as (tl & Htl & [= <-]).
    pose proof (Split_inv _ _ _ _ Hlen HS) as Hb. rewrite Hb, zlen_app in Hlen.
    pose proof (zlen_nonneg (encode_kind k c)). pose proof (zlen_nonneg rest).
    cbn [map concat]. rewrite (IH rest tl) by (done || lia). rewrite Hb. f_equal.
    destruct k; cbn [encode_kind] in *; try (injection Hit as <-; done).
    apply outcome_bind_Ret in Hit as (l' & Hl' & [= <-]). cbn [encode].
    rewrite (IH c l'); [done| |done]. rewrite zlen_app in *.
    pose proof (zlen_nonneg (puthead 192 247 (zlen c))). lia.
Qed.

Lemma DecodeBytes_canonical b it :
  zlen b < 2 ^ 64 -> DecodeBytes b = Ret it -> encode it = b.
Proof.
  intros Hlen H. unfold DecodeBytes in H.
  apply outcome_bind_Ret in H as (((k & c) & rest) & HS & H).
  apply outcome_bind_Ret in H as (it' & Hit & H).
  destruct rest; [|done]. injection H as ->.
  pose proof (Split_inv _ _ _ _ Hlen HS) as Hb. rewrite app_nil_r in Hb. rewrite Hb.
  destruct k; cbn [encode_kind] in *; try (injection Hit as <-; done).
  apply outcome_bind_Ret in Hit as (l' & Hl' & [= <-]). cbn [encode].
  rewrite (decodeList_canonical _ _ _) with (2 := Hl'); [done|].
  rewrite Hb, zlen_app in Hlen. pose proof (zlen_nonneg (puthead 192 247 (zlen c))). lia.
Qed.

(** ** The buffered encoder computes the recursive encoding *)

Lemma item_ind' (P : item -> Prop) :
  (forall b, P (Str b)) -> (forall l, Forall P l -> P (Lst l)) -> forall it, P it.
Proof.
  intros HS HL. fix IH 1. intros [b|l]; [apply HS|]. apply HL.
  induction l as [|x l IHl]; constructor; [apply IH|exact IHl].
Qed.

(** The bytes [encbuf_write] appends to [str], and the headers it pushes. *)
Fixpoint str_data (it : item) : bytes :=
  match it with Str b => encodeString b | Lst l => concat (map str_data l) end.

Fixpoint list_heads (off : Z) (it : item) : list listhead :=
  match it with
  | Str _ => []
  | Lst l =>
      mkListhead off (zlen (concat (map encode l))) ::
      (fix go (o : Z) (l : list item) : list listhead :=
         match l with
         | [] => []
         | x :: l' => list_heads o x ++ go (o + zlen (str_data x)) l'
         end) off l
  end.

Fixpoint heads_of (off : Z) (l : list item) : list listhead :=
  match l with
  | [] => []
  | x :: l' => list_heads off x ++ heads_of (off + zlen (str_data x)) l'
  end.

Lemma list_heads_Lst off l :
  list_heads off (Lst l) = mkListhead off (zlen (concat (map encode l))) :: heads_of off l.
Proof. reflexivity. Qed.

Lemma intsize_loop_spec fuel size i (n : nat) :
  (1 <= n <= fuel)%nat -> 0 <= i < 256 ^ Z.of_nat n ->
  (n = 1%nat \/ 256 ^ (Z.of_nat n - 1) <= i) ->
  intsize_loop fuel size i = size + Z.of_nat n - 1.
Proof.
  revert size i n. induction fuel as [|fuel IH]; intros size i n Hn Hi Hge; [lia|].
  cbn [intsize_loop]. rewrite Z.shiftr_div_pow2 by lia. change (2 ^ 8) with 256.
  destruct n as [|[|n]]; [lia| |].
  - rewrite Z.div_small by (simpl in Hi; lia). simpl. lia.
  - destruct Hge as [?|Hge]; [lia|].
    replace (Z.of_nat (S (S n)) - 1) with (Z.of_nat (S n)) in Hge by lia.
    rewrite (Nat2Z.inj_succ n), (Nat2Z.inj_succ (S n)), !Z.pow_succ_r in * by lia.
    pose proof (Z.div_le_lower_bound i 256 (256 ^ Z.of_nat n)).
    pose proof (Z.div_lt_upper_bound i 256 (256 ^ Z.of_nat (S n))).
    assert (0 < 256 ^ Z.of_nat n) by lia.
    rewrite (Nat2Z.inj_succ n), Z.pow_succ_r in * by lia.
    destruct (Z.eqb_spec (i / 256) 0); [lia|].
    rewrite (IH _ _ (S n)); [lia|lia| |].
    + rewrite Nat2Z.inj_succ, Z.pow_succ_r by lia. lia.
    + right. replace (Z.of_nat (S n) - 1) with (Z.of_nat n) by lia. lia.
Qed.

Lemma intsize_putint i : 0 <= i < 2 ^ 64 -> intsize i = zlen (putint i).
Proof.
  intros Hi. destruct (putint_spec i Hi) as (n & Hn & -> & Hlt & Hge).
  unfold intsize, zlen. rewrite length_be_fixed, (intsize_loop_spec 8 1 i n); lia.
Qed.

Lemma zlen_puthead s l size : 0 <= size < 2 ^ 64 ->
  zlen (puthead s l size) = if size <? 56 then 1 else 1 + intsize size.
Proof.
  intros. unfold puthead. destruct (Z.ltb_spec size 56); rewrite zlen_cons; [done|].
  by rewrite intsize_putint.
Qed.

Lemma encbuf_write_spec it : forall w, zlen (encode it) < 2 ^ 64 ->
  encbuf_write it w =
    mkEncbuf (eb_str w ++ str_data it) (eb_lheads w ++ list_heads (zlen (eb_str w)) it)
      (eb_lhsize w + (zlen (encode it) - zlen (str_data it))).
Proof.
  induction it as [b|l IH] using item_ind'; intros w Hlen.
  - cbn. unfold encbuf_encodeString. rewrite app_nil_r. f_equal. lia.
  - rewrite list_heads_Lst. cbn [encbuf_write encbuf_list encode str_data] in *.
    set (c := concat (map encode l)) in *.
    assert (zlen c < 2 ^ 64) as Hc.
    { rewrite zlen_app in Hlen. pose proof (zlen_nonneg (puthead 192 247 (zlen c))). lia. }
    assert (forall w', fold_left (fun w' x => encbuf_write x w') l w' =
      mkEncbuf (eb_str w' ++ concat (map str_data l))
        (eb_lheads w' ++ heads_of (zlen (eb_str w')) l)
        (eb_lhsize w' + (zlen c - zlen (concat (map str_data l))))) as ->.
    { unfold c in Hc |- *. clear c Hlen w. induction l as [|x l IHl]; intros w'.
      - cbn. rewrite !app_nil_r. destruct w'; cbn. f_equal. unfold zlen; simpl. lia.
      - apply Forall_cons in IH as [Hx Hl]. cbn [map concat fold_left heads_of] in *.
        rewrite zlen_app in Hc. pose proof (zlen_nonneg (encode x)).
        pose proof (zlen_nonneg (concat (map encode l))).
        rewrite IHl, Hx by (done || lia). cbn [eb_str eb_lheads eb_lhsize].
        rewrite !app_assoc, !zlen_app. f_equal. lia. }
    cbn [eb_str eb_lheads eb_lhsize]. unfold encbuf_listEnd. cbn [eb_str eb_lheads eb_lhsize].
    rewrite <- app_assoc. cbn [app]. rewrite list_lookup_middle by done.
    unfold encbuf_size. cbn [eb_str eb_lheads eb_lhsize lh_offset lh_size].
    set (d := concat (map str_data l)). rewrite !zlen_app.
    replace (zlen (eb_str w) + zlen d + (eb_lhsize w + (zlen c - zlen d)) - zlen (eb_str w) - eb_lhsize w)
      with (zlen c) by lia.
    rewrite zlen_puthead by (pose proof (zlen_nonneg c); lia). f_equal.
    + rewrite insert_app_r_alt, Nat.sub_diag by lia. done.
    + destruct (zlen c <? 56); lia.
Qed.

(** The first header of [hs], if any, lies between [lo] and [hi]. *)
Definition head_in (lo hi : Z) (hs : list listhead) : Prop :=
  match hs with [] => True | h :: _ => lo <= lh_offset h <= hi end.

Lemma heads_of_range l off :
  Forall (fun it => forall off, Forall (fun h => off <= lh_offset h <= off + zlen (str_data it))
                                  (list_heads off it)) l ->
  Forall (fun h => off <= lh_offset h <= off + zlen (concat (map str_data l))) (heads_of off l).
Proof.
  revert off. induction l as [|x l IH]; intros off Hl; cbn [heads_of map concat]; [constructor|].
  apply Forall_cons in Hl as [Hx Hl]. rewrite zlen_app. pose proof (zlen_nonneg (str_data x)).
  pose proof (zlen_nonneg (concat (map str_data l))). apply Forall_app. split.
  - eapply Forall_impl; [apply Hx|]. simpl. lia.
  - eapply Forall_impl; [apply IH, Hl|]. simpl. lia.
Qed.

Lemma list_heads_range it off :
  Forall (fun h => off <= lh_offset h <= off + zlen (str_data it)) (list_heads off it).
Proof.
  revert off. induction it as [b|l IH] using item_ind'; intros off; [constructor|].
  rewrite list_heads_Lst. constructor; cbn [lh_offset str_data].
  - pose proof (zlen_nonneg (concat (map str_data l))). lia.
  - by apply heads_of_range.
Qed.

Lemma head_in_app lo hi off l hs : lo <= off -> off + zlen (concat (map str_data l)) <= hi ->
  head_in (off + zlen (concat (map str_data l))) hi hs -> head_in lo hi (heads_of off l ++ hs).
Proof.
  intros Hlo Hhi Hhs. pose proof (zlen_nonneg (concat (map str_data l))).
  pose proof (heads_of_range l off (Forall_true _ _ list_heads_range)) as Hr.
  destruct (heads_of off l) as [|h tl].
  - destruct hs; cbn in *; [done|lia].
  - cbn. inversion Hr; subst. lia.
Qed.

Lemma toBytes_loop_skip str p q hs : 0 <= p <= q -> q <= zlen str ->
  head_in q (zlen str) hs ->
  toBytes_loop str p hs =
    drop (Z.to_nat p) (take (Z.to_nat q) str) ++ toBytes_loop str q hs.
Proof.
  intros Hp Hq Hh. unfold zlen in Hq.
  assert (forall (s : bytes), (Z.to_nat q <= length s)%nat ->
    drop (Z.to_nat p) s = drop (Z.to_nat p) (take (Z.to_nat q) s) ++ drop (Z.to_nat q) s) as Hsplit.
  { intros s Hs. rewrite <- (take_drop (Z.to_nat q) s) at 1.
    rewrite drop_app_le; [done|]. rewrite length_take. lia. }
  destruct hs as [|h hs]; cbn [toBytes_loop]; [apply Hsplit; lia|].
  cbn in Hh. unfold zlen in Hh. set (t := take (Z.to_nat (lh_offset h)) str).
  assert (length t = Z.to_nat (lh_offset h)) as Ht by (unfold t; rewrite length_take; lia).
  assert (take (Z.to_nat q) t = take (Z.to_nat q) str) as Hqt.
  { unfold t. rewrite take_take. f_equal. lia. }
  rewrite (Hsplit t) by lia. rewrite Hqt, <- app_assoc. f_equal. f_equal. f_equal. f_equal.
  unfold zlen. rewrite length_app, !length_drop, length_take. lia.
Qed.

Lemma toBytes_loop_item it : forall pre post hs,
  zlen (encode it) < 2 ^ 64 ->
  head_in (zlen (pre ++ str_data it)) (zlen (pre ++ str_data it ++ post)) hs ->
  toBytes_loop (pre ++ str_data it ++ post) (zlen pre) (list_heads (zlen pre) it ++ hs) =
    encode it ++ toBytes_loop (pre ++ str_data it ++ post) (zlen (pre ++ str_data it)) hs.
Proof.
  induction it as [b|l IH] using item_ind'; intros pre post hs Hlen Hhs.
  - cbn [list_heads app encode str_data] in *.
    rewrite (toBytes_loop_skip _ (zlen pre) (zlen (pre ++ encodeString b))).
    + f_equal. unfold zlen. rewrite !Nat2Z.id, app_assoc, take_app_length, drop_app_length. done.
    + unfold zlen. rewrite length_app. lia.
    + rewrite !zlen_app. pose proof (zlen_nonneg post). lia.
    + done.
  - rewrite list_heads_Lst. cbn [app toBytes_loop lh_offset encode str_data] in *.
    unfold listhead_encode. cbn [lh_size].
    assert (forall s : bytes, drop (Z.to_nat (zlen pre)) (take (Z.to_nat (zlen pre)) (pre ++ s)) = []) as ->.
    { intros s. unfold zlen. by rewrite Nat2Z.id, take_app_length, drop_all. }
    cbn [app]. rewrite <- app_assoc. f_equal. change (zlen []) with 0. rewrite Z.add_0_r.
    assert (zlen (concat (map encode l)) < 2 ^ 64) as Hc.
    { rewrite zlen_app in Hlen. pose proof (zlen_nonneg (puthead 192 247 (zlen (concat (map encode l))))). lia. }
    clear Hlen. revert pre post Hhs.
    induction l as [|x l IHl]; intros pre post Hhs; cbn [map concat heads_of app] in *.
    + rewrite app_nil_r. done.
    + apply Forall_cons in IH as [Hx Hl]. rewrite zlen_app in Hc.
      pose proof (zlen_nonneg (encode x)). pose proof (zlen_nonneg (concat (map encode l))).
      rewrite <- !app_assoc in *. rewrite Hx; [|lia|].
      * f_equal. rewrite <- zlen_app. rewrite !(app_assoc pre (str_data x)) in Hhs |- *.
        apply IHl; [done|lia|done].
      * rewrite !zlen_app in *.
        pose proof (zlen_nonneg post). apply head_in_app; [lia|lia|].
        by rewrite Z.add_assoc in Hhs.
Qed.

Lemma EncodeToBytes_encode it : zlen (encode it) < 2 ^ 64 -> EncodeToBytes it = encode it.
Proof.
  intros Hlen. unfold EncodeToBytes, toBytes. rewrite encbuf_write_spec by done.
  cbn [eb_str eb_lheads app encbuf_reset]. change (zlen (@nil byte)) with 0.
  pose proof (toBytes_loop_item it [] [] [] Hlen I) as H. cbn [app] in H.
  rewrite !app_nil_r in H. change (zlen (@nil byte)) with 0 in H. rewrite H. cbn [toBytes_loop]. unfold zlen.
  rewrite Nat2Z.id, drop_all. apply app_nil_r.
Qed.

(** *** The size of the output bounds the size of the value *)

Fixpoint n_lists (it : item) : nat :=
  match it with Str _ => 0 | Lst l => S (list_sum (map n_lists l)) end.

Lemma length_puthead small large size : (1 <= length (puthead small large size) <= 9)%nat.
Proof. unfold puthead, putint. repeat case_match; cbn [length]; rewrite ?length_be_fixed; lia. Qed.

Lemma length_encodeString b : (length (encodeString b) <= length b + 9)%nat.
Proof.
  assert (length (encodeStringHeader (zlen b)) <= 9)%nat by (rewrite encodeStringHeader_puthead; apply length_puthead).
  unfold encodeString. destruct b as [|x [|y b]]; try case_match; rewrite ?length_app in *; cbn [length] in *; try lia.
  pose proof (length_puthead 128 183 1) as Hp. rewrite <- encodeStringHeader_puthead in Hp. lia.
Qed.

Lemma encode_le it : (length (encode it) <= length (str_data it) + 9 * n_lists it)%nat.
Proof.
  induction it as [b|l IH] using item_ind'; cbn [encode str_data n_lists]; [lia|].
  assert (length (concat (map encode l)) <= length (concat (map str_data l)) + 9 * list_sum (map n_lists l))%nat.
  { induction IH as [|x l Hx _ IHl]; [done|]. cbn [map concat]. rewrite !length_app.
    change (list_sum (n_lists x :: map n_lists l)) with (n_lists x + list_sum (map n_lists l))%nat. lia. }
  rewrite length_app. pose proof (length_puthead 192 247 (zlen (concat (map encode l)))). lia.
Qed.

Lemma encbuf_write_sizes it : forall w, eb_str (encbuf_write it w) = eb_str w ++ str_data it /\
  length (eb_lheads (encbuf_write it w)) = (length (eb_lheads w) + n_lists it)%nat.
Proof.
  induction it as [b|l IH] using item_ind'; intros w; cbn [encbuf_write encbuf_list str_data n_lists].
  - cbn. split; [done|lia].
  - assert (forall w', eb_str (fold_left (fun w' x => encbuf_write x w') l w') = eb_str w' ++ concat (map str_data l) /\
      length (eb_lheads (fold_left (fun w' x => encbuf_write x w') l w')) =
        (length (eb_lheads w') + list_sum (map n_lists l))%nat) as Hl.
    { induction IH as [|x l Hx _ IHl]; intros w'; cbn [fold_left map concat].
      - rewrite app_nil_r. cbn. split; [done|lia].
      - destruct (IHl (encbuf_write x w')) as [-> ->], (Hx w') as [-> ->]. rewrite app_assoc. split; [done|].
        change (list_sum (n_lists x :: map n_lists l)) with (n_lists x + list_sum (map n_lists l))%nat. lia. }
    set (w1 := mkEncbuf _ _ _). destruct (Hl w1) as [H1 H2]. unfold encbuf_listEnd. case_match; cbn [eb_str eb_lheads].
    + rewrite length_insert. rewrite H1, H2. split; [done|]. subst w1. cbn. rewrite length_app. cbn. lia.
    + rewrite H1, H2. split; [done|]. subst w1. cbn. rewrite length_app. cbn. lia.
Qed.

Lemma toBytes_loop_ge str heads : forall pos, 0 <= pos ->
  (length heads + (length str - Z.to_nat pos) <= length (toBytes_loop str pos heads))%nat.
Proof.
  induction heads as [|h heads IH]; intros pos Hpos; cbn [toBytes_loop length].
  - rewrite length_drop. lia.
  - set (chunk := drop (Z.to_nat pos) _). rewrite !length_app. unfold listhead_encode.
    pose proof (length_puthead 192 247 (lh_size h)). specialize (IH (pos + zlen chunk) ltac:(pose proof (zlen_nonneg chunk); lia)).
    unfold zlen in IH. rewrite Z2Nat.inj_add, Nat2Z.id in IH by lia. unfold zlen. lia.
Qed.

(** A short output is the encoding of a value that fits. *)
Lemma EncodeToBytes_small it : zlen (EncodeToBytes it) < 2 ^ 60 -> zlen (encode it) < 2 ^ 64.
Proof.
  unfold EncodeToBytes, toBytes. destruct (encbuf_write_sizes it encbuf_reset) as [Hs Hl]. rewrite Hs.
  pose proof (toBytes_loop_ge (str_data it) (eb_lheads (encbuf_write it encbuf_reset)) 0 ltac:(lia)) as Hge.
  rewrite Hl in Hge. pose proof (encode_le it). cbn in Hge |- *. unfold zlen. lia.
Qed.

(** ** Codecs of basic values: round trips *)

Lemma bigint_width z : 0 < z ->
  exists n : nat, Z.to_nat (Z.log2 z / 8 + 1) = S n /\
    256 ^ Z.of_nat n <= z < 256 ^ Z.of_nat (S n).
Proof.
  intros Hz. pose proof (Z.log2_spec z Hz) as [Hlo Hhi].
  pose proof (Z.log2_nonneg z). pose proof (Z.div_pos (Z.log2 z) 8 ltac:(lia) ltac:(lia)).
  exists (Z.to_nat (Z.log2 z / 8)). split; [lia|].
  rewrite Nat2Z.inj_succ, !Z2Nat.id by lia. change 256 with (2 ^ 8).
  rewrite <- !Z.pow_mul_r by lia.
  pose proof (Z.mul_div_le (Z.log2 z) 8 ltac:(lia)).
  pose proof (Z.mul_succ_div_gt (Z.log2 z) 8 ltac:(lia)). split.
  - etrans; [|exact Hlo]. apply Z.pow_le_mono_r; lia.
  - eapply Z.lt_le_trans; [exact Hhi|]. apply Z.pow_le_mono_r; lia.
Qed.

Lemma be_value_bigint_bytes z : 0 <= z -> be_value (bigint_bytes z) = z.
Proof.
  intros Hz. unfold bigint_bytes. destruct (Z.eqb_spec z 0) as [->|Hnz]; [done|].
  destruct (bigint_width z) as (n & -> & ?); [lia|]. apply be_value_fixed_small. lia.
Qed.

Lemma bigint_bytes_hd z : 0 <= z ->
  match bigint_bytes z with x :: _ => Z_of_byte x <> 0 | [] => z = 0 end.
Proof.
  intros Hz. unfold bigint_bytes. destruct (Z.eqb_spec z 0) as [->|Hnz]; [done|].
  destruct (bigint_width z) as (n & -> & ?); [lia|].
  destruct (be_fixed_hd_nonzero n z) as (b & tl & -> & ?); [lia|done].
Qed.

Lemma bigint_bytes_be_value b :
  match b with x :: _ => Z_of_byte x <> 0 | [] => True end ->
  bigint_bytes (be_value b) = b.
Proof.
  destruct b as [|x b]; intros Hx; [done|]. unfold bigint_bytes.
  pose proof (be_value_range (x :: b)) as Hr. pose proof (Z_of_byte_range x).
  assert (256 ^ Z.of_nat (length b) <= be_value (x :: b)) as Hlo.
  { rewrite be_value_cons. pose proof (be_value_range b). nia. }
  destruct (Z.eqb_spec (be_value (x :: b)) 0) as [|Hnz]; [lia|].
  destruct (bigint_width (be_value (x :: b))) as (n & -> & Hn); [lia|].
  enough (S n = length (x :: b)) as -> by apply be_fixed_value.
  simpl length in *.
  enough (~ (n < length b)%nat /\ ~ (length b < n)%nat) by lia. split; intros Hc.
  - assert (256 ^ Z.of_nat (S n) <= 256 ^ Z.of_nat (length b)) by (apply Z.pow_le_mono_r; lia). lia.
  - assert (256 ^ Z.of_nat (S (length b)) <= 256 ^ Z.of_nat n) by (apply Z.pow_le_mono_r; lia). lia.
Qed.

Lemma decodeBigInt_write z : 0 <= z -> decodeBigInt (Str (bigint_bytes z)) = Ret z.
Proof.
  intros Hz. pose proof (bigint_bytes_hd z Hz) as Hh. pose proof (be_value_bigint_bytes z Hz) as Hv.
  cbn [decodeBigInt]. destruct (bigint_bytes z) as [|x b]; [by subst|]. Zcases. by rewrite Hv.
Qed.

Lemma decodeBigInt_inv it z : decodeBigInt it = Ret z -> 0 <= z /\ it = Str (bigint_bytes z).
Proof.
  destruct it as [b|]; [|done]. cbn [decodeBigInt]. destruct b as [|x b].
  - by intros [= <-].
  - destruct (Z.eqb_spec (Z_of_byte x) 0); [done|]. intros [= <-].
    split; [apply be_value_range|]. by rewrite bigint_bytes_be_value.
Qed.

Lemma length_bigint_bytes z (n : nat) : 0 <= z < 256 ^ Z.of_nat n ->
  (length (bigint_bytes z) <= n)%nat.
Proof.
  intros Hz. unfold bigint_bytes. destruct (Z.eqb_spec z 0) as [|Hnz]; [simpl; lia|].
  destruct (bigint_width z) as (m & -> & Hm); [lia|]. rewrite length_be_fixed.
  enough (~ (n < S m)%nat) by lia. intros Hc.
  assert (256 ^ Z.of_nat n <= 256 ^ Z.of_nat m) by (apply Z.pow_le_mono_r; lia). lia.
Qed.

Lemma decodeUint_write k i : 0 <= i < 256 ^ Z.of_nat k ->
  decodeUint (8 * Z.of_nat k) (writeUint i) = Ret i.
Proof.
  intros Hi. pose proof (length_bigint_bytes i k Hi) as Hl.
  pose proof (decodeBigInt_write i ltac:(lia)) as Hd. cbn [decodeBigInt decodeUint writeUint] in *.
  rewrite (Z.mul_comm 8), Z.div_mul by lia.
  destruct (Z.ltb_spec (Z.of_nat k) (zlen (bigint_bytes i))) as [Hc|]; [|done].
  unfold zlen in Hc. lia.
Qed.

Lemma decodeUint_inv k it i : decodeUint (8 * Z.of_nat k) it = Ret i ->
  0 <= i < 256 ^ Z.of_nat k /\ it = writeUint i.
Proof.
  destruct it as [b|]; [|done]. unfold decodeUint. rewrite (Z.mul_comm 8), Z.div_mul by lia.
  destruct (Z.ltb_spec (Z.of_nat k) (zlen b)) as [|Hl]; [done|]. intros Hd.
  destruct (decodeBigInt_inv (Str b) i Hd) as [Hi Hb]. split; [|done].
  injection Hb as Hb. pose proof (be_value_range b) as Hr.
  rewrite Hb, be_value_bigint_bytes, <- Hb in Hr by done. unfold zlen in Hl.
  split; [lia|]. eapply Z.lt_le_trans; [apply Hr|]. apply Z.pow_le_mono_r; lia.
Qed.

Lemma decodeByteArray_write n z : 0 <= z < 256 ^ Z.of_nat n ->
  decodeByteArray n (writeByteArray n z) = Ret z.
Proof.
  intros Hz. unfold decodeByteArray, writeByteArray.
  rewrite length_be_fixed, Nat.ltb_irrefl, be_value_fixed_small by done. done.
Qed.

Lemma decodeByteArray_inv n it z : decodeByteArray n it = Ret z ->
  0 <= z < 256 ^ Z.of_nat n /\ it = writeByteArray n z.
Proof.
  destruct it as [b|]; [|done]. unfold decodeByteArray, writeByteArray.
  destruct (Nat.ltb_spec n (length b)); [done|]. destruct (Nat.ltb_spec (length b) n); [done|].
  intros [= <-]. assert (n = length b) as -> by lia.
  split; [apply be_value_range|]. by rewrite be_fixed_value.
Qed.

Lemma mapM_outcome_map {A B} (f : A -> outcome B) (g : B -> A) l :
  Forall (fun y => f (g y) = Ret y) l -> mapM_outcome f (map g l) = Ret l.
Proof. induction 1 as [|y l Hy _ IH]; [done|]. cbn. rewrite Hy. cbn. by rewrite IH. Qed.

Lemma mapM_outcome_inv {A B} (f : A -> outcome B) (g : B -> A) (P : B -> Prop) l l' :
  (forall x y, f x = Ret y -> P y /\ x = g y) ->
  mapM_outcome f l = Ret l' -> Forall P l' /\ l = map g l'.
Proof.
  intros Hf. revert l'. induction l as [|x l IH]; intros l' H; cbn in H.
  - injection H as <-. by split.
  - apply outcome_bind_Ret in H as (y & Hy & H).
    apply outcome_bind_Ret in H as (ys & Hys & [= <-]).
    apply Hf in Hy as [? ->]. destruct (IH _ Hys) as [? ->]. split; [by constructor|done].
Qed.

(** [encodeUint] writes what [encodeString] writes for the minimal bytes. *)
Lemma encodeUint_string i : 0 <= i < 2 ^ 64 -> encodeUint i = encodeString (bigint_bytes i).
Proof.
  intros Hi. unfold encodeUint. destruct (Z.eqb_spec i 0) as [->|Hnz]; [done|].
  assert (bigint_bytes i = putint i) as ->.
  { destruct (bigint_width i) as (n & Hw & Hn); [lia|].
    pose proof (bigint_bytes_hd i ltac:(lia)) as Hhd.
    pose proof (length_bigint_bytes i 8 Hi) as Hl.
    rewrite <- (be_value_bigint_bytes i) at 2 by lia.
    destruct (bigint_bytes i) as [|x b]; [lia|]. by rewrite putint_be_value. }
  destruct (Z.ltb_spec i 128).
  - unfold putint. rewrite shiftl_pow by lia. destruct (Z.ltb_spec i (2 ^ 8)); [|lia].
    cbn [be_fixed app encodeString]. rewrite Z_of_byte_of_small by lia. Zcases. done.
  - pose proof (length_putint i Hi) as Hl. pose proof (be_value_putint i Hi) as Hv.
    unfold encodeString. destruct (putint i) as [|x [|y b]] eqn:E.
    + simpl in Hl. lia.
    + unfold be_value in Hv. cbn in Hv. Zcases. done.
    + unfold encodeStringHeader. destruct (Z.ltb_spec (zlen (x :: y :: b)) 56) as [|Hc]; [done|].
      unfold zlen in Hc. lia.
Qed.

(** ** Properties of the package *)



(** The decoder accepts only canonical input: two byte strings that
    decode to the same value are equal, since each is that value's encoding. *)
Theorem rlp_decode_canonical b it :
  zlen b < 2 ^ 64 -> DecodeBytes b = Ret it -> EncodeToBytes it = b.
Proof.
  intros Hlen Hd. pose proof (DecodeBytes_canonical b it Hlen Hd) as He.
  rewrite EncodeToBytes_encode; [done|]. by rewrite He.
Qed.

Lemma rlp_decode_canonical_witness :
  EncodeToBytes (Lst [Str [x07]; Str [x80]]) = [xc3; x07; x81; x80].
Proof. apply rlp_decode_canonical; [by vm_compute|reflexivity]. Defined.

(** C35: the list-header bookkeeping of [encbuf] ([list], [listEnd] and the
    interleaving in [toBytes]) computes the recursive RLP encoding. *)
Theorem encbuf_refines_encode it :
  zlen (encode it) < 2 ^ 64 -> toBytes (encbuf_write it encbuf_reset) = encode it.
Proof. apply EncodeToBytes_encode. Qed.

Lemma encbuf_refines_encode_witness :
  toBytes (encbuf_write (Lst [Lst [Str [x05]]; Str [x80; x01]]) encbuf_reset) =
    [xc5; xc1; x05; x82; x80; x01].
Proof. rewrite encbuf_refines_encode; by vm_compute. Defined.

(** ** The decoder always answers *)

#[local] Hint Extern 3 (safe (match ?x with _ => _ end)) => destruct x eqn:? : safe.

Lemma safe_readSize b n : safe (readSize b n).
Proof. unfold readSize. auto with safe. Qed.
#[local] Hint Resolve safe_readSize : safe.

Lemma safe_readKind b : safe (readKind b).
Proof. unfold readKind. destruct b; eauto 12 with safe. Qed.

Lemma safe_Split b : safe (Split b).
Proof. apply safe_bind; [apply safe_readKind|]. by intros [[] ?] _. Qed.

Lemma safe_decodeList fuel b : safe (decodeList fuel b).
Proof.
  revert b. induction fuel as [|f IH]; intros [|x b]; try done. cbn [decodeList].
  apply safe_bind; [apply safe_Split|]. intros [[k c] r] _. apply safe_bind.
  - destruct k; eauto with safe.
  - intros it _. eauto with safe.
Qed.

Lemma safe_DecodeBytes b : safe (DecodeBytes b).
Proof.
  apply safe_bind; [apply safe_Split|]. intros [[k c] r] _. apply safe_bind.
  - destruct k; eauto using safe_decodeList with safe.
  - intros it _. by destruct r.
Qed.

Lemma safe_mapM {A B} (f : A -> outcome B) l : (forall x, x ∈ l -> safe (f x)) -> safe (mapM_outcome f l).
Proof.
  induction l as [|x l IH]; intros Hf; cbn [mapM_outcome]; [done|]. apply safe_bind; [apply Hf; left|].
  intros y _. apply safe_bind; [|done]. apply IH. intros z Hz. apply Hf. by right.
Qed.

Lemma safe_decode_basic n bits it : safe (decodeBigInt it) /\ safe (decodeUint bits it) /\ safe (decodeByteSlice it) /\
  safe (decodeByteArray n it).
Proof.
  unfold decodeBigInt, decodeUint, decodeByteSlice, decodeByteArray. destruct it as [b|l]; [|done].
  split_and!; eauto 8 with safe.
Qed.

Lemma safe_decodeListSlice {A} (d : item -> outcome A) it : (forall x, safe (d x)) -> safe (decodeListSlice d it).
Proof. intros Hd. destruct it; [done|]. apply safe_mapM. auto. Qed.
