(* ===== verification/Nibbles.v ===== *)
(** * Keys of the trie ([trie/encoding.go])

    A key is a byte string.  In memory a trie works with its nibbles, one byte
    each, and a terminator 16 where a value ends (the HEX encoding); on disk
    nibbles are packed in pairs behind a flag (the COMPACT encoding).  A slice
    of nibbles is a list of numbers below 256 here. *)
From Stdlib Require Import ZArith Lia Strings.Byte.
From stdpp Require Import base list.
From S2P Require Import Prelude Errors.
Open Scope nat_scope.

Definition terminator : nat := 16.

Definition nat_of_byte (b : byte) : nat := Z.to_nat (Z_of_byte b).
Definition byte_of_nat (n : nat) : byte := byte_of_Z (Z.of_nat n).

(** [a<<4 | b] on bytes *)
Definition join_nibbles (a b : nat) : nat := Nat.lor (Nat.shiftl a 4 mod 256) b.

Definition hasTerm (s : list nat) : bool := match last s with Some x => x =? terminator | None => false end.

(** The callers pass an even number of nibbles. *)
Fixpoint decodeNibbles (nibbles : list nat) : bytes :=
  match nibbles with
  | a :: b :: rest => byte_of_nat (join_nibbles a b) :: decodeNibbles rest
  | _ => []
  end.

Definition hexToCompact (hex : list nat) : bytes :=
  let '(term, hex) := if hasTerm hex then (1, removelast hex) else (0, hex) in
  let flag := Nat.shiftl term 5 in
  match Nat.odd (length hex), hex with
  | true, h :: rest => byte_of_nat (Nat.lor (Nat.lor flag (Nat.shiftl 1 4)) h) :: decodeNibbles rest
  | _, _ => byte_of_nat flag :: decodeNibbles hex
  end.

(** The loop of [hexToCompactInPlace] reads two nibbles at [ni] and writes the
    byte they make at [bi] of the same buffer, until [ni] reaches [hexLen]. *)
Fixpoint compact_loop (fuel : nat) (hexLen bi ni : nat) (hex : list nat) : list nat :=
  match fuel with
  | O => hex
  | S fuel' =>
      if ni <? hexLen then
        compact_loop fuel' hexLen (S bi) (S (S ni)) (<[bi := join_nibbles (nth ni hex 0) (nth (S ni) hex 0)]> hex)
      else hex
  end.

(** The length of the result and the buffer that starts with it.  An empty
    buffer has no first byte to write. *)
Definition hexToCompactInPlace (hex : list nat) : outcome (nat * list nat) :=
  match hex with
  | [] => Panic
  | h :: _ =>
      let '(hexLen, flag) := if nth (pred (length hex)) hex 0 =? terminator then (pred (length hex), Nat.shiftl 1 5) else (length hex, 0) in
      let '(ni, flag) := if Nat.odd hexLen then (1, Nat.lor (Nat.lor flag (Nat.shiftl 1 4)) h) else (0, flag) in
      Ret (hexLen / 2 + 1, <[0 := flag]> (compact_loop (length hex) hexLen 1 ni hex))
  end.

Definition keybytesToHex (str : bytes) : list nat :=
  flat_map (fun b => [nat_of_byte b / 16; nat_of_byte b mod 16]) str ++ [terminator].

Definition compactToHex (compact : bytes) : list nat :=
  match keybytesToHex compact with
  | (b0 :: _) as base =>
      if decide (compact = []) then []
      else
        let base := if b0 <? 2 then removelast base else base in
        drop (2 - Nat.land b0 1) base
  | [] => []
  end.

Definition hexToKeybytes (hex : list nat) : outcome bytes :=
  let hex := if hasTerm hex then removelast hex else hex in
  if Nat.odd (length hex) then Panic else Ret (decodeNibbles hex).

Fixpoint prefixLen (a b : list nat) : nat :=
  match a, b with
  | x :: a', y :: b' => if x =? y then S (prefixLen a' b') else 0
  | _, _ => 0
  end.

(** ** Lemmas *)

Definition nibble (n : nat) : Prop := n < 16.

Lemma nat_of_byte_lt b : nat_of_byte b < 256.
Proof. unfold nat_of_byte. pose proof (Z_of_byte_range b). lia. Qed.

Lemma byte_of_nat_of_byte b : byte_of_nat (nat_of_byte b) = b.
Proof.
  unfold byte_of_nat, nat_of_byte. rewrite Z2Nat.id by apply Z_of_byte_range. apply byte_of_Z_of_byte.
Qed.

Lemma nat_of_byte_of_nat n : n < 256 -> nat_of_byte (byte_of_nat n) = n.
Proof.
  intros Hn. unfold byte_of_nat, nat_of_byte. rewrite Z_of_byte_of_Z, Z.mod_small by lia. lia.
Qed.

Lemma join_nibbles_spec a b : nibble a -> nibble b -> join_nibbles a b = a * 16 + b.
Proof.
  unfold nibble, join_nibbles. intros Ha Hb.
  do 16 (destruct a as [|a]; [do 16 (destruct b as [|b]; [reflexivity|]); lia|]). lia.
Qed.

Lemma hasTerm_snoc s : hasTerm (s ++ [terminator]) = true.
Proof. unfold hasTerm. by rewrite last_snoc. Qed.

Lemma hasTerm_nibbles s : Forall nibble s -> hasTerm s = false.
Proof.
  intros Hs. unfold hasTerm. destruct (last s) as [x|] eqn:E; [|done]. apply last_Some_elem_of in E.
  rewrite Forall_forall in Hs. specialize (Hs x E). unfold nibble, terminator in *. by apply Nat.eqb_neq; lia.
Qed.

Lemma removelast_snoc {A} (l : list A) x : removelast (l ++ [x]) = l.
Proof. apply removelast_last. Qed.

(** Induction in steps of two. *)
Lemma list_pair_ind {A} (P : list A -> Prop) : P [] -> (forall x, P [x]) -> (forall x y l, P l -> P (x :: y :: l)) -> forall l, P l.
Proof.
  intros H0 H1 H2. fix IH 1. intros [|x [|y l]]; [done|done|]. apply H2, IH.
Qed.

Definition hex_bytes (str : bytes) : list nat := flat_map (fun b => [nat_of_byte b / 16; nat_of_byte b mod 16]) str.

Lemma keybytesToHex_eq str : keybytesToHex str = hex_bytes str ++ [terminator].
Proof. done. Qed.

Lemma hex_bytes_nibbles str : Forall nibble (hex_bytes str).
Proof.
  induction str as [|b str IH]; [done|]. cbn [hex_bytes flat_map app]. fold (hex_bytes str). pose proof (nat_of_byte_lt b). unfold nibble in *.
  constructor; [apply Nat.Div0.div_lt_upper_bound; lia|]. constructor; [apply Nat.mod_upper_bound; lia|done].
Qed.

Lemma length_hex_bytes str : length (hex_bytes str) = 2 * length str.
Proof. induction str as [|b str IH]; [done|]. cbn [hex_bytes flat_map app length]. fold (hex_bytes str). lia. Qed.

Lemma decodeNibbles_hex_bytes str : decodeNibbles (hex_bytes str) = str.
Proof.
  induction str as [|b str IH]; [done|]. cbn [hex_bytes flat_map app decodeNibbles]. fold (hex_bytes str). rewrite IH. f_equal.
  pose proof (nat_of_byte_lt b). rewrite join_nibbles_spec.
  - replace (nat_of_byte b / 16 * 16 + nat_of_byte b mod 16) with (nat_of_byte b); [apply byte_of_nat_of_byte|].
    pose proof (Nat.div_mod_eq (nat_of_byte b) 16). lia.
  - unfold nibble. apply Nat.Div0.div_lt_upper_bound. lia.
  - unfold nibble. apply Nat.mod_upper_bound. lia.
Qed.

Lemma hex_bytes_decodeNibbles s : Forall nibble s -> Nat.even (length s) = true -> hex_bytes (decodeNibbles s) = s.
Proof.
  induction s as [|x|x y s IH] using list_pair_ind; intros Hs He; [done|done|].
  inversion Hs as [|? ? Hx Hs']; subst. inversion Hs' as [|? ? Hy Hs'']; subst.
  cbn [decodeNibbles hex_bytes flat_map]. fold (hex_bytes (decodeNibbles s)). rewrite IH by done.
  rewrite join_nibbles_spec by done. unfold nibble in *. rewrite nat_of_byte_of_nat by lia. cbn [app].
  rewrite <- (Nat.div_unique (x * 16 + y) 16 x y), <- (Nat.mod_unique (x * 16 + y) 16 x y) by lia. done.
Qed.

(** *** Compact keys *)

(** A key as nodes have it: nibbles, with a terminator or without. *)
Definition hexkey (term : bool) (s : list nat) : list nat := s ++ (if term then [terminator] else []).

Lemma hexkey_split term s : Forall nibble s -> hasTerm (hexkey term s) = term.
Proof. intros Hs. unfold hexkey. destruct term; [apply hasTerm_snoc|]. rewrite app_nil_r. by apply hasTerm_nibbles. Qed.

Lemma hexToCompact_eq term s : Forall nibble s ->
  hexToCompact (hexkey term s) =
  (if Nat.odd (length s) then byte_of_nat ((if term then 32 else 0) + 16 + default 0 (head s)) :: decodeNibbles (tail s)
   else byte_of_nat (if term then 32 else 0) :: decodeNibbles s).
Proof.
  intros Hs. unfold hexToCompact. rewrite hexkey_split by done.
  assert (forall h, nibble h -> Nat.lor (Nat.lor (Nat.shiftl (if term then 1 else 0) 5) (Nat.shiftl 1 4)) h = (if term then 32 else 0) + 16 + h) as Hor.
  { unfold nibble. intros h Hh. destruct term; do 16 (destruct h as [|h]; [reflexivity|]); lia. }
  destruct term; unfold hexkey; rewrite ?removelast_snoc, ?app_nil_r.
  - destruct (Nat.odd (length s)) eqn:E; [|done]. destruct s as [|h s]; [done|]. inversion Hs; subst. by rewrite (Hor h).
  - destruct (Nat.odd (length s)) eqn:E; [|done]. destruct s as [|h s]; [done|]. inversion Hs; subst. by rewrite (Hor h).
Qed.

(** Packing a key and unpacking it gives it back. *)
Lemma compactToHex_hexToCompact term s : Forall nibble s -> compactToHex (hexToCompact (hexkey term s)) = hexkey term s.
Proof.
  intros Hs. rewrite hexToCompact_eq by done. unfold compactToHex. destruct (Nat.odd (length s)) eqn:E.
  - destruct s as [|h s]; [done|]. inversion Hs as [|? ? Hh Hs']; subst. cbn [default from_option head tail id].
    assert (Nat.even (length s) = true) as Ev by (rewrite <- Nat.negb_odd; cbn in E; rewrite Nat.odd_succ in E; by rewrite <- Nat.negb_even, E).
    rewrite keybytesToHex_eq. set (f := (if term then 32 else 0) + 16 + h).
    assert (f < 256) as Hf by (unfold f, nibble in *; destruct term; lia).
    cbn [hex_bytes flat_map app]. fold (hex_bytes (decodeNibbles s)). rewrite hex_bytes_decodeNibbles, nat_of_byte_of_nat by done.
    rewrite decide_False by done. unfold nibble, f in *.
    rewrite <- (Nat.div_unique ((if term then 32 else 0) + 16 + h) 16 (if term then 3 else 1) h) by (destruct term; lia).
    rewrite <- (Nat.mod_unique ((if term then 32 else 0) + 16 + h) 16 (if term then 3 else 1) h) by (destruct term; lia).
    destruct term; cbn [Nat.ltb Nat.leb]; [done|]. change (1 :: h :: s ++ [terminator]) with ((1 :: h :: s) ++ [terminator]).
    rewrite removelast_snoc. cbn. by rewrite app_nil_r.
  - assert (Nat.even (length s) = true) as Ev by by rewrite <- Nat.negb_odd, E.
    rewrite keybytesToHex_eq. cbn [hex_bytes flat_map app]. fold (hex_bytes (decodeNibbles s)). rewrite hex_bytes_decodeNibbles by done.
    rewrite nat_of_byte_of_nat by (destruct term; lia). rewrite decide_False by done.
    destruct term; [done|]. cbn [Nat.div Nat.modulo fst snd Nat.divmod Nat.sub Nat.ltb Nat.leb].
    change (0 :: 0 :: s ++ [terminator]) with ((0 :: 0 :: s) ++ [terminator]). rewrite removelast_snoc. unfold hexkey. by rewrite app_nil_r.
Qed.

Lemma hexToCompact_inj term term' s s' : Forall nibble s -> Forall nibble s' ->
  hexToCompact (hexkey term s) = hexToCompact (hexkey term' s') -> term = term' /\ s = s'.
Proof.
  intros Hs Hs' E. apply (f_equal compactToHex) in E. rewrite !compactToHex_hexToCompact in E by done.
  assert (term = term') as -> by (rewrite <- (hexkey_split term s), <- (hexkey_split term' s') by done; by rewrite E).
  split; [done|]. by apply app_inv_tail in E.
Qed.

Lemma keybytesToHex_hexToKeybytes str : hexToKeybytes (keybytesToHex str) = Ret str.
Proof.
  unfold hexToKeybytes. rewrite keybytesToHex_eq, hasTerm_snoc, removelast_snoc, length_hex_bytes.
  rewrite <- Nat.negb_even, Nat.even_mul. cbn [Nat.even orb negb]. by rewrite decodeNibbles_hex_bytes.
Qed.

Lemma hex_bytes_inj a b : hex_bytes a = hex_bytes b -> a = b.
Proof. intros E%(f_equal decodeNibbles). by rewrite !decodeNibbles_hex_bytes in E. Qed.

(** *** Packing in place *)

Fixpoint pairs (nibbles : list nat) : list nat :=
  match nibbles with
  | a :: b :: rest => join_nibbles a b :: pairs rest
  | _ => []
  end.

Lemma decodeNibbles_pairs s : decodeNibbles s = byte_of_nat <$> pairs s.
Proof. induction s as [|x|x y s IH] using list_pair_ind; [done|done|]. cbn. by rewrite IH. Qed.

Lemma drop_S_lookup {A} (l : list A) i x rest : drop i l = x :: rest -> l !! i = Some x /\ drop (S i) l = rest.
Proof.
  intros E. split.
  - rewrite <- (Nat.add_0_r i), <- lookup_drop, E. done.
  - replace (S i) with (i + 1) by lia. by rewrite <- drop_drop, E.
Qed.

(** From [ni] on the buffer still has the nibbles [l] (and a tail [tl]); the
    loop packs them from [bi] on and touches nothing before. *)
Lemma compact_loop_spec l tl : forall fuel bi ni buf, bi <= S ni -> drop ni buf = l ++ tl -> Nat.even (length l) = true -> length l <= fuel ->
  let r := compact_loop fuel (ni + length l) bi ni buf in
  take bi r = take bi buf /\ take (length (pairs l)) (drop bi r) = pairs l.
Proof.
  induction l as [|x|x y l IH] using list_pair_ind; intros fuel bi ni buf Hb Hd He Hf; [|done|].
  - cbn [length]. replace (ni + 0) with ni by lia. assert (compact_loop fuel ni bi ni buf = buf) as ->; [|done].
    destruct fuel; cbn [compact_loop]; by rewrite ?Nat.ltb_irrefl.
  - destruct fuel as [|fuel]; [cbn in Hf; lia|]. cbn [compact_loop length].
    rewrite (proj2 (Nat.ltb_lt ni (ni + S (S (length l))))) by lia.
    destruct (drop_S_lookup _ _ _ _ Hd) as [Hx Hd1]. destruct (drop_S_lookup _ _ _ _ Hd1) as [Hy Hd2].
    rewrite (nth_lookup_Some buf ni 0 x Hx), (nth_lookup_Some buf (S ni) 0 y Hy). set (buf' := <[bi := _]> buf).
    assert (bi < length buf) as Hlt by (apply lookup_lt_Some in Hy; lia).
    replace (ni + S (S (length l))) with (S (S ni) + length l) by lia.
    destruct (IH fuel (S bi) (S (S ni)) buf') as [Ht Hp]; [lia| |done|cbn in Hf; lia|].
    { unfold buf'. by rewrite drop_insert_lt by lia. }
    set (r := compact_loop _ _ _ _ buf') in *.
    assert (take bi r = take bi buf) as Hpre.
    { apply (f_equal (take bi)) in Ht. rewrite !take_take in Ht. replace (bi `min` S bi) with bi in Ht by lia.
      rewrite Ht. unfold buf'. by rewrite take_insert_ge by lia. }
    split; [done|]. assert (r !! bi = Some (join_nibbles x y)) as Hbi.
    { rewrite <- (lookup_take_lt _ (S bi)) by lia. rewrite Ht, lookup_take_lt by lia. unfold buf'. by rewrite list_lookup_insert_eq. }
    cbn [pairs length]. rewrite (drop_S r (join_nibbles x y) bi Hbi). cbn [take]. by rewrite Hp.
Qed.

Lemma length_pairs l : Nat.even (length l) = true -> 2 * length (pairs l) = length l.
Proof. induction l as [|x|x y l IH] using list_pair_ind; intros He; [done|done|]. cbn [pairs length] in *. specialize (IH He). lia. Qed.

(** The flag byte goes in front of what the loop packed, whether it started at
    the first nibble or at the second. *)
Lemma compact_buffer hex (pre l : list nat) tl flag : hex = pre ++ l ++ tl -> hex <> [] -> length pre <= 1 -> Nat.even (length l) = true ->
  take ((length pre + length l) / 2 + 1) (<[0 := flag]> (compact_loop (length hex) (length pre + length l) 1 (length pre) hex)) = flag :: pairs l.
Proof.
  intros Eh Hne Hp He. assert (length l <= length hex) as Hf by (rewrite Eh, !length_app; lia).
  assert (drop (length pre) hex = l ++ tl) as Hd by by rewrite Eh, drop_app_length.
  destruct (compact_loop_spec l tl (length hex) 1 (length pre) hex ltac:(lia) Hd He Hf) as [Ht Hr].
  set (r := compact_loop _ _ _ _ _) in *. destruct r as [|x r]; [by destruct hex|].
  assert ((length pre + length l) / 2 = length (pairs l)) as ->.
  { symmetry. apply (Nat.div_unique _ 2 _ (length pre)); pose proof (length_pairs l He); lia. }
  rewrite Nat.add_1_r. cbn [insert list_insert take]. change (drop 1 (x :: r)) with r in Hr. by rewrite Hr.
Qed.

(** The in-place routine computes the same key. *)
Lemma hexToCompactInPlace_eq term s : Forall nibble s -> hexkey term s <> [] ->
  exists sz buf, hexToCompactInPlace (hexkey term s) = Ret (sz, buf) /\ byte_of_nat <$> take sz buf = hexToCompact (hexkey term s).
Proof.
  intros Hs Hne. rewrite hexToCompact_eq by done. unfold hexToCompactInPlace. destruct (hexkey term s) as [|h0 hs] eqn:Eh; [done|].
  rewrite <- Eh. set (hex := hexkey term s) in *.
  assert (length hex = length s + (if term then 1 else 0)) as Hlen by (unfold hex, hexkey; rewrite length_app; by destruct term).
  assert ((nth (pred (length hex)) hex 0 =? terminator) = term) as ->.
  { pose proof (hexkey_split term s Hs) as Ht. unfold hasTerm in Ht. fold hex in Ht. rewrite last_lookup in Ht.
    destruct (hex !! pred (length hex)) as [x|] eqn:E; [by rewrite (nth_lookup_Some _ _ _ _ E)|].
    apply lookup_ge_None in E. rewrite Eh in E. cbn in E. lia. }
  replace (if term then (pred (length hex), Nat.shiftl 1 5) else (length hex, 0)) with (length s, if term then 32 else 0)
    by (destruct term; f_equal; lia).
  assert (forall h, nibble h -> Nat.lor (Nat.lor (if term then 32 else 0) (Nat.shiftl 1 4)) h = (if term then 32 else 0) + 16 + h) as Hor.
  { unfold nibble. intros h Hh. destruct term; do 16 (destruct h as [|h]; [reflexivity|]); lia. }
  destruct (Nat.odd (length s)) eqn:Eo; eexists _, _; (split; [done|]).
  - destruct s as [|h s']; [done|]. inversion Hs as [|? ? Hh Hs']; subst. assert (h0 = h) as -> by (unfold hex, hexkey in Eh; cbn in Eh; congruence).
    rewrite (Hor h Hh), (compact_buffer hex [h] s' (if term then [terminator] else [])); [by cbn; rewrite decodeNibbles_pairs|done|congruence|done|].
    rewrite <- Nat.negb_odd. cbn [length] in Eo. rewrite Nat.odd_succ in Eo. by rewrite <- Nat.negb_even, Eo.
  - rewrite (compact_buffer hex [] s (if term then [terminator] else [])); [by cbn; rewrite decodeNibbles_pairs|done|congruence|cbn; lia|].
    by rewrite <- Nat.negb_odd, Eo.
Qed.
