(* ===== verification/Patricia.v ===== *)
(** * Radix trees with a canonical shape

    A reference definition of the tree behind a Merkle Patricia trie, with no
    database, no cached hashes and no nodes left unloaded: [t_get], [t_insert]
    and [t_delete] follow the recursion of [trie/trie.go].  A tree that is well
    formed ([wf]) has the shape the comments of [trie.go] promise; the
    operations keep it so and act on it as on a finite map, and the contents of
    a well-formed tree determine the tree. *)
From Stdlib Require Import ZArith Lia Strings.Byte.
From stdpp Require Import base option list.
From S2P Require Import Prelude Errors Nibbles.
Open Scope nat_scope.

Inductive trie : Type :=
| TNil
| TValue (v : bytes)
| TShort (key : list nat) (val : trie)
| TFull (children : list trie).

Lemma trie_ind' (P : trie -> Prop) : P TNil -> (forall v, P (TValue v)) -> (forall k t, P t -> P (TShort k t)) ->
  (forall cs, Forall P cs -> P (TFull cs)) -> forall t, P t.
Proof.
  intros HN HV HS HF. fix IH 1. intros [|v|k t|cs]; [done|apply HV|apply HS, IH|]. apply HF.
  induction cs as [|c cs IHc]; constructor; [apply IH|exact IHc].
Qed.

(** ** Operations *)

(** The child with an index, and the children with that one changed. *)
Fixpoint child {A} (f : trie -> A) (d : A) (cs : list trie) (i : nat) : A :=
  match cs, i with
  | [], _ => d
  | c :: _, O => f c
  | _ :: cs', S i' => child f d cs' i'
  end.

Fixpoint change (f : trie -> trie) (cs : list trie) (i : nat) : list trie :=
  match cs, i with
  | [], _ => []
  | c :: cs', O => f c :: cs'
  | c :: cs', S i' => c :: change f cs' i'
  end.

Fixpoint t_get (t : trie) (key : list nat) : option bytes :=
  match t with
  | TNil => None
  | TValue v => Some v
  | TShort k c =>
      if (prefixLen key k =? length k) then t_get c (drop (length k) key) else None
  | TFull cs =>
      match key with
      | [] => None
      | i :: key' => child (fun c => t_get c key') None cs i
      end
  end.

(** [insert] into nothing *)
Definition attach (key : list nat) (t : trie) : trie := match key with [] => t | _ => TShort key t end.

Definition no_children : list trie := replicate 17 TNil.

(** A short node whose key [k] differs from [key] at [m]. *)
Definition fork (m : nat) (k : list nat) (c : trie) (key : list nat) (t : trie) : trie :=
  let branch := TFull (<[nth m key 0 := attach (drop (S m) key) t]> (<[nth m k 0 := attach (drop (S m) k) c]> no_children)) in
  attach (take m key) branch.

Fixpoint t_insert (t : trie) (key : list nat) (v : bytes) : trie :=
  match key with
  | [] => TValue v
  | i :: key' =>
      match t with
      | TShort k c =>
          let m := prefixLen key k in
          if m =? length k then TShort k (t_insert c (drop m key) v) else fork m k c key (TValue v)
      | TFull cs => TFull (change (fun c => t_insert c key' v) cs i)
      | TNil => TShort key (TValue v)
      | TValue _ => t
      end
  end.

Definition is_nil (t : trie) : bool := match t with TNil => true | _ => false end.

(** The index of the only child that is left, if there is only one. *)
Definition only_child (cs : list trie) : option nat :=
  match filter (fun p => is_nil p.2 = false) (imap pair cs) with [(i, _)] => Some i | _ => None end.

(** A full node with one child is no full node. *)
Definition reduce (cs : list trie) : trie :=
  match only_child cs with
  | None => TFull cs
  | Some i =>
      match cs !! i with
      | Some (TShort k c) => if i =? 16 then TShort [i] (TShort k c) else TShort (i :: k) c
      | Some c => TShort [i] c
      | None => TFull cs
      end
  end.

(** Two short nodes in a row are one. *)
Definition join (k : list nat) (t : trie) : trie :=
  match t with TShort k' c => TShort (k ++ k') c | _ => TShort k t end.

Fixpoint t_delete (t : trie) (key : list nat) : trie :=
  match t with
  | TShort k c =>
      let m := prefixLen key k in
      if m <? length k then t
      else if m =? length key then TNil
      else join k (t_delete c (drop (length k) key))
  | TFull cs =>
      match key with
      | [] => t
      | i :: key' => reduce (change (fun c => t_delete c key') cs i)
      end
  | _ => TNil
  end.

(** ** Shape *)

Definition tkey (key : list nat) : Prop := exists s, Forall nibble s /\ key = s ++ [terminator].

Definition full_slots (cs : list trie) : Prop :=
  length cs = 17 /\ (cs !! 16 = Some TNil \/ exists v, cs !! 16 = Some (TValue v) /\ v <> []) /\
  exists i j c d, i <> j /\ cs !! i = Some c /\ cs !! j = Some d /\ c <> TNil /\ d <> TNil.

Inductive wf : trie -> Prop :=
| wf_leaf s v : Forall nibble s -> v <> [] -> wf (TShort (s ++ [terminator]) (TValue v))
| wf_ext s cs : s <> [] -> Forall nibble s -> wf (TFull cs) -> wf (TShort s (TFull cs))
| wf_full cs : full_slots cs -> (forall i c, cs !! i = Some c -> i < 16 -> c <> TNil -> wf c) -> wf (TFull cs).

(** A tree: empty or well formed. *)
Definition wf_root (t : trie) : Prop := t = TNil \/ wf t.

(** ** Children *)

Lemma child_lookup {A} (f : trie -> A) d cs i : child f d cs i = match cs !! i with Some c => f c | None => d end.
Proof. revert i. induction cs as [|c cs IH]; intros [|i]; cbn; auto. Qed.

Lemma change_alter f cs i : change f cs i = alter f i cs.
Proof. revert i. induction cs as [|c cs IH]; intros [|i]; cbn; [done..|]. by rewrite IH. Qed.

Lemma lookup_change f cs i j : change f cs i !! j = if decide (i = j) then f <$> cs !! j else cs !! j.
Proof.
  rewrite change_alter. destruct (decide (i = j)) as [->|]; [apply list_lookup_alter_eq|by apply list_lookup_alter_ne].
Qed.

Lemma length_change f cs i : length (change f cs i) = length cs.
Proof. rewrite change_alter. apply length_alter. Qed.

(** ** Keys *)

Lemma tkey_cons i key : tkey (i :: key) -> (i = terminator /\ key = []) \/ (nibble i /\ tkey key).
Proof.
  intros ([|x s] & Hs & E); cbn in E; injection E as -> E; [by left|]. inversion Hs; subst. right. split; [done|]. by exists s.
Qed.

Lemma tkey_nonempty key : tkey key -> key <> [].
Proof. intros ([|] & _ & ->); done. Qed.

Lemma nibbles_not_tkey s key : Forall nibble s -> tkey key -> s <> key.
Proof.
  intros Hs (s' & _ & ->) ->. apply Forall_app in Hs as [_ Ht]. inversion Ht as [|? ? Hn]. unfold nibble, terminator in Hn. lia.
Qed.

Lemma tkey_app s key : Forall nibble s -> tkey key -> tkey (s ++ key).
Proof. intros Hs (s' & Hs' & ->). exists (s ++ s'). split; [by apply Forall_app|]. by rewrite app_assoc. Qed.

Lemma tkey_elem q i : tkey q -> i ∈ q -> i < 17.
Proof.
  intros (s & Hs & ->) [Hin| ->%list_elem_of_singleton]%elem_of_app; [|unfold terminator; lia].
  rewrite Forall_forall in Hs. specialize (Hs i Hin). unfold nibble in Hs. lia.
Qed.

Lemma tkey_hex str : tkey (keybytesToHex str).
Proof. exists (hex_bytes str). split; [apply hex_bytes_nibbles|apply keybytesToHex_eq]. Qed.

(** *** Common prefixes *)

Lemma prefixLen_le a b : prefixLen a b <= length a /\ prefixLen a b <= length b.
Proof. revert b. induction a as [|x a IH]; intros [|y b]; cbn; try lia. destruct (x =? y); [|lia]. specialize (IH b). lia. Qed.

Lemma prefixLen_take a b : take (prefixLen a b) a = take (prefixLen a b) b.
Proof.
  revert b. induction a as [|x a IH]; intros [|y b]; cbn; try done. destruct (Nat.eqb_spec x y) as [->|]; [|done]. cbn. by rewrite IH.
Qed.

(** The two keys differ after their common prefix. *)
Lemma prefixLen_split a b : exists p a' b', a = p ++ a' /\ b = p ++ b' /\ prefixLen a b = length p /\
  match a', b' with x :: _, y :: _ => x <> y | _, _ => True end.
Proof.
  revert b. induction a as [|x a IH]; intros b; [by exists [], [], b|]. destruct b as [|y b]; [by exists [], (x :: a), []|].
  destruct (Nat.eqb_spec x y) as [->|Hne]; cbn.
  - destruct (IH b) as (p & a' & b' & -> & -> & Hp & Hd). exists (y :: p), a', b'. rewrite Nat.eqb_refl. cbn. by rewrite Hp.
  - rewrite (proj2 (Nat.eqb_neq x y) Hne). by exists [], (x :: a), (y :: b).
Qed.

Lemma prefixLen_app p a b : prefixLen (p ++ a) (p ++ b) = length p + prefixLen a b.
Proof. induction p as [|x p IH]; [done|]. cbn. by rewrite Nat.eqb_refl, IH. Qed.

Lemma prefixLen_prefix k key : prefixLen key k = length k <-> exists rest, key = k ++ rest.
Proof.
  split.
  - intros E. exists (drop (length k) key). rewrite <- (firstn_skipn (length k) key) at 1. f_equal.
    change (take (length k) key = k). rewrite <- E at 1. rewrite prefixLen_take, E. by rewrite take_ge.
  - intros [rest ->]. rewrite <- (app_nil_r k) at 2. rewrite prefixLen_app. destruct rest; cbn; lia.
Qed.

(** What is left of a key after a prefix of it. *)
Fixpoint strip (k q : list nat) : option (list nat) :=
  match k, q with
  | [], _ => Some q
  | x :: k', y :: q' => if x =? y then strip k' q' else None
  | _ :: _, [] => None
  end.

Lemma strip_app a b q : strip (a ++ b) q = strip a q ≫= strip b.
Proof. revert q. induction a as [|x a IH]; intros [|y q]; try done. cbn. destruct (x =? y); [apply IH|done]. Qed.

Lemma strip_Some k q r : strip k q = Some r <-> q = k ++ r.
Proof.
  revert q. induction k as [|x k IH]; intros q; cbn; [split; [by intros [= ->]|by intros ->]|].
  destruct q as [|y q]; [done|]. destruct (Nat.eqb_spec x y) as [->|Hne].
  - rewrite IH. split; [by intros ->|by intros [= ->]].
  - split; [done|]. intros [= -> _]. done.
Qed.

Lemma strip_prefix k r : strip k (k ++ r) = Some r.
Proof. by apply strip_Some. Qed.

Lemma get_short k c q : t_get (TShort k c) q = strip k q ≫= t_get c.
Proof.
  cbn [t_get]. destruct (strip k q) as [r|] eqn:E.
  - apply strip_Some in E as ->. rewrite (proj2 (prefixLen_prefix k (k ++ r))) by eauto. by rewrite Nat.eqb_refl, drop_app_length.
  - destruct (Nat.eqb_spec (prefixLen q k) (length k)) as [Hp|]; [|done]. apply prefixLen_prefix in Hp as [r ->]. by rewrite strip_prefix in E.
Qed.

Lemma get_attach k c q : t_get (attach k c) q = strip k q ≫= t_get c.
Proof. destruct k as [|x k]; [done|]. apply get_short. Qed.

Lemma get_full cs i q : t_get (TFull cs) (i :: q) = match cs !! i with Some c => t_get c q | None => None end.
Proof. cbn [t_get]. apply child_lookup. Qed.

#[local] Opaque t_get.

Lemma tkey_strip k q r : tkey q -> strip k q = Some r -> k <> q -> Forall nibble k /\ tkey r.
Proof.
  intros (s & Hs & ->) Er Hne. apply strip_Some in Er. destruct r as [|y r _] using rev_ind; [by rewrite app_nil_r in Er|].
  rewrite app_assoc in Er. apply app_inj_tail in Er as [-> <-]. apply Forall_app in Hs as [Hk Hr]. split; [done|]. by exists r.
Qed.

(** No key is a proper prefix of another. *)
Lemma tkey_prefix_free q r : tkey q -> tkey (q ++ r) -> r = [].
Proof.
  intros (s & Hs & ->) (s' & Hs' & E). destruct r as [|y r _] using rev_ind; [done|].
  rewrite !app_assoc in E. apply app_inj_tail in E as [E _]. rewrite <- E in Hs'. apply Forall_app in Hs' as [Hs' _].
  apply Forall_app in Hs' as [_ Ht]. inversion Ht as [|? ? Hn _]. unfold nibble, terminator in Hn. lia.
Qed.

Lemma get_leaf k v q : tkey k -> tkey q -> t_get (TShort k (TValue v)) q = if decide (k = q) then Some v else None.
Proof.
  intros Hk Hq. rewrite get_short. destruct (strip k q) as [r|] eqn:E.
  - apply strip_Some in E as ->. rewrite (tkey_prefix_free k r) by done. by rewrite decide_True by by rewrite app_nil_r.
  - rewrite decide_False; [done|]. intros <-. rewrite <- (app_nil_r k) in E at 2. by rewrite strip_prefix in E.
Qed.

(** ** Insertion *)

Lemma lookup_no_children i : i < 17 -> no_children !! i = Some TNil.
Proof. intros Hi. by apply lookup_replicate_2. Qed.

Lemma nth_app_middle (p l : list nat) x d : nth (length p) (p ++ x :: l) d = x.
Proof. by rewrite app_nth2, Nat.sub_diag by lia. Qed.

Lemma drop_S_app (p l : list nat) x : drop (S (length p)) (p ++ x :: l) = l.
Proof. replace (p ++ x :: l) with ((p ++ [x]) ++ l) by by rewrite <- app_assoc. by rewrite drop_app_length' by (rewrite length_app; cbn; lia). Qed.

Definition fork_children (x : nat) (k : list nat) (c : trie) (y : nat) (key : list nat) (t : trie) : list trie :=
  <[y := attach key t]> (<[x := attach k c]> no_children).

Lemma fork_eq p x k c y key t : fork (length p) (p ++ x :: k) c (p ++ y :: key) t = attach p (TFull (fork_children x k c y key t)).
Proof. unfold fork, fork_children. by rewrite !nth_app_middle, !drop_S_app, take_app_length. Qed.

Lemma lookup_fork x k c y key t i : x <> y -> x < 17 -> y < 17 -> i < 17 ->
  fork_children x k c y key t !! i = Some (if decide (i = y) then attach key t else if decide (i = x) then attach k c else TNil).
Proof.
  intros Hne Hx Hy Hi. unfold fork_children. assert (length (<[x:=attach k c]> no_children) = 17) as Hl by by rewrite length_insert.
  destruct (decide (i = y)) as [->|]; [by rewrite list_lookup_insert_eq by lia|]. rewrite list_lookup_insert_ne by done.
  destruct (decide (i = x)) as [->|]; [by rewrite list_lookup_insert_eq|]. rewrite list_lookup_insert_ne by done. by apply lookup_no_children.
Qed.

(** The fork of [k] and [key]: the old subtree under [k], the new value under
    [key]. *)
Lemma get_fork p x k c y key v q : x <> y -> x < 17 -> y < 17 -> tkey (p ++ y :: key) -> tkey q ->
  t_get (attach p (TFull (fork_children x k c y key (TValue v)))) q =
  if decide (p ++ y :: key = q) then Some v else t_get (TShort (p ++ x :: k) c) q.
Proof.
  intros Hne Hx Hy Hk Hq. rewrite get_attach, get_short, strip_app. destruct (strip p q) as [q'|] eqn:E; cbn [mbind option_bind].
  2: { rewrite decide_False; [done|]. intros <-. by rewrite strip_prefix in E. }
  apply strip_Some in E as ->. destruct q' as [|i q'].
  - rewrite app_nil_r. rewrite decide_False; [done|]. intros E%(f_equal length). rewrite length_app in E. cbn in E. lia.
  - rewrite get_full. assert (i < 17) as Hi.
    { apply (tkey_elem _ _ Hq). rewrite elem_of_app, elem_of_cons. auto. }
    rewrite lookup_fork by done. cbn [strip]. destruct (decide (i = y)) as [->|Hny].
    + rewrite get_attach. rewrite (proj2 (Nat.eqb_neq x y) Hne). cbn [mbind option_bind]. destruct (strip key q') as [r|] eqn:Er; cbn [mbind option_bind].
      * apply strip_Some in Er as ->. assert (r = []) as ->; [|by rewrite decide_True by by rewrite app_nil_r].
        apply (tkey_prefix_free (p ++ y :: key)); [done|]. by rewrite <- app_assoc.
      * rewrite decide_False; [done|]. intros E. apply app_inv_head in E. injection E as <-.
        rewrite <- (app_nil_r key) in Er at 2. by rewrite strip_prefix in Er.
    + assert (p ++ y :: key <> p ++ i :: q') as Hk' by (intros E; apply app_inv_head in E; congruence). rewrite (decide_False _ _ Hk'). destruct (decide (i = x)) as [->|Hnx].
      * rewrite Nat.eqb_refl. cbn [mbind option_bind]. by rewrite get_attach.
      * assert ((x =? i) = false) as -> by (apply Nat.eqb_neq; congruence). done.
Qed.

(** Every node of a well-formed tree that is not empty has keys. *)
Lemma wf_not_nil t : wf t -> t <> TNil.
Proof. by destruct 1. Qed.

Lemma get_nil q : t_get TNil q = None.
Proof. done. Qed.

Lemma get_value v q : t_get (TValue v) q = Some v.
Proof. done. Qed.

(** A key that meets a short node: it goes through it, or they differ at a
    nibble of both. *)
Lemma short_cases k key : tkey key -> (tkey k \/ Forall nibble k) -> k <> key ->
  (exists r, key = k ++ r /\ r <> [] /\ Forall nibble k /\ tkey r) \/
  (exists p x k' y r, k = p ++ x :: k' /\ key = p ++ y :: r /\ x <> y /\ x < 17 /\ y < 17).
Proof.
  intros Hk Hs Hne. destruct (prefixLen_split key k) as (p & a & b & -> & -> & _ & Hd).
  assert (forall x, x ∈ p ++ b -> x < 17) as Hlt.
  { intros x Hx. destruct Hs as [Ht|Hf]; [by apply (tkey_elem _ _ Ht)|]. rewrite Forall_forall in Hf. specialize (Hf x Hx). unfold nibble in Hf. lia. }
  destruct b as [|x b].
  - left. rewrite app_nil_r in *. exists a. destruct a as [|y a]; [by rewrite app_nil_r in Hne|].
    destruct (tkey_strip p (p ++ y :: a) (y :: a) Hk (strip_prefix _ _) Hne) as [Hp Ha]. done.
  - right. destruct a as [|y a].
    + exfalso. rewrite app_nil_r in *. destruct Hs as [Ht|Hf]; [by apply (tkey_prefix_free p) in Ht|].
      destruct Hk as (s & Hs & ->). apply Forall_app in Hf as [Hf _]. apply Forall_app in Hf as [_ Hf]. inversion Hf as [|? ? Hn].
      unfold nibble, terminator in Hn. lia.
    + exists p, x, b, y, a. split_and!; [done|done|congruence|apply Hlt; rewrite elem_of_app, elem_of_cons; auto|].
      apply (tkey_elem _ _ Hk). rewrite elem_of_app, elem_of_cons. auto.
Qed.

(** Insertion at a short node. *)
Lemma insert_short_through k c r v : r <> [] -> t_insert (TShort k c) (k ++ r) v = TShort k (t_insert c r v).
Proof.
  intros Hr. assert (k ++ r <> []) as Hne by by destruct k. destruct (k ++ r) as [|i key] eqn:E; [done|].
  cbn [t_insert]. rewrite <- E. assert (prefixLen (k ++ r) k = length k) as Hp by (apply prefixLen_prefix; by exists r).
  rewrite Hp, Nat.eqb_refl. by rewrite drop_app_length.
Qed.

Lemma insert_short_fork p x k' c y r v : x <> y ->
  t_insert (TShort (p ++ x :: k') c) (p ++ y :: r) v = attach p (TFull (fork_children x k' c y r (TValue v))).
Proof.
  intros Hne. destruct (p ++ y :: r) as [|i key] eqn:E; [by destruct p|]. cbn [t_insert]. rewrite <- E.
  assert (prefixLen (p ++ y :: r) (p ++ x :: k') = length p) as Hp.
  { rewrite prefixLen_app. cbn. assert ((y =? x) = false) as -> by (apply Nat.eqb_neq; congruence). lia. }
  rewrite Hp. assert ((length p =? length (p ++ x :: k')) = false) as ->; [|apply fork_eq].
  apply Nat.eqb_neq. rewrite length_app. cbn. lia.
Qed.

Lemma insert_exact k v v' : k <> [] -> t_insert (TShort k (TValue v)) k v' = TShort k (TValue v').
Proof.
  intros Hk. destruct k as [|i key] eqn:E; [done|]. cbn [t_insert]. rewrite <- E.
  assert (prefixLen k k = length k) as Hp by (apply prefixLen_prefix; exists []; by rewrite app_nil_r).
  rewrite Hp, Nat.eqb_refl. by rewrite drop_ge by lia.
Qed.

Lemma insert_full cs i key v : t_insert (TFull cs) (i :: key) v = TFull (change (fun c => t_insert c key v) cs i).
Proof. done. Qed.

#[local] Opaque t_insert.

(** A child of a full node, with the keys that reach it. *)
Lemma full_child cs i key : full_slots cs -> tkey (i :: key) -> exists c, cs !! i = Some c /\
  ((i = 16 /\ key = [] /\ (c = TNil \/ exists v, c = TValue v /\ v <> [])) \/ (i < 16 /\ tkey key)).
Proof.
  intros (Hl & H16 & _) [[-> ->]|[Hi Hk]]%tkey_cons.
  - destruct H16 as [Hc|(v & Hc & Hv)]; [exists TNil|exists (TValue v)]; (split; [done|]); left; eauto 6.
  - unfold nibble in Hi. destruct (lookup_lt_is_Some_2 cs i) as [c Hc]; [lia|]. exists c. split; [done|]. by right.
Qed.

(** What may hang below a full node at an index. *)
Definition slot_ok (i : nat) (t : trie) : Prop :=
  (i < 16 /\ (t = TNil \/ wf t)) \/ (i = 16 /\ (t = TNil \/ exists v, t = TValue v /\ v <> [])).

Lemma wf_full_slots cs : length cs = 17 -> (forall i c, cs !! i = Some c -> slot_ok i c) ->
  (exists i j c d, i <> j /\ cs !! i = Some c /\ cs !! j = Some d /\ c <> TNil /\ d <> TNil) -> wf (TFull cs).
Proof.
  intros Hl Hs H2. constructor.
  - split; [done|]. split; [|done]. destruct (lookup_lt_is_Some_2 cs 16) as [c Hc]; [lia|]. rewrite Hc.
    destruct (Hs _ _ Hc) as [[? _]|[_ [->|(v & -> & Hv)]]]; [lia|by left|right; eauto].
  - intros i c Hc Hi Hn. destruct (Hs _ _ Hc) as [[_ [->|Hw]]|[? _]]; [done|done|lia].
Qed.

Lemma wf_slots cs i c : wf (TFull cs) -> cs !! i = Some c -> slot_ok i c.
Proof.
  inversion 1 as [| |? (Hl & H16 & _) Hc]; subst. intros Hi. pose proof (lookup_lt_Some _ _ _ Hi) as Hlt.
  destruct (decide (i = 16)) as [->|Hne].
  - right. split; [done|]. destruct H16 as [E|(v & E & Hv)]; rewrite Hi in E; injection E as ->; [by left|right; eauto].
  - left. split; [lia|]. destruct c as [|v|k c|cs']; [by left|..]; right; apply (Hc i); (done || lia).
Qed.

Lemma wf_attach_full p cs : Forall nibble p -> wf (TFull cs) -> wf (attach p (TFull cs)).
Proof. intros Hp Hw. destruct p as [|x p]; [done|]. by apply wf_ext. Qed.

Lemma slot_new i key v : tkey (i :: key) -> v <> [] -> slot_ok i (attach key (TValue v)).
Proof.
  intros [[-> ->]|[Hi (s & Hs & ->)]]%tkey_cons Hv; [right; split; [done|right; eauto]|]. left. split; [done|]. right.
  destruct (s ++ [terminator]) as [|x k] eqn:E; [by destruct s|]. cbn [attach]. rewrite <- E. by apply wf_leaf.
Qed.

Lemma attach_not_nil k t : t <> TNil -> attach k t <> TNil.
Proof. by destruct k. Qed.

Lemma wf_fork p x k c y key v : x <> y -> x < 17 -> tkey (p ++ y :: key) -> v <> [] -> slot_ok x (attach k c) -> c <> TNil ->
  wf (attach p (TFull (fork_children x k c y key (TValue v)))).
Proof.
  intros Hne Hx Hk Hv Hs Hc. assert (p <> p ++ y :: key) as Hpk by (intros E%(f_equal length); rewrite length_app in E; cbn in E; lia).
  destruct (tkey_strip p _ _ Hk (strip_prefix _ _) Hpk) as [Hp Hk']. assert (y < 17) as Hy by (apply (tkey_elem _ _ Hk'); apply elem_of_cons; auto).
  apply wf_attach_full; [done|]. apply wf_full_slots.
  - unfold fork_children. by rewrite !length_insert.
  - intros i d Hi. assert (i < 17) as Hlt by (apply lookup_lt_Some in Hi; unfold fork_children in Hi; by rewrite !length_insert in Hi).
    rewrite lookup_fork in Hi by done. injection Hi as <-. destruct (decide (i = y)) as [->|]; [by apply slot_new|].
    destruct (decide (i = x)) as [->|]; [done|]. destruct (decide (i = 16)) as [->|]; [right; split; [done|by left]|left; split; [lia|by left]].
  - exists y, x, (attach key (TValue v)), (attach k c). split_and!; [congruence|..].
    + by rewrite lookup_fork, decide_True by done.
    + by rewrite lookup_fork, decide_False, decide_True by done.
    + by apply attach_not_nil.
    + by apply attach_not_nil.
Qed.

(** The rest of a well-formed short node below its first nibbles. *)
Lemma wf_short_rest p x k c : wf (TShort (p ++ x :: k) c) -> c <> TNil /\ x < 17 /\ slot_ok x (attach k c).
Proof.
  inversion 1 as [s v Hs Hv E|s cs Hne Hs Hw E|]; subst.
  - split; [done|]. assert (tkey (p ++ x :: k)) as Hk by by exists s; rewrite E.
    assert (p <> p ++ x :: k) as Hpk by (intros El%(f_equal length); rewrite length_app in El; cbn in El; lia).
    destruct (tkey_strip p _ _ Hk (strip_prefix _ _) Hpk) as [_ Hk']. split; [apply (tkey_elem _ _ Hk'); apply elem_of_cons; auto|by apply slot_new].
  - split; [done|]. apply Forall_app in Hs as [_ Hs]. inversion Hs as [|? ? Hx Hk]; subst. unfold nibble in Hx. split; [lia|].
    left. split; [done|]. right. by apply wf_attach_full.
Qed.

Lemma wf_short_key k c : wf (TShort k c) -> tkey k \/ Forall nibble k.
Proof. inversion 1; subst; [left; by eexists|by right]. Qed.

Lemma change_slots cs i (f : trie -> trie) : wf (TFull cs) -> (forall c, cs !! i = Some c -> slot_ok i (f c) /\ f c <> TNil) -> wf (TFull (change f cs i)).
Proof.
  intros Hw Hf. pose proof Hw as Hw'. inversion Hw' as [| |? (Hl & _ & a & b & c & d & Hab & Ha & Hb & Hc & Hd) _]; subst. apply wf_full_slots.
  - by rewrite length_change.
  - intros j e. rewrite lookup_change. destruct (decide (i = j)) as [->|]; [|by apply wf_slots].
    intros (e' & He & ->)%fmap_Some. by apply Hf.
  - assert (forall j e, cs !! j = Some e -> e <> TNil -> exists e', change f cs i !! j = Some e' /\ e' <> TNil) as Hnn.
    { intros j e Hj He. rewrite lookup_change. destruct (decide (i = j)) as [->|]; [|eauto]. rewrite Hj. cbn. exists (f e). split; [done|by apply Hf]. }
    destruct (Hnn _ _ Ha Hc) as (c' & ? & ?), (Hnn _ _ Hb Hd) as (d' & ? & ?). by exists a, b, c', d'.
Qed.

Lemma insert_nil key v : key <> [] -> t_insert TNil key v = TShort key (TValue v).
Proof. by destruct key. Qed.

Lemma insert_empty_key t v : t_insert t [] v = TValue v.
Proof. by destruct t. Qed.

Lemma wf_insert_wf t key v : wf t -> tkey key -> v <> [] -> wf (t_insert t key v).
Proof.
  intros Hw. revert key. induction Hw as [s v0 Hs Hv0|s cs Hne Hs Hw IH|cs Hcs Hc IH]; intros key Hk Hv.
  - destruct (decide (s ++ [terminator] = key)) as [<-|Hd]; [rewrite insert_exact by (by destruct s); by apply wf_leaf|].
    destruct (short_cases (s ++ [terminator]) key Hk) as [(r & -> & Hr & _)|(p & x & k' & y & r & Ek & -> & Hxy & Hx & Hy)];
      [left; by exists s|done|by apply (tkey_prefix_free (s ++ [terminator])) in Hk; [|by exists s]|].
    rewrite Ek, insert_short_fork by done. assert (wf (TShort (s ++ [terminator]) (TValue v0))) as Hw by by apply wf_leaf.
    rewrite Ek in Hw. apply wf_short_rest in Hw as (Hc & Hx' & Hsl). by apply wf_fork.
  - assert (s <> key) as Hd by by apply nibbles_not_tkey.
    destruct (short_cases s key Hk) as [(r & -> & Hr & _ & Hkr)|(p & x & k' & y & r & Ek & -> & Hxy & Hx & Hy)]; [by right|done|..].
    + rewrite insert_short_through by done. specialize (IH r Hkr Hv). destruct r as [|i r]; [done|]. rewrite insert_full in *. by apply wf_ext.
    + rewrite Ek, insert_short_fork by done. assert (wf (TShort s (TFull cs))) as Hw' by by apply wf_ext.
      rewrite Ek in Hw'. apply wf_short_rest in Hw' as (Hc & Hx' & Hsl). by apply wf_fork.
  - destruct key as [|i key]; [by apply tkey_nonempty in Hk|]. rewrite insert_full. apply change_slots; [by constructor|].
    intros c Hi. destruct (full_child cs i key Hcs Hk) as (c' & Hi' & Hcase). rewrite Hi in Hi'. injection Hi' as <-.
    destruct Hcase as [(-> & -> & Hsl)|[Hlt Hkk]].
    + rewrite insert_empty_key. split; [right; split; [done|right; eauto]|done].
    + destruct (decide (is_nil c = true)) as [Hn|Hn].
      * destruct c; try done. rewrite insert_nil by by apply tkey_nonempty. split; [|done]. left. split; [done|]. right.
        destruct Hkk as (s & Hs & ->). by apply wf_leaf.
      * assert (wf (t_insert c key v)) as Hwc by (apply (IH i); [done|done|by intros ->|done|done]).
        split; [left; split; [done|by right]|by apply wf_not_nil].
Qed.

Lemma wf_insert t key v : wf_root t -> tkey key -> v <> [] -> wf_root (t_insert t key v).
Proof.
  intros [->|Hw] Hk Hv; right; [|by apply wf_insert_wf]. rewrite insert_nil by by apply tkey_nonempty.
  destruct Hk as (s & Hs & ->). by apply wf_leaf.
Qed.

Lemma get_insert_wf t key v q : wf t -> tkey key -> tkey q -> t_get (t_insert t key v) q = if decide (key = q) then Some v else t_get t q.
Proof.
  intros Hw. revert key q. induction Hw as [s v0 Hs Hv0|s cs Hne Hs Hw IH|cs Hcs Hc IH]; intros key q Hk Hq.
  - assert (tkey (s ++ [terminator])) as Hks by by exists s. destruct (decide (s ++ [terminator] = key)) as [<-|Hd].
    { rewrite insert_exact by by destruct s. rewrite !get_leaf by done. by destruct (decide _). }
    destruct (short_cases (s ++ [terminator]) key Hk) as [(r & -> & Hr & _)|(p & x & k' & y & r & Ek & -> & Hxy & Hx & Hy)];
      [by left|done|by apply (tkey_prefix_free (s ++ [terminator])) in Hk|].
    rewrite Ek, insert_short_fork by done. by apply get_fork.
  - assert (s <> key) as Hd by by apply nibbles_not_tkey.
    destruct (short_cases s key Hk) as [(r & -> & Hr & _ & Hkr)|(p & x & k' & y & r & Ek & -> & Hxy & Hx & Hy)]; [by right|done|..].
    + rewrite insert_short_through by done. rewrite !get_short. destruct (strip s q) as [q'|] eqn:E; cbn [mbind option_bind].
      * apply strip_Some in E as ->. assert (s <> s ++ q') as Hs' by by apply nibbles_not_tkey.
        destruct (tkey_strip s (s ++ q') q' Hq (strip_prefix _ _) Hs') as [_ Hq']. rewrite IH by done.
        destruct (decide (r = q')) as [->|Hrq]; [by rewrite decide_True|]. rewrite decide_False; [done|]. by intros E%app_inv_head.
      * rewrite decide_False; [done|]. intros <-. by rewrite strip_prefix in E.
    + rewrite Ek, insert_short_fork by done. by apply get_fork.
  - destruct key as [|i key]; [by apply tkey_nonempty in Hk|]. destruct q as [|j q]; [by apply tkey_nonempty in Hq|].
    rewrite insert_full, !get_full, lookup_change. destruct (decide (i = j)) as [<-|Hij]; [|by rewrite decide_False by congruence].
    destruct (full_child cs i key Hcs Hk) as (c & Hi & Hcase). rewrite Hi. cbn [fmap option_fmap option_map].
    destruct Hcase as [(-> & -> & Hsl)|[Hlt Hkk]].
    + apply tkey_cons in Hq as [[_ ->]|[Hn _]]; [|unfold nibble in Hn; lia]. by rewrite insert_empty_key, decide_True.
    + apply tkey_cons in Hq as [[-> _]|[_ Hkq]]; [unfold terminator in Hlt; lia|].
      assert (t_get (t_insert c key v) q = if decide (key = q) then Some v else t_get c q) as ->.
      { destruct (decide (is_nil c = true)) as [Hn|Hn].
        - destruct c; try done. rewrite insert_nil by by apply tkey_nonempty. rewrite get_leaf by done. done.
        - apply (IH i); [done|done|by intros ->|done|done]. }
      destruct (decide (key = q)) as [->|Hkq']; [by rewrite decide_True|]. by rewrite decide_False by congruence.
Qed.

Lemma get_insert t key v q : wf_root t -> tkey key -> tkey q -> t_get (t_insert t key v) q = if decide (key = q) then Some v else t_get t q.
Proof.
  intros [->|Hw] Hk Hq; [|by apply get_insert_wf]. rewrite insert_nil by by apply tkey_nonempty. by rewrite get_leaf.
Qed.

(** Inserting what is there changes nothing. *)
Lemma insert_same t key v : wf t -> tkey key -> t_get t key = Some v -> t_insert t key v = t.
Proof.
  intros Hw. revert key. induction Hw as [s v0 Hs Hv0|s cs Hne Hs Hw IH|cs Hcs Hc IH]; intros key Hk Hg.
  - rewrite get_leaf in Hg by (done || by exists s). destruct (decide _) as [<-|]; [|done]. injection Hg as <-. by rewrite insert_exact by by destruct s.
  - rewrite get_short in Hg. apply bind_Some in Hg as (r & ->%strip_Some & Hg).
    destruct (tkey_strip s (s ++ r) r Hk (strip_prefix _ _)) as [_ Hr]; [by apply nibbles_not_tkey|].
    rewrite insert_short_through by by apply tkey_nonempty. f_equal. by apply IH.
  - destruct key as [|i key]; [by apply tkey_nonempty in Hk|]. rewrite insert_full. f_equal. rewrite get_full in Hg.
    destruct (full_child cs i key Hcs Hk) as (c & Hi & Hcase). rewrite Hi in Hg. rewrite change_alter. apply list_eq. intros j.
    destruct (decide (i = j)) as [<-|]; [|by rewrite list_lookup_alter_ne]. rewrite list_lookup_alter_eq, Hi. cbn. f_equal.
    destruct Hcase as [(-> & -> & [->|(v' & -> & _)])|[Hlt Hkk]]; [by rewrite get_nil in Hg|rewrite insert_empty_key; rewrite get_value in Hg; by injection Hg as ->|].
    destruct (decide (is_nil c = true)) as [Hn|Hn]; [destruct c; try done; by rewrite get_nil in Hg|]. apply (IH i); [done|done|by intros ->|done|done].
Qed.

(** ** Deletion *)

Lemma elem_children cs j d : (j, d) ∈ filter (fun p => is_nil p.2 = false) (imap pair cs) <-> cs !! j = Some d /\ is_nil d = false.
Proof.
  rewrite list_elem_of_filter, elem_of_lookup_imap. cbn. split.
  - intros [Hn (k & x & [= -> ->] & Hk)]. done.
  - intros [Hj Hn]. split; [done|]. by exists j, d.
Qed.

Lemma only_child_Some cs i : only_child cs = Some i -> exists c, cs !! i = Some c /\ c <> TNil /\ forall j d, cs !! j = Some d -> j <> i -> d = TNil.
Proof.
  unfold only_child. set (l := filter _ _). destruct l as [|[i' c] [|]] eqn:El; try done. intros [= ->].
  pose proof (elem_children cs) as Hin. fold l in Hin.
  rewrite El in Hin. exists c. destruct (proj1 (Hin i c)) as [Hi Hn]; [by apply list_elem_of_singleton|]. split_and!; [done|by intros ->|].
  intros j d Hj Hne. destruct (is_nil d) eqn:En; [by destruct d|]. assert ((j, d) ∈ [(i, c)]) as Hs by by apply Hin.
  apply list_elem_of_singleton in Hs. congruence.
Qed.

Lemma only_child_None cs : only_child cs = None -> (exists i c, cs !! i = Some c /\ c <> TNil) ->
  exists i j c d, i <> j /\ cs !! i = Some c /\ cs !! j = Some d /\ c <> TNil /\ d <> TNil.
Proof.
  unfold only_child. set (l := filter _ _). intros Hl (i & c & Hi & Hc).
  pose proof (elem_children cs) as Hin. fold l in Hin.
  assert (NoDup l.*1) as Hnd.
  { apply (sublist_NoDup _ (imap pair cs).*1); [|apply fmap_sublist, sublist_filter].
    assert ((imap pair cs).*1 = seq 0 (length cs)) as ->; [|apply NoDup_seq]. apply list_eq. intros k.
    rewrite list_lookup_fmap, list_lookup_imap. destruct (cs !! k) eqn:E; cbn; symmetry.
    - apply lookup_seq. split; [done|by eapply lookup_lt_Some].
    - apply lookup_seq_ge. by apply lookup_ge_None in E. }
  destruct l as [|[a x] [|[b y] l']]; [|done|].
  - destruct (is_nil c) eqn:En; [by destruct c|]. assert ((i, c) ∈ (@nil (nat * trie))) as []%not_elem_of_nil by by apply Hin.
  - destruct (proj1 (Hin a x)) as [Ha Hx]; [apply elem_of_cons; by left|]. destruct (proj1 (Hin b y)) as [Hb Hy]; [rewrite !elem_of_cons; auto|].
    exists a, b, x, y. split_and!; [|done|done|by intros ->|by intros ->]. intros ->. apply NoDup_cons in Hnd as [Hnd _]. apply Hnd, elem_of_cons. by left.
Qed.

Lemma wf_cons_short i k c : nibble i -> wf (TShort k c) -> wf (TShort (i :: k) c).
Proof.
  intros Hi Hw. inversion Hw; subst.
  - apply (wf_leaf (i :: s)); [by constructor|done].
  - apply wf_ext; [done|by constructor|done].
Qed.

Lemma wf_join k t : k <> [] -> Forall nibble k -> wf t -> wf (join k t).
Proof.
  intros Hne Hk Hw. inversion Hw; subst; cbn [join].
  - rewrite app_assoc. apply wf_leaf; [by apply Forall_app|done].
  - apply wf_ext; [by destruct k|by apply Forall_app|done].
  - by apply wf_ext.
Qed.

Lemma get_join k t q : t_get (join k t) q = t_get (TShort k t) q.
Proof.
  destruct t as [|v|k' c|cs]; try done. cbn [join]. rewrite !get_short, strip_app. destruct (strip k q); [|done]. cbn. by rewrite get_short.
Qed.

(** The children after a deletion: slots as before, and one of them not empty. *)
Lemma wf_reduce cs : length cs = 17 -> (forall i c, cs !! i = Some c -> slot_ok i c) -> (exists i c, cs !! i = Some c /\ c <> TNil) -> wf (reduce cs).
Proof.
  intros Hl Hs H1. unfold reduce. destruct (only_child cs) as [i|] eqn:Eo; [|by apply wf_full_slots, only_child_None].
  destruct (only_child_Some cs i Eo) as (c & Hi & Hc & _). rewrite Hi. destruct (Hs i c Hi) as [[Hlt [->|Hw]]|[-> [->|(v & -> & Hv)]]]; try done.
  - destruct c as [|v|k c|ds]; [done|inversion Hw|..].
    + rewrite (proj2 (Nat.eqb_neq i 16)) by lia. by apply wf_cons_short.
    + apply wf_ext; [done|by apply Forall_singleton|done].
  - by apply (wf_leaf []).
Qed.

Lemma get_reduce cs q : length cs = 17 -> tkey q -> t_get (reduce cs) q = t_get (TFull cs) q.
Proof.
  intros Hl Hq. unfold reduce. destruct (only_child cs) as [i|] eqn:Eo; [|done].
  destruct (only_child_Some cs i Eo) as (c & Hi & Hc & Hother). rewrite Hi.
  assert (t_get (TShort [i] c) q = t_get (TFull cs) q) as E.
  { destruct q as [|j q]; [by apply tkey_nonempty in Hq|]. rewrite get_short, get_full. cbn [strip].
    destruct (Nat.eqb_spec i j) as [->|Hne]; cbn; [by rewrite Hi|].
    destruct (cs !! j) as [d|] eqn:Ej; [|done]. rewrite (Hother j d Ej) by done. by rewrite get_nil. }
  rewrite <- E. destruct c as [|v|k c|ds]; try done. destruct (i =? 16); [done|]. exact (get_join [i] (TShort k c) q).
Qed.

Lemma delete_full cs i key : t_delete (TFull cs) (i :: key) = reduce (change (fun c => t_delete c key) cs i).
Proof. done. Qed.

Lemma delete_nil key : t_delete TNil key = TNil.
Proof. by destruct key. Qed.

Lemma delete_short_through k c r : r <> [] -> t_delete (TShort k c) (k ++ r) = join k (t_delete c r).
Proof.
  intros Hr. cbn [t_delete]. rewrite (proj2 (prefixLen_prefix k (k ++ r))) by eauto. rewrite Nat.ltb_irrefl.
  assert ((length k =? length (k ++ r)) = false) as -> by (apply Nat.eqb_neq; rewrite length_app; destruct r; cbn; [done|lia]).
  by rewrite drop_app_length.
Qed.

Lemma delete_exact k c : t_delete (TShort k c) k = TNil.
Proof.
  cbn [t_delete]. rewrite (proj2 (prefixLen_prefix k k)) by (exists []; by rewrite app_nil_r). by rewrite Nat.ltb_irrefl, Nat.eqb_refl.
Qed.

Lemma delete_short_miss k c key : (forall r, key <> k ++ r) -> t_delete (TShort k c) key = TShort k c.
Proof.
  intros Hk. cbn [t_delete]. destruct (Nat.ltb_spec (prefixLen key k) (length k)) as [|Hge]; [done|].
  assert (prefixLen key k = length k) as E by (pose proof (proj2 (prefixLen_le key k)); lia).
  apply prefixLen_prefix in E as [r ->]. by destruct (Hk r).
Qed.

#[local] Opaque t_delete.

(** Deletion from a short node: it misses, takes it away, or goes through. *)
Lemma delete_short_cases k c key : wf (TShort k c) -> tkey key ->
  (k = key /\ exists v, c = TValue v) \/ (forall r, key <> k ++ r) \/
  (exists r ds, key = k ++ r /\ tkey r /\ c = TFull ds /\ k <> [] /\ Forall nibble k /\ wf (TFull ds)).
Proof.
  intros Hw Hk. destruct (strip k key) as [r|] eqn:E; [apply strip_Some in E as ->|right; left; intros r ->; by rewrite strip_prefix in E].
  inversion Hw as [s v Hs Hv|s ds Hne Hs Hwf|]; subst.
  - left. rewrite (tkey_prefix_free _ _ ltac:(by exists s) Hk), app_nil_r. eauto.
  - right. right. exists r, ds. split_and!; try done. by destruct (tkey_strip k (k ++ r) r Hk (strip_prefix _ _)); [apply nibbles_not_tkey|].
Qed.

Lemma change_delete_slots cs i key : wf (TFull cs) -> tkey (i :: key) ->
  (forall c, cs !! i = Some c -> i < 16 -> tkey key -> c <> TNil -> wf_root (t_delete c key)) ->
  length (change (fun c => t_delete c key) cs i) = 17 /\
  (forall j d, change (fun c => t_delete c key) cs i !! j = Some d -> slot_ok j d) /\
  exists j d, change (fun c => t_delete c key) cs i !! j = Some d /\ d <> TNil.
Proof.
  intros Hw Hk Hc. pose proof Hw as Hw'. inversion Hw' as [| |? Hfs _]; subst. pose proof Hfs as (Hl & _ & a & b & x & y & Hab & Ha & Hb & Hx & Hy).
  split_and!; [by rewrite length_change| |].
  - intros j d. rewrite lookup_change. destruct (decide (i = j)) as [<-|]; [|by apply wf_slots].
    intros (e & He & ->)%fmap_Some. destruct (full_child cs i key Hfs Hk) as (e' & He' & Hcase). rewrite He in He'. injection He' as <-.
    destruct Hcase as [(-> & -> & [->|(v & -> & _)])|[Hlt Hkk]]; [by right; split; [done|by left]..|].
    left. split; [done|]. destruct (decide (is_nil e = true)) as [Hn|Hn]; [destruct e; try done; left; apply delete_nil|].
    apply Hc; [done|done|done|by intros ->].
  - destruct (decide (i = a)) as [->|]; [exists b, y|exists a, x]; rewrite lookup_change, decide_False by congruence; done.
Qed.

Lemma wf_delete t key : wf t -> tkey key -> wf_root (t_delete t key) /\ (is_nil (t_delete t key) = true -> exists v, t = TShort key (TValue v)).
Proof.
  intros Hw. revert key. assert (forall cs, wf (TFull cs) -> (forall i c, cs !! i = Some c -> i < 16 -> c <> TNil -> forall key, tkey key -> wf_root (t_delete c key)) ->
    forall key, tkey key -> wf (t_delete (TFull cs) key)) as Hfull.
  { intros cs Hcs IH key Hk. destruct key as [|i key]; [by apply tkey_nonempty in Hk|]. rewrite delete_full.
    destruct (change_delete_slots cs i key Hcs Hk) as (? & ? & ?); [|by apply wf_reduce]. intros c Hi Hlt Hkk Hn. by eapply IH. }
  induction Hw as [s v Hs Hv|s cs Hne Hs Hw IH|cs Hcs Hc IH]; intros key Hk.
  - assert (wf (TShort (s ++ [terminator]) (TValue v))) as Hwl by by apply wf_leaf.
    destruct (delete_short_cases _ _ key Hwl Hk) as [[<- _]|[Hm|(r & ds & _ & _ & Hd & _)]]; [|rewrite delete_short_miss by done|done].
    + rewrite delete_exact. split; [by left|eauto].
    + split; [by right|done].
  - assert (wf (TShort s (TFull cs))) as Hwe by by apply wf_ext.
    destruct (delete_short_cases _ _ key Hwe Hk) as [[_ [v Hd]]|[Hm|(r & ds & -> & Hr & _)]]; [done|rewrite delete_short_miss by done; split; [by right|done]|].
    rewrite delete_short_through by by apply tkey_nonempty. assert (wf (t_delete (TFull cs) r)) as Hwd.
    { destruct (IH r Hr) as [[E|]  Hn]; [|done]. destruct Hn as [v Hv]; [by rewrite E|done]. }
    split; [right; by apply wf_join|]. intros Hn. by destruct (t_delete (TFull cs) r).
  - assert (wf (t_delete (TFull cs) key)) as Hwd.
    { apply Hfull; [by constructor| |done]. intros i c Hi Hlt Hn k Hkk. by apply (IH i c). }
    split; [by right|]. intros Hn. apply wf_not_nil in Hwd. by destruct (t_delete (TFull cs) key).
Qed.

Lemma wf_delete_root t key : wf_root t -> tkey key -> wf_root (t_delete t key).
Proof. intros [->|Hw] Hk; [left; apply delete_nil|by apply wf_delete]. Qed.

Lemma get_delete_wf t key q : wf t -> tkey key -> tkey q -> t_get (t_delete t key) q = if decide (key = q) then None else t_get t q.
Proof.
  intros Hw. revert key q. induction Hw as [s v Hs Hv|s cs Hne Hs Hw IH|cs Hcs Hc IH]; intros key q Hk Hq.
  - assert (wf (TShort (s ++ [terminator]) (TValue v))) as Hwl by by apply wf_leaf.
    destruct (delete_short_cases _ _ key Hwl Hk) as [[<- _]|[Hm|(r & ds & _ & _ & Hd & _)]]; [| |done].
    + rewrite delete_exact, get_leaf, get_nil by (done || by exists s). by destruct (decide _).
    + rewrite delete_short_miss by done. destruct (decide (key = q)) as [<-|]; [|done]. rewrite get_leaf by (done || by exists s).
      rewrite decide_False; [done|]. intros <-. by destruct (Hm []); rewrite app_nil_r.
  - assert (wf (TShort s (TFull cs))) as Hwe by by apply wf_ext.
    destruct (delete_short_cases _ _ key Hwe Hk) as [[_ [v Hd]]|[Hm|(r & ds & -> & Hr & _)]]; [done|..].
    + rewrite delete_short_miss by done. destruct (decide (key = q)) as [<-|]; [|done]. rewrite get_short.
      destruct (strip s key) as [r|] eqn:E; [|done]. apply strip_Some in E. by destruct (Hm r).
    + rewrite delete_short_through, get_join, !get_short by by apply tkey_nonempty. destruct (strip s q) as [q'|] eqn:E; cbn.
      * apply strip_Some in E as ->. destruct (tkey_strip s (s ++ q') q' Hq (strip_prefix _ _)) as [_ Hq']; [by apply nibbles_not_tkey|].
        rewrite IH by done. destruct (decide (r = q')) as [->|]; [by rewrite decide_True|]. rewrite decide_False; [done|]. by intros ?%app_inv_head.
      * by destruct (decide _).
  - destruct key as [|i key]; [by apply tkey_nonempty in Hk|]. rewrite delete_full.
    destruct q as [|j q]; [by apply tkey_nonempty in Hq|]. rewrite get_reduce by (done || by rewrite length_change; apply Hcs).
    rewrite !get_full, lookup_change. destruct (decide (i = j)) as [<-|]; [|by rewrite decide_False by congruence].
    destruct (full_child cs i key Hcs Hk) as (c & Hi & Hcase). rewrite Hi. cbn. destruct Hcase as [(-> & -> & Hsl)|[Hlt Hkk]].
    + apply tkey_cons in Hq as [[_ ->]|[Hn _]]; [|unfold nibble in Hn; lia]. rewrite decide_True by done. by destruct Hsl as [->|(v & -> & _)].
    + apply tkey_cons in Hq as [[-> _]|[_ Hkq]]; [unfold terminator in Hlt; lia|].
      assert (t_get (t_delete c key) q = if decide (key = q) then None else t_get c q) as ->.
      { destruct (decide (is_nil c = true)) as [Hn|Hn]; [destruct c; try done; rewrite delete_nil, get_nil; by destruct (decide _)|].
        apply (IH i); [done|done|by intros ->|done|done]. }
      destruct (decide (key = q)) as [->|]; [by rewrite decide_True|]. by rewrite decide_False by congruence.
Qed.

Lemma get_delete t key q : wf_root t -> tkey key -> tkey q -> t_get (t_delete t key) q = if decide (key = q) then None else t_get t q.
Proof. intros [->|Hw] Hk Hq; [rewrite delete_nil, get_nil; by destruct (decide _)|by apply get_delete_wf]. Qed.

(** Deleting what is not there changes nothing. *)
Lemma delete_absent t key : wf t -> tkey key -> t_get t key = None -> t_delete t key = t.
Proof.
  intros Hw. revert key. induction Hw as [s v Hs Hv|s cs Hne Hs Hw IH|cs Hcs Hc IH]; intros key Hk Hg.
  - rewrite delete_short_miss; [done|]. intros r ->. rewrite get_short, strip_prefix in Hg. cbn in Hg. by rewrite get_value in Hg.
  - destruct (strip s key) as [r|] eqn:E; [|rewrite delete_short_miss; [done|]; intros r ->; by rewrite strip_prefix in E].
    apply strip_Some in E as ->. destruct (tkey_strip s (s ++ r) r Hk (strip_prefix _ _)) as [_ Hr]; [by apply nibbles_not_tkey|].
    rewrite delete_short_through by by apply tkey_nonempty. rewrite IH; [done|done|]. by rewrite get_short, strip_prefix in Hg.
  - destruct key as [|i key]; [by apply tkey_nonempty in Hk|]. rewrite delete_full. rewrite get_full in Hg.
    destruct (full_child cs i key Hcs Hk) as (c & Hi & Hcase). rewrite Hi in Hg.
    assert (change (fun c => t_delete c key) cs i = cs) as ->.
    { rewrite change_alter. apply list_eq. intros j. destruct (decide (i = j)) as [<-|]; [|by rewrite list_lookup_alter_ne].
      rewrite list_lookup_alter_eq, Hi. cbn. f_equal. destruct Hcase as [(-> & -> & [->|(v & -> & _)])|[Hlt Hkk]].
      - apply delete_nil.
      - by rewrite get_value in Hg.
      - destruct (decide (is_nil c = true)) as [Hn|Hn]; [destruct c; try done; apply delete_nil|]. apply (IH i); [done|done|by intros ->|done|done]. }
    unfold reduce. destruct (only_child cs) as [j|] eqn:Eo; [|done]. destruct (only_child_Some cs j Eo) as (d & Hj & Hd & Hother).
    destruct Hcs as (_ & _ & a & b & x & y & Hab & Ha & Hb & Hx & Hy). destruct (decide (a = j)) as [->|Haj].
    + destruct Hy. by apply (Hother b).
    + destruct Hx. by apply (Hother a).
Qed.

(** ** The contents determine the tree *)

Lemma wf_has_key t : wf t -> exists q v, tkey q /\ t_get t q = Some v.
Proof.
  induction 1 as [s v Hs Hv|s cs Hne Hs Hw (q & v & Hq & Hg)|cs Hcs Hc IH].
  - exists (s ++ [terminator]), v. assert (tkey (s ++ [terminator])) as Hk by by exists s. split; [done|]. by rewrite get_leaf, decide_True.
  - exists (s ++ q), v. split; [by apply tkey_app|]. by rewrite get_short, strip_prefix.
  - destruct Hcs as (Hl & H16 & i & _ & c & _ & _ & Hi & _ & Hn & _). pose proof (lookup_lt_Some _ _ _ Hi) as Hlt. destruct (decide (i = 16)) as [->|].
    + destruct H16 as [E|(v & E & _)]; rewrite Hi in E; injection E as ->; [done|]. exists [terminator], v. split; [by exists []|].
      rewrite get_full. unfold terminator. by rewrite Hi, get_value.
    + destruct (IH i c) as (q & v & Hq & Hg); [done|lia|done|]. exists (i :: q), v. split.
      * apply (tkey_app [i]); [apply Forall_singleton; unfold nibble; lia|done].
      * by rewrite get_full, Hi.
Qed.

Lemma child_has_key cs i c : wf (TFull cs) -> cs !! i = Some c -> c <> TNil -> exists q v, tkey (i :: q) /\ t_get (TFull cs) (i :: q) = Some v.
Proof.
  intros Hw Hi Hn. destruct (wf_slots cs i c Hw Hi) as [[Hlt [->|Hc]]|[-> [->|(v & -> & _)]]]; try done.
  - destruct (wf_has_key c Hc) as (q & v & Hq & Hg). exists q, v. split; [|by rewrite get_full, Hi].
    apply (tkey_app [i]); [by apply Forall_singleton|done].
  - exists [], v. split; [by exists []|]. by rewrite get_full, Hi.
Qed.

(** A full node has keys with different first nibbles. *)
Lemma full_has_keys cs : wf (TFull cs) -> exists i q j q' v v', i <> j /\ tkey (i :: q) /\ tkey (j :: q') /\
  t_get (TFull cs) (i :: q) = Some v /\ t_get (TFull cs) (j :: q') = Some v'.
Proof.
  intros Hw. pose proof Hw as Hw'. inversion Hw' as [| |? (_ & _ & i & j & c & d & Hij & Hi & Hj & Hc & Hd) _]; subst.
  destruct (child_has_key cs i c Hw Hi Hc) as (q & v & ? & ?), (child_has_key cs j d Hw Hj Hd) as (q' & v' & ? & ?). by exists i, q, j, q', v, v'.
Qed.

Lemma common_prefix s s' i q j q' r r' : i <> j -> strip s' (s ++ i :: q) = Some r -> strip s' (s ++ j :: q') = Some r' -> exists u, s = s' ++ u.
Proof.
  intros Hij. revert s'. induction s as [|x s IH]; intros [|y s'] H1 H2; [by exists []| |by exists (x :: s)|].
  - cbn in H1, H2. destruct (Nat.eqb_spec y i) as [->|]; [|done]. by rewrite (proj2 (Nat.eqb_neq i j) Hij) in H2.
  - cbn in H1, H2. destruct (Nat.eqb_spec y x) as [->|]; [|done]. destruct (IH s' H1 H2) as [u ->]. by exists u.
Qed.

(** The key of a short node is a prefix of every key below it. *)
Lemma short_prefix k c q v : t_get (TShort k c) q = Some v -> exists r, strip k q = Some r.
Proof. rewrite get_short. intros (r & Hr & _)%bind_Some. eauto. Qed.

Definition same_contents (t t' : trie) : Prop := forall q, tkey q -> t_get t q = t_get t' q.

Lemma ext_keys s cs : Forall nibble s -> wf (TFull cs) -> exists i q j q' v v', i <> j /\ tkey (s ++ i :: q) /\ tkey (s ++ j :: q') /\
  t_get (attach s (TFull cs)) (s ++ i :: q) = Some v /\ t_get (attach s (TFull cs)) (s ++ j :: q') = Some v'.
Proof.
  intros Hs Hw. destruct (full_has_keys cs Hw) as (i & q & j & q' & v & v' & Hij & Hk & Hk' & Hg & Hg'). exists i, q, j, q', v, v'.
  split_and!; [done|by apply tkey_app|by apply tkey_app|..]; by rewrite get_attach, strip_prefix.
Qed.

(** A leaf has one key, a node with a full node below it has two. *)
Lemma leaf_not_ext k v s cs : tkey k -> Forall nibble s -> wf (TFull cs) -> same_contents (TShort k (TValue v)) (attach s (TFull cs)) -> False.
Proof.
  intros Hk Hs Hw Hsame. destruct (ext_keys s cs Hs Hw) as (i & q & j & q' & v1 & v2 & Hij & H1 & H2 & G1 & G2).
  rewrite <- Hsame, get_leaf in G1, G2 by done. destruct (decide (k = s ++ i :: q)) as [E|]; [|done].
  destruct (decide (k = s ++ j :: q')) as [E'|]; [|done]. rewrite E in E'. apply app_inv_head in E'. congruence.
Qed.

(** The longest common prefix of the keys of an extension is its own. *)
Lemma ext_prefix s s' cs cs' : Forall nibble s -> wf (TFull cs) -> same_contents (attach s (TFull cs)) (attach s' (TFull cs')) -> exists u, s = s' ++ u.
Proof.
  intros Hs Hw Hsame. destruct (ext_keys s cs Hs Hw) as (i & q & j & q' & v1 & v2 & Hij & H1 & H2 & G1 & G2).
  rewrite Hsame, get_attach in G1, G2 by done. apply bind_Some in G1 as (r & Hr & _), G2 as (r' & Hr' & _). by eapply common_prefix.
Qed.

Lemma wf_short_or_full t : wf t -> (exists k v, t = TShort k (TValue v) /\ tkey k /\ v <> []) \/
  (exists s cs, t = attach s (TFull cs) /\ Forall nibble s /\ wf (TFull cs)).
Proof.
  destruct 1 as [s v Hs Hv|s cs Hne Hs Hw|cs Hcs Hc].
  - left. exists (s ++ [terminator]), v. split_and!; [done|by exists s|done].
  - right. exists s, cs. by destruct s.
  - right. exists [], cs. split_and!; [done|done|by constructor].
Qed.

Lemma ext_canonical s s' cs cs' : Forall nibble s -> Forall nibble s' -> wf (TFull cs) -> wf (TFull cs') ->
  same_contents (attach s (TFull cs)) (attach s' (TFull cs')) -> s = s' /\ same_contents (TFull cs) (TFull cs').
Proof.
  intros Hs Hs' Hw Hw' Hsame. destruct (ext_prefix s s' cs cs' Hs Hw Hsame) as [u Hu]. destruct (ext_prefix s' s cs' cs Hs' Hw') as [u' Hu'].
  { intros q Hq. symmetry. by apply Hsame. }
  assert (s = s') as <-.
  { rewrite Hu in Hu'. rewrite <- app_assoc in Hu'. rewrite <- (app_nil_r s') in Hu' at 1. apply app_inv_head in Hu'.
    destruct u; [|done]. by rewrite app_nil_r in Hu. }
  split; [done|]. intros q Hq. specialize (Hsame (s ++ q) (tkey_app _ _ Hs Hq)). by rewrite !get_attach, !strip_prefix in Hsame.
Qed.

Lemma full_canonical cs cs' : wf (TFull cs) -> wf (TFull cs') -> same_contents (TFull cs) (TFull cs') ->
  (forall i c c', cs !! i = Some c -> cs' !! i = Some c' -> i < 16 -> wf c -> wf c' -> same_contents c c' -> c = c') -> cs = cs'.
Proof.
  intros Hw Hw' Hsame IH. assert (length cs = 17 /\ length cs' = 17) as [Hl Hl'].
  { inversion Hw as [| |? (? & _) _]; inversion Hw' as [| |? (? & _) _]; done. }
  assert (forall cs cs' i c c', wf (TFull cs) -> same_contents (TFull cs) (TFull cs') -> cs !! i = Some c -> cs' !! i = Some c' -> c <> TNil -> c' <> TNil) as Hnil.
  { intros ds ds' i c c' Hd Hs Hi Hi' Hc ->. destruct (child_has_key ds i c Hd Hi Hc) as (q & v & Hq & Hg).
    rewrite Hs, get_full, Hi', get_nil in Hg by done. done. }
  apply list_eq. intros i. destruct (decide (i < 17)) as [Hlt|]; [|by rewrite !lookup_ge_None_2 by lia].
  destruct (lookup_lt_is_Some_2 cs i) as [c Hi]; [lia|]. destruct (lookup_lt_is_Some_2 cs' i) as [c' Hi']; [lia|]. rewrite Hi, Hi'. f_equal.
  assert (c <> TNil -> c' <> TNil) as Hn1 by by apply (Hnil cs cs' i).
  assert (c' <> TNil -> c <> TNil) as Hn2 by (apply (Hnil cs' cs i); [done| |done|done]; intros q Hq; symmetry; by apply Hsame).
  destruct (decide (is_nil c = true)) as [En|En].
  { destruct c; try done. destruct c' as [| | |]; try done; exfalso; by apply Hn2. }
  assert (c <> TNil) as Hc by by intros ->. assert (c' <> TNil) as Hc' by auto.
  destruct (wf_slots cs i c Hw Hi) as [[Hlt' [->|Hwc]]|[-> [->|(v & -> & _)]]]; try done.
  - destruct (wf_slots cs' i c' Hw' Hi') as [[_ [->|Hwc']]|[-> _]]; [done| |lia]. apply (IH i); try done. intros q Hq.
    assert (tkey (i :: q)) as Hk by (apply (tkey_app [i]); [by apply Forall_singleton|done]). specialize (Hsame _ Hk). by rewrite !get_full, Hi, Hi' in Hsame.
  - destruct (wf_slots cs' 16 c' Hw' Hi') as [[? _]|[_ [->|(v' & -> & _)]]]; [lia|done|].
    assert (tkey [terminator]) as Hk by by exists []. specialize (Hsame _ Hk). rewrite !get_full in Hsame. unfold terminator in Hsame.
    rewrite Hi, Hi', !get_value in Hsame. by injection Hsame as ->.
Qed.

Lemma canonical_wf t t' : wf t -> wf t' -> same_contents t t' -> t = t'.
Proof.
  intros Hw. revert t'. induction Hw as [s v Hs Hv|s cs Hne Hs Hw IH|cs Hcs Hc IH]; intros t' Hw' Hsame.
  - assert (tkey (s ++ [terminator])) as Hk by by exists s. destruct (wf_short_or_full t' Hw') as [(k & v' & -> & Hk' & _)|(s' & cs' & -> & Hs' & Hwf)].
    + pose proof (Hsame _ Hk) as E. rewrite !get_leaf, decide_True in E by done. destruct (decide _) as [->|]; [|done]. by injection E as ->.
    + by destruct (leaf_not_ext _ _ _ _ Hk Hs' Hwf Hsame).
  - assert (same_contents (attach s (TFull cs)) t') as Hsame' by by destruct s.
    destruct (wf_short_or_full t' Hw') as [(k & v' & -> & Hk' & _)|(s' & cs' & -> & Hs' & Hwf)].
    + destruct (leaf_not_ext k v' s cs Hk' Hs Hw). intros q Hq. symmetry. by apply Hsame'.
    + destruct (ext_canonical s s' cs cs' Hs Hs' Hw Hwf Hsame') as [<- Hf]. rewrite (IH _ Hwf Hf). by destruct s.
  - assert (wf (TFull cs)) as Hw by by constructor. destruct (wf_short_or_full t' Hw') as [(k & v' & -> & Hk' & _)|(s' & cs' & -> & Hs' & Hwf)].
    + destruct (leaf_not_ext k v' [] cs Hk' (Forall_nil_2 _) Hw). intros q Hq. symmetry. by apply Hsame.
    + destruct (ext_canonical [] s' cs cs' (Forall_nil_2 _) Hs' Hw Hwf Hsame) as [<- Hf]. cbn [attach]. f_equal. apply full_canonical; [done|done|done|].
      intros i c c' Hi Hi' Hlt Hwc Hwc' Hcc. apply (IH i); [done|done|by apply wf_not_nil|done|done].
Qed.

Lemma canonical t t' : wf_root t -> wf_root t' -> same_contents t t' -> t = t'.
Proof.
  intros [->|Hw] [->|Hw'] Hsame; [done|..|by apply canonical_wf].
  - destruct (wf_has_key t' Hw') as (q & v & Hq & Hg). by rewrite <- Hsame, get_nil in Hg.
  - destruct (wf_has_key t Hw) as (q & v & Hq & Hg). by rewrite Hsame, get_nil in Hg.
Qed.
