(* ===== verification/Prque.v ===== *)
(** * Priority queues (package [common/prque])

    [sstack] is the segmented array the queue is stored in, with its blocks,
    active block and offset; [heap_Init], [heap_Push], [heap_Pop],
    [heap_Remove] and [heap_Fix] are Go's [container/heap] over any
    implementation of its interface ([HeapInterface]).  The queue is the heap over [sstack].  The file shows
    that [sstack] refines a plain list, that the heap keeps its invariant, and
    that [Prque_Pop] returns an element of highest priority and loses none. *)
From S2P Require Import Prelude Errors.
From Stdlib Require Import ZArith Lia.
From stdpp Require Import base list option sorting.
Open Scope Z_scope.

(** ** container/heap *)

Class HeapInterface (S A : Type) := {
  h_Len : S -> nat;
  h_Less : S -> nat -> nat -> bool;
  h_Swap : nat -> nat -> S -> S;
  h_Push : A -> S -> S;
  h_Pop : S -> outcome (A * S)
}.

Section Heap.
Context {S A : Type} `{HI : HeapInterface S A}.

(** [up]: the element at [j] rises while it is less than its parent. *)
Fixpoint heap_up (fuel : nat) (j : nat) (h : S) : S :=
  match fuel with
  | O => h
  | Datatypes.S f =>
      let i := ((j - 1) / 2)%nat in
      if (i =? j)%nat || negb (h_Less h j i) then h
      else heap_up f i (h_Swap i j h)
  end.

(** [down]: the element at [i] sinks below its lesser child; the returned
    index tells whether it moved. *)
Fixpoint heap_down (fuel : nat) (i n : nat) (h : S) : nat * S :=
  match fuel with
  | O => (i, h)
  | Datatypes.S f =>
      let j1 := (2 * i + 1)%nat in
      if (n <=? j1)%nat then (i, h)
      else
        let j2 := (j1 + 1)%nat in
        let j := if (j2 <? n)%nat && h_Less h j2 j1 then j2 else j1 in
        if negb (h_Less h j i) then (i, h)
        else heap_down f j n (h_Swap i j h)
  end.

Definition heap_Push (x : A) (h : S) : S :=
  let h' := h_Push x h in heap_up (h_Len h') (h_Len h' - 1) h'.

(** The index [Len()-1] of an empty heap is [-1]: [Swap] is out of range. *)
Definition heap_Pop (h : S) : outcome (A * S) :=
  match h_Len h with
  | O => Panic
  | Datatypes.S n => h_Pop (heap_down n 0 n (h_Swap 0 n h)).2
  end.

Definition heap_Remove (i : nat) (h : S) : outcome (A * S) :=
  match h_Len h with
  | O => Panic
  | Datatypes.S n =>
      if (n =? i)%nat then h_Pop h
      else if (n <? i)%nat then Panic
      else
        let '(i', h1) := heap_down n i n (h_Swap i n h) in
        h_Pop (if (i <? i')%nat then h1 else heap_up (Datatypes.S i) i h1)
  end.

(** [Init]: the elements that have children sink, the last one first. *)
Fixpoint heap_sink (i n : nat) (h : S) : S :=
  match i with
  | O => h
  | Datatypes.S i' => heap_sink i' n (heap_down n i' n h).2
  end.

Definition heap_Init (h : S) : S := heap_sink (h_Len h / 2) (h_Len h) h.

Definition heap_Fix (i : nat) (h : S) : S :=
  let '(i', h1) := heap_down (h_Len h) i (h_Len h) h in
  if (i <? i')%nat then h1 else heap_up (Datatypes.S i) i h1.

End Heap.

(** ** The segmented stack *)

Record pitem (A : Type) := mkItem { it_value : A; it_priority : Z }.
Arguments mkItem {A} _ _.
Arguments it_value {A} _.
Arguments it_priority {A} _.

Definition blockSize : nat := 4096.

(** [active] aliases one of the blocks: it is kept as that block's index. *)
Record sstack (A : Type) := mkSstack {
  ss_size : nat;
  ss_capacity : nat;
  ss_offset : nat;
  ss_wrapAround : bool;
  ss_blocks : list (list (option (pitem A)));
  ss_active : nat
}.
Arguments mkSstack {A} _ _ _ _ _ _.
Arguments ss_size {A} _.
Arguments ss_capacity {A} _.
Arguments ss_offset {A} _.
Arguments ss_wrapAround {A} _.
Arguments ss_blocks {A} _.
Arguments ss_active {A} _.

Section Sstack.
Context {A : Type}.
Implicit Type s : sstack A.

Definition new_block : list (option (pitem A)) := replicate blockSize None.

Definition newSstack (wrapAround : bool) : sstack A :=
  mkSstack 0 blockSize 0 wrapAround [new_block] 0.

(** [blocks[b][o]] and [blocks[b][o] = x] *)
Definition ss_get (s : sstack A) (b o : nat) : option (pitem A) :=
  match ss_blocks s !! b with
  | Some blk => match blk !! o with Some x => x | None => None end
  | None => None
  end.

Definition set_cell (b o : nat) (x : option (pitem A))
  (blocks : list (list (option (pitem A)))) : list (list (option (pitem A))) :=
  alter (fun blk => <[o := x]> blk) b blocks.

(** The branch of [Push] that finds room for one more element. *)
Definition sstack_grow (s : sstack A) : sstack A :=
  if (ss_size s =? ss_capacity s)%nat then
    mkSstack (ss_size s) (ss_capacity s + blockSize) 0 (ss_wrapAround s)
      (ss_blocks s ++ [new_block]) (length (ss_blocks s))
  else if (ss_offset s =? blockSize)%nat then
    mkSstack (ss_size s) (ss_capacity s) 0 (ss_wrapAround s)
      (ss_blocks s) (ss_size s / blockSize)
  else s.

Definition sstack_Push (data : pitem A) (s : sstack A) : sstack A :=
  let s1 := sstack_grow s in
  mkSstack (ss_size s1 + 1) (ss_capacity s1) (ss_offset s1 + 1) (ss_wrapAround s1)
    (set_cell (ss_active s1) (ss_offset s1) (Some data) (ss_blocks s1)) (ss_active s1).

(** Popping the empty stack leaves index arithmetic negative; the nil element
    it would return is dereferenced by the caller. *)
Definition sstack_Pop (s : sstack A) : outcome (pitem A * sstack A) :=
  match ss_size s with
  | O => Panic
  | S size =>
      let '(offset, active) :=
        match ss_offset s with
        | O => ((blockSize - 1)%nat, (size / blockSize)%nat)
        | S o => (o, ss_active s)
        end in
      match ss_get s active offset with
      | None => Panic
      | Some res =>
          Ret (res, mkSstack size (ss_capacity s) offset (ss_wrapAround s)
                      (set_cell active offset None (ss_blocks s)) active)
      end
  end.

Definition sstack_Less (s : sstack A) (i j : nat) : bool :=
  match ss_get s (i / blockSize) (i mod blockSize),
        ss_get s (j / blockSize) (j mod blockSize) with
  | Some a, Some b =>
      if ss_wrapAround s then 0 <? i64 (it_priority a - it_priority b)
      else it_priority b <? it_priority a
  | _, _ => false
  end.

Definition sstack_Swap (i j : nat) (s : sstack A) : sstack A :=
  let ib := (i / blockSize)%nat in let io := (i mod blockSize)%nat in
  let jb := (j / blockSize)%nat in let jo := (j mod blockSize)%nat in
  let a := ss_get s jb jo in
  let b := ss_get s ib io in
  mkSstack (ss_size s) (ss_capacity s) (ss_offset s) (ss_wrapAround s)
    (set_cell jb jo b (set_cell ib io a (ss_blocks s))) (ss_active s).

End Sstack.

#[global] Instance sstack_heap (A : Type) : HeapInterface (sstack A) (pitem A) := {|
  h_Len := ss_size;
  h_Less := sstack_Less;
  h_Swap := sstack_Swap;
  h_Push := sstack_Push;
  h_Pop := sstack_Pop
|}.

(** ** The queue *)

Record Prque (A : Type) := mkPrque { pq_cont : sstack A }.
Arguments mkPrque {A} _.
Arguments pq_cont {A} _.

Section Queue.
Context {A : Type}.

Definition Prque_New : Prque A := mkPrque (newSstack false).

Definition Prque_NewWrapAround : Prque A := mkPrque (newSstack true).

Definition Prque_Push (data : A) (priority : Z) (p : Prque A) : Prque A :=
  mkPrque (heap_Push (mkItem data priority) (pq_cont p)).

Definition Prque_Peek (p : Prque A) : outcome (A * Z) :=
  match ss_get (pq_cont p) 0 0 with
  | Some it => Ret (it_value it, it_priority it)
  | None => Panic
  end.

Definition Prque_Pop (p : Prque A) : outcome ((A * Z) * Prque A) :=
  '(it, c) ← heap_Pop (pq_cont p);
  Ret ((it_value it, it_priority it), mkPrque c).

Definition Prque_PopItem (p : Prque A) : outcome (A * Prque A) :=
  '(it, c) ← heap_Pop (pq_cont p); Ret (it_value it, mkPrque c).

Definition Prque_Remove (i : Z) (p : Prque A) : outcome (option (pitem A) * Prque A) :=
  if i <? 0 then Ret (None, p)
  else '(it, c) ← heap_Remove (Z.to_nat i) (pq_cont p); Ret (Some it, mkPrque c).

Definition Prque_Empty (p : Prque A) : bool := (ss_size (pq_cont p) =? 0)%nat.

Definition Prque_Size (p : Prque A) : nat := ss_size (pq_cont p).

Definition Prque_Reset (p : Prque A) : Prque A := Prque_New.

End Queue.

(** ** The list heap *)

(** Elements are compared by a number. *)
Class Ranked (A : Type) := rank : A -> Z.

#[global] Instance pitem_ranked A : Ranked (pitem A) := it_priority.

Section ListHeap.
Context {A : Type} `{RA : Ranked A}.
Implicit Types l : list A.

Definition list_Less l (i j : nat) : bool :=
  match l !! i, l !! j with
  | Some a, Some b => rank b <? rank a
  | _, _ => false
  end.

Definition list_Swap (i j : nat) l : list A :=
  match l !! i, l !! j with
  | Some a, Some b => <[j := a]> (<[i := b]> l)
  | _, _ => l
  end.

Definition list_Pop l : outcome (A * list A) :=
  match last l with
  | Some x => Ret (x, take (length l - 1) l)
  | None => Panic
  end.

End ListHeap.

#[global] Instance list_heap {A : Type} `{RA : Ranked A} : HeapInterface (list A) A := {|
  h_Len := length;
  h_Less := list_Less;
  h_Swap := list_Swap;
  h_Push := fun x l => l ++ [x];
  h_Pop := list_Pop
|}.

(** Priorities as a function of the index, and the heap order on them. *)
Definition prio {A} `{RA : Ranked A} (l : list A) (i : nat) : Z :=
  match l !! i with Some a => rank a | None => 0 end.

Definition parent (i : nat) : nat := ((i - 1) / 2)%nat.

Definition heap_order (p : nat -> Z) (n : nat) : Prop :=
  forall i, (0 < i < n)%nat -> p i <= p (parent i).

(** Heap order but for the element at [j], which may be too big. *)
Definition up_inv (p : nat -> Z) (n j : nat) : Prop :=
  (forall i, (0 < i < n)%nat -> i <> j -> p i <= p (parent i)) /\
  (forall i, (0 < i < n)%nat -> parent i = j -> (0 < j)%nat -> p i <= p (parent j)).

(** Heap order below the elements from [lo] on. *)
Definition heap_from (p : nat -> Z) (n lo : nat) : Prop :=
  forall i, (0 < i < n)%nat -> (lo <= parent i)%nat -> p i <= p (parent i).

(** The same but for the element at [i], which may be too small. *)
Definition down_inv (p : nat -> Z) (n lo i : nat) : Prop :=
  (forall k, (0 < k < n)%nat -> (lo <= parent k)%nat -> parent k <> i -> p k <= p (parent k)) /\
  (forall k, (0 < k < n)%nat -> parent k = i -> (0 < i)%nat -> (lo <= parent i)%nat -> p k <= p (parent i)).

Definition swapf (p : nat -> Z) (i j k : nat) : Z :=
  if (k =? i)%nat then p j else if (k =? j)%nat then p i else p k.

Lemma parent_lt i : (0 < i)%nat -> (parent i < i)%nat.
Proof. unfold parent. intros. apply Nat.Div0.div_lt_upper_bound; lia. Qed.

Lemma parent_children i k : (0 < k)%nat -> parent k = i <-> k = (2 * i + 1)%nat \/ k = (2 * i + 2)%nat.
Proof.
  unfold parent. intros Hk. pose proof (Nat.div_mod_eq (k - 1) 2).
  pose proof (Nat.mod_upper_bound (k - 1) 2). split; [lia|].
  intros [-> | ->]; symmetry.
  - apply (Nat.div_unique _ _ _ 0); lia.
  - apply (Nat.div_unique _ _ _ 1); lia.
Qed.

Ltac swapf_cases :=
  unfold swapf; repeat match goal with
  | |- context [(?a =? ?b)%nat] =>
      let H := fresh in destruct (Nat.eqb_spec a b) as [H|H]; try rewrite H in *
  end; try lia.

Lemma up_inv_step p n j : (0 < j < n)%nat -> up_inv p n j -> p (parent j) < p j ->
  up_inv (swapf p (parent j) j) n (parent j).
Proof.
  intros Hj [H1 H2] Hlt. pose proof (parent_lt j ltac:(lia)) as Hpj. split.
  - intros i Hi Hne. pose proof (parent_lt i ltac:(lia)).
    assert (i = j \/ p i <= p (parent i)) by (destruct (decide (i = j)); [by left|right; auto]).
    assert (parent i <> j \/ p i <= p (parent j))
      by (destruct (decide (parent i = j)); [right; apply H2; auto; lia|by left]).
    swapf_cases.
  - intros i Hi Hpar Hpos. pose proof (parent_lt i ltac:(lia)).
    pose proof (parent_lt (parent j) ltac:(lia)).
    pose proof (H1 (parent j) ltac:(lia) ltac:(lia)).
    assert (i = j \/ p i <= p (parent i)) by (destruct (decide (i = j)); [by left|right; auto]).
    rewrite Hpar in *. swapf_cases.
Qed.

Lemma up_inv_stop p n j : up_inv p n j -> (j = 0%nat \/ p j <= p (parent j)) -> heap_order p n.
Proof.
  intros [H1 _] Hs i Hi. destruct (decide (i = j)) as [->|]; [|by apply H1]. lia.
Qed.

Lemma down_inv_step p n lo i j : (lo <= i)%nat -> (j < n)%nat -> (0 < j)%nat -> parent j = i ->
  (forall k, (0 < k < n)%nat -> parent k = i -> p k <= p j) ->
  down_inv p n lo i -> p i < p j -> down_inv (swapf p i j) n lo j.
Proof.
  intros Hlo Hj Hj0 Hpar Hmax [H1 H2] Hlt. pose proof (parent_lt j Hj0). split.
  - intros k Hk Hl Hne. pose proof (parent_lt k ltac:(lia)).
    assert (parent k = i \/ p k <= p (parent k))
      by (destruct (decide (parent k = i)); [by left|right; auto]).
    assert (parent k <> i \/ p k <= p j)
      by (destruct (decide (parent k = i)); [right; auto|by left]).
    assert (k <> i \/ p j <= p (parent i))
      by (destruct (decide (k = i)) as [->|]; [right; apply H2; auto; lia|by left]).
    swapf_cases.
  - intros k Hk Hp _ Hl. pose proof (parent_lt k ltac:(lia)).
    assert (p k <= p (parent k)) by (apply H1; [done|lia|lia]). rewrite Hpar, Hp in *.
    swapf_cases.
Qed.

Lemma down_inv_stop p n lo i : down_inv p n lo i ->
  (forall k, (0 < k < n)%nat -> parent k = i -> p k <= p i) -> heap_from p n lo.
Proof.
  intros [H1 _] Hs k Hk Hl. destruct (decide (parent k = i)) as [<-|]; [by apply Hs|by apply H1].
Qed.

Lemma heap_from_0 p n : heap_from p n 0 <-> heap_order p n.
Proof. split; intros Hh i Hi; [apply Hh; [done|lia]|intros _; by apply Hh]. Qed.

(** A heap's root is a maximum. *)
Lemma heap_order_root p n i : heap_order p n -> (i < n)%nat -> p i <= p 0%nat.
Proof.
  intros Hh. induction (lt_wf i) as [i _ IH]. intros Hi.
  destruct (decide (i = 0%nat)) as [->|]; [lia|].
  pose proof (parent_lt i ltac:(lia)). pose proof (Hh i ltac:(lia)).
  pose proof (IH (parent i) ltac:(lia) ltac:(lia)). lia.
Qed.

Section ListHeapProofs.
Context {A : Type} `{RA : Ranked A}.
Implicit Types l : list A.

Lemma length_list_Swap i j l : length (list_Swap i j l) = length l.
Proof. unfold list_Swap. destruct (l !! i), (l !! j); by rewrite ?length_insert. Qed.

Lemma lookup_list_Swap i j l k : (i < length l)%nat -> (j < length l)%nat ->
  list_Swap i j l !! k =
    if (k =? i)%nat then l !! j else if (k =? j)%nat then l !! i else l !! k.
Proof.
  intros [a Ha]%lookup_lt_is_Some_2 [b Hb]%lookup_lt_is_Some_2. unfold list_Swap. rewrite Ha, Hb.
  pose proof (lookup_lt_Some _ _ _ Ha). pose proof (lookup_lt_Some _ _ _ Hb).
  destruct (Nat.eqb_spec k i) as [->|Hki].
  - destruct (decide (i = j)) as [->|].
    + rewrite list_lookup_insert_eq by (rewrite length_insert; lia). congruence.
    + rewrite list_lookup_insert_ne by done. by rewrite list_lookup_insert_eq.
  - destruct (Nat.eqb_spec k j) as [->|Hkj].
    + by rewrite list_lookup_insert_eq by (rewrite length_insert; lia).
    + by rewrite !list_lookup_insert_ne by done.
Qed.

Lemma prio_list_Swap i j l k : (i < length l)%nat -> (j < length l)%nat ->
  prio (list_Swap i j l) k = swapf (prio l) i j k.
Proof.
  intros Hi Hj. unfold prio, swapf. rewrite lookup_list_Swap by done.
  by destruct (k =? i)%nat, (k =? j)%nat.
Qed.

Lemma list_Swap_perm i j l : list_Swap i j l ≡ₚ l.
Proof.
  unfold list_Swap. destruct (l !! i) as [a|] eqn:Ha, (l !! j) as [b|] eqn:Hb; try done.
  destruct (decide (i = j)) as [->|Hij].
  - rewrite list_insert_insert_eq. simplify_eq. by rewrite list_insert_id.
  - by apply Permutation_insert_swap.
Qed.

Lemma list_Less_spec l i j : (i < length l)%nat -> (j < length l)%nat ->
  list_Less l i j = (prio l j <? prio l i).
Proof.
  intros [a Ha]%lookup_lt_is_Some_2 [b Hb]%lookup_lt_is_Some_2.
  unfold list_Less, prio. by rewrite Ha, Hb.
Qed.

Lemma heap_order_ext p q n : (forall i, (i < n)%nat -> p i = q i) -> heap_order p n -> heap_order q n.
Proof.
  intros He Hp i Hi. pose proof (parent_lt i ltac:(lia)).
  rewrite <- !He by lia. by apply Hp.
Qed.

Lemma up_inv_ext p q n j : (j < n)%nat -> (forall i, (i < n)%nat -> p i = q i) -> up_inv p n j -> up_inv q n j.
Proof.
  intros Hj He [H1 H2]. split; intros i Hi; pose proof (parent_lt i ltac:(lia)).
  - intros. rewrite <- !He by lia. auto.
  - intros. pose proof (parent_lt j ltac:(lia)). rewrite <- !He by lia. auto.
Qed.

Lemma down_inv_ext p q n lo j : (j < n)%nat -> (forall i, (i < n)%nat -> p i = q i) -> down_inv p n lo j -> down_inv q n lo j.
Proof.
  intros Hj He [H1 H2]. split; intros i Hi; pose proof (parent_lt i ltac:(lia)).
  - intros. rewrite <- !He by lia. auto.
  - intros. pose proof (parent_lt j ltac:(lia)). rewrite <- !He by lia. auto.
Qed.

Lemma heap_up_prefix fuel j n l : (j < fuel)%nat -> (j < n)%nat -> (n <= length l)%nat ->
  up_inv (prio l) n j ->
  let l' := heap_up fuel j l in
  heap_order (prio l') n /\ l' ≡ₚ l /\ (forall k, (n <= k)%nat -> l' !! k = l !! k).
Proof.
  revert j l. induction fuel as [|fuel IH]; intros j l Hf Hj Hn Hinv; [lia|].
  cbn [heap_up h_Less h_Swap list_heap]. fold (parent j).
  destruct (Nat.eqb_spec (parent j) j) as [He|Hne]; cbn [orb].
  { split; [|done]. eapply up_inv_stop; [done|]. left.
    destruct (decide (j = 0%nat)); [done|]. pose proof (parent_lt j). lia. }
  assert (0 < j)%nat as Hpos by (destruct j; [done|lia]).
  pose proof (parent_lt j Hpos). rewrite list_Less_spec by lia.
  destruct (Z.ltb_spec (prio l (parent j)) (prio l j)); cbn [negb].
  - destruct (IH (parent j) (list_Swap (parent j) j l)) as (H1 & H2 & H3).
    + lia.
    + lia.
    + rewrite length_list_Swap. lia.
    + eapply up_inv_ext, up_inv_step; [lia| |lia|done|done].
      intros i _. by rewrite prio_list_Swap by lia.
    + split; [done|]. split; [by rewrite H2, list_Swap_perm|]. intros k Hk. rewrite H3, lookup_list_Swap by lia.
      destruct (Nat.eqb_spec k (parent j)), (Nat.eqb_spec k j); lia || done.
  - split; [|done]. eapply up_inv_stop; [done|]. by right.
Qed.

Lemma heap_up_list fuel j l : (j < fuel)%nat -> (j < length l)%nat ->
  up_inv (prio l) (length l) j ->
  heap_order (prio (heap_up fuel j l)) (length l) /\ heap_up fuel j l ≡ₚ l.
Proof. intros Hf Hj Hinv. destruct (heap_up_prefix fuel j (length l) l) as (H1 & H2 & _); [done|done|lia|done|done]. Qed.

Lemma heap_down_list fuel lo i n l : (lo <= i)%nat -> (n <= i + fuel)%nat -> (i < n)%nat -> (n <= length l)%nat ->
  down_inv (prio l) n lo i ->
  let l' := (heap_down fuel i n l).2 in
  heap_from (prio l') n lo /\ l' ≡ₚ l /\ (forall k, (n <= k)%nat -> l' !! k = l !! k).
Proof.
  revert i l. induction fuel as [|fuel IH]; intros i l Hlo Hf Hi Hn Hinv; [lia|].
  cbn [heap_down h_Less h_Swap list_heap].
  destruct (Nat.leb_spec n (2 * i + 1)) as [Hleaf|Hin]; cbn [snd].
  { split; [|done]. eapply down_inv_stop; [done|]. intros k Hk Hp.
    apply parent_children in Hp; lia. }
  set (j := if (2 * i + 1 + 1 <? n)%nat && list_Less l (2 * i + 1 + 1) (2 * i + 1)
            then (2 * i + 1 + 1)%nat else (2 * i + 1)%nat).
  assert ((j < n)%nat /\ (0 < j)%nat /\ parent j = i /\
    (forall k, (0 < k < n)%nat -> parent k = i -> prio l k <= prio l j)) as (Hj & Hj0 & Hpj & Hmax).
  { unfold j. destruct (Nat.ltb_spec (2 * i + 1 + 1) n) as [H2|H2]; cbn [andb].
    - rewrite list_Less_spec by lia.
      destruct (Z.ltb_spec (prio l (2 * i + 1)) (prio l (2 * i + 1 + 1))).
      + split_and!; [lia|lia|apply parent_children; lia|]. intros k Hk [-> | ->]%parent_children; try lia.
        replace (2 * i + 2)%nat with (2 * i + 1 + 1)%nat by lia. lia.
      + split_and!; [lia|lia|apply parent_children; lia|]. intros k Hk [-> | ->]%parent_children; try lia.
        replace (2 * i + 2)%nat with (2 * i + 1 + 1)%nat by lia. lia.
    - split_and!; [lia|lia|apply parent_children; lia|]. intros k Hk [-> | ->]%parent_children; lia. }
  rewrite list_Less_spec by lia.
  pose proof (parent_lt j Hj0).
  destruct (Z.ltb_spec (prio l i) (prio l j)); cbn [negb snd].
  - destruct (IH j (list_Swap i j l)) as (H1 & H2 & H3).
    + lia.
    + lia.
    + lia.
    + rewrite length_list_Swap. lia.
    + eapply down_inv_ext, down_inv_step; [lia| |exact Hlo|done|done|done|done|done|done].
      intros k _. by rewrite prio_list_Swap by lia.
    + split; [done|]. split; [by rewrite H2, list_Swap_perm|].
      intros k Hk. rewrite H3, lookup_list_Swap by lia.
      destruct (Nat.eqb_spec k i), (Nat.eqb_spec k j); lia || done.
  - split; [|done]. eapply down_inv_stop; [done|]. intros k Hk Hp. specialize (Hmax k Hk Hp). lia.
Qed.

Lemma heap_Push_list x l : heap_order (prio l) (length l) ->
  heap_order (prio (heap_Push x l)) (length (heap_Push x l)) /\ heap_Push x l ≡ₚ x :: l.
Proof.
  intros Hh. unfold heap_Push. cbn [h_Push h_Len list_heap].
  rewrite length_app. cbn [length]. replace (length l + 1 - 1)%nat with (length l) by lia.
  destruct (heap_up_list (length l + 1) (length l) (l ++ [x])) as [H1 H2].
  - lia.
  - rewrite length_app. simpl. lia.
  - rewrite length_app. cbn [length]. split; intros i Hi.
    + intros Hne. pose proof (parent_lt i ltac:(lia)). unfold prio.
      rewrite !lookup_app_l by lia. apply Hh. lia.
    + intros Hp Hpos. pose proof (parent_lt i ltac:(lia)). lia.
  - split.
    + rewrite (Permutation_length H2). done.
    + rewrite H2. by rewrite Permutation_app_comm.
Qed.

Lemma heap_Pop_list l : heap_order (prio l) (length l) -> l <> [] ->
  exists x l', heap_Pop l = Ret (x, l') /\ l ≡ₚ x :: l' /\
    heap_order (prio l') (length l') /\ (forall y, y ∈ l' -> rank y <= rank x) /\ l !! 0%nat = Some x.
Proof.
  intros Hh Hne. unfold heap_Pop. cbn [h_Len h_Swap h_Pop list_heap].
  destruct (length l) as [|n] eqn:Hlen; [by destruct l|].
  destruct (lookup_lt_is_Some_2 l 0) as [x Hx]; [lia|].
  set (l1 := list_Swap 0 n l). set (l2 := (heap_down n 0 n l1).2).
  assert (heap_order (prio l2) n /\ l2 ≡ₚ l1 /\ (forall k, (n <= k)%nat -> l2 !! k = l1 !! k)) as (H1 & H2 & H3).
  { destruct (decide (n = 0%nat)) as [->|Hn].
    - split_and!; [intros i Hi; lia|done|done].
    - rewrite <- heap_from_0. apply heap_down_list; [lia|lia|lia|unfold l1; rewrite length_list_Swap; lia|].
      assert (forall k, (0 < k < n)%nat -> prio l1 k = prio l k) as Hsame.
      { intros k Hk. unfold l1. rewrite prio_list_Swap by lia. unfold swapf.
        destruct (Nat.eqb_spec k 0), (Nat.eqb_spec k n); lia. }
      split; intros k Hk Hl Hp; [|lia]. pose proof (parent_lt k ltac:(lia)).
      rewrite !Hsame by lia. apply Hh. lia. }
  assert (length l2 = S n) as Hl2 by (rewrite (Permutation_length H2); unfold l1; rewrite length_list_Swap; done).
  assert (l2 !! n = Some x) as Hxn.
  { rewrite H3 by lia. unfold l1. rewrite lookup_list_Swap by lia.
    destruct (Nat.eqb_spec n 0) as [->|]; [done|]. by rewrite Nat.eqb_refl. }
  assert (l2 = take n l2 ++ [x]) as Hsplit.
  { rewrite <- (take_drop n l2) at 1. f_equal. erewrite drop_S by exact Hxn.
    rewrite drop_ge by lia. done. }
  exists x, (take n l2). unfold list_Pop. rewrite Hl2.
  replace (S n - 1)%nat with n by lia. split_and!.
  - rewrite last_lookup, Hl2. cbn [pred]. by rewrite Hxn.
  - transitivity l2; [by rewrite H2; symmetry; apply list_Swap_perm|].
    rewrite Hsplit at 1. by rewrite Permutation_app_comm.
  - rewrite length_take_le by lia. eapply heap_order_ext; [|done].
    intros i Hi. unfold prio. by rewrite lookup_take_lt by lia.
  - intros y Hy. assert (y ∈ l) as [i Hi]%list_elem_of_lookup.
    { assert (y ∈ l2) as Hy2 by (rewrite Hsplit; apply elem_of_app; by left).
      rewrite H2 in Hy2. unfold l1 in Hy2. by rewrite list_Swap_perm in Hy2. }
    pose proof (lookup_lt_Some _ _ _ Hi). pose proof (heap_order_root _ _ i Hh) as Hr.
    unfold prio in Hr. rewrite Hi, Hx in Hr. apply Hr. lia.
  - done.
Qed.

Lemma heap_sink_list i n l : (i <= n / 2)%nat -> n = length l -> heap_from (prio l) n i ->
  heap_order (prio (heap_sink i n l)) n /\ heap_sink i n l ≡ₚ l.
Proof.
  revert l. induction i as [|i IH]; intros l Hi Hn Hh; cbn [heap_sink]; [by rewrite <- heap_from_0|].
  assert (i < n)%nat as Hin by (pose proof (Nat.div_mod_eq n 2); lia).
  destruct (heap_down_list n i i n l) as (H1 & H2 & _); [lia|lia|done|lia| |].
  - split; intros k Hk; [intros Hlo Hne; apply Hh; [done|lia]|]. intros _ Hpos Hlo. pose proof (parent_lt i Hpos). lia.
  - destruct (IH (heap_down n i n l).2) as [H3 H4]; [lia|by rewrite (Permutation_length H2)|done|]. split; [done|by rewrite H4].
Qed.

Lemma heap_Init_list l : heap_order (prio (heap_Init l)) (length l) /\ heap_Init l ≡ₚ l.
Proof.
  apply heap_sink_list; [done|done|]. intros k Hk Hlo. exfalso. pose proof (proj1 (parent_children (parent k) k ltac:(lia)) eq_refl).
  pose proof (Nat.div_mod_eq (length l) 2). pose proof (Nat.mod_upper_bound (length l) 2). cbn [h_Len list_heap] in *. lia.
Qed.

(** Replacing the root of a heap. *)
Lemma heap_Fix_list l x y : heap_order (prio (x :: l)) (length (x :: l)) ->
  heap_order (prio (heap_Fix 0 (y :: l))) (length (y :: l)) /\ heap_Fix 0 (y :: l) ≡ₚ y :: l.
Proof.
  intros Hh. unfold heap_Fix. cbn [h_Len list_heap].
  destruct (heap_down_list (length (y :: l)) 0 0 (length (y :: l)) (y :: l)) as (H1 & H2 & _); [lia|lia|cbn; lia|lia| |].
  - split; intros k Hk; [|lia]. intros _ Hne. specialize (Hh k Hk). unfold prio in *.
    destruct k as [|k]; [lia|]. destruct (parent (S k)) as [|m]; [done|]. done.
  - rewrite heap_from_0 in H1. destruct (heap_down _ 0 _ _) as [i' h1]. cbn [snd] in *. by destruct (0 <? i')%nat.
Qed.

(** Taking an element from the middle: the last one takes its place and sinks
    or rises. *)
Lemma heap_order_up p n i : heap_order p n -> (i < n)%nat -> up_inv p n i.
Proof.
  intros Hh Hi. split; [intros k Hk _; by apply Hh|]. intros k Hk Hp Hpos. pose proof (parent_lt i Hpos).
  pose proof (Hh k Hk) as Hki. rewrite Hp in Hki. pose proof (Hh i ltac:(lia)). lia.
Qed.

Lemma heap_down_stays fuel i n l : (i < n)%nat -> (n <= length l)%nat ->
  (forall k, (0 < k < n)%nat -> parent k = i -> prio l k <= prio l i) -> heap_down fuel i n l = (i, l).
Proof.
  intros Hi Hn Hc. destruct fuel as [|fuel]; [done|]. cbn [heap_down h_Less h_Swap list_heap].
  destruct (Nat.leb_spec n (2 * i + 1)) as [|Hin]; [done|]. set (j := if _ && _ then _ else _).
  assert ((j < n)%nat /\ (0 < j)%nat /\ parent j = i) as (Hj & Hj0 & Hpj).
  { unfold j. destruct (Nat.ltb_spec (2 * i + 1 + 1) n); cbn [andb]; [destruct (list_Less _ _ _)|];
      (split; [lia|]; split; [lia|]; apply parent_children; lia). }
  rewrite list_Less_spec by lia. specialize (Hc j ltac:(lia) Hpj). destruct (Z.ltb_spec (prio l i) (prio l j)); [lia|done].
Qed.

(** The element at [i] is the only one out of order, and its children are
    below its parent. *)
Lemma heap_settle i n l : (i < n)%nat -> (n <= length l)%nat ->
  (forall k, (0 < k < n)%nat -> k <> i -> parent k <> i -> prio l k <= prio l (parent k)) ->
  (forall k, (0 < k < n)%nat -> parent k = i -> (0 < i)%nat -> prio l k <= prio l (parent i)) ->
  let '(i', h) := heap_down n i n l in
  let l' := if (i <? i')%nat then h else heap_up (S i) i h in
  heap_order (prio l') n /\ l' ≡ₚ l /\ (forall k, (n <= k)%nat -> l' !! k = l !! k).
Proof.
  intros Hi Hn Hrest Hkids. destruct (decide ((0 < i)%nat /\ prio l (parent i) < prio l i)) as [[Hpos Hgt]|Hle].
  - rewrite heap_down_stays; [|done|done|intros k Hk Hp; specialize (Hkids k Hk Hp Hpos); lia]. rewrite Nat.ltb_irrefl.
    apply heap_up_prefix; [lia|done|done|]. split; [|exact Hkids]. intros k Hk Hne.
    destruct (decide (parent k = i)) as [Hp|]; [|by apply Hrest]. specialize (Hkids k Hk Hp Hpos). rewrite Hp. lia.
  - destruct (heap_down_list n 0 i n l) as (H1 & H2 & H3); [lia|lia|done|done| |].
    { split; [|intros k Hk Hp Hpos _; by apply Hkids]. intros k Hk _ Hp. destruct (decide (k = i)) as [->|]; [lia|by apply Hrest]. }
    rewrite heap_from_0 in H1. destruct (heap_down n i n l) as [i' h]. cbn [snd] in *. destruct (i <? i')%nat; [done|].
    destruct (heap_up_prefix (S i) i n h) as (H4 & H5 & H6);
      [lia|done|by rewrite (Permutation_length H2)|by apply heap_order_up|].
    split; [done|]. split; [by rewrite H5|]. intros k Hk. by rewrite H6, H3.
Qed.

Lemma heap_Remove_list i l x : heap_order (prio l) (length l) -> l !! i = Some x ->
  exists l', heap_Remove i l = Ret (x, l') /\ l ≡ₚ x :: l' /\ heap_order (prio l') (length l').
Proof.
  intros Hh Hx. pose proof (lookup_lt_Some _ _ _ Hx) as Hi. unfold heap_Remove. cbn [h_Len h_Swap h_Pop list_heap].
  destruct (length l) as [|n] eqn:Hlen; [lia|].
  assert (forall l2, l2 ≡ₚ l -> l2 !! n = Some x -> heap_order (prio l2) n ->
    exists l', list_Pop l2 = Ret (x, l') /\ l ≡ₚ x :: l' /\ heap_order (prio l') (length l')) as Hpop.
  { intros l2 Hp Hn Ho. assert (length l2 = S n) as Hl2 by (by rewrite (Permutation_length Hp)).
    exists (take n l2). unfold list_Pop. rewrite last_lookup, Hl2. cbn [pred]. rewrite Hn. replace (S n - 1)%nat with n by lia.
    split; [done|]. split.
    - rewrite <- Hp. rewrite <- (take_drop n l2) at 1. erewrite drop_S by exact Hn. rewrite drop_ge by lia. by rewrite Permutation_app_comm.
    - rewrite length_take_le by lia. eapply heap_order_ext; [|done]. intros k Hk. unfold prio. by rewrite lookup_take_lt. }
  destruct (Nat.eqb_spec n i) as [->|Hne]; [apply Hpop; [done|done|]; intros k Hk; apply Hh; lia|].
  destruct (Nat.ltb_spec n i); [lia|]. set (l1 := list_Swap i n l).
  assert (forall k, (k < n)%nat -> k <> i -> prio l1 k = prio l k) as Hsame.
  { intros k Hk Hki. unfold l1. rewrite prio_list_Swap by lia. unfold swapf. destruct (Nat.eqb_spec k i), (Nat.eqb_spec k n); lia. }
  pose proof (heap_settle i n l1) as Hs. destruct (heap_down n i n l1) as [i' h]. destruct Hs as (H1 & H2 & H3).
  - lia.
  - unfold l1. rewrite length_list_Swap. lia.
  - intros k Hk Hki Hpk. pose proof (parent_lt k ltac:(lia)). rewrite !Hsame by lia. apply Hh. lia.
  - intros k Hk Hpk Hpos. pose proof (parent_lt k ltac:(lia)). pose proof (parent_lt i Hpos). rewrite !Hsame by lia.
    pose proof (Hh k ltac:(lia)) as Hki. rewrite Hpk in Hki. pose proof (Hh i ltac:(lia)). lia.
  - apply Hpop; [|rewrite H3 by lia|done].
    + rewrite H2. apply list_Swap_perm.
    + unfold l1. rewrite lookup_list_Swap by lia. destruct (Nat.eqb_spec n i); [lia|]. by rewrite Nat.eqb_refl.
Qed.

End ListHeapProofs.

(** ** Refinement between heap implementations *)

Definition pop_rel {S1 S2 A} (R : S1 -> S2 -> Prop)
  (o1 : outcome (A * S1)) (o2 : outcome (A * S2)) : Prop :=
  match o1, o2 with
  | Ret (x, s), Ret (y, l) => x = y /\ R s l
  | Err e, Err e' => e = e'
  | Panic, Panic => True
  | _, _ => False
  end.

(** What one implementation of the heap interface owes another to be
    indistinguishable from it, without and with [Push]. *)
Class HeapSimulation {S1 S2 A} `{HeapInterface S1 A} `{HeapInterface S2 A} (R : S1 -> S2 -> Prop) := {
  R_Len s l : R s l -> h_Len s = h_Len l;
  R_Less s l i j : R s l -> (i < h_Len l)%nat -> (j < h_Len l)%nat -> h_Less s i j = h_Less l i j;
  R_Swap s l i j : R s l -> (i < h_Len l)%nat -> (j < h_Len l)%nat -> R (h_Swap i j s) (h_Swap i j l);
  R_Swap_Len i j (l : S2) : h_Len (h_Swap i j l) = h_Len l;
  R_Pop s l : R s l -> pop_rel R (h_Pop s) (h_Pop l)
}.

Class HeapRefinement {S1 S2 A} `{HeapInterface S1 A} `{HeapInterface S2 A} (R : S1 -> S2 -> Prop) := {
  R_simulation :: HeapSimulation R;
  R_Push s l x : R s l -> R (h_Push x s) (h_Push x l);
  R_Push_Len x (l : S2) : h_Len (h_Push x l) = S (h_Len l)
}.

Section HeapRefine.
Context {S1 S2 A : Type} `{H1 : HeapInterface S1 A} `{H2 : HeapInterface S2 A}.
Context (R : S1 -> S2 -> Prop) `{HR : !HeapSimulation R}.

Lemma heap_up_refines fuel j s l : R s l -> (j < h_Len l)%nat ->
  R (heap_up fuel j s) (heap_up fuel j l).
Proof.
  revert j s l. induction fuel as [|fuel IH]; intros j s l Hr Hj; [done|]. cbn [heap_up].
  assert (((j - 1) / 2)%nat <= j)%nat by (apply Nat.Div0.div_le_upper_bound; lia).
  rewrite (R_Less s l) by (done || lia). destruct (_ || _); [done|].
  apply IH; [apply R_Swap; done || lia|]. rewrite R_Swap_Len. lia.
Qed.

Lemma heap_down_refines fuel i n s l : R s l -> (i < n)%nat -> (n <= h_Len l)%nat ->
  (heap_down fuel i n s).1 = (heap_down fuel i n l).1 /\
  R (heap_down fuel i n s).2 (heap_down fuel i n l).2 /\
  h_Len (heap_down fuel i n l).2 = h_Len l.
Proof.
  revert i s l. induction fuel as [|fuel IH]; intros i s l Hr Hi Hn; [done|]. cbn [heap_down].
  destruct (Nat.leb_spec n (2 * i + 1)); [done|].
  assert ((if (2 * i + 1 + 1 <? n)%nat && h_Less s (2 * i + 1 + 1) (2 * i + 1) then 2 * i + 1 + 1 else 2 * i + 1)%nat
    = (if (2 * i + 1 + 1 <? n)%nat && h_Less l (2 * i + 1 + 1) (2 * i + 1) then 2 * i + 1 + 1 else 2 * i + 1)%nat) as ->.
  { destruct (Nat.ltb_spec (2 * i + 1 + 1) n); [|done]. by rewrite (R_Less s l) by (done || lia). }
  set (j := (if (_ && _) then _ else _)).
  assert (j < n)%nat by (unfold j; destruct (Nat.ltb_spec (2 * i + 1 + 1) n), (h_Less l _ _); simpl; lia).
  rewrite (R_Less s l) by (done || lia). destruct (negb _); [done|].
  destruct (IH j (h_Swap i j s) (h_Swap i j l)) as (?&?&Hl).
  - apply R_Swap; done || lia.
  - done.
  - rewrite R_Swap_Len. lia.
  - rewrite R_Swap_Len in Hl. done.
Qed.

Lemma heap_Pop_refines s l : R s l -> pop_rel R (heap_Pop s) (heap_Pop l).
Proof.
  intros Hr. unfold heap_Pop. rewrite (R_Len _ _ Hr). destruct (h_Len l) as [|n] eqn:Hl; [done|].
  apply R_Pop. destruct n as [|n]; [cbn [heap_down snd]; apply R_Swap; done || lia|].
  apply heap_down_refines; [apply R_Swap; done || lia|lia|]. rewrite R_Swap_Len. lia.
Qed.

Lemma heap_Remove_refines i s l : R s l -> pop_rel R (heap_Remove i s) (heap_Remove i l).
Proof.
  intros Hr. unfold heap_Remove. rewrite (R_Len _ _ Hr). destruct (h_Len l) as [|n] eqn:Hl; [done|].
  destruct (Nat.eqb_spec n i); [by apply R_Pop|]. destruct (Nat.ltb_spec n i); [done|].
  destruct (heap_down_refines n i n (h_Swap i n s) (h_Swap i n l)) as (He & Hd & Hlen).
  - apply R_Swap; done || lia.
  - lia.
  - rewrite R_Swap_Len. lia.
  - destruct (heap_down n i n (h_Swap i n s)) as [i1 s1], (heap_down n i n (h_Swap i n l)) as [i2 l1].
    simpl in *. subst i2. apply R_Pop. destruct (i <? i1)%nat; [done|].
    apply (heap_up_refines (S i)); [done|]. rewrite Hlen, R_Swap_Len. lia.
Qed.

Lemma heap_sink_refines i n s l : R s l -> (i <= n)%nat -> (n <= h_Len l)%nat -> R (heap_sink i n s) (heap_sink i n l).
Proof.
  revert s l. induction i as [|i IH]; intros s l Hr Hi Hn; [done|]. cbn [heap_sink].
  destruct (heap_down_refines n i n s l) as (_ & Hd & Hl); [done|lia|done|]. apply IH; [done|lia|lia].
Qed.

Lemma heap_Init_refines s l : R s l -> R (heap_Init s) (heap_Init l).
Proof.
  intros Hr. unfold heap_Init. rewrite (R_Len _ _ Hr). apply heap_sink_refines; [done| |done]. apply Nat.Div0.div_le_upper_bound. lia.
Qed.

Lemma heap_Fix_refines i s l : R s l -> (i < h_Len l)%nat -> R (heap_Fix i s) (heap_Fix i l).
Proof.
  intros Hr Hi. unfold heap_Fix. rewrite (R_Len _ _ Hr). destruct (heap_down_refines (h_Len l) i (h_Len l) s l) as (He & Hd & Hlen); [done|done|done|].
  destruct (heap_down _ i _ s) as [i1 s1], (heap_down _ i _ l) as [i2 l1]. cbn [fst snd] in *. subst i2.
  destruct (i <? i1)%nat; [done|]. apply heap_up_refines; [done|]. by rewrite Hlen.
Qed.

End HeapRefine.

Lemma heap_Push_simulates {S1 S2 A} `{HeapInterface S1 A} `{HeapInterface S2 A} (R : S1 -> S2 -> Prop) `{!HeapSimulation R} x s l :
  R (h_Push x s) (h_Push x l) -> (0 < h_Len (h_Push x l))%nat -> R (heap_Push x s) (heap_Push x l).
Proof. intros Hp Hl. unfold heap_Push. rewrite (R_Len _ _ Hp). apply heap_up_refines; [apply _|done|lia]. Qed.

(** ** Heaps as multisets *)

(** A heap, of whatever implementation, that holds the elements of a list. *)
Definition heap_holds {S A} `{Ranked A} (R : S -> list A -> Prop) (s : S) (l : list A) : Prop :=
  exists h, R s h /\ heap_order (prio h) (length h) /\ h ≡ₚ l.

#[global] Instance heap_holds_proper {S A} `{Ranked A} (R : S -> list A -> Prop) s : Proper ((≡ₚ) ==> iff) (heap_holds R s).
Proof. intros l l' Hp. split; intros (h & ? & ? & Hh); exists h; split_and!; try done; by rewrite Hh, Hp. Qed.

Section HeapHolds.
Context {S A : Type} `{RA : Ranked A} `{HI : HeapInterface S A} (R : S -> list A -> Prop).

Lemma holds_init `{!HeapSimulation R} s l : R s l -> heap_holds R (heap_Init s) l.
Proof.
  intros Hr. exists (heap_Init l). destruct (heap_Init_list l) as [Ho Hp]. split_and!; [by apply (heap_Init_refines R)| |done].
  by rewrite (Permutation_length Hp).
Qed.

Lemma holds_push_at `{!HeapSimulation R} x s l : (forall h, R s h -> R (h_Push x s) (h ++ [x])) -> heap_holds R s l -> heap_holds R (heap_Push x s) (x :: l).
Proof.
  intros Hx (h & Hs & Ho & Hp). exists (heap_Push x h). destruct (heap_Push_list x h Ho) as [Ho' Hp'].
  split_and!; [|done|by rewrite Hp', Hp]. apply (heap_Push_simulates R); [by apply Hx|]. cbn. rewrite length_app. cbn. lia.
Qed.

Lemma holds_push `{!HeapRefinement R} x s l : heap_holds R s l -> heap_holds R (heap_Push x s) (x :: l).
Proof. apply holds_push_at. intros h Hr. exact (R_Push s h x Hr). Qed.

(** The root is an element none exceeds in rank, and popping takes it. *)
Lemma holds_root s l : heap_holds R s l -> l <> [] ->
  exists h x, R s h /\ h !! 0%nat = Some x /\ x ∈ l /\ forall y, y ∈ l -> rank y <= rank x.
Proof.
  intros (h & Hs & Ho & Hp) Hne. destruct h as [|x h]; [by apply Permutation_nil_l in Hp|]. exists (x :: h), x.
  split_and!; [done|done|rewrite <- Hp; apply elem_of_cons; by left|]. intros y Hy. rewrite <- Hp in Hy. apply list_elem_of_lookup in Hy as [i Hi].
  pose proof (heap_order_root _ _ i Ho (lookup_lt_Some _ _ _ Hi)) as Hle. unfold prio in Hle. by rewrite Hi in Hle.
Qed.

Lemma holds_pop `{!HeapSimulation R} s l : heap_holds R s l -> l <> [] ->
  exists x s' l', heap_Pop s = Ret (x, s') /\ l ≡ₚ x :: l' /\ heap_holds R s' l' /\ (forall y, y ∈ l' -> rank y <= rank x).
Proof.
  intros (h & Hs & Ho & Hp) Hne. destruct (heap_Pop_list h Ho) as (x & h' & He & Hperm & Ho' & Hmax & _).
  { intros ->. by apply Permutation_nil_l in Hp. }
  pose proof (heap_Pop_refines R _ _ Hs) as Hr. rewrite He in Hr. destruct (heap_Pop s) as [[y c]| |]; try done. destruct Hr as [-> Hr].
  exists x, c, h'. split_and!; [done|by rewrite <- Hp, Hperm|by exists h'|done].
Qed.

Lemma holds_remove `{!HeapSimulation R} i s h l x : R s h -> heap_order (prio h) (length h) -> h ≡ₚ l -> h !! i = Some x ->
  exists s' l', heap_Remove i s = Ret (x, s') /\ l ≡ₚ x :: l' /\ heap_holds R s' l'.
Proof.
  intros Hs Ho Hp Hx. destruct (heap_Remove_list i h x Ho Hx) as (h' & He & Hperm & Ho').
  pose proof (heap_Remove_refines R i _ _ Hs) as Hr. rewrite He in Hr. destruct (heap_Remove i s) as [[y c]| |]; try done. destruct Hr as [-> Hr].
  exists c, h'. split_and!; [done|by rewrite <- Hp, Hperm|by exists h'].
Qed.

End HeapHolds.

(** ** The segmented stack refines a list *)

#[global] Arguments blockSize : simpl never.

Lemma blockSize_pos : (0 < blockSize)%nat.
Proof. unfold blockSize. lia. Qed.

#[global] Opaque blockSize.

Section SstackRefine.
Context {A : Type}.

Record sstack_rel (s : sstack A) (l : list (pitem A)) : Prop := {
  sr_blocks : Forall (fun b => length b = blockSize) (ss_blocks s);
  sr_capacity : ss_capacity s = (length (ss_blocks s) * blockSize)%nat;
  sr_size : ss_size s = (ss_active s * blockSize + ss_offset s)%nat;
  sr_offset : (ss_offset s <= blockSize)%nat;
  sr_active : (ss_active s < length (ss_blocks s))%nat;
  sr_length : ss_size s = length l;
  sr_wrap : ss_wrapAround s = false;
  sr_get i : (i < length l)%nat -> ss_get s (i / blockSize) (i mod blockSize) = l !! i
}.

Lemma set_cell_blocks b o x (bs : list (list (option (pitem A)))) :
  Forall (fun b => length b = blockSize) bs ->
  Forall (fun b => length b = blockSize) (set_cell b o x bs) /\ length (set_cell b o x bs) = length bs.
Proof.
  intros HF. unfold set_cell. split; [|apply length_alter].
  apply Forall_alter; [done|]. intros blk _ Hb. by rewrite length_insert.
Qed.

Lemma ss_get_set_cell n c o w a (bs : list (list (option (pitem A)))) bi oi x b' o' :
  Forall (fun b => length b = blockSize) bs -> (bi < length bs)%nat -> (oi < blockSize)%nat ->
  ss_get (mkSstack n c o w (set_cell bi oi x bs) a) b' o' =
    if decide (b' = bi /\ o' = oi) then x else ss_get (mkSstack n c o w bs a) b' o'.
Proof.
  intros HF [blk Hb]%lookup_lt_is_Some_2 Ho. unfold ss_get, set_cell. cbn [ss_blocks].
  assert (length blk = blockSize) by (eapply Forall_lookup_1 in HF; eauto).
  destruct (decide (b' = bi)) as [->|Hne].
  - rewrite list_lookup_alter_eq, Hb. cbn [fmap option_fmap option_map].
    destruct (decide (o' = oi)) as [->|Hne].
    + rewrite list_lookup_insert_eq by lia. by rewrite decide_True.
    + rewrite list_lookup_insert_ne by done. by rewrite decide_False by tauto.
  - rewrite list_lookup_alter_ne by done. by rewrite decide_False by tauto.
Qed.

Lemma cell_index i n : (i < n * blockSize)%nat ->
  (i / blockSize < n)%nat /\ (i mod blockSize < blockSize)%nat.
Proof.
  pose proof blockSize_pos. intros. split.
  - apply Nat.Div0.div_lt_upper_bound. lia.
  - apply Nat.mod_upper_bound. lia.
Qed.

Lemma cell_eq i j : (i / blockSize)%nat = (j / blockSize)%nat /\ (i mod blockSize)%nat = (j mod blockSize)%nat -> i = j.
Proof. intros [H1 H2]. rewrite (Nat.div_mod_eq i blockSize), (Nat.div_mod_eq j blockSize). congruence. Qed.

Lemma index_cell b o : (o < blockSize)%nat ->
  ((b * blockSize + o) / blockSize)%nat = b /\ ((b * blockSize + o) mod blockSize)%nat = o.
Proof.
  pose proof blockSize_pos. intros. split.
  - symmetry. apply (Nat.div_unique _ _ _ o); lia.
  - symmetry. apply (Nat.mod_unique _ _ b); lia.
Qed.

Lemma newSstack_rel : sstack_rel (newSstack false) [].
Proof.
  pose proof blockSize_pos. constructor; cbn; try lia; try done.
  - constructor; [|done]. apply length_replicate.
Qed.

Lemma sstack_grow_rel s l : sstack_rel s l ->
  sstack_rel (sstack_grow s) l /\ (ss_offset (sstack_grow s) < blockSize)%nat.
Proof.
  intros Hs. pose proof blockSize_pos. destruct Hs as [HF Hc Hsz Ho Ha Hl Hw Hg]. unfold sstack_grow.
  destruct (Nat.eqb_spec (ss_size s) (ss_capacity s)) as [He|He].
  - split; [|done]. constructor; cbn; try lia.
    + apply Forall_app. split; [done|]. constructor; [|done]. apply length_replicate.
    + rewrite length_app. cbn. lia.
    + rewrite length_app. cbn. lia.
    + done.
    + intros i Hi. rewrite <- Hg by done. unfold ss_get. cbn.
      rewrite lookup_app_l; [done|]. apply cell_index. lia.
  - destruct (Nat.eqb_spec (ss_offset s) blockSize) as [Hob|Hob]; [|split; [done|lia]].
    split; [|done].
    assert (ss_size s / blockSize = S (ss_active s))%nat as Hd.
    { rewrite Hsz, Hob. replace (ss_active s * blockSize + blockSize)%nat with (S (ss_active s) * blockSize + 0)%nat by lia.
      by apply index_cell. }
    constructor; cbn; rewrite ?Hd; try lia; try done. nia.
Qed.

Lemma sstack_Push_rel s l x : sstack_rel s l -> sstack_rel (sstack_Push x s) (l ++ [x]).
Proof.
  intros [Hs Hoff]%sstack_grow_rel. unfold sstack_Push. set (s1 := sstack_grow s) in *. clearbody s1.
  destruct Hs as [HF Hc Hsz Ho Ha Hl Hw Hg].
  destruct (set_cell_blocks (ss_active s1) (ss_offset s1) (Some x) _ HF) as [HF' Hlen].
  constructor; cbn [ss_size ss_capacity ss_offset ss_blocks ss_active ss_wrapAround];
    rewrite ?Hlen, ?length_app; cbn [length]; try lia; try done.
  intros i Hi. rewrite ss_get_set_cell by done.
  destruct (decide (i = length l)) as [->|Hne].
  - rewrite <- Hl, Hsz. destruct (index_cell (ss_active s1) (ss_offset s1) Hoff) as [-> ->].
    rewrite decide_True by done. rewrite <- Hsz, Hl. by rewrite list_lookup_middle.
  - rewrite decide_False.
    + rewrite lookup_app_l by lia. rewrite <- Hg by lia. by destruct s1.
    + intros Heq. destruct (index_cell (ss_active s1) (ss_offset s1) Hoff) as [E1 E2].
      assert (i = (ss_active s1 * blockSize + ss_offset s1)%nat) by (apply cell_eq; by rewrite E1, E2). lia.
Qed.

Lemma sstack_Pop_rel s l : sstack_rel s l -> pop_rel sstack_rel (sstack_Pop s) (list_Pop l).
Proof.
  intros [HF Hc Hsz Ho Ha Hl Hw Hg]. pose proof blockSize_pos. unfold sstack_Pop, list_Pop.
  destruct (ss_size s) as [|n] eqn:Hn.
  { destruct l; [done|discriminate]. }
  assert (exists off act,
    match ss_offset s with O => ((blockSize - 1)%nat, (n / blockSize)%nat) | S o => (o, ss_active s) end = (off, act)
    /\ n = (act * blockSize + off)%nat /\ (off < blockSize)%nat /\ (act < length (ss_blocks s))%nat) as (off & act & -> & Hn' & Hoff & Hact).
  { destruct (ss_offset s) as [|o]; [|eexists _, _; split; [done|]; lia].
    destruct (ss_active s) as [|a]; [lia|].
    assert (n = a * blockSize + (blockSize - 1))%nat as -> by lia.
    destruct (index_cell a (blockSize - 1)) as [-> _]; [lia|].
    eexists _, _. split; [done|]. lia. }
  destruct (index_cell act off Hoff) as [E1 E2]. rewrite <- Hn' in E1, E2.
  destruct (lookup_lt_is_Some_2 l n) as [x Hx]; [lia|].
  pose proof (Hg n ltac:(lia)) as Hgn. rewrite E1, E2, Hx in Hgn. rewrite Hgn.
  rewrite last_lookup, <- Hl. cbn [pred]. rewrite Hx. cbn. split; [done|].
  replace (n - 0)%nat with n by lia.
  destruct (set_cell_blocks act off None _ HF) as [HF' Hlen].
  constructor; cbn [ss_size ss_capacity ss_offset ss_blocks ss_active ss_wrapAround];
    rewrite ?Hlen, ?length_take; try lia; try done.
  intros i Hi. rewrite ss_get_set_cell by done. rewrite decide_False.
  - rewrite lookup_take_lt by lia. rewrite <- Hg by lia. by destruct s.
  - intros Heq. assert (i = n) by (apply cell_eq; by rewrite E1, E2). lia.
Qed.

Lemma sstack_Swap_rel s l i j : sstack_rel s l -> (i < length l)%nat -> (j < length l)%nat ->
  sstack_rel (sstack_Swap i j s) (list_Swap i j l).
Proof.
  intros [HF Hc Hsz Ho Ha Hl Hw Hg] Hi Hj. unfold sstack_Swap.
  destruct (cell_index i (length (ss_blocks s))) as [Hi1 Hi2]; [nia|].
  destruct (cell_index j (length (ss_blocks s))) as [Hj1 Hj2]; [nia|].
  rewrite (Hg i Hi), (Hg j Hj).
  destruct (set_cell_blocks (i / blockSize) (i mod blockSize) (l !! j) _ HF) as [HF1 Hlen1].
  destruct (set_cell_blocks (j / blockSize) (j mod blockSize) (l !! i) _ HF1) as [HF2 Hlen2].
  constructor; cbn [ss_size ss_capacity ss_offset ss_blocks ss_active ss_wrapAround];
    rewrite ?Hlen2, ?Hlen1, ?length_list_Swap; try lia; try done.
  intros k Hk. rewrite !ss_get_set_cell by (done || lia). rewrite lookup_list_Swap by done.
  destruct (Nat.eqb_spec k i) as [->|Hki].
  - destruct (decide _) as [Heq|]; [apply cell_eq in Heq as ->; done|].
    by rewrite decide_True by done.
  - destruct (Nat.eqb_spec k j) as [->|Hkj]; [by rewrite decide_True by done|].
    rewrite !decide_False by (intros ?%cell_eq; done). rewrite <- Hg by done. by destruct s.
Qed.

Lemma sstack_Less_rel s l i j : sstack_rel s l -> (i < length l)%nat -> (j < length l)%nat ->
  sstack_Less s i j = list_Less l i j.
Proof. intros Hs Hi Hj. unfold sstack_Less, list_Less. by rewrite !(sr_get s l), (sr_wrap s l). Qed.

#[global] Instance sstack_refines : HeapRefinement sstack_rel.
Proof.
  split; [split|..]; cbn.
  - apply sr_length.
  - apply sstack_Less_rel.
  - apply sstack_Swap_rel.
  - intros. apply length_list_Swap.
  - apply sstack_Pop_rel.
  - apply sstack_Push_rel.
  - intros. rewrite length_app. cbn. lia.
Qed.

End SstackRefine.

(** ** The queue refines a multiset *)

(** [p] holds exactly the elements of [l], in some heap order. *)
Definition pq_rel {A} (p : Prque A) (l : list (pitem A)) : Prop := heap_holds sstack_rel (pq_cont p) l.

Section QueueSpec.
Context {A : Type}.
Implicit Types (p : Prque A) (l : list (pitem A)).

#[global] Instance pq_rel_proper p : Proper ((≡ₚ) ==> iff) (pq_rel p).
Proof. apply heap_holds_proper. Qed.

Lemma Prque_New_rel : pq_rel (@Prque_New A) [].
Proof. exists []. split; [apply newSstack_rel|]. split; [intros i; cbn; lia|done]. Qed.

Lemma Prque_Push_rel x pr p l : pq_rel p l -> pq_rel (Prque_Push x pr p) (mkItem x pr :: l).
Proof. apply (holds_push sstack_rel). Qed.

Lemma Prque_Pop_rel p l : pq_rel p l -> l <> [] ->
  exists x p' l', Prque_Pop p = Ret ((it_value x, it_priority x), p') /\
    l ≡ₚ x :: l' /\ pq_rel p' l' /\ (forall y, y ∈ l' -> it_priority y <= it_priority x).
Proof.
  intros Hr Hne. destruct (holds_pop _ _ _ Hr Hne) as (x & c & l' & E & Hp & Hh & Hmax). unfold Prque_Pop. rewrite E.
  by exists x, (mkPrque c), l'.
Qed.

Lemma Prque_Remove_rel i p l : pq_rel p l -> 0 <= i < Z.of_nat (length l) ->
  exists x p' l', Prque_Remove i p = Ret (Some x, p') /\ l ≡ₚ x :: l' /\ pq_rel p' l'.
Proof.
  intros (h & Hs & Ho & Hp) Hi. destruct (lookup_lt_is_Some_2 h (Z.to_nat i)) as [x Hx]; [rewrite (Permutation_length Hp); lia|].
  destruct (holds_remove _ _ _ _ _ _ Hs Ho Hp Hx) as (c & l' & E & Hp' & Hh). unfold Prque_Remove. rewrite E.
  destruct (Z.ltb_spec i 0); [lia|]. by exists x, (mkPrque c), l'.
Qed.

Lemma Prque_Empty_rel p l : pq_rel p l -> Prque_Empty p = true <-> l = [].
Proof.
  intros (h & Hs & _ & Hp). unfold Prque_Empty. rewrite (sr_length _ _ Hs), (Permutation_length Hp), Nat.eqb_eq.
  apply length_zero_iff_nil.
Qed.

Lemma Prque_Size_rel p l : pq_rel p l -> Prque_Size p = length l.
Proof. intros (h & Hs & _ & Hp). unfold Prque_Size. by rewrite (sr_length _ _ Hs), (Permutation_length Hp). Qed.


End QueueSpec.


Example prque_pops_highest :
  match Prque_Pop (Prque_Push 7 (-110) (Prque_Push 8 (-210) Prque_New)) with
  | Ret (x, p') => x = (7, -110) /\ Prque_Size p' = 1%nat
  | _ => False
  end.
Proof. vm_compute. done. Qed.
