(* ===== verification/LazyQueue.v ===== *)
(** * Lazy priority queues ([common/prque/lazyqueue.go])

    A queue of items whose priorities change with time: two heaps ordered by
    estimates that hold until a refresh, and a third in which [MultiPop] sorts
    the items it has evaluated.  The callbacks are arguments; the estimate is
    documented to be an upper bound of the priority, and under that the item
    [Pop] returns has the greatest actual priority.  The indices the heaps
    report to the caller are not tracked. *)
From S2P Require Import Prelude Errors Prque.
From Stdlib Require Import ZArith Lia.
From stdpp Require Import base list option.
Open Scope Z_scope.

Record LazyQueue (A : Type) := mkLazy {
  lq_queue0 : sstack A;
  lq_queue1 : sstack A;
  lq_popQueue : sstack A;
  lq_period : Z;
  lq_maxUntil : Z;
  lq_indexOffset : Z;
  lq_lastRefresh1 : Z;
  lq_lastRefresh2 : Z
}.
Arguments mkLazy {A} _ _ _ _ _ _ _ _.
Arguments lq_queue0 {A} _.
Arguments lq_queue1 {A} _.
Arguments lq_popQueue {A} _.
Arguments lq_period {A} _.
Arguments lq_maxUntil {A} _.
Arguments lq_indexOffset {A} _.
Arguments lq_lastRefresh1 {A} _.
Arguments lq_lastRefresh2 {A} _.

Section Lazy.
Context {A : Type} (nil : A) (priority : A -> Z) (maxPriority : A -> Z -> Z).
Implicit Type q : LazyQueue A.

Definition lq_queue q (i : bool) : sstack A := if i then lq_queue1 q else lq_queue0 q.

Definition set_queue (i : bool) (s : sstack A) q : LazyQueue A :=
  mkLazy (if i then lq_queue0 q else s) (if i then s else lq_queue1 q) (lq_popQueue q) (lq_period q) (lq_maxUntil q) (lq_indexOffset q)
    (lq_lastRefresh1 q) (lq_lastRefresh2 q).

Definition set_popQueue (s : sstack A) q : LazyQueue A :=
  mkLazy (lq_queue0 q) (lq_queue1 q) s (lq_period q) (lq_maxUntil q) (lq_indexOffset q) (lq_lastRefresh1 q) (lq_lastRefresh2 q).

Definition set_maxUntil (t : Z) q : LazyQueue A :=
  mkLazy (lq_queue0 q) (lq_queue1 q) (lq_popQueue q) (lq_period q) t (lq_indexOffset q) (lq_lastRefresh1 q) (lq_lastRefresh2 q).

Definition lazy_Reset q : LazyQueue A := set_queue true (newSstack false) (set_queue false (newSstack false) q).

Definition lazy_Push (data : A) q : LazyQueue A :=
  set_queue true (heap_Push (mkItem data (maxPriority data (lq_maxUntil q))) (lq_queue1 q)) q.

(** The loop of [refresh]: as many rounds as the older queue has items. *)
Fixpoint requeue (fuel : nat) q : outcome (LazyQueue A) :=
  if (ss_size (lq_queue0 q) =? 0)%nat then Ret q
  else match fuel with
       | O => Panic
       | S f => '(it, s) ← heap_Pop (lq_queue0 q); requeue f (lazy_Push (it_value it) (set_queue false s q))
       end.

Definition refresh (now : Z) q : outcome (LazyQueue A) :=
  let q := set_maxUntil (i64 (now + lq_period q)) q in
  q ← requeue (ss_size (lq_queue0 q)) q;
  Ret (mkLazy (lq_queue1 q) (lq_queue0 q) (lq_popQueue q) (lq_period q) (i64 (lq_maxUntil q + lq_period q)) (1 - lq_indexOffset q)
    (lq_lastRefresh1 q) (lq_lastRefresh2 q)).

(** [NewLazyQueue], with the three readings of the clock *)
Definition NewLazyQueue (now1 now2 now3 : Z) (refreshPeriod : Z) : outcome (LazyQueue A) :=
  refresh now3 (lazy_Reset (mkLazy (newSstack false) (newSstack false) (newSstack false) refreshPeriod 0 0 now1 now2)).

(** [Refresh]; two rounds are enough for a positive period. *)
Fixpoint refresh_loop (fuel : nat) (now : Z) q : outcome (LazyQueue A) :=
  if i64 (lq_period q * 2) <=? i64 (now - lq_lastRefresh2 q) then
    match fuel with
    | O => Panic
    | S f =>
        q' ← refresh now q;
        refresh_loop f now (mkLazy (lq_queue0 q') (lq_queue1 q') (lq_popQueue q') (lq_period q') (lq_maxUntil q') (lq_indexOffset q') now (lq_lastRefresh1 q'))
    end
  else Ret q.

Definition Refresh (now : Z) q : outcome (LazyQueue A) := refresh_loop 2 now q.

(** The priority at the root of a heap. *)
Definition top (s : sstack A) : outcome Z := it ← deref (ss_get s 0 0); Ret (it_priority it).

(** [peekIndex], with no index for -1 *)
Definition peekIndex q : outcome (option bool) :=
  if negb (ss_size (lq_queue0 q) =? 0)%nat then
    if negb (ss_size (lq_queue1 q) =? 0)%nat then
      p1 ← top (lq_queue1 q); p0 ← top (lq_queue0 q); Ret (Some (p0 <? p1))
    else Ret (Some false)
  else if negb (ss_size (lq_queue1 q) =? 0)%nat then Ret (Some true)
  else Ret None.

(** Whether the best evaluated item beats all estimates. *)
Definition ready q : outcome bool :=
  if (ss_size (lq_popQueue q) =? 0)%nat then Ret false
  else
    next ← peekIndex q;
    match next with
    | None => Ret true
    | Some i => e ← top (lq_queue q i); p ← top (lq_popQueue q); Ret (e <? p)
    end.

(** The evaluated items are put back. *)
Fixpoint put_back (fuel : nat) q : outcome (LazyQueue A) :=
  if (ss_size (lq_popQueue q) =? 0)%nat then Ret q
  else match fuel with
       | O => Panic
       | S f => '(it, s) ← heap_Pop (lq_popQueue q); put_back f (lazy_Push (it_value it) (set_popQueue s q))
       end.

Section MultiPop.
Context {C : Type} (callback : A -> Z -> LazyQueue A * C -> bool * (LazyQueue A * C)).

(** The inner loop; the flag tells that the callback has had enough. *)
Fixpoint pop_ready (fuel : nat) (st : LazyQueue A * C) : outcome (bool * (LazyQueue A * C)) :=
  b ← ready st.1;
  if negb b then Ret (false, st)
  else match fuel with
       | O => Panic
       | S f =>
           '(it, s) ← heap_Pop (lq_popQueue st.1);
           let '(more, st') := callback (it_value it) (it_priority it) (set_popQueue s st.1, st.2) in
           if negb more then q' ← put_back (ss_size (lq_popQueue st'.1)) st'.1; Ret (true, (q', st'.2))
           else pop_ready f st'
       end.

Fixpoint MultiPop (fuel : nat) (st : LazyQueue A * C) : outcome (LazyQueue A * C) :=
  next ← peekIndex st.1;
  match next with
  | None => Ret st
  | Some i =>
      match fuel with
      | O => Panic
      | S f =>
          '(it, s) ← heap_Pop (lq_queue st.1 i);
          let data := it_value it in
          let q := set_queue i s st.1 in
          let q := set_popQueue (heap_Push (mkItem data (priority data)) (lq_popQueue q)) q in
          '(stop, st') ← pop_ready (S (ss_size (lq_popQueue q))) (q, st.2);
          if stop : bool then Ret st' else MultiPop f st'
      end
  end.

End MultiPop.

Definition lazy_Size q : nat := ss_size (lq_queue0 q) + ss_size (lq_queue1 q).
Definition lazy_Empty q : bool := (ss_size (lq_queue0 q) =? 0)%nat && (ss_size (lq_queue1 q) =? 0)%nat.

(** [Pop]: the callback keeps the first item and stops. *)
Definition lazy_Pop q : outcome ((A * Z) * LazyQueue A) :=
  '(q', res) ← MultiPop (fun data pri st => (false, (st.1, (data, pri)))) (lazy_Size q) (q, (nil, 0));
  Ret (res, q').

Definition lazy_PopItem q : outcome (A * LazyQueue A) := '(r, q') ← lazy_Pop q; Ret (r.1, q').

Definition lazy_Remove (index : Z) q : outcome (A * LazyQueue A) :=
  if index <? 0 then Ret (nil, q)
  else
    let i := Z.odd (Z.lxor (Z.land index 1) (lq_indexOffset q)) in
    '(it, s) ← heap_Remove (Z.to_nat (Z.shiftr index 1)) (lq_queue q i);
    Ret (it_value it, set_queue i s q).

Definition lazy_Update (index : Z) q : outcome (LazyQueue A) := '(x, q') ← lazy_Remove index q; Ret (lazy_Push x q').

(** ** The heaps hold multisets *)

Definition holds (s : sstack A) (l : list (pitem A)) : Prop := pq_rel (mkPrque s) l.

Lemma holds_new : holds (newSstack false) [].
Proof. apply Prque_New_rel. Qed.

Lemma lq_holds_push it s l : holds s l -> holds (heap_Push it s) (it :: l).
Proof. intros Hs. destruct it as [x pr]. exact (Prque_Push_rel x pr _ _ Hs). Qed.

Lemma lq_holds_pop s l : holds s l -> l <> [] ->
  exists it s' l', heap_Pop s = Ret (it, s') /\ l ≡ₚ it :: l' /\ holds s' l' /\ forall y, y ∈ l' -> it_priority y <= it_priority it.
Proof.
  intros Hs Hl. destruct (Prque_Pop_rel _ _ Hs Hl) as (it & [s'] & l' & E & Hp & Hs' & Hm). unfold Prque_Pop in E. cbn [pq_cont] in E.
  apply outcome_bind_Ret in E as ([it0 c] & E & E'). exists it, s', l'. split_and!; try done. rewrite E. destruct it0, it. cbn in E'. by injection E' as -> -> ->.
Qed.

Lemma holds_size s l : holds s l -> ss_size s = length l.
Proof. apply Prque_Size_rel. Qed.

Lemma holds_empty s l : holds s l -> (ss_size s =? 0)%nat = true <-> l = [].
Proof. intros Hs. rewrite (holds_size s l Hs), Nat.eqb_eq. apply length_zero_iff_nil. Qed.

(** The root of the heap is a maximum. *)
Lemma holds_top s l : holds s l -> l <> [] -> exists it, top s = Ret (it_priority it) /\ it ∈ l /\ forall y, y ∈ l -> it_priority y <= it_priority it.
Proof.
  intros (h & Hs & Ho & Hp) Hl. cbn [pq_cont] in Hs. destruct h as [|it h]; [by apply Permutation_nil_l in Hp|].
  exists it. unfold top. pose proof (sr_get _ _ Hs 0 ltac:(cbn; lia)) as Hg. rewrite Nat.Div0.div_0_l, Nat.Div0.mod_0_l in Hg. rewrite Hg. split; [done|].
  split; [rewrite <- Hp; apply elem_of_cons; by left|]. intros y Hy. rewrite <- Hp in Hy. apply list_elem_of_lookup in Hy as [i Hi].
  pose proof (heap_order_root _ _ i Ho (lookup_lt_Some _ _ _ Hi)) as Hr. unfold prio in Hr. by rewrite Hi in Hr.
Qed.

Record parts q (l0 l1 lp : list (pitem A)) : Prop := {
  pt_0 : holds (lq_queue0 q) l0;
  pt_1 : holds (lq_queue1 q) l1;
  pt_p : holds (lq_popQueue q) lp
}.

Lemma parts_queue q l0 l1 lp i : parts q l0 l1 lp -> holds (lq_queue q i) (if i then l1 else l0).
Proof. intros [H0 H1 _]. by destruct i. Qed.

Definition values (l : list (pitem A)) : list A := map it_value l.

(** The estimates of the waiting items are upper bounds. *)
Definition sound (l : list (pitem A)) : Prop := forall it, it ∈ l -> priority (it_value it) <= it_priority it.

(** A queue between two calls. *)
Definition lazy_rel q (vals : list A) : Prop := exists l0 l1, parts q l0 l1 [] /\ sound (l0 ++ l1) /\ values (l0 ++ l1) ≡ₚ vals.

Lemma values_perm l l' : l ≡ₚ l' -> values l ≡ₚ values l'.
Proof. apply Permutation_map. Qed.

Lemma sound_app l l' : sound l -> sound l' -> sound (l ++ l').
Proof. intros Hl Hl' it [Hi|Hi]%elem_of_app; auto. Qed.

(** *** Moving items between the heaps *)

Definition estimated q : Prop := forall d, priority d <= maxPriority d (lq_maxUntil q).

Definition estimate q (d : A) : pitem A := mkItem d (maxPriority d (lq_maxUntil q)).

Lemma push_parts d q l0 l1 lp : parts q l0 l1 lp -> parts (lazy_Push d q) l0 (estimate q d :: l1) lp.
Proof. intros [H0 H1 Hp]. split; cbn; try done. by apply lq_holds_push. Qed.

Lemma put_back_ok fuel : forall q l0 l1 lp, parts q l0 l1 lp -> (length lp <= fuel)%nat ->
  exists q' l1', put_back fuel q = Ret q' /\ parts q' l0 l1' [] /\ values l1' ≡ₚ values (l1 ++ lp) /\ lq_maxUntil q' = lq_maxUntil q /\ (estimated q -> sound l1 -> sound l1').
Proof.
  induction fuel as [|fuel IH]; intros q l0 l1 lp Hq Hf; cbn [put_back].
  - assert (lp = []) as -> by (destruct lp; [done|cbn in Hf; lia]). rewrite (proj2 (holds_empty _ _ (pt_p _ _ _ _ Hq)) eq_refl). exists q, l1. rewrite app_nil_r. done.
  - destruct (ss_size (lq_popQueue q) =? 0)%nat eqn:E.
    + apply (holds_empty _ _ (pt_p _ _ _ _ Hq)) in E as ->. exists q, l1. rewrite app_nil_r. done.
    + assert (lp <> []) as Hlp by (intros ->; by rewrite (proj2 (holds_empty _ _ (pt_p _ _ _ _ Hq)) eq_refl) in E).
      destruct (lq_holds_pop _ _ (pt_p _ _ _ _ Hq) Hlp) as (it & s' & l' & Ep & Hperm & Hs' & _). rewrite Ep. cbn [mbind outcome_bind].
      assert (parts (set_popQueue s' q) l0 l1 l') as Hq1 by (destruct Hq; split; done).
      destruct (IH _ _ _ _ (push_parts (it_value it) _ _ _ _ Hq1)) as (q' & l1' & E' & Hq' & Hv & Hm & Hsd); [rewrite Hperm in Hf; cbn in Hf; lia|].
      exists q', l1'. split; [done|]. split; [done|]. split; [|split; [done|]].
      * rewrite Hv. apply (values_perm _ _) in Hperm. unfold values in *. rewrite !map_app, Hperm. cbn. by rewrite Permutation_middle.
      * intros He Hsl. apply Hsd; [done|]. intros x [->|Hx]%elem_of_cons; [apply He|by apply Hsl].
Qed.

Lemma lq_requeue_ok fuel : forall q l0 l1 lp, parts q l0 l1 lp -> (length l0 <= fuel)%nat ->
  exists q' l1', requeue fuel q = Ret q' /\ parts q' [] l1' lp /\ values l1' ≡ₚ values (l1 ++ l0) /\ (estimated q -> sound l1 -> sound l1') /\
    lq_period q' = lq_period q /\ lq_lastRefresh1 q' = lq_lastRefresh1 q /\ lq_lastRefresh2 q' = lq_lastRefresh2 q.
Proof.
  induction fuel as [|fuel IH]; intros q l0 l1 lp Hq Hf; cbn [requeue].
  - assert (l0 = []) as -> by (destruct l0; [done|cbn in Hf; lia]). rewrite (proj2 (holds_empty _ _ (pt_0 _ _ _ _ Hq)) eq_refl). exists q, l1. rewrite app_nil_r. done.
  - destruct (ss_size (lq_queue0 q) =? 0)%nat eqn:E.
    + apply (holds_empty _ _ (pt_0 _ _ _ _ Hq)) in E as ->. exists q, l1. rewrite app_nil_r. done.
    + assert (l0 <> []) as Hl0 by (intros ->; by rewrite (proj2 (holds_empty _ _ (pt_0 _ _ _ _ Hq)) eq_refl) in E).
      destruct (lq_holds_pop _ _ (pt_0 _ _ _ _ Hq) Hl0) as (it & s' & l' & Ep & Hperm & Hs' & _). rewrite Ep. cbn [mbind outcome_bind].
      assert (parts (set_queue false s' q) l' l1 lp) as Hq1 by (destruct Hq; split; done).
      destruct (IH _ _ _ _ (push_parts (it_value it) _ _ _ _ Hq1)) as (q' & l1' & E' & Hq' & Hv & Hsd & Hfr); [rewrite Hperm in Hf; cbn in Hf; lia|].
      exists q', l1'. split; [done|]. split; [done|]. split; [|split; [|done]].
      * rewrite Hv. apply (values_perm _ _) in Hperm. unfold values in *. rewrite !map_app, Hperm. cbn. by rewrite Permutation_middle.
      * intros He Hsl. apply Hsd; [done|]. intros x [->|Hx]%elem_of_cons; [apply He|by apply Hsl].
Qed.

(** *** Looking at the estimates *)

Lemma holds_nonempty s l : holds s l -> l <> [] -> (ss_size s =? 0)%nat = false.
Proof. intros Hs Hl. destruct (_ =? _)%nat eqn:E; [|done]. by apply (holds_empty s l Hs) in E. Qed.

(** The queue [peekIndex] names has the greatest estimate at its root. *)
Lemma peekIndex_ok q l0 l1 lp : parts q l0 l1 lp -> exists r, peekIndex q = Ret r /\
  match r with
  | None => l0 = [] /\ l1 = []
  | Some i => (if i then l1 else l0) <> [] /\ exists e, top (lq_queue q i) = Ret e /\ forall y, y ∈ l0 ++ l1 -> it_priority y <= e
  end.
Proof.
  intros [H0 H1 _]. unfold peekIndex.
  destruct (decide (l0 = [])) as [->|N0]; [rewrite (proj2 (holds_empty _ _ H0) eq_refl)|rewrite (holds_nonempty _ _ H0 N0); destruct (holds_top _ _ H0 N0) as (t0 & E0 & _ & M0)];
  (destruct (decide (l1 = [])) as [->|N1]; [rewrite (proj2 (holds_empty _ _ H1) eq_refl)|rewrite (holds_nonempty _ _ H1 N1); destruct (holds_top _ _ H1 N1) as (t1 & E1 & _ & M1)]); cbn [negb].
  - by exists None.
  - exists (Some true). split; [done|]. split; [done|]. by eexists.
  - exists (Some false). split; [done|]. split; [done|]. rewrite app_nil_r. by eexists.
  - rewrite E1, E0. cbn [mbind outcome_bind]. eexists. split; [done|]. destruct (Z.ltb_spec (it_priority t0) (it_priority t1)) as [Hlt|Hge];
      (split; [done|]; eexists; split; [done|]; intros y [Hy|Hy]%elem_of_app; [specialize (M0 y Hy)|specialize (M1 y Hy)]; lia).
Qed.

Lemma ready_ok q l0 l1 lp : parts q l0 l1 lp -> lp <> [] -> exists b, ready q = Ret b /\
  (b = true -> exists y, y ∈ lp /\ forall x, x ∈ l0 ++ l1 -> it_priority x < it_priority y) /\ (b = false -> l0 ++ l1 <> []).
Proof.
  intros Hq Hlp. unfold ready. rewrite (holds_nonempty _ _ (pt_p _ _ _ _ Hq) Hlp). destruct (peekIndex_ok _ _ _ _ Hq) as (r & -> & Hr). cbn [mbind outcome_bind].
  destruct (holds_top _ _ (pt_p _ _ _ _ Hq) Hlp) as (y & Ey & Hy & _). destruct r as [i|].
  - destruct Hr as (Hi & e & -> & He). rewrite Ey. cbn [mbind outcome_bind]. eexists. split; [done|]. split.
    + intros Hlt%Z.ltb_lt. exists y. split; [done|]. intros x Hx. specialize (He x Hx). lia.
    + intros _ [-> ->]%app_eq_nil. by destruct i.
  - destruct Hr as [-> ->]. exists true. split; [done|]. split; [|done]. intros _. exists y. split; [done|]. intros x Hx. by apply not_elem_of_nil in Hx.
Qed.

(** ** Popping *)

(** The callback of [Pop]. *)
Definition take_one (data : A) (pri : Z) (st : LazyQueue A * (A * Z)) : bool * (LazyQueue A * (A * Z)) := (false, (st.1, (data, pri))).

Definition exact (l : list (pitem A)) : Prop := forall it, it ∈ l -> it_priority it = priority (it_value it).

(** [x] is taken from the items, none of which exceeds it. *)
Definition greatest (x : A) (vals rest : list A) : Prop := vals ≡ₚ x :: rest /\ forall y, y ∈ rest -> priority y <= priority x.

Lemma lq_values_elem it l : it ∈ l -> it_value it ∈ values l.
Proof. intros Hi. apply list_elem_of_fmap. by exists it. Qed.

Lemma elem_values v l : v ∈ values l -> exists it, v = it_value it /\ it ∈ l.
Proof. intros Hv. by apply list_elem_of_fmap in Hv. Qed.

Lemma pop_ready_ok fuel q c l0 l1 lp : parts q l0 l1 lp -> lp <> [] -> sound (l0 ++ l1) -> exact lp -> estimated q ->
  (pop_ready take_one (S fuel) (q, c) = Ret (false, (q, c)) /\ l0 ++ l1 <> []) \/
  exists q' x rest, pop_ready take_one (S fuel) (q, c) = Ret (true, (q', (x, priority x))) /\ greatest x (values (l0 ++ l1 ++ lp)) rest /\ lazy_rel q' rest.
Proof.
  intros Hq Hlp Hs He Hest. cbn [pop_ready fst snd]. destruct (ready_ok _ _ _ _ Hq Hlp) as (b & -> & Ht & Hf). cbn [mbind outcome_bind]. destruct b; cbn [negb]; [right|left; auto].
  destruct (lq_holds_pop _ _ (pt_p _ _ _ _ Hq) Hlp) as (it & s' & lp' & Ep & Hperm & Hs' & Hmax). rewrite Ep. cbn [mbind outcome_bind take_one negb fst snd].
  assert (parts (set_popQueue s' q) l0 l1 lp') as Hq1 by (destruct Hq; split; done).
  destruct (put_back_ok (ss_size (lq_popQueue (set_popQueue s' q))) _ _ _ _ Hq1) as (q' & l1' & E' & Hq' & Hv & _ & Hsd); [by rewrite (holds_size _ _ (pt_p _ _ _ _ Hq1))|].
  rewrite E'. cbn [mbind outcome_bind]. assert (it ∈ lp) as Hit by (rewrite Hperm; apply elem_of_cons; by left).
  exists q', (it_value it), (values (l0 ++ l1 ++ lp')). split; [by rewrite (He it Hit)|]. split; [split|].
  - apply values_perm in Hperm. unfold values in *. rewrite !map_app, Hperm. cbn. by rewrite !Permutation_middle.
  - intros v (x & -> & Hx)%elem_values. destruct (Ht eq_refl) as (y & Hy & Hlt).
    assert (it_priority y <= it_priority it) as Hyi by (rewrite Hperm in Hy; apply elem_of_cons in Hy as [->|Hy]; [lia|by apply Hmax]).
    rewrite <- (He it Hit). rewrite app_assoc in Hx. apply elem_of_app in Hx as [Hx|Hx]; [specialize (Hlt x Hx); specialize (Hs x Hx); lia|].
    rewrite <- (He x) by (rewrite Hperm; apply elem_of_cons; by right). by apply Hmax.
  - exists l0, l1'. split; [done|]. split.
    + apply sound_app; [intros x Hx; apply Hs, elem_of_app; by left|]. apply Hsd; [done|]. intros x Hx. apply Hs, elem_of_app. by right.
    + unfold values in *. rewrite !map_app in *. by rewrite Hv.
Qed.

Lemma greatest_perm x vals vals' rest : vals ≡ₚ vals' -> greatest x vals rest -> greatest x vals' rest.
Proof. intros Hp [Hv Hm]. split; [by rewrite <- Hp|done]. Qed.

Lemma MultiPop_ok fuel : forall q c l0 l1 lp, parts q l0 l1 lp -> sound (l0 ++ l1) -> exact lp -> estimated q ->
  lp = [] \/ l0 ++ l1 <> [] -> l0 ++ l1 ++ lp <> [] -> (length (l0 ++ l1) <= fuel)%nat ->
  exists q' x rest, MultiPop take_one fuel (q, c) = Ret (q', (x, priority x)) /\ greatest x (values (l0 ++ l1 ++ lp)) rest /\ lazy_rel q' rest.
Proof.
  induction fuel as [|fuel IH]; intros q c l0 l1 lp Hq Hs He Hest Hor Hne Hf; destruct (peekIndex_ok _ _ _ _ Hq) as (r & Er & Hr); cbn [MultiPop fst snd]; rewrite Er; cbn [mbind outcome_bind].
  { assert (l0 ++ l1 = []) as E by (apply length_zero_iff_nil; lia). destruct Hor as [->|]; [|done]. apply app_eq_nil in E as [-> ->]. done. }
  destruct r as [i|].
  2: { destruct Hr as [-> ->]. by destruct Hor as [->|]. }
  destruct Hr as [Hi _]. destruct (lq_holds_pop _ _ (parts_queue _ _ _ _ i Hq) Hi) as (it & s' & l' & Ep & Hperm & Hs' & _). rewrite Ep. cbn [mbind outcome_bind].
  set (new := mkItem (it_value it) (priority (it_value it))). set (q1 := set_popQueue _ _).
  assert (exists k0 k1, parts q1 k0 k1 (new :: lp) /\ k0 ++ k1 ⊆ l0 ++ l1 /\ S (length (k0 ++ k1)) = length (l0 ++ l1) /\ values (k0 ++ k1 ++ new :: lp) ≡ₚ values (l0 ++ l1 ++ lp)) as (k0 & k1 & Hq1 & Hsub & Hlen & Hval).
  { destruct Hq as [H0 H1 Hp]. apply (values_perm _ _) in Hperm as Hv. pose proof (Permutation_length Hperm) as Hl. cbn in Hl.
    exists (if i then l0 else l'), (if i then l' else l1). split; [destruct i; (split; [done|done|by apply lq_holds_push])|].
    destruct i; (split; [intros x Hx; rewrite Hperm; rewrite !elem_of_app, ?elem_of_cons in *; tauto|]); (split; [rewrite !length_app; lia|]); unfold values in *; rewrite !map_app, Hv; cbn.
    - rewrite <- !Permutation_middle. done.
    - rewrite <- !Permutation_middle. done. }
  assert (sound (k0 ++ k1)) as Hs1 by (intros x Hx; by apply Hs, Hsub). assert (exact (new :: lp)) as He1 by (intros x [->|Hx]%elem_of_cons; [done|by apply He]).
  destruct (pop_ready_ok (ss_size (lq_popQueue q1)) q1 c _ _ _ Hq1 ltac:(done) Hs1 He1 Hest) as [[E Hk]|(q' & x & rest & E & Hg & Hrel)]; rewrite E; cbn [mbind outcome_bind].
  - destruct (IH q1 c k0 k1 (new :: lp) Hq1 Hs1 He1 Hest) as (q' & x & rest & E' & Hg & Hrel); [by right| |lia|].
    + intros E'. apply app_eq_nil in E' as [_ E']. by apply app_eq_nil in E' as [_ ?].
    + exists q', x, rest. split; [done|]. split; [|done]. by eapply greatest_perm.
  - exists q', x, rest. split; [done|]. split; [|done]. by eapply greatest_perm.
Qed.

Lemma lazy_Push_rel d q vals : lazy_rel q vals -> estimated q -> lazy_rel (lazy_Push d q) (d :: vals).
Proof.
  intros (l0 & l1 & Hq & Hs & Hv) He. exists l0, (estimate q d :: l1). split; [by apply push_parts|]. split.
  - intros x Hx. rewrite elem_of_app, elem_of_cons in Hx. destruct Hx as [Hx|[->|Hx]]; [apply Hs, elem_of_app; by left|apply He|apply Hs, elem_of_app; by right].
  - unfold values in *. rewrite map_app in *. cbn. by rewrite <- Permutation_middle, Hv.
Qed.

Lemma lazy_Pop_rel q vals : lazy_rel q vals -> estimated q -> vals <> [] ->
  exists q' x rest, lazy_Pop q = Ret ((x, priority x), q') /\ greatest x vals rest /\ lazy_rel q' rest.
Proof.
  intros (l0 & l1 & Hq & Hs & Hv) He Hne. destruct (MultiPop_ok (lazy_Size q) q (nil, 0) l0 l1 [] Hq Hs) as (q' & x & rest & E & Hg & Hrel); [by intros x Hx%not_elem_of_nil|done|by left|..].
  - rewrite app_nil_r. intros E. rewrite E in Hv. by apply Permutation_nil_l in Hv.
  - unfold lazy_Size. rewrite (holds_size _ _ (pt_0 _ _ _ _ Hq)), (holds_size _ _ (pt_1 _ _ _ _ Hq)), length_app. lia.
  - unfold lazy_Pop. change (fun data pri st => _) with take_one. rewrite E. cbn [mbind outcome_bind]. exists q', x, rest. split; [done|]. split; [|done].
    rewrite app_nil_r in Hg. by eapply greatest_perm.
Qed.

(** ** Refreshing *)

Lemma refresh_rel now q vals : lazy_rel q vals -> estimated (set_maxUntil (i64 (now + lq_period q)) q) ->
  exists q', refresh now q = Ret q' /\ lazy_rel q' vals /\ lq_period q' = lq_period q /\ lq_lastRefresh1 q' = lq_lastRefresh1 q /\ lq_lastRefresh2 q' = lq_lastRefresh2 q.
Proof.
  intros (l0 & l1 & [H0 H1 Hp] & Hs & Hv) He. unfold refresh. set (q1 := set_maxUntil _ q). assert (parts q1 l0 l1 []) as Hq1 by by split.
  destruct (lq_requeue_ok (ss_size (lq_queue0 q1)) q1 l0 l1 [] Hq1) as (q' & l1' & E & Hq' & Hv' & Hsd & Hfr); [by rewrite (holds_size _ _ (pt_0 _ _ _ _ Hq1))|].
  rewrite E. cbn [mbind outcome_bind]. eexists. split; [done|]. cbn [lq_period lq_lastRefresh1 lq_lastRefresh2]. split; [|by destruct Hfr as (-> & -> & ->)].
  exists l1', []. destruct Hq'. split; [by split|]. rewrite app_nil_r. split.
  - apply Hsd; [done|]. intros x Hx. apply Hs, elem_of_app. by right.
  - rewrite Hv', <- Hv. unfold values. rewrite !map_app. by rewrite Permutation_app_comm.
Qed.

(** The estimates a refresh at this time makes are upper bounds. *)
Definition estimates_at (now : Z) q : Prop := forall d, priority d <= maxPriority d (i64 (now + lq_period q)).

(** Times far from the ends of their type, and a period. *)
Definition timely (now : Z) q : Prop := 0 < lq_period q < 2 ^ 60 /\ 0 <= lq_lastRefresh1 q < 2 ^ 60 /\ 0 <= lq_lastRefresh2 q < 2 ^ 60 /\ 0 <= now < 2 ^ 60.

Lemma refresh_loop_rel fuel now : forall q vals, lazy_rel q vals -> estimates_at now q -> timely now q ->
  lq_lastRefresh2 q = now \/ (lq_lastRefresh1 q = now /\ (1 <= fuel)%nat) \/ (2 <= fuel)%nat ->
  exists q', refresh_loop fuel now q = Ret q' /\ lazy_rel q' vals.
Proof.
  induction fuel as [|fuel IH]; intros q vals Hq He Ht Hr; cbn [refresh_loop];
    (assert (i64 (lq_period q * 2) = lq_period q * 2 /\ i64 (now - lq_lastRefresh2 q) = now - lq_lastRefresh2 q) as [-> ->]
      by (destruct Ht as (? & ? & ? & ?); split; apply i64_small; lia)).
  - destruct Hr as [Hr|Hr]; [|lia]. rewrite Hr, (proj2 (Z.leb_gt _ _)) by (destruct Ht; lia). by exists q.
  - destruct (Z.leb_spec (lq_period q * 2) (now - lq_lastRefresh2 q)) as [Hle|]; [|by exists q].
    destruct (refresh_rel now q vals Hq He) as (q' & -> & Hq' & Ep & E1 & E2). cbn [mbind outcome_bind].
    assert (timely now q') as Ht' by (unfold timely in *; by rewrite Ep, E1, E2). destruct Ht' as (T1 & T2 & T3 & T4).
    apply IH; [by destruct Hq' as (l0 & l1 & [? ? ?] & ?); exists l0, l1|unfold estimates_at in *; cbn; by rewrite Ep|unfold timely; cbn; lia|]. cbn [lq_lastRefresh1 lq_lastRefresh2]. rewrite E1.
    destruct Hr as [Hr|[[Hr _]|Hr]]; [destruct Ht; lia|by left|right; left; split; [done|lia]].
Qed.

(** As long as the estimates are upper bounds of the
    priorities, the lazy queue is a multiset from which [Pop] takes an item of
    greatest actual priority.  Pushing adds one item, refreshing ends after at
    most two rounds and loses nothing, and the estimates that are made are
    again upper bounds. *)
Theorem lazy_queue_greatest (q : LazyQueue A) (vals : list A) (Hq : lazy_rel q vals) :
  (estimated q -> forall d, lazy_rel (lazy_Push d q) (d :: vals)) /\
  (estimated q -> vals <> [] -> exists q' x rest, lazy_Pop q = Ret ((x, priority x), q') /\ greatest x vals rest /\ lazy_rel q' rest) /\
  (forall now, timely now q -> estimates_at now q -> exists q', Refresh now q = Ret q' /\ lazy_rel q' vals) /\
  lazy_Size q = length vals.
Proof.
  split; [intros He d; by apply lazy_Push_rel|]. split; [by apply lazy_Pop_rel|]. split.
  - intros now Ht He. apply refresh_loop_rel; [done|done|done|by right; right].
  - destruct Hq as (l0 & l1 & Hp & _ & Hv). unfold lazy_Size. rewrite (holds_size _ _ (pt_0 _ _ _ _ Hp)), (holds_size _ _ (pt_1 _ _ _ _ Hp)).
    rewrite <- (Permutation_length Hv). unfold values. by rewrite length_map, length_app.
Qed.

Lemma NewLazyQueue_rel n1 n2 n3 p : exists q, NewLazyQueue n1 n2 n3 p = Ret q /\ lazy_rel q [].
Proof.
  eexists. split; [reflexivity|]. exists [], []. split; [|split; [by intros x Hx%not_elem_of_nil|done]]. split; apply holds_new.
Qed.

End Lazy.

(** ** Example *)

(** Items are base priorities that decay by one a second; the estimate of an
    item is its base. *)
Definition sample_lazy : LazyQueue Z :=
  match NewLazyQueue (fun d _ => d) 0 0 0 10 with
  | Ret q => lazy_Push (fun d _ => d) 5 (lazy_Push (fun d _ => d) 9 q)
  | _ => mkLazy (newSstack false) (newSstack false) (newSstack false) 0 0 0 0 0
  end.

Lemma sample_lazy_rel : lazy_rel (fun d => d - 3) sample_lazy [5; 9].
Proof.
  unfold sample_lazy. destruct (NewLazyQueue_rel (fun d => d - 3) (fun d _ => d) 0 0 0 10) as (q & -> & Hq).
  apply lazy_Push_rel; [apply lazy_Push_rel; [done|]|]; intros d; lia.
Qed.

Lemma lazy_queue_greatest_witness : exists q' x rest, lazy_Pop 0 (fun d => d - 3) (fun d _ => d) sample_lazy = Ret ((x, x - 3), q') /\
  greatest (fun d => d - 3) x [5; 9] rest /\ lazy_rel (fun d => d - 3) q' rest.
Proof. apply (lazy_queue_greatest 0 (fun d => d - 3) (fun d _ => d) sample_lazy [5; 9] sample_lazy_rel); [intros d; lia|done]. Defined.
