(* ===== verification/Common.v ===== *)
(** * Addresses and hashes (package [common], [crypto.Keccak256])

    A [common.Address] is the 160-bit number its 20 bytes denote, a
    [common.Hash] the 256-bit number its 32 bytes denote; the zero arrays are
    the number 0.  Keccak-256 comes from golang.org/x/crypto and is a parameter
    ([Keccak]).  The file holds the conversions, the EIP-55 spelling of an
    address with the string order on it, and the proof that this order is a
    strict total order on addresses. *)
From S2P Require Import Prelude.
From Stdlib Require Import ZArith Lia Strings.Byte.
From stdpp Require Import base list option sorting.
Open Scope Z_scope.

Definition Address := Z.
Definition Hash := Z.

Definition AddressLength : nat := 20.
Definition HashLength : nat := 32.

(** The values a 20- or 32-byte array can have. *)
Definition address_ok (a : Address) : Prop := 0 <= a < 2 ^ 160.
Definition hash_ok (h : Hash) : Prop := 0 <= h < 2 ^ 256.

#[global] Instance address_ok_dec a : Decision (address_ok a).
Proof. unfold address_ok. apply _. Defined.
#[global] Instance hash_ok_dec h : Decision (hash_ok h).
Proof. unfold hash_ok. apply _. Defined.

Definition EmptyHash : Hash := 0.
Definition EmptyAddress : Address := 0.

(** [SetBytes] crops a longer slice from the left and left-pads a shorter. *)
Definition BytesToHash (b : bytes) : Hash := be_value (drop (length b - HashLength) b).
Definition BytesToAddress (b : bytes) : Address := be_value (drop (length b - AddressLength) b).
Definition Hash_Bytes (h : Hash) : bytes := be_fixed HashLength h.
Definition Address_Bytes (a : Address) : bytes := be_fixed AddressLength a.

(** Keccak-256, of 32-byte digests. *)
Class Keccak := {
  keccak256 : bytes -> bytes;
  keccak256_length data : length (keccak256 data) = 32%nat
}.

Definition Keccak256Hash `{Keccak} (data : bytes) : Hash := BytesToHash (keccak256 data).

(** ** Hexadecimal spelling *)

(** The lower-case digit of a number below 16. *)
Definition hex_digit (n : Z) : byte := byte_of_Z (if n <? 10 then 48 + n else 87 + n).

Definition hex_encode (bs : bytes) : bytes :=
  flat_map (fun b => [hex_digit (Z_of_byte b / 16); hex_digit (Z_of_byte b mod 16)]) bs.

Definition Address_hex (a : Address) : bytes := x30 :: x78 :: hex_encode (Address_Bytes a).

Section Spelling.
Context `{Keccak}.

(** The digit at position [i] (after the prefix) is raised to upper case when
    it is a letter and the matching nibble of the digest is above 7. *)
Definition checksum_digit (hash : bytes) (i : nat) (c : byte) : byte :=
  let hashByte := Z_of_byte (default x00 (hash !! (i / 2)%nat)) in
  let nibble := if (i mod 2 =? 0)%nat then Z.shiftr hashByte 4 else Z.land hashByte 15 in
  if (57 <? Z_of_byte c) && (7 <? nibble) then byte_of_Z (Z_of_byte c - 32) else c.

Definition checksumHex (a : Address) : bytes :=
  let buf := Address_hex a in
  let digits := drop 2 buf in
  take 2 buf ++ imap (checksum_digit (keccak256 digits)) digits.

Definition Address_String (a : Address) : bytes := checksumHex a.

End Spelling.

(** [strings.Compare] *)
Fixpoint bytes_compare (a b : bytes) : comparison :=
  match a, b with
  | [], [] => Eq
  | [], _ => Lt
  | _, [] => Gt
  | x :: a', y :: b' =>
      match Z_of_byte x ?= Z_of_byte y with Eq => bytes_compare a' b' | c => c end
  end.

(** ** The order on strings *)

Lemma bytes_compare_eq a b : bytes_compare a b = Eq <-> a = b.
Proof.
  split; [|intros <-; induction a; simpl; [done|by rewrite Z.compare_refl]].
  revert b. induction a as [|x a IH]; intros [|y b]; simpl; try done.
  destruct (Z.compare_spec (Z_of_byte x) (Z_of_byte y)) as [E| |]; try done.
  intros ?%IH. f_equal; [by apply Z_of_byte_inj|done].
Qed.

Lemma bytes_compare_antisym a b : bytes_compare b a = CompOpp (bytes_compare a b).
Proof.
  revert b. induction a as [|x a IH]; intros [|y b]; simpl; try done.
  rewrite (Z.compare_antisym (Z_of_byte x)). destruct (Z_of_byte x ?= Z_of_byte y); simpl; auto.
Qed.

Lemma bytes_compare_lt_trans a b c :
  bytes_compare a b = Lt -> bytes_compare b c = Lt -> bytes_compare a c = Lt.
Proof.
  revert b c. induction a as [|x a IH]; intros [|y b] [|z c]; simpl; try done.
  destruct (Z.compare_spec (Z_of_byte x) (Z_of_byte y)) as [E1|E1|E1]; try done;
  destruct (Z.compare_spec (Z_of_byte y) (Z_of_byte z)) as [E2|E2|E2]; try done; intros ? ?.
  - rewrite E1, E2, Z.compare_refl. eauto.
  - rewrite E1. apply Z.compare_lt_iff in E2. by rewrite E2.
  - rewrite <- E2. apply Z.compare_lt_iff in E1. by rewrite E1.
  - assert (Z_of_byte x < Z_of_byte z) as E3%Z.compare_lt_iff by lia. by rewrite E3.
Qed.

(** ** The spelling determines the address *)

(** Lower-casing undoes the checksum. *)
Definition lower (c : byte) : byte :=
  if (65 <=? Z_of_byte c) && (Z_of_byte c <=? 70) then byte_of_Z (Z_of_byte c + 32) else c.

Definition hex_value (c : byte) : Z :=
  if Z_of_byte c <=? 57 then Z_of_byte c - 48 else Z_of_byte c - 87.

Lemma hex_digit_value n : 0 <= n < 16 -> hex_value (hex_digit n) = n.
Proof.
  intros. unfold hex_value, hex_digit. rewrite Z_of_byte_of_Z.
  destruct (Z.ltb_spec n 10); rewrite Z.mod_small by lia;
    [destruct (Z.leb_spec (48 + n) 57)|destruct (Z.leb_spec (87 + n) 57)]; lia.
Qed.

Lemma hex_encode_inj a b : hex_encode a = hex_encode b -> a = b.
Proof.
  revert b. induction a as [|x a IH]; intros [|y b]; cbn; try done.
  intros [= H1 H2 ->%IH]. f_equal. apply Z_of_byte_inj.
  pose proof (Z_of_byte_range x). pose proof (Z_of_byte_range y).
  apply (f_equal hex_value) in H1, H2.
  rewrite !hex_digit_value in H1, H2
    by (first [apply Z.mod_pos_bound; lia | split; [apply Z.div_pos; lia|apply Z.div_lt_upper_bound; lia]]).
  rewrite (Z.div_mod (Z_of_byte x) 16), (Z.div_mod (Z_of_byte y) 16) by lia. congruence.
Qed.

Lemma lower_checksum_digit hash i n : 0 <= n < 16 ->
  lower (checksum_digit hash i (hex_digit n)) = hex_digit n.
Proof.
  intros Hn. unfold checksum_digit. set (nib := if (i mod 2 =? 0)%nat then _ else _).
  generalize (7 <? nib). intros up. clear nib.
  assert (Forall (fun m => lower (if (57 <? Z_of_byte (hex_digit m)) && up
    then byte_of_Z (Z_of_byte (hex_digit m) - 32) else hex_digit m) = hex_digit m) (seqZ 0 16)) as Hall
    by (destruct up; decide_eval).
  rewrite Forall_forall in Hall. apply Hall, elem_of_seqZ. lia.
Qed.

Lemma lower_checksum hash k bs :
  lower <$> imap (fun i => checksum_digit hash (i + k)) (hex_encode bs) = hex_encode bs.
Proof.
  revert k. induction bs as [|b bs IH]; intros k; [done|].
  pose proof (Z_of_byte_range b). cbn [hex_encode flat_map app imap fmap list_fmap]. unfold compose.
  rewrite !lower_checksum_digit
    by (first [apply Z.mod_pos_bound; lia | split; [apply Z.div_pos; lia|apply Z.div_lt_upper_bound; lia]]).
  do 2 f_equal. change (flat_map _ bs) with (hex_encode bs). etransitivity; [|apply (IH (S (S k)))]. f_equal.
  apply imap_ext. intros i x _. cbn. f_equal. lia.
Qed.

Section SpellingProofs.
Context `{Keccak}.

Lemma Address_String_inj a b : address_ok a -> address_ok b ->
  Address_String a = Address_String b -> a = b.
Proof.
  intros Ha Hb He. unfold Address_String, checksumHex, Address_hex in He. cbn [drop take app] in He.
  apply (f_equal (drop 2)) in He. cbn [drop] in He. unfold Address_Bytes in He.
  set (x := be_fixed AddressLength a) in He. set (y := be_fixed AddressLength b) in He.
  assert (forall k z, lower <$> imap (checksum_digit k) (hex_encode z) = hex_encode z) as Hl.
  { intros k z. rewrite <- (lower_checksum k 0 z) at 2. f_equal. apply imap_ext. intros i c _. cbn. f_equal. lia. }
  apply (f_equal (fmap lower)) in He.
  rewrite !drop_0, !take_0 in He. cbn [app] in He. rewrite !Hl in He. apply hex_encode_inj in He.
  apply (f_equal be_value) in He. unfold x, y in He.
  rewrite !be_value_fixed_small in He; [done|exact Hb|exact Ha].
Qed.

End SpellingProofs.

(** ** Conversions *)

Lemma BytesToHash_Bytes h : hash_ok h -> BytesToHash (Hash_Bytes h) = h.
Proof.
  intros Hh. unfold BytesToHash, Hash_Bytes. rewrite length_be_fixed, Nat.sub_diag, drop_0.
  by apply be_value_fixed_small.
Qed.

Lemma BytesToAddress_Bytes a : address_ok a -> BytesToAddress (Address_Bytes a) = a.
Proof.
  intros Hh. unfold BytesToAddress, Address_Bytes. rewrite length_be_fixed, Nat.sub_diag, drop_0.
  by apply be_value_fixed_small.
Qed.

Lemma BytesToHash_ok b : hash_ok (BytesToHash b).
Proof.
  unfold BytesToHash, hash_ok. pose proof (be_value_range (drop (length b - HashLength) b)) as Hr.
  rewrite length_drop in Hr. split; [lia|]. eapply Z.lt_le_trans; [apply Hr|].
  change (2 ^ 256) with (256 ^ Z.of_nat HashLength). apply Z.pow_le_mono_r; lia.
Qed.

Lemma BytesToAddress_ok b : address_ok (BytesToAddress b).
Proof.
  unfold BytesToAddress, address_ok. pose proof (be_value_range (drop (length b - AddressLength) b)) as Hr.
  rewrite length_drop in Hr. split; [lia|]. eapply Z.lt_le_trans; [apply Hr|].
  change (2 ^ 160) with (256 ^ Z.of_nat AddressLength). apply Z.pow_le_mono_r; lia.
Qed.

Lemma Keccak256Hash_ok `{Keccak} data : hash_ok (Keccak256Hash data).
Proof. apply BytesToHash_ok. Qed.

(** Equal hash values are equal digests. *)
Lemma Keccak256Hash_digest `{Keccak} d : Hash_Bytes (Keccak256Hash d) = keccak256 d.
Proof.
  unfold Hash_Bytes, Keccak256Hash, BytesToHash. rewrite keccak256_length, Nat.sub_diag, drop_0.
  etransitivity; [|apply be_fixed_value]. by rewrite keccak256_length.
Qed.

(** A concrete digest to evaluate the definitions with. *)
Program Definition sample_keccak : Keccak := {|
  keccak256 := fun data => be_fixed 32 (fold_left (fun acc b => (acc * 31 + Z_of_byte b + 1) mod 1000003) data 7)
|}.
Next Obligation. intros. apply length_be_fixed. Qed.
