(* ===== verification/Merkle.v ===== *)
(** * The root hash of a tree

    A node is encoded as an RLP list; inside its parent it appears as it is if
    its encoding is shorter than a hash, and as the hash of its encoding
    otherwise.  [t_hash] is the root hash of a whole tree.  Unless two of the
    encodings involved have the same digest, the root hash determines the
    tree, and so its contents. *)
From Stdlib Require Import ZArith Lia Strings.Byte.
From stdpp Require Import base option list.
From S2P Require Import Prelude Errors Rlp Nibbles Patricia Common.
Open Scope nat_scope.

(** [emptyRoot] of [trie.go] *)
Definition emptyRoot : Hash := 0x56e81f171bcc55a6ff8345e692c0f86e5b48e01b996cadc001622fb5e363b421%Z.

Section Merkle.
Context `{Keccak}.

(** A node as it appears in its parent; strings are nodes without children. *)
Definition ref_of (it : item) : item :=
  match it with
  | Str _ => it
  | Lst _ => if length (encode it) <? 32 then it else Str (keccak256 (encode it))
  end.

Fixpoint t_item (t : trie) : item :=
  match t with
  | TNil => Str []
  | TValue v => Str v
  | TShort k c => Lst [Str (hexToCompact k); ref_of (t_item c)]
  | TFull cs => Lst (map (fun c => ref_of (t_item c)) cs)
  end.

Definition t_hash (t : trie) : bytes :=
  match t with TNil => Hash_Bytes emptyRoot | _ => keccak256 (encode (t_item t)) end.

(** The encodings that are hashed, or could be. *)
Fixpoint t_data (t : trie) : list bytes :=
  match t with
  | TNil | TValue _ => []
  | TShort _ c => encode (t_item t) :: t_data c
  | TFull cs => encode (t_item t) :: concat (map t_data cs)
  end.

(** ** Encodings *)

Lemma encode_inj it it' : (zlen (encode it) < 2 ^ 64)%Z -> encode it = encode it' -> it = it'.
Proof.
  intros Hl E. pose proof (DecodeBytes_encode it Hl) as Hd. rewrite E in Hd, Hl. rewrite (DecodeBytes_encode it' Hl) in Hd. congruence.
Qed.

Lemma length_digest d : length (keccak256 d) = 32.
Proof. apply keccak256_length. Qed.

Lemma ref_of_Lst l : ref_of (Lst l) <> Str [].
Proof. cbn [ref_of]. case_match; [done|]. intros [= E]. apply (f_equal length) in E. by rewrite length_digest in E. Qed.

(** ** Binding *)

(** No two of the encodings of the trees have the same digest. *)
Definition no_collision (t t' : trie) : Prop := forall a b, a ∈ t_data t -> b ∈ t_data t' -> keccak256 a = keccak256 b -> a = b.

Definition data_small (t : trie) : Prop := forall a, a ∈ t_data t -> (zlen a < 2 ^ 64)%Z.

Lemma t_data_child cs i c : cs !! i = Some c -> forall a, a ∈ t_data c -> a ∈ t_data (TFull cs).
Proof.
  intros Hi a Ha. cbn [t_data]. apply elem_of_cons. right. apply list_elem_of_In, in_concat. exists (t_data c). split; [|by apply list_elem_of_In].
  apply list_elem_of_In, list_elem_of_fmap. exists c. split; [done|by eapply list_elem_of_lookup_2].
Qed.

Lemma wf_item t : wf t -> exists l, t_item t = Lst l.
Proof. destruct 1; by eexists. Qed.

Lemma wf_data t : wf t -> encode (t_item t) ∈ t_data t.
Proof. destruct 1; cbn [t_data]; apply elem_of_cons; by left. Qed.

(** Equal references are references to equal nodes. *)
Lemma ref_item_inj t t' : wf t -> wf t' -> no_collision t t' -> data_small t -> ref_of (t_item t) = ref_of (t_item t') -> t_item t = t_item t'.
Proof.
  intros Hw Hw' Hnc Hsm. destruct (wf_item t Hw) as [l El], (wf_item t' Hw') as [l' El']. pose proof (wf_data t Hw) as Hd. pose proof (wf_data t' Hw') as Hd'.
  rewrite El, El' in *. cbn [ref_of]. case_match; case_match; try done. intros E.
  assert (keccak256 (encode (Lst l)) = keccak256 (encode (Lst l'))) as Ek by congruence.
  apply encode_inj; [by apply Hsm|]. by apply Hnc.
Qed.

Lemma no_collision_child cs cs' i c c' : cs !! i = Some c -> cs' !! i = Some c' -> no_collision (TFull cs) (TFull cs') -> no_collision c c'.
Proof. intros Hi Hi' Hnc a b Ha Hb. apply Hnc; by eapply t_data_child. Qed.

Lemma no_collision_short k k' c c' : no_collision (TShort k c) (TShort k' c') -> no_collision c c'.
Proof. intros Hnc a b Ha Hb. apply Hnc; cbn [t_data]; apply elem_of_cons; by right. Qed.

Lemma item_binds_short k c k' c' : t_item (TShort k c) = t_item (TShort k' c') -> hexToCompact k = hexToCompact k' /\ ref_of (t_item c) = ref_of (t_item c').
Proof. cbn [t_item]. by intros [= -> ->]. Qed.

Lemma slot_binds i c c' : slot_ok i c -> slot_ok i c' -> ref_of (t_item c) = ref_of (t_item c') ->
  (wf c -> wf c' -> t_item c = t_item c' -> c = c') -> (wf c -> wf c' -> t_item c = t_item c') -> c = c'.
Proof.
  intros Hs Hs' E IH Hit. destruct Hs as [[Hi [->|Hw]]|[Hi [->|(v & -> & Hv)]]], Hs' as [[Hi' [->|Hw']]|[Hi' [->|(v' & -> & Hv')]]]; try lia; try done.
  - destruct (wf_item c' Hw') as [l El]. rewrite El in E. by apply symmetry, ref_of_Lst in E.
  - destruct (wf_item c Hw) as [l El]. rewrite El in E. by apply ref_of_Lst in E.
  - auto.
  - cbn in E. congruence.
  - cbn in E. congruence.
  - cbn in E. congruence.
Qed.

Lemma item_binds t t' : wf t -> wf t' -> no_collision t t' -> data_small t -> t_item t = t_item t' -> t = t'.
Proof.
  intros Hw. revert t'. induction Hw as [s v Hs Hv|s cs Hne Hs Hw IH|cs Hcs Hc IH]; intros t' Hw' Hnc Hsm E.
  - inversion Hw' as [s' v' Hs' Hv'|s' cs' _ Hs' _|cs' (Hl & _) _]; subst.
    + apply item_binds_short in E as [Ek Er]. destruct (hexToCompact_inj true true s s' Hs Hs' Ek) as [_ ->]. by injection Er as ->.
    + apply item_binds_short in E as [Ek _]. rewrite <- (app_nil_r s') in Ek. by destruct (hexToCompact_inj true false s s' Hs Hs' Ek).
    + cbn [t_item] in E. injection E as E. apply (f_equal length) in E. rewrite length_map, Hl in E. done.
  - inversion Hw' as [s' v' Hs' Hv'|s' cs' _ Hs' Hw2|cs' (Hl & _) _]; subst.
    + apply item_binds_short in E as [Ek _]. rewrite <- (app_nil_r s) in Ek. by destruct (hexToCompact_inj false true s s' Hs Hs' Ek).
    + apply item_binds_short in E as [Ek Er]. rewrite <- (app_nil_r s), <- (app_nil_r s') in Ek.
      destruct (hexToCompact_inj false false s s' Hs Hs' Ek) as [_ ->]. f_equal. apply no_collision_short in Hnc.
      assert (data_small (TFull cs)) as Hsm' by (intros a Ha; apply Hsm; cbn [t_data]; apply elem_of_cons; by right).
      apply IH; [done|done|done|]. by apply ref_item_inj.
    + cbn [t_item] in E. injection E as E. apply (f_equal length) in E. rewrite length_map, Hl in E. done.
  - inversion Hw' as [s' v' Hs' Hv'|s' cs' _ Hs' Hw2|cs' Hcs' Hc']; subst.
    + destruct Hcs as (Hl & _). cbn [t_item] in E. injection E as E. apply (f_equal length) in E. rewrite length_map, Hl in E. done.
    + destruct Hcs as (Hl & _). cbn [t_item] in E. injection E as E. apply (f_equal length) in E. rewrite length_map, Hl in E. done.
    + assert (wf (TFull cs)) as Hw by by constructor. f_equal. cbn [t_item] in E. injection E as E.
      apply list_eq. intros i. pose proof (f_equal (fun l => l !! i) E) as Ei. cbn in Ei. rewrite !list_lookup_fmap in Ei.
      destruct (cs !! i) as [c|] eqn:Hi, (cs' !! i) as [c'|] eqn:Hi'; try done. cbn in Ei. f_equal.
      assert (data_small c) as Hsmc by (intros a Ha; apply Hsm; by eapply t_data_child). pose proof (no_collision_child _ _ _ _ _ Hi Hi' Hnc) as Hncc.
      apply (slot_binds i); [by apply (wf_slots cs)|by apply (wf_slots cs')|congruence| |].
      * intros Hwc Hwc' Eit. apply (IH i); [done| |by apply wf_not_nil|done|done|done|done].
        destruct (wf_slots cs i c Hw Hi) as [[? _]|[_ [->|(v & -> & _)]]]; [done|inversion Hwc..].
      * intros Hwc Hwc'. apply ref_item_inj; [done|done|done|done|congruence].
Qed.

(** The root hash determines the tree. *)
Lemma hash_binds t t' : wf_root t -> wf_root t' -> no_collision t t' -> data_small t ->
  (forall a, a ∈ t_data t \/ a ∈ t_data t' -> keccak256 a <> Hash_Bytes emptyRoot) -> t_hash t = t_hash t' -> t = t'.
Proof.
  assert (forall t, wf t -> t_hash t = keccak256 (encode (t_item t))) as Hh by by destruct 1.
  intros [->|Hw] [->|Hw'] Hnc Hsm Hroot E; [done|..].
  - rewrite (Hh t' Hw') in E. symmetry in E. apply Hroot in E; [done|]. right. by apply wf_data.
  - rewrite (Hh t Hw) in E. apply Hroot in E; [done|]. left. by apply wf_data.
  - rewrite (Hh t Hw), (Hh t' Hw') in E. apply item_binds; try done. apply encode_inj; [by apply Hsm, wf_data|]. apply Hnc; [by apply wf_data..|done].
Qed.

End Merkle.
