(* ===== verification/StackTrie.v ===== *)
(** * The stack trie ([trie/stacktrie.go])

    A trie for keys that arrive in increasing order: what lies left of the
    last key is hashed as soon as it is complete, and only the path to the
    last key is kept.  A [StackTrie] is the struct of the source; [st_insert]
    and [st_hash] are its methods, with the node they leave behind as the
    result.  The trie has no database here, as in [DeriveSha].

    [st_rep] relates a stack trie to the whole tree it stands for, and
    [stack_updates_rep] shows that insertion in increasing order is insertion
    into the tree, so that the root hash is that of the tree. *)
From Stdlib Require Import ZArith Lia Strings.Byte Sorting.Sorted.
From stdpp Require Import base option list.
From S2P Require Import Prelude Errors Rlp Nibbles Patricia Common Merkle.
Open Scope nat_scope.

Inductive stNodeType : Type := emptyNode | branchNode | extNode | leafNode | hashedNode.

Inductive StackTrie : Type :=
| mkStack (nodeType : stNodeType) (val : bytes) (key : list nat) (keyOffset : nat) (children : list (option StackTrie)).

Definition st_nodeType (st : StackTrie) : stNodeType := let 'mkStack ty _ _ _ _ := st in ty.
Definition st_val (st : StackTrie) : bytes := let 'mkStack _ v _ _ _ := st in v.
Definition st_key (st : StackTrie) : list nat := let 'mkStack _ _ k _ _ := st in k.
Definition st_keyOffset (st : StackTrie) : nat := let 'mkStack _ _ _ off _ := st in off.
Definition st_children (st : StackTrie) : list (option StackTrie) := let 'mkStack _ _ _ _ cs := st in cs.

Definition no_kids : list (option StackTrie) := replicate 16 None.

Definition NewStackTrie : StackTrie := mkStack emptyNode [] [] 0 no_kids.

Definition newLeaf (ko : nat) (key : list nat) (val : bytes) : StackTrie := mkStack leafNode val (drop ko key) ko no_kids.
Definition newExt (ko : nat) (key : list nat) (child : StackTrie) : StackTrie :=
  mkStack extNode [] (drop ko key) ko (<[0 := Some child]> no_kids).

Section StackTrie.
Context `{Keccak}.

(** ** Hashing *)

(** [rlp.Encode] of a list whose elements are encoded already. *)
Definition encode_parts (parts : list bytes) : bytes :=
  let c := concat parts in puthead 192 247 (zlen c) ++ c.

(** A hashed child in its parent: [rawNode] or [hashNode]. *)
Definition child_part (child : StackTrie) : bytes :=
  if length (st_val child) <? 32 then st_val child else encodeString (st_val child).

(** The end of [hash]. *)
Definition st_hashed (off : nat) (cs : list (option StackTrie)) (tmp : bytes) : StackTrie :=
  mkStack hashedNode (if length tmp <? 32 then tmp else keccak256 tmp) [] off cs.

Fixpoint st_hash (st : StackTrie) : outcome StackTrie :=
  match st with
  | mkStack hashedNode _ _ _ _ => Ret st
  | mkStack branchNode v k off cs =>
      parts ← (fix go (cs : list (option StackTrie)) : outcome (list bytes) :=
                 match cs with
                 | [] => Ret []
                 | None :: cs' => rest ← go cs'; Ret (encodeString [] :: rest)
                 | Some c :: cs' => c' ← st_hash c; rest ← go cs'; Ret (child_part c' :: rest)
                 end) cs;
      Ret (st_hashed off no_kids (encode_parts (parts ++ [encodeString []])))
  | mkStack extNode v k off cs =>
      match cs with
      | Some c :: cs' =>
          c' ← st_hash c;
          Ret (st_hashed off (None :: cs') (encode_parts [encodeString (hexToCompact k); child_part c']))
      | _ => Panic
      end
  | mkStack leafNode v k off cs =>
      '(sz, buf) ← hexToCompactInPlace (k ++ [terminator]);
      Ret (st_hashed off cs (encode_parts [encodeString (byte_of_nat <$> take sz buf); encodeString v]))
  | mkStack emptyNode v k off cs => Ret (mkStack hashedNode (Hash_Bytes emptyRoot) [] off cs)
  end.

(** ** Insertion *)

(** [getDiffIndex], with what is left of the key after the offset. *)
Fixpoint getDiffIndex (stkey rest : list nat) : outcome nat :=
  match stkey, rest with
  | [], _ => Ret 0
  | _ :: _, [] => Panic
  | x :: stkey', y :: rest' => if x =? y then d ← getDiffIndex stkey' rest'; Ret (S d) else Ret 0
  end.

(** The nearest elder sibling is hashed, unless it is. *)
Fixpoint hash_elder (idx : nat) (cs : list (option StackTrie)) : outcome (list (option StackTrie)) :=
  match idx with
  | O => Ret cs
  | S i =>
      match cs !! i with
      | Some (Some c) => c' ← st_hash c; Ret (<[i := Some c']> cs)
      | _ => hash_elder i cs
      end
  end.

(** [p.children[idx] = c]; an index that is no nibble is out of range. *)
Definition set_child (idx : nat) (c : StackTrie) (cs : list (option StackTrie)) : outcome (list (option StackTrie)) :=
  if idx <? 16 then Ret (<[idx := Some c]> cs) else Panic.

Definition key_at (key : list nat) (i : nat) : outcome nat := deref (key !! i).

(** The recursion goes down the key, so the key's length is fuel enough. *)
Fixpoint st_insert (fuel : nat) (st : StackTrie) (key : list nat) (value : bytes) : outcome StackTrie :=
  match fuel, st with
  | O, _ => Panic
  | S fuel', mkStack branchNode v k off cs =>
      idx ← key_at key off;
      if 16 <=? idx then Panic
      else
        cs1 ← hash_elder idx cs;
        let child := match cs1 !! idx with Some (Some c) => c | _ => mkStack emptyNode [] [] (S off) no_kids end in
        child' ← st_insert fuel' child key value;
        Ret (mkStack branchNode v k off (<[idx := Some child']> cs1))
  | S fuel', mkStack extNode v k off cs =>
      diffidx ← getDiffIndex k (drop off key);
      child0 ← deref (match cs with c :: _ => c | [] => None end);
      if diffidx =? length k then
        child' ← st_insert fuel' child0 key value;
        Ret (mkStack extNode v k off (<[0 := Some child']> cs))
      else
        n ← st_hash (if diffidx <? length k - 1 then newExt (S diffidx) k child0 else child0);
        let o := newLeaf (off + diffidx + 1) key value in
        origIdx ← key_at k diffidx;
        newIdx ← key_at key (diffidx + off);
        if diffidx =? 0 then
          cs1 ← set_child origIdx n (<[0 := None]> cs);
          cs2 ← set_child newIdx o cs1;
          Ret (mkStack branchNode v [] off cs2)
        else
          cs1 ← set_child origIdx n no_kids;
          cs2 ← set_child newIdx o cs1;
          Ret (mkStack extNode v (take diffidx k) off (<[0 := Some (mkStack branchNode [] [] (off + diffidx) cs2)]> cs))
  | S _, mkStack leafNode v k off cs =>
      diffidx ← getDiffIndex k (drop off key);
      if length k <=? diffidx then Panic
      else
        origIdx ← key_at k diffidx;
        n ← st_hash (newLeaf (S diffidx) k v);
        newIdx ← key_at key (diffidx + off);
        let o := newLeaf (off + diffidx + 1) key value in
        if diffidx =? 0 then
          cs1 ← set_child origIdx n (<[0 := None]> cs);
          cs2 ← set_child newIdx o cs1;
          Ret (mkStack branchNode [] [] off cs2)
        else
          cs1 ← set_child origIdx n no_kids;
          cs2 ← set_child newIdx o cs1;
          Ret (mkStack extNode [] (take diffidx k) off (<[0 := Some (mkStack branchNode [] [] (off + diffidx) cs2)]> cs))
  | S _, mkStack emptyNode v k off cs =>
      if length key <? off then Panic else Ret (mkStack leafNode value (drop off key) off cs)
  | S _, mkStack hashedNode _ _ _ _ => Panic
  end.

Definition st_TryUpdate (key value : bytes) (st : StackTrie) : outcome StackTrie :=
  let k := keybytesToHex key in
  match value with
  | [] => Panic
  | _ => st_insert (length k) st (removelast k) value
  end.

(** [Hash]: the top-level node is hashed whatever its size. *)
Definition st_Hash (st : StackTrie) : outcome Hash :=
  st' ← st_hash st;
  Ret (BytesToHash (if negb (length (st_val st') =? 32) then keccak256 (st_val st') else st_val st')).

(** ** The tree a stack trie stands for *)

(** What [hash] leaves in [val]: the encoding of the node, or its digest. *)
Definition t_val (t : trie) : bytes :=
  let e := encode (t_item t) in if length e <? 32 then e else keccak256 e.

Inductive st_rep : StackTrie -> trie -> Prop :=
| rep_empty off : st_rep (mkStack emptyNode [] [] off no_kids) TNil
| rep_leaf k v off : Forall nibble k -> st_rep (mkStack leafNode v k off no_kids) (TShort (k ++ [terminator]) (TValue v))
| rep_ext k off c ds : Forall nibble k -> k <> [] -> st_rep c (TFull ds) ->
    st_rep (mkStack extNode [] k off (<[0 := Some c]> no_kids)) (TShort k (TFull ds))
| rep_branch off cs ds : length cs = 16 -> length ds = 17 -> ds !! 16 = Some TNil ->
    (forall i, i < 16 -> cs !! i = Some None <-> ds !! i = Some TNil) ->
    (forall i c t, cs !! i = Some (Some c) -> ds !! i = Some t -> st_rep c t) ->
    st_rep (mkStack branchNode [] [] off cs) (TFull ds)
| rep_hashed v off cs t : v = t_val t -> wf t -> st_rep (mkStack hashedNode v [] off cs) t.

(** *** Hashing computes the reference of the node *)

Definition is_node (t : trie) : Prop := exists l, t_item t = Lst l.

Lemma part_ref c t : is_node t -> st_val c = t_val t -> child_part c = encode (ref_of (t_item t)).
Proof.
  intros [l El] Hv. unfold child_part. rewrite Hv. unfold t_val. rewrite El. cbn [ref_of].
  destruct (Nat.ltb_spec (length (encode (Lst l))) 32) as [Hlt|Hge].
  - by rewrite (proj2 (Nat.ltb_lt _ _) Hlt).
  - rewrite length_digest. done.
Qed.

Lemma encode_parts_Lst l : encode_parts (map encode l) = encode (Lst l).
Proof. done. Qed.

Lemma rep_not_nil st t : st_rep st t -> st_nodeType st <> emptyNode -> is_node t.
Proof. destruct 1; intros Hne; try done; [by eexists..|]. by apply wf_item. Qed.

(** The children of a branch, hashed one after another. *)
Lemma branch_parts cs ds : length cs <= length ds ->
  (forall i c, cs !! i = Some (Some c) -> exists t, ds !! i = Some t /\ is_node t /\ exists c', st_hash c = Ret c' /\ st_val c' = t_val t) ->
  (forall i, cs !! i = Some None -> ds !! i = Some TNil) ->
  (fix go (cs : list (option StackTrie)) : outcome (list bytes) :=
     match cs with
     | [] => Ret []
     | None :: cs' => rest ← go cs'; Ret (encodeString [] :: rest)
     | Some c :: cs' => c' ← st_hash c; rest ← go cs'; Ret (child_part c' :: rest)
     end) cs = Ret (map encode (map (fun c => ref_of (t_item c)) (take (length cs) ds))).
Proof.
  revert ds. induction cs as [|[c|] cs IH]; intros [|t ds] Hl Hs Hn; cbn in Hl; try lia; [done|done|..].
  - destruct (Hs 0 c eq_refl) as (t' & [= ->] & Ht & c' & Ec & Hv). rewrite Ec. cbn [mbind outcome_bind].
    rewrite (IH ds); [|lia|intros i; apply (Hs (S i))|intros i; apply (Hn (S i))]. cbn [mbind outcome_bind]. by rewrite (part_ref c' t' Ht Hv).
  - pose proof (Hn 0 eq_refl) as [= ->]. rewrite (IH ds); [|lia|intros i; apply (Hs (S i))|intros i; apply (Hn (S i))]. done.
Qed.

Lemma hash_rep st t : st_rep st t -> t <> TNil -> exists st', st_hash st = Ret st' /\ st_nodeType st' = hashedNode /\
  st_val st' = t_val t /\ st_key st' = [].
Proof.
  intros Hr. induction Hr as [off|k v off Hk|k off c ds Hk Hne Hr IH|off cs ds Hl Hl' H16 Hnil Hc IH|v off cs t Hv Hw]; intros Hn; [done|..].
  - destruct (hexToCompactInPlace_eq true k Hk) as (sz & buf & Ei & Ec); [by destruct k|]. cbn [hexkey] in Ei, Ec.
    cbn [st_hash]. unfold hexkey in Ei. rewrite Ei. cbn [mbind outcome_bind]. eexists. split; [done|]. split_and!; [done| |done].
    cbn [st_val st_hashed]. rewrite Ec. done.
  - destruct (IH ltac:(done)) as (c' & Ec & _ & Hv & _). cbn [st_hash insert list_insert no_kids replicate]. rewrite Ec. cbn [mbind outcome_bind].
    eexists. split; [done|]. split_and!; [done| |done]. cbn [st_val st_hashed]. rewrite (part_ref c' (TFull ds)); [done|by eexists|done].
  - cbn [st_hash]. rewrite (branch_parts cs ds); [| lia| |].
    + cbn [mbind outcome_bind]. eexists. split; [done|]. split_and!; [done| |done]. cbn [st_val st_hashed].
      assert (map (fun c => ref_of (t_item c)) ds = map (fun c => ref_of (t_item c)) (take (length cs) ds) ++ [Str []]) as E.
      { rewrite <- (firstn_skipn (length cs) ds) at 1. rewrite map_app. f_equal. rewrite Hl. 
        change (map (fun c => ref_of (t_item c)) (drop 16 ds) = [Str []]). rewrite (drop_S ds TNil 16 H16), drop_ge by lia. done. }
      unfold t_val. cbn [t_item]. rewrite E, <- encode_parts_Lst, map_app. done.
    + intros i c Hi. assert (i < 16) as Hlt by (apply lookup_lt_Some in Hi; lia). destruct (lookup_lt_is_Some_2 ds i) as [t Ht]; [lia|].
      exists t. split; [done|]. assert (t <> TNil) as Htn by (intros ->; apply Hnil in Ht; [congruence|done]).
      destruct (IH i c t Hi Ht Htn) as (c' & Ec & Hty & Hv & _). split; [|eauto]. apply (rep_not_nil c); [by eapply Hc|].
      pose proof (Hc i c t Hi Ht) as Hr'. intros E. inversion Hr'; subst; done.
    + intros i Hi. apply Hnil; [|done]. apply lookup_lt_Some in Hi. lia.
  - eexists. split; [done|]. done.
Qed.

(** *** Keys in increasing order *)

(** The first key comes before the second, at a nibble of both. *)
Definition before (s r : list nat) : Prop := exists p x a y b, s = p ++ x :: a /\ r = p ++ y :: b /\ x < y.

Definition keys_before (t : trie) (r : list nat) : Prop := forall s v, Forall nibble s -> t_get t (s ++ [terminator]) = Some v -> before s r.

Lemma before_app p s r : before (p ++ s) (p ++ r) -> before s r.
Proof.
  induction p as [|z p IH]; [done|]. intros (q & x & a & y & b & E1 & E2 & Hlt). apply IH. destruct q as [|z' q]; cbn in E1, E2.
  - injection E1 as -> _. injection E2 as -> _. lia.
  - injection E1 as _ E1. injection E2 as _ E2. by exists q, x, a, y, b.
Qed.

Lemma before_cons x s y r : before (x :: s) (y :: r) -> x < y \/ (x = y /\ before s r).
Proof.
  intros (p & u & a & w & b & E1 & E2 & Hlt). destruct p as [|z p]; cbn in E1, E2; injection E1 as -> ->; injection E2 as -> ->; [by left|].
  right. split; [done|]. by exists p, u, a, w, b.
Qed.

Lemma before_nil s : ~ before s [].
Proof. intros (p & x & a & y & b & _ & E & _). by destruct p. Qed.

Lemma before_fork p x a y b : x <> y -> before (p ++ x :: a) (p ++ y :: b) -> x < y.
Proof. intros Hne Hb. apply before_app, before_cons in Hb as [|[-> _]]; done. Qed.

Lemma getDiffIndex_spec p k r : match k, r with [], _ => True | x :: _, y :: _ => x <> y | _, _ => False end ->
  getDiffIndex (p ++ k) (p ++ r) = Ret (length p).
Proof.
  induction p as [|z p IH]; intros Hd; cbn.
  - destruct k as [|x k]; [done|]. destruct r as [|y r]; [done|]. cbn. by rewrite (proj2 (Nat.eqb_neq x y) Hd).
  - rewrite Nat.eqb_refl, IH by done. done.
Qed.

Lemma tkey_snoc s : Forall nibble s -> tkey (s ++ [terminator]).
Proof. intros Hs. by exists s. Qed.

Lemma wf_has_nibbles t : wf t -> exists s v, Forall nibble s /\ t_get t (s ++ [terminator]) = Some v.
Proof. intros Hw. destruct (wf_has_key t Hw) as (q & v & (s & Hs & ->) & Hg). by exists s, v. Qed.

(** The path to the last key: nodes with their offsets, none of them hashed. *)
Inductive opened : StackTrie -> nat -> Prop :=
| op_empty v k off cs : opened (mkStack emptyNode v k off cs) off
| op_leaf v k off cs : opened (mkStack leafNode v k off cs) off
| op_ext v k off c cs : opened c (off + length k) -> opened (mkStack extNode v k off (<[0 := Some c]> cs)) off
| op_branch v k off cs i c : cs !! i = Some (Some c) -> (forall j, i < j -> j < 16 -> cs !! j = Some None) -> opened c (S off) ->
    opened (mkStack branchNode v k off cs) off.

(** A node after [hash] stands for the same tree. *)
Lemma rep_hash st t : st_rep st t -> wf t -> exists st', st_hash st = Ret st' /\ st_rep st' t.
Proof.
  intros Hr Hw. destruct (hash_rep st t Hr (wf_not_nil t Hw)) as (st' & E & Hty & Hv & Hk). exists st'. split; [done|].
  destruct st' as [ty v k off cs]. cbn in *. subst. by apply rep_hashed.
Qed.

(** *** The two halves of a fork *)

Lemma insert_0_no_kids (c : StackTrie) : <[0 := None]> (<[0 := Some c]> no_kids) = no_kids /\ <[0 := None]> no_kids = no_kids.
Proof. done. Qed.

Lemma lookup_kids (n o : StackTrie) x y i : x < 16 -> y < 16 -> x <> y -> i < 16 ->
  (<[y := Some o]> (<[x := Some n]> no_kids)) !! i = Some (if decide (i = y) then Some o else if decide (i = x) then Some n else None).
Proof.
  intros Hx Hy Hne Hi. destruct (decide (i = y)) as [->|]; [by rewrite list_lookup_insert_eq by (rewrite length_insert; done)|].
  rewrite list_lookup_insert_ne by done. destruct (decide (i = x)) as [->|]; [by rewrite list_lookup_insert_eq|].
  rewrite list_lookup_insert_ne by done. by apply lookup_replicate_2.
Qed.

Lemma fork_rep off x ka c y kb v n o : x < y -> y < 16 -> st_rep n (attach ka c) -> attach ka c <> TNil -> st_rep o (attach kb (TValue v)) ->
  st_rep (mkStack branchNode [] [] off (<[y := Some o]> (<[x := Some n]> no_kids))) (TFull (fork_children x ka c y kb (TValue v))).
Proof.
  intros Hxy Hy Hn Hnn Ho. constructor.
  - by rewrite !length_insert.
  - unfold fork_children. by rewrite !length_insert.
  - by rewrite lookup_fork, !decide_False by lia.
  - intros i Hi. rewrite lookup_kids, lookup_fork by lia. destruct (decide (i = y)); [|destruct (decide (i = x))]; split; try done.
    + intros [= E]. by apply attach_not_nil in E.
    + by intros [= E].
  - intros i d t Hi Ht. assert (i < 16) as Hlt by (apply lookup_lt_Some in Hi; by rewrite !length_insert in Hi).
    rewrite lookup_kids in Hi by lia. rewrite lookup_fork in Ht by lia. injection Ht as <-.
    destruct (decide (i = y)); [by injection Hi as <-|]. destruct (decide (i = x)); [by injection Hi as <-|done].
Qed.

Lemma fork_opened v k off x y n o : x < y -> y < 16 -> opened o (S off) -> opened (mkStack branchNode v k off (<[y := Some o]> (<[x := Some n]> no_kids))) off.
Proof.
  intros Hxy Hy Ho. apply (op_branch _ _ _ _ y o); [by rewrite lookup_kids, decide_True by lia| |done].
  intros j Hj Hj'. by rewrite lookup_kids, !decide_False by lia.
Qed.

Lemma newLeaf_rep ko p y b v key : drop (ko - S (length p)) key = p ++ y :: b -> S (length p) <= ko -> Forall nibble b ->
  st_rep (newLeaf ko key v) (attach (b ++ [terminator]) (TValue v)).
Proof.
  intros Hd Hl Hb. unfold newLeaf. assert (drop ko key = b) as ->.
  { replace ko with ((ko - S (length p)) + S (length p)) by lia. by rewrite <- drop_drop, Hd, drop_S_app. }
  assert (attach (b ++ [terminator]) (TValue v) = TShort (b ++ [terminator]) (TValue v)) as -> by by destruct b. by apply rep_leaf.
Qed.

(** *** Insertion *)

(** What insertion below an offset does, for a key that comes after all keys. *)
Definition inserted (st : StackTrie) (t : trie) (off : nat) (rest : list nat) (v : bytes) (r : outcome StackTrie) : Prop :=
  exists st', r = Ret st' /\ st_rep st' (t_insert t (rest ++ [terminator]) v) /\ opened st' off.

Lemma drop_lookup_app {A} (l : list A) n p x r : drop n l = p ++ x :: r -> l !! (length p + n) = Some x /\ drop (n + length p + 1) l = r.
Proof.
  intros E. assert (drop (n + length p) l = x :: r) as E' by by rewrite <- drop_drop, E, drop_app_length.
  apply drop_lookup_cons in E' as [? Hd]. split; [by rewrite Nat.add_comm|]. by rewrite Nat.add_1_r.
Qed.

(** A fork at a common prefix: a branch, below an extension unless the prefix is empty. *)
Definition fork_node (off : nat) (p : list nat) (cs : list (option StackTrie)) : StackTrie :=
  match p with
  | [] => mkStack branchNode [] [] off cs
  | _ => mkStack extNode [] p off (<[0 := Some (mkStack branchNode [] [] (off + length p) cs)]> no_kids)
  end.

Lemma fork_inserted key off p x k c y b v n : drop off key = p ++ y :: b -> x < y -> y < 16 -> Forall nibble p -> Forall nibble b ->
  c <> TNil -> st_rep n (attach k c) ->
  let st' := fork_node off p (<[y := Some (newLeaf (off + length p + 1) key v)]> (<[x := Some n]> no_kids)) in
  st_rep st' (attach p (TFull (fork_children x k c y (b ++ [terminator]) (TValue v)))) /\ opened st' off.
Proof.
  intros Hd Hxy Hy Hp Hb Hc Hn st'. destruct (drop_lookup_app _ _ _ _ _ Hd) as [_ Hd'].
  assert (st_rep (newLeaf (off + length p + 1) key v) (attach (b ++ [terminator]) (TValue v))) as Ho.
  { unfold newLeaf. rewrite Hd'. assert (attach (b ++ [terminator]) (TValue v) = TShort (b ++ [terminator]) (TValue v)) as -> by by destruct b.
    by apply rep_leaf. }
  assert (opened (newLeaf (off + length p + 1) key v) (S (off + length p))) as Hop by (unfold newLeaf; rewrite Nat.add_1_r; constructor).
  subst st'. destruct p as [|z p]; cbn [fork_node attach].
  - cbn [length] in *. rewrite Nat.add_0_r in *. split; [by apply fork_rep; [..|apply attach_not_nil|]|by apply fork_opened].
  - split; [apply rep_ext; [done|done|by apply fork_rep; [..|apply attach_not_nil|]]|]. apply op_ext. by apply fork_opened.
Qed.

Lemma leaf_inserted key off k v0 v rest : drop off key = rest -> Forall nibble rest -> Forall nibble k -> v0 <> [] -> before k rest ->
  forall fuel, inserted (mkStack leafNode v0 k off no_kids) (TShort (k ++ [terminator]) (TValue v0)) off rest v
    (st_insert (S fuel) (mkStack leafNode v0 k off no_kids) key v).
Proof.
  intros Hd Hr Hk Hv0 (p & x & a & y & b & -> & -> & Hxy) fuel. destruct (drop_lookup_app _ _ _ _ _ Hd) as [Hy Hd'].
  apply Forall_app in Hk as [Hp [Hx Ha']%Forall_cons]. apply Forall_app in Hr as [_ [Hy' Hb']%Forall_cons].
  cbn [st_insert]. rewrite Hd, getDiffIndex_spec by lia. cbn [mbind outcome_bind]. 
  assert ((length (p ++ x :: a) <=? length p) = false) as -> by (apply Nat.leb_gt; rewrite length_app; cbn; lia).
  unfold key_at. rewrite Hy. rewrite lookup_app_r, Nat.sub_diag by lia. cbn [lookup list_lookup deref mbind outcome_bind].
  assert (wf (TShort (a ++ [terminator]) (TValue v0))) as Hwa by by apply wf_leaf.
  destruct (rep_hash (newLeaf (S (length p)) (p ++ x :: a) v0) _ ltac:(unfold newLeaf; rewrite drop_S_app; by apply rep_leaf) Hwa) as (n & En & Hn).
  rewrite En. cbn [mbind outcome_bind]. unfold nibble in Hx, Hy'. unfold set_child. rewrite !(proj2 (Nat.ltb_lt _ 16)) by done. cbn [mbind outcome_bind].
  rewrite (proj2 (insert_0_no_kids n)), take_app_length.
  assert (attach (a ++ [terminator]) (TValue v0) = TShort (a ++ [terminator]) (TValue v0)) as Eat by by destruct a. rewrite <- Eat in Hn.
  destruct (fork_inserted key off p x _ (TValue v0) y b v n Hd Hxy Hy' Hp Hb' ltac:(done) Hn) as [Hrep Hop].
  exists (fork_node off p (<[y := Some (newLeaf (off + length p + 1) key v)]> (<[x := Some n]> no_kids))). split; [by destruct p|]. split; [|done].
  rewrite <- !app_assoc. cbn [app]. rewrite insert_short_fork by lia. done.
Qed.

Lemma ext_fork_inserted key off p x a c ds y b v : drop off key = p ++ y :: b -> x < y -> Forall nibble (p ++ y :: b) -> Forall nibble (p ++ x :: a) ->
  st_rep c (TFull ds) -> wf (TFull ds) -> forall fuel,
  inserted (mkStack extNode [] (p ++ x :: a) off (<[0 := Some c]> no_kids)) (TShort (p ++ x :: a) (TFull ds)) off (p ++ y :: b) v
    (st_insert (S fuel) (mkStack extNode [] (p ++ x :: a) off (<[0 := Some c]> no_kids)) key v).
Proof.
  intros Hd Hxy Hr Hk Hc Hw fuel. destruct (drop_lookup_app _ _ _ _ _ Hd) as [Hy Hd'].
  apply Forall_app in Hk as [Hp [Hx Ha]%Forall_cons]. apply Forall_app in Hr as [_ [Hy' Hb]%Forall_cons].
  cbn [st_insert]. rewrite Hd, getDiffIndex_spec by lia. cbn [mbind outcome_bind insert list_insert no_kids replicate deref].
  assert ((length p =? length (p ++ x :: a)) = false) as -> by (apply Nat.eqb_neq; rewrite length_app; cbn; lia).
  assert (st_rep (if length p <? length (p ++ x :: a) - 1 then newExt (S (length p)) (p ++ x :: a) c else c) (attach a (TFull ds))) as Hn0.
  { rewrite length_app. cbn [length]. destruct a as [|z a]; cbn [attach length].
    - by rewrite (proj2 (Nat.ltb_ge _ _)) by lia.
    - rewrite (proj2 (Nat.ltb_lt _ _)) by lia. unfold newExt. rewrite drop_S_app. by apply rep_ext. }
  destruct (rep_hash _ _ Hn0 (wf_attach_full a ds Ha Hw)) as (n & En & Hn). rewrite En. cbn [mbind outcome_bind].
  unfold key_at. rewrite Hy, lookup_app_r, Nat.sub_diag by lia. cbn [lookup list_lookup deref mbind outcome_bind].
  unfold nibble in Hx, Hy'. unfold set_child. rewrite !(proj2 (Nat.ltb_lt _ 16)) by done. cbn [mbind outcome_bind]. rewrite take_app_length.
  destruct (fork_inserted key off p x a (TFull ds) y b v n Hd Hxy Hy' Hp Hb ltac:(done) Hn) as [Hrep Hop].
  exists (fork_node off p (<[y := Some (newLeaf (off + length p + 1) key v)]> (<[x := Some n]> no_kids))). split; [by destruct p|]. split; [|done].
  rewrite <- !app_assoc. cbn [app]. rewrite insert_short_fork by lia. done.
Qed.

(** A key after all keys of an extension goes through it or forks it. *)
Lemma ext_cases k ds rest : Forall nibble k -> wf (TFull ds) -> keys_before (TShort k (TFull ds)) rest ->
  (exists r, rest = k ++ r /\ keys_before (TFull ds) r) \/ (exists p x a y b, k = p ++ x :: a /\ rest = p ++ y :: b /\ x < y).
Proof.
  intros Hk Hw Hb. assert (forall s v, Forall nibble s -> t_get (TFull ds) (s ++ [terminator]) = Some v -> before (k ++ s) rest) as Hb'.
  { intros s v Hs Hg. apply (Hb _ v); [by apply Forall_app|]. by rewrite get_short, <- app_assoc, strip_prefix. }
  destruct (wf_has_nibbles _ Hw) as (s0 & v0 & Hs0 & Hg0). pose proof (Hb' s0 v0 Hs0 Hg0) as H0.
  destruct (prefixLen_split k rest) as (p & k' & r & -> & -> & _ & Hd). destruct k' as [|x a].
  - left. rewrite app_nil_r in *. exists r. split; [done|]. intros s v Hs Hg. apply (before_app p). by eapply Hb'.
  - right. rewrite <- app_assoc in H0. destruct r as [|y b]; [by apply before_app, before_nil in H0|].
    exists p, x, a, y, b. split_and!; [done|done|]. by apply before_fork in H0.
Qed.

(** *** Branches *)

Lemma hash_elder_rep cs ds idx off : st_rep (mkStack branchNode [] [] off cs) (TFull ds) -> wf (TFull ds) -> idx < 16 ->
  exists cs', hash_elder idx cs = Ret cs' /\ st_rep (mkStack branchNode [] [] off cs') (TFull ds) /\ forall j, idx <= j -> cs' !! j = cs !! j.
Proof.
  intros Hr Hw. induction idx as [|i IH]; intros Hi; [by exists cs|]. cbn [hash_elder].
  inversion Hr as [| | |? ? ? Hl Hl' H16 Hnil Hc|]; subst. destruct (cs !! i) as [[c|]|] eqn:Ei.
  - destruct (lookup_lt_is_Some_2 ds i) as [t Ht]; [lia|].
    assert (wf t) as Hwt. { destruct (wf_slots _ _ _ Hw Ht) as [[_ [->|]]|[? _]]; [|done|lia]. apply Hnil in Ht; [congruence|lia]. }
    destruct (rep_hash c t (Hc _ _ _ Ei Ht) Hwt) as (c' & Ec & Hr'). rewrite Ec. cbn [mbind outcome_bind]. eexists. split; [done|]. split.
    + constructor; [by rewrite length_insert|done|done|..].
      * intros j Hj. destruct (decide (i = j)) as [<-|]; [|rewrite list_lookup_insert_ne by done; by apply Hnil].
        rewrite list_lookup_insert_eq by lia. rewrite Ht. split; [done|]. intros [= ->]. by apply wf_not_nil in Hwt.
      * intros j d u. destruct (decide (i = j)) as [<-|]; [|rewrite list_lookup_insert_ne by done; by apply Hc].
        rewrite list_lookup_insert_eq by lia. intros [= <-] Hu. congruence.
    + intros j Hj. rewrite list_lookup_insert_ne by lia. done.
  - destruct (IH ltac:(lia)) as (cs' & -> & Hr' & Hj). exists cs'. split_and!; [done|done|]. intros j Hij. apply Hj. lia.
  - apply lookup_ge_None in Ei. lia.
Qed.

Lemma keys_before_child cs i c r : cs !! i = Some c -> i < 16 -> keys_before (TFull cs) (i :: r) -> keys_before c r.
Proof.
  intros Hi Hlt Hb s v Hs Hg. destruct (before_cons i s i r) as [|[_ ?]]; [|lia|done].
  apply (Hb _ v); [by constructor|]. cbn [app]. by rewrite get_full, Hi.
Qed.

(** No child right of the key's nibble. *)
Lemma keys_before_right cs i c j r : wf (TFull cs) -> cs !! i = Some c -> c <> TNil -> i < 16 -> keys_before (TFull cs) (j :: r) -> i <= j.
Proof.
  intros Hw Hi Hc Hlt Hb. destruct (wf_slots _ _ _ Hw Hi) as [[_ [->|Hwc]]|[? _]]; [done| |lia].
  destruct (wf_has_nibbles c Hwc) as (s & v & Hs & Hg). destruct (before_cons i s j r) as [|[-> _]]; [|lia|done].
  apply (Hb _ v); [by constructor|]. cbn [app]. by rewrite get_full, Hi.
Qed.

Lemma branch_set off cs ds idx c' (f : trie -> trie) t : st_rep (mkStack branchNode [] [] off cs) (TFull ds) -> idx < 16 -> ds !! idx = Some t ->
  st_rep c' (f t) -> f t <> TNil -> st_rep (mkStack branchNode [] [] off (<[idx := Some c']> cs)) (TFull (change f ds idx)).
Proof.
  intros Hr Hi Ht Hc' Hn. inversion Hr as [| | |? ? ? Hl Hl' H16 Hnil Hc|]; subst. constructor.
  - by rewrite length_insert.
  - by rewrite length_change.
  - by rewrite lookup_change, decide_False by lia.
  - intros j Hj. rewrite lookup_change. destruct (decide (idx = j)) as [<-|]; [|rewrite list_lookup_insert_ne by done; by apply Hnil].
    rewrite list_lookup_insert_eq, Ht by lia. split; [done|]. by intros [= E].
  - intros j d u. rewrite lookup_change. destruct (decide (idx = j)) as [<-|]; [|rewrite list_lookup_insert_ne by done; by apply Hc].
    rewrite list_lookup_insert_eq, Ht by lia. by intros [= <-] [= <-].
Qed.

(** The child a key goes to: the open one, or a new one. *)
Definition kid (off idx : nat) (cs : list (option StackTrie)) : StackTrie :=
  match cs !! idx with Some (Some c) => c | _ => mkStack emptyNode [] [] (S off) no_kids end.

Lemma branch_kid off cs cs1 ds idx r : st_rep (mkStack branchNode [] [] off cs) (TFull ds) -> st_rep (mkStack branchNode [] [] off cs1) (TFull ds) ->
  wf (TFull ds) -> opened (mkStack branchNode [] [] off cs) off -> (forall j, idx <= j -> cs1 !! j = cs !! j) -> idx < 16 ->
  keys_before (TFull ds) (idx :: r) -> exists t, ds !! idx = Some t /\ st_rep (kid off idx cs1) t /\ wf_root t /\ opened (kid off idx cs1) (S off) /\
    (forall j, idx < j -> j < 16 -> cs1 !! j = Some None).
Proof.
  intros Hr Hr1 Hw Hop Hj Hi Hb. inversion Hr as [| | |? ? ? Hl Hl' H16 Hnil Hc|]; subst. inversion Hr1 as [| | |? ? ? Hl1 _ _ Hnil1 Hc1|]; subst.
  inversion Hop as [| | |? ? ? ? i c Hic Hlast Hoc]; subst. destruct (lookup_lt_is_Some_2 ds idx) as [t Ht]; [lia|]. exists t. split; [done|].
  assert (i <= idx) as Hle.
  { destruct (lookup_lt_is_Some_2 ds i) as [u Hu]; [apply lookup_lt_Some in Hic; lia|]. apply lookup_lt_Some in Hic as Hi16.
    apply (keys_before_right ds i u idx r); [done|done| |lia|done]. intros ->. apply Hnil in Hu; [congruence|lia]. }
  assert (forall j, idx < j -> j < 16 -> cs1 !! j = Some None) as Hnone by (intros j ? ?; rewrite Hj by lia; apply Hlast; lia).
  unfold kid. destruct (decide (i = idx)) as [->|Hne].
  - assert (cs1 !! idx = Some (Some c)) as E by by rewrite Hj. rewrite E. split_and!; [by eapply Hc1| |done|done].
    destruct (wf_slots _ _ _ Hw Ht) as [[_ ?]|[? _]]; [done|lia].
  - assert (cs1 !! idx = Some None) as E by (rewrite Hj by lia; apply Hlast; lia). rewrite E.
    apply Hnil1 in E; [|done]. rewrite Ht in E. injection E as ->. split_and!; [constructor|by left|constructor|done].
Qed.

Lemma insert_not_nil t key v : wf_root t -> tkey key -> v <> [] -> t_insert t key v <> TNil.
Proof. intros Hw Hk Hv E. pose proof (get_insert t key v key Hw Hk Hk) as Hg. rewrite E, decide_True in Hg by done. done. Qed.

Lemma opened_ext v k off c off' : opened (mkStack extNode v k off (<[0 := Some c]> no_kids)) off' -> off' = off /\ opened c (off + length k).
Proof.
  remember (mkStack extNode v k off (<[0 := Some c]> no_kids)) as st eqn:E. destruct 1 as [| |v' k' o c' cs Ho|]; try done.
  injection E as -> -> -> Ec. split; [done|]. destruct cs; [done|]. by injection Ec as -> _.
Qed.

(** The statement of the insertion lemma, for the induction on the fuel. *)
Definition inserts (fuel : nat) : Prop := forall st t off key v, length (drop off key) < fuel -> off <= length key -> st_rep st t -> wf_root t ->
  opened st off -> Forall nibble (drop off key) -> v <> [] -> keys_before t (drop off key) ->
  inserted st t off (drop off key) v (st_insert fuel st key v).

Lemma ext_through_inserted fuel key off k c ds r v : inserts fuel -> length (drop off key) < S fuel -> off <= length key -> Forall nibble k -> k <> [] ->
  st_rep c (TFull ds) -> wf (TFull ds) -> opened c (off + length k) -> drop off key = k ++ r -> Forall nibble r -> v <> [] -> keys_before (TFull ds) r ->
  let st := mkStack extNode [] k off (<[0 := Some c]> no_kids) in
  inserted st (TShort k (TFull ds)) off (k ++ r) v (st_insert (S fuel) st key v).
Proof.
  intros IH Hf Hoff Hk Hne Hc Hw Hop Er Hr Hv Hb st.
  assert (drop (off + length k) key = r) as Er' by by rewrite <- drop_drop, Er, drop_app_length.
  assert (length (drop off key) = length k + length r) as Hlen by by rewrite Er, length_app.
  assert (off + length k <= length key) as Hoff' by (rewrite length_drop in Hlen; lia).
  assert (0 < length k) as Hk1 by (destruct k; cbn; [done|lia]).
  destruct (IH c (TFull ds) (off + length k) key v) as (c' & Ec & Hrep & Hop'); rewrite ?Er' in *; [lia|done|done|by right|done..|].
  subst st. cbn [st_insert]. rewrite Er. assert (getDiffIndex k (k ++ r) = Ret (length k)) as -> by (rewrite <- (app_nil_r k) at 1; by apply getDiffIndex_spec).
  cbn [mbind outcome_bind insert list_insert no_kids replicate deref]. rewrite Nat.eqb_refl, Ec. cbn [mbind outcome_bind].
  eexists. split; [done|]. rewrite <- app_assoc, insert_short_through by by destruct r.
  destruct (r ++ [terminator]) as [|i q] eqn:Eq; [by destruct r|]. rewrite insert_full in *. split; [by apply rep_ext|by apply (op_ext _ _ _ _ no_kids)].
Qed.

Lemma branch_inserted fuel key off cs ds idx r v : inserts fuel -> length (idx :: r) < S fuel -> st_rep (mkStack branchNode [] [] off cs) (TFull ds) ->
  wf (TFull ds) -> opened (mkStack branchNode [] [] off cs) off -> drop off key = idx :: r -> Forall nibble (idx :: r) -> v <> [] ->
  keys_before (TFull ds) (idx :: r) ->
  inserted (mkStack branchNode [] [] off cs) (TFull ds) off (idx :: r) v (st_insert (S fuel) (mkStack branchNode [] [] off cs) key v).
Proof.
  intros IH Hf Hr Hw Hop [Hidx Er]%drop_lookup_cons [Hi Hkr]%Forall_cons Hv Hb. unfold nibble in Hi.
  destruct (hash_elder_rep cs ds idx off Hr Hw Hi) as (cs1 & E1 & Hr1 & Hj).
  destruct (branch_kid off cs cs1 ds idx r Hr Hr1 Hw Hop Hj Hi Hb) as (t & Ht & Hrk & Hwt & Hok & Hnone).
  assert (S off <= length key) as Hoff' by (apply lookup_lt_Some in Hidx; lia).
  destruct (IH (kid off idx cs1) t (S off) key v) as (c' & Ec & Hrep & Hop'); rewrite ?Er in *; [cbn in Hf; lia|done..|by apply (keys_before_child ds idx)|].
  cbn [st_insert]. unfold key_at. rewrite Hidx. cbn [mbind outcome_bind deref]. rewrite (proj2 (Nat.leb_gt _ _)) by done. rewrite E1. cbn [mbind outcome_bind].
  fold (kid off idx cs1). rewrite Ec. cbn [mbind outcome_bind]. eexists. split; [done|]. cbn [app]. rewrite insert_full. split.
  - apply (branch_set _ _ _ _ _ (fun c => t_insert c (r ++ [terminator]) v) t); [done..|]. apply insert_not_nil; [done|by apply tkey_snoc|done].
  - apply (op_branch _ _ _ _ idx c'); [rewrite list_lookup_insert_eq; [done|inversion Hr1; lia]| |done].
    intros j ? ?. rewrite list_lookup_insert_ne by lia. by apply Hnone.
Qed.

(** Insertion of a key that comes after all keys is insertion into the tree. *)
Lemma st_insert_rep fuel : inserts fuel.
Proof.
  induction fuel as [|fuel IH]; intros st t off key v Hf Hoff Hr Hw Hop Hk Hv Hb; [lia|].
  destruct Hr as [off'|k v0 off' Hk0|k off' c ds Hk0 Hne Hc|off' cs ds Hl Hl' H16 Hnil Hc|v0 off' cs t Hv0 Hwt].
  - inversion Hop; subst. cbn [st_insert]. rewrite (proj2 (Nat.ltb_ge _ _)) by done. eexists. split; [done|].
    rewrite insert_nil by by destruct (drop _ _). split; [by apply rep_leaf|constructor].
  - inversion Hop; subst. destruct Hw as [|Hw]; [done|]. assert (v0 <> []) as Hv0 by (inversion Hw; by subst).
    apply leaf_inserted; [done..|]. apply (Hb k v0 Hk0). rewrite get_leaf by by apply tkey_snoc. by rewrite decide_True.
  - apply opened_ext in Hop as [-> Hop]. assert (wf (TFull ds)) as Hwc by (destruct Hw as [|Hw]; [done|]; inversion Hw; by subst).
    destruct (ext_cases k ds _ Hk0 Hwc Hb) as [(r & Er & Hbr)|(p & x & a & y & b & -> & Er & Hxy)].
    + rewrite Er in Hk |- *. apply Forall_app in Hk as [_ Hkr]. by apply ext_through_inserted.
    + rewrite Er in *. by apply ext_fork_inserted.
  - assert (off' = off) as -> by by inversion Hop. destruct Hw as [|Hw]; [done|]. assert (st_rep (mkStack branchNode [] [] off cs) (TFull ds)) as Hr by by constructor.
    destruct (drop off key) as [|idx r] eqn:Er; [destruct (wf_has_nibbles _ Hw) as (s & u & Hs & Hg); by destruct (before_nil s (Hb s u Hs Hg))|].
    by apply branch_inserted.
  - inversion Hop.
Qed.

(** ** Keys of bytes, in increasing order *)

Definition byte_before (k k' : bytes) : Prop := exists p x a y b, k = p ++ x :: a /\ k' = p ++ y :: b /\ nat_of_byte x < nat_of_byte y.

Lemma hex_bytes_app a b : hex_bytes (a ++ b) = hex_bytes a ++ hex_bytes b.
Proof. apply flat_map_app. Qed.

Lemma hex_before k k' : byte_before k k' -> before (hex_bytes k) (hex_bytes k').
Proof.
  intros (p & x & a & y & b & -> & -> & Hlt). rewrite !hex_bytes_app. cbn [hex_bytes flat_map app].
  pose proof (Nat.div_mod_eq (nat_of_byte x) 16). pose proof (Nat.div_mod_eq (nat_of_byte y) 16).
  pose proof (Nat.mod_upper_bound (nat_of_byte x) 16). pose proof (Nat.mod_upper_bound (nat_of_byte y) 16).
  destruct (decide (nat_of_byte x / 16 = nat_of_byte y / 16)) as [E|Hne].
  - rewrite E. eexists (hex_bytes p ++ [_]), _, _, _, _. rewrite <- !app_assoc. split_and!; [done|done|lia].
  - eexists (hex_bytes p), _, _, _, _. split_and!; [done|done|lia].
Qed.

(** The updates of a stack trie, and of the tree. *)
Definition stack_updates (l : list (bytes * bytes)) (st : StackTrie) : outcome StackTrie :=
  foldl (fun r kv => st ← r; st_TryUpdate kv.1 kv.2 st) (Ret st) l.

Definition tree_updates (l : list (bytes * bytes)) (t : trie) : trie := foldl (fun t kv => t_insert t (keybytesToHex kv.1) kv.2) t l.

Definition increasing (l : list (bytes * bytes)) : Prop := StronglySorted byte_before l.*1.

Lemma st_TryUpdate_rep st t key v : st_rep st t -> wf_root t -> opened st 0 -> v <> [] -> keys_before t (hex_bytes key) ->
  exists st', st_TryUpdate key v st = Ret st' /\ st_rep st' (t_insert t (keybytesToHex key) v) /\ opened st' 0.
Proof.
  intros Hr Hw Hop Hv Hb. unfold st_TryUpdate. destruct v as [|b v]; [done|]. rewrite keybytesToHex_eq, removelast_snoc.
  apply (st_insert_rep (length (hex_bytes key ++ [terminator])) st t 0 (hex_bytes key) (b :: v)); rewrite ?drop_0; try done.
  - rewrite length_app. cbn. lia.
  - lia.
  - apply hex_bytes_nibbles.
Qed.

Lemma tree_updates_wf l t : wf_root t -> Forall (fun kv => kv.2 <> []) l -> wf_root (tree_updates l t).
Proof.
  revert t. induction l as [|[k v] l IH]; intros t Hw Hl; [done|]. apply Forall_cons in Hl as [Hv Hl].
  apply IH; [|done]. apply wf_insert; [done|apply tkey_hex|done].
Qed.

Lemma keys_before_insert t k v r : wf_root t -> keys_before t r -> before (hex_bytes k) r -> keys_before (t_insert t (keybytesToHex k) v) r.
Proof.
  intros Hw Hb Hk s u Hs Hg. rewrite get_insert in Hg by (done || apply tkey_hex || by apply tkey_snoc).
  destruct (decide _) as [E|]; [|by apply (Hb s u)]. rewrite keybytesToHex_eq in E. by apply app_inj_tail in E as [<- _].
Qed.

(** Updates in increasing order are the updates of the tree. *)
Lemma stack_updates_rep l st t : st_rep st t -> wf_root t -> opened st 0 -> increasing l -> Forall (fun kv => kv.2 <> []) l ->
  (forall kv, kv ∈ l -> keys_before t (hex_bytes kv.1)) ->
  exists st', stack_updates l st = Ret st' /\ st_rep st' (tree_updates l t) /\ opened st' 0.
Proof.
  revert st t. induction l as [|[k v] l IH]; intros st t Hr Hw Hop Hs Hv Hb; [by exists st|].
  apply Forall_cons in Hv as [Hv Hl]. apply StronglySorted_inv in Hs as [Hs Hlt].
  destruct (st_TryUpdate_rep st t k v Hr Hw Hop Hv (Hb (k, v) ltac:(apply elem_of_cons; by left))) as (st1 & E1 & Hr1 & Hop1).
  unfold stack_updates. cbn [foldl mbind outcome_bind fst snd]. rewrite E1. apply (IH st1); try done.
  - apply wf_insert; [done|apply tkey_hex|done].
  - intros kv Hin. apply keys_before_insert; [done|apply Hb; apply elem_of_cons; by right|]. apply hex_before.
    rewrite Forall_forall in Hlt. apply Hlt, list_elem_of_fmap. by exists kv.
Qed.

Lemma hash_root st t : st_rep st t -> wf_root t -> st_Hash st = Ret (BytesToHash (t_hash t)).
Proof.
  intros Hr [->|Hw].
  - inversion Hr as [| | | |? ? ? ? ? Hw]; subst; [done|inversion Hw].
  - destruct (hash_rep st t Hr (wf_not_nil t Hw)) as (st' & E & _ & Hv & _). unfold st_Hash. rewrite E. cbn [mbind outcome_bind]. do 2 f_equal.
    rewrite Hv. assert (t_hash t = keccak256 (encode (t_item t))) as -> by by destruct Hw. unfold t_val.
    destruct (Nat.ltb_spec (length (encode (t_item t))) 32) as [Hlt|Hge].
    + by rewrite (proj2 (Nat.eqb_neq _ 32)) by lia.
    + by rewrite length_digest.
Qed.

(** The root of a stack trie is the root of the tree with the same contents. *)
Lemma stack_root l : increasing l -> Forall (fun kv => kv.2 <> []) l ->
  exists st, stack_updates l NewStackTrie = Ret st /\ st_Hash st = Ret (BytesToHash (t_hash (tree_updates l TNil))).
Proof.
  intros Hs Hv. destruct (stack_updates_rep l NewStackTrie TNil) as (st & E & Hr & _); [constructor|by left|constructor|done|done|done|].
  exists st. split; [done|]. apply hash_root; [done|]. apply tree_updates_wf; [by left|done].
Qed.

End StackTrie.
