(* ===== verification/Derive.v ===== *)
(** * The root of a list ([core/types/hashing.go])

    [DeriveSha] computes the root hash of a list of transactions or receipts
    with a stack trie: element [i] is stored under the RLP encoding of [i], in
    the one order in which these keys increase.  The result is the root of the
    tree with the elements inserted in the order of the list, the computation
    never panics, and without a collision equal roots mean equal lists. *)
From Stdlib Require Import ZArith Lia Strings.Byte Sorting.Sorted.
From stdpp Require Import base option list sorting.
From S2P Require Import Prelude Errors Rlp Nibbles Patricia Common Merkle StackTrie.
Open Scope nat_scope.

(** [rlp.AppendUint64] onto an empty buffer *)
Definition AppendUint64 (i : Z) : bytes :=
  let b n := byte_of_Z (Z.shiftr i n) in
  if (i =? 0)%Z then [byte_of_Z 0x80]
  else if (i <? 128)%Z then [b 0%Z]
  else if (i <? Z.shiftl 1 8)%Z then [byte_of_Z 0x81; b 0%Z]
  else if (i <? Z.shiftl 1 16)%Z then [byte_of_Z 0x82; b 8%Z; b 0%Z]
  else if (i <? Z.shiftl 1 24)%Z then [byte_of_Z 0x83; b 16%Z; b 8%Z; b 0%Z]
  else if (i <? Z.shiftl 1 32)%Z then [byte_of_Z 0x84; b 24%Z; b 16%Z; b 8%Z; b 0%Z]
  else if (i <? Z.shiftl 1 40)%Z then [byte_of_Z 0x85; b 32%Z; b 24%Z; b 16%Z; b 8%Z; b 0%Z]
  else if (i <? Z.shiftl 1 48)%Z then [byte_of_Z 0x86; b 40%Z; b 32%Z; b 24%Z; b 16%Z; b 8%Z; b 0%Z]
  else if (i <? Z.shiftl 1 56)%Z then [byte_of_Z 0x87; b 48%Z; b 40%Z; b 32%Z; b 24%Z; b 16%Z; b 8%Z; b 0%Z]
  else [byte_of_Z 0x88; b 56%Z; b 48%Z; b 40%Z; b 32%Z; b 24%Z; b 16%Z; b 8%Z; b 0%Z].

Lemma AppendUint64_eq i : AppendUint64 i = encodeUint i.
Proof.
  unfold AppendUint64, encodeUint, putint. rewrite !Z.shiftr_0_r, !Z.shiftr_div_pow2 by lia.
  repeat case_match; try done; cbn [be_fixed app]; rewrite ?Z.div_div by lia; reflexivity.
Qed.

Section Derive.
Context `{Keccak}.

(** The indices in the order of the three loops. *)
Definition derive_order (n : nat) : list nat :=
  seq 1 (Nat.min n 0x80 - 1) ++ (if 0 <? n then [0] else []) ++ seq 0x80 (n - 0x80).

(** The updates for the values [encodeForDerive] gives. *)
Definition derive_update (l : list bytes) (i : nat) : bytes * bytes := (AppendUint64 (Z.of_nat i), nth i l []).

(** [DeriveSha], for the elements encoded with [EncodeIndex] *)
Definition derive_sha (l : list bytes) : outcome Hash :=
  st ← stack_updates (map (derive_update l) (derive_order (length l))) NewStackTrie;
  st_Hash st.

(** ** The keys increase *)

Lemma byte_before_app p k k' : byte_before k k' -> byte_before (p ++ k) (p ++ k').
Proof. intros (q & x & a & y & b & -> & -> & Hlt). exists (p ++ q), x, a, y, b. by rewrite !app_assoc. Qed.

Lemma byte_before_tail k k' a b : byte_before k k' -> byte_before (k ++ a) (k' ++ b).
Proof. intros (q & x & u & y & w & -> & -> & Hlt). exists q, x, (u ++ a), y, (w ++ b). by rewrite <- !app_assoc. Qed.

Lemma byte_before_hd x y a b : (Z_of_byte x < Z_of_byte y)%Z -> byte_before (x :: a) (y :: b).
Proof. intros Hlt. exists [], x, a, y, b. split_and!; [done|done|]. unfold nat_of_byte. pose proof (Z_of_byte_range x). lia. Qed.

Lemma be_fixed_before n : forall a b, (0 <= a < b)%Z -> (b < 256 ^ Z.of_nat n)%Z -> byte_before (be_fixed n a) (be_fixed n b).
Proof.
  induction n as [|n IH]; intros a b Hab Hb; [cbn in Hb; lia|]. cbn [be_fixed]. rewrite Nat2Z.inj_succ, Z.pow_succ_r in Hb by lia.
  pose proof (Z.div_mod a 256). pose proof (Z.div_mod b 256). pose proof (Z.mod_pos_bound a 256). pose proof (Z.mod_pos_bound b 256).
  destruct (Z.lt_trichotomy (a / 256) (b / 256)) as [Hlt|[E|Hgt]]; [| |lia].
  - apply byte_before_tail, IH; [|apply Z.div_lt_upper_bound; lia]. split; [apply Z.div_pos; lia|done].
  - rewrite E. apply byte_before_app, byte_before_hd. rewrite !Z_of_byte_of_Z. lia.
Qed.

Lemma encodeUint_small i : (0 < i < 128)%Z -> encodeUint i = [byte_of_Z i].
Proof. intros Hi. unfold encodeUint. rewrite (proj2 (Z.eqb_neq _ _)), (proj2 (Z.ltb_lt _ _)) by lia. done. Qed.

Lemma encodeUint_large i : (128 <= i < 2 ^ 64)%Z -> exists n, 1 <= n <= 8 /\ encodeUint i = byte_of_Z (128 + Z.of_nat n) :: be_fixed n i /\
  (i < 256 ^ Z.of_nat n)%Z /\ (n = 1 \/ (256 ^ (Z.of_nat n - 1) <= i)%Z).
Proof.
  intros Hi. unfold encodeUint. rewrite (proj2 (Z.eqb_neq _ _)), (proj2 (Z.ltb_ge _ _)) by lia.
  destruct (putint_spec i ltac:(lia)) as (n & Hn & E & Hlt & Hge). exists n. split; [done|]. rewrite E. unfold zlen. by rewrite length_be_fixed.
Qed.

Lemma encodeUint_large_before i j : (128 <= i < j)%Z -> (j < 2 ^ 64)%Z -> byte_before (encodeUint i) (encodeUint j).
Proof.
  intros Hij Hj. destruct (encodeUint_large i) as (n & Hn & -> & _ & Hni); [lia|]. destruct (encodeUint_large j) as (m & Hm & -> & Hjm & _); [lia|].
  assert (n <= m) as Hle.
  { destruct (Nat.le_gt_cases n m) as [|Hgt]; [done|]. exfalso. destruct Hni as [->|Hni]; [lia|].
    pose proof (Z.pow_le_mono_r 256 (Z.of_nat m) (Z.of_nat n - 1) ltac:(lia) ltac:(lia)). lia. }
  destruct (decide (n = m)) as [->|Hne].
  - apply (byte_before_app [_]). apply be_fixed_before; lia.
  - apply byte_before_hd. rewrite !Z_of_byte_of_Z, !Z.mod_small by lia. lia.
Qed.

Lemma sorted_seq {A} (R : A -> A -> Prop) (f : nat -> A) n a : (forall i j, a <= i -> i < j -> j < a + n -> R (f i) (f j)) -> StronglySorted R (map f (seq a n)).
Proof.
  revert a. induction n as [|n IH]; intros a HR; cbn [seq map]; [constructor|]. constructor.
  - apply IH. intros i j ? ? ?. apply HR; lia.
  - apply Forall_forall. intros x (j & -> & Hj)%list_elem_of_fmap. apply elem_of_seq in Hj. apply HR; lia.
Qed.

Definition index_key (i : nat) : bytes := encodeUint (Z.of_nat i).

Lemma derive_order_sorted n : (Z.of_nat n < 2 ^ 64)%Z -> StronglySorted byte_before (map index_key (derive_order n)).
Proof.
  intros Hn. unfold derive_order. rewrite !map_app. apply StronglySorted_app_2; [| |apply StronglySorted_app_2].
  - intros x y (i & -> & Hi)%list_elem_of_fmap Hy. apply elem_of_seq in Hi. unfold index_key at 1. rewrite encodeUint_small by lia.
    apply elem_of_app in Hy as [Hy|Hy].
    + destruct (0 <? n); [|by apply not_elem_of_nil in Hy]. apply list_elem_of_singleton in Hy as ->. apply byte_before_hd.
      rewrite !Z_of_byte_of_Z, !Z.mod_small by lia. lia.
    + apply list_elem_of_fmap in Hy as (j & -> & Hj). apply elem_of_seq in Hj. destruct (encodeUint_large (Z.of_nat j)) as (m & Hm & E & _); [lia|].
      unfold index_key. rewrite E. apply byte_before_hd. rewrite !Z_of_byte_of_Z, !Z.mod_small by lia. lia.
  - apply sorted_seq. intros i j ? ? ?. unfold index_key. rewrite !encodeUint_small by lia. apply byte_before_hd. rewrite !Z_of_byte_of_Z, !Z.mod_small by lia. lia.
  - intros x y Hx (j & -> & Hj)%list_elem_of_fmap. apply elem_of_seq in Hj. destruct (0 <? n); [|by apply not_elem_of_nil in Hx].
    apply list_elem_of_singleton in Hx as ->. destruct (encodeUint_large (Z.of_nat j)) as (m & Hm & E & _); [lia|].
    unfold index_key. rewrite E. apply byte_before_hd. rewrite !Z_of_byte_of_Z, !Z.mod_small by lia. lia.
  - destruct (0 <? n); repeat constructor.
  - apply sorted_seq. intros i j ? ? ?. apply encodeUint_large_before; lia.
Qed.

Lemma derive_order_perm n : derive_order n ≡ₚ seq 0 n.
Proof.
  unfold derive_order. destruct (Nat.ltb_spec 0 n) as [Hn|Hn]; [|by replace n with 0 by lia].
  rewrite app_assoc, (Permutation_app_comm (seq 1 _) [0]). 
  assert ([0] ++ seq 1 (Nat.min n 128 - 1) = seq 0 (Nat.min n 128)) as -> by (replace (Nat.min n 128) with (S (Nat.min n 128 - 1)) at 2 by lia; done).
  destruct (Nat.le_gt_cases n 128).
  - replace (n - 128) with 0 by lia. rewrite Nat.min_l by lia. change (seq 128 0) with (@nil nat). by rewrite app_nil_r.
  - rewrite Nat.min_r by lia. replace n with (128 + (n - 128)) at 2 by lia. by rewrite (seq_app 128 (n - 128) 0).
Qed.

(** ** The tree of a list *)

(** The updates in the order of the list. *)
Definition index_updates (l : list bytes) : list (bytes * bytes) := map (fun i => (index_key i, nth i l [])) (seq 0 (length l)).

Definition index_tree (l : list bytes) : trie := tree_updates (index_updates l) TNil.

Lemma keybytesToHex_inj a b : keybytesToHex a = keybytesToHex b -> a = b.
Proof. rewrite !keybytesToHex_eq. intros E. apply hex_bytes_inj. by apply app_inj_tail in E as [-> _]. Qed.

Lemma get_updates l t q v : wf_root t -> Forall (fun kv => kv.2 <> []) l -> NoDup l.*1 -> tkey q ->
  t_get (tree_updates l t) q = Some v <-> (exists k, (k, v) ∈ l /\ q = keybytesToHex k) \/ (t_get t q = Some v /\ forall k, k ∈ l.*1 -> q <> keybytesToHex k).
Proof.
  intros Hw Hv Hnd Hq. revert t Hw Hv Hnd. induction l as [|[k u] l IH]; intros t Hw Hv Hnd; cbn [tree_updates foldl].
  - split; [intros Hg; right; split; [done|]; intros k Hk; by apply not_elem_of_nil in Hk|].
    intros [(k & Hk & _)|[Hg _]]; [by apply not_elem_of_nil in Hk|done].
  - apply Forall_cons in Hv as [Hu Hv]. cbn [fmap list_fmap fst] in Hnd. apply NoDup_cons in Hnd as [Hk Hnd].
    change (foldl _ ?a l) with (tree_updates l a). rewrite IH; [|by apply wf_insert; [|apply tkey_hex|]|done|done].
    cbn [fst snd]. rewrite get_insert by (done || apply tkey_hex). setoid_rewrite elem_of_cons. split.
    + intros [(k' & Hin & ->)|[Hg Hno]]; [left; by exists k'; auto|]. destruct (decide (keybytesToHex k = q)) as [<-|Hne].
      * injection Hg as ->. left. exists k. auto.
      * right. split; [done|]. intros k' [->|Hk']; [done|by apply Hno].
    + intros [(k' & [[= -> ->]|Hin] & ->)|[Hg Hno]].
      * right. rewrite decide_True by done. split; [done|]. intros k' Hk' E%keybytesToHex_inj. by subst.
      * left. by exists k'.
      * right. rewrite decide_False by (intros <-; by apply (Hno k); [left|]). split; [done|]. intros k' Hk'. apply Hno. by right.
Qed.

(** The tree does not depend on the order of the updates. *)
Lemma updates_perm l l' : l ≡ₚ l' -> NoDup l.*1 -> Forall (fun kv => kv.2 <> []) l -> tree_updates l TNil = tree_updates l' TNil.
Proof.
  intros Hp Hnd Hv. assert (Forall (fun kv : bytes * bytes => kv.2 <> []) l') as Hv' by by rewrite <- Hp. assert (NoDup l'.*1) as Hnd' by by rewrite <- Hp.
  apply canonical; [by apply tree_updates_wf; [left|]|by apply tree_updates_wf; [left|]|].
  intros q Hq. apply option_eq. intros v. rewrite !get_updates by (done || by left). by setoid_rewrite Hp.
Qed.

Lemma byte_before_irrefl k : ~ byte_before k k.
Proof. intros (p & x & a & y & b & -> & E & Hlt). apply app_inv_head in E. injection E as -> _. lia. Qed.

Lemma index_keys_nodup n : (Z.of_nat n < 2 ^ 64)%Z -> NoDup (map index_key (seq 0 n)).
Proof.
  intros Hn. rewrite <- derive_order_perm. pose proof (derive_order_sorted n Hn) as Hs. induction Hs as [|k l Hs IH Hk]; constructor; [|done].
  intros Hin. rewrite Forall_forall in Hk. by apply (byte_before_irrefl k), Hk.
Qed.

Lemma index_key_inj i j : (Z.of_nat i < 2 ^ 63)%Z -> (Z.of_nat j < 2 ^ 63)%Z -> index_key i = index_key j -> i = j.
Proof.
  intros Hi Hj E. pose proof (index_keys_nodup (S (Nat.max i j)) ltac:(lia)) as Hnd. rewrite NoDup_alt in Hnd.
  apply (Hnd i j (index_key i)); [|rewrite E]; rewrite list_lookup_fmap, lookup_seq_lt by lia; done.
Qed.

Definition encoded (l : list bytes) : Prop := Forall (fun v => v <> []) l /\ (zlen l < 2 ^ 63)%Z.

Lemma elem_index_updates l k v : (k, v) ∈ index_updates l <-> exists i, l !! i = Some v /\ k = index_key i.
Proof.
  unfold index_updates. rewrite list_elem_of_fmap. setoid_rewrite elem_of_seq. split.
  - intros (i & [= -> ->] & Hi). exists i. split; [|done]. destruct (lookup_lt_is_Some_2 l i) as [x Hx]; [lia|]. by rewrite nth_lookup, Hx.
  - intros (i & Hi & ->). exists i. split; [by rewrite nth_lookup, Hi|]. apply lookup_lt_Some in Hi. lia.
Qed.

Lemma index_updates_keys l : (index_updates l).*1 = map index_key (seq 0 (length l)).
Proof. unfold index_updates. rewrite <- list_fmap_compose. done. Qed.

Lemma index_updates_values l : encoded l -> Forall (fun kv => kv.2 <> []) (index_updates l).
Proof. intros [Hl _]. apply Forall_forall. intros [k v] (i & Hi & _)%elem_index_updates. by eapply Forall_lookup_1 in Hl. Qed.

Lemma index_updates_nodup l : encoded l -> NoDup (index_updates l).*1.
Proof. intros [_ Hl]. rewrite index_updates_keys. apply index_keys_nodup. unfold zlen in Hl. lia. Qed.

Lemma index_tree_wf l : encoded l -> wf_root (index_tree l).
Proof. intros Hl. apply tree_updates_wf; [by left|by apply index_updates_values]. Qed.

(** What the tree of a list holds. *)
Lemma get_index_tree l q v : encoded l -> tkey q -> t_get (index_tree l) q = Some v <-> exists i, l !! i = Some v /\ q = keybytesToHex (index_key i).
Proof.
  intros Hl Hq. unfold index_tree. rewrite get_updates; [|by left|by apply index_updates_values|by apply index_updates_nodup|done].
  setoid_rewrite elem_index_updates. split.
  - intros [(k & (i & Hi & ->) & ->)|[Hg _]]; [eauto|done].
  - intros (i & Hi & ->). left. eauto.
Qed.

(** The stack trie computes the root of the tree. *)
Lemma derive_sha_root l : encoded l -> derive_sha l = Ret (BytesToHash (t_hash (index_tree l))).
Proof.
  intros Hl. unfold derive_sha.
  assert (map (derive_update l) (derive_order (length l)) ≡ₚ index_updates l) as Hp.
  { rewrite derive_order_perm. unfold derive_update, index_updates, index_key. erewrite map_ext; [done|]. intros i. by rewrite AppendUint64_eq. }
  destruct (stack_root (map (derive_update l) (derive_order (length l)))) as (st & -> & E).
  - unfold increasing. rewrite <- list_fmap_compose.
    pose proof (derive_order_sorted (length l)) as Hs. destruct Hl as [_ Hl]. unfold zlen in Hl. 
    assert ((fst ∘ derive_update l) <$> derive_order (length l) = map index_key (derive_order (length l))) as ->; [|apply Hs; lia].
    apply list_fmap_ext. intros _ i _. cbn. by rewrite AppendUint64_eq.
  - rewrite Hp. by apply index_updates_values.
  - cbn [mbind outcome_bind]. rewrite E. do 3 f_equal. apply updates_perm; [done| |].
    + rewrite Hp. by apply index_updates_nodup.
    + rewrite Hp. by apply index_updates_values.
Qed.

Lemma length_t_hash t : length (t_hash t) = 32.
Proof. destruct t; [done|apply length_digest..]. Qed.

Lemma BytesToHash_inj a b : length a = 32 -> length b = 32 -> BytesToHash a = BytesToHash b -> a = b.
Proof.
  intros Ha Hb. unfold BytesToHash, HashLength. rewrite Ha, Hb. cbn [Nat.sub]. rewrite !drop_0. intros E%(f_equal (be_fixed 32)).
  rewrite <- Ha in E at 1. rewrite <- Hb in E. by rewrite !be_fixed_value in E.
Qed.

(** Two lists with the same tree are the same list. *)
Lemma index_tree_inj l l' : encoded l -> encoded l' -> index_tree l = index_tree l' -> l = l'.
Proof.
  assert (forall l l' i v, encoded l -> encoded l' -> index_tree l = index_tree l' -> l !! i = Some v -> l' !! i = Some v) as Hsub.
  { intros k k' i v Hk Hk' E Hi. assert (t_get (index_tree k) (keybytesToHex (index_key i)) = Some v) as Hg by (apply get_index_tree; [done|apply tkey_hex|eauto]).
    rewrite E in Hg. apply get_index_tree in Hg as (j & Hj & Ej); [|done|apply tkey_hex]. apply keybytesToHex_inj, index_key_inj in Ej; [by subst|..].
    - apply lookup_lt_Some in Hi. destruct Hk as [_ Hk]. unfold zlen in Hk. lia.
    - apply lookup_lt_Some in Hj. destruct Hk' as [_ Hk']. unfold zlen in Hk'. lia. }
  intros Hl Hl' E. apply list_eq. intros i. apply option_eq. intros v. split; by apply Hsub.
Qed.

End Derive.
