(* ===== verification/TrieNode.v ===== *)
(** * Nodes of a trie and their hashes ([trie/node.go], [trie/hasher.go])

    A node in memory caches its hash and knows whether it still has to be
    written; a node that is not loaded is the hash of its encoding.
    [decodeNode] reads a node back from its encoding, [n_hash] is the hasher:
    it fills the caches and yields what stands for the node in its parent.

    [n_rep] relates a node to the tree of [Patricia] it stands for, given a
    store of encodings: the caches are those of the tree, and what is not
    loaded can be loaded. *)
From Stdlib Require Import ZArith Lia Strings.Byte.
From stdpp Require Import base option strings gmap list.
From S2P Require Import Prelude Errors Rlp Nibbles Patricia Common Merkle.
Open Scope nat_scope.

Record nodeFlag := mkFlag {
  nf_hash : option bytes;
  nf_dirty : bool
}.

(** The interface [node], with nil. *)
Inductive node : Type :=
| NilNode
| HashNode (h : bytes)
| ValueNode (v : bytes)
| ShortNode (key : list nat) (val : node) (flags : nodeFlag)
| FullNode (children : list node) (flags : nodeFlag).

(** [cache] *)
Definition n_cache (n : node) : option bytes * bool :=
  match n with
  | ShortNode _ _ fl | FullNode _ fl => (nf_hash fl, nf_dirty fl)
  | _ => (None, true)
  end.

(** [EncodeRLP]: the keys of the nodes that are encoded are byte strings; nil
    children of a full node are empty strings. *)
Definition kid_item (f : node -> item) (n : node) : item := match n with NilNode => Str [] | _ => f n end.

Fixpoint n_item (n : node) : item :=
  match n with
  | NilNode => Lst []
  | HashNode h => Str h
  | ValueNode v => Str v
  | ShortNode k c _ => Lst [Str (byte_of_nat <$> k); n_item c]
  | FullNode cs _ => Lst (map (fun c => match c with NilNode => Str [] | _ => n_item c end) cs)
  end.

(** ** Decoding *)

(** [rlp.CountValues]; every value takes a byte or more. *)
Fixpoint count_values (fuel : nat) (b : bytes) : outcome nat :=
  match b, fuel with
  | [], _ => Ret 0
  | _, O => Panic
  | _, S f => '(_, tagsize, size) ← readKind b; n ← count_values f (drop (Z.to_nat (tagsize + size)) b); Ret (S n)
  end.

Definition CountValues (b : bytes) : outcome nat := count_values (length b) b.

(** [decodeRef], with the decoder of an embedded node. *)
Definition decodeRef (dec : bytes -> outcome node) (buf : bytes) : outcome (node * bytes) :=
  '(kind, val, rest) ← Split buf;
  match kind with
  | KList =>
      if 32 <? length buf - length rest then Err (ErrFmt "oversized embedded node (size is %d bytes, want size < %d)")
      else n ← dec buf; Ret (n, rest)
  | KString =>
      if length val =? 0 then Ret (NilNode, rest)
      else if length val =? 32 then Ret (HashNode val, rest)
      else Err (ErrFmt "invalid RLP string size %d (want 0 or 32)")
  | KByte => Err (ErrFmt "invalid RLP string size %d (want 0 or 32)")
  end.

Definition decodeShort (dec : bytes -> outcome node) (hash : option bytes) (elems : bytes) : outcome node :=
  '(kbuf, rest) ← SplitString elems;
  let flag := mkFlag hash false in
  let key := compactToHex kbuf in
  if hasTerm key then
    '(val, _) ← on_err (SplitString rest) (ErrFmt "invalid value node: %v");
    Ret (ShortNode key (ValueNode val) flag)
  else
    '(r, _) ← decodeRef dec rest;
    Ret (ShortNode key r flag).

(** The children before the value, one after another. *)
Fixpoint decode_refs (dec : bytes -> outcome node) (i : nat) (elems : bytes) : outcome (list node * bytes) :=
  match i with
  | O => Ret ([], elems)
  | S i' => '(cld, rest) ← decodeRef dec elems; '(cs, rest') ← decode_refs dec i' rest; Ret (cld :: cs, rest')
  end.

Definition decodeFull (dec : bytes -> outcome node) (hash : option bytes) (elems : bytes) : outcome node :=
  '(cs, rest) ← decode_refs dec 16 elems;
  '(val, _) ← SplitString rest;
  Ret (FullNode (cs ++ [if 0 <? length val then ValueNode val else NilNode]) (mkFlag hash false)).

(** [decodeNode]; an embedded node is shorter than the one it is part of, so
    the length of the buffer is fuel enough.  The decode path [wrapError]
    adds to an error is not kept. *)
Fixpoint decodeNode (fuel : nat) (hash : option bytes) (buf : bytes) : outcome node :=
  match buf, fuel with
  | [], _ => Err ErrUnexpectedEOF
  | _, O => Panic
  | _, S f =>
      '(elems, _) ← SplitList buf;
      let c := match CountValues elems with Ret c => c | _ => 0 end in
      if c =? 2 then decodeShort (decodeNode f None) hash elems
      else if c =? 17 then decodeFull (decodeNode f None) hash elems
      else Err (ErrFmt "invalid number of list elements: %v")
  end.

Definition mustDecodeNode (hash : bytes) (buf : bytes) : outcome node :=
  match decodeNode (length buf) (Some hash) buf with Ret n => Ret n | _ => Panic end.

(** ** Hashing *)

Section Hasher.
Context `{Keccak}.

Definition set_hash (h : option bytes) (fl : nodeFlag) : nodeFlag := mkFlag h (nf_dirty fl).

(** [shortnodeToHash] and [fullnodeToHash] *)
Definition toHash (collapsed : node) (force : bool) : node :=
  let enc := encode (n_item collapsed) in
  if (length enc <? 32) && negb force then collapsed else HashNode (keccak256 enc).

Definition hash_of (hashed : node) : option bytes := match hashed with HashNode h => Some h | _ => None end.

(** [hash]: the collapsed or hashed node, and the node with the hash cached. *)
Fixpoint n_hash (n : node) (force : bool) : node * node :=
  match n with
  | ShortNode k c fl =>
      match nf_hash fl with
      | Some h => (HashNode h, n)
      | None =>
          let '(cv, cc) := match c with ShortNode _ _ _ | FullNode _ _ => n_hash c false | _ => (c, c) end in
          let hashed := toHash (ShortNode (nat_of_byte <$> hexToCompact k) cv fl) force in
          (hashed, ShortNode k cc (set_hash (hash_of hashed) fl))
      end
  | FullNode cs fl =>
      match nf_hash fl with
      | Some h => (HashNode h, n)
      | None =>
          let kids := (fix go (i : nat) (cs : list node) : list (node * node) :=
                         match cs with
                         | [] => []
                         | c :: cs' =>
                             (if i =? 16 then (c, c)
                              else match c with NilNode => (ValueNode [], NilNode) | _ => n_hash c false end) :: go (S i) cs'
                         end) 0 cs in
          let hashed := toHash (FullNode (map fst kids) fl) force in
          (hashed, FullNode (map snd kids) (set_hash (hash_of hashed) fl))
      end
  | _ => (n, n)
  end.

(** A child of a full node, hashed. *)
Definition hash_kid (i : nat) (c : node) : node * node :=
  if i =? 16 then (c, c) else match c with NilNode => (ValueNode [], NilNode) | _ => n_hash c false end.

Lemma n_hash_full cs fl force : nf_hash fl = None ->
  n_hash (FullNode cs fl) force =
  let kids := imap hash_kid cs in
  let hashed := toHash (FullNode (map fst kids) fl) force in
  (hashed, FullNode (map snd kids) (set_hash (hash_of hashed) fl)).
Proof.
  intros E. cbn [n_hash]. rewrite E.
  assert (forall i cs, (fix go (i : nat) (cs : list node) : list (node * node) :=
    match cs with
    | [] => []
    | c :: cs' => (if i =? 16 then (c, c) else match c with NilNode => (ValueNode [], NilNode) | _ => n_hash c false end) :: go (S i) cs'
    end) i cs = imap (fun j => hash_kid (i + j)) cs) as Hgo.
  { clear. intros i cs. revert i. induction cs as [|c cs IH]; intros i; [done|]. cbn [imap]. rewrite Nat.add_0_r. f_equal.
    rewrite IH. apply imap_ext. intros j x _. cbn. f_equal. lia. }
  by rewrite Hgo.
Qed.

(** ** The tree a node stands for *)

Section Rep.
Context (db : gmap Hash bytes).

(** The encodings that are not embedded are in the store. *)
Definition stored (t : trie) : Prop := forall e, e ∈ t_data t -> 32 <= length e -> db !! Keccak256Hash e = Some e.

Definition t_enc (t : trie) : bytes := encode (t_item t).

(** The hash of the root is cached and kept however short its encoding is. *)
Definition big (root : bool) (t : trie) : Prop := root = true \/ 32 <= length (t_enc t).

Record flag_ok (root : bool) (fl : nodeFlag) (t : trie) : Prop := {
  fo_hash h : nf_hash fl = Some h -> h = keccak256 (t_enc t) /\ big root t;
  fo_clean : nf_dirty fl = false -> stored t /\ data_small t /\ (big root t -> db !! Keccak256Hash (t_enc t) = Some (t_enc t))
}.

(** In a settled node every hash is cached that is not embedded. *)
Definition settled_flag (root settled : bool) (fl : nodeFlag) (t : trie) : Prop := settled = true -> nf_hash fl = None -> ~ big root t.

Definition cached (fl : nodeFlag) : bool := match nf_hash fl with Some _ => true | None => false end.

(** A node for a tree: whether it is the root, and whether it has to be
    settled, as what is below a cached hash has to. *)
Inductive n_rep : bool -> bool -> node -> trie -> Prop :=
| nr_nil r s : n_rep r s NilNode TNil
| nr_value r s v : n_rep r s (ValueNode v) (TValue v)
| nr_short r s k c fl t : n_rep false (s || cached fl) c t -> t <> TNil -> flag_ok r fl (TShort k t) -> settled_flag r s fl (TShort k t) ->
    n_rep r s (ShortNode k c fl) (TShort k t)
| nr_full r s cs fl ts : length cs = length ts -> (forall t, ts !! 16 = Some t -> t = TNil \/ exists v, t = TValue v) ->
    (forall i c t, cs !! i = Some c -> ts !! i = Some t -> n_rep false (s || cached fl) c t) ->
    flag_ok r fl (TFull ts) -> settled_flag r s fl (TFull ts) -> n_rep r s (FullNode cs fl) (TFull ts)
| nr_hash r s h t : wf t -> h = keccak256 (t_enc t) -> big r t -> db !! Keccak256Hash (t_enc t) = Some (t_enc t) -> stored t -> data_small t ->
    n_rep r s (HashNode h) t.

Lemma settled_weaken r s s' fl t : (s' = true -> s = true) -> settled_flag r s fl t -> settled_flag r s' fl t.
Proof. intros Hs Hf Hs'. apply Hf, Hs, Hs'. Qed.

Lemma n_rep_weaken r s s' n t : (s' = true -> s = true) -> n_rep r s n t -> n_rep r s' n t.
Proof.
  intros Hs Hr. revert s' Hs. induction Hr as [r s|r s v|r s k c fl t Hr IH Hn Hf Hsf|r s cs fl ts Hl H16 Hc IH Hf Hsf|r s h t Hw Hh Hb Hdb Hst Hd]; intros s' Hs.
  - constructor.
  - constructor.
  - constructor; [|done|done|by eapply settled_weaken]. apply IH. rewrite !orb_true_iff. intuition.
  - constructor; [done|done| |done|by eapply settled_weaken]. intros i c t Hi Ht. apply (IH i c t Hi Ht). rewrite !orb_true_iff. intuition.
  - by constructor.
Qed.

(** A new node. *)
Definition newFlag : nodeFlag := mkFlag None true.

Lemma newFlag_ok r t : flag_ok r newFlag t.
Proof. by split. Qed.

Lemma newFlag_settled r t : settled_flag r false newFlag t.
Proof. done. Qed.

Lemma n_rep_nil r s n t : n_rep r s n t -> n = NilNode <-> t = TNil.
Proof. destruct 1 as [| | | |? ? ? ? Hw]; split; try done. intros ->. inversion Hw. Qed.

Lemma nil_or_not n : n = NilNode \/ n <> NilNode.
Proof. destruct n; auto. Qed.

(** *** Hashing *)

Lemma compact_key (k : bytes) : byte_of_nat <$> (nat_of_byte <$> k) = k.
Proof. rewrite <- list_fmap_compose. rewrite <- (list_fmap_id k) at 2. apply list_fmap_ext. intros _ b _. apply byte_of_nat_of_byte. Qed.

(** What stands for a node in its parent. *)
Definition collapsed_ref (n : node) (t : trie) : Prop := kid_item n_item n = ref_of (t_item t).

Lemma collapsed_not_nil n t : n <> NilNode -> n_item n = ref_of (t_item t) -> collapsed_ref n t.
Proof. intros Hn E. unfold collapsed_ref. by destruct n. Qed.

Lemma toHash_cases collapsed t force l : n_item collapsed = t_item t -> t_item t = Lst l -> 
  (toHash collapsed force = HashNode (keccak256 (t_enc t)) /\ big force t) \/
  (toHash collapsed force = collapsed /\ force = false /\ length (t_enc t) < 32).
Proof.
  intros E El. unfold toHash, t_enc, big. rewrite E. destruct (Nat.ltb_spec (length (encode (t_item t))) 32) as [Hlt|Hge]; cbn [andb]; [|auto].
  destruct force; cbn; auto.
Qed.

Lemma ref_big t l : t_item t = Lst l -> 32 <= length (t_enc t) -> ref_of (t_item t) = Str (keccak256 (t_enc t)).
Proof. unfold t_enc. intros -> Hb. cbn [ref_of]. by rewrite (proj2 (Nat.ltb_ge _ _)). Qed.

Lemma ref_small t l : t_item t = Lst l -> length (t_enc t) < 32 -> ref_of (t_item t) = t_item t.
Proof. unfold t_enc. intros -> Hb. cbn [ref_of]. by rewrite (proj2 (Nat.ltb_lt _ _)). Qed.

(** The hash of a node, or the node itself inside its parent. *)
Definition hashed_ok (r : bool) (hashed : node) (t : trie) : Prop :=
  hashed <> NilNode /\ if r then forall l, t_item t = Lst l -> hashed = HashNode (keccak256 (t_enc t)) else collapsed_ref hashed t.

Lemma toHash_ok r collapsed t l : n_item collapsed = t_item t -> t_item t = Lst l -> collapsed <> NilNode -> hashed_ok r (toHash collapsed r) t.
Proof.
  intros E El Hn. destruct (toHash_cases collapsed t r l E El) as [[-> Hb]|(-> & -> & Hlt)]; split; try done.
  - destruct r; [done|]. destruct Hb as [|Hb]; [done|]. unfold collapsed_ref. by rewrite (ref_big t l).
  - apply collapsed_not_nil; [done|]. by rewrite (ref_small t l).
Qed.

Lemma set_hash_ok r fl collapsed t l : flag_ok r fl t -> n_item collapsed = t_item t -> t_item t = Lst l -> hash_of collapsed = None ->
  flag_ok r (set_hash (hash_of (toHash collapsed r)) fl) t.
Proof.
  intros Hf E El Hn. split; [|apply Hf]. intros h. cbn. destruct (toHash_cases collapsed t r l E El) as [[-> Hb]|(-> & -> & Hlt)]; [|by rewrite Hn].
  by intros [= <-].
Qed.

Lemma cached_ok r fl h t l : flag_ok r fl t -> nf_hash fl = Some h -> t_item t = Lst l -> hashed_ok r (HashNode h) t.
Proof.
  intros Hf E El. destruct (fo_hash _ _ _ Hf h E) as [-> Hb]. split; [done|]. destruct r; [done|]. destruct Hb as [|Hb]; [done|].
  unfold collapsed_ref. by rewrite (ref_big t l).
Qed.

Lemma set_hash_settled r fl collapsed t l : n_item collapsed = t_item t -> t_item t = Lst l ->
  settled_flag r true (set_hash (hash_of (toHash collapsed r)) fl) t.
Proof.
  intros E El _ Hn Hb. cbn in Hn. destruct (toHash_cases collapsed t r l E El) as [[Eh _]|(_ & -> & Hlt)]; [by rewrite Eh in Hn|].
  destruct Hb; [done|lia].
Qed.

Lemma cached_settled r s k c fl t h : n_rep r s (ShortNode k c fl) t -> nf_hash fl = Some h -> n_rep r true (ShortNode k c fl) t.
Proof.
  intros Hr Eh. inversion Hr; subst. assert (cached fl = true) as Ec by (unfold cached; by rewrite Eh).
  constructor; try done; [|intros _; congruence]. rewrite Ec, orb_true_r in *. done.
Qed.

Lemma cached_settled_full r s cs fl t h : n_rep r s (FullNode cs fl) t -> nf_hash fl = Some h -> n_rep r true (FullNode cs fl) t.
Proof.
  intros Hr Eh. inversion Hr as [| | |? ? ? ? ? ? ? Hc|]; subst. assert (cached fl = true) as Ec by (unfold cached; by rewrite Eh).
  constructor; try done; [|intros _; congruence]. rewrite Ec, orb_true_r in *. done.
Qed.

(** The hasher: the caches are filled and the result stands for the tree. *)
Lemma n_hash_rep r s n t : n_rep r s n t -> n <> NilNode -> hashed_ok r (n_hash n r).1 t /\ n_rep r true (n_hash n r).2 t.
Proof.
  induction 1 as [r s|r s v|r s k c fl t Hr IH Hn Hf Hsf|r s cs fl ts Hl H16 Hc IH Hf Hsf|r s h t Hw Hh Hb Hdb Hs Hd]; intros Hnn; [done|..].
  - split; [|constructor]. split; [done|]. by destruct r.
  - cbn [n_hash]. destruct (nf_hash fl) as [h|] eqn:Eh; [split; [by eapply cached_ok|by apply (cached_settled r s _ _ _ _ h); [constructor|]]|].
    assert (c <> NilNode) as Hcn by by intros ->%(n_rep_nil _ _ _ _ Hr).
    set (p := match c with ShortNode _ _ _ | FullNode _ _ => n_hash c false | _ => (c, c) end).
    assert (p = n_hash c false) as -> by by destruct c. destruct (IH Hcn) as [[Hne Href] Hrep]. destruct (n_hash c false) as [cv cc]. cbn [fst snd] in *.
    set (col := ShortNode (nat_of_byte <$> hexToCompact k) cv fl).
    assert (n_item col = t_item (TShort k t)) as Ecol.
    { cbn [col n_item t_item]. rewrite compact_key. do 3 f_equal. rewrite <- Href. by destruct cv. }
    split; [by eapply toHash_ok|]. constructor; [done|done|by eapply set_hash_ok|]. by eapply set_hash_settled.
  - destruct (nf_hash fl) as [h|] eqn:Eh; [cbn [n_hash]; rewrite Eh; split; [by eapply cached_ok|by apply (cached_settled_full r s _ _ _ h); [constructor|]]|].
    rewrite n_hash_full by done. cbv zeta. cbn [fst snd]. set (col := FullNode (map fst (imap hash_kid cs)) fl).
    assert (forall i c t, cs !! i = Some c -> ts !! i = Some t -> collapsed_ref (hash_kid i c).1 t /\ n_rep false true (hash_kid i c).2 t) as Hkid.
    { intros i c t Hi Ht. pose proof (Hc i c t Hi Ht) as Hr. destruct (nil_or_not c) as [->|Hcn].
      - assert (t = TNil) as -> by by apply (n_rep_nil _ _ _ _ Hr). unfold hash_kid. destruct (i =? 16); split; try done; constructor.
      - destruct (IH i c t Hi Ht Hcn) as [[Hne Href] Hrep]. unfold hash_kid. destruct (Nat.eqb_spec i 16) as [->|]; [|by destruct c].
        destruct (H16 t Ht) as [->|[v ->]]; inversion Hr as [| | | |? ? ? ? Hw]; subst; try done; try (by inversion Hw). }
    assert (n_item col = t_item (TFull ts)) as Ecol.
    { cbn [col n_item t_item]. f_equal. apply list_eq. intros i. change (map fst ?l) with (fst <$> l).
      change (map ?f (fst <$> ?l)) with (f <$> (fst <$> l)). change (map ?f ts) with (f <$> ts). rewrite !list_lookup_fmap, list_lookup_imap.
      destruct (cs !! i) as [c|] eqn:Hi, (ts !! i) as [t|] eqn:Ht; cbn; [|apply lookup_ge_None in Ht; apply lookup_lt_Some in Hi; lia|apply lookup_ge_None in Hi; apply lookup_lt_Some in Ht; lia|done].
      f_equal. by apply Hkid. }
    split; [by eapply toHash_ok|]. constructor; [by rewrite length_map, length_imap|done| |by eapply set_hash_ok|by eapply set_hash_settled].
    intros i c t. change (map snd ?l) with (snd <$> l). rewrite list_lookup_fmap, list_lookup_imap. intros (p & (c' & Hi & ->)%fmap_Some & ->)%fmap_Some Ht.
    by eapply Hkid.
  - split; [|by constructor]. destruct (wf_item t Hw) as [l El]. split; [done|]. cbn [n_hash fst]. subst h.
    destruct r; [done|]. destruct Hb as [|Hb]; [done|]. unfold collapsed_ref. by rewrite (ref_big t l).
Qed.

(** *** Decoding *)

Lemma Split_kind b k c rest : (zlen b < 2 ^ 64)%Z -> Split b = Ret (k, c, rest) -> length c <> 1 -> k <> KByte.
Proof.
  intros Hl Hs Hc ->. apply Hc. unfold Split in Hs. apply outcome_bind_Ret in Hs as ([[k ts] cs] & Hk & E). injection E as -> <- <-.
  apply readKind_inv in Hk; [|done]. destruct Hk as (x & tl & -> & _ & -> & ->). done.
Qed.

Lemma Split_next it rest k c r : Split (encode it ++ rest) = Ret (k, c, r) -> exists ts cs, readKind (encode it ++ rest) = Ret (k, ts, cs) /\
  drop (Z.to_nat (ts + cs)) (encode it ++ rest) = r.
Proof. intros ([[k' ts] cs] & Hk & [= -> <- <-])%outcome_bind_Ret. by exists ts, cs. Qed.

Lemma count_values_encode fuel l : length (concat (map encode l)) <= fuel -> (zlen (concat (map encode l)) < 2 ^ 64)%Z ->
  count_values fuel (concat (map encode l)) = Ret (length l).
Proof.
  revert l. induction fuel as [|fuel IH]; intros [|it l] Hf Hl; try done; cbn [map concat] in *.
  { pose proof (proj1 (encode_length it)). rewrite length_app in Hf. lia. }
  pose proof (proj1 (encode_length it)) as Hpos. destruct (Split_encode it (concat (map encode l)) Hl) as (k & Hs & _).
  apply Split_next in Hs as (ts & cs & Hk & Hd). cbn [count_values].
  destruct (encode it ++ concat (map encode l)) as [|x b] eqn:Eb; [apply (f_equal length) in Eb; rewrite length_app in Eb; cbn in Eb; lia|].
  rewrite Hk. cbn [mbind outcome_bind]. rewrite Hd, IH; [done|..].
  - rewrite <- Eb, length_app in Hf. lia.
  - rewrite <- Eb in Hl. unfold zlen in *. rewrite length_app in Hl. lia.
Qed.

(** A decoder of embedded nodes, for those of a tree. *)
Definition dec_ok (dec : bytes -> outcome node) (t : trie) : Prop := forall rest, length (t_enc t) < 32 -> (zlen (t_enc t ++ rest) < 2 ^ 64)%Z ->
  exists n, dec (t_enc t ++ rest) = Ret n /\ n_rep false true n t.

Lemma decodeRef_nil dec rest : (zlen (encode (ref_of (t_item TNil)) ++ rest) < 2 ^ 64)%Z ->
  decodeRef dec (encode (ref_of (t_item TNil)) ++ rest) = Ret (NilNode, rest).
Proof.
  cbn [t_item ref_of]. intros Hl. destruct (Split_encode (Str []) rest Hl) as (k & Hs & Hk). unfold decodeRef. rewrite Hs. cbn [mbind outcome_bind item_content length].
  pose proof (Split_kind _ _ _ _ Hl Hs) as Hb. destruct k; [by destruct Hb|done|]. destruct Hk as [[l ?] _]; done.
Qed.

Lemma decodeRef_ok dec t rest : wf t -> stored t -> data_small t -> dec_ok dec t -> (zlen (encode (ref_of (t_item t)) ++ rest) < 2 ^ 64)%Z ->
  exists n, decodeRef dec (encode (ref_of (t_item t)) ++ rest) = Ret (n, rest) /\ n_rep false true n t.
Proof.
  intros Hw Hst Hd Hdec Hl. destruct (wf_item t Hw) as [l El]. destruct (Nat.lt_ge_cases (length (t_enc t)) 32) as [Hlt|Hge].
  - rewrite (ref_small t l El Hlt) in *. destruct (Hdec rest Hlt Hl) as (n & En & Hn). exists n. split; [|done].
    destruct (Split_encode (t_item t) rest Hl) as (k & Hs & Hk). unfold decodeRef. rewrite Hs. cbn [mbind outcome_bind].
    assert (k = KList) as -> by (apply Hk; eauto). rewrite length_app. fold (t_enc t) in *. rewrite (proj2 (Nat.ltb_ge _ _)) by lia. by rewrite En.
  - rewrite (ref_big t l El Hge) in *. destruct (Split_encode (Str (keccak256 (t_enc t))) rest Hl) as (k & Hs & Hk). unfold decodeRef. rewrite Hs.
    cbn [mbind outcome_bind item_content]. pose proof (Split_kind _ _ _ _ Hl Hs) as Hb. cbn [item_content] in Hb. rewrite length_digest in *.
    destruct k; [by destruct Hb| |by destruct Hk as [[? ?] _]]. exists (HashNode (keccak256 (t_enc t))). split; [done|].
    constructor; try done; [by right|]. apply Hst; [by apply wf_data|done].
Qed.

(** The children of a full node. *)
Lemma decode_refs_ok dec ts rest : (forall i t, ts !! i = Some t -> t = TNil \/ (wf t /\ stored t /\ data_small t /\ dec_ok dec t)) ->
  (zlen (concat (map encode (map (fun c => ref_of (t_item c)) ts)) ++ rest) < 2 ^ 64)%Z ->
  exists cs, decode_refs dec (length ts) (concat (map encode (map (fun c => ref_of (t_item c)) ts)) ++ rest) = Ret (cs, rest) /\
    length cs = length ts /\ forall i c t, cs !! i = Some c -> ts !! i = Some t -> n_rep false true c t.
Proof.
  revert rest. induction ts as [|t ts IH]; intros rest Ht Hl; [by exists []|]. cbn [map concat length decode_refs] in *. rewrite <- app_assoc in *.
  destruct (IH rest) as (cs & Ecs & Hlen & Hcs); [intros i; apply (Ht (S i))|unfold zlen in *; rewrite length_app in Hl; lia|].
  assert (exists n, decodeRef dec (encode (ref_of (t_item t)) ++ concat (map encode (map (fun c => ref_of (t_item c)) ts)) ++ rest) =
    Ret (n, concat (map encode (map (fun c => ref_of (t_item c)) ts)) ++ rest) /\ n_rep false true n t) as (n & En & Hn).
  { destruct (Ht 0 t eq_refl) as [->|(Hw & Hst & Hd & Hdec)]; [|by apply decodeRef_ok]. exists NilNode. split; [by apply decodeRef_nil|constructor]. }
  rewrite En. cbn [mbind outcome_bind]. rewrite Ecs. cbn [mbind outcome_bind]. eexists. split; [done|]. split; [cbn; lia|].
  intros [|i] c u Hi Hu; [|by apply (Hcs i)]. injection Hi as <-. by injection Hu as <-.
Qed.

Lemma SplitString_ok b rest : (zlen (encode (Str b) ++ rest) < 2 ^ 64)%Z -> SplitString (encode (Str b) ++ rest) = Ret (b, rest).
Proof. intros Hl. destruct (Split_string b rest Hl) as (k & Hk & Hs). unfold SplitString. cbn [encode]. rewrite Hs. cbn [mbind outcome_bind]. by destruct k. Qed.

Lemma SplitList_ok l rest : (zlen (encode (Lst l) ++ rest) < 2 ^ 64)%Z -> SplitList (encode (Lst l) ++ rest) = Ret (concat (map encode l), rest).
Proof.
  intros Hl. destruct (Split_encode (Lst l) rest Hl) as (k & Hs & Hk). unfold SplitList. rewrite Hs. cbn [mbind outcome_bind]. assert (k = KList) as -> by (apply Hk; eauto). done.
Qed.

Lemma decodeNode_list f hash l rest : (zlen (encode (Lst l) ++ rest) < 2 ^ 64)%Z ->
  decodeNode (S f) hash (encode (Lst l) ++ rest) =
  if length l =? 2 then decodeShort (decodeNode f None) hash (concat (map encode l))
  else if length l =? 17 then decodeFull (decodeNode f None) hash (concat (map encode l))
  else Err (ErrFmt "invalid number of list elements: %v").
Proof.
  intros Hl. pose proof (encode_length (Lst l)) as [Hpos Hcon]. specialize (Hcon l eq_refl). cbn [item_content] in Hcon. cbn [decodeNode].
  destruct (encode (Lst l) ++ rest) as [|x b] eqn:Eb; [apply app_nil in Eb as [Eb _]; rewrite Eb in Hpos; cbn in Hpos; lia|]. rewrite <- Eb in *.
  rewrite SplitList_ok by done. cbn [mbind outcome_bind]. unfold CountValues. rewrite count_values_encode; [done|lia|].
  unfold zlen in *. rewrite length_app in Hl. lia.
Qed.

(** The length of an element of a list is below that of the list. *)
Lemma encode_elem l it : it ∈ l -> length (encode it) < length (encode (Lst l)).
Proof.
  intros Hin. pose proof (encode_length (Lst l)) as [_ Hcon]. specialize (Hcon l eq_refl). cbn [item_content] in Hcon.
  apply list_elem_of_split in Hin as (l1 & l2 & ->). rewrite map_app, concat_app, length_app in Hcon. cbn [map concat] in Hcon. rewrite length_app in Hcon. lia.
Qed.

Lemma zlen_list l rest : (zlen (encode (Lst l) ++ rest) < 2 ^ 64)%Z -> (zlen (concat (map encode l)) < 2 ^ 64)%Z.
Proof.
  intros Hl. pose proof (encode_length (Lst l)) as [_ Hcon]. specialize (Hcon l eq_refl). cbn [item_content] in Hcon.
  unfold zlen in *. rewrite length_app in Hl. lia.
Qed.

Lemma stored_child t t' : (forall a, a ∈ t_data t' -> a ∈ t_data t) -> stored t -> data_small t -> stored t' /\ data_small t'.
Proof. intros Hs Hst Hd. split; [intros e He; by apply Hst, Hs|intros e He; by apply Hd, Hs]. Qed.

Lemma data_short k c a : a ∈ t_data c -> a ∈ t_data (TShort k c).
Proof. intros Ha. cbn [t_data]. apply elem_of_cons. by right. Qed.

Definition hash_arg (hash : option bytes) (r : bool) (t : trie) : Prop :=
  (forall h, hash = Some h -> h = keccak256 (t_enc t) /\ big r t) /\ (big r t -> db !! Keccak256Hash (t_enc t) = Some (t_enc t)) /\
  (hash = None -> ~ big r t).

Lemma hash_arg_flag hash r t : hash_arg hash r t -> stored t -> data_small t -> flag_ok r (mkFlag hash false) t.
Proof. intros (Hh & Hb & _) Hst Hd. by split. Qed.

Lemma hash_arg_settled hash r t : hash_arg hash r t -> settled_flag r true (mkFlag hash false) t.
Proof. intros (_ & _ & Hn) _. apply Hn. Qed.

Lemma hash_arg_none t : length (t_enc t) < 32 -> hash_arg None false t.
Proof. intros Hlt. assert (~ big false t) as Hb by (intros [|?]; [done|lia]). by split_and!. Qed.

(** The statement of the decoding lemma. *)
Definition decodes (t : trie) : Prop := forall fuel hash r rest, length (t_enc t) <= fuel -> (zlen (t_enc t ++ rest) < 2 ^ 64)%Z ->
  stored t -> data_small t -> hash_arg hash r t -> exists n, decodeNode fuel hash (t_enc t ++ rest) = Ret n /\ n_rep r true n t.

Lemma decodes_ref f t t' l : decodes t' -> wf t' -> t_item t = Lst l -> ref_of (t_item t') ∈ l -> length (t_enc t) <= S f -> stored t' -> data_small t' ->
  dec_ok (decodeNode f None) t'.
Proof.
  intros Hd Hw El Hin Hf Hst Hsm rest Hlt Hl. apply Hd; try done; [|by apply hash_arg_none]. destruct (wf_item t' Hw) as [l' El'].
  rewrite (ref_small t' l' El' Hlt) in Hin. apply encode_elem in Hin. unfold t_enc in *. rewrite El in Hf. lia.
Qed.

Lemma decodes_leaf s v : Forall nibble s -> decodes (TShort (s ++ [terminator]) (TValue v)).
Proof.
  intros Hs fuel hash r rest Hf Hl Hst Hsm Hh. unfold t_enc in *. cbn [t_item] in *. set (l := [Str _; _]) in *.
  pose proof (proj1 (encode_length (Lst l))). destruct fuel as [|f]; [lia|]. rewrite decodeNode_list by done. cbn [length l Nat.eqb].
  apply zlen_list in Hl. unfold l in *. cbn [map concat] in *. unfold decodeShort. rewrite SplitString_ok by done. cbn [mbind outcome_bind].
  change (s ++ [terminator]) with (hexkey true s). rewrite compactToHex_hexToCompact, hexkey_split by done.
  change (ref_of (Str v)) with (Str v) in *. rewrite SplitString_ok; [|unfold zlen in *; rewrite length_app in Hl; lia].
  cbn [mbind outcome_bind on_err]. eexists. split; [done|]. constructor; [constructor|done|by apply hash_arg_flag|by apply hash_arg_settled].
Qed.

Lemma decodes_ext s ts : Forall nibble s -> wf (TFull ts) -> decodes (TFull ts) -> decodes (TShort s (TFull ts)).
Proof.
  intros Hs Hw IH fuel hash r rest Hf Hl Hst Hsm Hh. pose proof (stored_child _ _ (data_short s (TFull ts)) Hst Hsm) as [Hst' Hsm'].
  set (l := [Str (hexToCompact s); ref_of (t_item (TFull ts))]). assert (t_item (TShort s (TFull ts)) = Lst l) as El by done.
  unfold t_enc in Hf, Hl |- *. rewrite El in *. pose proof (proj1 (encode_length (Lst l))). destruct fuel as [|f]; [lia|]. rewrite decodeNode_list by done.
  change (length l) with 2. cbn [Nat.eqb]. apply zlen_list in Hl. unfold l in *. cbn [map concat] in *. unfold decodeShort. rewrite SplitString_ok by done. cbn [mbind outcome_bind].
  assert (compactToHex (hexToCompact s) = s) as -> by (pose proof (compactToHex_hexToCompact false s Hs) as E; unfold hexkey in E; by rewrite app_nil_r in E).
  rewrite (hasTerm_nibbles s Hs).
  destruct (decodeRef_ok (decodeNode f None) (TFull ts) []) as (n & En & Hn); try done.
  - apply (decodes_ref f (TShort s (TFull ts)) (TFull ts) l); try done. unfold l. rewrite !elem_of_cons. auto.
  - unfold zlen in *. rewrite length_app in Hl. lia.
  - rewrite <- (app_nil_r (encode (ref_of _))), <- app_assoc. cbn [app]. rewrite En. cbn [mbind outcome_bind]. eexists. split; [done|]. constructor; [done|done|by apply hash_arg_flag|by apply hash_arg_settled].
Qed.

(** A full node with its value split off. *)
Lemma full_split (ts : list trie) : length ts = 17 -> exists ts' t, ts = ts' ++ [t] /\ length ts' = 16 /\ ts !! 16 = Some t.
Proof.
  intros Hl. destruct ts as [|t ts' _] using rev_ind; [done|]. rewrite length_app in Hl. cbn in Hl. exists ts', t. split_and!; [done|lia|].
  rewrite lookup_app_r by lia. by replace (16 - length ts') with 0 by lia.
Qed.

Lemma decodes_full ts : wf (TFull ts) -> (forall i t, ts !! i = Some t -> i < 16 -> t <> TNil -> decodes t) -> decodes (TFull ts).
Proof.
  intros Hw IH fuel hash r rest Hf Hl Hst Hsm Hh. inversion Hw as [| |? (H17 & H16 & _) _]; subst.
  destruct (full_split ts H17) as (ts' & tv & Ets & Hl' & Htv). set (l := map (fun c => ref_of (t_item c)) ts) in *.
  assert (t_item (TFull ts) = Lst l) as El by done. assert (length l = 17) as Hll by (unfold l; by rewrite length_map).
  unfold t_enc in Hf, Hl |- *. rewrite El in *. pose proof (proj1 (encode_length (Lst l))). destruct fuel as [|f]; [lia|]. rewrite decodeNode_list by done.
  rewrite Hll. cbn [Nat.eqb]. apply zlen_list in Hl. unfold decodeFull.
  assert (concat (map encode l) = concat (map encode (map (fun c => ref_of (t_item c)) ts')) ++ encode (ref_of (t_item tv))) as Econ.
  { unfold l. rewrite Ets, !map_app, concat_app. cbn [map concat]. by rewrite app_nil_r. }
  rewrite Econ in *. rewrite <- Hl'. destruct (decode_refs_ok (decodeNode f None) ts' (encode (ref_of (t_item tv)))) as (cs & Ecs & Hlen & Hcs); [|done|].
  { intros i t Hi. assert (ts !! i = Some t) as Hi' by (rewrite Ets; by apply lookup_app_l_Some). assert (i < 16) as Hlt by (apply lookup_lt_Some in Hi; lia).
    destruct (is_nil t) eqn:En; [left; by destruct t|right]. assert (t <> TNil) as Hn by by intros ->.
    destruct (wf_slots ts i t Hw Hi') as [[_ [?|Hwt]]|[? _]]; [done| |lia].
    destruct (stored_child _ _ (t_data_child ts i t Hi') Hst Hsm) as [Hst' Hsm']. split_and!; try done.
    apply (decodes_ref f (TFull ts) t l); try done; [by apply (IH i)|]. unfold l. apply list_elem_of_fmap. exists t. split; [done|]. by eapply list_elem_of_lookup_2. }
  rewrite Ecs. cbn [mbind outcome_bind].
  assert (exists v, tv = TNil /\ v = [] \/ tv = TValue v /\ v <> []) as (v & Hv).
  { destruct H16 as [E|(v & E & Hv)]; rewrite Htv in E; injection E as ->; [exists []; by left|exists v; by right]. }
  assert (encode (ref_of (t_item tv)) = encode (Str v) ++ []) as -> by (rewrite app_nil_r; by destruct Hv as [[-> ->]|[-> _]]).
  rewrite SplitString_ok; [|unfold zlen in *; rewrite length_app in Hl; destruct Hv as [[-> ->]|[-> _]]; cbn [t_item ref_of] in Hl; rewrite app_nil_r; lia].
  cbn [mbind outcome_bind]. eexists. split; [done|]. constructor.
  - rewrite Ets, !length_app, Hlen. done.
  - intros t Ht. destruct (wf_slots ts 16 t Hw Ht) as [[? _]|[_ [->|(u & -> & _)]]]; [lia|by left|right; eauto].
  - intros i c t. rewrite Ets. intros [Hi|[Hge Hi]]%lookup_app_Some Ht.
    + apply (Hcs i); [done|]. rewrite lookup_app_l in Ht; [done|]. apply lookup_lt_Some in Hi. lia.
    + assert (i = 16) as -> by (apply lookup_lt_Some in Hi; cbn in Hi; lia). rewrite <- Ets, Htv in Ht. injection Ht as <-.
      rewrite Hlen, Hl' in Hi. injection Hi as <-. destruct Hv as [[-> ->]|[-> Hv]]; [constructor|]. destruct v; [done|constructor].
  - by apply hash_arg_flag.
  - by apply hash_arg_settled.
Qed.

Lemma decode_rep t : wf t -> decodes t.
Proof. induction 1; [by apply decodes_leaf|by apply decodes_ext|by apply decodes_full; [constructor|]]. Qed.

(** A node that is in the store is read back. *)
Lemma mustDecodeNode_rep r t : wf t -> stored t -> data_small t -> big r t -> db !! Keccak256Hash (t_enc t) = Some (t_enc t) ->
  exists n, mustDecodeNode (keccak256 (t_enc t)) (t_enc t) = Ret n /\ n_rep r true n t.
Proof.
  intros Hw Hst Hsm Hb Hdb. destruct (decode_rep t Hw (length (t_enc t)) (Some (keccak256 (t_enc t))) r []) as (n & En & Hn); try done.
  - rewrite app_nil_r. apply Hsm. by apply wf_data.
  - split_and!; [by intros h [= <-]|done|done].
  - rewrite app_nil_r in En. exists n. unfold mustDecodeNode. by rewrite En.
Qed.

End Rep.
End Hasher.
