(* ===== verification/Trie.v ===== *)
(** * The Merkle Patricia trie ([trie/trie.go])

    The operations of a [Trie] on its nodes in memory, with nodes loaded from
    the store when they are needed.  They refine the operations on trees of
    [Patricia]: on a node that stands for a tree ([n_rep]) each of them returns
    and leaves a node that stands for the changed tree.  The recursion goes
    down the key; a node that is loaded costs one step more, so twice the
    length of the key is fuel enough. *)
From Stdlib Require Import ZArith Lia Strings.Byte.
From stdpp Require Import base option gmap list.
From S2P Require Import Prelude Errors Rlp Nibbles Patricia Common Merkle TrieNode.
Open Scope nat_scope.

Section Trie.
Context `{Keccak}.

Section Nodes.
Context (db : gmap Hash bytes).

Definition resolveHash (n : bytes) (prefix : list nat) : outcome node :=
  let hash := BytesToHash n in
  match db !! hash with
  | Some enc => mustDecodeNode (Hash_Bytes hash) enc
  | None => Err (ErrMissingNode hash prefix)
  end.

Definition resolve (n : node) (prefix : list nat) : outcome node :=
  match n with HashNode h => resolveHash h prefix | _ => Ret n end.

(** [n.Children[i]] *)
Definition child_at (cs : list node) (i : nat) : outcome node := deref (cs !! i).

Definition key_at (key : list nat) (i : nat) : outcome nat := deref (key !! i).

(** ** Lookup *)

(** The value, the node with what was loaded, and whether something was. *)
Fixpoint tryGet (fuel : nat) (origNode : node) (key : list nat) (pos : nat) : outcome (option bytes * node * bool) :=
  match fuel with
  | O => Panic
  | S fuel' =>
      match origNode with
      | NilNode => Ret (None, NilNode, false)
      | ValueNode v => Ret (Some v, ValueNode v, false)
      | ShortNode k c fl =>
          if (length key - pos <? length k) || negb (bool_decide (take (length k) (drop pos key) = k)) then Ret (None, origNode, false)
          else
            '(value, newnode, didResolve) ← tryGet fuel' c key (pos + length k);
            Ret (value, if didResolve : bool then ShortNode k newnode fl else origNode, didResolve)
      | FullNode cs fl =>
          i ← key_at key pos;
          c ← child_at cs i;
          '(value, newnode, didResolve) ← tryGet fuel' c key (S pos);
          Ret (value, if didResolve : bool then FullNode (<[i := newnode]> cs) fl else origNode, didResolve)
      | HashNode h =>
          child ← resolveHash h (take pos key);
          '(value, newnode, _) ← tryGet fuel' child key pos;
          Ret (value, newnode, true)
      end
  end.

(** ** Insertion *)

Fixpoint insert (fuel : nat) (n : node) (prefix key : list nat) (value : node) : outcome (bool * node) :=
  match fuel with
  | O => Panic
  | S fuel' =>
      match key with
      | [] =>
          match n, value with
          | ValueNode v, ValueNode v' => Ret (negb (bool_decide (v = v')), value)
          | ValueNode _, _ => Panic
          | _, _ => Ret (true, value)
          end
      | i :: key' =>
          match n with
          | ShortNode k c fl =>
              let matchlen := prefixLen key k in
              if matchlen =? length k then
                '(dirty, nn) ← insert fuel' c (prefix ++ take matchlen key) (drop matchlen key) value;
                if negb dirty then Ret (false, n) else Ret (true, ShortNode k nn newFlag)
              else
                x ← key_at k matchlen;
                '(_, old) ← insert fuel' NilNode (prefix ++ take (S matchlen) k) (drop (S matchlen) k) c;
                y ← key_at key matchlen;
                '(_, new) ← insert fuel' NilNode (prefix ++ take (S matchlen) key) (drop (S matchlen) key) value;
                let branch := FullNode (<[y := new]> (<[x := old]> (replicate 17 NilNode))) newFlag in
                if (16 <? x) || (16 <? y) then Panic
                else if matchlen =? 0 then Ret (true, branch)
                else Ret (true, ShortNode (take matchlen key) branch newFlag)
          | FullNode cs fl =>
              c ← child_at cs i;
              '(dirty, nn) ← insert fuel' c (prefix ++ [i]) key' value;
              if negb dirty then Ret (false, n) else Ret (true, FullNode (<[i := nn]> cs) newFlag)
          | NilNode => Ret (true, ShortNode key value newFlag)
          | HashNode h =>
              rn ← resolveHash h prefix;
              '(dirty, nn) ← insert fuel' rn prefix key value;
              if negb dirty then Ret (false, rn) else Ret (true, nn)
          | ValueNode _ => Panic
          end
      end
  end.

(** ** Deletion *)

(** The loop over the children: the index of the only one that is left, -2 if
    there are more, -1 if there is none. *)
Fixpoint only_pos (i : nat) (pos : Z) (cs : list node) : Z :=
  match cs with
  | [] => pos
  | NilNode :: cs' => only_pos (S i) pos cs'
  | _ :: cs' => if (pos =? -1)%Z then only_pos (S i) (Z.of_nat i) cs' else (-2)%Z
  end.

(** The end of the deletion from a full node. *)
Definition reduce_full (prefix : list nat) (cs : list node) : outcome (bool * node) :=
  let pos := only_pos 0 (-1) cs in
  if (0 <=? pos)%Z then
    let i := Z.to_nat pos in
    c ← child_at cs i;
    if negb (i =? 16) then
      cnode ← resolve c prefix;
      match cnode with
      | ShortNode k v _ => Ret (true, ShortNode (i :: k) v newFlag)
      | _ => Ret (true, ShortNode [i] c newFlag)
      end
    else Ret (true, ShortNode [i] c newFlag)
  else Ret (true, FullNode cs newFlag).

Fixpoint delete (fuel : nat) (n : node) (prefix key : list nat) : outcome (bool * node) :=
  match fuel with
  | O => Panic
  | S fuel' =>
      match n with
      | ShortNode k c fl =>
          let matchlen := prefixLen key k in
          if matchlen <? length k then Ret (false, n)
          else if matchlen =? length key then Ret (true, NilNode)
          else
            '(dirty, child) ← delete fuel' c (prefix ++ take (length k) key) (drop (length k) key);
            if negb dirty then Ret (false, n)
            else match child with
                 | ShortNode k' c' _ => Ret (true, ShortNode (k ++ k') c' newFlag)
                 | _ => Ret (true, ShortNode k child newFlag)
                 end
      | FullNode cs fl =>
          i ← key_at key 0;
          c ← child_at cs i;
          '(dirty, nn) ← delete fuel' c (prefix ++ [i]) (drop 1 key);
          if negb dirty then Ret (false, n) else reduce_full prefix (<[i := nn]> cs)
      | ValueNode _ => Ret (true, NilNode)
      | NilNode => Ret (false, NilNode)
      | HashNode h =>
          rn ← resolveHash h prefix;
          '(dirty, nn) ← delete fuel' rn prefix key;
          if negb dirty then Ret (false, rn) else Ret (true, nn)
      end
  end.

(** ** Loading *)

Abbreviation rep := (n_rep db).

Lemma rep_any r s n t : rep r s n t -> rep r false n t.
Proof. by apply n_rep_weaken. Qed.

Lemma BytesToHash_digest d : Hash_Bytes (BytesToHash (keccak256 d)) = keccak256 d.
Proof. apply Keccak256Hash_digest. Qed.

Definition loaded (n : node) : Prop := forall h, n <> HashNode h.

Lemma decodeNode_loaded fuel hash buf n : decodeNode fuel hash buf = Ret n -> loaded n.
Proof.
  destruct fuel as [|f]; destruct buf as [|x b]; try done. cbn [decodeNode]. intros ([elems r] & _ & E)%outcome_bind_Ret h ->.
  set (c := match CountValues elems with Ret c => c | _ => 0 end) in E. destruct (c =? 2).
  - unfold decodeShort in E. apply outcome_bind_Ret in E as ([kbuf rest] & _ & E). destruct (hasTerm _); apply outcome_bind_Ret in E as ([? ?] & _ & E); done.
  - destruct (c =? 17); [|done]. unfold decodeFull in E. apply outcome_bind_Ret in E as ([? ?] & _ & E). apply outcome_bind_Ret in E as ([? ?] & _ & E). done.
Qed.

Lemma resolveHash_rep r s h t prefix : rep r s (HashNode h) t -> exists n, resolveHash h prefix = Ret n /\ rep r true n t /\ loaded n.
Proof.
  inversion 1 as [| | | |? ? ? ? Hw Hh Hb Hdb Hst Hsm]; subst. destruct (mustDecodeNode_rep db r t Hw Hst Hsm Hb Hdb) as (n & En & Hn). exists n.
  unfold resolveHash. change (BytesToHash (keccak256 (t_enc t))) with (Keccak256Hash (t_enc t)). rewrite Hdb. unfold Keccak256Hash. rewrite BytesToHash_digest.
  split; [done|]. split; [done|]. unfold mustDecodeNode in En. destruct (decodeNode _ _ _) as [n'| |] eqn:E; try done. injection En as ->. by eapply decodeNode_loaded.
Qed.

(** The keys with which a node is reached. *)
Definition reaches (t : trie) (key : list nat) : Prop :=
  (wf_root t /\ tkey key) \/ (key = [] /\ (t = TNil \/ exists v, t = TValue v /\ v <> [])).

(** The fuel a call needs. *)
Definition need (n : node) (key : list nat) : nat := 2 * length key + match n with HashNode _ => 2 | _ => 1 end.

Lemma need_loaded n key : loaded n -> need n key = 2 * length key + 1.
Proof. intros Hn. destruct n; try done. by destruct (Hn h). Qed.

Lemma need_le n key : need n key <= 2 * length key + 2.
Proof. unfold need. destruct n; lia. Qed.

Lemma reaches_full ts i key : wf (TFull ts) -> tkey (i :: key) -> exists t, ts !! i = Some t /\ reaches t key /\ i < 17.
Proof.
  intros Hw Hk. pose proof Hw as Hw'. inversion Hw' as [| |? Hfs _]; subst. destruct (full_child ts i key Hfs Hk) as (c & Hi & Hcase). exists c. split; [done|].
  destruct Hcase as [(-> & -> & Hsl)|[Hlt Hkk]]; [split; [by right|lia]|]. split; [|lia]. left. split; [|done].
  destruct (wf_slots ts i c Hw Hi) as [[_ ?]|[? _]]; [done|lia].
Qed.

Lemma reaches_short k c r : wf (TShort k c) -> tkey (k ++ r) -> reaches c r /\ (r <> [] -> Forall nibble k).
Proof.
  intros Hw Hk. inversion Hw as [s v Hs Hv|s ds Hne Hs Hwf|]; subst.
  - assert (r = []) as -> by (apply (tkey_prefix_free (s ++ [terminator])); [by exists s|done]). split; [|done]. right. split; [done|]. right. eauto.
  - destruct (tkey_strip k (k ++ r) r Hk (strip_prefix _ _)) as [_ Hr]; [by apply nibbles_not_tkey|]. split; [|done]. left. split; [by right|done].
Qed.

(** A full node with one child replaced. *)
Lemma set_child_rep r s cs fl ts i n' (f : trie -> trie) u : rep r s (FullNode cs fl) (TFull ts) -> ts !! i = Some u -> rep false false n' (f u) ->
  (i = 16 -> f u = TNil \/ exists v, f u = TValue v) -> rep r false (FullNode (<[i := n']> cs) newFlag) (TFull (change f ts i)).
Proof.
  intros Hr Hi Hn Hf. inversion Hr as [| | |? ? ? ? ? Hl H16 Hc|]; subst. constructor; [by rewrite length_insert, length_change| | |apply newFlag_ok|done].
  - intros t. rewrite lookup_change. destruct (decide (i = 16)) as [->|]; [|apply H16]. rewrite Hi. intros [= <-]. by apply Hf.
  - intros j c t Hj. rewrite lookup_change. destruct (decide (i = j)) as [<-|Hne].
    + pose proof (lookup_lt_Some _ _ _ Hi). rewrite list_lookup_insert_eq in Hj by lia. injection Hj as <-. rewrite Hi. by intros [= <-].
    + rewrite list_lookup_insert_ne in Hj by done. intros Ht. by eapply rep_any, Hc.
Qed.

Lemma change_same ts i u (f : trie -> trie) : ts !! i = Some u -> f u = u -> change f ts i = ts.
Proof.
  intros Hi Hf. apply list_eq. intros j. rewrite lookup_change. destruct (decide (i = j)) as [<-|]; [|done]. rewrite Hi. cbn. by rewrite Hf.
Qed.

Lemma set_child_same r s cs fl ts i n' u : rep r s (FullNode cs fl) (TFull ts) -> ts !! i = Some u -> rep false (s || cached fl) n' u ->
  rep r s (FullNode (<[i := n']> cs) fl) (TFull ts).
Proof.
  intros Hr Hi Hn. inversion Hr as [| | |? ? ? ? ? Hl H16 Hc Hfl Hsf|]; subst. constructor; [by rewrite length_insert|done| |done|done].
  intros j c t Hj Ht. destruct (decide (i = j)) as [<-|Hne].
  - pose proof (lookup_lt_Some _ _ _ Hi). rewrite list_lookup_insert_eq in Hj by lia. injection Hj as <-. by assert (u = t) as <- by congruence.
  - rewrite list_lookup_insert_ne in Hj by done. by eapply Hc.
Qed.

(** ** Lookup *)

Lemma tryGet_rep fuel : forall r s n t key pos, rep r s n t -> reaches t (drop pos key) -> need n (drop pos key) <= fuel -> exists n' b,
  tryGet fuel n key pos = Ret (t_get t (drop pos key), n', b) /\ rep r s n' t.
Proof.
  induction fuel as [|fuel IH]; intros r s n t key pos Hr Hre Hf; [unfold need in Hf; destruct n; lia|].
  inversion Hr as [? ?|? ? v|? ? k c fl u Hc Hn Hfl Hsf|? ? cs fl ts Hl H16 Hc Hfl Hsf|? ? h ? Hw]; subst.
  - eexists _, _. split; [done|constructor].
  - eexists _, _. split; [done|constructor].
  - destruct Hre as [[[?|Hw] Hk]|[_ [?|(? & ? & _)]]]; try done. cbn [tryGet]. rewrite get_short. destruct (strip k (drop pos key)) as [q|] eqn:Es.
    + apply strip_Some in Es. rewrite Es in *. assert (length key - pos = length k + length q) as Hlen by (rewrite <- length_drop, Es; apply length_app).
      rewrite (proj2 (Nat.ltb_ge _ _)) by lia. rewrite take_app_length, bool_decide_true by done. cbn [orb negb].
      assert (drop (pos + length k) key = q) as Eq by by rewrite <- drop_drop, Es, drop_app_length.
      destruct (IH false (s || cached fl) c u key (pos + length k)) as (n' & b & E & Hn'); rewrite ?Eq in *; [done|by apply (reaches_short k)| |].
      { unfold need in Hf. pose proof (need_le c q). assert (0 < length k) by (inversion Hw; subst; [rewrite length_app; cbn; lia|destruct k; [done|cbn; lia]]).
        rewrite length_app in Hf. lia. }
      rewrite E. cbn [mbind outcome_bind option_bind]. eexists _, _. split; [done|]. destruct b; by constructor.
    + assert ((length key - pos <? length k) || negb (bool_decide (take (length k) (drop pos key) = k)) = true) as ->.
      { destruct (Nat.ltb_spec (length key - pos) (length k)) as [|Hge]; [done|]. rewrite bool_decide_false; [done|]. intros E.
        assert (drop pos key = k ++ drop (length k) (drop pos key)) as E' by (rewrite <- E at 1; by rewrite take_drop). rewrite E', strip_prefix in Es. done. }
      eexists _, _. split; [done|]. by constructor.
  - destruct Hre as [[[?|Hw] Hk]|[_ [?|(? & ? & _)]]]; try done. destruct (drop pos key) as [|i q] eqn:Ed; [by apply tkey_nonempty in Hk|].
    apply drop_lookup_cons in Ed as [Hi Hd]. destruct (reaches_full ts i q Hw Hk) as (u & Hu & Hru & _).
    destruct (lookup_lt_is_Some_2 cs i) as [c Hci]; [rewrite Hl; by eapply lookup_lt_Some|].
    cbn [tryGet]. unfold key_at, child_at. rewrite Hi. cbn [mbind outcome_bind deref]. rewrite Hci. cbn [mbind outcome_bind deref].
    destruct (IH false (s || cached fl) c u key (S pos)) as (n' & b & E & Hn'); rewrite ?Hd in *; [by eapply Hc|done| |].
    { unfold need in Hf. pose proof (need_le c q). cbn [length] in Hf. lia. }
    rewrite E. cbn [mbind outcome_bind]. rewrite get_full, Hu. eexists _, _. split; [done|]. destruct b; [|by constructor].
    by apply (set_child_same r s cs fl ts i n' u).
  - destruct (resolveHash_rep r s _ t (take pos key) Hr) as (rn & Ern & Hrn & Hld). cbn [tryGet]. rewrite Ern. cbn [mbind outcome_bind].
    destruct (IH r s rn t key pos) as (n' & b & E & Hn'); [by apply (n_rep_weaken db r true)|done|rewrite need_loaded by done; unfold need in Hf; lia|].
    rewrite E. cbn [mbind outcome_bind]. by eexists _, _.
Qed.

(** ** Insertion *)

(** What insertion leaves: the changed tree, or the same if it changes nothing. *)
Definition insert_ok (r s : bool) (t : trie) (key : list nat) (v : bytes) (res : outcome (bool * node)) : Prop :=
  exists dirty n', res = Ret (dirty, n') /\ if dirty : bool then rep r false n' (t_insert t key v) else rep r s n' t /\ t_insert t key v = t.

Definition attach_node (k : list nat) (n : node) : node := match k with [] => n | _ => ShortNode k n newFlag end.

Lemma attach_node_rep r k n t : rep false false n t -> t <> TNil -> k <> [] -> rep r false (attach_node k n) (attach k t).
Proof. intros Hn Ht Hk. destruct k; [done|]. constructor; [done|done|apply newFlag_ok|done]. Qed.

Lemma attach_node_child k n t : rep false false n t -> t <> TNil -> rep false false (attach_node k n) (attach k t).
Proof. intros Hn Ht. destruct k; [done|]. by apply attach_node_rep. Qed.

Lemma insert_into_nil fuel prefix k value : insert (S fuel) NilNode prefix k value = Ret (true, attach_node k value).
Proof. by destruct k. Qed.

Lemma fork_node_rep x k c y key v old new : x <> y -> x < 17 -> y < 17 -> slot_ok x (attach k c) -> tkey (y :: key) -> v <> [] ->
  rep false false old (attach k c) -> rep false false new (attach key (TValue v)) ->
  rep false false (FullNode (<[y := new]> (<[x := old]> (replicate 17 NilNode))) newFlag) (TFull (fork_children x k c y key (TValue v))).
Proof.
  intros Hne Hx Hy Hs Hk Hv Hold Hnew. constructor; [unfold fork_children; by rewrite !length_insert|..|apply newFlag_ok|done].
  - intros t. rewrite lookup_fork by lia. intros [= <-].
    destruct (decide (16 = y)) as [<-|]; [destruct (slot_new _ _ _ Hk Hv) as [[? _]|[_ [?|(u & ? & _)]]]; [lia|by left|right; eauto]|].
    destruct (decide (16 = x)) as [<-|]; [|by left]. destruct Hs as [[? _]|[_ [?|(u & ? & _)]]]; [lia|by left|right; eauto].
  - intros i n t Hi. assert (i < 17) as Hlt by (apply lookup_lt_Some in Hi; by rewrite !length_insert in Hi). rewrite lookup_fork by done. intros [= <-].
    destruct (decide (i = y)) as [->|Hiy]; [rewrite list_lookup_insert_eq in Hi by (by rewrite length_insert); by injection Hi as <-|].
    rewrite list_lookup_insert_ne in Hi by done.
    destruct (decide (i = x)) as [->|]; [rewrite list_lookup_insert_eq in Hi by done; by injection Hi as <-|].
    rewrite list_lookup_insert_ne in Hi by done. apply lookup_replicate in Hi as [-> _]. constructor.
Qed.

Lemma insert_fork fuel r s p x k c y key v fl u prefix : x <> y -> x < 17 -> y < 17 -> wf (TShort (p ++ x :: k) u) -> tkey (p ++ y :: key) -> v <> [] ->
  rep false s c u -> 2 <= fuel ->
  forall s', insert_ok r s' (TShort (p ++ x :: k) u) (p ++ y :: key) v (insert fuel (ShortNode (p ++ x :: k) c fl) prefix (p ++ y :: key) (ValueNode v)).
Proof.
  intros Hne Hx Hy Hw Hk Hv Hc Hf s'. apply (n_rep_weaken db _ _ false) in Hc; [|done]. destruct fuel as [|[|fuel]]; [lia|lia|]. unfold insert_ok. rewrite insert_short_fork by done.
  destruct (p ++ y :: key) as [|i key'] eqn:Ek; [by destruct p|]. set (f1 := S fuel). cbn [insert]. rewrite <- Ek in *. clear i key' Ek.
  assert (prefixLen (p ++ y :: key) (p ++ x :: k) = length p) as ->.
  { rewrite prefixLen_app. cbn. assert ((y =? x) = false) as -> by (apply Nat.eqb_neq; congruence). lia. }
  assert ((length p =? length (p ++ x :: k)) = false) as -> by (apply Nat.eqb_neq; rewrite length_app; cbn; lia).
  unfold key_at. rewrite !lookup_app_r, !Nat.sub_diag by lia. cbn [lookup list_lookup deref mbind outcome_bind]. unfold f1. rewrite !insert_into_nil, !drop_S_app.
  cbn [mbind outcome_bind]. rewrite !(proj2 (Nat.ltb_ge 16 _)) by lia. cbn [orb]. rewrite take_app_length.
  apply wf_short_rest in Hw as (Hu & _ & Hsl). assert (p <> p ++ y :: key) as Hpk by (intros E%(f_equal length); rewrite length_app in E; cbn in E; lia).
  destruct (tkey_strip p _ _ Hk (strip_prefix _ _) Hpk) as [Hp Hk'].
  pose proof (fork_node_rep x k u y key v (attach_node k c) (attach_node key (ValueNode v)) Hne Hx Hy Hsl Hk' Hv (attach_node_child k c u Hc Hu)
    (attach_node_child key _ _ (nr_value db false false v) ltac:(done))) as Hb.
  destruct p as [|z p]; eexists true, _; (split; [done|]); cbn [attach].
  - inversion Hb; subst. constructor; [done|done|done|apply newFlag_ok|done].
  - constructor; [done|done|apply newFlag_ok|done].
Qed.

(** The statement of the insertion lemma, for the induction on the fuel. *)
Definition inserts (fuel : nat) : Prop := forall r s n t key prefix v, rep r s n t -> reaches t key -> v <> [] -> need n key <= fuel ->
  insert_ok r s t key v (insert fuel n prefix key (ValueNode v)).

Lemma short_key_pos k u : wf (TShort k u) -> 0 < length k.
Proof. inversion 1; subst; [rewrite length_app; cbn; lia|]. destruct k; [done|cbn; lia]. Qed.

Lemma insert_through k u q v : wf (TShort k u) -> reaches u q -> t_insert (TShort k u) (k ++ q) v = TShort k (t_insert u q v).
Proof.
  intros Hw Hr. destruct q as [|i q]; [|by apply insert_short_through]. rewrite app_nil_r. destruct Hr as [[_ Hk]|[_ [->|(x & -> & _)]]].
  - by apply tkey_nonempty in Hk.
  - inversion Hw.
  - apply short_key_pos in Hw. rewrite insert_exact by (intros ->; cbn in Hw; lia). by rewrite insert_empty_key.
Qed.

Lemma insert_through_ok fuel r s k c fl u q prefix v : inserts fuel -> wf (TShort k u) -> rep r s (ShortNode k c fl) (TShort k u) -> tkey (k ++ q) -> v <> [] ->
  2 * length q + 2 <= fuel -> insert_ok r s (TShort k u) (k ++ q) v (insert (S fuel) (ShortNode k c fl) prefix (k ++ q) (ValueNode v)).
Proof.
  intros IH Hw Hr Hk Hv Hf. inversion Hr as [| |? ? ? ? ? ? Hc Hn Hfl Hsf| |]; subst. destruct (reaches_short k u q Hw Hk) as [Hre _].
  unfold insert_ok. rewrite insert_through by done. destruct (k ++ q) as [|i key'] eqn:Ek; [by apply tkey_nonempty in Hk|]. cbn [insert]. rewrite <- Ek in *.
  assert (prefixLen (k ++ q) k = length k) as -> by (apply prefixLen_prefix; eauto). rewrite Nat.eqb_refl, take_app_length, drop_app_length.
  destruct (IH false _ c u q (prefix ++ k) v Hc Hre Hv) as (dirty & nn & E & Hnn); [pose proof (need_le c q); lia|]. rewrite E. cbn [mbind outcome_bind].
  destruct dirty; cbn [negb]; eexists _, _; (split; [done|]).
  - constructor; [done| |apply newFlag_ok|done]. destruct Hre as [[Hwu Hq]|[-> _]]; [|by rewrite insert_empty_key].
    apply wf_not_nil. destruct Hwu as [->|Hwu]; [done|]. by apply wf_insert_wf.
  - split; [by constructor|]. by rewrite (proj2 Hnn).
Qed.

Lemma insert_full_ok fuel r s cs fl ts i key prefix v : inserts fuel -> wf (TFull ts) -> rep r s (FullNode cs fl) (TFull ts) -> tkey (i :: key) -> v <> [] ->
  2 * length key + 2 <= fuel -> insert_ok r s (TFull ts) (i :: key) v (insert (S fuel) (FullNode cs fl) prefix (i :: key) (ValueNode v)).
Proof.
  intros IH Hw Hr Hk Hv Hf. inversion Hr as [| | |? ? ? ? ? Hl H16 Hc Hfl Hsf|]; subst. destruct (reaches_full ts i key Hw Hk) as (u & Hu & Hre & Hi).
  destruct (lookup_lt_is_Some_2 cs i) as [c Hci]; [rewrite Hl; by eapply lookup_lt_Some|]. unfold insert_ok. rewrite insert_full. cbn [insert].
  unfold child_at. rewrite Hci. cbn [mbind outcome_bind deref].
  destruct (IH false _ c u key (prefix ++ [i]) v (Hc i c u Hci Hu) Hre Hv) as (dirty & nn & E & Hnn); [pose proof (need_le c key); lia|]. rewrite E.
  cbn [mbind outcome_bind]. destruct dirty; cbn [negb]; eexists _, _; (split; [done|]).
  - apply (set_child_rep r s cs fl ts i nn _ u); [done|done|done|]. intros ->.
    apply tkey_cons in Hk as [[_ ->]|[Hn _]]; [rewrite insert_empty_key; right; eauto|unfold nibble in Hn; lia].
  - split; [done|]. f_equal. apply (change_same ts i u (fun c => t_insert c key v)); [done|apply Hnn].
Qed.

(** Insertion into a node is insertion into its tree. *)
Lemma insert_rep fuel : inserts fuel.
Proof.
  induction fuel as [|fuel IH]; intros r s n t key prefix v Hr Hre Hv Hf; [unfold need in Hf; destruct n; lia|].
  destruct Hre as [[Hw Hk]|[-> Ht]].
  2: { destruct Ht as [->|(u & -> & _)]; inversion Hr as [| | | |? ? ? ? Hw]; subst; try by inversion Hw.
       - exists true, (ValueNode v). split; [done|constructor].
       - cbn [insert]. eexists _, _. split; [done|]. rewrite insert_empty_key. destruct (bool_decide_reflect (u = v)) as [->|]; cbn [negb]; [split; [constructor|done]|constructor]. }
  inversion Hr as [? ?|? ? u|? ? k c fl u Hc Hn Hfl Hsf|? ? cs fl ts Hl H16 Hc Hfl Hsf|? ? h ? Hwt]; subst.
  - destruct key as [|i key]; [by apply tkey_nonempty in Hk|]. eexists true, _. split; [done|]. constructor; [constructor|done|apply newFlag_ok|done].
  - destruct Hw as [|Hw]; [done|inversion Hw].
  - destruct Hw as [|Hw]; [done|]. destruct (strip k key) as [q|] eqn:Es.
    + apply strip_Some in Es as ->. apply insert_through_ok; try done. pose proof (short_key_pos k u Hw). unfold need in Hf. rewrite length_app in Hf. lia.
    + destruct (short_cases k key Hk (wf_short_key k u Hw)) as [(q & -> & _)|(p & x & k' & y & q & -> & -> & Hxy & Hx & Hy)].
      * intros ->. by rewrite <- (app_nil_r key) in Es at 2; rewrite strip_prefix in Es.
      * by rewrite strip_prefix in Es.
      * apply (insert_fork _ r (s || cached fl)); try done. unfold need in Hf. rewrite length_app in Hf. cbn [length] in Hf. lia.
  - destruct Hw as [|Hw]; [done|]. destruct key as [|i key]; [by apply tkey_nonempty in Hk|]. apply insert_full_ok; try done. unfold need in Hf. cbn [length] in Hf. lia.
  - destruct (resolveHash_rep r s _ t prefix Hr) as (rn & Ern & Hrn & Hld). destruct key as [|i key'] eqn:Ek; [by apply tkey_nonempty in Hk|].
    cbn [insert]. rewrite Ern. cbn [mbind outcome_bind]. rewrite <- Ek in *.
    destruct (IH r true rn t key prefix v Hrn) as (dirty & nn & E & Hnn); [by left|done|rewrite need_loaded by done; unfold need in Hf; lia|].
    rewrite E. cbn [mbind outcome_bind]. destruct dirty; cbn [negb]; eexists _, _; (split; [done|]); [done|]. split; [by apply (n_rep_weaken db r true)|apply Hnn].
Qed.

(** ** Deletion *)

Definition delete_ok (r s : bool) (t : trie) (key : list nat) (res : outcome (bool * node)) : Prop :=
  exists dirty n', res = Ret (dirty, n') /\ if dirty : bool then rep r false n' (t_delete t key) /\ loaded n' else rep r s n' t /\ t_delete t key = t.

Lemma only_pos_none i pos cs : (forall j c, cs !! j = Some c -> c = NilNode) -> only_pos i pos cs = pos.
Proof.
  revert i. induction cs as [|c cs IH]; intros i Hc; [done|]. cbn [only_pos]. rewrite (Hc 0 c eq_refl). apply IH. intros j. apply (Hc (S j)).
Qed.

Lemma only_pos_one i j cs c : cs !! j = Some c -> c <> NilNode -> (forall k d, cs !! k = Some d -> k <> j -> d = NilNode) ->
  only_pos i (-1) cs = Z.of_nat (i + j).
Proof.
  revert i j. induction cs as [|d cs IH]; intros i [|j] Hj Hn Ho; try done; cbn [only_pos].
  - injection Hj as ->. assert (only_pos (S i) (Z.of_nat i) cs = Z.of_nat i) as E by (apply only_pos_none; intros k e Hk; by apply (Ho (S k))).
    rewrite Nat.add_0_r. by destruct c.
  - rewrite (Ho 0 d eq_refl) by done. rewrite (IH (S i) j Hj Hn); [f_equal; lia|]. intros k e Hk Hne. apply (Ho (S k) e Hk). lia.
Qed.

Lemma only_pos_some i pos j cs c : (0 <= pos)%Z -> cs !! j = Some c -> c <> NilNode -> only_pos i pos cs = (-2)%Z.
Proof.
  intros Hp. revert i j. induction cs as [|d cs IH]; intros i [|j] Hj Hn; try done; cbn [only_pos]; rewrite (proj2 (Z.eqb_neq pos (-1))) by lia.
  - injection Hj as ->. by destruct c.
  - destruct d; try done. by apply (IH (S i) j).
Qed.

Lemma only_pos_two i j k cs c d : j < k -> cs !! j = Some c -> c <> NilNode -> cs !! k = Some d -> d <> NilNode -> only_pos i (-1) cs = (-2)%Z.
Proof.
  revert i j k. induction cs as [|e cs IH]; intros i [|j] [|k] Hjk Hj Hc Hk Hd; try done; try lia; cbn [only_pos].
  - injection Hj as ->. assert (only_pos (S i) (Z.of_nat i) cs = (-2)%Z) as E by (apply (only_pos_some _ _ k _ d); [lia|done..]). by destruct c.
  - assert (only_pos (S i) (-1) cs = (-2)%Z) as E by (apply (IH (S i) j k); try done; lia). destruct e; try done;
      (apply (only_pos_some _ _ j _ c); [lia|done..]).
Qed.

(** The full node that is left, reduced. *)
Lemma reduce_full_rep r r' prefix cs fl ts : rep r' false (FullNode cs fl) (TFull ts) -> length ts = 17 -> (forall i t, ts !! i = Some t -> slot_ok i t) ->
  (exists i t, ts !! i = Some t /\ t <> TNil) -> exists n, reduce_full prefix cs = Ret (true, n) /\ rep r false n (reduce ts) /\ loaded n.
Proof.
  intros Hr H17 Hs Hex. inversion Hr as [| | |? ? ? ? ? Hl H16 Hc Hfl Hsf|]; subst.
  assert (forall i t, ts !! i = Some t -> exists c, cs !! i = Some c /\ rep false false c t) as Hlk.
  { intros i t Hi. destruct (lookup_lt_is_Some_2 cs i) as [c Hci]; [rewrite Hl; by eapply lookup_lt_Some|]. exists c. split; [done|]. by eapply rep_any, Hc. }
  unfold reduce, reduce_full. destruct (only_child ts) as [i|] eqn:Eo.
  - destruct (only_child_Some ts i Eo) as (t & Hi & Hn & Hother). destruct (Hlk i t Hi) as (c & Hci & Hrc).
    assert (c <> NilNode) as Hcn by by intros ->%(n_rep_nil db _ _ _ _ Hrc).
    rewrite (only_pos_one 0 i cs c); [|done|done|].
    2: { intros k d Hk Hne. destruct (lookup_lt_is_Some_2 ts k) as [u Hu]; [rewrite <- Hl; by eapply lookup_lt_Some|].
         apply (n_rep_nil db _ _ _ _ (Hc k d u Hk Hu)). by apply (Hother k). }
    rewrite (proj2 (Z.leb_le _ _)), Nat.add_0_l, Nat2Z.id by lia. unfold child_at. rewrite Hi, Hci. cbn [mbind outcome_bind deref].
    destruct (Hs i t Hi) as [[Hlt [->|Hw]]|[-> [->|(v & -> & Hv)]]]; [done| |done|].
    + rewrite (proj2 (Nat.eqb_neq i 16)) by lia. cbn [negb].
      assert (exists cn, resolve c prefix = Ret cn /\ rep false false cn t /\ loaded cn) as (cn & -> & Hcn' & Hld).
      { destruct c; try (by eexists; split_and!). destruct (resolveHash_rep false false h t prefix Hrc) as (cn & ? & ? & ?). exists cn.
        split_and!; [done|by apply (n_rep_weaken db _ true)|done]. }
      cbn [mbind outcome_bind]. inversion Hcn' as [|? ? v|? ? k v fl' u Hv Hnu _ _|? ? cs' fl' ts' Hl' _ _ _ _|? ? h]; subst; try done.
      * inversion Hw.
      * eexists. split; [done|]. split; [|done]. constructor; [by eapply rep_any|done|apply newFlag_ok|done].
      * eexists. split; [done|]. split; [|done]. constructor; [by eapply rep_any|done|apply newFlag_ok|done].
      * by destruct (Hld (keccak256 (t_enc t))).
    + cbn [Nat.eqb negb]. eexists. split; [done|]. split; [|done]. constructor; [done|done|apply newFlag_ok|done].
  - destruct (only_child_None ts Eo Hex) as (i & j & t & u & Hij & Hi & Hj & Ht & Hu).
    destruct (Hlk i t Hi) as (c & Hci & Hrc), (Hlk j u Hj) as (d & Hdj & Hrd).
    assert (c <> NilNode) as Hcn by by intros ->%(n_rep_nil db _ _ _ _ Hrc). assert (d <> NilNode) as Hdn by by intros ->%(n_rep_nil db _ _ _ _ Hrd).
    assert (only_pos 0 (-1) cs = (-2)%Z) as ->.
    { destruct (Nat.lt_total i j) as [Hlt|[?|Hlt]]; [by apply (only_pos_two 0 i j cs c d)|done|by apply (only_pos_two 0 j i cs d c)]. }
    cbn. eexists. split; [done|]. split; [|done]. constructor; [done|done| |apply newFlag_ok|done]. intros k e w Hk Hw. by destruct (Hlk k w Hw) as (e' & He & ?); assert (e = e') as -> by congruence.
Qed.

Definition deletes (fuel : nat) : Prop := forall r s n t key prefix, rep r s n t -> reaches t key -> need n key <= fuel ->
  delete_ok r s t key (delete fuel n prefix key).

Lemma delete_short_ok fuel r s k c fl u key prefix : deletes fuel -> wf (TShort k u) -> rep r s (ShortNode k c fl) (TShort k u) -> tkey key ->
  2 * length key <= fuel -> delete_ok r s (TShort k u) key (delete (S fuel) (ShortNode k c fl) prefix key).
Proof.
  intros IH Hw Hr Hk Hf. inversion Hr as [| |? ? ? ? ? ? Hc Hn Hfl Hsf| |]; subst. cbn [delete]. pose proof (short_key_pos k u Hw) as Hpos.
  destruct (delete_short_cases k u key Hw Hk) as [[-> [v ->]]|[Hm|(q & ds & -> & Hq & -> & Hne & Hnb & Hwd)]].
  - rewrite (proj2 (prefixLen_prefix key key)) by (exists []; by rewrite app_nil_r). rewrite Nat.ltb_irrefl, Nat.eqb_refl.
    exists true, NilNode. split; [done|]. rewrite delete_exact. split; [constructor|done].
  - destruct (Nat.ltb_spec (prefixLen key k) (length k)) as [_|Hge].
    + eexists false, _. split; [done|]. split; [by constructor|]. by apply delete_short_miss.
    + assert (prefixLen key k = length k) as E by (pose proof (proj2 (prefixLen_le key k)); lia). apply prefixLen_prefix in E as [q ->]. by destruct (Hm q).
  - rewrite (proj2 (prefixLen_prefix k (k ++ q))) by eauto. rewrite Nat.ltb_irrefl. pose proof (tkey_nonempty q Hq) as Hqn.
    assert ((length k =? length (k ++ q)) = false) as -> by (apply Nat.eqb_neq; rewrite length_app; destruct q; [done|cbn; lia]).
    rewrite take_app_length, drop_app_length. unfold delete_ok. rewrite delete_short_through by done.
    destruct (IH false _ c (TFull ds) q (prefix ++ k) Hc) as (dirty & child & E & Hch); [left; split; [by right|done]| |].
    { pose proof (need_le c q). rewrite length_app in Hf. lia. }
    rewrite E. cbn [mbind outcome_bind]. destruct dirty; cbn [negb].
    2: { eexists false, _. split; [done|]. split; [by constructor|]. by rewrite (proj2 Hch). }
    destruct Hch as [Hch Hld]. assert (t_delete (TFull ds) q <> TNil) as Hdn.
    { destruct (wf_delete (TFull ds) q Hwd Hq) as [_ Hnn]. intros En. destruct Hnn as [v ?]; [by rewrite En|done]. }
    revert Hch Hdn. generalize (t_delete (TFull ds) q) as w. intros w Hch Hdn. clear E.
    inversion Hch as [|? ? v|? ? k' c' fl' u' Hc' Hn' Hfl' Hsf'|? ? cs' fl' ts' Hl'|? ? h ? Hwt Hh]; subst; [done|..].
    + eexists true, _. split; [done|]. split; [|done]. cbn [join]. constructor; [constructor|done|apply newFlag_ok|done].
    + eexists true, _. split; [done|]. split; [|done]. cbn [join]. constructor; [by eapply rep_any|done|apply newFlag_ok|done].
    + eexists true, _. split; [done|]. split; [|done]. cbn [join]. constructor; [done|done|apply newFlag_ok|done].
    + by destruct (Hld (keccak256 (t_enc w))).
Qed.

Lemma delete_slot u key : reaches u key -> key = [] -> t_delete u key = TNil.
Proof. intros Hr ->. destruct Hr as [[_ Hk]|[_ [->|(v & -> & _)]]]; [by apply tkey_nonempty in Hk|done|done]. Qed.

Lemma delete_same_absent u key : reaches u key -> t_delete u key = u -> t_get u key = None.
Proof.
  intros Hr E. destruct Hr as [[Hw Hk]|[-> Ht]].
  - rewrite <- E, get_delete by done. by rewrite decide_True.
  - by destruct Ht as [->|(v & -> & _)].
Qed.

Lemma delete_full_ok fuel r s cs fl ts i key prefix : deletes fuel -> wf (TFull ts) -> rep r s (FullNode cs fl) (TFull ts) -> tkey (i :: key) ->
  2 * length key + 2 <= fuel -> delete_ok r s (TFull ts) (i :: key) (delete (S fuel) (FullNode cs fl) prefix (i :: key)).
Proof.
  intros IH Hw Hr Hk Hf. inversion Hr as [| | |? ? ? ? ? Hl H16 Hc Hfl Hsf|]; subst. destruct (reaches_full ts i key Hw Hk) as (u & Hu & Hre & Hi).
  destruct (lookup_lt_is_Some_2 cs i) as [c Hci]; [rewrite Hl; by eapply lookup_lt_Some|]. unfold delete_ok. cbn [delete].
  unfold key_at, child_at. cbn [lookup list_lookup deref mbind outcome_bind]. change (drop 1 (i :: key)) with key. rewrite Hci. cbn [mbind outcome_bind deref].
  destruct (IH false _ c u key (prefix ++ [i]) (Hc i c u Hci Hu) Hre) as (dirty & nn & E & Hnn); [pose proof (need_le c key); lia|]. rewrite E.
  cbn [mbind outcome_bind]. destruct dirty; cbn [negb].
  - rewrite delete_full. destruct (change_delete_slots ts i key Hw Hk) as (H17 & Hsl & Hex).
    { intros d Hd Hlt Hkk Hdn. apply wf_delete_root; [|done]. destruct (wf_slots ts i d Hw Hd) as [[_ ?]|[? _]]; [done|lia]. }
    edestruct (reduce_full_rep r r prefix (<[i := nn]> cs) newFlag) as (n & En & Hn & Hld); [|exact H17|exact Hsl|exact Hex|by exists true, n].
    apply (set_child_rep r s cs fl ts i nn (fun c => t_delete c key) u); [done|done|apply Hnn|].
    intros ->. left. apply (delete_slot u key Hre). by apply tkey_cons in Hk as [[_ ->]|[Hnb _]]; [|unfold nibble in Hnb; lia].
  - eexists false, _. split; [done|]. split; [done|]. apply delete_absent; [done|done|]. rewrite get_full, Hu.
    apply delete_same_absent; [done|apply Hnn].
Qed.

(** Deletion from a node is deletion from its tree. *)
Lemma delete_rep fuel : deletes fuel.
Proof.
  induction fuel as [|fuel IH]; intros r s n t key prefix Hr Hre Hf; [unfold need in Hf; destruct n; lia|].
  inversion Hr as [? ?|? ? u|? ? k c fl u Hc Hn Hfl Hsf|? ? cs fl ts Hl H16 Hc Hfl Hsf|? ? h ? Hwt]; subst.
  - eexists false, _. split; [done|]. split; [constructor|apply delete_nil].
  - eexists true, _. split; [done|]. destruct Hre as [[[?|Hw] _]|[-> _]]; [done|inversion Hw|]. split; [constructor|done].
  - destruct Hre as [[[?|Hw] Hk]|[_ [?|(? & ? & _)]]]; try done. apply delete_short_ok; try done. unfold need in Hf. lia.
  - destruct Hre as [[[?|Hw] Hk]|[_ [?|(? & ? & _)]]]; try done. destruct key as [|i key]; [by apply tkey_nonempty in Hk|].
    apply delete_full_ok; try done. unfold need in Hf. cbn [length] in Hf. lia.
  - destruct (resolveHash_rep r s _ t prefix Hr) as (rn & Ern & Hrn & Hld). cbn [delete]. rewrite Ern. cbn [mbind outcome_bind].
    destruct (IH r true rn t key prefix Hrn Hre) as (dirty & nn & E & Hnn); [rewrite need_loaded by done; unfold need in Hf; lia|].
    rewrite E. cbn [mbind outcome_bind]. destruct dirty; cbn [negb]; eexists _, _; (split; [done|]); [done|]. split; [by apply (n_rep_weaken db r true)|apply Hnn].
Qed.

End Nodes.

(** ** The trie *)

Record Trie := mkTrie {
  tr_db : gmap Hash bytes;
  tr_root : node;
  tr_unhashed : Z
}.

Definition set_root (n : node) (t : Trie) : Trie := mkTrie (tr_db t) n (tr_unhashed t).
Definition set_unhashed (z : Z) (t : Trie) : Trie := mkTrie (tr_db t) (tr_root t) z.

Definition key_fuel (key : list nat) : nat := 2 * length key + 2.

(** [New]; a nil database is excluded. *)
Definition New (root : Hash) (db : gmap Hash bytes) : outcome Trie :=
  if negb (root =? 0)%Z && negb (root =? emptyRoot)%Z then
    rootnode ← resolveHash db (Hash_Bytes root) [];
    Ret (mkTrie db rootnode 0)
  else Ret (mkTrie db NilNode 0).

Definition TryGet (key : bytes) : M Trie (option bytes) := fun t =>
  let k := keybytesToHex key in
  match tryGet (tr_db t) (key_fuel k) (tr_root t) k 0 with
  | Ret (value, newroot, didResolve) => (Ret value, if didResolve then set_root newroot t else t)
  | Err e => (Err e, t)
  | Panic => (Panic, t)
  end.

Definition after (t : Trie) (res : outcome (bool * node)) : outcome unit * Trie :=
  match res with
  | Ret (_, n) => (Ret tt, set_root n t)
  | Err e => (Err e, t)
  | Panic => (Panic, t)
  end.

Definition TryDelete (key : bytes) : M Trie unit := fun t =>
  let t := set_unhashed (tr_unhashed t + 1) t in
  let k := keybytesToHex key in
  after t (delete (tr_db t) (key_fuel k) (tr_root t) [] k).

(** An empty value deletes. *)
Definition TryUpdate (key value : bytes) : M Trie unit := fun t =>
  let t := set_unhashed (tr_unhashed t + 1) t in
  let k := keybytesToHex key in
  match value with
  | [] => after t (delete (tr_db t) (key_fuel k) (tr_root t) [] k)
  | _ => after t (insert (tr_db t) (key_fuel k) (tr_root t) [] k (ValueNode value))
  end.

(** [hashRoot]; hashing in parallel computes the same. *)
Definition hashRoot (t : Trie) : node * node * Trie :=
  match tr_root t with
  | NilNode => (HashNode (Hash_Bytes emptyRoot), NilNode, t)
  | n => let '(hashed, cached) := n_hash n true in (hashed, cached, set_unhashed 0 t)
  end.

Definition Trie_Hash : M Trie Hash := fun t =>
  let '(hash, cached, t) := hashRoot t in
  (match hash with HashNode h => Ret (BytesToHash h) | _ => Panic end, set_root cached t).

Definition Reset (t : Trie) : Trie := mkTrie (tr_db t) NilNode 0.

(** *** A trie is a map *)

(** The trie stands for a tree. *)
Definition trie_rep (t : Trie) (u : trie) : Prop := n_rep (tr_db t) true false (tr_root t) u /\ wf_root u.

Lemma reaches_key u key : wf_root u -> reaches u (keybytesToHex key).
Proof. intros Hw. left. split; [done|apply tkey_hex]. Qed.

Lemma key_fuel_need n key : need n key <= key_fuel key.
Proof. apply need_le. Qed.

Lemma TryGet_rep t u key : trie_rep t u -> exists t', TryGet key t = (Ret (t_get u (keybytesToHex key)), t') /\ trie_rep t' u /\ tr_db t' = tr_db t.
Proof.
  intros [Hr Hw]. destruct (tryGet_rep (tr_db t) (key_fuel (keybytesToHex key)) true false (tr_root t) u (keybytesToHex key) 0 Hr) as (n' & b & E & Hn').
  - rewrite drop_0. by apply reaches_key.
  - rewrite drop_0. apply key_fuel_need.
  - rewrite drop_0 in E. unfold TryGet. rewrite E. eexists. split; [done|]. destruct b; [|done]. by split.
Qed.

Lemma after_rep t u n : n_rep (tr_db t) true false n u -> wf_root u -> trie_rep (set_root n t) u.
Proof. by split. Qed.

Lemma TryUpdate_rep t u key v : trie_rep t u -> v <> [] ->
  exists t', TryUpdate key v t = (Ret tt, t') /\ trie_rep t' (t_insert u (keybytesToHex key) v) /\ tr_db t' = tr_db t.
Proof.
  intros [Hr Hw] Hv. unfold TryUpdate. destruct v as [|x v]; [done|]. cbn [set_unhashed tr_db tr_root].
  destruct (insert_rep (tr_db t) (key_fuel (keybytesToHex key)) true false (tr_root t) u (keybytesToHex key) [] (x :: v) Hr) as (d & n & E & Hn);
    [by apply reaches_key|done|apply key_fuel_need|]. rewrite E. eexists. split; [done|]. split; [|done].
  split; [|apply wf_insert; [done|apply tkey_hex|done]]. destruct d; [done|]. by destruct Hn as [Hn ->].
Qed.

Lemma TryDelete_rep t u key : trie_rep t u -> exists t', TryDelete key t = (Ret tt, t') /\ trie_rep t' (t_delete u (keybytesToHex key)) /\ tr_db t' = tr_db t.
Proof.
  intros [Hr Hw]. unfold TryDelete. cbn [set_unhashed tr_db tr_root].
  destruct (delete_rep (tr_db t) (key_fuel (keybytesToHex key)) true false (tr_root t) u (keybytesToHex key) [] Hr) as (d & n & E & Hn);
    [by apply reaches_key|apply key_fuel_need|]. rewrite E. eexists. split; [done|]. split; [|done].
  split; [|apply wf_delete_root; [done|apply tkey_hex]]. destruct d; [apply Hn|]. by destruct Hn as [Hn ->].
Qed.

Lemma TryUpdate_nil key t : TryUpdate key [] t = TryDelete key t.
Proof. done. Qed.

Lemma hashRoot_some t : tr_root t <> NilNode -> hashRoot t = (n_hash (tr_root t) true, set_unhashed 0 t).
Proof. intros Hn. unfold hashRoot. destruct (tr_root t); try done; by destruct (n_hash _ _). Qed.

(** The cached hashes do not matter. *)
Lemma Trie_Hash_rep t u : trie_rep t u -> exists t', Trie_Hash t = (Ret (BytesToHash (t_hash u)), t') /\ trie_rep t' u /\ tr_db t' = tr_db t /\
  n_rep (tr_db t') true true (tr_root t') u.
Proof.
  intros [Hr Hw]. unfold Trie_Hash. destruct (nil_or_not (tr_root t)) as [En|Hn].
  - unfold hashRoot. rewrite En in *. inversion Hr; subst. eexists. split; [done|]. split_and!; [split; [constructor|done]|done|constructor].
  - rewrite hashRoot_some by done. destruct (n_hash_rep (tr_db t) true false (tr_root t) u Hr Hn) as [[_ Hh] Hc]. destruct Hw as [->|Hw]; [by destruct Hn; apply (n_rep_nil _ _ _ _ _ Hr)|].
    destruct (wf_item u Hw) as [l El]. specialize (Hh l El).
    assert (t_hash u = keccak256 (t_enc u)) as -> by by destruct Hw.
    destruct (n_hash (tr_root t) true) as [hashed cached]. cbn [fst snd] in Hh, Hc. subst hashed.
    eexists. split; [done|]. split_and!; [split; [by apply (rep_any _ _ true)|by right]|done|done].
Qed.

End Trie.
