(* ===== verification/TrieCommit.v ===== *)
(** * Writing a trie to its database ([trie/committer.go], [Commit] and [New])

    [Commit] hashes a trie, writes the encodings of the nodes that changed to
    the store and leaves only the root hash in memory.  The trie still stands
    for the same tree afterwards, and so does the trie that [New] opens with
    the root hash.  The callback on leaves is nil here. *)
From Stdlib Require Import ZArith Lia Strings.Byte.
From stdpp Require Import base option gmap list.
From S2P Require Import Prelude Errors Rlp Nibbles Patricia Common Merkle TrieNode Trie.
Open Scope nat_scope.

Section Commit.
Context `{Keccak}.

(** [db.insert]: a node that is there is not written again. *)
Definition db_insert (hash : Hash) (enc : bytes) (db : gmap Hash bytes) : gmap Hash bytes :=
  match db !! hash with Some _ => db | None => <[hash := enc]> db end.

(** [store]: a node without a hash stays in its parent. *)
Definition store (n : node) (db : gmap Hash bytes) : node * gmap Hash bytes :=
  match (n_cache n).1 with
  | None => (n, db)
  | Some hash => (HashNode hash, db_insert (BytesToHash hash) (encode (n_item n)) db)
  end.

Fixpoint commit (n : node) (db : gmap Hash bytes) : outcome (node * gmap Hash bytes) :=
  match n with
  | ShortNode k c fl =>
      match n_cache n with
      | (Some h, false) => Ret (HashNode h, db)
      | _ =>
          '(cv, db1) ← match c with FullNode _ _ => commit c db | _ => Ret (c, db) end;
          Ret (store (ShortNode (nat_of_byte <$> hexToCompact k) cv fl) db1)
      end
  | FullNode cs fl =>
      match n_cache n with
      | (Some h, false) => Ret (HashNode h, db)
      | _ =>
          '(kids, db1) ← (fix go (i : nat) (cs : list node) (db : gmap Hash bytes) : outcome (list node * gmap Hash bytes) :=
                            match cs with
                            | [] => Ret ([], db)
                            | c :: cs' =>
                                '(c', db1) ← (if i =? 16 then Ret (c, db)
                                              else match c with NilNode | HashNode _ => Ret (c, db) | _ => commit c db end);
                                '(kids, db2) ← go (S i) cs' db1;
                                Ret (c' :: kids, db2)
                            end) 0 cs db;
          Ret (store (FullNode kids fl) db1)
      end
  | HashNode _ => Ret (n, db)
  | _ => Panic
  end.

(** [Commit] after hashing: a clean root needs no writing. *)
Definition commit_hashed (rootHash : Hash) : M Trie Hash := fun t =>
  if negb (n_cache (tr_root t)).2 then (Ret rootHash, t)
  else match commit (tr_root t) (tr_db t) with
       | Ret (HashNode h, db') => (Ret rootHash, mkTrie db' (HashNode h) (tr_unhashed t))
       | Ret _ | Panic => (Panic, t)
       | Err e => (Err e, t)
       end.

(** [Commit] of the trie, with no callback. *)
Definition Commit : M Trie Hash := fun t =>
  match tr_root t with
  | NilNode => (Ret emptyRoot, t)
  | _ => (rootHash ← Trie_Hash; commit_hashed rootHash) t
  end.

(** The children of a full node, one after another. *)
Definition commit_kid (i : nat) (c : node) (db : gmap Hash bytes) : outcome (node * gmap Hash bytes) :=
  if i =? 16 then Ret (c, db) else match c with NilNode | HashNode _ => Ret (c, db) | _ => commit c db end.

Fixpoint commitChildren (i : nat) (cs : list node) (db : gmap Hash bytes) : outcome (list node * gmap Hash bytes) :=
  match cs with
  | [] => Ret ([], db)
  | c :: cs' => '(c', db1) ← commit_kid i c db; '(kids, db2) ← commitChildren (S i) cs' db1; Ret (c' :: kids, db2)
  end.

Lemma commit_full cs fl db : commit (FullNode cs fl) db =
  match n_cache (FullNode cs fl) with
  | (Some h, false) => Ret (HashNode h, db)
  | _ => '(kids, db1) ← commitChildren 0 cs db; Ret (store (FullNode kids fl) db1)
  end.
Proof.
  cbn [commit]. assert (forall cs i db, (fix go (i : nat) (cs : list node) (db : gmap Hash bytes) : outcome (list node * gmap Hash bytes) :=
    match cs with
    | [] => Ret ([], db)
    | c :: cs' =>
        '(c', db1) ← (if i =? 16 then Ret (c, db)
                      else match c with NilNode | HashNode _ => Ret (c, db) | _ => commit c db end);
        '(kids, db2) ← go (S i) cs' db1;
        Ret (c' :: kids, db2)
    end) i cs db = commitChildren i cs db) as E; [|by rewrite E].
  clear. induction cs as [|c cs IH]; intros i db; [done|]. cbn [commitChildren]. unfold commit_kid at 1.
  destruct (if i =? 16 then _ else _) as [[c' db1]| |]; [|done|done]. cbn [mbind outcome_bind]. by rewrite IH.
Qed.

(** ** Correctness *)

Section Rep.
Context (db0 : gmap Hash bytes) (D : list bytes).
Hypothesis collision_free : forall e e', e ∈ D -> e' ∈ D -> Keccak256Hash e = Keccak256Hash e' -> e = e'.

(** The store has no other encodings under the hashes of the data. *)
Definition db_ok (db : gmap Hash bytes) : Prop := db0 ⊆ db /\ forall e e', e ∈ D -> db !! Keccak256Hash e = Some e' -> e' = e.

Lemma db_insert_ok e db : db_ok db -> e ∈ D -> db ⊆ db_insert (Keccak256Hash e) e db /\ db_ok (db_insert (Keccak256Hash e) e db) /\
  db_insert (Keccak256Hash e) e db !! Keccak256Hash e = Some e.
Proof.
  intros [Hs Ho] He. unfold db_insert. destruct (db !! Keccak256Hash e) as [e'|] eqn:E.
  - split; [done|]. split; [done|]. by rewrite E, (Ho e e').
  - assert (db ⊆ <[Keccak256Hash e := e]> db) as Hsub by by apply insert_subseteq. split; [done|]. split; [|by rewrite lookup_insert_eq].
    split; [by etrans|]. intros e1 e2 H1. destruct (decide (Keccak256Hash e = Keccak256Hash e1)) as [Eq|Hne].
    + rewrite Eq, lookup_insert_eq. intros [= <-]. by apply collision_free.
    + rewrite lookup_insert_ne by done. by apply Ho.
Qed.

Lemma stored_mono db db' t : db ⊆ db' -> stored db t -> stored db' t.
Proof. intros Hs Hst e He Hl. eapply lookup_weaken; [by apply Hst|done]. Qed.

(** What committing a node leaves. *)
Definition committed (r : bool) (t : trie) (db : gmap Hash bytes) (res : outcome (node * gmap Hash bytes)) : Prop :=
  exists n' db', res = Ret (n', db') /\ db ⊆ db' /\ db_ok db' /\ hashed_ok r n' t /\ stored db' t /\
    (big r t -> db' !! Keccak256Hash (t_enc t) = Some (t_enc t)).

(** Storing a node whose children are committed. *)
Lemma store_ok r collapsed fl t l db : (n_cache collapsed).1 = nf_hash fl -> n_item collapsed = t_item t -> t_item t = Lst l -> hash_of collapsed = None ->
  collapsed <> NilNode -> flag_ok db0 r fl t -> settled_flag r true fl t -> t_enc t ∈ D -> db_ok db ->
  (forall e, e ∈ t_data t -> e = t_enc t \/ (32 <= length e -> db !! Keccak256Hash e = Some e)) ->
  committed r t db (Ret (store collapsed db)).
Proof.
  intros Ec E El Hh Hn Hf Hs HD Hdb Hd. unfold store. rewrite Ec. destruct (nf_hash fl) as [h|] eqn:Eh.
  - destruct (fo_hash _ _ _ _ Hf h Eh) as [-> Hb]. fold (Keccak256Hash (t_enc t)). rewrite E. fold (t_enc t).
    destruct (db_insert_ok (t_enc t) db Hdb HD) as (Hsub & Hok & Hlk). eexists _, _. split; [done|]. split_and!; try done.
    + by eapply cached_ok.
    + intros e He Hl. destruct (Hd e He) as [->|He']; [done|]. eapply lookup_weaken; [by apply He'|done].
  - specialize (Hs eq_refl Eh). eexists _, _. split; [done|]. assert (r = false) as -> by (destruct r; [by destruct Hs; left|done]).
    assert (length (t_enc t) < 32) as Hlt by (destruct (Nat.lt_ge_cases (length (t_enc t)) 32); [done|]; by destruct Hs; right).
    split_and!; try done.
    + split; [done|]. apply collapsed_not_nil; [done|]. by rewrite (ref_small t l).
    + intros e He Hl. destruct (Hd e He) as [->|He']; [lia|by apply He'].
Qed.

Lemma clean_committed r fl h t l db : flag_ok db0 r fl t -> nf_hash fl = Some h -> nf_dirty fl = false -> t_item t = Lst l -> db_ok db ->
  committed r t db (Ret (HashNode h, db)).
Proof.
  intros Hf Eh Ed El Hdb. destruct (fo_clean _ _ _ _ Hf Ed) as (Hst & _ & Hb). destruct (fo_hash _ _ _ _ Hf h Eh) as [-> Hbig].
  eexists _, _. split; [done|]. split_and!; try done; [by eapply cached_ok|by eapply stored_mono; [apply Hdb|]|].
  intros _. eapply lookup_weaken; [by apply Hb|apply Hdb].
Qed.

Lemma hash_committed r s h t db : n_rep db0 r s (HashNode h) t -> db_ok db -> committed r t db (Ret (HashNode h, db)).
Proof.
  inversion 1 as [| | | |? ? ? ? Hw Hh Hb Hd Hst Hsm]; subst. intros Hdb. destruct (wf_item t Hw) as [l El]. eexists _, _. split; [done|]. split_and!; try done.
  - split; [done|]. destruct r; [done|]. destruct Hb as [|Hb]; [done|]. unfold collapsed_ref. by rewrite (ref_big t l).
  - by eapply stored_mono; [apply Hdb|].
  - intros _. eapply lookup_weaken; [done|apply Hdb].
Qed.

(** A clean node is not visited. *)
Lemma commit_short_cases k c fl db : (exists h, nf_hash fl = Some h /\ nf_dirty fl = false /\ commit (ShortNode k c fl) db = Ret (HashNode h, db)) \/
  commit (ShortNode k c fl) db = '(cv, db1) ← match c with FullNode _ _ => commit c db | _ => Ret (c, db) end;
    Ret (store (ShortNode (nat_of_byte <$> hexToCompact k) cv fl) db1).
Proof. cbn [commit n_cache]. destruct (nf_hash fl) as [h|], (nf_dirty fl); auto. left. eauto. Qed.

Lemma commit_full_cases cs fl db : (exists h, nf_hash fl = Some h /\ nf_dirty fl = false /\ commit (FullNode cs fl) db = Ret (HashNode h, db)) \/
  commit (FullNode cs fl) db = '(kids, db1) ← commitChildren 0 cs db; Ret (store (FullNode kids fl) db1).
Proof. rewrite commit_full. cbn [n_cache]. destruct (nf_hash fl) as [h|], (nf_dirty fl); auto. left. eauto. Qed.

(** The children of a full node, committed one after another. *)
Lemma commitChildren_ok cs ts : forall i db, length cs = length ts -> db_ok db ->
  (forall j c t, cs !! j = Some c -> ts !! j = Some t -> forall db, db_ok db -> exists c' db', commit_kid (i + j) c db = Ret (c', db') /\ db ⊆ db' /\ db_ok db' /\
     collapsed_ref c' t /\ stored db' t) ->
  exists kids db', commitChildren i cs db = Ret (kids, db') /\ db ⊆ db' /\ db_ok db' /\ length kids = length ts /\
    (forall j c t, kids !! j = Some c -> ts !! j = Some t -> collapsed_ref c t) /\ (forall j t, ts !! j = Some t -> stored db' t).
Proof.
  revert ts. induction cs as [|c cs IH]; intros [|t ts] i db Hl Hdb Hk; try done; [by eexists [], _|]. cbn [commitChildren].
  destruct (Hk 0 c t eq_refl eq_refl db Hdb) as (c' & db1 & E1 & Hsub1 & Hdb1 & Hc' & Hst1). rewrite Nat.add_0_r in E1. rewrite E1. cbn [mbind outcome_bind].
  destruct (IH ts (S i) db1) as (kids & db2 & E2 & Hsub2 & Hdb2 & Hlen & Hkids & Hst2); [by injection Hl|done| |].
  { intros j d u Hj Hu. rewrite Nat.add_succ_l, <- Nat.add_succ_r. by apply (Hk (S j)). }
  rewrite E2. cbn [mbind outcome_bind]. eexists _, _. split; [done|]. split_and!; [by etrans|done|cbn; lia|..].
  - intros [|j] d u Hj Hu; [|by apply (Hkids j)]. injection Hj as <-. by injection Hu as <-.
  - intros [|j] u Hu; [|by apply (Hst2 j)]. injection Hu as <-. by eapply stored_mono.
Qed.

Lemma short_collapsed k c fl u : hashed_ok false c u -> n_item (ShortNode (nat_of_byte <$> hexToCompact k) c fl) = t_item (TShort k u).
Proof. intros [Hn Hc]. cbn [n_item t_item]. rewrite compact_key. do 3 f_equal. rewrite <- Hc. by destruct c. Qed.

Lemma full_collapsed cs fl ts : length cs = length ts -> (forall i c t, cs !! i = Some c -> ts !! i = Some t -> collapsed_ref c t) ->
  n_item (FullNode cs fl) = t_item (TFull ts).
Proof.
  intros Hl Hc. cbn [n_item t_item]. f_equal. apply list_eq. intros i. change (map ?f cs) with (f <$> cs). change (map ?f ts) with (f <$> ts). rewrite !list_lookup_fmap.
  destruct (cs !! i) as [c|] eqn:Hi, (ts !! i) as [t|] eqn:Ht; cbn; [|apply lookup_ge_None in Ht; apply lookup_lt_Some in Hi; lia|
    apply lookup_ge_None in Hi; apply lookup_lt_Some in Ht; lia|done].
  f_equal. by apply (Hc i).
Qed.

(** The statement for a node. *)
Definition commits (r : bool) (n : node) (t : trie) : Prop := wf t -> (forall e, e ∈ t_data t -> e ∈ D) -> forall db, db_ok db -> committed r t db (commit n db).

Lemma commits_short r k c fl u : n_rep db0 r true (ShortNode k c fl) (TShort k u) -> (forall ds, u = TFull ds -> commits false c u) -> commits r (ShortNode k c fl) (TShort k u).
Proof.
  intros Hr IH Hw HD db Hdb. inversion Hr as [| |? ? ? ? ? ? Hc Hn Hf Hs| |]; subst.
  destruct (commit_short_cases k c fl db) as [(h & Eh & Ed & ->)|E]; [by eapply clean_committed|]. rewrite E. clear E.
  assert (exists cv db1, match c with FullNode _ _ => commit c db | _ => Ret (c, db) end = Ret (cv, db1) /\ db ⊆ db1 /\ db_ok db1 /\ hashed_ok false cv u /\ stored db1 u)
    as (cv & db1 & E1 & Hsub & Hdb1 & Hcv & Hst).
  { inversion Hw as [s v Hs' Hv|s ds Hne Hs' Hwf|]; subst.
    - inversion Hc as [| | | |? ? ? ? Hw']; subst; [|inversion Hw']. eexists _, _. split; [done|]. split_and!; try done. by intros e He%not_elem_of_nil.
    - inversion Hc as [| | |? ? cs fl' ? Hl|? ? h ? Hw']; subst.
      + destruct (IH ds eq_refl Hwf ltac:(intros e He; apply HD; by apply data_short) db Hdb) as (n' & db' & En & ? & ? & ? & ? & _). by eexists n', db'.
      + destruct (hash_committed false _ _ (TFull ds) db Hc Hdb) as (n' & db' & [= <- <-] & ? & ? & ? & ? & _). by eexists _, _. }
  rewrite E1. cbn [mbind outcome_bind]. edestruct (store_ok r (ShortNode (nat_of_byte <$> hexToCompact k) cv fl) fl (TShort k u)) as (n' & db' & En & Hsub' & Hrest); try done.
  - by apply short_collapsed.
  - apply HD. cbn [t_data]. apply elem_of_cons. by left.
  - intros e He. cbn [t_data] in He. apply elem_of_cons in He as [->|He]; [by left|]. right. by apply Hst.
  - exists n', db'. split; [done|]. split; [by etrans|done].
Qed.

Lemma commits_full r cs fl ts : n_rep db0 r true (FullNode cs fl) (TFull ts) ->
  (forall i c t, cs !! i = Some c -> ts !! i = Some t -> i < 16 -> commits false c t) -> commits r (FullNode cs fl) (TFull ts).
Proof.
  intros Hr IH Hw HD db Hdb. inversion Hr as [| | |? ? ? ? ? Hl H16 Hc Hf Hs|]; subst.
  destruct (commit_full_cases cs fl db) as [(h & Eh & Ed & ->)|E]; [by eapply clean_committed|]. rewrite E. clear E.
  destruct (commitChildren_ok cs ts 0 db Hl Hdb) as (kids & db1 & E1 & Hsub & Hdb1 & Hlen & Hkids & Hst).
  { intros j c t Hj Ht db' Hdb'. pose proof (Hc j c t Hj Ht) as Hrc. unfold commit_kid. rewrite Nat.add_0_l.
    destruct (wf_slots ts j t Hw Ht) as [[Hlt [->|Hwt]]|[-> Hv]].
    - assert (c = NilNode) as -> by by apply (n_rep_nil _ _ _ _ _ Hrc). rewrite (proj2 (Nat.eqb_neq j 16)) by lia. eexists _, _. split; [done|]. split_and!; try done. by intros e He%not_elem_of_nil.
    - rewrite (proj2 (Nat.eqb_neq j 16)) by lia. inversion Hrc as [|? ? v|? ? k c' fl' u|? ? cs' fl' ts'|? ? h]; subst; try (by inversion Hwt).
      1,2: destruct (IH j _ _ Hj Ht Hlt Hwt ltac:(intros e He; apply HD; by eapply t_data_child) db' Hdb') as (n' & db2 & En & ? & ? & [? ?] & ? & _); by eexists n', db2.
      destruct (hash_committed false _ _ t db' Hrc Hdb') as (n' & db2 & [= <- <-] & ? & ? & [? ?] & ? & _). by eexists _, _.
    - assert (collapsed_ref c t /\ stored db' t) as [? ?]; [|by eexists _, _].
      destruct Hv as [->|(v & -> & _)]; inversion Hrc as [| | | |? ? ? ? Hw']; subst; try (by inversion Hw'); (split; [done|]; by intros e He%not_elem_of_nil). }
  rewrite E1. cbn [mbind outcome_bind]. edestruct (store_ok r (FullNode kids fl) fl (TFull ts)) as (n' & db' & En & Hsub' & Hrest); try done.
  - by apply full_collapsed.
  - apply HD. cbn [t_data]. apply elem_of_cons. by left.
  - intros e He. cbn [t_data] in He. apply elem_of_cons in He as [->|He]; [by left|]. right.
    apply list_elem_of_In, in_concat in He as (d & Hd & He). apply list_elem_of_In, list_elem_of_fmap in Hd as (t & -> & Ht). apply list_elem_of_lookup in Ht as [i Hi].
    apply (Hst i t Hi). by apply list_elem_of_In.
  - exists n', db'. split; [done|]. split; [by etrans|done].
Qed.

Lemma commit_rep r s n t : n_rep db0 r s n t -> s = true -> commits r n t.
Proof.
  induction 1 as [r s|r s v|r s k c fl t Hr IH Hn Hf Hsf|r s cs fl ts Hl H16 Hc IH Hf Hsf|r s h t Hw Hh Hb Hdb Hst Hd]; intros ->.
  - intros Hw. inversion Hw.
  - intros Hw. inversion Hw.
  - apply commits_short; [by constructor|]. intros ds _. by apply IH.
  - apply commits_full; [by constructor|]. intros i c t Hi Ht _. by apply (IH i c t).
  - intros _ _ db' Hdb'. apply (hash_committed r true); [by constructor|done].
Qed.

End Rep.

(** *** The trie *)

(** No two of the encodings have the same hash, no other encoding is in the
    store under one of them, and they have a size. *)
Record storable (D : list bytes) (db : gmap Hash bytes) : Prop := {
  sb_free e e' : e ∈ D -> e' ∈ D -> Keccak256Hash e = Keccak256Hash e' -> e = e';
  sb_store e e' : e ∈ D -> db !! Keccak256Hash e = Some e' -> e' = e;
  sb_small e : e ∈ D -> (zlen e < 2 ^ 64)%Z
}.

(** A trie whose nodes are in the store. *)
Definition saved (t : Trie) (u : trie) : Prop :=
  stored (tr_db t) u /\ data_small u /\ (wf u -> tr_db t !! Keccak256Hash (t_enc u) = Some (t_enc u)).

Lemma clean_root_saved t u : n_rep (tr_db t) true true (tr_root t) u -> wf u -> (n_cache (tr_root t)).2 = false -> saved t u.
Proof.
  intros Hr Hw Hd. assert (forall fl, flag_ok (tr_db t) true fl u -> nf_dirty fl = false -> saved t u) as Hf.
  { intros fl Hf Ed. destruct (fo_clean _ _ _ _ Hf Ed) as (Hst & Hsm & Hb). split_and!; [done|done|]. intros _. apply Hb. by left. }
  destruct (tr_root t) as [|h|v|k c fl|cs fl]; try done; inversion Hr; subst; by eapply Hf.
Qed.

Lemma commit_hashed_rep D t u h : trie_rep t u -> n_rep (tr_db t) true true (tr_root t) u -> wf u -> storable D (tr_db t) -> t_data u ⊆ D ->
  exists t', commit_hashed h t = (Ret h, t') /\ trie_rep t' u /\ tr_db t ⊆ tr_db t' /\ saved t' u /\ storable D (tr_db t').
Proof.
  intros Hrep Hset Hw [Hfree Hstore Hsm] HD. unfold commit_hashed. destruct (n_cache (tr_root t)).2 eqn:Ed; cbn [negb].
  - destruct (commit_rep (tr_db t) D Hfree true true (tr_root t) u Hset eq_refl Hw ltac:(done) (tr_db t)) as (n' & db' & E & Hsub & Hdb' & [_ Hh] & Hst & Hb); [by split|].
    destruct (wf_item u Hw) as [l El]. rewrite E, (Hh l El). eexists. split; [done|]. assert (db' !! Keccak256Hash (t_enc u) = Some (t_enc u)) as Hin by (apply Hb; by left).
    assert (data_small u) as Hsm' by (intros e He; by apply Hsm, HD).
    split_and!; [split; [|by right]|done|done|split; [done|by apply Hdb'|done]]. constructor; try done. by left.
  - exists t. split; [done|]. split; [done|]. split; [done|]. split; [by apply clean_root_saved|done].
Qed.

Lemma Commit_rep D t u : trie_rep t u -> storable D (tr_db t) -> t_data u ⊆ D ->
  exists t', Commit t = (Ret (BytesToHash (t_hash u)), t') /\ trie_rep t' u /\ tr_db t ⊆ tr_db t' /\ saved t' u /\ storable D (tr_db t').
Proof.
  intros Hrep Hs HD. pose proof Hrep as [Hr Hw]. unfold Commit. destruct (nil_or_not (tr_root t)) as [En|Hn].
  { rewrite En in *. inversion Hr; subst. exists t. split; [done|]. split_and!; [by split; [rewrite En|]|done| |done].
    split_and!; [by intros e He%not_elem_of_nil|by intros e He%not_elem_of_nil|]. intros Hw'. inversion Hw'. }
  assert (match tr_root t with NilNode => (Ret emptyRoot, t) | _ => (rootHash ← Trie_Hash; commit_hashed rootHash) t end =
    (rootHash ← Trie_Hash; commit_hashed rootHash) t) as -> by by destruct (tr_root t).
  destruct (Trie_Hash_rep t u Hrep) as (t1 & Eh & Hrep1 & Edb & Hset). unfold mbind, M_bind. rewrite Eh. rewrite <- Edb in *.
  apply commit_hashed_rep; try done. destruct Hw as [->|]; [by destruct Hn; apply (n_rep_nil _ _ _ _ _ Hr)|done].
Qed.

(** [New] opens what was committed. *)
Lemma New_saved t u : saved t u -> wf_root u -> (wf u -> Keccak256Hash (t_enc u) <> emptyRoot /\ Keccak256Hash (t_enc u) <> 0%Z) ->
  exists t', New (BytesToHash (t_hash u)) (tr_db t) = Ret t' /\ trie_rep t' u /\ tr_db t' = tr_db t.
Proof.
  intros (Hst & Hsm & Hin) Hw Hne. destruct Hw as [->|Hw].
  - cbn [t_hash]. rewrite BytesToHash_Bytes by by apply (bool_decide_unpack _). unfold New. rewrite Z.eqb_refl, andb_false_r.
    eexists. split; [done|]. split; [|done]. split; [constructor|by left].
  - specialize (Hne Hw). specialize (Hin Hw). assert (t_hash u = keccak256 (t_enc u)) as -> by by destruct Hw.
    fold (Keccak256Hash (t_enc u)). unfold New. rewrite (proj2 (Z.eqb_neq _ _) (proj2 Hne)), (proj2 (Z.eqb_neq _ _) (proj1 Hne)). cbn [negb andb].
    rewrite Keccak256Hash_digest. destruct (resolveHash_rep (tr_db t) true true (keccak256 (t_enc u)) u []) as (n & En & Hn & _).
    { constructor; try done. by left. }
    rewrite En. cbn [mbind outcome_bind]. eexists. split; [done|]. split; [|done]. split; [by apply (rep_any _ _ true)|by right].
Qed.

End Commit.
