(* ===== verification/TrieProof.v ===== *)
(** * Merkle proofs ([trie/proof.go])

    [Prove] collects the encodings of the nodes on the way to a key and
    [VerifyProof] walks down from the root hash through such a collection.  A
    proof made by [Prove] verifies and yields what the trie holds under the
    key, and without a collision no collection of encodings under their own
    hashes yields anything else. *)
From Stdlib Require Import ZArith Lia Strings.Byte.
From stdpp Require Import base option strings gmap list.
From S2P Require Import Prelude Errors Rlp Nibbles Patricia Common Merkle TrieNode Trie TrieCommit.
Open Scope nat_scope.

Section Proof.
Context `{Keccak}.

(** ** Making proofs *)

(** The nodes on the way to the key. *)
Fixpoint prove_nodes (db : gmap Hash bytes) (fuel : nat) (tn : node) (key : list nat) : outcome (list node) :=
  match fuel with
  | O => Panic
  | S fuel' =>
      match key, tn with
      | [], _ | _, NilNode => Ret []
      | _, ShortNode k c _ =>
          rest ← (if (length key <? length k) || negb (bool_decide (take (length k) key = k)) then prove_nodes db fuel' NilNode key
                  else prove_nodes db fuel' c (drop (length k) key));
          Ret (tn :: rest)
      | i :: key', FullNode cs _ =>
          c ← child_at cs i;
          rest ← prove_nodes db fuel' c key';
          Ret (tn :: rest)
      | _, HashNode h => n ← resolveHash db h []; prove_nodes db fuel' n key
      | _, ValueNode _ => Panic
      end
  end.

(** [proofHash] *)
Definition collapse (n : node) : node :=
  match n with
  | ShortNode k c fl =>
      ShortNode (nat_of_byte <$> hexToCompact k) (match c with ShortNode _ _ _ | FullNode _ _ => (n_hash c false).1 | _ => c end) fl
  | FullNode cs fl => FullNode (map fst (imap hash_kid cs)) fl
  | _ => n
  end.

Definition proofHash (original : node) : node * node :=
  match original with
  | ShortNode _ _ _ | FullNode _ _ => let c := collapse original in (c, toHash c false)
  | _ => (original, original)
  end.

(** One node of the proof; the root is part of it however short it is. *)
Definition prove_put (i : nat) (n : node) (proofDb : gmap Hash bytes) : gmap Hash bytes :=
  let '(collapsed, hn) := proofHash n in
  let enc := encode (n_item collapsed) in
  match hn with
  | HashNode h => <[BytesToHash h := enc]> proofDb
  | _ => if i =? 0 then <[Keccak256Hash enc := enc]> proofDb else proofDb
  end.

Fixpoint prove_loop (fromLevel i : nat) (nodes : list node) (proofDb : gmap Hash bytes) : gmap Hash bytes :=
  match nodes with
  | [] => proofDb
  | n :: nodes' =>
      match fromLevel with
      | S l => prove_loop l (S i) nodes' proofDb
      | O => prove_loop 0 (S i) nodes' (prove_put i n proofDb)
      end
  end.

Definition Prove (key : bytes) (fromLevel : nat) (t : Trie) (proofDb : gmap Hash bytes) : outcome (gmap Hash bytes) :=
  let k := keybytesToHex key in
  nodes ← prove_nodes (tr_db t) (key_fuel k) (tr_root t) k;
  Ret (prove_loop fromLevel 0 nodes proofDb).

(** ** Checking proofs *)

Fixpoint node_child {A} (f : node -> A) (d : A) (cs : list node) (i : nat) : A :=
  match cs, i with
  | [], _ => d
  | c :: _, O => f c
  | _ :: cs', S i' => node_child f d cs' i'
  end.

(** [get] with the nodes that are loaded skipped. *)
Fixpoint get_child (tn : node) (key : list nat) : outcome (list nat * node) :=
  match tn with
  | ShortNode k c _ =>
      if (length key <? length k) || negb (bool_decide (take (length k) key = k)) then Ret ([], NilNode)
      else get_child c (drop (length k) key)
  | FullNode cs _ =>
      match key with
      | [] => Panic
      | i :: key' => node_child (fun c => get_child c key') Panic cs i
      end
  | HashNode _ | NilNode => Ret (key, tn)
  | ValueNode _ => Ret ([], tn)
  end.

(** The loop of [VerifyProof]. *)
Fixpoint verify_loop (fuel : nat) (wantHash : Hash) (key : list nat) (proofDb : gmap Hash bytes) : outcome (option bytes) :=
  match fuel with
  | O => Panic
  | S fuel' =>
      match proofDb !! wantHash with
      | None => Err (ErrFmt "proof node %d (hash %064x) missing")
      | Some buf =>
          match decodeNode (length buf) (Some (Hash_Bytes wantHash)) buf with
          | Ret n =>
              '(keyrest, cld) ← get_child n key;
              match cld with
              | NilNode => Ret None
              | HashNode h => verify_loop fuel' (BytesToHash h) keyrest proofDb
              | ValueNode v => Ret (Some v)
              | _ => Panic
              end
          | _ => Err (ErrFmt "bad proof node %d: %v")
          end
      end
  end.

Definition VerifyProof (rootHash : Hash) (key : bytes) (proofDb : gmap Hash bytes) : outcome (option bytes) :=
  let k := keybytesToHex key in verify_loop (key_fuel k) rootHash k proofDb.

(** ** The way to a key *)

(** The trees below which the key lies. *)
Fixpoint path (t : trie) (key : list nat) : list trie :=
  match t with
  | TShort k c => t :: match strip k key with Some q => path c q | None => [] end
  | TFull cs => t :: match key with [] => [] | i :: q => child (fun c => path c q) [] cs i end
  | _ => []
  end.

Lemma path_short k c key : path (TShort k c) key = TShort k c :: match strip k key with Some q => path c q | None => [] end.
Proof. done. Qed.

Lemma path_full cs i q : path (TFull cs) (i :: q) = TFull cs :: match cs !! i with Some c => path c q | None => [] end.
Proof. cbn [path]. by rewrite child_lookup. Qed.

Lemma node_child_lookup {A} (f : node -> A) d cs i : node_child f d cs i = match cs !! i with Some c => f c | None => d end.
Proof. revert i. induction cs as [|c cs IH]; intros [|i]; cbn; auto. Qed.

Lemma take_strip k key : (length key <? length k) || negb (bool_decide (take (length k) key = k)) = match strip k key with Some _ => false | None => true end.
Proof.
  destruct (strip k key) as [q|] eqn:Es.
  - apply strip_Some in Es as ->. rewrite (proj2 (Nat.ltb_ge _ _)) by (rewrite length_app; lia). by rewrite take_app_length, bool_decide_true.
  - destruct (Nat.ltb_spec (length key) (length k)) as [|Hge]; [done|]. rewrite bool_decide_false; [done|]. intros E.
    assert (key = k ++ drop (length k) key) as E' by (rewrite <- E at 1; by rewrite take_drop). rewrite E', strip_prefix in Es. done.
Qed.

Section Walk.
Context (db : gmap Hash bytes).

(** What [get_child] finds: nothing, the value, or a node that is not loaded. *)
Definition found (t : trie) (key rest : list nat) (cld : node) : Prop :=
  match cld with
  | NilNode => t_get t key = None
  | ValueNode v => t_get t key = Some v
  | HashNode _ => exists t' p, n_rep db false true cld t' /\ reaches t' rest /\ t_get t key = t_get t' rest /\ path t key = p ++ path t' rest /\ length rest <= length key
  | _ => False
  end.

Lemma get_child_rep r s n t : n_rep db r s n t -> (r = true -> loaded n) -> forall key, reaches t key -> exists rest cld, get_child n key = Ret (rest, cld) /\
  found t key rest cld /\ (loaded n -> length rest < length key \/ match cld with HashNode _ => False | _ => True end).
Proof.
  induction 1 as [r s|r s v|r s k c fl t Hr IH Hn Hf Hsf|r s cs fl ts Hl H16 Hc IH Hf Hsf|r s h t Hw Hh Hb Hdb Hst Hd]; intros Hrt key Hre.
  - eexists _, _. split; [done|]. split; [done|by right].
  - eexists _, _. split; [done|]. split; [done|by right].
  - destruct Hre as [[[?|Hw] Hk]|[_ [?|(? & ? & _)]]]; try done. cbn [get_child]. rewrite take_strip. destruct (strip k key) as [q|] eqn:Es.
    + apply strip_Some in Es as ->. rewrite drop_app_length. destruct (IH ltac:(done) q) as (rest & cld & E & Hfo & _); [by apply (reaches_short k)|]. exists rest, cld. split; [done|].
      pose proof (short_key_pos k t Hw). split.
      * unfold found in *. rewrite get_short, path_short, strip_prefix. cbn [mbind option_bind]. destruct cld; try done.
        destruct Hfo as (t' & p & ? & ? & ? & Ep & ?). exists t', (TShort k t :: p). split_and!; [done|done|done|by rewrite Ep|rewrite length_app; lia].
      * intros _. unfold found in Hfo. destruct cld; try (by right). destruct Hfo as (_ & _ & _ & _ & _ & _ & ?). left. rewrite length_app. lia.
    + eexists _, _. split; [done|]. split; [|by right]. unfold found. by rewrite get_short, Es.
  - destruct Hre as [[[?|Hw] Hk]|[_ [?|(? & ? & _)]]]; try done. destruct key as [|i q]; [by apply tkey_nonempty in Hk|].
    destruct (reaches_full ts i q Hw Hk) as (u & Hu & Hru & _). destruct (lookup_lt_is_Some_2 cs i) as [c Hci]; [rewrite Hl; by eapply lookup_lt_Some|].
    cbn [get_child]. rewrite node_child_lookup, Hci. destruct (IH i c u Hci Hu ltac:(done) q Hru) as (rest & cld & E & Hfo & _). exists rest, cld. split; [done|]. split.
    + unfold found in *. rewrite get_full, path_full, Hu. destruct cld; try done.
      destruct Hfo as (t' & p & ? & ? & ? & Ep & ?). exists t', (TFull ts :: p). split_and!; [done|done|done|by rewrite Ep|cbn; lia].
    + intros _. unfold found in Hfo. destruct cld; try (by right). destruct Hfo as (_ & _ & _ & _ & _ & _ & ?). left. cbn. lia.
  - assert (r = false) as -> by (destruct r; [by destruct (Hrt eq_refl h)|done]). eexists _, _. split; [done|]. split; [|intros Hld; by destruct (Hld h)].
    exists t, []. split_and!; try done. by constructor.
Qed.

(** ** Checking is sound *)

(** Every entry is filed under its hash, and none of them collides with the
    encoding of a node of the store. *)
Definition addressed (proofDb : gmap Hash bytes) : Prop := forall h e, proofDb !! h = Some e -> h = Keccak256Hash e.
Definition no_clash (proofDb : gmap Hash bytes) : Prop := forall h e e', proofDb !! h = Some e -> db !! h = Some e' -> e = e'.

Lemma verify_step fuel proofDb r t key : no_clash proofDb -> n_rep db r true (HashNode (keccak256 (t_enc t))) t -> reaches t key ->
  (proofDb !! Keccak256Hash (t_enc t) = None /\ verify_loop (S fuel) (Keccak256Hash (t_enc t)) key proofDb = Err (ErrFmt "proof node %d (hash %064x) missing")) \/
  (proofDb !! Keccak256Hash (t_enc t) <> None /\ verify_loop (S fuel) (Keccak256Hash (t_enc t)) key proofDb = Ret (t_get t key)) \/
  exists t' rest p, n_rep db false true (HashNode (keccak256 (t_enc t'))) t' /\ reaches t' rest /\ length rest < length key /\
    t_get t key = t_get t' rest /\ path t key = p ++ path t' rest /\ proofDb !! Keccak256Hash (t_enc t) <> None /\
    verify_loop (S fuel) (Keccak256Hash (t_enc t)) key proofDb = verify_loop fuel (Keccak256Hash (t_enc t')) rest proofDb.
Proof.
  intros Hnc Hr Hre. inversion Hr as [| | | |? ? ? ? Hw Hh Hb Hdb Hst Hsm]; subst. cbn [verify_loop].
  destruct (proofDb !! Keccak256Hash (t_enc t)) as [buf|] eqn:Ep; [right|by left]. assert (buf = t_enc t) as -> by by eapply Hnc.
  destruct (mustDecodeNode_rep db r t Hw Hst Hsm Hb Hdb) as (n & En & Hn). unfold mustDecodeNode in En. rewrite Keccak256Hash_digest.
  destruct (decodeNode _ _ _) as [n'| |] eqn:Ed; try done. injection En as ->. pose proof (decodeNode_loaded _ _ _ _ Ed) as Hld.
  destruct (get_child_rep r true n t Hn ltac:(done) key Hre) as (rest & cld & E & Hfo & Hlt). rewrite E. cbn [mbind outcome_bind]. unfold found in Hfo.
  destruct cld as [|h|v|k c fl|cs fl]; try done; [left; by rewrite Hfo| |left; by rewrite Hfo].
  destruct Hfo as (t' & p & Hr' & Hre' & Eg & Epath & _). right. destruct (Hlt Hld) as [Hlt'|]; [|done].
  inversion Hr' as [| | | |? ? ? ? Hw' Hh' Hb' Hdb' Hst' Hsm']; subst. exists t', rest, p. split_and!; done.
Qed.

(** The loop ends with what the tree holds, or misses a node. *)
Lemma verify_sound proofDb : no_clash proofDb -> forall fuel r t key, n_rep db r true (HashNode (keccak256 (t_enc t))) t -> reaches t key -> length key < fuel ->
  verify_loop fuel (Keccak256Hash (t_enc t)) key proofDb = Ret (t_get t key) \/
  verify_loop fuel (Keccak256Hash (t_enc t)) key proofDb = Err (ErrFmt "proof node %d (hash %064x) missing").
Proof.
  intros Hnc. induction fuel as [|fuel IH]; intros r t key Hr Hre Hf; [lia|].
  destruct (verify_step fuel proofDb r t key Hnc Hr Hre) as [[_ ->]|[[_ ->]|(t' & rest & p & Hr' & Hre' & Hlt & Eg & _ & _ & ->)]]; [by right|by left|].
  rewrite Eg. apply (IH false); [done|done|lia].
Qed.

(** It does not miss one if all nodes on the way are there. *)
Lemma verify_complete proofDb : no_clash proofDb -> forall fuel r t key, n_rep db r true (HashNode (keccak256 (t_enc t))) t -> reaches t key -> length key < fuel ->
  (forall t', t' ∈ path t key -> t' = t \/ 32 <= length (t_enc t') -> proofDb !! Keccak256Hash (t_enc t') = Some (t_enc t')) ->
  verify_loop fuel (Keccak256Hash (t_enc t)) key proofDb = Ret (t_get t key).
Proof.
  intros Hnc. induction fuel as [|fuel IH]; intros r t key Hr Hre Hf Hp; [lia|].
  assert (t ∈ path t key) as Hin.
  { inversion Hr as [| | | |? ? ? ? Hw]; subst. inversion Hw; subst; cbn [path]; apply elem_of_cons; by left. }
  destruct (verify_step fuel proofDb r t key Hnc Hr Hre) as [[En _]|[[_ ->]|(t' & rest & p & Hr' & Hre' & Hlt & Eg & Epath & _ & ->)]]; [|done|].
  - rewrite (Hp t Hin) in En by by left. done.
  - rewrite Eg. apply (IH false); [done|done|lia|]. intros t2 Hin2 Hbig. apply Hp; [rewrite Epath; apply elem_of_app; by right|].
    destruct Hbig as [->|Hbig]; [|by right]. inversion Hr' as [| | | |? ? ? ? Hw' Hh' Hb' Hdb' Hst' Hsm']; subst. destruct Hb' as [|Hb']; [done|by right].
Qed.

(** ** Proofs have what is needed *)

Definition node_of (m : node) (u : trie) : Prop := exists r s, n_rep db r s m u /\ loaded m /\ wf u.

Lemma prove_nodes_nil fuel key : prove_nodes db (S fuel) NilNode key = Ret [].
Proof. by destruct key. Qed.

Lemma prove_nodes_rep fuel : forall r s n t key, n_rep db r s n t -> reaches t key -> need n key <= fuel ->
  exists ns, prove_nodes db fuel n key = Ret ns /\ Forall2 node_of ns (path t key).
Proof.
  induction fuel as [|fuel IH]; intros r s n t key Hr Hre Hf; [unfold need in Hf; destruct n; lia|].
  destruct Hre as [[Hw Hk]|[-> Ht]].
  2: { exists []. split; [by destruct n|]. by destruct Ht as [->|(v & -> & _)]. }
  destruct key as [|i q] eqn:Ek; [by apply tkey_nonempty in Hk|]. rewrite <- Ek in *.
  inversion Hr as [? ?|? ? u|? ? k c fl u Hc Hn Hfl Hsf|? ? cs fl ts Hl H16 Hc Hfl Hsf|? ? h ? Hwt]; subst.
  - exists []. split; [done|constructor].
  - destruct Hw as [|Hw]; [done|inversion Hw].
  - destruct Hw as [|Hw]; [done|]. assert (node_of (ShortNode k c fl) (TShort k u)) as Hno by by exists r, s. rewrite path_short. cbn [prove_nodes]. rewrite take_strip.
    unfold need in Hf. cbn [length] in Hf. destruct (strip k (i :: q)) as [q'|] eqn:Es.
    + apply strip_Some in Es. rewrite Es in *. rewrite drop_app_length. pose proof (short_key_pos k u Hw).
      assert (length (i :: q) = length k + length q') as Hlen by (rewrite Es; apply length_app). cbn [length] in Hlen.
      destruct (IH false _ c u q' Hc) as (ns & E & Hns); [by apply (reaches_short k)|pose proof (need_le c q'); lia|]. rewrite E. cbn [mbind outcome_bind]. eexists. split; [done|by constructor].
    + destruct fuel as [|f]; [lia|]. rewrite prove_nodes_nil. cbn [mbind outcome_bind]. eexists. split; [done|]. by repeat constructor.
  - destruct Hw as [|Hw]; [done|]. assert (node_of (FullNode cs fl) (TFull ts)) as Hno by by exists r, s. rewrite path_full. cbn [prove_nodes].
    destruct (reaches_full ts i q Hw Hk) as (u & Hu & Hru & _). destruct (lookup_lt_is_Some_2 cs i) as [c Hci]; [rewrite Hl; by eapply lookup_lt_Some|].
    unfold child_at. rewrite Hci, Hu. cbn [mbind outcome_bind deref]. unfold need in Hf. cbn [length] in Hf.
    destruct (IH false _ c u q (Hc i c u Hci Hu) Hru) as (ns & E & Hns); [pose proof (need_le c q); lia|]. rewrite E. cbn [mbind outcome_bind]. eexists. split; [done|by constructor].
  - destruct (resolveHash_rep db r s _ t [] Hr) as (rn & Ern & Hrn & Hld). cbn [prove_nodes]. rewrite Ern. cbn [mbind outcome_bind].
    apply (IH r true); [done|by left|]. rewrite need_loaded by done. unfold need in Hf. lia.
Qed.

Lemma collapse_item m u : node_of m u -> n_item (collapse m) = t_item u /\ hash_of (collapse m) = None /\ proofHash m = (collapse m, toHash (collapse m) false).
Proof.
  intros (r & s & Hr & Hld & Hw). inversion Hr as [? ?|? ? v|? ? k c fl w Hc Hn Hfl Hsf|? ? cs fl ts Hl H16 Hc Hfl Hsf|? ? h ? Hwt]; subst; try (by inversion Hw).
  - split_and!; try done. cbn [collapse]. assert (c <> NilNode) as Hcn by by intros ->%(n_rep_nil _ _ _ _ _ Hc).
    assert (match c with ShortNode _ _ _ | FullNode _ _ => (n_hash c false).1 | _ => c end = (n_hash c false).1) as -> by by destruct c.
    apply short_collapsed. by apply (n_hash_rep db false _ c w Hc Hcn).
  - split_and!; try done. cbn [collapse]. apply full_collapsed; [by rewrite length_map, length_imap|].
    intros i c t. change (map fst ?l) with (fst <$> l). rewrite list_lookup_fmap, list_lookup_imap. intros (p & (c' & Hi & ->)%fmap_Some & ->)%fmap_Some Ht.
    pose proof (Hc i c' t Hi Ht) as Hrc. unfold hash_kid. destruct (nil_or_not c') as [->|Hcn].
    + assert (t = TNil) as -> by by apply (n_rep_nil _ _ _ _ _ Hrc). by destruct (i =? 16).
    + destruct (n_hash_rep db false _ c' t Hrc Hcn) as [[_ Href] _]. destruct (Nat.eqb_spec i 16) as [->|]; [|by destruct c'].
      destruct (H16 t Ht) as [->|[v ->]]; inversion Hrc as [| | | |? ? ? ? Hw']; subst; try done; by inversion Hw'.
  - by destruct (Hld (keccak256 (t_enc u))).
Qed.

Lemma prove_put_eq i m u proofDb : node_of m u ->
  prove_put i m proofDb = if (i =? 0) || (32 <=? length (t_enc u)) then <[Keccak256Hash (t_enc u) := t_enc u]> proofDb else proofDb.
Proof.
  intros Hno. destruct (collapse_item m u Hno) as (Ei & Hh & Ep). unfold prove_put. rewrite Ep, Ei. fold (t_enc u).
  destruct Hno as (r & s & _ & _ & Hw). destruct (wf_item u Hw) as [l El]. destruct (toHash_cases (collapse m) u false l Ei El) as [[Et Hb]|(Et & _ & Hlt)]; rewrite Et.
  - destruct Hb as [|Hb]; [done|]. rewrite (proj2 (Nat.leb_le _ _) Hb), orb_true_r. done.
  - rewrite (proj2 (Nat.leb_gt _ _) Hlt), orb_false_r. destruct (collapse m); try done; by destruct (i =? 0).
Qed.

End Walk.

Lemma path_data t : forall key t', t' ∈ path t key -> t_enc t' ∈ t_data t.
Proof.
  induction t as [|v|k c IH|cs IH] using trie_ind'; intros key t' Hin; cbn [path] in Hin; try (by apply not_elem_of_nil in Hin); apply elem_of_cons in Hin as [->|Hin];
    try (cbn [t_data]; apply elem_of_cons; by left).
  - apply data_short. destruct (strip k key); [by eapply IH|by apply not_elem_of_nil in Hin].
  - destruct key as [|i q]; [by apply not_elem_of_nil in Hin|]. rewrite child_lookup in Hin. destruct (cs !! i) as [c|] eqn:Hi; [|by apply not_elem_of_nil in Hin].
    apply (t_data_child cs i c Hi). rewrite Forall_lookup in IH. by eapply IH.
Qed.

(** The proof is written to a store that has no other encodings under the
    hashes of the tree. *)
Section Written.
Context (D : list bytes).
Hypothesis free : forall e e', e ∈ D -> e' ∈ D -> Keccak256Hash e = Keccak256Hash e' -> e = e'.

Definition unspoilt (p : gmap Hash bytes) : Prop := forall e e', e ∈ D -> p !! Keccak256Hash e = Some e' -> e' = e.

Lemma unspoilt_insert e p : unspoilt p -> e ∈ D -> unspoilt (<[Keccak256Hash e := e]> p) /\
  forall e', e' ∈ D -> p !! Keccak256Hash e' = Some e' -> <[Keccak256Hash e := e]> p !! Keccak256Hash e' = Some e'.
Proof.
  intros Hu He. split.
  - intros e1 e2 He1. destruct (decide (Keccak256Hash e = Keccak256Hash e1)) as [E|E]; [|rewrite lookup_insert_ne by done; by apply Hu].
    rewrite E, lookup_insert_eq. intros [= <-]. symmetry. apply free; [done|done|by symmetry].
  - intros e1 He1 Hl. destruct (decide (Keccak256Hash e = Keccak256Hash e1)) as [E|E]; [|by rewrite lookup_insert_ne].
    rewrite E, lookup_insert_eq. f_equal. by apply free.
Qed.

Lemma prove_loop_ok db ns us : Forall2 (node_of db) ns us -> (forall u, u ∈ us -> t_enc u ∈ D) -> forall i p, unspoilt p ->
  unspoilt (prove_loop 0 i ns p) /\
  (forall e, e ∈ D -> p !! Keccak256Hash e = Some e -> prove_loop 0 i ns p !! Keccak256Hash e = Some e) /\
  forall j u, us !! j = Some u -> i + j = 0 \/ 32 <= length (t_enc u) -> prove_loop 0 i ns p !! Keccak256Hash (t_enc u) = Some (t_enc u).
Proof.
  induction 1 as [|m u ns us Hm Hms IH]; intros Hd i p Hp; [done|]. cbn [prove_loop]. rewrite (prove_put_eq db i m u p Hm).
  assert (t_enc u ∈ D) as Hin by (apply Hd, elem_of_cons; by left). destruct (unspoilt_insert (t_enc u) p Hp Hin) as [Hp' Hk].
  set (p' := if _ : bool then _ else _). assert (unspoilt p' /\ forall e, e ∈ D -> p !! Keccak256Hash e = Some e -> p' !! Keccak256Hash e = Some e) as [Hu' Hk'] by (unfold p'; by case_match).
  destruct (IH ltac:(intros w Hw; apply Hd, elem_of_cons; by right) (S i) p' Hu') as (H1 & H2 & H3). split_and!; [done|by auto|].
  intros [|j] w Hj Hb; [|apply (H3 j); [done|right; lia]]. injection Hj as <-. apply H2; [done|]. unfold p'.
  rewrite (proj2 (orb_true_iff _ _)); [apply lookup_insert_eq|]. rewrite Nat.eqb_eq, Nat.leb_le. lia.
Qed.

End Written.

(** All encodings of a tree under their hashes. *)
Definition full_store (t : trie) : gmap Hash bytes := list_to_map (map (fun e => (Keccak256Hash e, e)) (t_data t)).

Lemma full_store_sound t h e : full_store t !! h = Some e -> e ∈ t_data t /\ h = Keccak256Hash e.
Proof. unfold full_store. intros Hl%elem_of_list_to_map_2. change (map ?f ?l) with (f <$> l) in Hl. by apply list_elem_of_fmap in Hl as (e' & [= -> ->] & Hin). Qed.

Lemma full_store_complete t db e : storable (t_data t) db -> e ∈ t_data t -> full_store t !! Keccak256Hash e = Some e.
Proof.
  intros Hs He. destruct (full_store t !! Keccak256Hash e) as [e'|] eqn:E.
  - apply full_store_sound in E as [Hin Eh]. f_equal. symmetry. by apply (sb_free _ _ Hs).
  - exfalso. unfold full_store in E. apply not_elem_of_list_to_map_2 in E. apply E. apply list_elem_of_fmap. exists (Keccak256Hash e, e). split; [done|].
    apply list_elem_of_fmap. by exists e.
Qed.

Lemma full_store_rep t db : wf t -> storable (t_data t) db -> n_rep (full_store t) true true (HashNode (keccak256 (t_enc t))) t.
Proof.
  intros Hw Hs. constructor; [done|done|by left| | |exact (sb_small _ _ Hs)].
  - eapply full_store_complete; [done|by apply wf_data].
  - intros e He _. by eapply full_store_complete.
Qed.

Lemma key_length key : length key < key_fuel key.
Proof. unfold key_fuel. lia. Qed.

Lemma root_of t : wf t -> BytesToHash (t_hash t) = Keccak256Hash (t_enc t).
Proof. by destruct 1. Qed.

Lemma storable_unclashed t proofDb : storable (t_data t) proofDb -> no_clash (full_store t) proofDb.
Proof. intros Hs h e e' Hp [Hin ->]%full_store_sound. by apply (sb_store _ _ Hs). Qed.

Lemma VerifyProof_sound u key proofDb : wf u -> storable (t_data u) proofDb ->
  VerifyProof (BytesToHash (t_hash u)) key proofDb = Ret (t_get u (keybytesToHex key)) \/
  VerifyProof (BytesToHash (t_hash u)) key proofDb = Err (ErrFmt "proof node %d (hash %064x) missing").
Proof.
  intros Hw Hs. rewrite root_of by done. eapply verify_sound; [by apply storable_unclashed|by eapply full_store_rep|apply reaches_key; by right|apply key_length].
Qed.

Lemma Prove_VerifyProof t u key proofDb : trie_rep t u -> wf u -> storable (t_data u) proofDb ->
  exists p, Prove key 0 t proofDb = Ret p /\ VerifyProof (BytesToHash (t_hash u)) key p = Ret (t_get u (keybytesToHex key)).
Proof.
  intros [Hr Hwr] Hw Hs. set (k := keybytesToHex key).
  destruct (prove_nodes_rep (tr_db t) (key_fuel k) true false (tr_root t) u k Hr) as (ns & E & Hns); [by apply reaches_key|apply key_fuel_need|].
  unfold Prove. fold k. rewrite E. cbn [mbind outcome_bind]. eexists. split; [done|].
  destruct (prove_loop_ok (t_data u) (sb_free _ _ Hs) (tr_db t) ns (path u k) Hns (path_data u k) 0 proofDb (sb_store _ _ Hs)) as (Hu & _ & Hin).
  assert (storable (t_data u) (prove_loop 0 0 ns proofDb)) as Hs' by (split; [apply Hs|done|exact (sb_small _ _ Hs)]).
  rewrite root_of by done. eapply verify_complete; [by apply storable_unclashed|by eapply full_store_rep|apply reaches_key; by right|apply key_length|].
  fold k. intros t' Ht Hb. apply list_elem_of_lookup in Ht as [j Hj]. destruct Hb as [->|Hb]; [|apply (Hin j); [done|by right]].
  apply (Hin 0); [|by left]. destruct Hw; [done| |]; done.
Qed.

End Proof.
