(* ===== verification/TrieMap.v ===== *)
(** * The trie as a map ([trie/trie.go], [trie/stacktrie.go], [trie/proof.go])

    What the operations of a trie promise to their callers.  A trie that is
    used in any sequence of reads, updates, deletions, hashings, commits and
    reopenings answers as a map from byte strings does, its root hash is a
    function of the map, the stack trie computes that hash, and proofs against
    the hash say what the map holds. *)
From Stdlib Require Import ZArith Lia Strings.Byte.
From stdpp Require Import base option strings gmap list.
From S2P Require Import Prelude Errors Rlp Nibbles Patricia Common Merkle StackTrie Derive TrieNode Trie TrieCommit TrieProof.
Open Scope nat_scope.

Section Map.
Context `{Keccak}.

(** ** Use of a trie *)

(** A trie over a store. *)
Definition fresh_trie (db : gmap Hash bytes) : Trie := mkTrie db NilNode 0.

(** Committing a trie, and opening the root from the store. *)
Definition reopen : M Trie unit := fun t =>
  match Commit t with
  | (Ret root, t') =>
      match New root (tr_db t') with
      | Ret t'' => (Ret tt, t'')
      | Err e => (Err e, t')
      | Panic => (Panic, t')
      end
  | (Err e, t') => (Err e, t')
  | (Panic, t') => (Panic, t')
  end.

Inductive op :=
| OGet (key : bytes)
| OUpdate (key value : bytes)
| ODelete (key : bytes)
| OHash
| OCommit
| OReopen.

(** One use, with the value it reads. *)
Definition use (o : op) : M Trie (list (option bytes)) :=
  match o with
  | OGet k => v ← TryGet k; mret [v]
  | OUpdate k v => _ ← TryUpdate k v; mret []
  | ODelete k => _ ← TryDelete k; mret []
  | OHash => _ ← Trie_Hash; mret []
  | OCommit => _ ← Commit; mret []
  | OReopen => _ ← reopen; mret []
  end.

Fixpoint use_all (os : list op) : M Trie (list (option bytes)) :=
  match os with
  | [] => mret []
  | o :: os' => a ← use o; b ← use_all os'; mret (a ++ b)
  end.

(** ** The map it stands for *)

Definition content : Type := bytes -> option bytes.

Definition put (k : bytes) (v : option bytes) (m : content) : content := fun k' => if decide (k = k') then v else m k'.

(** An empty value is no value. *)
Definition spec (o : op) (m : content) : list (option bytes) * content :=
  match o with
  | OGet k => ([m k], m)
  | OUpdate k [] => ([], put k None m)
  | OUpdate k v => ([], put k (Some v) m)
  | ODelete k => ([], put k None m)
  | OHash | OCommit | OReopen => ([], m)
  end.

Fixpoint spec_all (os : list op) (m : content) : list (option bytes) * content :=
  match os with
  | [] => ([], m)
  | o :: os' => let '(a, m') := spec o m in let '(b, m'') := spec_all os' m' in (a ++ b, m'')
  end.

Definition no_content : content := fun _ => None.

(** ** The trees on the way *)

Definition grow (o : op) (u : trie) : trie :=
  match o with
  | OUpdate k [] | ODelete k => t_delete u (keybytesToHex k)
  | OUpdate k v => t_insert u (keybytesToHex k) v
  | _ => u
  end.

Definition tree_of (os : list op) : trie := foldl (fun u o => grow o u) TNil os.

(** The encodings of all nodes the trie has had. *)
Fixpoint history (os : list op) (u : trie) : list bytes :=
  match os with
  | [] => t_data u
  | o :: os' => t_data u ++ history os' (grow o u)
  end.

(** No two nodes the trie has had collide, the store had no other data under
    their hashes, and none of these is the hash of the empty trie or zero. *)
Record usable (os : list op) (db : gmap Hash bytes) : Prop := {
  us_store : storable (history os TNil) db;
  us_root e : e ∈ history os TNil -> Keccak256Hash e <> emptyRoot /\ Keccak256Hash e <> 0%Z
}.

(** The tree holds the map. *)
Definition holds (u : trie) (m : content) : Prop :=
  forall q v, tkey q -> t_get u q = Some v <-> exists k, q = keybytesToHex k /\ m k = Some v.

Lemma holds_get u m k : holds u m -> t_get u (keybytesToHex k) = m k.
Proof.
  intros Hh. apply option_eq. intros v. rewrite (Hh _ v (tkey_hex k)). split; [|eauto]. by intros (k' & ->%keybytesToHex_inj & ?).
Qed.

Lemma holds_put u m k v u' : holds u m -> (forall q, tkey q -> t_get u' q = if decide (keybytesToHex k = q) then v else t_get u q) -> holds u' (put k v m).
Proof.
  intros Hh Hg q w Hq. rewrite Hg by done. unfold put. destruct (decide (keybytesToHex k = q)) as [<-|Hne].
  - split; [intros ->; exists k; by rewrite decide_True|]. intros (k' & ->%keybytesToHex_inj & Ek). by rewrite decide_True in Ek.
  - rewrite (Hh q w Hq). split; intros (k' & -> & Ek); exists k'; (split; [done|]); [rewrite decide_False; [done|by intros ->]|].
    rewrite decide_False in Ek; [done|by intros ->].
Qed.

Lemma holds_nil : holds TNil no_content.
Proof. intros q v _. split; [done|by intros (k & _ & ?)]. Qed.

Lemma holds_unique u u' m m' : wf_root u -> wf_root u' -> holds u m -> holds u' m' -> (forall k, m k = m' k) -> u = u'.
Proof.
  intros Hw Hw' Hh Hh' Hm. apply canonical; [done|done|]. intros q Hq. apply option_eq. intros v. rewrite (Hh q v Hq), (Hh' q v Hq). by setoid_rewrite Hm.
Qed.

Lemma grow_holds o u m : wf_root u -> holds u m -> wf_root (grow o u) /\ holds (grow o u) (spec o m).2.
Proof.
  intros Hw Hh. assert (forall k, wf_root (t_delete u (keybytesToHex k)) /\ holds (t_delete u (keybytesToHex k)) (put k None m)) as Hd.
  { intros k. split; [by apply wf_delete_root; [|apply tkey_hex]|]. apply (holds_put u); [done|]. intros q Hq. by rewrite get_delete by (done || apply tkey_hex). }
  destruct o as [k|k [|x v]|k| | |]; cbn [grow spec snd]; try done.
  split; [by apply wf_insert; [|apply tkey_hex|]|]. apply (holds_put u); [done|]. intros q Hq. by rewrite get_insert by (done || apply tkey_hex).
Qed.

Lemma history_data os u : t_data u ⊆ history os u.
Proof. destruct os; cbn [history]; [done|]. intros e He. apply elem_of_app. by left. Qed.

(** ** Every use refines the map *)

Section Uses.
Context (D : list bytes).
Hypothesis roots : forall e, e ∈ D -> Keccak256Hash e <> emptyRoot /\ Keccak256Hash e <> 0%Z.

Lemma use_rep o t u m : trie_rep t u -> holds u m -> storable D (tr_db t) -> t_data u ⊆ D ->
  exists t', use o t = (Ret (spec o m).1, t') /\ trie_rep t' (grow o u) /\ storable D (tr_db t').
Proof.
  intros Hr Hh Hs HD. assert (wf_root u) as Hw by apply Hr. destruct o as [k|k [|x v]|k| | |]; cbn [use grow spec fst]; unfold mbind, M_bind.
  - destruct (TryGet_rep t u k Hr) as (t' & E & Hr' & Edb). rewrite E, (holds_get u m k Hh). exists t'. by rewrite Edb.
  - destruct (TryDelete_rep t u k Hr) as (t' & E & Hr' & Edb). rewrite TryUpdate_nil, E. exists t'. by rewrite Edb.
  - destruct (TryUpdate_rep t u k (x :: v) Hr ltac:(done)) as (t' & E & Hr' & Edb). rewrite E. exists t'. by rewrite Edb.
  - destruct (TryDelete_rep t u k Hr) as (t' & E & Hr' & Edb). rewrite E. exists t'. by rewrite Edb.
  - destruct (Trie_Hash_rep t u Hr) as (t' & E & Hr' & Edb & _). rewrite E. exists t'. by rewrite Edb.
  - destruct (Commit_rep D t u Hr Hs HD) as (t' & E & Hr' & _ & _ & Hs'). rewrite E. by exists t'.
  - destruct (Commit_rep D t u Hr Hs HD) as (t1 & E & Hr1 & _ & Hsv & Hs1). unfold reopen. rewrite E.
    destruct (New_saved t1 u Hsv Hw) as (t' & E' & Hr' & Edb); [intros Hwf; by apply roots, HD, wf_data|]. rewrite E'. exists t'. by rewrite Edb.
Qed.

Lemma use_all_rep os : forall t u m, trie_rep t u -> holds u m -> storable D (tr_db t) -> history os u ⊆ D ->
  exists t', use_all os t = (Ret (spec_all os m).1, t') /\ trie_rep t' (foldl (fun u o => grow o u) u os) /\
    holds (foldl (fun u o => grow o u) u os) (spec_all os m).2 /\ storable D (tr_db t').
Proof.
  induction os as [|o os IH]; intros t u m Hr Hh Hs HD; [by exists t|]. cbn [use_all spec_all foldl]. cbn [history] in HD.
  destruct (use_rep o t u m Hr Hh Hs) as (t1 & E1 & Hr1 & Hs1); [intros e He; apply HD, elem_of_app; by left|].
  destruct (grow_holds o u m ltac:(apply Hr) Hh) as [_ Hh1].
  destruct (IH t1 (grow o u) (spec o m).2 Hr1 Hh1 Hs1) as (t2 & E2 & Hr2 & Hh2 & Hs2); [intros e He; apply HD, elem_of_app; by right|].
  unfold mbind, M_bind. rewrite E1, E2. destruct (spec o m) as [a m1]. cbn [fst snd] in *. destruct (spec_all os m1) as [b m2]. by exists t2.
Qed.

End Uses.

Lemma run_rep os db : usable os db -> exists t, use_all os (fresh_trie db) = (Ret (spec_all os no_content).1, t) /\ trie_rep t (tree_of os) /\
  holds (tree_of os) (spec_all os no_content).2 /\ storable (history os TNil) (tr_db t).
Proof.
  intros [Hs Hroot]. apply (use_all_rep (history os TNil)); [done|split; [constructor|by left]|apply holds_nil|done|done].
Qed.

(** ** Proofs and hashes of the map *)

Lemma tree_of_wf os t : trie_rep t (tree_of os) -> holds (tree_of os) (spec_all os no_content).2 -> (exists k, (spec_all os no_content).2 k <> None) -> wf (tree_of os).
Proof.
  intros [_ [E|]] Hh [k Hk]; [|done]. rewrite E in Hh. by rewrite <- (holds_get TNil _ k Hh) in Hk.
Qed.

Lemma tree_data os u : t_data (foldl (fun u o => grow o u) u os) ⊆ history os u.
Proof.
  revert u. induction os as [|o os IH]; intros u; [done|]. cbn [foldl history]. intros e He. apply elem_of_app. right. by apply IH.
Qed.

(** The root hash after some uses. *)
Definition root_after (os : list op) (db : gmap Hash bytes) : outcome Hash := (Trie_Hash (use_all os (fresh_trie db)).2).1.

Lemma root_after_eq os db : usable os db -> root_after os db = Ret (BytesToHash (t_hash (tree_of os))).
Proof.
  intros Hu. destruct (run_rep os db Hu) as (t & E & Hr & _). unfold root_after. rewrite E. cbn [snd].
  destruct (Trie_Hash_rep t _ Hr) as (t' & -> & _). done.
Qed.

(** C15: whatever sequence of reads, updates, deletions,
    hashings, commits and reopenings from the store a trie goes through, it
    never fails, every read gives what a plain map would give, and so does
    every read after it. *)
Theorem trie_refines_map (os : list op) (db : gmap Hash bytes) (Hu : usable os db) :
  exists t, use_all os (fresh_trie db) = (Ret (spec_all os no_content).1, t) /\ forall k, (TryGet k t).1 = Ret ((spec_all os no_content).2 k).
Proof.
  destruct (run_rep os db Hu) as (t & E & Hr & Hh & _). exists t. split; [done|]. intros k.
  destruct (TryGet_rep t _ k Hr) as (t' & -> & _). cbn [fst]. by rewrite (holds_get _ _ k Hh).
Qed.

(** C16: the root hash says which map the trie holds, and
    nothing of how it came about.  Two tries used in any two ways have the same
    root hash if and only if they hold the same map. *)
Theorem trie_hash_is_content (os os' : list op) (db db' : gmap Hash bytes) (Hu : usable os db) (Hu' : usable os' db')
  (Hc : forall e e', e ∈ history os TNil -> e' ∈ history os' TNil -> Keccak256Hash e = Keccak256Hash e' -> e = e') :
  root_after os db = root_after os' db' <-> forall k, (spec_all os no_content).2 k = (spec_all os' no_content).2 k.
Proof.
  rewrite !root_after_eq by done. destruct (run_rep os db Hu) as (t & _ & [_ Hw] & Hh & _), (run_rep os' db' Hu') as (t' & _ & [_ Hw'] & Hh' & _). split.
  - intros [= E]. assert (tree_of os = tree_of os') as Et.
    { apply hash_binds; [done|done|..].
      - intros a b Ha Hb Ek. apply Hc; [by apply tree_data|by apply tree_data|]. unfold Keccak256Hash. by rewrite Ek.
      - intros a Ha. apply (sb_small _ _ (us_store _ _ Hu)). by apply tree_data.
      - intros a Ha Ea. assert (Keccak256Hash a <> emptyRoot) as Hne by (destruct Ha; [apply (us_root _ _ Hu)|apply (us_root _ _ Hu')]; by apply tree_data).
        apply Hne. unfold Keccak256Hash. rewrite Ea. apply BytesToHash_Bytes. by apply (bool_decide_unpack _).
      - apply BytesToHash_inj; [apply length_t_hash..|done]. }
    intros k. rewrite <- (holds_get _ _ k Hh), <- (holds_get _ _ k Hh'). by rewrite Et.
  - intros Hm. by rewrite (holds_unique _ _ _ _ Hw Hw' Hh Hh' Hm).
Qed.

(** C18: a proof made for a key, present or not, verifies against
    the root hash of the trie and yields what the trie holds under the key. *)
Theorem proof_complete (os : list op) (db : gmap Hash bytes) (key : bytes) (Hu : usable os db) (Hne : exists k, (spec_all os no_content).2 k <> None) :
  exists root p, root_after os db = Ret root /\ Prove key 0 (use_all os (fresh_trie db)).2 ∅ = Ret p /\
    VerifyProof root key p = Ret ((spec_all os no_content).2 key).
Proof.
  destruct (run_rep os db Hu) as (t & E & Hr & Hh & Hs). pose proof (tree_of_wf os t Hr Hh Hne) as Hw. rewrite root_after_eq by done. rewrite E. cbn [snd].
  destruct (Prove_VerifyProof t (tree_of os) key ∅ Hr Hw) as (p & Ep & Ev).
  - split; [|by intros e e' _ He%lookup_empty_Some|].
    + intros e e' He He'. apply (sb_free _ _ Hs); by apply tree_data.
    + intros e He. apply (sb_small _ _ Hs). by apply tree_data.
  - eexists _, p. split_and!; [done|done|]. by rewrite Ev, (holds_get _ _ key Hh).
Qed.

(** C17: against the root hash of a trie, no collection of byte
    strings filed under their hashes proves anything but what the trie holds
    under the key, unless one of them collides with a node of the trie; a
    collection that lacks a node is refused. *)
Theorem proof_sound (os : list op) (db : gmap Hash bytes) (key : bytes) (p : gmap Hash bytes) (root : Hash)
  (Hu : usable os db) (Hne : exists k, (spec_all os no_content).2 k <> None) (Hroot : root_after os db = Ret root)
  (Ha : addressed p) (Hc : forall h e e', p !! h = Some e -> e' ∈ history os TNil -> Keccak256Hash e = Keccak256Hash e' -> e = e') :
  VerifyProof root key p = Ret ((spec_all os no_content).2 key) \/ VerifyProof root key p = Err (ErrFmt "proof node %d (hash %064x) missing").
Proof.
  destruct (run_rep os db Hu) as (t & E & Hr & Hh & Hs). pose proof (tree_of_wf os t Hr Hh Hne) as Hw.
  rewrite root_after_eq in Hroot by done. injection Hroot as <-. rewrite <- (holds_get _ _ key Hh). apply VerifyProof_sound; [done|]. split.
  - intros e e' He He'. apply (sb_free _ _ Hs); by apply tree_data.
  - intros e e' He Hp. eapply Hc; [done|by apply tree_data|]. symmetry. by apply (Ha _ _ Hp).
  - intros e He. apply (sb_small _ _ Hs). by apply tree_data.
Qed.

(** ** The stack trie *)

(** The root an ordinary trie has after the updates. *)
Definition trie_root (l : list (bytes * bytes)) (db : gmap Hash bytes) : outcome Hash := root_after (map (fun kv => OUpdate kv.1 kv.2) l) db.

Lemma updates_rep l : forall t u, trie_rep t u -> Forall (fun kv => kv.2 <> []) l ->
  exists a t', use_all (map (fun kv => OUpdate kv.1 kv.2) l) t = (Ret a, t') /\ trie_rep t' (tree_updates l u).
Proof.
  induction l as [|[k v] l IH]; intros t u Hr Hv; [by eexists _, t|]. apply Forall_cons in Hv as [Hv Hl].
  destruct (TryUpdate_rep t u k v Hr Hv) as (t1 & E1 & Hr1 & _). destruct (IH t1 _ Hr1 Hl) as (a & t2 & E2 & Hr2).
  cbn [map use_all use fst snd]. unfold mbind, M_bind. rewrite E1. cbn [mret M_ret]. unfold mret, M_ret. rewrite E2. by eexists _, t2.
Qed.

Lemma trie_root_eq l db : Forall (fun kv => kv.2 <> []) l -> trie_root l db = Ret (BytesToHash (t_hash (tree_updates l TNil))).
Proof.
  intros Hv. destruct (updates_rep l (fresh_trie db) TNil ltac:(split; [constructor|by left]) Hv) as (a & t & E & Hr). unfold trie_root, root_after. rewrite E. cbn [snd].
  destruct (Trie_Hash_rep t _ Hr) as (t' & -> & _). done.
Qed.

Lemma increasing_nodup l : increasing l -> NoDup l.*1.
Proof.
  unfold increasing. induction 1 as [|k ks Hs IH Hk]; constructor; [|done]. intros Hin. rewrite Forall_forall in Hk. by apply (byte_before_irrefl k), Hk.
Qed.


(** [DeriveSha] feeds a stack trie the elements in the order of their encoded
    indices. *)
Lemma derive_sha_equiv (l : list bytes) (db : gmap Hash bytes) (Hl : encoded l) : derive_sha l = trie_root (index_updates l) db.
Proof. rewrite trie_root_eq by by apply index_updates_values. by rewrite derive_sha_root. Qed.

(** A collection of one byte string. *)
Definition single_proof (e : bytes) : gmap Hash bytes := {[Keccak256Hash e := e]}.

Lemma single_proof_lookup e h e' : single_proof e !! h = Some e' -> h = Keccak256Hash e /\ e' = e.
Proof. unfold single_proof. by intros [<- <-]%lookup_singleton_Some. Qed.

Lemma single_proof_addressed e : addressed (single_proof e).
Proof. by intros h e' [-> ->]%single_proof_lookup. Qed.

(** ** Deciding the conditions *)

Definition hashed (D : list bytes) : list (Hash * bytes) := map (fun e => (Keccak256Hash e, e)) D.

Definition free_of (D D' : list bytes) : bool :=
  let l := hashed D in let l' := hashed D' in
  forallb (fun x => forallb (fun y => if (x.1 =? y.1)%Z then bool_decide (x.2 = y.2) else true) l') l.

Definition usable_check (os : list op) : bool :=
  let D := history os TNil in
  free_of D D && forallb (fun e => (zlen e <? 2 ^ 64)%Z && negb (Keccak256Hash e =? emptyRoot)%Z && negb (Keccak256Hash e =? 0)%Z) D.

Lemma free_of_spec D D' : free_of D D' = true -> forall e e', e ∈ D -> e' ∈ D' -> Keccak256Hash e = Keccak256Hash e' -> e = e'.
Proof.
  intros Hf e e' He He' E. unfold free_of, hashed in Hf. rewrite forallb_forall in Hf. apply list_elem_of_In in He, He'.
  specialize (Hf _ (in_map _ _ _ He)). rewrite forallb_forall in Hf. specialize (Hf _ (in_map _ _ _ He')). cbn [fst snd] in Hf.
  rewrite E, Z.eqb_refl in Hf. by apply bool_decide_eq_true in Hf.
Qed.

Lemma usable_check_spec os : usable_check os = true -> usable os ∅.
Proof.
  unfold usable_check. intros [Hf Ha]%andb_true_iff. rewrite forallb_forall in Ha. setoid_rewrite andb_true_iff in Ha. setoid_rewrite andb_true_iff in Ha. split; [split|].
  - by apply free_of_spec.
  - by intros e e' _ He%lookup_empty_Some.
  - intros e He%list_elem_of_In. by apply Z.ltb_lt, Ha.
  - intros e He%list_elem_of_In. destruct (Ha e He) as [[_ H1] H2]. by apply negb_true_iff, Z.eqb_neq in H1, H2.
Qed.

End Map.

(** ** Examples *)

#[local] Existing Instance sample_keccak.

Definition key_a : bytes := [x61; x62].
Definition key_b : bytes := [x61; x73].
Definition key_c : bytes := [x61; x62; x63].
Definition long_value (b : byte) : bytes := replicate 40 b.

(** Uses that grow a branch, fold it up again and go through the store. *)
Definition sample_uses : list op :=
  [OUpdate key_a (long_value x01); OUpdate key_b (long_value x02); OReopen; OGet key_b; OUpdate key_c [x03]; OCommit; ODelete key_b; OReopen; OGet key_a; OUpdate key_c []; OHash; OUpdate key_b [x05]].

Definition other_uses : list op := [OUpdate key_b [x05]; OGet key_c; OUpdate key_a (long_value x01)].

Lemma sample_usable : usable sample_uses ∅.
Proof. apply usable_check_spec. vm_compute. reflexivity. Qed.

Lemma other_usable : usable other_uses ∅.
Proof. apply usable_check_spec. vm_compute. reflexivity. Qed.

Lemma trie_refines_map_witness : exists t, use_all sample_uses (fresh_trie ∅) = (Ret [Some (long_value x02); Some (long_value x01)], t) /\
  (TryGet key_c t).1 = Ret None /\ (TryGet key_b t).1 = Ret (Some [x05]).
Proof.
  destruct (trie_refines_map sample_uses ∅ sample_usable) as (t & E & Hg). exists t. split_and!; [exact E|exact (Hg key_c)|exact (Hg key_b)].
Defined.

Lemma trie_hash_is_content_witness : root_after sample_uses ∅ = root_after other_uses ∅.
Proof.
  apply (trie_hash_is_content sample_uses other_uses ∅ ∅ sample_usable other_usable).
  - apply free_of_spec. vm_compute. reflexivity.
  - intros k. cbn. unfold put, key_a, key_b, key_c. repeat case_decide; by simplify_eq.
Defined.

Lemma sample_nonempty : exists k, (spec_all sample_uses no_content).2 k <> None.
Proof. exists key_b. done. Qed.

Lemma proof_complete_witness : exists root p, root_after sample_uses ∅ = Ret root /\ Prove key_a 0 (use_all sample_uses (fresh_trie ∅)).2 ∅ = Ret p /\
  VerifyProof root key_a p = Ret (Some (long_value x01)).
Proof. exact (proof_complete sample_uses ∅ key_a sample_usable sample_nonempty). Defined.

(** A proof of something else: a leaf of another trie. *)
Definition forged_leaf : bytes := [xc2; x20; x07].

Lemma proof_sound_witness : exists root, root_after sample_uses ∅ = Ret root /\
  (VerifyProof root key_c (single_proof forged_leaf) = Ret None \/
   VerifyProof root key_c (single_proof forged_leaf) = Err (ErrFmt "proof node %d (hash %064x) missing")).
Proof.
  eexists. split; [exact (root_after_eq _ _ sample_usable)|].
  apply (proof_sound sample_uses ∅ key_c (single_proof forged_leaf) _ sample_usable sample_nonempty (root_after_eq _ _ sample_usable)).
  - apply single_proof_addressed.
  - intros h e e' [_ ->]%single_proof_lookup He'. apply (free_of_spec [forged_leaf] (history sample_uses TNil)); [by vm_compute|by apply list_elem_of_singleton|done].
Defined.

Definition sample_updates : list (bytes * bytes) := [(key_c, [x03]); (key_b, long_value x02); ([x62], [x07])].

