(* ===== verification/Validator.v ===== *)
(** * Validator sets (package [consensus/hotstuff/validator])

    [defaultSet] with its constructor, selectors, membership operations and
    fault bounds, plus [ExtractValidators].  A validator is its address.  The
    set is sorted by the EIP-55 spelling of the addresses; [sort.Sort] is
    modelled by a merge sort, which is any sort's result because distinct
    addresses have distinct spellings ([sort_Validators_unique]).  The mutex is
    not modelled: every method is one atomic step. *)
From S2P Require Import Prelude Errors Common.
From Stdlib Require Import ZArith Lia Strings.Byte.
From stdpp Require Import base list option sorting strings.
Open Scope Z_scope.

(** ** consensus/hotstuff/config.go *)

Definition SelectProposerPolicy := string.
Definition RoundRobin : SelectProposerPolicy := "RoundRobin".
Definition Sticky : SelectProposerPolicy := "Sticky".
Definition VRF : SelectProposerPolicy := "VRF".

(** ** Validators *)

Record Validator := New { val_Address : Address }.

#[global] Instance Validator_eq_dec : EqDecision Validator.
Proof. solve_decision. Defined.

Record defaultSet := mkDefaultSet {
  vs_validators : list Validator;
  vs_policy : SelectProposerPolicy;
  vs_proposer : option Validator
}.

Section Sorting.
Context `{Keccak}.

Definition Validator_String (v : Validator) : bytes := Address_String (val_Address v).

Definition Validators_Less (v w : Validator) : bool :=
  match bytes_compare (Validator_String v) (Validator_String w) with Lt => true | _ => false end.

(** The order [sort.Sort] establishes: no later element is less than an earlier one. *)
Definition Validators_le (v w : Validator) : Prop := Validators_Less w v = false.

#[global] Instance Validators_le_dec v w : Decision (Validators_le v w).
Proof. unfold Validators_le. apply _. Defined.

Definition sort_Validators (l : list Validator) : list Validator := merge_sort Validators_le l.

End Sorting.

(** ** Queries *)

Definition Size (vs : defaultSet) : Z := Z.of_nat (length (vs_validators vs)).
Definition List (vs : defaultSet) : list Validator := vs_validators vs.
Definition AddressList (vs : defaultSet) : list Address := val_Address <$> vs_validators vs.

Definition GetByIndex (i : Z) (vs : defaultSet) : option Validator :=
  if i <? Size vs then vs_validators vs !! Z.to_nat i else None.

(** The index is [-1] when the address is not a member. *)
Fixpoint index_of_address (i : Z) (addr : Address) (l : list Validator) : Z * option Validator :=
  match l with
  | [] => (-1, None)
  | val :: l' => if addr =? val_Address val then (i, Some val) else index_of_address (i + 1) addr l'
  end.

Definition GetByAddress (addr : Address) (vs : defaultSet) : Z * option Validator :=
  index_of_address 0 addr (List vs).

Definition GetProposer (vs : defaultSet) : option Validator := vs_proposer vs.

(** [reflect.DeepEqual] of two interface values, either of which may be nil. *)
Definition IsProposer (address : Address) (vs : defaultSet) : bool :=
  bool_decide (GetProposer vs = (GetByAddress address vs).2).

Definition F (vs : defaultSet) : Z := Z.quot (Size vs - 1) 3.
Definition Q (vs : defaultSet) : Z := Size vs - F vs.
Definition Policy (vs : defaultSet) : SelectProposerPolicy := vs_policy vs.

(** ** Proposer selection *)

Definition calcSeed (vs : defaultSet) (proposer : Address) (round : Z) : Z :=
  let '(idx, val) := GetByAddress proposer vs in
  let offset := match val with Some _ => idx | None => 0 end in
  u64 (offset + round).

Definition emptyAddress (addr : Address) : bool := addr =? EmptyAddress.

Definition roundRobinSelector (vs : defaultSet) (proposer : Address) (round : Z) : option Validator :=
  if Size vs =? 0 then None
  else
    let seed := if emptyAddress proposer then round else u64 (calcSeed vs proposer round + 1) in
    GetByIndex (seed mod Size vs) vs.

Definition stickySelector (vs : defaultSet) (proposer : Address) (round : Z) : option Validator :=
  if Size vs =? 0 then None
  else
    let seed := if emptyAddress proposer then round else calcSeed vs proposer round in
    GetByIndex (seed mod Size vs) vs.

Definition vrfSelector (vs : defaultSet) (proposer : Address) (round : Z) : option Validator := None.

(** The [selector] field, which [newDefaultSet] derives from the policy and
    nothing assigns afterwards. *)
Definition selector (policy : SelectProposerPolicy) : defaultSet -> Address -> Z -> option Validator :=
  if decide (policy = VRF) then vrfSelector
  else if decide (policy = Sticky) then stickySelector
  else roundRobinSelector.

Definition CalcProposer (lastProposer : Address) (round : Z) (vs : defaultSet) : defaultSet :=
  mkDefaultSet (vs_validators vs) (vs_policy vs) (selector (vs_policy vs) vs lastProposer round).

Definition CalcProposerByIndex (index : Z) (vs : defaultSet) : defaultSet :=
  if index <? Size vs then mkDefaultSet (vs_validators vs) (vs_policy vs) (vs_validators vs !! Z.to_nat index)
  else vs.

(** ** Construction and membership changes *)

Section Construction.
Context `{Keccak}.

Definition newDefaultSet (addrs : list Address) (policy : SelectProposerPolicy) : defaultSet :=
  let validators := sort_Validators (New <$> addrs) in
  let vs := mkDefaultSet validators policy None in
  mkDefaultSet validators policy (if 0 <? Size vs then GetByIndex 0 vs else None).

Definition NewSet := newDefaultSet.

(** Adding re-sorts; the proposer field is left as it is. *)
Definition AddValidator (address : Address) (vs : defaultSet) : bool * defaultSet :=
  if existsb (fun v => val_Address v =? address) (vs_validators vs) then (false, vs)
  else (true, mkDefaultSet (sort_Validators (vs_validators vs ++ [New address])) (vs_policy vs) (vs_proposer vs)).

Fixpoint remove_first (address : Address) (l : list Validator) : option (list Validator) :=
  match l with
  | [] => None
  | v :: l' => if val_Address v =? address then Some l' else cons v <$> remove_first address l'
  end.

Definition RemoveValidator (address : Address) (vs : defaultSet) : bool * defaultSet :=
  match remove_first address (vs_validators vs) with
  | Some l => (true, mkDefaultSet l (vs_policy vs) (vs_proposer vs))
  | None => (false, vs)
  end.

(** A copy is a new set: its proposer is the first validator again. *)
Definition Copy (vs : defaultSet) : defaultSet := NewSet (AddressList vs) (vs_policy vs).

End Construction.

(** ** Extra data *)

Fixpoint extract_chunks (n : nat) (extraData : bytes) : list Address :=
  match n with
  | O => []
  | S n' => be_value (take AddressLength extraData) :: extract_chunks n' (drop AddressLength extraData)
  end.

Definition ExtractValidators (extraData : bytes) : list Address :=
  extract_chunks (length extraData / AddressLength) extraData.

Definition ValidExtraData (extraData : bytes) : bool := (length extraData mod AddressLength =? 0)%nat.

(** ** Invariant *)

(** Members are addresses, sorted by spelling, without duplicates. *)
Record valset_ok `{Keccak} (vs : defaultSet) : Prop := {
  vo_addr : Forall (fun v => address_ok (val_Address v)) (vs_validators vs);
  vo_sorted : StronglySorted Validators_le (vs_validators vs);
  vo_nodup : NoDup (vs_validators vs)
}.

Section SortingProofs.
Context `{Keccak}.

Lemma Validators_le_spec v w :
  Validators_le v w <-> bytes_compare (Validator_String v) (Validator_String w) <> Gt.
Proof.
  unfold Validators_le, Validators_Less. rewrite (bytes_compare_antisym (Validator_String v)).
  by destruct (bytes_compare _ _).
Qed.

#[global] Instance Validators_le_total : Total Validators_le.
Proof.
  intros v w. rewrite !Validators_le_spec, (bytes_compare_antisym (Validator_String v)).
  destruct (bytes_compare _ _); simpl; auto.
Qed.

#[global] Instance Validators_le_trans : Transitive Validators_le.
Proof.
  intros u v w. rewrite !Validators_le_spec. intros H1 H2.
  destruct (bytes_compare (Validator_String u) (Validator_String v)) eqn:E1; [|clear H1|done].
  - apply bytes_compare_eq in E1. by rewrite E1.
  - destruct (bytes_compare (Validator_String v) (Validator_String w)) eqn:E2; [| |done].
    + apply bytes_compare_eq in E2. by rewrite <- E2, E1.
    + by rewrite (bytes_compare_lt_trans _ _ _ E1 E2).
Qed.

Lemma Validators_le_antisym v w : address_ok (val_Address v) -> address_ok (val_Address w) ->
  Validators_le v w -> Validators_le w v -> v = w.
Proof.
  rewrite !Validators_le_spec, (bytes_compare_antisym (Validator_String v)). intros Hv Hw H1 H2.
  destruct (bytes_compare (Validator_String v) (Validator_String w)) eqn:E; try done.
  apply bytes_compare_eq in E. apply Address_String_inj in E; try done.
  destruct v, w. simpl in *. congruence.
Qed.

Lemma sort_Validators_perm l : sort_Validators l ≡ₚ l.
Proof. apply merge_sort_Permutation. Qed.

Lemma sort_Validators_sorted l : StronglySorted Validators_le (sort_Validators l).
Proof. apply StronglySorted_merge_sort; apply _. Qed.

(** Any list with the same members that is in order is the sorted list. *)
Lemma sort_Validators_unique l l' : Forall (fun v => address_ok (val_Address v)) l ->
  l' ≡ₚ l -> StronglySorted Validators_le l' -> l' = sort_Validators l.
Proof.
  intros Hok Hp Hs. apply (StronglySorted_unique_strong Validators_le).
  - intros v w Hv Hw. rewrite Hp in Hv. rewrite sort_Validators_perm in Hw.
    rewrite Forall_forall in Hok. apply Validators_le_antisym; auto.
  - done.
  - apply sort_Validators_sorted.
  - by rewrite sort_Validators_perm.
Qed.

End SortingProofs.

(** ** Lookup lemmas *)

Lemma index_of_address_Some i addr l k v : index_of_address i addr l = (k, Some v) ->
  v = New addr /\ i <= k /\ l !! Z.to_nat (k - i) = Some v.
Proof.
  revert i. induction l as [|w l IH]; intros i; cbn; [done|].
  destruct (Z.eqb_spec addr (val_Address w)) as [->|].
  - intros [= <- <-]. rewrite Z.sub_diag. by destruct w.
  - intros (-> & ? & Hl)%IH. split_and!; [done|lia|].
    replace (Z.to_nat (k - i)) with (S (Z.to_nat (k - (i + 1)))) by lia. done.
Qed.

Lemma index_of_address_snd i addr l :
  (index_of_address i addr l).2 = if decide (New addr ∈ l) then Some (New addr) else None.
Proof.
  revert i. induction l as [|w l IH]; intros i; cbn; [by rewrite decide_False by apply not_elem_of_nil|].
  destruct (Z.eqb_spec addr (val_Address w)) as [->|Hne].
  - destruct w as [a]. cbn. by rewrite decide_True by left.
  - rewrite IH. destruct (decide (New addr ∈ l)).
    + by rewrite decide_True by (by right).
    + rewrite decide_False; [done|]. intros [Heq|]%elem_of_cons; [|done]. by subst w.
Qed.

Lemma GetByAddress_snd addr vs :
  (GetByAddress addr vs).2 = if decide (New addr ∈ vs_validators vs) then Some (New addr) else None.
Proof. apply index_of_address_snd. Qed.

Lemma GetByAddress_Some addr vs k v : GetByAddress addr vs = (k, Some v) ->
  v = New addr /\ 0 <= k < Size vs /\ vs_validators vs !! Z.to_nat k = Some v.
Proof.
  intros (-> & Hk & Hl)%index_of_address_Some. rewrite Z.sub_0_r in Hl. unfold Size, List in *.
  apply lookup_lt_Some in Hl as Hlt. split_and!; [done|lia|lia|done].
Qed.

Lemma GetByIndex_in_range i vs : 0 <= i < Size vs -> GetByIndex i vs = vs_validators vs !! Z.to_nat i.
Proof. intros. unfold GetByIndex. destruct (Z.ltb_spec i (Size vs)); [done|lia]. Qed.

Lemma elem_of_AddressList a vs : a ∈ AddressList vs <-> New a ∈ vs_validators vs.
Proof.
  unfold AddressList. rewrite list_elem_of_fmap. split.
  - intros ([b] & -> & ?). done.
  - intros. by exists (New a).
Qed.

(** The number of faults tolerated, in terms of the size. *)
Lemma F_bounds vs : 0 < Size vs -> 0 <= F vs /\ 3 * F vs + 1 <= Size vs <= 3 * F vs + 3.
Proof.
  intros. unfold F. rewrite Z.quot_div_nonneg by lia.
  pose proof (Z.div_mod (Size vs - 1) 3). pose proof (Z.mod_pos_bound (Size vs - 1) 3).
  pose proof (Z.div_pos (Size vs - 1) 3). lia.
Qed.

(** The seed of a selector, as an index into the cycle of validators. *)
Definition rr_base (vs : defaultSet) (last : Address) : Z :=
  if emptyAddress last then 0
  else match (GetByAddress last vs).2 with
       | Some _ => (GetByAddress last vs).1 + 1
       | None => 1
       end.

Lemma rr_base_range vs last : 0 < Size vs -> 0 <= rr_base vs last <= Size vs.
Proof.
  intros. unfold rr_base. destruct (emptyAddress last); [lia|].
  destruct (GetByAddress last vs) as [k [v|]] eqn:E; cbn; [|lia].
  apply GetByAddress_Some in E. lia.
Qed.

Lemma roundRobinSelector_index vs last round : 0 < Size vs -> 0 <= round -> round + Size vs < 2 ^ 64 ->
  roundRobinSelector vs last round =
    vs_validators vs !! Z.to_nat ((rr_base vs last + round) mod Size vs).
Proof.
  intros Hn Hr Hb. unfold roundRobinSelector. destruct (Z.eqb_spec (Size vs) 0); [lia|].
  unfold rr_base. rewrite GetByIndex_in_range by (apply Z.mod_pos_bound; lia).
  destruct (emptyAddress last); [by rewrite Z.add_0_l|].
  unfold calcSeed. destruct (GetByAddress last vs) as [k [v|]] eqn:E; cbn [fst snd].
  - apply GetByAddress_Some in E. rewrite (u64_small (k + round)), u64_small by lia. do 3 f_equal. lia.
  - rewrite (u64_small (0 + round)), u64_small by lia. do 3 f_equal. lia.
Qed.

Section Membership.
Context `{Keccak}.

Lemma newDefaultSet_members addrs policy :
  vs_validators (newDefaultSet addrs policy) ≡ₚ New <$> addrs.
Proof. apply sort_Validators_perm. Qed.

Lemma newDefaultSet_ok addrs policy : Forall address_ok addrs -> NoDup addrs ->
  valset_ok (newDefaultSet addrs policy).
Proof.
  intros Ha Hn. constructor.
  - rewrite newDefaultSet_members. by apply Forall_fmap.
  - apply sort_Validators_sorted.
  - rewrite newDefaultSet_members. apply NoDup_fmap_2_strong; [|done]. by intros ? ? _ _ [= ->].
Qed.

Lemma existsb_member address vs :
  existsb (fun v => val_Address v =? address) (vs_validators vs) = true <-> New address ∈ vs_validators vs.
Proof.
  rewrite existsb_exists. split.
  - intros ([a] & Hin & Heq%Z.eqb_eq). cbn in Heq. subst. by apply list_elem_of_In.
  - intros Hin. exists (New address). split; [by apply list_elem_of_In|apply Z.eqb_refl].
Qed.

Lemma remove_first_spec address l :
  match remove_first address l with
  | Some l' => exists l1 l2, l = l1 ++ New address :: l2 /\ l' = l1 ++ l2 /\ New address ∉ l1
  | None => New address ∉ l
  end.
Proof.
  induction l as [|[a] l IH]; cbn; [apply not_elem_of_nil|].
  destruct (Z.eqb_spec a address) as [->|Hne].
  - exists [], l. split_and!; [done|done|apply not_elem_of_nil].
  - destruct (remove_first address l) as [l'|]; cbn.
    + destruct IH as (l1 & l2 & -> & -> & Hn). exists (New a :: l1), l2. split_and!; [done|done|].
      intros [Heq|]%elem_of_cons; [by simplify_eq|done].
    + intros [Heq|]%elem_of_cons; [by simplify_eq|done].
Qed.

Lemma AddValidator_spec vs a : valset_ok vs -> address_ok a ->
  let '(added, vs1) := AddValidator a vs in
  valset_ok vs1 /\ (added = true <-> New a ∉ vs_validators vs) /\
  forall b, New b ∈ vs_validators vs1 <-> b = a \/ New b ∈ vs_validators vs.
Proof.
  intros Hvs Ha. unfold AddValidator. pose proof (existsb_member a vs) as Hex.
  destruct (existsb _ _); cbn [vs_validators].
  - split_and!; [done|split; [done|by intros []; apply Hex]|]. intros b. split; [by right|].
    intros [-> |]; [by apply Hex|done].
  - assert (New a ∉ vs_validators vs) by (intros ?%Hex; done). destruct Hvs as [Hok Hs Hn].
    split_and!; [constructor; cbn [vs_validators]|done|].
    + rewrite sort_Validators_perm, Forall_app. by split; [|apply Forall_singleton].
    + apply sort_Validators_sorted.
    + rewrite sort_Validators_perm. apply list.NoDup_app. split_and!; [done| |by apply NoDup_singleton].
      intros v Hv ->%list_elem_of_singleton. done.
    + intros b. rewrite sort_Validators_perm, elem_of_app, list_elem_of_singleton. naive_solver.
Qed.

Lemma RemoveValidator_spec vs a : valset_ok vs ->
  let '(removed, vs2) := RemoveValidator a vs in
  valset_ok vs2 /\ (removed = true <-> New a ∈ vs_validators vs) /\
  forall b, New b ∈ vs_validators vs2 <-> b <> a /\ New b ∈ vs_validators vs.
Proof.
  intros Hvs. unfold RemoveValidator. pose proof (remove_first_spec a (vs_validators vs)) as Hrm.
  destruct (remove_first _ _) as [l'|]; cbn [vs_validators].
  - destruct Hrm as (l1 & l2 & Hl & -> & Hnl), Hvs as [Hok Hs Hn]. rewrite Hl in *.
    apply list.NoDup_app in Hn as (Hn1 & Hn2 & [Hn3 Hn4]%NoDup_cons).
    split_and!; [constructor; cbn [vs_validators]|split; [intros _; apply elem_of_app; right; left|done]|].
    + apply Forall_app in Hok as [? [??]%Forall_cons]. by apply Forall_app.
    + apply StronglySorted_app in Hs as (Hs1 & Hs2 & [Hs3 _]%StronglySorted_inv).
      apply StronglySorted_app. split_and!; [|done|done]. intros x y Hx Hy. apply Hs1; [done|by right].
    + apply list.NoDup_app. split_and!; [done| |done]. intros v ? ?. eapply Hn2; [done|by right].
    + intros b. rewrite !elem_of_app, elem_of_cons. naive_solver.
  - split_and!; [done|split; [done|by intros ?%Hrm]|]. intros b. split; [|by intros []].
    intros Hb. split; [|done]. by intros ->.
Qed.

End Membership.

(** ** Properties *)

Section Properties.
Context `{Keccak}.

(** The validator set built from a list of addresses does not depend
    on the order of the list: every node that starts from the same members has
    the same list, hence the same indices and the same proposer. *)
Theorem newDefaultSet_order_independent addrs addrs' policy :
  Forall address_ok addrs -> addrs ≡ₚ addrs' ->
  newDefaultSet addrs policy = newDefaultSet addrs' policy.
Proof.
  intros Hok Hp. unfold newDefaultSet.
  assert (sort_Validators (New <$> addrs) = sort_Validators (New <$> addrs')) as ->; [|done].
  symmetry. apply sort_Validators_unique; [by apply Forall_fmap| |apply sort_Validators_sorted].
  by rewrite sort_Validators_perm, Hp.
Qed.

(** Round-robin selection is fair: in [Size] consecutive rounds at
    one height every validator is selected exactly once, whoever proposed the
    last block. *)
Theorem roundRobin_fair vs last r :
  0 < Size vs -> 0 <= r -> r + 2 * Size vs < 2 ^ 64 ->
  (fun k : nat => roundRobinSelector vs last (r + Z.of_nat k)) <$> seq 0 (length (vs_validators vs))
  ≡ₚ Some <$> vs_validators vs.
Proof.
  intros Hn Hr Hb. pose proof (rr_base_range vs last Hn).
  rewrite (list_fmap_ext _ (fun k : nat => vs_validators vs !! Z.to_nat
    ((rr_base vs last + r + Z.of_nat k) mod Z.of_nat (length (vs_validators vs)))) (seq _ _)).
  - rewrite cyclic_lookup by (lia || (intros E; unfold Size in Hn; by rewrite E in Hn)).
    by rewrite rotate_Permutation.
  - intros i k [-> Hi]%lookup_seq. unfold Size in *. rewrite roundRobinSelector_index by (unfold Size; lia).
    unfold Size. by rewrite Z.add_assoc.
Qed.

(** Any two quorums of a set have more than [F] validators in
    common, and [F] is less than a third of the set: two quorums share an
    honest validator when at most [F] are faulty. *)
Theorem quorum_intersection vs (A B : list Validator) :
  0 < Size vs -> NoDup A -> NoDup B -> A ⊆ vs_validators vs -> B ⊆ vs_validators vs ->
  Q vs <= Z.of_nat (length A) -> Q vs <= Z.of_nat (length B) ->
  3 * F vs < Size vs /\ F vs < Z.of_nat (length (filter (fun v => v ∈ B) A)).
Proof.
  intros Hn HA HB HAl HBl Ha Hb. pose proof (F_bounds vs Hn).
  pose proof (list_intersection_length A B _ HA HB HAl HBl). unfold Q, Size in *. lia.
Qed.

(** Adding and removing validators keeps the set sorted and free of
    duplicates, and changes the membership by exactly the given address; the
    result says whether the set changed. *)
Theorem membership_changes vs a : valset_ok vs -> address_ok a ->
  let '(added, vs1) := AddValidator a vs in
  let '(removed, vs2) := RemoveValidator a vs in
  valset_ok vs1 /\ valset_ok vs2 /\
  (added = true <-> a ∉ AddressList vs) /\ (removed = true <-> a ∈ AddressList vs) /\
  (forall b, b ∈ AddressList vs1 <-> b = a \/ b ∈ AddressList vs) /\
  (forall b, b ∈ AddressList vs2 <-> b <> a /\ b ∈ AddressList vs).
Proof.
  intros Hvs Ha. pose proof (AddValidator_spec vs a Hvs Ha) as H1. pose proof (RemoveValidator_spec vs a Hvs) as H2.
  destruct (AddValidator a vs), (RemoveValidator a vs). setoid_rewrite elem_of_AddressList. naive_solver.
Qed.

(** With a rotating policy a non-empty set always has exactly one
    proposer, a member of the set: an address is the proposer exactly when it
    is the selected validator's. *)
Theorem unique_proposer vs last round :
  0 < Size vs -> vs_policy vs <> VRF -> 0 <= round < 2 ^ 64 ->
  exists v, GetProposer (CalcProposer last round vs) = Some v /\ v ∈ vs_validators vs /\
    forall a, IsProposer a (CalcProposer last round vs) = true <-> a = val_Address v.
Proof.
  intros Hn Hp Hr.
  assert (exists i, 0 <= i < Size vs /\ selector (vs_policy vs) vs last round = GetByIndex i vs) as (i & Hi & He).
  { unfold selector. rewrite decide_False by done.
    destruct (decide _); [unfold stickySelector|unfold roundRobinSelector];
      (destruct (Z.eqb_spec (Size vs) 0); [lia|]);
      eexists; (split; [apply Z.mod_pos_bound; lia|done]). }
  unfold CalcProposer. rewrite He, GetByIndex_in_range by done.
  destruct (lookup_lt_is_Some_2 (vs_validators vs) (Z.to_nat i)) as [v Hv]; [unfold Size in Hi; lia|].
  rewrite Hv. exists v. apply list_elem_of_lookup_2 in Hv as Hin. split_and!; [done|done|].
  intros a. unfold IsProposer. rewrite bool_decide_eq_true, GetByAddress_snd. cbn [GetProposer vs_proposer vs_validators].
  destruct (decide _) as [Ha|Ha]; split; intros E; simplify_eq; try done; destruct v; by simplify_eq.
Qed.

(** Under the VRF policy no validator is selected, and then every
    address that is not a member passes for the proposer. *)
Theorem vrf_everyone_proposer vs last round a :
  vs_policy vs = VRF -> a ∉ AddressList vs ->
  GetProposer (CalcProposer last round vs) = None /\ IsProposer a (CalcProposer last round vs) = true.
Proof.
  intros Hp Ha. rewrite elem_of_AddressList in Ha. unfold CalcProposer, IsProposer, selector.
  rewrite Hp, decide_True by done. split; [done|]. rewrite GetByAddress_snd. cbn.
  by rewrite decide_False.
Qed.

End Properties.

Lemma extract_chunks_roundtrip addrs : Forall address_ok addrs ->
  extract_chunks (length addrs) (concat (Address_Bytes <$> addrs)) = addrs.
Proof.
  induction 1 as [|a addrs Ha _ IH]; [done|]. cbn [length extract_chunks fmap list_fmap concat].
  assert (length (Address_Bytes a) = AddressLength) as Hl by apply length_be_fixed.
  rewrite take_app_length', drop_app_length', IH by done. f_equal. by apply be_value_fixed_small.
Qed.

Lemma length_address_bytes addrs :
  length (concat (Address_Bytes <$> addrs)) = (length addrs * AddressLength)%nat.
Proof.
  induction addrs as [|a addrs IH]; [done|]. cbn [fmap list_fmap concat length]. rewrite length_app.
  change (Address_Bytes <$> addrs) with (fmap Address_Bytes addrs) in *. rewrite IH.
  unfold Address_Bytes at 1. rewrite length_be_fixed. lia.
Qed.

(** Extracting validators from the concatenation of their 20-byte
    addresses gives the addresses back, and such data passes the length check. *)
Theorem ExtractValidators_roundtrip addrs : Forall address_ok addrs ->
  let data := concat (Address_Bytes <$> addrs) in
  ValidExtraData data = true /\ ExtractValidators data = addrs.
Proof.
  intros Hok data. unfold ValidExtraData, ExtractValidators, data. rewrite length_address_bytes. split.
  - by rewrite Nat.Div0.mod_mul.
  - rewrite Nat.div_mul by done. by apply extract_chunks_roundtrip.
Qed.

(** ** Witnesses *)

Section Witnesses.
#[local] Existing Instance sample_keccak.

Definition sample_set : defaultSet := newDefaultSet [4; 3; 2; 1] RoundRobin.

Lemma sample_set_ok : valset_ok sample_set.
Proof. apply newDefaultSet_ok; decide_eval. Qed.

Lemma newDefaultSet_order_independent_witness :
  newDefaultSet [4; 3; 2; 1] RoundRobin = newDefaultSet [1; 2; 3; 4] RoundRobin.
Proof.
  apply (newDefaultSet_order_independent [4; 3; 2; 1] [1; 2; 3; 4] RoundRobin).
  - decide_eval.
  - decide_eval.
Defined.

Lemma roundRobin_fair_witness :
  (fun k : nat => roundRobinSelector sample_set 2 (7 + Z.of_nat k)) <$> seq 0 4
  ≡ₚ [Some (New 1); Some (New 2); Some (New 3); Some (New 4)].
Proof. exact (roundRobin_fair sample_set 2 7 eq_refl ltac:(done) eq_refl). Defined.

Lemma quorum_intersection_witness :
  3 * F sample_set < Size sample_set /\
  F sample_set < Z.of_nat (length (filter (fun v => v ∈ [New 2; New 3; New 4]) [New 1; New 2; New 3])).
Proof.
  apply (quorum_intersection sample_set [New 1; New 2; New 3] [New 2; New 3; New 4]).
  all: try (by vm_compute).
  all: try decide_eval.
  all: apply Forall_forall; decide_eval.
Defined.

Lemma membership_changes_witness :
  5 ∈ AddressList (AddValidator 5 sample_set).2 /\ 5 ∉ AddressList (RemoveValidator 5 sample_set).2.
Proof.
  pose proof (membership_changes sample_set 5 sample_set_ok ltac:(decide_eval)) as Hm.
  destruct (AddValidator 5 sample_set), (RemoveValidator 5 sample_set).
  destruct Hm as (_ & _ & _ & _ & H1 & H2). split; [apply H1; by left|]. intros []%H2. done.
Defined.

Lemma unique_proposer_witness :
  exists v, GetProposer (CalcProposer 2 0 sample_set) = Some v /\ v ∈ vs_validators sample_set /\
    forall a, IsProposer a (CalcProposer 2 0 sample_set) = true <-> a = val_Address v.
Proof. exact (unique_proposer sample_set 2 0 eq_refl ltac:(done) ltac:(done)). Defined.

Lemma vrf_everyone_proposer_witness :
  IsProposer 99 (CalcProposer 2 0 (newDefaultSet [1; 2; 3; 4] VRF)) = true.
Proof.
  apply (vrf_everyone_proposer (newDefaultSet [1; 2; 3; 4] VRF) 2 0 99 eq_refl).
  decide_eval.
Defined.

Lemma ExtractValidators_roundtrip_witness :
  ExtractValidators (Address_Bytes 258 ++ Address_Bytes 3) = [258; 3].
Proof.
  rewrite <- (app_nil_r (Address_Bytes 3)).
  apply (ExtractValidators_roundtrip [258; 3]). decide_eval.
Defined.

End Witnesses.
