(* ===== verification/Codec.v ===== *)
(** * Typed RLP codecs

    [rlp] derives the encoder and decoder of a Go type by reflection: a struct
    is the list of its fields in order, a slice the list of its elements, a
    byte array a string of fixed length, a big integer a minimal string.  A
    [codec] is such a pair with the two laws that relate them and the fact that
    neither panics, and the combinators below are the cases of [makeWriter] and
    [makeDecoder]; the struct decoder reports missing and surplus elements
    field by field as [makeStructDecoder] does. *)
From S2P Require Import Prelude Errors Rlp Common.
From Stdlib Require Import ZArith Lia Strings.Byte.
From stdpp Require Import base list option strings.
Open Scope Z_scope.

(** ** Codecs of values *)

Lemma safe_writeBigInt z : safe (writeBigInt z).
Proof. unfold writeBigInt. by destruct (z <? 0). Qed.

Record codec (A : Type) := mkCodec {
  enc : A -> outcome item;
  dec : item -> outcome A;
  c_ok : A -> Prop;
  dec_enc a : c_ok a -> exists it, enc a = Ret it /\ dec it = Ret a;
  enc_dec it a : dec it = Ret a -> c_ok a /\ enc a = Ret it;
  codec_safe : (forall a, safe (enc a)) /\ (forall it, safe (dec it))
}.
Arguments mkCodec {A} _ _ _ _ _ _.
Arguments enc {A} _ _.
Arguments dec {A} _ _.
Arguments c_ok {A} _ _.
Arguments dec_enc {A} _ _ _.
Arguments enc_dec {A} _ _ _ _.
Arguments codec_safe {A} _.

(** [rlp.EncodeToBytes] and [rlp.DecodeBytes] at the type of the codec. *)
Definition encode_val {A} (c : codec A) (a : A) : outcome bytes :=
  it ← enc c a; Ret (EncodeToBytes it).

Definition decode_val {A} (c : codec A) (b : bytes) : outcome A :=
  it ← DecodeBytes b; dec c it.

(** The encoding has fewer than [2^64] bytes. *)
Definition fits {A} (c : codec A) (a : A) : Prop :=
  forall it, enc c a = Ret it -> zlen (encode it) < 2 ^ 64.

(** *** Byte arrays, integers, byte slices *)

Program Definition c_array (n : nat) : codec Z :=
  mkCodec (fun z => Ret (writeByteArray n z)) (decodeByteArray n)
    (fun z => 0 <= z < 256 ^ Z.of_nat n) _ _ _.
Next Obligation. intros. eexists. split; [done|]. by apply decodeByteArray_write. Qed.
Next Obligation. by intros n it a [? ->]%decodeByteArray_inv. Qed.
Next Obligation. intros n. split; [done|]. intros it. apply (safe_decode_basic n 0 it). Qed.

(** An unsigned integer of [k] bytes. *)
Program Definition c_uint (k : nat) : codec Z :=
  mkCodec (fun z => Ret (writeUint z)) (decodeUint (8 * Z.of_nat k)) (fun z => 0 <= z < 256 ^ Z.of_nat k) _ _ _.
Next Obligation. intros. eexists. split; [done|]. by apply decodeUint_write. Qed.
Next Obligation. by intros k it a [? ->]%decodeUint_inv. Qed.
Next Obligation. intros k. split; [done|]. intros it. apply (safe_decode_basic 0 (8 * Z.of_nat k) it). Qed.

Definition c_uint64 : codec Z := c_uint 8.

Program Definition c_bytes : codec bytes :=
  mkCodec (fun b => Ret (Str b)) decodeByteSlice (fun _ => True) _ _ _.
Next Obligation. intros. by eexists. Qed.
Next Obligation. by intros [b|l] a [= ->]. Qed.
Next Obligation. split; [done|]. intros it. apply (safe_decode_basic 0 0 it). Qed.

(** A [*big.Int]: nil is written as the empty string (which reads back as 0),
    negative numbers are refused. *)
Definition writeBigIntPtr (z : option Z) : outcome item :=
  match z with None => Ret (Str []) | Some i => writeBigInt i end.

Program Definition c_bigint : codec (option Z) :=
  mkCodec writeBigIntPtr (fun it => Some <$> decodeBigInt it)
    (fun z => exists i, z = Some i /\ 0 <= i) _ _ _.
Next Obligation.
  intros ? (i & -> & Hi). exists (Str (bigint_bytes i)).
  rewrite decodeBigInt_write by done. cbn. unfold writeBigInt. destruct (Z.ltb_spec i 0); [lia|done].
Qed.
Next Obligation.
  intros it a H. apply outcome_fmap_Ret in H as (i & E & ->).
  apply decodeBigInt_inv in E as [Hi ->]. split; [by exists i|]. cbn. unfold writeBigInt.
  destruct (Z.ltb_spec i 0); [lia|done].
Qed.
Next Obligation.
  split; [intros [i|]; [apply safe_writeBigInt|done]|]. intros it. apply safe_fmap, (safe_decode_basic 0 0 it).
Qed.

(** A [*big.Int] that is never nil. *)
Program Definition c_big : codec Z :=
  mkCodec writeBigInt decodeBigInt (fun i => 0 <= i) _ _ _.
Next Obligation.
  intros i Hi. cbn in Hi. exists (Str (bigint_bytes i)). rewrite decodeBigInt_write by done. unfold writeBigInt.
  destruct (Z.ltb_spec i 0); [lia|done].
Qed.
Next Obligation.
  intros it i [Hi ->]%decodeBigInt_inv. split; [done|]. unfold writeBigInt.
  destruct (Z.ltb_spec i 0); [lia|done].
Qed.
Next Obligation. split; [apply safe_writeBigInt|]. intros it. apply (safe_decode_basic 0 0 it). Qed.

Definition c_hash : codec Hash := c_array HashLength.
Definition c_address : codec Address := c_array AddressLength.

(** A pointer to a byte array with the tag [nil]: nil is the empty string
    ([makeNilPtrDecoder] with the nil kind of arrays). *)
Definition decodeNilArray (n : nat) (it : item) : outcome (option Z) :=
  match it with
  | Str [] => Ret None
  | Lst [] => Err (ErrFmt "wrong kind of empty value (got %v, want %v)")
  | _ => Some <$> decodeByteArray n it
  end.

Program Definition c_nil_array (n : nat) : codec (option Z) :=
  mkCodec (fun p => match p with None => Ret (Str []) | Some z => Ret (writeByteArray (S n) z) end) (decodeNilArray (S n))
    (fun p => match p with None => True | Some z => 0 <= z < 256 ^ Z.of_nat (S n) end) _ _ _.
Next Obligation.
  intros n [z|] Hz; [|by eexists]. exists (writeByteArray (S n) z). split; [done|].
  pose proof (decodeByteArray_write (S n) z Hz) as E. unfold writeByteArray in *. unfold decodeNilArray.
  destruct (be_fixed (S n) z) as [|b l] eqn:Eb; [|by rewrite E]. apply (f_equal length) in Eb. by rewrite length_be_fixed in Eb.
Qed.
Next Obligation.
  intros n it p. unfold decodeNilArray. destruct it as [[|b l]|[|x l]]; [by intros [= <-]|..]; [|done|done].
  intros (z & [Hz ->]%decodeByteArray_inv & ->)%outcome_fmap_Ret. done.
Qed.
Next Obligation.
  intros n. split; [by intros [z|]|]. intros it. unfold decodeNilArray. destruct it as [[|b l]|[|x l]]; try done; apply safe_fmap, (safe_decode_basic (S n) 0).
Qed.

(** *** Slices *)

Lemma mapM_enc_dec {A} (c : codec A) l : Forall (c_ok c) l ->
  exists its, mapM_outcome (enc c) l = Ret its /\ mapM_outcome (dec c) its = Ret l.
Proof.
  induction 1 as [|a l Ha _ (its & H1 & H2)]; [by exists []|].
  destruct (dec_enc c a Ha) as (it & Hi & Hd). exists (it :: its). cbn. rewrite Hi, Hd. cbn. by rewrite H1, H2.
Qed.

Lemma mapM_dec_enc {A} (c : codec A) its l : mapM_outcome (dec c) its = Ret l ->
  Forall (c_ok c) l /\ mapM_outcome (enc c) l = Ret its.
Proof.
  revert l. induction its as [|it its IH]; intros l H; cbn in H; [by simplify_eq|].
  apply outcome_bind_Ret in H as (a & [Ha Hi]%enc_dec & (l' & [Hl Hl']%IH & [= <-])%outcome_bind_Ret).
  split; [by constructor|]. cbn. rewrite Hi. cbn. by rewrite Hl'.
Qed.

Program Definition c_slice {A} (c : codec A) : codec (list A) :=
  mkCodec (fun l => its ← mapM_outcome (enc c) l; Ret (Lst its)) (decodeListSlice (dec c))
    (Forall (c_ok c)) _ _ _.
Next Obligation.
  intros A c l Hl. destruct (mapM_enc_dec c l Hl) as (its & H1 & H2). exists (Lst its). by rewrite H1.
Qed.
Next Obligation.
  intros A c [b|its] l H; [done|]. cbn in H. apply mapM_dec_enc in H as [? H]. by rewrite H.
Qed.
Next Obligation.
  intros A c. split; intros x.
  - apply safe_bind; [|done]. apply safe_mapM. intros y _. apply codec_safe.
  - apply safe_decodeListSlice, codec_safe.
Qed.

(** *** Pointers to structs *)

(** nil is written as the empty list; the decoder never produces nil. *)
Program Definition c_ptr {A} (c : codec A) : codec (option A) :=
  mkCodec (fun p => match p with None => Ret (Lst []) | Some a => enc c a end)
    (fun it => Some <$> dec c it)
    (fun p => exists a, p = Some a /\ c_ok c a) _ _ _.
Next Obligation.
  intros A c ? (a & -> & Ha). destruct (dec_enc c a Ha) as (it & H1 & H2). exists it. cbn. by rewrite H2.
Qed.
Next Obligation.
  intros A c it p H. apply outcome_fmap_Ret in H as (a & E & ->).
  apply enc_dec in E as [? ?]. split; [by exists a|done].
Qed.
Next Obligation.
  intros A c. split; [intros [a|]; [apply codec_safe|done]|]. intros it. apply safe_fmap, codec_safe.
Qed.

(** ** Structs *)

Record fields (A : Type) := mkFields {
  f_enc : A -> outcome (list item);
  f_dec : list item -> outcome (A * list item);
  f_ok : A -> Prop;
  f_dec_enc a : f_ok a -> exists l, f_enc a = Ret l /\ forall r, f_dec (l ++ r) = Ret (a, r);
  f_enc_dec l a r : f_dec l = Ret (a, r) -> f_ok a /\ exists l1, l = l1 ++ r /\ f_enc a = Ret l1;
  fields_safe : (forall a, safe (f_enc a)) /\ (forall l, safe (f_dec l))
}.
Arguments mkFields {A} _ _ _ _ _ _.
Arguments f_enc {A} _ _.
Arguments f_dec {A} _ _.
Arguments f_ok {A} _ _.
Arguments f_dec_enc {A} _ _ _.
Arguments f_enc_dec {A} _ _ _ _ _.
Arguments fields_safe {A} _.

Program Definition f_nil : fields unit :=
  mkFields (fun _ => Ret []) (fun l => Ret (tt, l)) (fun _ => True) _ _ _.
Next Obligation. intros []. by exists []. Qed.
Next Obligation. intros l [] r [= ->]. split; [done|]. by exists []. Qed.
Next Obligation. done. Qed.

Program Definition f_cons {A B} (c : codec A) (fs : fields B) : fields (A * B) :=
  mkFields
    (fun '(a, b) => it ← enc c a; l ← f_enc fs b; Ret (it :: l))
    (fun l => match l with
              | [] => Err ErrTooFewElements
              | it :: l' => a ← dec c it; '(b, r) ← f_dec fs l'; Ret ((a, b), r)
              end)
    (fun p => c_ok c p.1 /\ f_ok fs p.2) _ _ _.
Next Obligation.
  intros A B c fs [a b] [Ha Hb]. destruct (dec_enc c a Ha) as (it & H1 & H2).
  destruct (f_dec_enc fs b Hb) as (l & H3 & H4). exists (it :: l). cbn. rewrite H1. cbn. rewrite H3.
  split; [done|]. intros r. cbn. rewrite H2. cbn. by rewrite H4.
Qed.
Next Obligation.
  intros A B c fs [|it l] [a b] r H; [done|]. cbn in H.
  apply outcome_bind_Ret in H as (a' & [Ha Hi]%enc_dec & H).
  apply outcome_bind_Ret in H as ([b' r'] & [Hb (l1 & -> & Hl)]%f_enc_dec & [= -> -> ->]).
  split; [done|]. exists (it :: l1). cbn. rewrite Hi. cbn. by rewrite Hl.
Qed.
Next Obligation.
  intros A B c fs. split.
  - intros [a b]. apply safe_bind; [apply codec_safe|]. intros it _. apply safe_bind; [apply fields_safe|done].
  - intros [|it l]; [done|]. apply safe_bind; [apply codec_safe|]. intros a _. apply safe_bind; [apply fields_safe|].
    by intros [] _.
Qed.

Definition struct_dec {A} (fs : fields A) (it : item) : outcome A :=
  match it with
  | Str _ => Err ErrExpectedList
  | Lst l => '(a, r) ← f_dec fs l;
             match r with [] => Ret a | _ => Err ErrTooManyElements end
  end.

Program Definition c_struct {A} (fs : fields A) : codec A :=
  mkCodec (fun a => l ← f_enc fs a; Ret (Lst l)) (struct_dec fs) (f_ok fs) _ _ _.
Next Obligation.
  intros A fs a Ha. destruct (f_dec_enc fs a Ha) as (l & H1 & H2). exists (Lst l). rewrite H1.
  split; [done|]. cbn. rewrite <- (app_nil_r l). by rewrite H2.
Qed.
Next Obligation.
  intros A fs [b|l] a H; [done|]. cbn in H. apply outcome_bind_Ret in H as ([a' r] & Hd & H).
  destruct r; [|done]. injection H as ->. apply f_enc_dec in Hd as [? (l1 & -> & Hl)].
  rewrite Hl, app_nil_r. done.
Qed.
Next Obligation.
  intros A fs. split.
  - intros a. apply safe_bind; [apply fields_safe|done].
  - intros [b|l]; [done|]. apply safe_bind; [apply fields_safe|]. by intros [a []] _.
Qed.

(** A record in terms of the tuple of its fields. *)
Program Definition c_iso {A B} (to : B -> A) (from : A -> B)
  (H1 : forall b, from (to b) = b) (H2 : forall a, to (from a) = a) (c : codec A) : codec B :=
  mkCodec (fun b => enc c (to b)) (fun it => from <$> dec c it) (fun b => c_ok c (to b)) _ _ _.
Next Obligation.
  intros A B to from H1 H2 c b Hb. destruct (dec_enc c _ Hb) as (it & H3 & H4).
  exists it. split; [done|]. rewrite H4. cbn. by rewrite H1.
Qed.
Next Obligation.
  intros A B to from H1 H2 c it b H. apply outcome_fmap_Ret in H as (a & E & ->). rewrite H2. by apply enc_dec.
Qed.
Next Obligation.
  intros A B to from _ _ c. split; [intros b; apply codec_safe|]. intros it. apply safe_fmap, codec_safe.
Qed.

(** ** Round trips *)

Section RoundTrips.
Context {A : Type} (c : codec A).

Lemma decode_encode_val a : c_ok c a -> fits c a ->
  exists b, encode_val c a = Ret b /\ decode_val c b = Ret a.
Proof.
  intros Ha Hf. destruct (dec_enc c a Ha) as (it & H1 & H2). exists (encode it).
  unfold encode_val, decode_val. specialize (Hf it H1). rewrite H1. cbn.
  rewrite EncodeToBytes_encode, DecodeBytes_encode by done. by split; [|cbn].
Qed.

Lemma decode_val_inv b a : zlen b < 2 ^ 64 -> decode_val c b = Ret a ->
  c_ok c a /\ encode_val c a = Ret b /\ fits c a.
Proof.
  intros Hb H. unfold decode_val in H. apply outcome_bind_Ret in H as (it & Hit & [Hok He]%enc_dec).
  pose proof (DecodeBytes_canonical b it Hb Hit) as <-. split; [done|]. unfold encode_val. rewrite He. cbn.
  rewrite EncodeToBytes_encode by done. split; [done|]. intros it'. rewrite He. by intros [= <-].
Qed.

(** Distinct values have distinct encodings. *)
Lemma encode_val_inj a a' b : c_ok c a -> c_ok c a' -> fits c a -> fits c a' ->
  encode_val c a = Ret b -> encode_val c a' = Ret b -> a = a'.
Proof.
  intros Ha Ha' Hf Hf' H1 H2. destruct (decode_encode_val a Ha Hf) as (b1 & E1 & D1).
  destruct (decode_encode_val a' Ha' Hf') as (b2 & E2 & D2). congruence.
Qed.

(** A short encoding has no other preimage. *)
Lemma encode_val_inj_short a a' b : zlen b < 2 ^ 60 -> c_ok c a -> c_ok c a' ->
  encode_val c a = Ret b -> encode_val c a' = Ret b -> a = a'.
Proof.
  intros Hb Ha Ha' H1 H2.
  assert (forall x, encode_val c x = Ret b -> fits c x) as Hf.
  { intros x Hx it Hit. unfold encode_val in Hx. rewrite Hit in Hx. injection Hx as <-. by apply EncodeToBytes_small. }
  eapply encode_val_inj; eauto.
Qed.

Lemma encode_val_total a : c_ok c a -> exists b, encode_val c a = Ret b.
Proof. intros (it & H1 & _)%(dec_enc c a). unfold encode_val. rewrite H1. by eexists. Qed.

Lemma safe_encode_val a : safe (encode_val c a).
Proof. apply safe_bind; [apply codec_safe|done]. Qed.

Lemma safe_decode_val b : safe (decode_val c b).
Proof. apply safe_bind; [apply safe_DecodeBytes|]. intros it _. apply codec_safe. Qed.

Lemma decode_val_ok b a : decode_val c b = Ret a -> c_ok c a.
Proof. intros (it & _ & [? _]%enc_dec)%outcome_bind_Ret. done. Qed.

End RoundTrips.
#[export] Hint Resolve safe_encode_val safe_decode_val : safe.

#[global] Arguments c_ok : simpl never.

(** [rlpHash]: the encoder's error is dropped, and the digest is then that of
    no data; [prefixedRlpHash] writes a byte first. *)
Definition rlpHash `{Keccak} {A} (c : codec A) (a : A) : Hash :=
  match encode_val c a with Ret b => Keccak256Hash b | _ => Keccak256Hash [] end.

Definition prefixedRlpHash `{Keccak} {A} (prefix : byte) (c : codec A) (a : A) : Hash :=
  match encode_val c a with Ret b => Keccak256Hash (prefix :: b) | _ => Keccak256Hash [prefix] end.

(** The two inverse laws of a record and the tuple of its fields. *)
Ltac solve_iso :=
  intros; repeat match goal with
  | p : (_ * _)%type |- _ => destruct p
  | u : unit |- _ => destruct u
  end; try done; match goal with x : _ |- _ => by destruct x end.

(** Evaluate the size of a closed value's encoding. *)
Definition fitsb {A} (c : codec A) (a : A) : bool :=
  match enc c a with Ret it => zlen (encode it) <? 2 ^ 64 | _ => true end.

Lemma fitsb_fits {A} (c : codec A) a : fitsb c a = true -> fits c a.
Proof. unfold fitsb, fits. intros H it He. rewrite He in H. by apply Z.ltb_lt. Qed.

Ltac fits_eval := apply fitsb_fits; vm_compute; reflexivity.
