(* ===== verification/Transaction.v ===== *)
(** * Transactions ([core/types/transaction.go], [legacy_tx.go], [access_list_tx.go])

    The data of a transaction with its two encodings: as an element of an RLP
    list ([EncodeRLP], [DecodeRLP]), where a typed transaction is a string, and
    on its own ([MarshalBinary], [UnmarshalBinary], also the leaves of the
    transaction trie), and the root hash of a list of transactions. *)
From Stdlib Require Import ZArith Lia Strings.Byte.
From stdpp Require Import base list option strings.
From S2P Require Import Prelude Errors Rlp Patricia Common Merkle StackTrie Derive TrieMap Codec.
Open Scope Z_scope.

(** ** Data *)

Record LegacyTx := mkLegacyTx {
  lt_Nonce : Z;
  lt_GasPrice : option Z;
  lt_Gas : Z;
  lt_To : option Address;
  lt_Value : option Z;
  lt_Data : bytes;
  lt_V : option Z;
  lt_R : option Z;
  lt_S : option Z
}.

Record AccessTuple := mkAccessTuple {
  at_Address : Address;
  at_StorageKeys : list Hash
}.

Abbreviation AccessList := (list AccessTuple).

Record AccessListTx := mkAccessListTx {
  al_ChainID : option Z;
  al_Nonce : Z;
  al_GasPrice : option Z;
  al_Gas : Z;
  al_To : option Address;
  al_Value : option Z;
  al_Data : bytes;
  al_AccessList : AccessList;
  al_V : option Z;
  al_R : option Z;
  al_S : option Z
}.

(** The implementations of the interface [TxData]. *)
Inductive TxData : Type :=
| Legacy (d : LegacyTx)
| Access (d : AccessListTx).

Definition LegacyTxType : Z := 0.
Definition AccessListTxType : Z := 1.

Definition txType (t : TxData) : Z := match t with Legacy _ => LegacyTxType | Access _ => AccessListTxType end.

(** [StorageKeys] of an access list *)
Definition StorageKeys (al : AccessList) : nat := foldl (fun sum tuple => sum + length (at_StorageKeys tuple))%nat 0%nat al.

(** [copy]: nil big integers become fresh zeros. *)
Definition fresh (z : option Z) : option Z := Some (default 0 z).

Definition tx_copy (t : TxData) : TxData :=
  match t with
  | Legacy d => Legacy (mkLegacyTx (lt_Nonce d) (fresh (lt_GasPrice d)) (lt_Gas d) (lt_To d) (fresh (lt_Value d)) (lt_Data d)
                          (fresh (lt_V d)) (fresh (lt_R d)) (fresh (lt_S d)))
  | Access d => Access (mkAccessListTx (fresh (al_ChainID d)) (al_Nonce d) (fresh (al_GasPrice d)) (al_Gas d) (al_To d) (fresh (al_Value d)) (al_Data d)
                          (al_AccessList d) (fresh (al_V d)) (fresh (al_R d)) (fresh (al_S d)))
  end.

(** ** Encodings *)

Program Definition c_LegacyTx : codec LegacyTx :=
  c_iso (fun d => (lt_Nonce d, (lt_GasPrice d, (lt_Gas d, (lt_To d, (lt_Value d, (lt_Data d, (lt_V d, (lt_R d, (lt_S d, tt))))))))))
    (fun t => let '(n, (p, (g, (a, (v, (d, (x, (r, (s, tt))))))))) := t in mkLegacyTx n p g a v d x r s) _ _
    (c_struct (f_cons c_uint64 (f_cons c_bigint (f_cons c_uint64 (f_cons (c_nil_array 19) (f_cons c_bigint (f_cons c_bytes
      (f_cons c_bigint (f_cons c_bigint (f_cons c_bigint f_nil)))))))))).
Next Obligation. solve_iso. Qed.
Next Obligation. solve_iso. Qed.

Program Definition c_AccessTuple : codec AccessTuple :=
  c_iso (fun t => (at_Address t, (at_StorageKeys t, tt))) (fun t => let '(a, (k, tt)) := t in mkAccessTuple a k) _ _
    (c_struct (f_cons c_address (f_cons (c_slice c_hash) f_nil))).
Next Obligation. solve_iso. Qed.
Next Obligation. solve_iso. Qed.

Program Definition c_AccessListTx : codec AccessListTx :=
  c_iso (fun d => (al_ChainID d, (al_Nonce d, (al_GasPrice d, (al_Gas d, (al_To d, (al_Value d, (al_Data d, (al_AccessList d,
           (al_V d, (al_R d, (al_S d, tt))))))))))))
    (fun t => let '(c, (n, (p, (g, (a, (v, (d, (l, (x, (r, (s, tt))))))))))) := t in mkAccessListTx c n p g a v d l x r s) _ _
    (c_struct (f_cons c_bigint (f_cons c_uint64 (f_cons c_bigint (f_cons c_uint64 (f_cons (c_nil_array 19) (f_cons c_bigint (f_cons c_bytes
      (f_cons (c_slice c_AccessTuple) (f_cons c_bigint (f_cons c_bigint (f_cons c_bigint f_nil)))))))))))).
Next Obligation. solve_iso. Qed.
Next Obligation. solve_iso. Qed.

(** [encodeTyped] *)
Definition encodeTyped (t : TxData) : outcome bytes :=
  b ← match t with Legacy d => encode_val c_LegacyTx d | Access d => encode_val c_AccessListTx d end;
  Ret (byte_of_Z (txType t) :: b).

Definition decodeTyped (b : bytes) : outcome TxData :=
  match b with
  | [] => Err ErrEmptyTypedTx
  | x :: b' => if Z_of_byte x =? AccessListTxType then Access <$> decode_val c_AccessListTx b' else Err ErrTxTypeNotSupported
  end.

Definition MarshalBinary (t : TxData) : outcome bytes :=
  match t with Legacy d => encode_val c_LegacyTx d | Access _ => encodeTyped t end.

Definition UnmarshalBinary (b : bytes) : outcome TxData :=
  match b with
  | x :: _ => if 0x7f <? Z_of_byte x then Legacy <$> decode_val c_LegacyTx b else decodeTyped b
  | [] => decodeTyped b
  end.

(** [EncodeRLP] and [DecodeRLP]; no slice has as many as [2^63] bytes. *)
Definition tx_EncodeRLP (t : TxData) : outcome item :=
  match t with
  | Legacy d => enc c_LegacyTx d
  | Access _ => b ← encodeTyped t; Ret (Str b)
  end.

Definition tx_DecodeRLP (it : item) : outcome TxData :=
  match it with
  | Lst _ => Legacy <$> dec c_LegacyTx it
  | Str b => if 2 ^ 63 <=? zlen b then Err ErrValueTooLarge
             else match b with
                  | [x] => if Z_of_byte x <=? 0x7f then Err ErrExpectedList else decodeTyped b
                  | _ => decodeTyped b
                  end
  end.

(** What can be encoded; a typed transaction is a byte string of Go. *)
Definition tx_ok (t : TxData) : Prop :=
  match t with
  | Legacy d => c_ok c_LegacyTx d
  | Access d => c_ok c_AccessListTx d /\ forall it, enc c_AccessListTx d = Ret it -> zlen (encode it) < 2 ^ 63 - 1
  end.

(** *** Lemmas *)

Lemma encode_not_nil it : encode it <> [].
Proof. intros E. pose proof (proj1 (encode_length it)) as Hl. rewrite E in Hl. cbn in Hl. lia. Qed.

Lemma encode_typed d it : enc c_AccessListTx d = Ret it -> zlen (encode it) < 2 ^ 63 - 1 -> encodeTyped (Access d) = Ret (byte_of_Z 1 :: encode it).
Proof. intros E Hl. unfold encodeTyped, encode_val. rewrite E. cbn [mbind outcome_bind]. by rewrite EncodeToBytes_encode by lia. Qed.

Lemma decode_typed d b : zlen b < 2 ^ 63 -> decodeTyped b = Ret d -> exists a it, d = Access a /\ c_ok c_AccessListTx a /\ enc c_AccessListTx a = Ret it /\
  b = byte_of_Z 1 :: encode it /\ zlen (encode it) < 2 ^ 63 - 1.
Proof.
  intros Hl. unfold decodeTyped. destruct b as [|x b]; [done|]. destruct (Z.eqb_spec (Z_of_byte x) AccessListTxType) as [Ex|]; [|done].
  unfold zlen in *. cbn [length] in Hl. intros (a & Ha & ->)%outcome_fmap_Ret. apply decode_val_inv in Ha as (Hok & He & Hf); [|unfold zlen; lia].
  destruct (dec_enc c_AccessListTx a Hok) as (it & Hit & _). specialize (Hf it Hit). unfold encode_val in He. rewrite Hit in He. cbn in He.
  rewrite EncodeToBytes_encode in He by done. injection He as <-. exists a, it. split_and!; [done|done|done| |lia].
  f_equal. rewrite <- (byte_of_Z_of_byte x), Ex. done.
Qed.

Lemma enc_Access_Lst a it : enc c_AccessListTx a = Ret it -> exists l, it = Lst l.
Proof. cbn. intros (l & _ & [= <-])%outcome_bind_Ret. eauto. Qed.

Lemma enc_Legacy_Lst a it : enc c_LegacyTx a = Ret it -> exists l, it = Lst l.
Proof. cbn. intros (l & _ & [= <-])%outcome_bind_Ret. eauto. Qed.

#[local] Opaque c_AccessListTx c_LegacyTx.

Lemma safe_decodeTyped b : safe (decodeTyped b).
Proof. destruct b as [|x b]; [done|]. cbn. destruct (_ =? _); [|done]. apply safe_fmap, safe_decode_val. Qed.

Lemma safe_encodeTyped t : safe (encodeTyped t).
Proof. apply safe_bind; [|done]. destruct t; apply safe_encode_val. Qed.

Program Definition c_tx : codec TxData := mkCodec tx_EncodeRLP tx_DecodeRLP tx_ok _ _ _.
Next Obligation.
  intros [d|d] Hd.
  - cbn in Hd. destruct (dec_enc c_LegacyTx d Hd) as (it & E & D). exists it. split; [done|]. destruct (enc_Legacy_Lst d it E) as [l ->].
    cbn [tx_DecodeRLP]. by rewrite D.
  - destruct Hd as [Hok Hl]. destruct (dec_enc c_AccessListTx d Hok) as (it & E & D). specialize (Hl it E). exists (Str (byte_of_Z 1 :: encode it)).
    unfold tx_EncodeRLP. rewrite (encode_typed d it E Hl). split; [done|]. unfold tx_DecodeRLP. destruct (Z.leb_spec (2 ^ 63) (zlen (byte_of_Z 1 :: encode it))) as [Hge|_].
    { unfold zlen in *. cbn [length] in Hge. lia. }
    pose proof (encode_not_nil it) as Hn. destruct (encode it) as [|y b] eqn:Eb; [done|]. unfold decodeTyped. change (Z_of_byte (byte_of_Z 1) =? AccessListTxType) with true. cbn iota.
    unfold decode_val. rewrite <- Eb in *. rewrite DecodeBytes_encode by lia. cbn [mbind outcome_bind]. by rewrite D.
Qed.
Next Obligation.
  intros [b|l] t.
  - unfold tx_DecodeRLP. destruct (Z.leb_spec (2 ^ 63) (zlen b)) as [|Hl]; [done|]. intros Hd.
    assert (decodeTyped b = Ret t) as Hd' by (destruct b as [|x [|y b]]; [done| |done]; by destruct (_ <=? _)).
    apply decode_typed in Hd' as (a & it & -> & Hok & E & -> & Hlt); [|done]. split; [split; [done|]; intros it' E'; rewrite E in E'; by injection E' as <-|].
    unfold tx_EncodeRLP. by rewrite (encode_typed a it E Hlt).
  - cbn [tx_DecodeRLP]. intros (d & [Hok E]%enc_dec & ->)%outcome_fmap_Ret. done.
Qed.
Next Obligation.
  split.
  - intros [d|d]; [apply codec_safe|]. apply safe_bind; [apply safe_encodeTyped|done].
  - intros [b|l]; cbn [tx_DecodeRLP]; [|apply safe_fmap, codec_safe]. destruct (_ <=? _); [done|].
    destruct b as [|x [|y b]]; try apply safe_decodeTyped. destruct (_ <=? _); [done|apply safe_decodeTyped].
Qed.

(** *** The encoding on its own *)

(** The first byte of a list is above 0xbf. *)
Lemma encode_Lst_head l : zlen (encode (Lst l)) < 2 ^ 64 -> exists x b, encode (Lst l) = x :: b /\ 0xbf < Z_of_byte x.
Proof.
  intros Hl. cbn [encode] in *. unfold puthead. set (c := concat _) in *. destruct (Z.ltb_spec (zlen c) 56) as [Hs|Hs].
  - eexists _, _. split; [done|]. rewrite Z_of_byte_of_Z, Z.mod_small; unfold zlen in *; lia.
  - eexists _, _. split; [done|]. assert (0 <= zlen c < 2 ^ 64) as Hc.
    { unfold zlen in *. rewrite length_app in Hl. lia. }
    pose proof (length_putint (zlen c) Hc). rewrite Z_of_byte_of_Z, Z.mod_small; unfold zlen in *; lia.
Qed.

(** The size of a transaction is below that of any Go slice. *)
Definition tx_fits (t : TxData) : Prop :=
  match t with Legacy d => fits c_LegacyTx d | Access d => True end.

Lemma MarshalBinary_ok t : tx_ok t -> tx_fits t -> exists b, MarshalBinary t = Ret b /\ UnmarshalBinary b = Ret t /\ b <> [].
Proof.
  intros Hok Hf. destruct t as [d|d].
  - destruct (dec_enc c_LegacyTx d Hok) as (it & E & D). specialize (Hf it E). exists (encode it). cbn [MarshalBinary]. unfold encode_val. rewrite E.
    cbn [mbind outcome_bind]. rewrite EncodeToBytes_encode by done. split; [done|]. split; [|apply encode_not_nil].
    destruct (enc_Legacy_Lst d it E) as [l ->]. destruct (encode_Lst_head l Hf) as (x & b & Eb & Hx). unfold UnmarshalBinary. rewrite Eb, <- Eb.
    destruct (Z.ltb_spec 0x7f (Z_of_byte x)); [|lia]. unfold decode_val. rewrite DecodeBytes_encode by done. cbn [mbind outcome_bind]. by rewrite D.
  - destruct Hok as [Hok Hl]. destruct (dec_enc c_AccessListTx d Hok) as (it & E & D). specialize (Hl it E). exists (byte_of_Z 1 :: encode it).
    cbn [MarshalBinary]. rewrite (encode_typed d it E Hl). split; [done|]. split; [|done]. unfold UnmarshalBinary, decodeTyped.
    change (0x7f <? Z_of_byte (byte_of_Z 1)) with false. change (Z_of_byte (byte_of_Z 1) =? AccessListTxType) with true. cbn iota.
    unfold decode_val. rewrite DecodeBytes_encode by lia. cbn [mbind outcome_bind]. by rewrite D.
Qed.

Lemma UnmarshalBinary_inv b t : zlen b < 2 ^ 63 -> UnmarshalBinary b = Ret t -> tx_ok t /\ tx_fits t /\ MarshalBinary t = Ret b.
Proof.
  intros Hl Hd. assert (decodeTyped b = Ret t \/ exists d, t = Legacy d /\ decode_val c_LegacyTx b = Ret d) as [Hd'|(d & -> & Hd')].
  { unfold UnmarshalBinary in Hd. destruct b as [|x b]; [by left|]. destruct (_ <? _); [|by left]. right.
    apply outcome_fmap_Ret in Hd as (d & Hd & ->). eauto. }
  - apply decode_typed in Hd' as (a & it & -> & Hok & E & -> & Hlt); [|done]. split; [split; [done|]; intros it' E'; rewrite E in E'; by injection E' as <-|].
    split; [done|]. cbn [MarshalBinary]. by rewrite (encode_typed a it E Hlt).
  - apply decode_val_inv in Hd' as (Hok & E & Hf); [done|lia].
Qed.

(** ** The root of a list of transactions *)

(** [EncodeIndex] drops the encoder's error. *)
Definition EncodeIndex (t : TxData) : bytes :=
  match t with
  | Legacy d => match encode_val c_LegacyTx d with Ret b => b | _ => [] end
  | Access d => byte_of_Z (txType t) :: match encode_val c_AccessListTx d with Ret b => b | _ => [] end
  end.

Lemma EncodeIndex_Marshal t b : MarshalBinary t = Ret b -> EncodeIndex t = b.
Proof.
  destruct t as [d|d]; cbn [MarshalBinary EncodeIndex]; [by intros ->|]. unfold encodeTyped. intros (b' & Eb & [= <-])%outcome_bind_Ret. by rewrite Eb.
Qed.

(** Every transaction that can be encoded is decoded
    from its binary encoding, and a byte string is accepted only if it is the
    encoding of the transaction it gives, so a transaction has one encoding. *)
Theorem transaction_roundtrip (t : TxData) (b : bytes) (Ht : tx_ok t) (Hf : tx_fits t) (Hb : zlen b < 2 ^ 63) :
  (exists b', MarshalBinary t = Ret b') /\ (MarshalBinary t = Ret b <-> UnmarshalBinary b = Ret t).
Proof.
  destruct (MarshalBinary_ok t Ht Hf) as (b' & E & U & _). split; [eauto|]. split.
  - rewrite E. by intros [= <-].
  - intros Hu. by apply UnmarshalBinary_inv.
Qed.

Section Root.
Context `{Keccak}.

(** [DeriveSha] of transactions; it returns for all that can be encoded
    ([transactions_root_equiv]). *)
Definition DeriveSha (txs : list TxData) : Hash := match derive_sha (map EncodeIndex txs) with Ret h => h | _ => EmptyHash end.

Definition txs_ok (txs : list TxData) : Prop := Forall (fun t => tx_ok t /\ tx_fits t) txs /\ zlen txs < 2 ^ 63.

Lemma txs_encoded txs : txs_ok txs -> encoded (map EncodeIndex txs).
Proof.
  intros [Hok Hl]. split; [|unfold zlen in *; by rewrite length_map]. apply Forall_fmap. eapply Forall_impl; [exact Hok|]. cbn. intros t [Ht Hf].
  destruct (MarshalBinary_ok t Ht Hf) as (b & E & _ & Hb). by rewrite (EncodeIndex_Marshal t b E).
Qed.

Lemma EncodeIndex_inj txs txs' : txs_ok txs -> txs_ok txs' -> map EncodeIndex txs = map EncodeIndex txs' -> txs = txs'.
Proof.
  intros [Hok _] [Hok' _]. revert txs' Hok'. induction Hok as [|t txs [Ht Hf] _ IH]; intros [|t' txs'] Hok' E; try done.
  injection E as E1 E2. apply Forall_cons in Hok' as [[Ht' Hf'] Hok']. f_equal; [|by apply IH].
  destruct (MarshalBinary_ok t Ht Hf) as (b & E & U & _), (MarshalBinary_ok t' Ht' Hf') as (b' & E' & U' & _).
  rewrite (EncodeIndex_Marshal _ _ E), (EncodeIndex_Marshal _ _ E') in E1. congruence.
Qed.

Lemma DeriveSha_nil : DeriveSha [] = 0x56e81f171bcc55a6ff8345e692c0f86e5b48e01b996cadc001622fb5e363b421.
Proof. unfold DeriveSha. rewrite derive_sha_root by by split. vm_compute. reflexivity. Qed.

Definition txs_tree (txs : list TxData) : trie := index_tree (map EncodeIndex txs).

Lemma DeriveSha_tree txs : txs_ok txs -> derive_sha (map EncodeIndex txs) = Ret (DeriveSha txs) /\ DeriveSha txs = BytesToHash (t_hash (txs_tree txs)).
Proof. intros Hok. unfold DeriveSha. by rewrite derive_sha_root by by apply txs_encoded. Qed.

(** [DeriveSha] returns for every list of
    transactions that can be encoded, with the root hash of an ordinary trie
    into which they were put one after the other. *)
Theorem transactions_root_equiv (txs : list TxData) (Hok : txs_ok txs) :
  Ret (DeriveSha txs) = derive_sha (map EncodeIndex txs) /\ Ret (DeriveSha txs) = trie_root (index_updates (map EncodeIndex txs)) ∅.
Proof.
  destruct (DeriveSha_tree txs Hok) as [E1 _]. split; [done|]. by rewrite <- derive_sha_equiv by by apply txs_encoded.
Qed.

(** C20: the root hash of the transactions in a header
    determines the list of transactions, their order and all their fields,
    unless two nodes of the tries collide. *)
Theorem transactions_root_binds (txs txs' : list TxData) (Hok : txs_ok txs) (Hok' : txs_ok txs')
  (Hc : no_collision (txs_tree txs) (txs_tree txs')) (Hs : data_small (txs_tree txs))
  (He : forall a, a ∈ t_data (txs_tree txs) \/ a ∈ t_data (txs_tree txs') -> keccak256 a <> Hash_Bytes emptyRoot) :
  DeriveSha txs = DeriveSha txs' <-> txs = txs'.
Proof.
  split; [|by intros ->]. rewrite (proj2 (DeriveSha_tree txs Hok)), (proj2 (DeriveSha_tree txs' Hok')). intros E%BytesToHash_inj; [|apply length_t_hash..].
  apply hash_binds in E; [|by apply index_tree_wf, txs_encoded|by apply index_tree_wf, txs_encoded|done|done|done].
  apply EncodeIndex_inj; [done|done|]. by apply index_tree_inj; [apply txs_encoded..|].
Qed.

Lemma checked (f : bytes -> bool) (D : list bytes) : forallb f D = true -> forall a, a ∈ D -> f a = true.
Proof. intros Hf a Ha%list_elem_of_In. by eapply forallb_forall in Hf. Qed.

Lemma not_empty_root D : forallb (fun a => negb (Keccak256Hash a =? emptyRoot)) D = true -> forall a, a ∈ D -> keccak256 a <> Hash_Bytes emptyRoot.
Proof.
  intros Hf a Ha E. apply (checked _ D Hf) in Ha. apply negb_true_iff, Z.eqb_neq in Ha. apply Ha. unfold Keccak256Hash. rewrite E. apply BytesToHash_Bytes. by apply (bool_decide_unpack _).
Qed.

End Root.

(** ** Examples *)

Section Witnesses.
#[local] Existing Instance sample_keccak.
#[local] Transparent c_AccessListTx c_LegacyTx.

Definition plain_tx (nonce : Z) : TxData := Legacy (mkLegacyTx nonce (Some 1) 21000 (Some 5) (Some 7) [x01] (Some 27) (Some 9) (Some 9)).
Definition list_tx : TxData := Access (mkAccessListTx (Some 1) 4 (Some 20) 21000 None (Some 5) [] [mkAccessTuple 7 [1; 2]] (Some 0) (Some 9) (Some 9)).

Definition list_tx_wire : bytes := match MarshalBinary list_tx with Ret b => b | _ => [] end.

Ltac ok_fields := repeat match goal with |- c_ok (c_slice _) _ => fail 1 | |- c_ok _ _ => hnf | |- f_ok _ _ => hnf | |- _ /\ _ => split | |- True => exact I end.

Lemma plain_ok n : 0 <= n < 100 -> tx_ok (plain_tx n).
Proof.
  intros Hn. unfold tx_ok, plain_tx. ok_fields.
  all: cbn. all: try (by eexists). all: try lia.
Qed.

Lemma list_tx_ok : tx_ok list_tx.
Proof.
  split.
  - ok_fields. all: cbn. all: try (by eexists). all: try lia.
    repeat constructor; cbn; lia.
  - intros it E. match type of E with enc _ ?a = _ =>
      assert (match enc c_AccessListTx a with Ret i => zlen (encode i) <? 2 ^ 63 - 1 | _ => true end = true) as Hl by (vm_compute; reflexivity) end.
    rewrite E in Hl. by apply Z.ltb_lt.
Qed.

Lemma transaction_roundtrip_witness : (exists b', MarshalBinary list_tx = Ret b') /\ UnmarshalBinary list_tx_wire = Ret list_tx.
Proof.
  assert (zlen list_tx_wire < 2 ^ 63) as Hl by by vm_compute.
  destruct (transaction_roundtrip list_tx list_tx_wire list_tx_ok I Hl) as [Hex Heq]. split; [exact Hex|]. apply Heq. vm_compute. reflexivity.
Defined.

Definition two_txs : list TxData := [plain_tx 1; list_tx].
Definition txs_two : list TxData := [list_tx; plain_tx 1].

Lemma plain_fits : tx_fits (plain_tx 1).
Proof. fits_eval. Qed.

Lemma two_txs_ok : txs_ok two_txs.
Proof. split; [|done]. apply Forall_cons; split; [split; [by apply plain_ok|apply plain_fits]|]. apply Forall_singleton. split; [apply list_tx_ok|done]. Qed.

Lemma txs_two_ok : txs_ok txs_two.
Proof. split; [|done]. apply Forall_cons; split; [split; [apply list_tx_ok|done]|]. apply Forall_singleton. split; [by apply plain_ok|apply plain_fits]. Qed.

Lemma transactions_root_equiv_witness : Ret (DeriveSha two_txs) = trie_root (index_updates (map EncodeIndex two_txs)) ∅.
Proof. apply (transactions_root_equiv two_txs two_txs_ok). Defined.

(** The order of the transactions shows. *)
Lemma transactions_root_binds_witness : DeriveSha two_txs <> DeriveSha txs_two.
Proof.
  intros E. apply (transactions_root_binds two_txs txs_two two_txs_ok txs_two_ok) in E; [done|..].
  - intros a b Ha Hb Ek. apply (free_of_spec (t_data (txs_tree two_txs)) (t_data (txs_tree txs_two))); [by vm_compute|done|done|]. unfold Keccak256Hash. by rewrite Ek.
  - intros a. rewrite <- Z.ltb_lt. revert a. apply (checked (fun a => zlen a <? 2 ^ 64)). by vm_compute.
  - intros a Ha%elem_of_app. revert a Ha. apply not_empty_root. by vm_compute.
Defined.

End Witnesses.
