(* ===== verification/Block.v ===== *)
(** * Headers, blocks and their extra data (package [core/types])

    [Header] with its RLP form and hash, the HotStuff, Istanbul and QBFT extra
    data kept in [Extra], and [Block].  The caches of a block (hash and size)
    are not part of the state: the header behind them is never assigned after
    construction. *)
From S2P Require Import Prelude Errors Rlp Codec Common Transaction.
From Stdlib Require Import ZArith Lia Strings.Byte.
From stdpp Require Import base list option strings.
Open Scope Z_scope.

(** ** Headers *)

Record Header := mkHeader {
  hdr_ParentHash : Hash;
  hdr_UncleHash : Hash;
  hdr_Coinbase : Address;
  hdr_Root : Hash;
  hdr_TxHash : Hash;
  hdr_ReceiptHash : Hash;
  hdr_Bloom : Z;
  hdr_Difficulty : option Z;
  hdr_Number : option Z;
  hdr_GasLimit : Z;
  hdr_GasUsed : Z;
  hdr_Time : Z;
  hdr_Extra : bytes;
  hdr_MixDigest : Hash;
  hdr_Nonce : Z
}.

#[global] Instance Header_eq_dec : EqDecision Header.
Proof. solve_decision. Defined.

Definition header_tuple (h : Header) :=
  (hdr_ParentHash h, (hdr_UncleHash h, (hdr_Coinbase h, (hdr_Root h, (hdr_TxHash h,
  (hdr_ReceiptHash h, (hdr_Bloom h, (hdr_Difficulty h, (hdr_Number h, (hdr_GasLimit h,
  (hdr_GasUsed h, (hdr_Time h, (hdr_Extra h, (hdr_MixDigest h, (hdr_Nonce h, tt))))))))))))))).

Definition header_of_tuple t : Header :=
  let '(a, (b, (c, (d, (e, (f, (g, (h, (i, (j, (k, (l, (m, (n, (o, tt))))))))))))))) := t in
  mkHeader a b c d e f g h i j k l m n o.

(** The RLP form of [Header]: its fields in order. *)
Program Definition c_Header : codec Header :=
  c_iso header_tuple header_of_tuple _ _
   (c_struct (f_cons c_hash (f_cons c_hash (f_cons c_address (f_cons c_hash (f_cons c_hash
    (f_cons c_hash (f_cons (c_array 256) (f_cons c_bigint (f_cons c_bigint (f_cons c_uint64
    (f_cons c_uint64 (f_cons c_uint64 (f_cons c_bytes (f_cons c_hash (f_cons (c_array 8)
     f_nil)))))))))))))))).
Next Obligation. solve_iso. Qed.
Next Obligation. solve_iso. Qed.

Definition with_Extra (e : bytes) (h : Header) : Header :=
  mkHeader (hdr_ParentHash h) (hdr_UncleHash h) (hdr_Coinbase h) (hdr_Root h) (hdr_TxHash h)
    (hdr_ReceiptHash h) (hdr_Bloom h) (hdr_Difficulty h) (hdr_Number h) (hdr_GasLimit h)
    (hdr_GasUsed h) (hdr_Time h) e (hdr_MixDigest h) (hdr_Nonce h).

(** Nil big integers become fresh zeros. *)
Definition CopyHeader (h : Header) : Header :=
  mkHeader (hdr_ParentHash h) (hdr_UncleHash h) (hdr_Coinbase h) (hdr_Root h) (hdr_TxHash h)
    (hdr_ReceiptHash h) (hdr_Bloom h) (Some (default 0 (hdr_Difficulty h)))
    (Some (default 0 (hdr_Number h))) (hdr_GasLimit h)
    (hdr_GasUsed h) (hdr_Time h) (hdr_Extra h) (hdr_MixDigest h) (hdr_Nonce h).

(** [bits.Len] of the absolute value. *)
Definition BitLen (z : Z) : Z := if z =? 0 then 0 else Z.log2 (Z.abs z) + 1.

Definition Header_SanityCheck (h : Header) : outcome unit :=
  _ ← fail_if (match hdr_Number h with Some n => negb ((0 <=? n) && (n <? 2 ^ 64)) | None => false end)
        (ErrFmt "too large block number: bitlen %d");
  _ ← fail_if (match hdr_Difficulty h with Some d => 80 <? BitLen d | None => false end)
        (ErrFmt "too large block difficulty: bitlen %d");
  fail_if (100 * 1024 <? zlen (hdr_Extra h)) (ErrFmt "too large block extradata: size %d").

(** ** HotStuff extra data *)

Definition HotstuffDigest : Hash := 2 ^ 256 - 1.
Definition HotstuffExtraVanity : nat := 32.

Record HotstuffExtra := mkHotstuffExtra {
  ex_Validators : list Address;
  ex_EncodedQC : bytes;
  ex_Seal : bytes;
  ex_Salt : bytes
}.

Program Definition c_HotstuffExtra : codec HotstuffExtra :=
  c_iso (fun e => (ex_Validators e, (ex_EncodedQC e, (ex_Seal e, (ex_Salt e, tt)))))
    (fun t => let '(v, (q, (s, (x, tt)))) := t in mkHotstuffExtra v q s x) _ _
    (c_struct (f_cons (c_slice c_address) (f_cons c_bytes (f_cons c_bytes (f_cons c_bytes f_nil))))).
Next Obligation. solve_iso. Qed.
Next Obligation. solve_iso. Qed.

Definition ExtractHotstuffExtraPayload (extra : bytes) : outcome HotstuffExtra :=
  if (length extra <? HotstuffExtraVanity)%nat then Err ErrInvalidHotstuffHeaderExtra
  else decode_val c_HotstuffExtra (drop HotstuffExtraVanity extra).

Definition ExtractHotstuffExtra (h : Header) : outcome HotstuffExtra :=
  ExtractHotstuffExtraPayload (hdr_Extra h).

(** [append(h.Extra[:HotstuffExtraVanity], payload...)] *)
Definition replace_payload (payload : bytes) (h : Header) : Header :=
  with_Extra (take HotstuffExtraVanity (hdr_Extra h) ++ payload) h.

Definition SetEncodedQC (encodedQC : bytes) (h : Header) : outcome Header :=
  extra ← ExtractHotstuffExtra h;
  payload ← encode_val c_HotstuffExtra
    (mkHotstuffExtra (ex_Validators extra) encodedQC (ex_Seal extra) (ex_Salt extra));
  Ret (replace_payload payload h).

Definition SetSeal (seal : bytes) (h : Header) : outcome Header :=
  extra ← ExtractHotstuffExtra h;
  payload ← encode_val c_HotstuffExtra
    (mkHotstuffExtra (ex_Validators extra) (ex_EncodedQC extra) seal (ex_Salt extra));
  Ret (replace_payload payload h).

Definition HotstuffFilteredHeader (h : Header) (keepSeal : bool) : option Header :=
  let newHeader := CopyHeader h in
  match ExtractHotstuffExtra newHeader with
  | Ret extra =>
      let extra' := mkHotstuffExtra (ex_Validators extra) []
                      (if keepSeal then ex_Seal extra else []) [] in
      match encode_val c_HotstuffExtra extra' with
      | Ret payload => Some (replace_payload payload newHeader)
      | _ => None
      end
  | _ => None
  end.

(** A nil list of validators is the empty one. *)
Definition HotstuffHeaderFillWithValidators (vals : list Address) (h : Header) : outcome Header :=
  let extra := hdr_Extra h ++ replicate (HotstuffExtraVanity - length (hdr_Extra h)) x00 in
  payload ← encode_val c_HotstuffExtra (mkHotstuffExtra vals [] [] []);
  Ret (with_Extra (take HotstuffExtraVanity extra ++ payload) h).

Definition GenerateExtraWithSignature (epochStartHeight epochEndHeight : Z) (vals : list Address)
  (seal encodedQC : bytes) : outcome bytes :=
  payload ← encode_val c_HotstuffExtra (mkHotstuffExtra vals encodedQC seal []);
  Ret (replicate HotstuffExtraVanity x00 ++ payload).

(** ** Istanbul and QBFT extra data *)

Definition IstanbulDigest : Hash := 0x63746963616c2062797a616e74696e65206661756c7420746f6c6572616e6365.
Definition IstanbulExtraVanity : nat := 32.

Record IstanbulExtra := mkIstanbulExtra {
  ist_Validators : list Address;
  ist_Seal : bytes;
  ist_CommittedSeal : list bytes
}.

Program Definition c_IstanbulExtra : codec IstanbulExtra :=
  c_iso (fun e => (ist_Validators e, (ist_Seal e, (ist_CommittedSeal e, tt))))
    (fun t => let '(v, (s, (c, tt))) := t in mkIstanbulExtra v s c) _ _
    (c_struct (f_cons (c_slice c_address) (f_cons c_bytes (f_cons (c_slice c_bytes) f_nil)))).
Next Obligation. solve_iso. Qed.
Next Obligation. solve_iso. Qed.

Definition ExtractIstanbulExtra (h : Header) : outcome IstanbulExtra :=
  if (length (hdr_Extra h) <? IstanbulExtraVanity)%nat then Err ErrInvalidIstanbulHeaderExtra
  else decode_val c_IstanbulExtra (drop IstanbulExtraVanity (hdr_Extra h)).

Definition IstanbulFilteredHeader (h : Header) (keepSeal : bool) : option Header :=
  let newHeader := CopyHeader h in
  match ExtractIstanbulExtra newHeader with
  | Ret e =>
      match encode_val c_IstanbulExtra
              (mkIstanbulExtra (ist_Validators e) (if keepSeal then ist_Seal e else []) []) with
      | Ret payload => Some (with_Extra (take IstanbulExtraVanity (hdr_Extra newHeader) ++ payload) newHeader)
      | _ => None
      end
  | _ => None
  end.

Record ValidatorVote := mkValidatorVote { vv_RecipientAddress : Address; vv_VoteType : Z }.

Program Definition c_ValidatorVote : codec ValidatorVote :=
  c_iso (fun v => (vv_RecipientAddress v, (vv_VoteType v, tt)))
    (fun t => let '(a, (b, tt)) := t in mkValidatorVote a b) _ _
    (c_struct (f_cons c_address (f_cons (c_uint 1) f_nil))).
Next Obligation. solve_iso. Qed.
Next Obligation. solve_iso. Qed.

(** A pointer with the [nil] tag: nil and the empty list stand for each other,
    the empty string is refused. *)
Definition nil_ptr_dec {A} (d : item -> outcome A) (it : item) : outcome (option A) :=
  match it with
  | Lst [] => Ret None
  | Str [] => Err (ErrFmt "rlp: wrong kind of empty value")
  | _ => Some <$> d it
  end.

Lemma c_ValidatorVote_shape v it : enc c_ValidatorVote v = Ret it -> exists x l, it = Lst (x :: l).
Proof. cbn. intros [= <-]. eauto. Qed.

Program Definition c_vote_ptr : codec (option ValidatorVote) :=
  mkCodec (fun p => match p with None => Ret (Lst []) | Some v => enc c_ValidatorVote v end)
    (nil_ptr_dec (dec c_ValidatorVote))
    (fun p => match p with None => True | Some v => c_ok c_ValidatorVote v end) _ _ _.
Next Obligation.
  intros [v|] Hv; [|by exists (Lst [])]. destruct (dec_enc c_ValidatorVote v Hv) as (it & H1 & H2).
  exists it. split; [done|]. destruct (c_ValidatorVote_shape _ _ H1) as (x & l & ->).
  unfold nil_ptr_dec. by rewrite H2.
Qed.
Next Obligation.
  intros it p H. unfold nil_ptr_dec in H.
  assert ((it = Lst [] /\ p = None) \/ exists v, p = Some v /\ dec c_ValidatorVote it = Ret v) as Hc.
  { destruct it as [[|x b]|[|x l]]; try done.
    - injection H as <-. by left.
    - apply outcome_fmap_Ret in H as (v & ? & ->). eauto. }
  destruct Hc as [[-> ->]|(v & -> & Hd)]; [done|]. by apply enc_dec in Hd.
Qed.
Next Obligation.
  split; [intros [v|]; [apply codec_safe|done]|]. intros it. unfold nil_ptr_dec.
  destruct it as [[]|[]]; try done; apply safe_fmap, codec_safe.
Qed.

Record QBFTExtra := mkQBFTExtra {
  qst_VanityData : bytes;
  qst_Validators : list Address;
  qst_Vote : option ValidatorVote;
  qst_Round : Z;
  qst_CommittedSeal : list bytes
}.

Program Definition c_QBFTExtra : codec QBFTExtra :=
  c_iso (fun e => (qst_VanityData e, (qst_Validators e, (qst_Vote e, (qst_Round e, (qst_CommittedSeal e, tt))))))
    (fun t => let '(a, (b, (c, (d, (e, tt))))) := t in mkQBFTExtra a b c d e) _ _
    (c_struct (f_cons c_bytes (f_cons (c_slice c_address) (f_cons c_vote_ptr
      (f_cons (c_uint 4) (f_cons (c_slice c_bytes) f_nil)))))).
Next Obligation. solve_iso. Qed.
Next Obligation. solve_iso. Qed.

Definition ExtractQBFTExtra (h : Header) : outcome QBFTExtra := decode_val c_QBFTExtra (hdr_Extra h).

Definition QBFTFilteredHeaderWithRound (h : Header) (round : Z) : option Header :=
  let newHeader := CopyHeader h in
  match ExtractQBFTExtra newHeader with
  | Ret e =>
      match encode_val c_QBFTExtra
              (mkQBFTExtra (qst_VanityData e) (qst_Validators e) (qst_Vote e) round []) with
      | Ret payload => Some (with_Extra payload newHeader)
      | _ => None
      end
  | _ => None
  end.

Definition QBFTFilteredHeader (h : Header) : option Header := QBFTFilteredHeaderWithRound h 0.

Definition FilteredHeader (h : Header) : option Header :=
  match ExtractIstanbulExtra h with
  | Ret _ => IstanbulFilteredHeader h true
  | _ => QBFTFilteredHeader h
  end.

(** ** Hashes *)

Section Hashing.
Context `{Keccak}.

Definition Header_Hash (h : Header) : Hash :=
  let filtered :=
    if hdr_MixDigest h =? IstanbulDigest then FilteredHeader h
    else if hdr_MixDigest h =? HotstuffDigest then HotstuffFilteredHeader h false
    else None in
  match filtered with
  | Some h' => rlpHash c_Header h'
  | None => rlpHash c_Header h
  end.

Definition EmptyUncleHash : Hash := rlpHash (c_slice c_Header) [].

Definition CalcUncleHash (uncles : list Header) : Hash :=
  match uncles with [] => EmptyUncleHash | _ => rlpHash (c_slice c_Header) uncles end.

End Hashing.

Definition EmptyRootHash : Hash := 0x56e81f171bcc55a6ff8345e692c0f86e5b48e01b996cadc001622fb5e363b421.

(** ** Blocks *)

Section Blocks.
Context `{Keccak}.

Record Block := mkBlock {
  b_header : Header;
  b_transactions : list TxData;
  b_uncles : list Header
}.

(** [extblock]: the external encoding. *)
Program Definition c_Block : codec Block :=
  c_iso (fun b => (b_header b, (b_transactions b, (b_uncles b, tt))))
    (fun t => let '(h, (x, (u, tt))) := t in mkBlock h x u) _ _
    (c_struct (f_cons c_Header (f_cons (c_slice c_tx) (f_cons (c_slice c_Header) f_nil)))).
Next Obligation. solve_iso. Qed.
Next Obligation. solve_iso. Qed.

Definition NewBlockWithHeader (h : Header) : Block := mkBlock (CopyHeader h) [] [].

Definition Block_Header (b : Block) : Header := CopyHeader (b_header b).
Definition Block_Hash (b : Block) : Hash := Header_Hash (b_header b).
Definition Block_Number (b : Block) : outcome Z := deref (hdr_Number (b_header b)).
Definition Block_NumberU64 (b : Block) : outcome Z := n ← deref (hdr_Number (b_header b)); Ret (u64 n).
Definition Block_ParentHash (b : Block) : Hash := hdr_ParentHash (b_header b).
Definition Block_Coinbase (b : Block) : Address := hdr_Coinbase (b_header b).
Definition Block_Time (b : Block) : Z := hdr_Time (b_header b).
Definition Block_WithSeal (header : Header) (b : Block) : Block :=
  mkBlock header (b_transactions b) (b_uncles b).
Definition Block_WithBody (txs : list TxData) (uncles : list Header) (b : Block) : Block :=
  mkBlock (CopyHeader (b_header b)) txs (CopyHeader <$> uncles).

End Blocks.

(** ** Lemmas *)

Lemma CopyHeader_idem h : CopyHeader (CopyHeader h) = CopyHeader h.
Proof. done. Qed.

Lemma CopyHeader_replace p h : CopyHeader (replace_payload p h) = replace_payload p (CopyHeader h).
Proof. done. Qed.

Lemma replace_payload_twice p q h : (HotstuffExtraVanity <= length (hdr_Extra h))%nat ->
  replace_payload q (replace_payload p h) = replace_payload q h.
Proof.
  intros Hl. unfold replace_payload, with_Extra. cbn [hdr_Extra hdr_ParentHash hdr_UncleHash hdr_Coinbase
    hdr_Root hdr_TxHash hdr_ReceiptHash hdr_Bloom hdr_Difficulty hdr_Number hdr_GasLimit hdr_GasUsed
    hdr_Time hdr_MixDigest hdr_Nonce].
  by rewrite take_app_length' by (rewrite length_take; lia).
Qed.

Lemma ExtractHotstuffExtra_length h e : ExtractHotstuffExtra h = Ret e ->
  (HotstuffExtraVanity <= length (hdr_Extra h))%nat.
Proof.
  unfold ExtractHotstuffExtra, ExtractHotstuffExtraPayload.
  destruct (Nat.ltb_spec (length (hdr_Extra h)) HotstuffExtraVanity); done.
Qed.

(** What is encoded into the payload is extracted again. *)
Lemma Extract_replace e p h : (HotstuffExtraVanity <= length (hdr_Extra h))%nat ->
  c_ok c_HotstuffExtra e -> fits c_HotstuffExtra e -> encode_val c_HotstuffExtra e = Ret p ->
  ExtractHotstuffExtra (replace_payload p h) = Ret e.
Proof.
  intros Hl Hok Hf He. destruct (decode_encode_val _ e Hok Hf) as (p' & He' & Hd). replace p' with p in Hd by congruence.
  unfold ExtractHotstuffExtra, ExtractHotstuffExtraPayload, replace_payload. cbn [hdr_Extra with_Extra].
  rewrite length_app, length_take. destruct (Nat.ltb_spec (HotstuffExtraVanity `min` length (hdr_Extra h) + length p) HotstuffExtraVanity); [lia|].
  by rewrite drop_app_length' by (rewrite length_take; lia).
Qed.

Lemma HotstuffExtra_ok_iff e : c_ok c_HotstuffExtra e <-> Forall address_ok (ex_Validators e).
Proof. unfold c_ok. cbn. split; [by intros []|]. intros. by repeat split. Qed.

Lemma ExtractHotstuffExtra_ok h e : ExtractHotstuffExtra h = Ret e -> Forall address_ok (ex_Validators e).
Proof.
  unfold ExtractHotstuffExtra, ExtractHotstuffExtraPayload. destruct (_ <? _)%nat; [done|].
  intros (it & _ & [Hok _]%enc_dec)%outcome_bind_Ret. apply HotstuffExtra_ok_iff, Hok.
Qed.

Lemma ExtractHotstuffExtra_Copy h : ExtractHotstuffExtra (CopyHeader h) = ExtractHotstuffExtra h.
Proof. done. Qed.

(** The ranges of the fields that make a header encodable. *)
Lemma header_ok_intro h :
  c_ok c_hash (hdr_ParentHash h) -> c_ok c_hash (hdr_UncleHash h) -> c_ok c_address (hdr_Coinbase h) ->
  c_ok c_hash (hdr_Root h) -> c_ok c_hash (hdr_TxHash h) -> c_ok c_hash (hdr_ReceiptHash h) ->
  c_ok (c_array 256) (hdr_Bloom h) -> c_ok c_bigint (hdr_Difficulty h) -> c_ok c_bigint (hdr_Number h) ->
  c_ok c_uint64 (hdr_GasLimit h) -> c_ok c_uint64 (hdr_GasUsed h) -> c_ok c_uint64 (hdr_Time h) ->
  c_ok c_hash (hdr_MixDigest h) -> c_ok (c_array 8) (hdr_Nonce h) -> c_ok c_Header h.
Proof.
  intros H1 H2 H3 H4 H5 H6 H7 H8 H9 H10 H11 H12 H14 H15.
  exact (conj H1 (conj H2 (conj H3 (conj H4 (conj H5 (conj H6 (conj H7 (conj H8 (conj H9
    (conj H10 (conj H11 (conj H12 (conj I (conj H14 (conj H15 I))))))))))))))).
Qed.

Lemma c_array_ok_eval n z : bool_decide (0 <= z < 256 ^ Z.of_nat n) = true -> c_ok (c_array n) z.
Proof. apply bool_decide_eq_true_1. Qed.

Lemma c_uint_ok_eval k z : bool_decide (0 <= z < 256 ^ Z.of_nat k) = true -> c_ok (c_uint k) z.
Proof. apply bool_decide_eq_true_1. Qed.

(** Evaluate the ranges of a closed header. *)
Ltac header_ok_eval :=
  apply header_ok_intro;
  first [ apply c_array_ok_eval; vm_compute; reflexivity
        | apply c_uint_ok_eval; vm_compute; reflexivity
        | eexists; split; [vm_compute; reflexivity|apply Z.leb_le; vm_compute; reflexivity] ].

Section HashLemmas.
Context `{Keccak}.

(** The hash of a HotStuff header with decodable extra data is that of the
    header with quorum certificate, seal and salt removed. *)
Lemma Header_Hash_hotstuff h e p : hdr_MixDigest h = HotstuffDigest ->
  ExtractHotstuffExtra h = Ret e ->
  encode_val c_HotstuffExtra (mkHotstuffExtra (ex_Validators e) [] [] []) = Ret p ->
  Header_Hash h = rlpHash c_Header (replace_payload p (CopyHeader h)).
Proof.
  intros Hm He Hp. unfold Header_Hash. rewrite Hm.
  change (HotstuffDigest =? IstanbulDigest) with false. change (HotstuffDigest =? HotstuffDigest) with true. cbn iota.
  unfold HotstuffFilteredHeader. rewrite ExtractHotstuffExtra_Copy, He. by rewrite Hp.
Qed.

Lemma clean_extra_encodes e : Forall address_ok (ex_Validators e) ->
  exists p, encode_val c_HotstuffExtra (mkHotstuffExtra (ex_Validators e) [] [] []) = Ret p.
Proof. intros. apply encode_val_total. by apply HotstuffExtra_ok_iff. Qed.

(** Replacing anything but the validators leaves the hash alone. *)
Lemma Header_Hash_replace h e e' p : hdr_MixDigest h = HotstuffDigest ->
  ExtractHotstuffExtra h = Ret e -> ex_Validators e' = ex_Validators e ->
  fits c_HotstuffExtra e' -> encode_val c_HotstuffExtra e' = Ret p ->
  Header_Hash (replace_payload p h) = Header_Hash h.
Proof.
  intros Hm He Hv Hf Hp. pose proof (ExtractHotstuffExtra_ok _ _ He) as Hok.
  pose proof (ExtractHotstuffExtra_length _ _ He) as Hl.
  destruct (clean_extra_encodes e Hok) as [q Hq].
  rewrite (Header_Hash_hotstuff h e q) by done.
  rewrite (Header_Hash_hotstuff (replace_payload p h) e' q); [|done| |by rewrite Hv].
  - by rewrite CopyHeader_replace, replace_payload_twice.
  - apply Extract_replace; [done| |done|done]. apply HotstuffExtra_ok_iff. by rewrite Hv.
Qed.

End HashLemmas.

(** ** Properties *)

Section Properties.
Context `{Keccak}.

(** Writing a quorum certificate or a proposer seal into a HotStuff
    header changes neither its hash nor the rest of its extra data, and what
    was written can be read back. *)
Theorem sealing_preserves_hash h e q s : hdr_MixDigest h = HotstuffDigest ->
  ExtractHotstuffExtra h = Ret e ->
  fits c_HotstuffExtra (mkHotstuffExtra (ex_Validators e) q (ex_Seal e) (ex_Salt e)) ->
  fits c_HotstuffExtra (mkHotstuffExtra (ex_Validators e) (ex_EncodedQC e) s (ex_Salt e)) ->
  exists h1 h2, SetEncodedQC q h = Ret h1 /\ SetSeal s h = Ret h2 /\
    Header_Hash h1 = Header_Hash h /\ Header_Hash h2 = Header_Hash h /\
    ExtractHotstuffExtra h1 = Ret (mkHotstuffExtra (ex_Validators e) q (ex_Seal e) (ex_Salt e)) /\
    ExtractHotstuffExtra h2 = Ret (mkHotstuffExtra (ex_Validators e) (ex_EncodedQC e) s (ex_Salt e)).
Proof.
  intros Hm He Hf1 Hf2. pose proof (ExtractHotstuffExtra_ok _ _ He) as Hok.
  pose proof (ExtractHotstuffExtra_length _ _ He) as Hl. unfold SetEncodedQC, SetSeal. rewrite He. cbn [mbind outcome_bind].
  set (e1 := mkHotstuffExtra _ q _ _) in *. set (e2 := mkHotstuffExtra _ _ s _) in *.
  assert (c_ok c_HotstuffExtra e1 /\ c_ok c_HotstuffExtra e2) as [Ho1 Ho2] by (split; by apply HotstuffExtra_ok_iff).
  destruct (encode_val_total _ e1 Ho1) as [p1 Hp1], (encode_val_total _ e2 Ho2) as [p2 Hp2].
  rewrite Hp1, Hp2. cbn [mbind outcome_bind]. do 2 eexists. split_and!; [done|done| | | |].
  - by apply (Header_Hash_replace h e e1 p1).
  - by apply (Header_Hash_replace h e e2 p2).
  - by apply Extract_replace.
  - by apply Extract_replace.
Qed.

(** The hash of a HotStuff header binds everything else: two
    well-formed headers whose digests do not collide and whose hashes are
    equal differ at most in the quorum certificate, the seal and the salt. *)
Theorem hash_binds_header h h' e e' p p' :
  hdr_MixDigest h = HotstuffDigest -> hdr_MixDigest h' = HotstuffDigest ->
  ExtractHotstuffExtra h = Ret e -> ExtractHotstuffExtra h' = Ret e' ->
  encode_val c_HotstuffExtra (mkHotstuffExtra (ex_Validators e) [] [] []) = Ret p ->
  encode_val c_HotstuffExtra (mkHotstuffExtra (ex_Validators e') [] [] []) = Ret p' ->
  let f := replace_payload p (CopyHeader h) in let f' := replace_payload p' (CopyHeader h') in
  c_ok c_Header f -> c_ok c_Header f' -> fits c_Header f -> fits c_Header f' ->
  (forall b b', encode_val c_Header f = Ret b -> encode_val c_Header f' = Ret b' ->
     keccak256 b = keccak256 b' -> b = b') ->
  Header_Hash h = Header_Hash h' -> f = f'.
Proof.
  intros Hm Hm' He He' Hp Hp' f f' Hok Hok' Hf Hf' Hcoll Hh.
  rewrite (Header_Hash_hotstuff h e p), (Header_Hash_hotstuff h' e' p') in Hh by done.
  destruct (encode_val_total _ f Hok) as [b Hb], (encode_val_total _ f' Hok') as [b' Hb'].
  unfold rlpHash in Hh. fold f f' in Hh. rewrite Hb, Hb' in Hh.
  apply (f_equal Hash_Bytes) in Hh. rewrite !Keccak256Hash_digest in Hh.
  apply (Hcoll b b') in Hh; [|done|done]. subst b'. by eapply (encode_val_inj c_Header).
Qed.

End Properties.

(** Filling a header with validators keeps (or zero-pads) its
    vanity, and the validators can be extracted again, with no certificate,
    seal or salt. *)
Theorem FillWithValidators_roundtrip vals h : Forall address_ok vals ->
  fits c_HotstuffExtra (mkHotstuffExtra vals [] [] []) ->
  exists h', HotstuffHeaderFillWithValidators vals h = Ret h' /\
    ExtractHotstuffExtra h' = Ret (mkHotstuffExtra vals [] [] []) /\
    take (length (hdr_Extra h) `min` HotstuffExtraVanity) (hdr_Extra h')
      = take (length (hdr_Extra h) `min` HotstuffExtraVanity) (hdr_Extra h).
Proof.
  intros Hv Hf. unfold HotstuffHeaderFillWithValidators.
  destruct (encode_val_total c_HotstuffExtra (mkHotstuffExtra vals [] [] [])) as [p Hp]; [by apply HotstuffExtra_ok_iff|].
  rewrite Hp. eexists. split; [done|].
  set (ex := hdr_Extra h ++ replicate (HotstuffExtraVanity - length (hdr_Extra h)) x00).
  assert (HotstuffExtraVanity <= length ex)%nat as Hl by (unfold ex; rewrite length_app, length_replicate; lia).
  split.
  - apply (Extract_replace _ p (with_Extra ex h)); [done| |done|done]. by apply HotstuffExtra_ok_iff.
  - cbn [hdr_Extra with_Extra]. rewrite take_app_le by (rewrite length_take; lia).
    rewrite take_take. unfold ex. rewrite take_app_le by lia. f_equal. lia.
Qed.

(** ** Witnesses *)

Section Witnesses.
#[local] Existing Instance sample_keccak.

(** A header at height 5 with four validators in its extra data. *)
Definition sample_header : Header :=
  let h := mkHeader 77 0 1 0 0 0 0 (Some 1) (Some 5) 8000000 0 1000 [] HotstuffDigest 0 in
  match HotstuffHeaderFillWithValidators [1; 2; 3; 4] h with Ret h' => h' | _ => h end.

Definition sealed_header : Header :=
  match SetSeal [x01; x02] sample_header with Ret h' => h' | _ => sample_header end.

Lemma sealing_preserves_hash_witness :
  exists h1 h2, SetEncodedQC [x05] sample_header = Ret h1 /\ SetSeal [x01; x02] sample_header = Ret h2 /\
    Header_Hash h1 = Header_Hash sample_header /\ Header_Hash h2 = Header_Hash sample_header.
Proof.
  destruct (sealing_preserves_hash sample_header (mkHotstuffExtra [1; 2; 3; 4] [] [] []) [x05] [x01; x02])
    as (h1 & h2 & ? & ? & ? & ? & _).
  - vm_compute. reflexivity.
  - vm_compute. reflexivity.
  - fits_eval.
  - fits_eval.
  - exists h1, h2. auto.
Defined.

Definition sample_payload : bytes :=
  match encode_val c_HotstuffExtra (mkHotstuffExtra [1; 2; 3; 4] [] [] []) with Ret p => p | _ => [] end.

Lemma hash_binds_header_witness :
  replace_payload sample_payload (CopyHeader sample_header)
  = replace_payload sample_payload (CopyHeader sealed_header).
Proof.
  apply (hash_binds_header sample_header sealed_header (mkHotstuffExtra [1; 2; 3; 4] [] [] [])
    (mkHotstuffExtra [1; 2; 3; 4] [] [x01; x02] [])).
  1-6: vm_compute; reflexivity.
  1-2: header_ok_eval.
  1-2: fits_eval.
  - intros b b' Hb Hb' _. enough (Ret b = Ret b') by congruence. rewrite <- Hb, <- Hb'. vm_compute. reflexivity.
  - vm_compute. reflexivity.
Defined.

Lemma FillWithValidators_roundtrip_witness :
  exists h', HotstuffHeaderFillWithValidators [1; 2; 3; 4] sample_header = Ret h' /\
    ExtractHotstuffExtra h' = Ret (mkHotstuffExtra [1; 2; 3; 4] [] [] []).
Proof.
  destruct (FillWithValidators_roundtrip [1; 2; 3; 4] sample_header) as (h' & ? & ? & _).
  - decide_eval.
  - fits_eval.
  - by exists h'.
Defined.

End Witnesses.
