(* ===== verification/Types.v ===== *)
(** * Messages, certificates and votes (file [consensus/hotstuff/types.go])

    The data the replicas exchange and persist, with its RLP form, ordering
    and hashes.  Pointers to views are optional; the two big integers of a view
    are always set where the code builds one.  Byte slices do not distinguish
    nil from empty: the decoder never produces a nil slice.  [Message] and
    [ProposedBlock] memoise their hash in a field; nothing the hash covers is
    assigned after it is computed (replacing a node's block by its sealed form
    keeps the block hash, theorem [sealing_preserves_hash] of [Block]), so the
    memo is left out and the hash is a function of the other fields. *)
From S2P Require Import Prelude Errors Rlp Codec Common Block.
From Stdlib Require Import ZArith Lia Strings.Byte.
From stdpp Require Import base list option strings.
Open Scope Z_scope.

(** ** Message types and states *)

Definition MsgType := Z.
Definition MsgTypeUnknown : MsgType := 0.
Definition MsgTypeNewView : MsgType := 1.
Definition MsgTypePrepare : MsgType := 2.
Definition MsgTypePrepareVote : MsgType := 3.
Definition MsgTypePreCommit : MsgType := 4.
Definition MsgTypePreCommitVote : MsgType := 5.
Definition MsgTypeCommit : MsgType := 6.
Definition MsgTypeCommitVote : MsgType := 7.
Definition MsgTypeDecide : MsgType := 8.

Definition MsgType_String (m : MsgType) : string :=
  if m =? MsgTypeNewView then "NewView"
  else if m =? MsgTypePrepare then "Prepare"
  else if m =? MsgTypePrepareVote then "PrepareVote"
  else if m =? MsgTypePreCommit then "PreCommit"
  else if m =? MsgTypePreCommitVote then "PreCommitVote"
  else if m =? MsgTypeCommit then "Commit"
  else if m =? MsgTypeCommitVote then "CommitVote"
  else if m =? MsgTypeDecide then "Decide"
  else "Unknown".

Definition State := Z.
Definition StateAcceptRequest : State := 1.
Definition StateHighQC : State := 2.
Definition StatePrepared : State := 3.
Definition StatePreCommitted : State := 4.
Definition StateCommitted : State := 5.

Definition State_Cmp (s y : State) : Z :=
  if s <? y then -1 else if y <? s then 1 else 0.

Definition State_String (s : State) : string :=
  if s =? StateAcceptRequest then "StateAcceptRequest"
  else if s =? StateHighQC then "StateHighQC"
  else if s =? StatePrepared then "StatePrepared"
  else if s =? StatePreCommitted then "StatePreCommitted"
  else if s =? StateCommitted then "Committed"
  else "Unknown".

(** ** Views *)

Record View := mkView { v_Round : Z; v_Height : Z }.

#[global] Instance View_eq_dec : EqDecision View.
Proof. solve_decision. Defined.

Definition View_HeightU64 (v : View) : Z := u64 (v_Height v).
Definition View_RoundU64 (v : View) : Z := u64 (v_Round v).

Program Definition c_View : codec View :=
  c_iso (fun v => (v_Round v, (v_Height v, tt))) (fun t => let '(r, (h, tt)) := t in mkView r h) _ _
    (c_struct (f_cons c_big (f_cons c_big f_nil))).
Next Obligation. solve_iso. Qed.
Next Obligation. solve_iso. Qed.

Definition View_Cmp (v y : View) : Z :=
  if negb (cmp_Z (v_Height v) (v_Height y) =? 0) then cmp_Z (v_Height v) (v_Height y)
  else if negb (cmp_Z (v_Round v) (v_Round y) =? 0) then cmp_Z (v_Round v) (v_Round y)
  else 0.

Definition View_Sub (v y : View) : Z * Z :=
  (i64 (v_Height v - v_Height y), i64 (v_Round v - v_Round y)).

Definition view_ok (v : View) : Prop := 0 <= v_Round v /\ 0 <= v_Height v.

(** ** Quorum certificates, votes, messages *)

Record QuorumCert := mkQC {
  qc_View : option View;
  qc_Code : MsgType;
  qc_ProposedBlock : Hash;
  qc_Proposer : Address;
  qc_BLSSignature : bytes
}.

#[global] Instance QuorumCert_eq_dec : EqDecision QuorumCert.
Proof. solve_decision. Defined.

Program Definition c_QuorumCert : codec QuorumCert :=
  c_iso (fun q => (qc_View q, (qc_Code q, (qc_ProposedBlock q, (qc_Proposer q, (qc_BLSSignature q, tt))))))
    (fun t => let '(v, (c, (b, (p, (s, tt))))) := t in mkQC v c b p s) _ _
    (c_struct (f_cons (c_ptr c_View) (f_cons c_uint64 (f_cons c_hash (f_cons c_address (f_cons c_bytes f_nil)))))).
Next Obligation. solve_iso. Qed.
Next Obligation. solve_iso. Qed.

Definition qc_Height (qc : QuorumCert) : Z := match qc_View qc with None => 0 | Some v => v_Height v end.
Definition qc_HeightU64 (qc : QuorumCert) : Z := u64 (qc_Height qc).
Definition qc_Round (qc : QuorumCert) : Z := match qc_View qc with None => 0 | Some v => v_Round v end.
Definition qc_RoundU64 (qc : QuorumCert) : Z := u64 (qc_Round qc).

(** A copy by encoding and decoding; nil when either fails. *)
Definition qc_Copy (qc : QuorumCert) : option QuorumCert :=
  match (b ← encode_val c_QuorumCert qc; decode_val c_QuorumCert b) with
  | Ret qc' => Some qc'
  | _ => None
  end.

Record Vote := mkVote {
  vote_Code : MsgType;
  vote_View : option View;
  vote_ProposedBlock : Hash;
  vote_BLSSignature : bytes
}.

#[global] Instance Vote_eq_dec : EqDecision Vote.
Proof. solve_decision. Defined.

Program Definition c_Vote : codec Vote :=
  c_iso (fun v => (vote_Code v, (vote_View v, (vote_ProposedBlock v, (vote_BLSSignature v, tt)))))
    (fun t => let '(c, (v, (b, (s, tt)))) := t in mkVote c v b s) _ _
    (c_struct (f_cons c_uint64 (f_cons (c_ptr c_View) (f_cons c_hash (f_cons c_bytes f_nil))))).
Next Obligation. solve_iso. Qed.
Next Obligation. solve_iso. Qed.

Definition Vote_Unsigned (b : Vote) : Vote := mkVote (vote_Code b) (vote_View b) (vote_ProposedBlock b) [].

Record Message := mkMessage {
  m_Address : Address;
  m_Code : MsgType;
  m_View : option View;
  m_Msg : bytes;
  m_Signature : bytes
}.

#[global] Instance Message_eq_dec : EqDecision Message.
Proof. solve_decision. Defined.

Program Definition c_Message : codec Message :=
  c_iso (fun m => (m_Code m, (m_View m, (m_Msg m, (m_Address m, (m_Signature m, tt))))))
    (fun t => let '(c, (v, (b, (a, (s, tt))))) := t in mkMessage a c v b s) _ _
    (c_struct (f_cons c_uint64 (f_cons (c_ptr c_View) (f_cons c_bytes (f_cons c_address (f_cons c_bytes f_nil)))))).
Next Obligation. solve_iso. Qed.
Next Obligation. solve_iso. Qed.

Definition NewCleanMessage (view : option View) (code : MsgType) (payload : bytes) : Message :=
  mkMessage EmptyAddress code view payload [].

Definition Message_Payload (m : Message) : outcome bytes := encode_val c_Message m.

(** The message the signature covers: neither address nor signature. *)
Definition unsigned (m : Message) : Message := NewCleanMessage (m_View m) (m_Code m) (m_Msg m).

Definition Message_PayloadNoSig (m : Message) : outcome bytes := encode_val c_Message (unsigned m).

Definition Message_Decode {A} (c : codec A) (m : Message) : outcome A := decode_val c (m_Msg m).

(** The copy keeps code, view and payload; it panics without a view. *)
Definition Message_Copy (m : Message) : outcome Message :=
  v ← deref (m_View m);
  Ret (mkMessage EmptyAddress (m_Code m) (Some (mkView (View_RoundU64 v) (View_HeightU64 v))) (m_Msg m) []).

Section Hashes.
Context `{Keccak}.

Definition Message_Hash (m : Message) : outcome Hash :=
  data ← Message_PayloadNoSig m; Ret (Keccak256Hash data).

(** [FromPayload] on a fresh message; [validateFn] is nil or recovers the
    signer of a hash. *)
Definition FromPayload (src : Address) (payload : bytes)
  (validateFn : option (Hash -> bytes -> outcome Address)) : outcome Message :=
  m ← decode_val c_Message payload;
  _ ← fail_if (match m_View m with None => true | Some _ => false end) ErrInvalidMessage;
  h ← Message_Hash m;
  _ ← (match validateFn with
       | None => Ret tt
       | Some validate =>
           signer ← validate h (m_Signature m);
           fail_if (negb (bool_decide (Address_Bytes signer = Address_Bytes src))) ErrInvalidSigner
       end);
  Ret (mkMessage src (m_Code m) (m_View m) (m_Msg m) (m_Signature m)).

(** The digest a certificate stands for: that of the clean message of its
    fields, or the empty hash if they cannot be encoded. *)
Definition qc_SealHash (qc : QuorumCert) : Hash :=
  match Message_PayloadNoSig (NewCleanMessage (qc_View qc) (qc_Code qc) (Hash_Bytes (qc_ProposedBlock qc))) with
  | Ret data => Keccak256Hash data
  | _ => EmptyHash
  end.

End Hashes.

(** ** Proposals *)

Section Proposals.
Context `{Keccak}.

Record ProposedBlock := NewProposedBlock {
  pb_Parent : Hash;
  pb_Block : option Block
}.

Program Definition c_ProposedBlock : codec ProposedBlock :=
  c_iso (fun n => (pb_Parent n, (pb_Block n, tt))) (fun t => let '(p, (b, tt)) := t in NewProposedBlock p b) _ _
    (c_struct (f_cons c_hash (f_cons (c_ptr c_Block) f_nil))).
Next Obligation. solve_iso. Qed.
Next Obligation. solve_iso. Qed.

(** The hash of the parent and the block hash; a node without block panics. *)
Definition ProposedBlock_Hash (n : ProposedBlock) : outcome Hash :=
  b ← deref (pb_Block n);
  Ret (rlpHash (c_slice c_hash) [pb_Parent n; Block_Hash b]).

Record PackagedQC := NewPackagedQC {
  pq_ProposedBlock : option ProposedBlock;
  pq_QC : option QuorumCert
}.

Program Definition c_PackagedQC : codec PackagedQC :=
  c_iso (fun p => (pq_ProposedBlock p, (pq_QC p, tt))) (fun t => let '(n, (q, tt)) := t in NewPackagedQC n q) _ _
    (c_struct (f_cons (c_ptr c_ProposedBlock) (f_cons (c_ptr c_QuorumCert) f_nil))).
Next Obligation. solve_iso. Qed.
Next Obligation. solve_iso. Qed.

Record Diploma := mkDiploma {
  dip_CommitQC : option QuorumCert;
  dip_BlockHash : Hash
}.

Program Definition c_Diploma : codec Diploma :=
  c_iso (fun d => (dip_CommitQC d, (dip_BlockHash d, tt))) (fun t => let '(q, (h, tt)) := t in mkDiploma q h) _ _
    (c_struct (f_cons (c_ptr c_QuorumCert) (f_cons c_hash f_nil))).
Next Obligation. solve_iso. Qed.
Next Obligation. solve_iso. Qed.

Record Request := mkRequest { req_Block : option Block }.

End Proposals.

(** ** The order of views *)

Definition view_lt (v y : View) : Prop :=
  v_Height v < v_Height y \/ (v_Height v = v_Height y /\ v_Round v < v_Round y).

Lemma View_Cmp_cases v y :
  (View_Cmp v y = -1 /\ view_lt v y) \/ (View_Cmp v y = 0 /\ v = y) \/ (View_Cmp v y = 1 /\ view_lt y v).
Proof.
  unfold View_Cmp, view_lt, cmp_Z. destruct v as [r h], y as [r' h']. cbn [v_Round v_Height].
  destruct (Z.compare_spec h h') as [->|?|?]; cbn; [|left; split; [done|by left]|right; right; split; [done|by left]].
  destruct (Z.compare_spec r r') as [->|?|?]; cbn; [right; left; done|left|right; right]; (split; [done|by right]).
Qed.

Lemma view_lt_irrefl v : ~ view_lt v v.
Proof. unfold view_lt. lia. Qed.

Lemma view_lt_trans u v w : view_lt u v -> view_lt v w -> view_lt u w.
Proof. unfold view_lt. lia. Qed.

Lemma view_lt_asym v w : view_lt v w -> ~ view_lt w v.
Proof. unfold view_lt. lia. Qed.

Lemma View_Cmp_eq v y : View_Cmp v y = 0 <-> v = y.
Proof.
  destruct (View_Cmp_cases v y) as [[-> Hlt]|[[-> ->]|[-> Hlt]]]; split; try done;
    intros ->; by apply view_lt_irrefl in Hlt.
Qed.

Lemma View_Cmp_neg v y : View_Cmp v y < 0 <-> view_lt v y.
Proof.
  destruct (View_Cmp_cases v y) as [[-> Hlt]|[[-> ->]|[-> Hlt]]]; split; try done; try lia.
  - intros Hl. by apply view_lt_irrefl in Hl.
  - intros Hl. by apply view_lt_asym in Hl.
Qed.

Lemma View_Cmp_pos v y : 0 < View_Cmp v y <-> view_lt y v.
Proof.
  destruct (View_Cmp_cases v y) as [[-> Hlt]|[[-> ->]|[-> Hlt]]]; split; try done; try lia.
  - intros Hl. by apply view_lt_asym in Hl.
  - intros Hl. by apply view_lt_irrefl in Hl.
Qed.

Lemma View_Cmp_opp u v : View_Cmp v u = - View_Cmp u v.
Proof.
  unfold View_Cmp, cmp_Z. rewrite (Z.compare_antisym (v_Height u)), (Z.compare_antisym (v_Round u)).
  by destruct (v_Height u ?= v_Height v), (v_Round u ?= v_Round v).
Qed.

Lemma view_ok_codec v : c_ok c_View v <-> view_ok v.
Proof. unfold view_ok. split; [intros (H1 & H2 & _); done|intros []; done]. Qed.

(** ** Encodings of views and certificates *)

Lemma writeBigInt_nonneg z : 0 <= z -> writeBigInt z = Ret (Str (bigint_bytes z)).
Proof. intros. unfold writeBigInt. destruct (Z.ltb_spec z 0); [lia|done]. Qed.

Lemma enc_View r k : 0 <= r -> 0 <= k -> enc c_View (mkView r k) = Ret (Lst [Str (bigint_bytes r); Str (bigint_bytes k)]).
Proof.
  intros Hr Hk. change (enc c_View (mkView r k)) with
    (l ← (it ← writeBigInt r; l ← (it ← writeBigInt k; l ← Ret []; Ret (it :: l)); Ret (it :: l)); Ret (Lst l)).
  by rewrite !writeBigInt_nonneg.
Qed.

Lemma encode_qc_total r k code h p sig : 0 <= r -> 0 <= k ->
  exists b, encode_val c_QuorumCert (mkQC (Some (mkView r k)) code h p sig) = Ret b.
Proof.
  intros Hr Hk. unfold encode_val. change (enc c_QuorumCert (mkQC (Some (mkView r k)) code h p sig)) with
    (l ← (it ← enc c_View (mkView r k);
          Ret [it; writeUint code; writeByteArray 32 h; writeByteArray 20 p; Str sig]); Ret (Lst l)).
  rewrite enc_View by done. cbn [mbind outcome_bind]. eauto.
Qed.

(** ** Well-formed values *)

Definition qc_ok (q : QuorumCert) : Prop :=
  (exists v, qc_View q = Some v /\ view_ok v) /\ 0 <= qc_Code q < 2 ^ 64 /\
  hash_ok (qc_ProposedBlock q) /\ address_ok (qc_Proposer q).

Lemma qc_ok_codec q : c_ok c_QuorumCert q <-> qc_ok q.
Proof.
  unfold qc_ok. split.
  - intros ((v & Hv & Hok) & H2 & H3 & H4 & _). split; [|exact (conj H2 (conj H3 H4))].
    exists v. split; [done|]. by apply view_ok_codec.
  - intros ((v & Hv & Hok) & H2 & H3 & H4). split; [|done]. exists v. split; [done|]. by apply view_ok_codec.
Qed.

Definition vote_ok (v : Vote) : Prop :=
  0 <= vote_Code v < 2 ^ 64 /\ (exists w, vote_View v = Some w /\ view_ok w) /\ hash_ok (vote_ProposedBlock v).

Lemma vote_ok_codec v : c_ok c_Vote v <-> vote_ok v.
Proof.
  unfold vote_ok. split.
  - intros (H2 & (w & Hv & Hok) & H3 & _). split; [exact H2|]. split; [|exact H3].
    exists w. split; [done|]. by apply view_ok_codec.
  - intros (H2 & (w & Hv & Hok) & H3). split; [done|]. split; [|done]. exists w. split; [done|]. by apply view_ok_codec.
Qed.

Definition message_ok (m : Message) : Prop :=
  0 <= m_Code m < 2 ^ 64 /\ (exists w, m_View m = Some w /\ view_ok w) /\ address_ok (m_Address m).

Lemma message_ok_codec m : c_ok c_Message m <-> message_ok m.
Proof.
  unfold message_ok. split.
  - intros (H2 & (w & Hv & Hok) & _ & H3 & _). split; [exact H2|]. split; [|exact H3].
    exists w. split; [done|]. by apply view_ok_codec.
  - intros (H2 & (w & Hv & Hok) & H3). split; [done|]. split; [|done]. exists w. split; [done|]. by apply view_ok_codec.
Qed.

(** What encodes has a view with non-negative numbers. *)
Lemma encoded_message_view m v p : Message_Payload m = Ret p -> m_View m = Some v -> view_ok v.
Proof.
  intros Hp Hv. unfold Message_Payload, encode_val in Hp. apply outcome_bind_Ret in Hp as (it & Hit & _).
  destruct m as [a c vw b s]. cbn in Hv. subst vw. cbn in Hit. unfold writeBigInt in Hit. unfold view_ok.
  destruct (Z.ltb_spec (v_Round v) 0); [done|]. destruct (Z.ltb_spec (v_Height v) 0); [done|]. done.
Qed.

Lemma Address_Bytes_inj a b : address_ok a -> address_ok b -> Address_Bytes a = Address_Bytes b -> a = b.
Proof.
  intros Ha Hb E. apply (f_equal BytesToAddress) in E. by rewrite !BytesToAddress_Bytes in E.
Qed.

Section MessageProperties.
Context `{Keccak}.

Lemma Message_Hash_ok m h : Message_Hash m = Ret h -> hash_ok h.
Proof. unfold Message_Hash. intros (d & _ & [= <-])%outcome_bind_Ret. apply Keccak256Hash_ok. Qed.

(** What an accepted payload has been checked for. *)
Lemma FromPayload_inv src payload validate m : zlen payload < 2 ^ 64 ->
  FromPayload src payload (Some validate) = Ret m ->
  exists m0 h a, decode_val c_Message payload = Ret m0 /\ message_ok m0 /\
    m = mkMessage src (m_Code m0) (m_View m0) (m_Msg m0) (m_Signature m0) /\
    Message_Hash m = Ret h /\ validate h (m_Signature m) = Ret a /\ Address_Bytes a = Address_Bytes src.
Proof.
  intros Hlen HF. unfold FromPayload in HF. apply outcome_bind_Ret in HF as (m0 & Hd & HF).
  apply outcome_bind_Ret in HF as ([] & _ & HF). apply outcome_bind_Ret in HF as (h & Hh & HF).
  apply outcome_bind_Ret in HF as ([] & Hv & [= <-]).
  apply outcome_bind_Ret in Hv as (a & Ha & Hf).
  exists m0, h, a. destruct (decode_val_inv c_Message _ _ Hlen Hd) as [Hok _].
  apply message_ok_codec in Hok. split_and!; try done.
  unfold fail_if in Hf. by case_bool_decide.
Qed.

(** The comparison of views is a total order, by height first and
    round second, and the signs of the int64 differences that [checkView] and
    [verifyQC] test agree with it as long as the differences fit in an int64. *)
Theorem view_total_order u v w :
  (View_Cmp u v = 0 <-> u = v) /\ View_Cmp v u = - View_Cmp u v /\
  (View_Cmp u v < 0 -> View_Cmp v w < 0 -> View_Cmp u w < 0) /\
  (Z.abs (v_Height u - v_Height v) < 2 ^ 63 -> Z.abs (v_Round u - v_Round v) < 2 ^ 63 ->
   View_Cmp u v = if (View_Sub u v).1 =? 0 then Z.sgn (View_Sub u v).2 else Z.sgn (View_Sub u v).1).
Proof.
  split_and!; [apply View_Cmp_eq| | |].
  - apply View_Cmp_opp.
  - rewrite !View_Cmp_neg. apply view_lt_trans.
  - intros Hh Hr. unfold View_Sub. cbn [fst snd]. rewrite !i64_small by lia.
    destruct (View_Cmp_cases u v) as [[-> H1]|[[-> ->]|[-> H1]]]; unfold view_lt in *.
    + destruct (Z.eqb_spec (v_Height u - v_Height v) 0); lia.
    + rewrite !Z.sub_diag. done.
    + destruct (Z.eqb_spec (v_Height u - v_Height v) 0); lia.
Qed.

(** On the payload of a well-formed message only the signature check can fail. *)
Lemma FromPayload_payload src m h payload validate : message_ok m -> fits c_Message m ->
  Message_Payload m = Ret payload -> Message_Hash m = Ret h ->
  FromPayload src payload (Some validate) =
    (signer ← validate h (m_Signature m);
     _ ← fail_if (negb (bool_decide (Address_Bytes signer = Address_Bytes src))) ErrInvalidSigner;
     Ret (mkMessage src (m_Code m) (m_View m) (m_Msg m) (m_Signature m))).
Proof.
  intros Hok Hf Hp Hh. destruct (decode_encode_val c_Message m) as (b & E1 & E2); [by apply message_ok_codec|done|].
  unfold Message_Payload in Hp. replace b with payload in E2 by congruence.
  unfold FromPayload. rewrite E2. destruct Hok as (_ & (w & Hw & _) & _).
  cbn [mbind outcome_bind]. rewrite Hw. cbn [fail_if mbind outcome_bind]. rewrite Hh. cbn [mbind outcome_bind].
  destruct (validate h (m_Signature m)); [|done..]. cbn. by destruct (fail_if _ _).
Qed.

(** A signed message survives the wire: the payload of a well-formed
    message is accepted by [FromPayload] exactly when the signature check
    returns the sender, and then yields the message under the sender's
    address. *)
Theorem FromPayload_roundtrip src m h payload validate :
  message_ok m -> address_ok src -> fits c_Message m ->
  Message_Payload m = Ret payload -> Message_Hash m = Ret h ->
  (forall a, validate h (m_Signature m) = Ret a -> address_ok a) ->
  (FromPayload src payload (Some validate)
     = Ret (mkMessage src (m_Code m) (m_View m) (m_Msg m) (m_Signature m)) <->
   validate h (m_Signature m) = Ret src) /\
  ((exists m', FromPayload src payload (Some validate) = Ret m') -> validate h (m_Signature m) = Ret src).
Proof.
  intros Hok Hsrc Hf Hp Hh Hval. pose proof (FromPayload_payload src m h payload validate Hok Hf Hp Hh) as E.
  rewrite E. destruct (validate h (m_Signature m)) as [a| |] eqn:Ev; cbn; [|by split; [|intros []]..].
  unfold fail_if. case_bool_decide as Hab; cbn.
  - apply Address_Bytes_inj in Hab as ->; [|by apply Hval|done]. done.
  - split; [split; [done|]|by intros []]. intros [= ->]. done.
Qed.

(** The signed hash covers exactly code, view and payload: it does
    not depend on address and signature, and two messages whose digests do not
    collide have the same hash only if those three agree. *)
Theorem message_hash_binds m m' h :
  message_ok m -> message_ok m' -> fits c_Message (unsigned m) -> fits c_Message (unsigned m') ->
  (forall d d', Message_PayloadNoSig m = Ret d -> Message_PayloadNoSig m' = Ret d' ->
     keccak256 d = keccak256 d' -> d = d') ->
  Message_Hash m = Ret h ->
  (Message_Hash m' = Ret h <-> m_Code m' = m_Code m /\ m_View m' = m_View m /\ m_Msg m' = m_Msg m).
Proof.
  intros Hok Hok' Hf Hf' Hcoll Hh. unfold Message_Hash in *.
  apply outcome_bind_Ret in Hh as (d & Hd & [= <-]). split.
  - intros (d' & Hd' & [= Heq])%outcome_bind_Ret.
    apply (f_equal Hash_Bytes) in Heq. rewrite !Keccak256Hash_digest in Heq. symmetry in Heq.
    apply (Hcoll d d' Hd Hd') in Heq as <-.
    assert (unsigned m = unsigned m') as Hu.
    { apply (encode_val_inj c_Message _ _ d); try done; apply message_ok_codec; unfold message_ok, unsigned; cbn.
      - destruct Hok as (? & ? & ?). split_and!; try done; unfold EmptyAddress; lia.
      - destruct Hok' as (? & ? & ?). split_and!; try done; unfold EmptyAddress; lia. }
    unfold unsigned, NewCleanMessage in Hu. by simplify_eq.
  - intros (H1 & H2 & H3). unfold Message_PayloadNoSig, unsigned in *. rewrite H1, H2, H3, Hd. done.
Qed.

(** The hash comparison [verifyQC] makes between a certificate and
    the clean message rebuilt from it always succeeds on encodable
    certificates, and copying such a certificate through its encoding is the
    identity. *)
Theorem qc_seal_hash_and_copy qc : qc_ok qc -> fits c_QuorumCert qc ->
  Message_Hash (NewCleanMessage (qc_View qc) (qc_Code qc) (Hash_Bytes (qc_ProposedBlock qc))) = Ret (qc_SealHash qc) /\
  qc_Copy qc = Some qc.
Proof.
  intros Hok Hf. split.
  - unfold Message_Hash, qc_SealHash. set (m := NewCleanMessage _ _ _).
    destruct (encode_val_total c_Message (unsigned m)) as [d Hd].
    + apply message_ok_codec. destruct Hok as ((v & Hv & Hvok) & Hc & _). unfold message_ok. cbn.
      split_and!; try done; [lia|lia|]. by exists v.
    + unfold Message_PayloadNoSig. by rewrite Hd.
  - unfold qc_Copy. destruct (decode_encode_val c_QuorumCert qc) as (b & -> & Hd); [by apply qc_ok_codec|done|].
    cbn. by rewrite Hd.
Qed.

End MessageProperties.

(** ** Witnesses *)

Section Witnesses.
#[local] Existing Instance sample_keccak.

Definition sample_view : View := mkView 1 5.
Definition sample_qc : QuorumCert := mkQC (Some (mkView 0 4)) MsgTypePrepareVote 99 1 [x07].
Definition sample_message : Message := mkMessage EmptyAddress MsgTypeNewView (Some sample_view) [x01; x02] [x09].

Lemma sample_message_ok : message_ok sample_message.
Proof. split; [split; vm_compute; congruence|]. split; [eexists; split; [done|split; vm_compute; congruence]|decide_eval]. Qed.

Lemma view_total_order_witness : View_Cmp (mkView 3 5) (mkView 1 5) = 1.
Proof.
  destruct (view_total_order (mkView 3 5) (mkView 1 5) (mkView 0 0)) as (_ & _ & _ & Hs).
  rewrite Hs; vm_compute; reflexivity.
Defined.

Definition sample_wire : bytes :=
  match Message_Payload sample_message with Ret b => b | _ => [] end.
Definition sample_hash : Hash :=
  match Message_Hash sample_message with Ret h => h | _ => 0 end.

Lemma FromPayload_roundtrip_witness :
  FromPayload 2 sample_wire (Some (fun _ _ => Ret 2))
  = Ret (mkMessage 2 MsgTypeNewView (Some sample_view) [x01; x02] [x09]).
Proof.
  apply (FromPayload_roundtrip 2 sample_message sample_hash sample_wire (fun _ _ => Ret 2)).
  - apply sample_message_ok.
  - decide_eval.
  - fits_eval.
  - vm_compute. reflexivity.
  - vm_compute. reflexivity.
  - intros a [= <-]. decide_eval.
  - reflexivity.
Defined.

Lemma message_hash_binds_witness :
  Message_Hash (mkMessage 7 MsgTypeNewView (Some sample_view) [x01; x02] []) = Ret sample_hash.
Proof.
  apply (message_hash_binds sample_message (mkMessage 7 MsgTypeNewView (Some sample_view) [x01; x02] []) sample_hash).
  - apply sample_message_ok.
  - split; [split; vm_compute; congruence|]. split; [eexists; split; [done|split; vm_compute; congruence]|decide_eval].
  - fits_eval.
  - fits_eval.
  - intros d d' Hd Hd' _. enough (Ret d = Ret d') by congruence. rewrite <- Hd, <- Hd'. reflexivity.
  - vm_compute. reflexivity.
  - split_and!; reflexivity.
Defined.

Lemma qc_seal_hash_and_copy_witness : qc_Copy sample_qc = Some sample_qc.
Proof.
  apply (qc_seal_hash_and_copy sample_qc).
  - split; [eexists; split; [done|split; vm_compute; congruence]|].
    split; [split; vm_compute; congruence|]. split; decide_eval.
  - fits_eval.
Defined.

End Witnesses.
