(* ===== verification/Signer.v ===== *)
(** * Signatures (package [consensus/hotstuff/signer])

    Sealing and checking of headers, message signatures and quorum
    certificates.  The curve arithmetic comes from libsecp256k1 and kyber and
    is a parameter ([Crypto]); its laws ([CryptoLaws]) are the documented
    ones: a signature recovers to its key, and a recovered threshold signature
    verifies.  The cache of recovered signers is a map from which entries may
    vanish at any insertion ([Eviction]), which is what is documented of an ARC
    cache. *)
From Stdlib Require Import ZArith Lia Strings.Byte.
From stdpp Require Import base list option strings gmap.
From S2P Require Import Prelude Errors Rlp Codec Common Validator Block Types.
Open Scope Z_scope.

Class Crypto := {
  PrivateKey : Type;
  PublicKey : Type;
  public : PrivateKey -> PublicKey;
  FromECDSAPub : PublicKey -> bytes;
  ecdsa_Sign : bytes -> PrivateKey -> outcome bytes;
  SigToPub : bytes -> bytes -> outcome PublicKey;
  PriShare : Type;
  PubPoly : Type;
  tbls_Sign : PriShare -> bytes -> outcome bytes;
  tbls_Recover : PubPoly -> bytes -> list bytes -> Z -> Z -> outcome bytes;
  bls_Verify : PubPoly -> bytes -> bytes -> outcome unit
}.

Class CryptoLaws `{Crypto} := {
  sign_recover d k sig : ecdsa_Sign d k = Ret sig -> SigToPub d sig = Ret (public k);
  sign_length d k sig : ecdsa_Sign d k = Ret sig -> length sig = 65%nat;
  recover_verifies p d shares t n sig : tbls_Recover p d shares t n = Ret sig -> bls_Verify p d sig = Ret tt
}.

(** A bounded cache: an insertion may drop other entries. *)
Class Eviction := {
  evict : gmap Z Address -> gmap Z Address;
  evict_sub m : evict m ⊆ m;
  evict_last k v m : evict (<[k := v]> m) !! k = Some v
}.

Section Signer.
Context `{Keccak} `{Crypto} `{Eviction}.

Definition PubkeyToAddress (p : PublicKey) : Address :=
  BytesToAddress (drop 12 (keccak256 (drop 1 (FromECDSAPub p)))).

Record HotstuffSigner := mkSigner {
  sg_address : Address;
  sg_privateKey : option PrivateKey;
  sg_signatures : gmap Z Address;
  sg_blsPubPoly : PubPoly;
  sg_blsPrivKey : PriShare;
  sg_t : Z;
  sg_n : Z
}.

(** [NewSigner]: the address is the public key's. *)
Definition NewSigner (key : PrivateKey) (pub : PubPoly) (share : PriShare) (t n : Z) : HotstuffSigner :=
  mkSigner (PubkeyToAddress (public key)) (Some key) ∅ pub share t n.

(** ** Threshold signatures *)

Definition BLSSign (s : HotstuffSigner) (data : bytes) : outcome bytes :=
  tbls_Sign (sg_blsPrivKey s) data.

Definition BLSRecoverAggSig (s : HotstuffSigner) (data : bytes) (sigShares : list bytes) : outcome bytes :=
  tbls_Recover (sg_blsPubPoly s) data sigShares (sg_t s) (sg_n s).

Definition BLSVerifyAggSig (s : HotstuffSigner) (data aggSig : bytes) : outcome unit :=
  bls_Verify (sg_blsPubPoly s) data aggSig.

(** The bytes a certificate's signature covers; an encoding error is dropped. *)
Definition qc_vote (qc : QuorumCert) : Vote :=
  mkVote (qc_Code qc) (qc_View qc) (qc_ProposedBlock qc) [].

Definition AuthQC (s : HotstuffSigner) (qc : QuorumCert) : outcome unit :=
  view ← deref (qc_View qc);
  if u64 (v_Height view) =? 0 then Ret tt
  else
    let data := match encode_val c_Vote (qc_vote qc) with Ret d => d | _ => [] end in
    BLSVerifyAggSig s data (qc_BLSSignature qc).

(** ** ECDSA signatures *)

Definition Signer_Sign (s : HotstuffSigner) (hash : Hash) : outcome bytes :=
  if hash =? EmptyHash then Err ErrInvalidRawHash
  else match sg_privateKey s with
       | None => Err ErrInvalidSigner
       | Some key => ecdsa_Sign (Hash_Bytes hash) key
       end.

Definition getSignatureAddress (hash : Hash) (sig : bytes) : outcome Address :=
  if hash =? EmptyHash then Err ErrInvalidRawHash
  else pubkey ← SigToPub (Hash_Bytes hash) sig; Ret (PubkeyToAddress pubkey).

Definition CheckSignature (valSet : defaultSet) (hash : Hash) (sig : bytes) : outcome Address :=
  if hash =? EmptyHash then Err ErrInvalidRawHash
  else
    signer ← getSignatureAddress hash sig;
    match (GetByAddress signer valSet).2 with
    | Some val => Ret (val_Address val)
    | None => Err ErrUnauthorizedAddress
    end.

(** The hash the proposer seals; a header that cannot be filtered is encoded
    as a nil pointer. *)
Definition HeaderHash (h : Header) : Hash :=
  match HotstuffFilteredHeader h false with
  | Some h' => rlpHash c_Header h'
  | None => Keccak256Hash (EncodeToBytes (Lst []))
  end.

Definition SignerSeal (s : HotstuffSigner) (h : Header) : outcome Header :=
  seal ← on_err (Signer_Sign s (HeaderHash h)) ErrInvalidSignature;
  if negb (length seal mod 65 =? 0)%nat then Err ErrInvalidSignature
  else SetSeal seal h.

(** ** Headers *)

Definition set_signatures (c : gmap Z Address) (s : HotstuffSigner) : HotstuffSigner :=
  mkSigner (sg_address s) (sg_privateKey s) c (sg_blsPubPoly s) (sg_blsPrivKey s) (sg_t s) (sg_n s).

(** The cache is indexed by the header's hash. *)
Definition RecoverSigner (h : Header) : M HotstuffSigner Address := fun s =>
  let hash := Header_Hash h in
  match sg_signatures s !! hash with
  | Some addr => (Ret addr, s)
  | None =>
      match ExtractHotstuffExtra h with
      | Ret extra =>
          match getSignatureAddress (HeaderHash h) (ex_Seal extra) with
          | Ret addr => (Ret addr, set_signatures (evict (<[hash := addr]> (sg_signatures s))) s)
          | Err e => (Err e, s)
          | Panic => (Panic, s)
          end
      | Err _ => (Err ErrInvalidExtraDataFormat, s)
      | Panic => (Panic, s)
      end
  end.

(** The check of the certificate a sealed header carries. *)
Definition verify_seal (s : HotstuffSigner) (h : Header) : outcome unit :=
  extra ← on_err (ExtractHotstuffExtra h) ErrInvalidExtraDataFormat;
  commitQC ← decode_val c_QuorumCert (ex_EncodedQC extra);
  AuthQC s commitQC.

Definition VerifyHeader (h : Header) (valSet : defaultSet) (seal : bool) : M HotstuffSigner unit :=
  number ← asks (fun _ => deref (hdr_Number h));
  if u64 number =? 0 then mret tt
  else
    signer ← RecoverSigner h;
    if negb (signer =? hdr_Coinbase h) then throw ErrInvalidSigner
    else match (GetByAddress signer valSet).2 with
         | None => throw ErrUnauthorized
         | Some _ => if seal then asks (fun s => verify_seal s h) else mret tt
         end.

(** The extra data of a new block, and the header with its vanity padded. *)
Definition BuildPrepareExtra (h : Header) (valSet : defaultSet) : outcome bytes * Header :=
  let padded := hdr_Extra h ++ replicate (HotstuffExtraVanity - length (hdr_Extra h)) x00 in
  let h' := with_Extra padded h in
  (payload ← encode_val c_HotstuffExtra (mkHotstuffExtra (AddressList valSet) [] [] []);
   Ret (take HotstuffExtraVanity padded ++ payload), h').

End Signer.

(** ** Properties *)

Section Properties.
Context `{Keccak} `{Crypto} `{Eviction} `{!CryptoLaws}.

Lemma HeaderHash_Hash h e : hdr_MixDigest h = HotstuffDigest -> ExtractHotstuffExtra h = Ret e ->
  HeaderHash h = Header_Hash h.
Proof.
  intros Hm He. destruct (clean_extra_encodes e (ExtractHotstuffExtra_ok _ _ He)) as [p Hp].
  rewrite (Header_Hash_hotstuff h e p) by done. unfold HeaderHash, HotstuffFilteredHeader.
  rewrite ExtractHotstuffExtra_Copy, He. by rewrite Hp.
Qed.

Lemma set_seal_facts seal h h' e : hdr_MixDigest h = HotstuffDigest -> ExtractHotstuffExtra h = Ret e ->
  fits c_HotstuffExtra (mkHotstuffExtra (ex_Validators e) (ex_EncodedQC e) seal (ex_Salt e)) ->
  SetSeal seal h = Ret h' ->
  Header_Hash h' = Header_Hash h /\ HeaderHash h' = HeaderHash h /\
  ExtractHotstuffExtra h' = Ret (mkHotstuffExtra (ex_Validators e) (ex_EncodedQC e) seal (ex_Salt e)) /\
  hdr_Number h' = hdr_Number h /\ hdr_Coinbase h' = hdr_Coinbase h.
Proof.
  intros Hm He Hf Hs. unfold SetSeal in Hs. rewrite He in Hs. cbn [mbind outcome_bind] in Hs.
  apply outcome_bind_Ret in Hs as (p & Hp & [= <-]). set (e' := mkHotstuffExtra _ _ seal _) in *.
  assert (c_ok c_HotstuffExtra e') as Hok by (apply HotstuffExtra_ok_iff, (ExtractHotstuffExtra_ok _ _ He)).
  assert (ExtractHotstuffExtra (replace_payload p h) = Ret e') as He'
    by (apply Extract_replace; [by eapply ExtractHotstuffExtra_length|done..]).
  assert (Header_Hash (replace_payload p h) = Header_Hash h) as Hh by by apply (Header_Hash_replace h e e' p).
  split_and!; try done. by rewrite (HeaderHash_Hash _ e'), (HeaderHash_Hash h e), Hh.
Qed.

Lemma Sign_CheckAddress s key hash sig : sg_privateKey s = Some key -> Signer_Sign s hash = Ret sig ->
  getSignatureAddress hash sig = Ret (PubkeyToAddress (public key)).
Proof.
  intros Hk Hs. unfold Signer_Sign in Hs. unfold getSignatureAddress. destruct (hash =? EmptyHash); [done|].
  rewrite Hk in Hs. by rewrite (sign_recover _ _ _ Hs).
Qed.

(** The signature of a key is attributed to its address. *)
Lemma CheckSignature_own s key vs hash sig :
  sg_privateKey s = Some key -> sg_address s = PubkeyToAddress (public key) ->
  Signer_Sign s hash = Ret sig ->
  CheckSignature vs hash sig =
    if decide (sg_address s ∈ AddressList vs) then Ret (sg_address s) else Err ErrUnauthorizedAddress.
Proof.
  intros Hk Ha Hs. pose proof (Sign_CheckAddress _ _ _ _ Hk Hs) as Hg. unfold CheckSignature.
  destruct (Z.eqb_spec hash EmptyHash) as [->|Hne]; [by unfold Signer_Sign in Hs|].
  rewrite Hg. cbn. rewrite <- Ha, GetByAddress_snd.
  destruct (decide (sg_address s ∈ AddressList vs)) as [Hi|Hi]; rewrite elem_of_AddressList in Hi.
  - by rewrite decide_True.
  - by rewrite decide_False.
Qed.

(** A hash signed by a member of the validator set is attributed to
    that member by [CheckSignature], and to nobody when the signer is not a
    member. *)
Theorem signature_attribution s key vs hash sig :
  sg_privateKey s = Some key -> sg_address s = PubkeyToAddress (public key) ->
  Signer_Sign s hash = Ret sig ->
  CheckSignature vs hash sig =
    if decide (sg_address s ∈ AddressList vs) then Ret (sg_address s) else Err ErrUnauthorizedAddress.
Proof. apply CheckSignature_own. Qed.

(** The signer of a header that [s] has sealed, as any other signer recovers
    it: from the seal, or from its cache. *)
Lemma RecoverSigner_sealed s v key h h' e :
  sg_privateKey s = Some key -> sg_address s = PubkeyToAddress (public key) ->
  hdr_MixDigest h = HotstuffDigest -> ExtractHotstuffExtra h = Ret e ->
  (forall seal, length seal = 65%nat -> fits c_HotstuffExtra (mkHotstuffExtra (ex_Validators e) (ex_EncodedQC e) seal (ex_Salt e))) ->
  (forall a, sg_signatures v !! Header_Hash h = Some a -> a = sg_address s) -> SignerSeal s h = Ret h' ->
  exists p seal v', h' = replace_payload p h /\ Header_Hash h' = Header_Hash h /\ HeaderHash h' = HeaderHash h /\
    ExtractHotstuffExtra h' = Ret (mkHotstuffExtra (ex_Validators e) (ex_EncodedQC e) seal (ex_Salt e)) /\ length seal = 65%nat /\
    getSignatureAddress (HeaderHash h) seal = Ret (sg_address s) /\
    RecoverSigner h' v = (Ret (sg_address s), v') /\ v' = set_signatures (sg_signatures v') v /\
    sg_signatures v' !! Header_Hash h = Some (sg_address s).
Proof.
  intros Hk Ha Hm He Hf Hcache Hs. unfold SignerSeal in Hs.
  apply outcome_bind_Ret in Hs as (seal & Hsig & Hs). apply on_err_Ret in Hsig. destruct (negb _); [done|].
  assert (length seal = 65%nat) as Hlen.
  { unfold Signer_Sign in Hsig. destruct (_ =? _); [done|]. rewrite Hk in Hsig. by apply sign_length in Hsig. }
  destruct (set_seal_facts seal h h' e Hm He (Hf _ Hlen) Hs) as (Hh & Hhh & He' & _).
  pose proof (Sign_CheckAddress s key _ _ Hk Hsig) as Hg. rewrite <- Ha in Hg.
  assert (exists p, h' = replace_payload p h) as (p & Hp).
  { unfold SetSeal in Hs. rewrite He in Hs. cbn [mbind outcome_bind] in Hs. apply outcome_bind_Ret in Hs as (p & _ & [= <-]). by exists p. }
  exists p, seal. unfold RecoverSigner. rewrite Hh, He', Hhh. cbn [ex_Seal]. rewrite Hg.
  destruct (sg_signatures v !! Header_Hash h) as [a|] eqn:Ec; eexists; split_and!; try done.
  - by rewrite (Hcache a eq_refl).
  - by destruct v.
  - by rewrite Ec, (Hcache a eq_refl).
  - apply evict_last.
Qed.

(** The check of a header whose signer is known to be its coinbase. *)
Lemma VerifyHeader_cached h vs v : sg_signatures v !! Header_Hash h = Some (hdr_Coinbase h) -> hdr_Coinbase h ∈ AddressList vs ->
  is_Some (hdr_Number h) -> VerifyHeader h vs false v = (Ret tt, v).
Proof.
  intros Hc Hin [n Hn]. unfold VerifyHeader, mbind, M_bind, asks. rewrite Hn. cbn [deref]. destruct (u64 n =? 0); [done|].
  unfold RecoverSigner. rewrite Hc, Z.eqb_refl, GetByAddress_snd. cbn. rewrite elem_of_AddressList in Hin. by rewrite decide_True.
Qed.

(** A header the proposer has sealed passes the header check: its
    signer is recovered as the proposer, provided the proposer is its coinbase
    and a member, and nothing is cached for it. *)
Theorem sealed_header_verifies s key vs h h' e :
  sg_privateKey s = Some key -> sg_address s = PubkeyToAddress (public key) ->
  hdr_MixDigest h = HotstuffDigest -> ExtractHotstuffExtra h = Ret e ->
  (forall seal, length seal = 65%nat -> fits c_HotstuffExtra (mkHotstuffExtra (ex_Validators e) (ex_EncodedQC e) seal (ex_Salt e))) ->
  hdr_Coinbase h = sg_address s -> sg_address s ∈ AddressList vs -> is_Some (hdr_Number h) ->
  sg_signatures s !! Header_Hash h = None ->
  SignerSeal s h = Ret h' ->
  Header_Hash h' = Header_Hash h /\ (RecoverSigner h' s).1 = Ret (sg_address s) /\
  (VerifyHeader h' vs false s).1 = Ret tt.
Proof.
  intros Hk Ha Hm He Hf Hc Hin [n Hn] Hcache Hs.
  destruct (RecoverSigner_sealed s s key h h' e) as (p & seal & s' & -> & Hh & _ & _ & _ & _ & Hr & _ & _); [done..|by rewrite Hcache|done|].
  rewrite Hr. split_and!; [done|done|]. unfold VerifyHeader, mbind, M_bind, asks. cbn [hdr_Number replace_payload with_Extra].
  rewrite Hn. cbn [deref]. destruct (u64 n =? 0); [done|]. rewrite Hr. cbn [hdr_Coinbase replace_payload with_Extra].
  rewrite Hc, Z.eqb_refl, GetByAddress_snd. cbn. rewrite elem_of_AddressList in Hin. by rewrite decide_True.
Qed.

(** Once a header's signer has been recovered, a header that differs
    from it in nothing but the seal is attributed to the same signer without
    its seal being looked at: the cache is indexed by the hash, which leaves
    the seal out. *)
Theorem cached_signer_ignores_seal s s1 h e a bogus h' :
  hdr_MixDigest h = HotstuffDigest -> ExtractHotstuffExtra h = Ret e ->
  fits c_HotstuffExtra (mkHotstuffExtra (ex_Validators e) (ex_EncodedQC e) bogus (ex_Salt e)) ->
  RecoverSigner h s = (Ret a, s1) -> SetSeal bogus h = Ret h' ->
  RecoverSigner h' s1 = (Ret a, s1).
Proof.
  intros Hm He Hf Hr Hs. destruct (set_seal_facts bogus h h' e Hm He Hf Hs) as (Hh & _).
  assert (sg_signatures s1 !! Header_Hash h = Some a) as Hc.
  { unfold RecoverSigner in Hr. destruct (sg_signatures s !! Header_Hash h) as [b|] eqn:E; [by simplify_eq|].
    rewrite He in Hr. destruct (getSignatureAddress _ _); simplify_eq. cbn. apply evict_last. }
  unfold RecoverSigner. by rewrite Hh, Hc.
Qed.

(** A certificate assembled from threshold shares over the unsigned
    vote of its fields is accepted by [AuthQC]. *)
Theorem assembled_qc_authenticates s view code block proposer data shares agg :
  encode_val c_Vote (mkVote code (Some view) block []) = Ret data ->
  BLSRecoverAggSig s data shares = Ret agg ->
  AuthQC s (mkQC (Some view) code block proposer agg) = Ret tt.
Proof.
  intros Hd Hr. unfold AuthQC, qc_vote. cbn [qc_View deref mbind outcome_bind]. destruct (_ =? 0); [done|].
  cbn [qc_Code qc_ProposedBlock qc_BLSSignature]. rewrite Hd. by apply recover_verifies in Hr.
Qed.

(** A sealed header is accepted with a certificate nobody signed: if
    the certificate it carries names height 0 (or any multiple of [2^64]),
    neither the signature nor any relation between certificate and header is
    checked. *)
Theorem unsigned_certificate_accepted s vs h e qc view n :
  ExtractHotstuffExtra h = Ret e -> decode_val c_QuorumCert (ex_EncodedQC e) = Ret qc ->
  qc_View qc = Some view -> v_Height view mod 2 ^ 64 = 0 ->
  hdr_Number h = Some n -> u64 n <> 0 ->
  sg_signatures s !! Header_Hash h = Some (hdr_Coinbase h) -> hdr_Coinbase h ∈ AddressList vs ->
  VerifyHeader h vs true s = (Ret tt, s).
Proof.
  intros He Hd Hv Hz Hn Hnz Hc Hin. unfold VerifyHeader, mbind, M_bind, asks. rewrite Hn. cbn [deref].
  destruct (Z.eqb_spec (u64 n) 0); [done|]. unfold RecoverSigner. rewrite Hc, Z.eqb_refl, GetByAddress_snd. cbn.
  rewrite elem_of_AddressList in Hin. rewrite decide_True by done. f_equal. unfold verify_seal. rewrite He.
  cbn [on_err mbind outcome_bind]. rewrite Hd. cbn [mbind outcome_bind]. unfold AuthQC. rewrite Hv. cbn.
  unfold u64. by rewrite Hz.
Qed.

End Properties.

(** ** A concrete instance *)

(** Signatures that carry the key and the digest they sign; threshold shares
    that carry the index and the data. *)
Definition sample_crypto : Crypto := {|
  PrivateKey := Z;
  PublicKey := Z;
  public k := be_value (be_fixed 33 k);
  FromECDSAPub k := x04 :: be_fixed 33 k;
  ecdsa_Sign d k := if (length d =? 32)%nat then Ret (be_fixed 33 k ++ d) else Err (ErrExternal 1);
  SigToPub d sig := if decide (drop 33 sig = d) then Ret (be_value (take 33 sig)) else Err (ErrExternal 2);
  PriShare := Z;
  PubPoly := unit;
  tbls_Sign i d := Ret (byte_of_Z i :: d);
  tbls_Recover _ d shares t n :=
    let used := take (Z.to_nat t) shares in
    if (t <=? zlen shares) && forallb (fun s => bool_decide (tail s = d)) used && bool_decide (NoDup used)
    then Ret (xff :: d) else Err (ErrExternal 3);
  bls_Verify _ d sig := if decide (sig = xff :: d) then Ret tt else Err (ErrExternal 4)
|}.

Lemma sample_crypto_laws : @CryptoLaws sample_crypto.
Proof.
  constructor; cbn [ecdsa_Sign SigToPub public tbls_Recover bls_Verify sample_crypto].
  - intros d k sig. destruct (_ =? _)%nat; [|done]. intros Hs.
    assert (sig = be_fixed 33 k ++ d) as -> by congruence.
    by rewrite drop_app_length', take_app_length', decide_True by (done || apply length_be_fixed).
  - intros d k sig. destruct (Nat.eqb_spec (length d) 32) as [E|]; [|done]. intros Hs.
    assert (sig = be_fixed 33 k ++ d) as -> by congruence.
    by rewrite length_app, E, length_be_fixed.
  - intros [] d shares t n sig. destruct (_ && _); [|done]. intros [= <-]. by rewrite decide_True.
Qed.

Definition sample_eviction : Eviction.
Proof. refine {| evict := fun m => m |}; [done|]. intros. apply lookup_insert_eq. Defined.

Section Witnesses.
#[local] Existing Instance sample_keccak.
#[local] Existing Instance sample_crypto.
#[local] Existing Instance sample_crypto_laws.
#[local] Existing Instance sample_eviction.

Definition sample_key : PrivateKey := 42.
Definition sample_signer : HotstuffSigner := NewSigner sample_key tt 1 3 4.
Definition sample_members : defaultSet := newDefaultSet [sg_address sample_signer; 2; 3; 4] RoundRobin.

(** The sample header with the signer as coinbase. *)
Definition own_header : Header :=
  let h := mkHeader 77 0 (sg_address sample_signer) 0 0 0 0 (Some 1) (Some 5) 8000000 0 1000 [] HotstuffDigest 0 in
  match HotstuffHeaderFillWithValidators [2; 3; 4] h with Ret h' => h' | _ => h end.

Definition own_sealed_header : Header :=
  match SignerSeal sample_signer own_header with Ret h => h | _ => own_header end.

Definition signed_hash : bytes := match Signer_Sign sample_signer 7 with Ret b => b | _ => [] end.

Lemma signature_attribution_witness :
  CheckSignature sample_members 7 signed_hash = Ret (sg_address sample_signer).
Proof.
  rewrite (signature_attribution sample_signer sample_key sample_members 7 signed_hash).
  all: vm_compute; reflexivity.
Defined.

Lemma fits_any_seal v q t seal : zlen (encode (Lst [Lst (map (writeByteArray 20) v); Str q; Str (replicate 65 x00); Str t])) < 2 ^ 60 ->
  length seal = 65%nat -> fits c_HotstuffExtra (mkHotstuffExtra v q seal t).
Proof.
  intros Hb Hl it Hit. cbn in Hit. apply outcome_bind_Ret in Hit as (l & Hl1 & [= <-]).
  apply outcome_bind_Ret in Hl1 as (it1 & Hi1 & Hl1). apply outcome_bind_Ret in Hi1 as (its & Hits & [= <-]).
  injection Hl1 as <-.
  assert (its = map (writeByteArray 20) v) as ->.
  { clear -Hits. revert its Hits. induction v as [|a v IH]; intros its E; cbn in E; [by simplify_eq|].
    apply outcome_bind_Ret in E as (l & ->%IH & [= <-]). done. }
  eapply Z.lt_trans; [|exact (eq_refl : 2 ^ 60 < 2 ^ 64)]. eapply Z.le_lt_trans; [|exact Hb].
  apply Z.eq_le_incl.
  assert (zlen (encodeString seal) = zlen (encodeString (replicate 65 x00))) as E.
  { destruct seal as [|s0 [|s1 seal]]; try done. unfold encodeString. rewrite !zlen_app.
    assert (zlen (s0 :: s1 :: seal) = 65) as -> by (unfold zlen; lia). done. }
  generalize (Lst (map (writeByteArray 20) v)). intros vals.
  cbn [encode map concat]. cbv zeta. rewrite !zlen_app, E. done.
Qed.

Lemma sealed_header_verifies_witness :
  Header_Hash own_sealed_header = Header_Hash own_header /\
  (VerifyHeader own_sealed_header sample_members false sample_signer).1 = Ret tt.
Proof.
  destruct (sealed_header_verifies sample_signer sample_key sample_members own_header own_sealed_header
    (mkHotstuffExtra [2; 3; 4] [] [] [])) as (H1 & _ & H3); [..|exact (conj H1 H3)].
  - vm_compute. reflexivity.
  - vm_compute. reflexivity.
  - vm_compute. reflexivity.
  - vm_compute. reflexivity.
  - intros seal. apply fits_any_seal. vm_compute. reflexivity.
  - vm_compute. reflexivity.
  - decide_eval.
  - exists 5. vm_compute. reflexivity.
  - vm_compute. reflexivity.
  - vm_compute. reflexivity.
Defined.

Definition bogus_header : Header := match SetSeal [x00; x01] own_header with Ret h => h | _ => own_header end.
Definition warm_signer : HotstuffSigner := (RecoverSigner own_sealed_header sample_signer).2.

Definition extra_of (h : Header) : HotstuffExtra :=
  match ExtractHotstuffExtra h with Ret e => e | _ => mkHotstuffExtra [] [] [] [] end.

Lemma warm_signer_recovers :
  RecoverSigner own_sealed_header sample_signer = (Ret (sg_address sample_signer), warm_signer).
Proof.
  transitivity ((RecoverSigner own_sealed_header sample_signer).1, warm_signer).
  - exact (surjective_pairing _).
  - refine (f_equal2 pair _ eq_refl). vm_compute. reflexivity.
Qed.

#[local] Opaque extra_of own_header own_sealed_header bogus_header warm_signer sample_signer.

Lemma cached_signer_ignores_seal_witness :
  RecoverSigner bogus_header warm_signer = (Ret (sg_address sample_signer), warm_signer).
Proof.
  apply (cached_signer_ignores_seal sample_signer warm_signer own_sealed_header
    (extra_of own_sealed_header)
    (sg_address sample_signer) [x00; x01] bogus_header).
  - vm_compute. reflexivity.
  - vm_compute. reflexivity.
  - fits_eval.
  - exact warm_signer_recovers.
  - vm_compute. reflexivity.
Defined.

Lemma assembled_qc_authenticates_witness :
  let data := match encode_val c_Vote (mkVote MsgTypeCommitVote (Some (mkView 1 5)) 99 []) with Ret d => d | _ => [] end in
  AuthQC sample_signer (mkQC (Some (mkView 1 5)) MsgTypeCommitVote 99 2 (xff :: data)) = Ret tt.
Proof.
  cbv zeta. set (data := match _ with Ret d => d | _ => [] end).
  apply (assembled_qc_authenticates sample_signer (mkView 1 5) MsgTypeCommitVote 99 2 data
    [x01 :: data; x02 :: data; x03 :: data]); vm_compute; reflexivity.
Defined.

(** A header whose certificate is for height 0 and signed by nobody. *)
Definition zero_qc_header : Header :=
  match (b ← encode_val c_QuorumCert (mkQC (Some (mkView 0 0)) 0 0 0 []); SetEncodedQC b own_sealed_header) with
  | Ret h => h | _ => own_sealed_header end.

#[local] Opaque zero_qc_header.

Lemma unsigned_certificate_accepted_witness :
  VerifyHeader zero_qc_header sample_members true warm_signer = (Ret tt, warm_signer).
Proof.
  apply (unsigned_certificate_accepted warm_signer sample_members zero_qc_header
    (extra_of zero_qc_header)
    (mkQC (Some (mkView 0 0)) 0 0 0 []) (mkView 0 0) 5).
  all: try (vm_compute; reflexivity).
  - vm_compute. congruence.
  - decide_eval.
Defined.

End Witnesses.
