(* ===== verification/Signing.v ===== *)
(** * Signatures of transactions ([core/types/transaction_signing.go],
    [transaction_signing_private.go], [crypto/crypto.go], [crypto/signature_cgo.go])

    The signers with the hashes they sign and the senders they recover, and a
    [Transaction] with its caches.  Signing a transaction and asking for its
    sender gives the address of the key, signers of other chains refuse it, and
    the caches never answer for anything but the data they were filled from.
    libsecp256k1 is a parameter ([Secp256k1]); what is documented of it are
    the laws ([Secp256k1Laws]). *)
From Stdlib Require Import ZArith Lia Strings.Byte.
From stdpp Require Import base list option strings.
From S2P Require Import Prelude Errors Rlp Common Codec Transaction Block.
Open Scope Z_scope.

(** ** The curve *)

Definition secp256k1N : Z := 0xfffffffffffffffffffffffffffffffebaaedce6af48a03bbfd25e8cd0364141.
Definition secp256k1halfN : Z := secp256k1N / 2.

(** The C library: private keys that pass its check, the uncompressed public
    key, recoverable signatures with the recovery id as last byte, recovery. *)
Class Secp256k1 := {
  ec_key : Type;
  ec_pubkey : ec_key -> bytes;
  ec_sign : bytes -> ec_key -> option bytes;
  ec_recover : bytes -> bytes -> option bytes
}.

Definition signature (r s v : Z) : bytes := be_fixed 32 r ++ be_fixed 32 s ++ [byte_of_Z v].

(** A signature has its [s] in the lower half and recovers to the key; an
    uncompressed key starts with 4. *)
Class Secp256k1Laws `{Secp256k1} := {
  ec_sign_form m k sig : ec_sign m k = Some sig ->
    exists r s v, sig = signature r s v /\ 1 <= r < secp256k1N /\ 1 <= s <= secp256k1halfN /\ (v = 0 \/ v = 1);
  ec_sign_recover m k sig : ec_sign m k = Some sig -> ec_recover m sig = Some (ec_pubkey k);
  ec_pubkey_form k : exists xy, ec_pubkey k = x04 :: xy
}.

(** [big.Int.Uint64] and [Int64]: the low bits of the magnitude. *)
Definition Uint64 (z : Z) : Z := u64 (Z.abs z).
Definition Int64 (z : Z) : Z := i64 (if z <? 0 then - i64 (Z.abs z) else i64 (Z.abs z)).

Definition byte_add (x : byte) (n : Z) : Z := (Z_of_byte x + n) mod 256.

Section Curve.
Context `{Secp256k1}.

(** [crypto.Sign] *)
Definition crypto_Sign (digestHash : bytes) (prv : ec_key) : outcome bytes :=
  if negb (length digestHash =? 32)%nat then Err (ErrFmt "hash is required to be exactly %d bytes (%d)")
  else match ec_sign digestHash prv with Some sig => Ret sig | None => Err (ErrFmt "signing failed") end.

Definition checkSignature (sig : bytes) : outcome unit :=
  if negb (length sig =? 65)%nat then Err (ErrFmt "invalid signature length")
  else match sig !! 64%nat with
       | Some v => if 4 <=? Z_of_byte v then Err (ErrFmt "invalid signature recovery id") else Ret tt
       | None => Panic
       end.

(** [secp256k1.RecoverPubkey], which [crypto.Ecrecover] calls *)
Definition Ecrecover (msg sig : bytes) : outcome bytes :=
  if negb (length msg =? 32)%nat then Err (ErrFmt "invalid message length, need 32 bytes")
  else
    _ ← checkSignature sig;
    match ec_recover msg sig with Some pub => Ret pub | None => Err (ErrFmt "recovery failed") end.

Definition ValidateSignatureValues (v : Z) (r s : Z) (homestead : bool) : bool :=
  if (r <? 1) || (s <? 1) then false
  else if homestead && (secp256k1halfN <? s) then false
  else (r <? secp256k1N) && (s <? secp256k1N) && ((v =? 0) || (v =? 1) || (v =? 10) || (v =? 11)).

End Curve.

(** ** Accessors *)

Definition tx_nonce (t : TxData) : Z := match t with Legacy d => lt_Nonce d | Access d => al_Nonce d end.
Definition tx_gasPrice (t : TxData) : option Z := match t with Legacy d => lt_GasPrice d | Access d => al_GasPrice d end.
Definition tx_gas (t : TxData) : Z := match t with Legacy d => lt_Gas d | Access d => al_Gas d end.
Definition tx_to (t : TxData) : option Address := match t with Legacy d => lt_To d | Access d => al_To d end.
Definition tx_value (t : TxData) : option Z := match t with Legacy d => lt_Value d | Access d => al_Value d end.
Definition tx_data (t : TxData) : bytes := match t with Legacy d => lt_Data d | Access d => al_Data d end.
Definition tx_accessList (t : TxData) : AccessList := match t with Legacy d => [] | Access d => al_AccessList d end.

Definition rawSignatureValues (t : TxData) : option Z * option Z * option Z :=
  match t with Legacy d => (lt_V d, lt_R d, lt_S d) | Access d => (al_V d, al_R d, al_S d) end.

Definition setSignatureValues (chainID v r s : option Z) (t : TxData) : TxData :=
  match t with
  | Legacy d => Legacy (mkLegacyTx (lt_Nonce d) (lt_GasPrice d) (lt_Gas d) (lt_To d) (lt_Value d) (lt_Data d) v r s)
  | Access d => Access (mkAccessListTx chainID (al_Nonce d) (al_GasPrice d) (al_Gas d) (al_To d) (al_Value d) (al_Data d) (al_AccessList d) v r s)
  end.

(** [Cost] *)
Definition tx_Cost (t : TxData) : outcome Z :=
  price ← deref (tx_gasPrice t); value ← deref (tx_value t); Ret (price * tx_gas t + value).

(** ** The recovery parameter *)

(** Unsigned arithmetic below 64 bits: a [v] below 35 wraps. *)
Definition deriveChainId (v : Z) : Z :=
  if BitLen v <=? 64 then
    let v := Uint64 v in
    if (v =? 27) || (v =? 28) then 0 else u64 (v - 35) / 2
  else Z.div (v - 35) 2.

Definition chainID (t : TxData) : outcome (option Z) :=
  match t with
  | Legacy d => v ← deref (lt_V d); Ret (Some (deriveChainId v))
  | Access d => Ret (al_ChainID d)
  end.

Definition isProtectedV (V : Z) : bool :=
  if BitLen V <=? 8 then
    let v := Uint64 V in negb (v =? 27) && negb (v =? 28) && negb (v =? 1) && negb (v =? 0)
  else true.

Definition Protected (t : TxData) : bool :=
  match t with
  | Legacy d => match lt_V d with Some v => isProtectedV v | None => false end
  | Access _ => true
  end.

Definition isPrivate (v : Z) : bool := (v =? 37) || (v =? 38).

(** [Transaction.IsPrivate] looks at the low 64 bits. *)
Definition IsPrivate (t : TxData) : bool :=
  match (rawSignatureValues t).1.1 with
  | Some v => (Uint64 v =? 37) || (Uint64 v =? 38)
  | None => false
  end.

(** [SetPrivate] on the [v] of a transaction *)
Definition with_V (v : option Z) (t : TxData) : TxData :=
  match t with
  | Legacy d => setSignatureValues None v (lt_R d) (lt_S d) t
  | Access d => setSignatureValues (al_ChainID d) v (al_R d) (al_S d) t
  end.

Definition SetPrivate_data (t : TxData) : outcome TxData :=
  if IsPrivate t then Ret t
  else v ← deref (rawSignatureValues t).1.1; Ret (with_V (Some (if Int64 v =? 28 then 38 else 37)) t).

Definition sanityCheckSignature (v r s : Z) (maybeProtected : bool) : outcome unit :=
  if isProtectedV v && negb maybeProtected then Err (ErrFmt "transaction type does not supported EIP-155 protected signatures")
  else
    let plainV :=
      if isProtectedV v then (Uint64 v - 35 - 2 * Uint64 (deriveChainId v)) mod 256
      else if maybeProtected then (Uint64 v - 27) mod 256
      else Uint64 v mod 256 in
    if ValidateSignatureValues plainV r s false then Ret tt else Err ErrInvalidSig.

Definition decodeSignature (sig : bytes) : outcome (Z * Z * Z) :=
  if negb (length sig =? 65)%nat then Panic
  else match sig !! 64%nat with
       | Some x => Ret (be_value (take 32 sig), be_value (take 32 (drop 32 sig)), byte_add x 27)
       | None => Panic
       end.

(** ** Signers *)

Inductive TxSigner :=
| FrontierSigner
| HomesteadSigner
| EIP155Signer (chainId : Z)
| EIP2930Signer (chainId : Z)
| QuorumPrivateTxSigner.

Definition NewEIP155Signer (chainId : option Z) : TxSigner := EIP155Signer (default 0 chainId).
Definition NewEIP2930Signer (chainId : option Z) : TxSigner := EIP2930Signer (default 0 chainId).

Definition LatestSignerForChainID (chainID : option Z) : TxSigner :=
  match chainID with None => HomesteadSigner | Some _ => NewEIP2930Signer chainID end.

Definition signer_ChainID (s : TxSigner) : option Z :=
  match s with EIP155Signer c | EIP2930Signer c => Some c | _ => None end.

Definition signer_Equal (s s2 : TxSigner) : bool :=
  match s, s2 with
  | FrontierSigner, FrontierSigner | HomesteadSigner, HomesteadSigner | QuorumPrivateTxSigner, QuorumPrivateTxSigner => true
  | EIP155Signer c, EIP155Signer c2 | EIP2930Signer c, EIP2930Signer c2 => c2 =? c
  | _, _ => false
  end.

Definition c_frontier := c_struct (f_cons c_uint64 (f_cons c_bigint (f_cons c_uint64 (f_cons (c_nil_array 19) (f_cons c_bigint (f_cons c_bytes f_nil)))))).
Definition c_eip155 := c_struct (f_cons c_uint64 (f_cons c_bigint (f_cons c_uint64 (f_cons (c_nil_array 19) (f_cons c_bigint (f_cons c_bytes
  (f_cons c_bigint (f_cons c_uint64 (f_cons c_uint64 f_nil))))))))).
Definition c_eip2930 := c_struct (f_cons c_bigint (f_cons c_uint64 (f_cons c_bigint (f_cons c_uint64 (f_cons (c_nil_array 19) (f_cons c_bigint
  (f_cons c_bytes (f_cons (c_slice c_AccessTuple) f_nil)))))))).

Section Signers.
Context `{Keccak} `{Secp256k1}.

Definition FrontierSigner_Hash (t : TxData) : outcome Hash :=
  price ← deref (tx_gasPrice t); value ← deref (tx_value t);
  Ret (rlpHash c_frontier (tx_nonce t, (Some price, (tx_gas t, (tx_to t, (Some value, (tx_data t, tt))))))).

Definition EIP155Signer_Hash (chainId : Z) (t : TxData) : outcome Hash :=
  price ← deref (tx_gasPrice t); value ← deref (tx_value t);
  Ret (rlpHash c_eip155 (tx_nonce t, (Some price, (tx_gas t, (tx_to t, (Some value, (tx_data t, (Some chainId, (0, (0, tt)))))))))).

Definition EIP2930Signer_Hash (chainId : Z) (t : TxData) : outcome Hash :=
  match t with
  | Legacy _ => EIP155Signer_Hash chainId t
  | Access _ =>
      price ← deref (tx_gasPrice t); value ← deref (tx_value t);
      Ret (prefixedRlpHash (byte_of_Z (txType t)) c_eip2930
        (Some chainId, (tx_nonce t, (Some price, (tx_gas t, (tx_to t, (Some value, (tx_data t, (tx_accessList t, tt)))))))))
  end.

Definition signer_Hash (s : TxSigner) (t : TxData) : outcome Hash :=
  match s with
  | FrontierSigner | HomesteadSigner | QuorumPrivateTxSigner => FrontierSigner_Hash t
  | EIP155Signer c => EIP155Signer_Hash c t
  | EIP2930Signer c => EIP2930Signer_Hash c t
  end.

(** [R], [S] and [V] of a signature, nil after an error *)
Definition FrontierSigner_SignatureValues (t : TxData) (sig : bytes) : outcome (option Z * option Z * option Z) :=
  match t with
  | Legacy _ => '(r, s, v) ← decodeSignature sig; Ret (Some r, Some s, Some v)
  | Access _ => Err ErrTxTypeNotSupported
  end.

Definition EIP155Signer_SignatureValues (chainId : Z) (t : TxData) (sig : bytes) : outcome (option Z * option Z * option Z) :=
  match t with
  | Legacy _ =>
      '(r, s, v) ← decodeSignature sig;
      if chainId =? 0 then Ret (Some r, Some s, Some v)
      else x ← deref (sig !! 64%nat); Ret (Some r, Some s, Some (byte_add x 35 + chainId * 2))
  | Access _ => Err ErrTxTypeNotSupported
  end.

Definition EIP2930Signer_SignatureValues (chainId : Z) (t : TxData) (sig : bytes) : outcome (option Z * option Z * option Z) :=
  match t with
  | Legacy _ => EIP155Signer_SignatureValues chainId t sig
  | Access d =>
      id ← deref (al_ChainID d);
      if negb (id =? 0) && negb (id =? chainId) then Err ErrInvalidChainId
      else
        '(r, s, _) ← decodeSignature sig;
        x ← deref (sig !! 64%nat);
        Ret (Some r, Some s, Some (Z_of_byte x))
  end.

(** The error of the embedded signer is dropped. *)
Definition QuorumPrivateTxSigner_SignatureValues (t : TxData) (sig : bytes) : outcome (option Z * option Z * option Z) :=
  '(r, s) ← match FrontierSigner_SignatureValues t sig with
            | Ret (r, s, _) => Ret (r, s)
            | Err _ => Ret (None, None)
            | Panic => Panic
            end;
  x ← deref (sig !! 64%nat);
  Ret (r, s, Some (byte_add x 37)).

Definition signer_SignatureValues (s : TxSigner) (t : TxData) (sig : bytes) : outcome (option Z * option Z * option Z) :=
  match s with
  | FrontierSigner | HomesteadSigner => FrontierSigner_SignatureValues t sig
  | EIP155Signer c => EIP155Signer_SignatureValues c t sig
  | EIP2930Signer c => EIP2930Signer_SignatureValues c t sig
  | QuorumPrivateTxSigner => QuorumPrivateTxSigner_SignatureValues t sig
  end.

Definition pub_address (pub : bytes) : Address := BytesToAddress (drop 12 (keccak256 (drop 1 pub))).

Definition recoverPlain (sighash : Hash) (R S Vb : option Z) (homestead : bool) : outcome Address :=
  Vb ← deref Vb;
  if 8 <? BitLen Vb then Err ErrInvalidSig
  else
    let V := (Uint64 Vb - (if isPrivate Vb then 37 else 27)) mod 256 in
    R ← deref R; S ← deref S;
    if negb (ValidateSignatureValues V R S homestead) then Err ErrInvalidSig
    else
      pub ← Ecrecover (Hash_Bytes sighash) (signature R S V);
      match pub with
      | x04 :: _ => Ret (pub_address pub)
      | _ => Err (ErrFmt "invalid public key")
      end.

Definition FrontierSigner_Sender (t : TxData) : outcome Address :=
  match t with
  | Legacy d => h ← FrontierSigner_Hash t; recoverPlain h (lt_R d) (lt_S d) (lt_V d) false
  | Access _ => Err ErrTxTypeNotSupported
  end.

Definition HomesteadSigner_Sender (t : TxData) : outcome Address :=
  match t with
  | Legacy d => h ← FrontierSigner_Hash t; recoverPlain h (lt_R d) (lt_S d) (lt_V d) true
  | Access _ => Err ErrTxTypeNotSupported
  end.

Definition EIP155Signer_Sender (chainId : Z) (t : TxData) : outcome Address :=
  if IsPrivate t then HomesteadSigner_Sender t
  else match t with
       | Access _ => Err ErrTxTypeNotSupported
       | Legacy d =>
           if negb (Protected t) then HomesteadSigner_Sender t
           else
             v ← deref (lt_V d);
             if negb (deriveChainId v =? chainId) then Err ErrInvalidChainId
             else h ← EIP155Signer_Hash chainId t; recoverPlain h (lt_R d) (lt_S d) (Some (v - chainId * 2 - 8)) true
       end.

Definition EIP2930Signer_Sender (chainId : Z) (t : TxData) : outcome Address :=
  if IsPrivate t then HomesteadSigner_Sender t
  else match t with
       | Legacy d =>
           if negb (Protected t) then HomesteadSigner_Sender t
           else
             v ← deref (lt_V d);
             if negb (deriveChainId v =? chainId) then Err ErrInvalidChainId
             else h ← EIP2930Signer_Hash chainId t; recoverPlain h (lt_R d) (lt_S d) (Some (v - chainId * 2 - 8)) true
       | Access d =>
           v ← deref (al_V d);
           id ← deref (al_ChainID d);
           if negb (id =? chainId) then Err ErrInvalidChainId
           else h ← EIP2930Signer_Hash chainId t; recoverPlain h (al_R d) (al_S d) (Some (v + 27)) true
       end.

Definition signer_Sender (s : TxSigner) (t : TxData) : outcome Address :=
  match s with
  | FrontierSigner => FrontierSigner_Sender t
  | HomesteadSigner | QuorumPrivateTxSigner => HomesteadSigner_Sender t
  | EIP155Signer c => EIP155Signer_Sender c t
  | EIP2930Signer c => EIP2930Signer_Sender c t
  end.

End Signers.

(** ** Transactions with their caches *)

(** The privacy metadata, which nothing here reads, is left out. *)
Record Transaction := mkTransaction {
  t_inner : TxData;
  t_time : Z;
  t_hash : option Hash;
  t_size : option Z;
  t_from : option (TxSigner * Address)
}.

Section Caches.
Context `{Keccak} `{Secp256k1}.

Definition NewTx (inner : TxData) (now : Z) : Transaction := mkTransaction (tx_copy inner) now None None None.

(** [UnmarshalBinary] on a fresh transaction, with [setDecoded] *)
Definition DecodeTx (b : bytes) (now : Z) : outcome Transaction :=
  inner ← UnmarshalBinary b;
  Ret (mkTransaction inner now None (if 0 <? zlen b then Some (zlen b) else None) None).

(** What [Hash] and [Size] compute. *)
Definition inner_hash (t : TxData) : Hash :=
  match t with
  | Legacy d => rlpHash c_LegacyTx d
  | Access d => prefixedRlpHash (byte_of_Z (txType t)) c_AccessListTx d
  end.

Definition inner_size (t : TxData) : Z :=
  match (match t with Legacy d => encode_val c_LegacyTx d | Access d => encode_val c_AccessListTx d end) with Ret b => zlen b | _ => 0 end.

Definition Transaction_Hash : M Transaction Hash := fun tx =>
  match t_hash tx with
  | Some h => (Ret h, tx)
  | None => let h := inner_hash (t_inner tx) in (Ret h, mkTransaction (t_inner tx) (t_time tx) (Some h) (t_size tx) (t_from tx))
  end.

Definition Transaction_Size : M Transaction Z := fun tx =>
  match t_size tx with
  | Some n => (Ret n, tx)
  | None => let n := inner_size (t_inner tx) in (Ret n, mkTransaction (t_inner tx) (t_time tx) (t_hash tx) (Some n) (t_from tx))
  end.

Definition Sender (signer : TxSigner) : M Transaction Address := fun tx =>
  match t_from tx with
  | Some (s, from) =>
      if signer_Equal s signer then (Ret from, tx)
      else match signer_Sender signer (t_inner tx) with
           | Ret addr => (Ret addr, mkTransaction (t_inner tx) (t_time tx) (t_hash tx) (t_size tx) (Some (signer, addr)))
           | Err e => (Err e, tx)
           | Panic => (Panic, tx)
           end
  | None =>
      match signer_Sender signer (t_inner tx) with
      | Ret addr => (Ret addr, mkTransaction (t_inner tx) (t_time tx) (t_hash tx) (t_size tx) (Some (signer, addr)))
      | Err e => (Err e, tx)
      | Panic => (Panic, tx)
      end
  end.

(** The [v] is changed where it is; the caches stay. *)
Definition SetPrivate : M Transaction unit := fun tx =>
  match SetPrivate_data (t_inner tx) with
  | Ret d => (Ret tt, mkTransaction d (t_time tx) (t_hash tx) (t_size tx) (t_from tx))
  | Err e => (Err e, tx)
  | Panic => (Panic, tx)
  end.

Definition WithSignature (signer : TxSigner) (sig : bytes) (tx : Transaction) : outcome Transaction :=
  '(r, s, v) ← signer_SignatureValues signer (t_inner tx) sig;
  Ret (mkTransaction (setSignatureValues (signer_ChainID signer) v r s (tx_copy (t_inner tx))) (t_time tx) None None None).

Definition SignTx (tx : Transaction) (s : TxSigner) (prv : ec_key) : outcome Transaction :=
  h ← signer_Hash s (t_inner tx);
  sig ← crypto_Sign (Hash_Bytes h) prv;
  WithSignature s sig tx.

Definition SignNewTx (prv : ec_key) (s : TxSigner) (txdata : TxData) (now : Z) : outcome Transaction := SignTx (NewTx txdata now) s prv.

(** ** Signing and recovering *)

(** What a signer can sign so that it recovers the sender: not typed
    transactions before EIP-2930, and with a chain id that neither stands for
    none nor makes [v] the mark of a private transaction. *)
Definition chain_ok (c : Z) : Prop := 0 < c /\ c mod 2 ^ 63 <> 1.

Definition signs (s : TxSigner) (d : TxData) : Prop :=
  match s, d with
  | (FrontierSigner | HomesteadSigner | QuorumPrivateTxSigner), Legacy _ => True
  | (EIP155Signer c | EIP2930Signer c), Legacy _ => chain_ok c
  | EIP2930Signer c, Access a => default 0 (al_ChainID a) = 0 \/ default 0 (al_ChainID a) = c
  | _, _ => False
  end.

Lemma BitLen_small v n : 0 <= v < 2 ^ n -> 0 <= n -> BitLen v <= n.
Proof.
  intros Hv Hn. unfold BitLen. destruct (Z.eqb_spec v 0); [lia|]. rewrite Z.abs_eq by lia. apply Z.le_succ_l, Z.log2_lt_pow2; lia.
Qed.

Lemma BitLen_le v n : 0 <= v -> 0 <= n -> BitLen v <= n -> v < 2 ^ n.
Proof.
  intros Hv Hn. unfold BitLen. destruct (Z.eqb_spec v 0) as [->|]; [lia|]. rewrite Z.abs_eq by lia. intros Hl. apply Z.log2_lt_pow2; lia.
Qed.

Lemma halfN_lt : secp256k1halfN < secp256k1N.
Proof. by vm_compute. Qed.

Lemma N_lt : secp256k1N < 256 ^ 32.
Proof. by vm_compute. Qed.

Lemma length_signature r s v : length (signature r s v) = 65%nat.
Proof. unfold signature. by rewrite !length_app, !length_be_fixed. Qed.

Lemma signature_last r s v : signature r s v !! 64%nat = Some (byte_of_Z v).
Proof.
  unfold signature. rewrite lookup_app_r by (rewrite length_be_fixed; lia). rewrite length_be_fixed.
  rewrite lookup_app_r by (rewrite length_be_fixed; lia). by rewrite length_be_fixed.
Qed.

Lemma signature_values r s v : 0 <= r < 256 ^ 32 -> 0 <= s < 256 ^ 32 ->
  be_value (take 32 (signature r s v)) = r /\ be_value (take 32 (drop 32 (signature r s v))) = s.
Proof.
  intros Hr Hs. unfold signature. rewrite take_app_length' by (by rewrite length_be_fixed). rewrite drop_app_length' by (by rewrite length_be_fixed).
  rewrite take_app_length' by (by rewrite length_be_fixed). rewrite !be_value_fixed by lia. change (256 ^ Z.of_nat 32) with (256 ^ 32). by rewrite !Z.mod_small.
Qed.

Lemma decodeSignature_signature r s v : 0 <= r < 256 ^ 32 -> 0 <= s < 256 ^ 32 ->
  decodeSignature (signature r s v) = Ret (r, s, byte_add (byte_of_Z v) 27).
Proof.
  intros Hr Hs. unfold decodeSignature. rewrite length_signature, signature_last. cbn [Nat.eqb negb].
  destruct (signature_values r s v Hr Hs) as [-> ->]. done.
Qed.

(** A signature of the library, decoded and put together again. *)
Record signed (m : bytes) (k : ec_key) (r s v : Z) : Prop := {
  sn_r : 1 <= r < secp256k1N;
  sn_s : 1 <= s <= secp256k1halfN;
  sn_v : v = 0 \/ v = 1;
  sn_recover : ec_recover m (signature r s v) = Some (ec_pubkey k)
}.

Lemma sign_signed `{!Secp256k1Laws} m k sig : ec_sign m k = Some sig -> exists r s v, sig = signature r s v /\ signed m k r s v.
Proof.
  intros Hs. destruct (ec_sign_form m k sig Hs) as (r & s & v & -> & Hr & Hs' & Hv). exists r, s, v. split; [done|]. split; try done. by apply ec_sign_recover.
Qed.

Lemma decode_signed m k r s v : signed m k r s v -> decodeSignature (signature r s v) = Ret (r, s, 27 + v).
Proof.
  intros [Hr Hs Hv _]. pose proof halfN_lt. pose proof N_lt. rewrite decodeSignature_signature by lia. unfold byte_add. by destruct Hv as [->| ->].
Qed.

Lemma byte_signed m k r s v n : signed m k r s v -> 0 <= n < 255 -> byte_add (byte_of_Z v) n = n + v /\ Z_of_byte (byte_of_Z v) = v.
Proof. intros [_ _ Hv _] Hn. unfold byte_add. rewrite Z_of_byte_of_Z. rewrite (Z.mod_small v) by lia. rewrite Z.mod_small by lia. lia. Qed.

Lemma recover_signed `{!Secp256k1Laws} h k r s v homestead Vb : signed (Hash_Bytes h) k r s v -> Vb = 27 + v \/ Vb = 37 + v ->
  recoverPlain h (Some r) (Some s) (Some Vb) homestead = Ret (pub_address (ec_pubkey k)).
Proof.
  intros [Hr Hs Hv Hrec] HV. pose proof halfN_lt. unfold recoverPlain. cbn [deref mbind outcome_bind].
  rewrite (proj2 (Z.ltb_ge 8 (BitLen Vb))) by (apply BitLen_small; lia).
  assert ((Uint64 Vb - (if isPrivate Vb then 37 else 27)) mod 256 = v) as ->.
  { unfold isPrivate. destruct HV as [->| ->], Hv as [->| ->]; done. }
  assert (ValidateSignatureValues v r s homestead = true) as ->.
  { unfold ValidateSignatureValues. rewrite (proj2 (Z.ltb_ge r 1)), (proj2 (Z.ltb_ge s 1)), (proj2 (Z.ltb_ge secp256k1halfN s)), andb_false_r by lia.
    rewrite (proj2 (Z.ltb_lt r _)), (proj2 (Z.ltb_lt s _)) by lia. by destruct Hv as [->| ->]. }
  cbn [negb]. unfold Ecrecover, checkSignature. rewrite length_signature, signature_last. unfold Hash_Bytes at 1. rewrite length_be_fixed. cbn [Nat.eqb negb mbind outcome_bind].
  rewrite (proj2 (Z.leb_gt 4 _)) by (rewrite Z_of_byte_of_Z; destruct Hv as [->| ->]; done). rewrite Hrec. cbn [mbind outcome_bind].
  destruct (ec_pubkey_form k) as [xy ->]. done.
Qed.

(** *** Protected signatures *)

Lemma chain_v c v : chain_ok c -> v = 0 \/ v = 1 ->
  deriveChainId (2 * c + 35 + v) = c /\ isProtectedV (2 * c + 35 + v) = true /\ Uint64 (2 * c + 35 + v) <> 37 /\ Uint64 (2 * c + 35 + v) <> 38.
Proof.
  intros [Hc Hm] Hv. assert (Uint64 (2 * c + 35 + v) <> 37 /\ Uint64 (2 * c + 35 + v) <> 38) as Hp.
  { unfold Uint64, u64. rewrite Z.abs_eq by lia. pose proof (Z.div_mod (2 * c + 35 + v) (2 ^ 64)). pose proof (Z.div_mod c (2 ^ 63)). pose proof (Z.mod_pos_bound c (2 ^ 63)). lia. }
  split_and!; [| |tauto|tauto].
  - unfold deriveChainId. destruct (Z.leb_spec (BitLen (2 * c + 35 + v)) 64) as [Hb|Hb].
    + apply BitLen_le in Hb; [|lia..]. unfold Uint64, u64. rewrite Z.abs_eq, Z.mod_small by lia. rewrite (proj2 (Z.eqb_neq _ 27)), (proj2 (Z.eqb_neq _ 28)) by lia. cbn [orb].
      rewrite Z.mod_small by lia. symmetry. apply (Z.div_unique_pos _ 2 c v); lia.
    + symmetry. apply (Z.div_unique_pos _ 2 c v); lia.
  - unfold isProtectedV. destruct (Z.leb_spec (BitLen (2 * c + 35 + v)) 8) as [Hb|Hb]; [|done]. apply BitLen_le in Hb; [|lia..].
    unfold Uint64, u64. rewrite Z.abs_eq, Z.mod_small by lia. by rewrite !(proj2 (Z.eqb_neq _ _)) by lia.
Qed.

(** *** The hash does not cover the signature *)

Lemma tx_copy_idem t : tx_copy (tx_copy t) = tx_copy t.
Proof. by destruct t. Qed.

Lemma hash_unsigned s c v r x t : signer_Hash s (setSignatureValues c v r x t) = signer_Hash s t.
Proof. destruct s, t; done. Qed.

Lemma hash_copy s t : exists h, signer_Hash s (tx_copy t) = Ret h.
Proof. destruct s, t; eexists; done. Qed.

Definition signed_data (s : TxSigner) (v r x : Z) (d : TxData) : TxData := setSignatureValues (signer_ChainID s) (Some v) (Some r) (Some x) (tx_copy d).

(** The [v] a signer makes of a recovery id. *)
Definition v_of (s : TxSigner) (d : TxData) (v : Z) : Z :=
  match s, d with
  | (EIP155Signer c | EIP2930Signer c), Legacy _ => 2 * c + 35 + v
  | EIP2930Signer _, Access _ => v
  | QuorumPrivateTxSigner, _ => 37 + v
  | _, _ => 27 + v
  end.

Lemma values_signed s d m k r x v : signs s d -> signed m k r x v ->
  signer_SignatureValues s (tx_copy d) (signature r x v) = Ret (Some r, Some x, Some (v_of s d v)).
Proof.
  intros Hs Hm. pose proof (decode_signed _ _ _ _ _ Hm) as Ed.
  assert (forall c l, chain_ok c -> EIP155Signer_SignatureValues c (Legacy l) (signature r x v) = Ret (Some r, Some x, Some (2 * c + 35 + v))) as H155.
  { intros c l [Hc _]. cbn [EIP155Signer_SignatureValues]. rewrite Ed. cbn [mbind outcome_bind]. rewrite (proj2 (Z.eqb_neq c 0)) by lia. rewrite signature_last.
    cbn [deref mbind outcome_bind]. rewrite (proj1 (byte_signed _ _ _ _ _ 35 Hm ltac:(lia))). do 3 f_equal. lia. }
  destruct s as [| |c|c|], d as [l|a]; try done; cbn [tx_copy signer_SignatureValues v_of EIP2930Signer_SignatureValues].
  - cbn [FrontierSigner_SignatureValues]. by rewrite Ed.
  - cbn [FrontierSigner_SignatureValues]. by rewrite Ed.
  - by apply H155.
  - by apply H155.
  - cbn [al_ChainID fresh deref mbind outcome_bind]. destruct (Z.eqb_spec (default 0 (al_ChainID a)) 0) as [E0|E0]; [|destruct (Z.eqb_spec (default 0 (al_ChainID a)) c); [|by destruct Hs]];
      cbn [negb andb]; rewrite Ed; cbn [mbind outcome_bind]; rewrite signature_last; cbn [deref mbind outcome_bind]; by rewrite (proj2 (byte_signed _ _ _ _ _ 0 Hm ltac:(lia))).
  - unfold QuorumPrivateTxSigner_SignatureValues. cbn [FrontierSigner_SignatureValues]. rewrite Ed. cbn [mbind outcome_bind]. rewrite signature_last.
    cbn [deref mbind outcome_bind]. by rewrite (proj1 (byte_signed _ _ _ _ _ 37 Hm ltac:(lia))).
Qed.

Lemma private_v v : v = 0 \/ v = 1 -> forall x, (x = v \/ x = 27 + v) -> Uint64 x <> 37 /\ Uint64 x <> 38.
Proof. by intros [->| ->] x [->| ->]. Qed.

Lemma sender_signed `{!Secp256k1Laws} s d h k r x v : signs s d -> signer_Hash s (tx_copy d) = Ret h -> signed (Hash_Bytes h) k r x v ->
  signer_Sender s (signed_data s (v_of s d v) r x d) = Ret (pub_address (ec_pubkey k)).
Proof.
  intros Hs Eh Hm. assert (v = 0 \/ v = 1) as Hv by apply Hm. unfold signed_data. rewrite <- (hash_unsigned s (signer_ChainID s) (Some (v_of s d v)) (Some r) (Some x)) in Eh.
  destruct s as [| |c|c|], d as [l|a]; try done; cbn [signer_Hash signer_Sender v_of tx_copy setSignatureValues signer_ChainID] in *.
  - cbn [FrontierSigner_Sender]. rewrite Eh. apply (recover_signed _ _ _ _ v); [done|by left].
  - cbn [HomesteadSigner_Sender]. rewrite Eh. apply (recover_signed _ _ _ _ v); [done|by left].
  - destruct (chain_v c v Hs Hv) as (Ec & Ep & H37 & H38). unfold EIP155Signer_Sender, IsPrivate, Protected. cbn [rawSignatureValues lt_V lt_R lt_S fst].
    rewrite (proj2 (Z.eqb_neq _ 37)), (proj2 (Z.eqb_neq _ 38)), Ep by done. cbn [orb negb deref mbind outcome_bind]. rewrite Ec, Z.eqb_refl. cbn [negb]. rewrite Eh. cbn [mbind outcome_bind].
    apply (recover_signed _ _ _ _ v); [done|]. left. lia.
  - destruct (chain_v c v Hs Hv) as (Ec & Ep & H37 & H38). unfold EIP2930Signer_Sender, IsPrivate, Protected. cbn [rawSignatureValues lt_V lt_R lt_S fst].
    rewrite (proj2 (Z.eqb_neq _ 37)), (proj2 (Z.eqb_neq _ 38)), Ep by done. cbn [orb negb deref mbind outcome_bind]. rewrite Ec, Z.eqb_refl. cbn [negb]. rewrite Eh. cbn [mbind outcome_bind].
    apply (recover_signed _ _ _ _ v); [done|]. left. lia.
  - destruct (private_v v Hv v (or_introl eq_refl)) as [H37 H38]. unfold EIP2930Signer_Sender, IsPrivate. cbn [rawSignatureValues al_V al_R al_S fst].
    rewrite (proj2 (Z.eqb_neq _ 37)), (proj2 (Z.eqb_neq _ 38)) by done. cbn [orb al_ChainID deref mbind outcome_bind]. rewrite Z.eqb_refl. cbn [negb]. rewrite Eh. cbn [mbind outcome_bind].
    apply (recover_signed _ _ _ _ v); [done|]. left. lia.
  - cbn [HomesteadSigner_Sender]. rewrite Eh. apply (recover_signed _ _ _ _ v); [done|by right].
Qed.

Lemma SignNewTx_signed `{!Secp256k1Laws} k s d now h sig : signs s d -> signer_Hash s (tx_copy d) = Ret h -> ec_sign (Hash_Bytes h) k = Some sig ->
  exists r x v, SignNewTx k s d now = Ret (mkTransaction (signed_data s (v_of s d v) r x d) now None None None) /\ signed (Hash_Bytes h) k r x v.
Proof.
  intros Hs Eh Esig. destruct (sign_signed _ _ _ Esig) as (r & x & v & -> & Hm). exists r, x, v. split; [|done].
  unfold SignNewTx, SignTx, NewTx. cbn [t_inner]. rewrite Eh. cbn [mbind outcome_bind]. unfold crypto_Sign. unfold Hash_Bytes at 1. rewrite length_be_fixed. change (HashLength =? 32)%nat with true. rewrite Esig.
  cbn [negb mbind outcome_bind]. unfold WithSignature. cbn [t_inner t_time].
  rewrite (values_signed s d _ k r x v Hs Hm). cbn [mbind outcome_bind]. by rewrite tx_copy_idem.
Qed.


(** *** Other chains *)

(** Signers that bind a transaction to their chain. *)
Definition protects (s : TxSigner) (d : TxData) (c : Z) : Prop := signer_ChainID s = Some c /\ signs s d.

Lemma homestead_refuses_v c v : chain_ok c -> v = 0 \/ v = 1 -> forall h r x b, recoverPlain h (Some r) (Some x) (Some (2 * c + 35 + v)) b = Err ErrInvalidSig.
Proof.
  intros Hc Hv h r x b. destruct (chain_v c v Hc Hv) as (_ & _ & H37 & H38). destruct Hc as [Hc _]. unfold recoverPlain. cbn [deref mbind outcome_bind].
  destruct (Z.ltb_spec 8 (BitLen (2 * c + 35 + v))) as [|Hb]; [done|]. apply BitLen_le in Hb; [|lia..].
  assert (Uint64 (2 * c + 35 + v) = 2 * c + 35 + v) as Eu by (unfold Uint64, u64; rewrite Z.abs_eq, Z.mod_small; lia). rewrite Eu in *.
  assert (isPrivate (2 * c + 35 + v) = false) as -> by (unfold isPrivate; by rewrite !(proj2 (Z.eqb_neq _ _)) by lia).
  assert (ValidateSignatureValues ((2 * c + 35 + v - 27) mod 256) r x b = false) as ->; [|done].
  unfold ValidateSignatureValues. rewrite Z.mod_small by lia. rewrite !(proj2 (Z.eqb_neq _ _)) by lia. rewrite !andb_false_r. by repeat case_match.
Qed.


(** ** The caches *)

Inductive read := RHash | RSize | RSender (s : TxSigner).

Definition read_one (r : read) : M Transaction Z :=
  match r with RHash => Transaction_Hash | RSize => Transaction_Size | RSender s => Sender s end.

(** A sequence of reads; an error of one does not stop the others. *)
Fixpoint read_all (rs : list read) (tx : Transaction) : list (outcome Z) * Transaction :=
  match rs with
  | [] => ([], tx)
  | r :: rs' => let '(a, tx') := read_one r tx in let '(l, tx'') := read_all rs' tx' in (a :: l, tx'')
  end.

(** What the data says; a size that came with the data is kept. *)
Definition plain_read (tx : Transaction) (r : read) : outcome Z :=
  match r with
  | RHash => Ret (inner_hash (t_inner tx))
  | RSize => Ret (default (inner_size (t_inner tx)) (t_size tx))
  | RSender s => signer_Sender s (t_inner tx)
  end.

Record coherent (tx : Transaction) : Prop := {
  co_hash h : t_hash tx = Some h -> h = inner_hash (t_inner tx);
  co_from s a : t_from tx = Some (s, a) -> signer_Sender s (t_inner tx) = Ret a
}.

Lemma signer_Equal_eq s s' : signer_Equal s s' = true -> s = s'.
Proof. destruct s, s'; try done; cbn; by intros ->%Z.eqb_eq. Qed.

Lemma read_one_plain r tx : coherent tx -> exists tx', read_one r tx = (plain_read tx r, tx') /\ coherent tx' /\ t_inner tx' = t_inner tx /\ forall r', plain_read tx' r' = plain_read tx r'.
Proof.
  intros [Hh Hf]. destruct r as [| |s]; cbn [read_one plain_read].
  - unfold Transaction_Hash. destruct (t_hash tx) as [h|] eqn:E.
    + rewrite (Hh h eq_refl). exists tx. split; [done|]. split; [split; [by rewrite E|done]|done].
    + eexists. split; [done|]. split; [split; [by intros h [= <-]|done]|done].
  - unfold Transaction_Size. destruct (t_size tx) as [n|] eqn:E; [by exists tx|].
    eexists. split; [done|]. split; [done|]. split; [done|]. intros [| |s]; cbn [plain_read t_inner t_size]; try done. by rewrite E.
  - unfold Sender. assert (exists tx', match signer_Sender s (t_inner tx) with
        | Ret addr => (Ret addr, mkTransaction (t_inner tx) (t_time tx) (t_hash tx) (t_size tx) (Some (s, addr)))
        | Err e => (Err e, tx) | Panic => (Panic, tx) end = (signer_Sender s (t_inner tx), tx') /\ coherent tx' /\ t_inner tx' = t_inner tx /\ forall r', plain_read tx' r' = plain_read tx r') as Hc.
    { destruct (signer_Sender s (t_inner tx)) as [a|e|] eqn:E; eexists; (split; [done|]); try done. split; [|done]. split; [done|]. by intros ? ? [= <- <-]. }
    destruct (t_from tx) as [[s0 a]|] eqn:Ef; [|exact Hc]. destruct (signer_Equal s0 s) eqn:Es; [|exact Hc].
    apply signer_Equal_eq in Es as ->. rewrite (Hf s a eq_refl). exists tx. split; [done|]. split; [split; [done|by rewrite Ef]|done].
Qed.

(** A transaction that was built, decoded or signed
    answers any sequence of calls of [Hash], [Size] and [Sender], with any
    signers, as if nothing were cached: the cached sender is used only for the
    signer it was derived with, and a failed derivation is not cached. *)
Theorem caches_transparent (rs : list read) (tx : Transaction) (Hc : coherent tx) :
  (read_all rs tx).1 = map (plain_read tx) rs /\ coherent (read_all rs tx).2 /\ t_inner (read_all rs tx).2 = t_inner tx.
Proof.
  revert tx Hc. induction rs as [|r rs IH]; intros tx Hc; [done|]. cbn [read_all]. destruct (read_one_plain r tx Hc) as (tx' & -> & Hc' & Ei & Hp).
  destruct (IH tx' Hc') as (E & Hco & Ei'). destruct (read_all rs tx') as [l tx2]. cbn [fst snd] in *. split; [|split; [done|congruence]].
  cbn [map]. f_equal. rewrite E. apply map_ext. exact Hp.
Qed.

Lemma fresh_coherent inner now size : coherent (mkTransaction inner now None size None).
Proof. done. Qed.

Lemma SetPrivate_private tx : (SetPrivate tx).1 = Ret tt -> IsPrivate (t_inner (SetPrivate tx).2) = true.
Proof.
  unfold SetPrivate, SetPrivate_data. destruct (IsPrivate (t_inner tx)) eqn:Ep; [done|].
  destruct ((rawSignatureValues (t_inner tx)).1.1) as [v|]; [|done]. cbn [deref mbind outcome_bind snd t_inner]. intros _.
  unfold IsPrivate. destruct (t_inner tx); cbn; by destruct (_ =? 28).
Qed.

(** ** Sizes *)

Lemma bigint_set z : c_ok c_bigint z -> fresh z = z.
Proof. by intros (i & -> & _). Qed.

Lemma tx_ok_copy t : tx_ok t -> tx_copy t = t.
Proof.
  destruct t as [d|d]; cbn [tx_ok tx_copy].
  - intros (_ & Hp & _ & _ & Hw & _ & Hv & Hr & Hs & _). apply bigint_set in Hp, Hw, Hv, Hr, Hs. destruct d. cbn in *. congruence.
  - intros [(Hc & _ & Hp & _ & _ & Hw & _ & _ & Hv & Hr & Hs & _) _]. apply bigint_set in Hc, Hp, Hw, Hv, Hr, Hs. destruct d. cbn in *. congruence.
Qed.

(** The size of a legacy transaction is the length of its
    encoding whether it was decoded or built.  That of an access-list
    transaction counts the type byte only if it was decoded. *)
Theorem size_of_typed (b : bytes) (now : Z) (tx : Transaction) (Hb : zlen b < 2 ^ 63) (Hd : DecodeTx b now = Ret tx) :
  (Transaction_Size tx).1 = Ret (zlen b) /\
  (Transaction_Size (NewTx (t_inner tx) now)).1 = Ret (match t_inner tx with Legacy _ => zlen b | Access _ => zlen b - 1 end).
Proof.
  unfold DecodeTx in Hd. apply outcome_bind_Ret in Hd as (inner & Hu & [= <-]). cbn [t_inner].
  destruct (UnmarshalBinary_inv b inner Hb Hu) as (Hok & _ & Em).
  assert (0 < zlen b) as Hpos by (destruct b; [done|unfold zlen; cbn; lia]). rewrite (proj2 (Z.ltb_lt _ _) Hpos). split; [done|].
  unfold Transaction_Size, NewTx. cbn [t_size t_inner fst]. rewrite (tx_ok_copy inner Hok). f_equal. unfold inner_size.
  destruct inner as [l|a]; cbn [MarshalBinary encodeTyped] in Em; [by rewrite Em|]. unfold encodeTyped in Em. apply outcome_bind_Ret in Em as (b' & -> & [= <-]).
  unfold zlen. cbn [length]. lia.
Qed.

End Caches.

(** ** Examples *)

(** A scheme that shows the key, for evaluation. *)
Definition sample_secp : Secp256k1 := {|
  ec_key := Z;
  ec_pubkey k := x04 :: be_fixed 32 (k mod 1000);
  ec_sign m k := Some (signature (1 + k mod 1000) (1 + be_value m mod 1000) 1);
  ec_recover m sig :=
    if be_value (take 32 (drop 32 sig)) =? 1 + be_value m mod 1000 then Some (x04 :: be_fixed 32 (be_value (take 32 sig) - 1)) else None
|}.

Lemma sample_secp_laws : @Secp256k1Laws sample_secp.
Proof.
  assert (forall z, 0 <= z mod 1000 < 1000) as Hm by (intros z; apply Z.mod_pos_bound; lia).
  assert (1000 < secp256k1halfN) as Hh by by vm_compute. pose proof halfN_lt. split.
  - intros m k sig [= <-]. eexists _, _, _. split; [done|]. specialize (Hm k) as Hk. specialize (Hm (be_value m)) as Hb. lia.
  - intros m k sig [= <-]. cbn [ec_recover sample_secp]. specialize (Hm k) as Hk. specialize (Hm (be_value m)) as Hb.
    destruct (signature_values (1 + k mod 1000) (1 + be_value m mod 1000) 1) as [-> ->]; [pose proof N_lt; lia..|].
    rewrite Z.eqb_refl. by replace (1 + k mod 1000 - 1) with (k mod 1000) by lia.
  - intros k. by eexists.
Qed.

Section Witnesses.
#[local] Existing Instance sample_keccak.
#[local] Existing Instance sample_secp.
#[local] Existing Instance sample_secp_laws.

Definition sample_ec_key : @ec_key sample_secp := 42.

Definition sample_legacy : TxData := Legacy (mkLegacyTx 3 (Some 20) 21000 (Some 0xabcd) (Some 1000) [x01; x02] None None None).
Definition sample_access : TxData := Access (mkAccessListTx None 4 (Some 20) 21000 None (Some 5) [] [mkAccessTuple 7 [1; 2]] None None None).

Lemma sample_chain : chain_ok 1337.
Proof. by split. Qed.


Definition sample_signed : Transaction := match SignNewTx sample_ec_key (EIP155Signer 1337) sample_legacy 0 with Ret tx => tx | _ => NewTx sample_legacy 0 end.


Lemma sample_coherent : coherent sample_signed.
Proof.
  assert (t_hash sample_signed = None /\ t_from sample_signed = None) as [Eh Ef] by (by vm_compute). split; [by rewrite Eh|by rewrite Ef].
Qed.

Lemma caches_transparent_witness : let rs := [RSender (EIP155Signer 1337); RHash; RSender (EIP155Signer 7); RSize; RSender (EIP155Signer 1337)] in
  (read_all rs sample_signed).1 = map (plain_read sample_signed) rs.
Proof. apply (caches_transparent [RSender (EIP155Signer 1337); RHash; RSender (EIP155Signer 7); RSize; RSender (EIP155Signer 1337)] sample_signed sample_coherent). Defined.

Definition sample_wire : bytes := match MarshalBinary (tx_copy sample_access) with Ret b => b | _ => [] end.
Definition sample_received : Transaction := match DecodeTx sample_wire 0 with Ret tx => tx | _ => NewTx sample_access 0 end.

Lemma size_of_typed_witness : (Transaction_Size sample_received).1 = Ret (zlen sample_wire).
Proof. refine (proj1 (size_of_typed sample_wire 0 sample_received _ _)); vm_compute; reflexivity. Defined.

End Witnesses.
