(* ===== verification/ChainConfig.v ===== *)
(** * Chain configurations ([params/config.go])

    The fork blocks and transitions of a chain, the rules they give at a block,
    and the checks on a configuration: the order of forks and transitions, and
    whether a new configuration leaves the past of a chain alone.  A [*big.Int]
    is an option; the strings of a configuration are ASCII.  The settings of
    the consensus engines are modelled as far as these functions read them. *)
From Stdlib Require Import ZArith Lia.
From stdpp Require Import base option list strings.
From S2P Require Import Prelude Errors Common.
Open Scope Z_scope.

(** ** Data *)

(** A pointer that is compared as one: its address and what it points to. *)
Record pointer A := mkPointer { p_addr : Z; p_value : A }.
Arguments mkPointer {A}.
Arguments p_addr {A}.
Arguments p_value {A}.

Record MaxCodeConfigStruct := mkMaxCode { mc_Block : option Z; mc_Size : Z }.

Record IstanbulConfig := mkIstanbul { ic_Ceil2Nby3Block : option Z; ic_TestQBFTBlock : option Z }.

Record QBFTConfig := mkQBFT { qb_BlockReward : option Z; qb_BeneficiaryMode : option string; qb_MiningBeneficiary : option Address }.

Record Transition := mkTransition {
  tr_Block : option Z;
  tr_Algorithm : string;
  tr_EpochLength : Z;
  tr_BlockPeriodSeconds : Z;
  tr_EmptyBlockPeriodSeconds : option Z;
  tr_RequestTimeoutSeconds : Z;
  tr_ContractSizeLimit : Z;
  tr_ValidatorContractAddress : Address;
  tr_Validators : list Address;
  tr_ValidatorSelectionMode : string;
  tr_EnhancedPermissioningEnabled : option bool;
  tr_PrivacyEnhancementsEnabled : option bool;
  tr_PrivacyPrecompileEnabled : option bool;
  tr_GasPriceEnabled : option bool;
  tr_MinerGasLimit : Z;
  tr_TwoFPlusOneEnabled : option (pointer bool);
  tr_TransactionSizeLimit : Z;
  tr_BlockReward : option Z;
  tr_BeneficiaryMode : option string;
  tr_MiningBeneficiary : option Address
}.

Record ChainConfig := mkChainConfig {
  cc_ChainID : option Z;
  cc_HomesteadBlock : option Z;
  cc_DAOForkBlock : option Z;
  cc_DAOForkSupport : bool;
  cc_EIP150Block : option Z;
  cc_EIP155Block : option Z;
  cc_EIP158Block : option Z;
  cc_ByzantiumBlock : option Z;
  cc_ConstantinopleBlock : option Z;
  cc_PetersburgBlock : option Z;
  cc_IstanbulBlock : option Z;
  cc_MuirGlacierBlock : option Z;
  cc_BerlinBlock : option Z;
  cc_YoloV3Block : option Z;
  cc_EWASMBlock : option Z;
  cc_CatalystBlock : option Z;
  cc_Istanbul : option IstanbulConfig;
  cc_QBFT : option QBFTConfig;
  cc_Transitions : list Transition;
  cc_IsQuorum : bool;
  cc_TransactionSizeLimit : Z;
  cc_MaxCodeSize : Z;
  cc_QIP714Block : option Z;
  cc_MaxCodeSizeChangeBlock : option Z;
  cc_MaxCodeSizeConfig : list MaxCodeConfigStruct;
  cc_PrivacyEnhancementsBlock : option Z;
  cc_PrivacyPrecompileBlock : option Z;
  cc_EnableGasPriceBlock : option Z
}.

(** ** Forks *)

(** [Cmp] of two [*big.Int]: a nil one is dereferenced unless both are. *)
Definition big_Cmp (x y : option Z) : outcome comparison :=
  match x, y with
  | None, None => Ret Eq
  | Some x, Some y => Ret (x ?= y)
  | _, _ => Panic
  end.

Definition isForked (s head : option Z) : bool :=
  match s, head with
  | Some s, Some head => s <=? head
  | _, _ => false
  end.

Definition configNumEqual (x y : option Z) : bool :=
  match x, y with
  | None, None => true
  | Some x, Some y => x =? y
  | _, _ => false
  end.

Definition isForkIncompatible (s1 s2 head : option Z) : bool := (isForked s1 head || isForked s2 head) && negb (configNumEqual s1 s2).

Section Forks.
Implicit Types (c newcfg : ChainConfig) (num : option Z).

Definition IsHomestead c num : bool := isForked (cc_HomesteadBlock c) num.
Definition IsDAOFork c num : bool := isForked (cc_DAOForkBlock c) num.
Definition IsEIP150 c num : bool := isForked (cc_EIP150Block c) num.
Definition IsEIP155 c num : bool := isForked (cc_EIP155Block c) num.
Definition IsEIP158 c num : bool := isForked (cc_EIP158Block c) num.
Definition IsByzantium c num : bool := isForked (cc_ByzantiumBlock c) num.
Definition IsConstantinople c num : bool := isForked (cc_ConstantinopleBlock c) num.
Definition IsMuirGlacier c num : bool := isForked (cc_MuirGlacierBlock c) num.

Definition IsPetersburg c num : bool :=
  isForked (cc_PetersburgBlock c) num || (match cc_PetersburgBlock c with None => true | Some _ => false end && isForked (cc_ConstantinopleBlock c) num).

Definition IsIstanbul c num : bool := isForked (cc_IstanbulBlock c) num.
Definition IsBerlin c num : bool := isForked (cc_BerlinBlock c) num || isForked (cc_YoloV3Block c) num.
Definition IsCatalyst c num : bool := isForked (cc_CatalystBlock c) num.
Definition IsEWASM c num : bool := isForked (cc_EWASMBlock c) num.

(** ** Transitions *)

(** The loop of [GetTransitionValue]; the callback updates a variable. *)
Fixpoint transition_loop {A} (ts : list Transition) (num : Z) (f : A -> Transition -> A) (v : A) : outcome A :=
  match ts with
  | [] => Ret v
  | t :: ts' =>
      r ← big_Cmp (tr_Block t) (Some num);
      match r with Gt => Ret v | _ => transition_loop ts' num f (f v t) end
  end.

Definition GetTransitionValue {A} c num (f : A -> Transition -> A) (v : A) : outcome A :=
  match num with
  | Some num => transition_loop (cc_Transitions c) num f v
  | None => Ret v
  end.

(** A callback that takes over a value which is set. *)
Definition if_set {A} (field : Transition -> option A) (v : A) (t : Transition) : A := default v (field t).
Definition if_nonzero (field : Transition -> Z) (v : Z) (t : Transition) : Z := if field t =? 0 then v else field t.

Definition IsQIP714 c num : outcome bool :=
  enabled ← GetTransitionValue c num (if_set tr_EnhancedPermissioningEnabled) false;
  Ret (isForked (cc_QIP714Block c) num || enabled).

Definition IsPrivacyEnhancementsEnabled c num : outcome bool :=
  enabled ← GetTransitionValue c num (if_set tr_PrivacyEnhancementsEnabled) false;
  Ret (isForked (cc_PrivacyEnhancementsBlock c) num || enabled).

Definition IsPrivacyPrecompileEnabled c num : outcome bool :=
  enabled ← GetTransitionValue c num (if_set tr_PrivacyPrecompileEnabled) false;
  Ret (isForked (cc_PrivacyPrecompileBlock c) num || enabled).

Definition IsGasPriceEnabled c num : outcome bool :=
  enabled ← GetTransitionValue c num (if_set tr_GasPriceEnabled) false;
  Ret (isForked (cc_EnableGasPriceBlock c) num || enabled).

Definition GetTransactionSizeLimit c num : outcome Z :=
  limit ← GetTransitionValue c num (fun _ t => tr_TransactionSizeLimit t) 0;
  let limit := if limit =? 0 then cc_TransactionSizeLimit c else limit in
  Ret (if limit =? 0 then 64 else limit).

Definition GetMinerMinGasLimit c num (defaultValue : Z) : outcome Z := GetTransitionValue c num (if_nonzero tr_MinerGasLimit) defaultValue.

Definition GetBlockReward c num : outcome Z :=
  GetTransitionValue c num (if_set tr_BlockReward) (default 0 (q ← cc_QBFT c; qb_BlockReward q)).

(** [params.MaxCodeSize] *)
Definition MaxCodeSize : Z := 24576.

Fixpoint code_size_loop (l : list MaxCodeConfigStruct) (num : option Z) (size : Z) : outcome Z :=
  match l with
  | [] => Ret size
  | d :: l' =>
      r ← big_Cmp (mc_Block d) num;
      match r with Gt => Ret size | _ => code_size_loop l' num (i64 (i64 (mc_Size d) * 1024)) end
  end.

Definition GetMaxCodeSize c num : outcome Z :=
  size ← (match cc_MaxCodeSizeConfig c with
          | [] =>
              Ret (if 0 <? cc_MaxCodeSize c then
                     match cc_MaxCodeSizeChangeBlock c with
                     | Some b => if 0 <=? b then (if isForked (Some b) num then i64 (i64 (cc_MaxCodeSize c) * 1024) else MaxCodeSize)
                                 else i64 (i64 (cc_MaxCodeSize c) * 1024)
                     | None => i64 (i64 (cc_MaxCodeSize c) * 1024)
                     end
                   else MaxCodeSize)
          | l => code_size_loop l num MaxCodeSize
          end);
  GetTransitionValue c num (fun v t => if tr_ContractSizeLimit t =? 0 then v else i64 (i64 (tr_ContractSizeLimit t) * 1024)) size.

(** [strings.ToLower] and [strings.EqualFold] on ASCII. *)
Definition lower_ascii (a : Ascii.ascii) : Ascii.ascii :=
  let n := Ascii.nat_of_ascii a in
  if (65 <=? n)%nat && (n <=? 90)%nat then Ascii.ascii_of_nat (n + 32) else a.

Fixpoint ToLower (s : string) : string :=
  match s with
  | EmptyString => EmptyString
  | String.String a s' => String.String (lower_ascii a) (ToLower s')
  end.

Definition EqualFold (s t : string) : bool := bool_decide (ToLower s = ToLower t).

(** The variables of [GetRewardAccount]. *)
Definition reward_callback (v : Address * string) (t : Transition) : Address * string :=
  let v := match tr_BeneficiaryMode t with
           | Some m => if bool_decide (m = "validators") || bool_decide (m = "validator") then (v.1, "validator") else v
           | None => v
           end in
  match tr_MiningBeneficiary t with
  | Some a => if match tr_BeneficiaryMode t with None => true | Some m => bool_decide (m = "fixed") end then (a, "fixed") else v
  | None => v
  end.

Definition GetRewardAccount c num (coinbase : Address) : outcome Address :=
  let v := match q ← cc_QBFT c; qb_MiningBeneficiary q with Some a => (a, "fixed") | None => (0, "validator") end in
  let v := match q ← cc_QBFT c; qb_BeneficiaryMode q with Some m => (v.1, m) | None => v end in
  v ← GetTransitionValue c num reward_callback v;
  if bool_decide (ToLower v.2 = "fixed") then Ret v.1
  else if bool_decide (ToLower v.2 = "validator") then Ret coinbase
  else Err (ErrFmt "BeneficiaryMode must be coinbase|fixed").

(** ** Checks on a configuration *)

Definition IsValid c : option error :=
  if (cc_TransactionSizeLimit c <? 32) || (128 <? cc_TransactionSizeLimit c) then Some (ErrFmt "Genesis transaction size limit must be between 32 and 128")
  else if negb (cc_MaxCodeSize c =? 0) && ((cc_MaxCodeSize c <? 24) || (128 <? cc_MaxCodeSize c)) then Some (ErrFmt "Genesis max code size must be between 24 and 128")
  else None.

Fixpoint max_code_loop (l : list MaxCodeConfigStruct) (prevBlock : Z) : option error :=
  match l with
  | [] => None
  | d :: l' =>
      if (mc_Size d <? 24) || (128 <? mc_Size d) then Some (ErrFmt "Genesis max code size must be between 24 and 128")
      else match mc_Block d with
           | None => Some (ErrFmt "Block number not given in maxCodeSizeConfig data")
           | Some block => if block <? prevBlock then Some (ErrFmt "invalid maxCodeSize detail, block order has to be ascending") else max_code_loop l' block
           end
  end.

Definition CheckMaxCodeConfigData c : option error :=
  if negb (cc_MaxCodeSize c =? 0) || match cc_MaxCodeSizeChangeBlock c with Some b => 0 <=? b | None => false end
  then Some (ErrFmt "maxCodeSize & maxCodeSizeChangeBlock deprecated. Consider using maxCodeSizeConfig")
  else max_code_loop (cc_MaxCodeSizeConfig c) 0.

(** [params/errors.go] *)
Definition ErrTransitionAlgorithm := ErrFmt "transition algorithm is invalid, should be either `ibft` or `qbft`".
Definition ErrBlockNumberMissing := ErrFmt "block number not given in transitions data".
Definition ErrBlockOrder := ErrFmt "block order should be ascending".
Definition ErrTransition := ErrFmt "can't transition from qbft to ibft".
Definition ErrTestQBFTBlockAndTransitions := ErrFmt "can't use transition algorithm and testQBFTBlock at the same time".
Definition ErrMaxCodeSizeConfigAndTransitions := ErrFmt "can't use transition ContractSizeLimit and MaxCodeSizeConfig at the same time".
Definition ErrContractSizeLimit := ErrFmt "transition contract code size must be between 24 and 128".
Definition ErrValidatorSelectionMode := ErrFmt "validator selection mode is invalid, should be either `contract` or `blockheader`".
Definition ErrMissingValidatorSelectionMode := ErrFmt "validator selection mode is missing, should specify `contract` when using validatorcontractaddress".
Definition ErrTransactionSizeLimit := ErrFmt "genesis transaction size limit must be between 32 and 128".
Definition ErrBeneficiaryMode := ErrFmt "beneficiary mode is not valid".
Definition ErrTransitionIncompatible (field : string) : error := ErrFmt ("transitions." +:+ field +:+ " data incompatible. " +:+ field +:+ " historical data does not match").

(** The checks of one transition; [isQBFT] is the flag after it. *)
Definition transition_error c (t : Transition) (isQBFT : bool) (prevBlock : Z) : option error :=
  let ibft := EqualFold (tr_Algorithm t) "ibft" in
  let qbft := EqualFold (tr_Algorithm t) "qbft" in
  let contract := bool_decide (tr_ValidatorSelectionMode t = "contract") in
  if negb (bool_decide (tr_Algorithm t = EmptyString)) && negb ibft && negb qbft then Some ErrTransitionAlgorithm
  else if negb (bool_decide (tr_ValidatorSelectionMode t = EmptyString)) && negb contract && negb (bool_decide (tr_ValidatorSelectionMode t = "blockheader")) then Some ErrValidatorSelectionMode
  else if match i ← cc_Istanbul c; ic_TestQBFTBlock i with Some _ => true | None => false end && (ibft || qbft) then Some ErrTestQBFTBlockAndTransitions
  else if match cc_MaxCodeSizeConfig c with [] => false | _ => true end && negb (tr_ContractSizeLimit t =? 0) then Some ErrMaxCodeSizeConfigAndTransitions
  else match tr_Block t with
       | None => Some ErrBlockNumberMissing
       | Some block =>
           if block <? prevBlock then Some ErrBlockOrder
           else if (isQBFT || qbft) && ibft then Some ErrTransition
           else if negb (tr_ContractSizeLimit t =? 0) && ((tr_ContractSizeLimit t <? 24) || (128 <? tr_ContractSizeLimit t)) then Some ErrContractSizeLimit
           else if negb (tr_ValidatorContractAddress t =? 0) && negb contract then Some ErrMissingValidatorSelectionMode
           else if (negb (tr_TransactionSizeLimit t =? 0) && (tr_TransactionSizeLimit t <? 32)) || (128 <? tr_TransactionSizeLimit t) then Some ErrTransactionSizeLimit
           else match tr_BeneficiaryMode t with
                | Some m => if negb (bool_decide (m = "fixed")) && negb (bool_decide (m = "validators")) && negb (bool_decide (m = EmptyString)) && negb (bool_decide (m = "list")) then Some ErrBeneficiaryMode else None
                | None => None
                end
       end.

Fixpoint transitions_loop c (ts : list Transition) (isQBFT : bool) (prevBlock : Z) : option error :=
  match ts with
  | [] => None
  | t :: ts' =>
      match transition_error c t isQBFT prevBlock with
      | Some e => Some e
      | None => transitions_loop c ts' (isQBFT || EqualFold (tr_Algorithm t) "qbft") (default 0 (tr_Block t))
      end
  end.

Definition CheckTransitionsData c : option error :=
  transitions_loop c (cc_Transitions c) (match cc_QBFT c with Some _ => true | None => false end) 0.

(** [CheckConfigForkOrder]: the forks in order, which of them are optional, and
    the last one that counts. *)
Record fork := mkFork { fk_name : string; fk_block : option Z; fk_optional : bool }.

Definition forks_of c : list fork :=
  [mkFork "homesteadBlock" (cc_HomesteadBlock c) false; mkFork "daoForkBlock" (cc_DAOForkBlock c) true; mkFork "eip150Block" (cc_EIP150Block c) false;
   mkFork "eip155Block" (cc_EIP155Block c) false; mkFork "eip158Block" (cc_EIP158Block c) false; mkFork "byzantiumBlock" (cc_ByzantiumBlock c) false;
   mkFork "constantinopleBlock" (cc_ConstantinopleBlock c) false; mkFork "petersburgBlock" (cc_PetersburgBlock c) false; mkFork "istanbulBlock" (cc_IstanbulBlock c) false;
   mkFork "muirGlacierBlock" (cc_MuirGlacierBlock c) true; mkFork "berlinBlock" (cc_BerlinBlock c) false].

Fixpoint fork_order_loop (forks : list fork) (lastFork : option fork) : option error :=
  match forks with
  | [] => None
  | cur :: forks' =>
      match match lastFork with
            | None => None
            | Some lastFork =>
                match fk_block lastFork, fk_block cur with
                | None, Some _ => Some (ErrFmt "unsupported fork ordering: %v not enabled, but %v enabled at %v")
                | Some l, Some b => if b <? l then Some (ErrFmt "unsupported fork ordering: %v enabled at %v, but %v enabled at %v") else None
                | _, _ => None
                end
            end with
      | Some e => Some e
      | None => fork_order_loop forks' (if negb (fk_optional cur) || match fk_block cur with Some _ => true | None => false end then Some cur else lastFork)
      end
  end.

Definition CheckConfigForkOrder c : option error := fork_order_loop (forks_of c) None.
End Forks.

(** ** Compatible configurations *)

Record ConfigCompatError := mkCompatError { ce_What : string; ce_StoredConfig : option Z; ce_NewConfig : option Z; ce_RewindTo : Z }.

Definition newCompatError (what : string) (storedblock newblock : option Z) : ConfigCompatError :=
  let rew := match storedblock, newblock with
             | None, _ => newblock
             | Some s, None => Some s
             | Some s, Some n => if s <? n then Some s else Some n
             end in
  mkCompatError what storedblock newblock (match rew with Some r => if 0 <? r then u64 (u64 r - 1) else 0 | None => 0 end).

(** The first check that fails. *)
Fixpoint first_of {A} (checks : list (option A)) : option A :=
  match checks with
  | [] => None
  | Some e :: _ => Some e
  | None :: checks' => first_of checks'
  end.

(** The records at or below the head, up to the first above it. *)
Fixpoint below_head {A} (block : A -> option Z) (l : list A) (head : Z) : outcome nat :=
  match l with
  | [] => Ret 0%nat
  | d :: l' =>
      r ← big_Cmp (block d) (Some head);
      match r with Gt => Ret 0%nat | _ => n ← below_head block l' head; Ret (S n) end
  end.

(** The first [n] records of both are compared. *)
Fixpoint past_loop {A} (differ : A -> A -> outcome (option error)) (l1 l2 : list A) (n : nat) : outcome (option error) :=
  match n with
  | O => Ret None
  | S n' =>
      match l1, l2 with
      | d1 :: l1', d2 :: l2' =>
          r ← differ d1 d2;
          match r with Some e => Ret (Some e) | None => past_loop differ l1' l2' n' end
      | _, _ => Panic
      end
  end.

(** Shared by the two checks; both return the head as block on an error. *)
Definition past_compatible {A} (block : A -> option Z) (missing updating : error) (differ : A -> A -> outcome (option error)) (l1 l2 : list A) (head : Z) : outcome (option error * Z * Z) :=
  match l1, l2 with
  | [], [] => Ret (None, 0, 0)
  | _ :: _, [] => Ret (Some missing, head, head)
  | [], _ :: _ => Ret (None, 0, 0)
  | _, _ =>
      n1 ← below_head block l1 head;
      n2 ← below_head block l2 head;
      if negb (n1 =? n2)%nat then Ret (Some updating, head, head)
      else
        r ← past_loop differ l1 l2 n1;
        match r with Some e => Ret (Some e, head, head) | None => Ret (None, 0, 0) end
  end.

Definition code_sizes_differ (d1 d2 : MaxCodeConfigStruct) : outcome (option error) :=
  r ← big_Cmp (mc_Block d1) (mc_Block d2);
  Ret (if match r with Eq => false | _ => true end || negb (mc_Size d1 =? mc_Size d2)
       then Some (ErrFmt "maxCodeSizeConfig data incompatible. maxCodeSize historical data does not match") else None).

Definition isMaxCodeSizeConfigCompatible (c1 c2 : ChainConfig) (head : Z) : outcome (option error * Z * Z) :=
  past_compatible mc_Block (ErrFmt "genesis file missing max code size information") (ErrFmt "maxCodeSizeConfig data incompatible. updating maxCodeSize for past")
    code_sizes_differ (cc_MaxCodeSizeConfig c1) (cc_MaxCodeSizeConfig c2) head.

Definition same_pointer {A} (p q : option (pointer A)) : bool :=
  match p, q with
  | None, None => true
  | Some p, Some q => p_addr p =? p_addr q
  | _, _ => false
  end.

Definition transitions_differ (t1 t2 : Transition) : outcome (option error) :=
  r ← big_Cmp (tr_Block t1) (tr_Block t2);
  let isSameBlock := match r with Eq => false | _ => true end in
  let differs (field : string) (b : bool) := if isSameBlock || b then Some (ErrTransitionIncompatible field) else None in
  Ret (first_of
    [differs "Algorithm" (negb (bool_decide (tr_Algorithm t1 = tr_Algorithm t2)));
     differs "BlockPeriodSeconds" (negb (tr_BlockPeriodSeconds t1 =? tr_BlockPeriodSeconds t2));
     differs "RequestTimeoutSeconds" (negb (tr_RequestTimeoutSeconds t1 =? tr_RequestTimeoutSeconds t2));
     differs "EpochLength" (negb (tr_EpochLength t1 =? tr_EpochLength t2));
     differs "ContractSizeLimit" (negb (tr_ContractSizeLimit t1 =? tr_ContractSizeLimit t2));
     differs "ValidatorContractAddress" (negb (tr_ValidatorContractAddress t1 =? tr_ValidatorContractAddress t2));
     differs "ValidatorSelectionMode" (negb (bool_decide (tr_ValidatorSelectionMode t1 = tr_ValidatorSelectionMode t2)));
     differs "Miner GasLimit" (negb (tr_MinerGasLimit t1 =? tr_MinerGasLimit t2));
     differs "2FPlus1Enabled" (negb (same_pointer (tr_TwoFPlusOneEnabled t1) (tr_TwoFPlusOneEnabled t2)));
     differs "TransactionSizeLimit" (negb (tr_MinerGasLimit t1 =? tr_MinerGasLimit t2))]).

Definition isTransitionsConfigCompatible (c1 c2 : ChainConfig) (head : Z) : outcome (option error * Z * Z) :=
  past_compatible tr_Block (ErrFmt "genesis file missing transitions information") (ErrFmt "transitions data incompatible. updating transitions for past")
    transitions_differ (cc_Transitions c1) (cc_Transitions c2) head.

Section Compatible.
Implicit Types (c newcfg : ChainConfig) (head : Z).

(** One of the checks of [checkCompatible]: a fork that was rescheduled. *)
Definition rescheduled (what : string) (block : ChainConfig -> option Z) c newcfg head : option ConfigCompatError :=
  if isForkIncompatible (block c) (block newcfg) (Some head) then Some (newCompatError what (block c) (block newcfg)) else None.

Definition conflict (b : bool) (what : string) (stored new : option Z) : option ConfigCompatError := if b then Some (newCompatError what stored new) else None.

Definition checkCompatible c newcfg head (isQuorumEIP155Activated : bool) : option ConfigCompatError :=
  let has_id := match cc_ChainID c with Some _ => true | None => false end in
  let istanbul (field : IstanbulConfig -> option Z) what :=
    match cc_Istanbul c, cc_Istanbul newcfg with
    | Some i, Some i' => conflict (isForkIncompatible (field i) (field i') (Some head)) what (field i) (field i')
    | _, _ => None
    end in
  first_of
    [rescheduled "Homestead fork block" cc_HomesteadBlock c newcfg head;
     rescheduled "DAO fork block" cc_DAOForkBlock c newcfg head;
     conflict (IsDAOFork c (Some head) && negb (Bool.eqb (cc_DAOForkSupport c) (cc_DAOForkSupport newcfg))) "DAO fork support flag" (cc_DAOForkBlock c) (cc_DAOForkBlock newcfg);
     rescheduled "EIP150 fork block" cc_EIP150Block c newcfg head;
     conflict (isQuorumEIP155Activated && has_id && isForkIncompatible (cc_EIP155Block c) (cc_EIP155Block newcfg) (Some head)) "EIP155 fork block" (cc_EIP155Block c) (cc_EIP155Block newcfg);
     conflict (isQuorumEIP155Activated && has_id && IsEIP155 c (Some head) && negb (configNumEqual (cc_ChainID c) (cc_ChainID newcfg))) "EIP155 chain ID" (cc_ChainID c) (cc_ChainID newcfg);
     rescheduled "EIP158 fork block" cc_EIP158Block c newcfg head;
     conflict (IsEIP158 c (Some head) && negb (configNumEqual (cc_ChainID c) (cc_ChainID newcfg))) "EIP158 chain ID" (cc_EIP158Block c) (cc_EIP158Block newcfg);
     rescheduled "Byzantium fork block" cc_ByzantiumBlock c newcfg head;
     rescheduled "Constantinople fork block" cc_ConstantinopleBlock c newcfg head;
     conflict (isForkIncompatible (cc_PetersburgBlock c) (cc_PetersburgBlock newcfg) (Some head) && isForkIncompatible (cc_ConstantinopleBlock c) (cc_PetersburgBlock newcfg) (Some head))
       "Petersburg fork block" (cc_PetersburgBlock c) (cc_PetersburgBlock newcfg);
     rescheduled "Istanbul fork block" cc_IstanbulBlock c newcfg head;
     rescheduled "Muir Glacier fork block" cc_MuirGlacierBlock c newcfg head;
     rescheduled "Berlin fork block" cc_BerlinBlock c newcfg head;
     rescheduled "YOLOv3 fork block" cc_YoloV3Block c newcfg head;
     rescheduled "ewasm fork block" cc_EWASMBlock c newcfg head;
     istanbul ic_Ceil2Nby3Block "Ceil 2N/3 fork block";
     istanbul ic_TestQBFTBlock "Test QBFT fork block";
     rescheduled "permissions fork block" cc_QIP714Block c newcfg head;
     conflict (match cc_MaxCodeSizeChangeBlock newcfg with Some _ => true | None => false end && isForkIncompatible (cc_MaxCodeSizeChangeBlock c) (cc_MaxCodeSizeChangeBlock newcfg) (Some head))
       "max code size change fork block" (cc_MaxCodeSizeChangeBlock c) (cc_MaxCodeSizeChangeBlock newcfg);
     rescheduled "Privacy Enhancements fork block" cc_PrivacyEnhancementsBlock c newcfg head;
     rescheduled "Privacy Precompile fork block" cc_PrivacyPrecompileBlock c newcfg head].

(** The loop looks for the lowest conflict; [None] when the fuel runs out. *)
Fixpoint compat_loop (fuel : nat) c newcfg (bhead : Z) (activated : bool) (lasterr : option ConfigCompatError) : option (option ConfigCompatError) :=
  match fuel with
  | O => None
  | S fuel' =>
      match checkCompatible c newcfg bhead activated with
      | None => Some lasterr
      | Some err =>
          if match lasterr with Some l => ce_RewindTo err =? ce_RewindTo l | None => false end then Some lasterr
          else compat_loop fuel' c newcfg (ce_RewindTo err) activated (Some err)
      end
  end.

(** [err.Error()] of the errors above. *)
Definition error_text (e : error) : string := match e with ErrFmt s => s | _ => EmptyString end.

Definition CheckCompatible (fuel : nat) c newcfg (height : Z) (activated : bool) : outcome (option (option ConfigCompatError)) :=
  r ← isMaxCodeSizeConfigCompatible c newcfg height;
  match r with
  | (Some e, b, b') => Ret (Some (Some (newCompatError (error_text e) (Some b) (Some b'))))
  | (None, _, _) =>
      r ← isTransitionsConfigCompatible c newcfg height;
      match r with
      | (Some e, b, b') => Ret (Some (Some (newCompatError (error_text e) (Some b) (Some b'))))
      | (None, _, _) => Ret (compat_loop fuel c newcfg height activated None)
      end
  end.

(** ** Rules *)

Record Rules := mkRules {
  ru_ChainID : Z;
  ru_IsHomestead : bool; ru_IsEIP150 : bool; ru_IsEIP155 : bool; ru_IsEIP158 : bool;
  ru_IsByzantium : bool; ru_IsConstantinople : bool; ru_IsPetersburg : bool; ru_IsIstanbul : bool;
  ru_IsBerlin : bool; ru_IsCatalyst : bool;
  ru_IsPrivacyEnhancementsEnabled : bool;
  ru_IsPrivacyPrecompile : bool;
  ru_IsGasPriceEnabled : bool
}.

Definition rules_at c (num : option Z) : outcome Rules :=
  enhancements ← IsPrivacyEnhancementsEnabled c num;
  precompile ← IsPrivacyPrecompileEnabled c num;
  gasPrice ← IsGasPriceEnabled c num;
  Ret (mkRules (default 0 (cc_ChainID c)) (IsHomestead c num) (IsEIP150 c num) (IsEIP155 c num) (IsEIP158 c num) (IsByzantium c num) (IsConstantinople c num)
         (IsPetersburg c num) (IsIstanbul c num) (IsBerlin c num) (IsCatalyst c num) enhancements precompile gasPrice).
End Compatible.

(** ** Forks and the past *)

Lemma isForked_true s n : isForked s (Some n) = true <-> exists b, s = Some b /\ b <= n.
Proof. destruct s as [b|]; cbn; [|split; [done|by intros (b & ? & _)]]. rewrite Z.leb_le. split; [eauto|by intros (b' & [= <-] & ?)]. Qed.

Lemma configNumEqual_true x y : configNumEqual x y = true <-> x = y.
Proof. destruct x as [x|], y as [y|]; cbn; rewrite ?Z.eqb_eq; naive_solver. Qed.

(** A fork that is not rescheduled has the same effect on every block up to the head. *)
Lemma compatible_fork s1 s2 head n : isForkIncompatible s1 s2 (Some head) = false -> n <= head -> isForked s1 (Some n) = isForked s2 (Some n).
Proof.
  unfold isForkIncompatible. intros [Hf|He]%andb_false_iff Hn.
  - apply orb_false_iff in Hf as [H1 H2]. assert (forall s, isForked s (Some head) = false -> isForked s (Some n) = false) as Hb.
    { intros [b|]; [|done]. cbn. rewrite !Z.leb_gt. lia. }
    by rewrite !Hb.
  - by apply negb_false_iff, configNumEqual_true in He as ->.
Qed.

Lemma first_of_None {A} (l : list (option A)) : first_of l = None <-> Forall (eq None) l.
Proof. induction l as [|[e|] l IH]; cbn; [done|..]; rewrite Forall_cons, <- ?IH; naive_solver. Qed.

Lemma first_of_Some {A} (l : list (option A)) e : first_of l = Some e -> Some e ∈ l.
Proof. induction l as [|[e'|] l IH]; cbn; [done|..]; rewrite elem_of_cons; [by intros [= ->]; left|auto]. Qed.

Lemma conflict_None b what s1 s2 : conflict b what s1 s2 = None <-> b = false.
Proof. unfold conflict. by destruct b. Qed.

Lemma rescheduled_None what block c newcfg head : rescheduled what block c newcfg head = None <-> isForkIncompatible (block c) (block newcfg) (Some head) = false.
Proof. unfold rescheduled. by destruct (isForkIncompatible _ _ _). Qed.

(** The forks of the past, as far as they are compared. *)
Record same_forks (c newcfg : ChainConfig) (activated : bool) (n : Z) : Prop := {
  sf_Homestead : IsHomestead c (Some n) = IsHomestead newcfg (Some n);
  sf_DAO : IsDAOFork c (Some n) = IsDAOFork newcfg (Some n);
  sf_DAO_support : IsDAOFork c (Some n) = true -> cc_DAOForkSupport c = cc_DAOForkSupport newcfg;
  sf_EIP150 : IsEIP150 c (Some n) = IsEIP150 newcfg (Some n);
  sf_EIP155 : activated = true -> is_Some (cc_ChainID c) -> IsEIP155 c (Some n) = IsEIP155 newcfg (Some n) /\ (IsEIP155 c (Some n) = true -> cc_ChainID c = cc_ChainID newcfg);
  sf_EIP158 : IsEIP158 c (Some n) = IsEIP158 newcfg (Some n) /\ (IsEIP158 c (Some n) = true -> cc_ChainID c = cc_ChainID newcfg);
  sf_Byzantium : IsByzantium c (Some n) = IsByzantium newcfg (Some n);
  sf_Constantinople : IsConstantinople c (Some n) = IsConstantinople newcfg (Some n);
  sf_Istanbul : IsIstanbul c (Some n) = IsIstanbul newcfg (Some n);
  sf_MuirGlacier : IsMuirGlacier c (Some n) = IsMuirGlacier newcfg (Some n);
  sf_Berlin : IsBerlin c (Some n) = IsBerlin newcfg (Some n);
  sf_EWASM : IsEWASM c (Some n) = IsEWASM newcfg (Some n);
  sf_permissions : isForked (cc_QIP714Block c) (Some n) = isForked (cc_QIP714Block newcfg) (Some n);
  sf_enhancements : isForked (cc_PrivacyEnhancementsBlock c) (Some n) = isForked (cc_PrivacyEnhancementsBlock newcfg) (Some n);
  sf_precompile : isForked (cc_PrivacyPrecompileBlock c) (Some n) = isForked (cc_PrivacyPrecompileBlock newcfg) (Some n)
}.

Lemma forked_later s n head : n <= head -> isForked s (Some n) = true -> isForked s (Some head) = true.
Proof. rewrite !isForked_true. intros ? (b & -> & ?). exists b. split; [done|lia]. Qed.

Lemma checkCompatible_past c newcfg head activated n : checkCompatible c newcfg head activated = None -> n <= head -> same_forks c newcfg activated n.
Proof.
  unfold checkCompatible. rewrite first_of_None, !Forall_cons.
  intros (F1 & F2 & Fdao & F3 & F155 & Fid155 & F158 & Fid158 & F4 & F5 & _ & F6 & F7 & F8 & F9 & F10 & _ & _ & F11 & _ & F12 & F13 & _) Hn.
  repeat match goal with H : None = rescheduled _ _ _ _ _ |- _ => apply eq_sym, rescheduled_None in H | H : None = conflict _ _ _ _ |- _ => apply eq_sym, conflict_None in H end.
  split; unfold IsHomestead, IsDAOFork, IsEIP150, IsEIP158, IsByzantium, IsConstantinople, IsIstanbul, IsMuirGlacier, IsEWASM; try by eapply compatible_fork.
  - intros Hd%(forked_later _ _ head Hn). unfold IsDAOFork in Fdao. rewrite Hd in Fdao. by apply negb_false_iff, eqb_prop in Fdao.
  - intros -> [id Eid]. unfold IsEIP155 in *. rewrite Eid in F155, Fid155. cbn [andb] in F155, Fid155. split; [by eapply compatible_fork|].
    intros Hf%(forked_later _ _ head Hn). rewrite Hf in Fid155. rewrite Eid. by apply negb_false_iff, configNumEqual_true in Fid155.
  - split; [by eapply compatible_fork|]. intros Hf%(forked_later _ _ head Hn). unfold IsEIP158 in Fid158. rewrite Hf in Fid158. by apply negb_false_iff, configNumEqual_true in Fid158.
  - unfold IsBerlin. by rewrite (compatible_fork _ _ _ _ F8 Hn), (compatible_fork _ _ _ _ F9 Hn).
Qed.

(** ** Transitions and the past *)

Lemma big_Cmp_le x y : (match big_Cmp x (Some y) with Ret Gt => false | Ret _ => true | _ => false end) = true <-> exists b, x = Some b /\ b <= y.
Proof.
  destruct x as [b|]; cbn; [|split; [done|by intros (? & ? & _)]]. split.
  - intros H. exists b. split; [done|]. destruct (Z.compare_spec b y); [lia|lia|done].
  - intros (? & [= <-] & Hb). destruct (Z.compare_spec b y); [done|done|lia].
Qed.

Lemma outcome_Ret_inj {A} (a b : A) : Ret a = Ret b -> a = b.
Proof. congruence. Qed.

(** The miner's limit depends on what is compared only. *)
Lemma transitions_agree t1 t2 : transitions_differ t1 t2 = Ret None -> tr_Block t1 = tr_Block t2 /\ tr_MinerGasLimit t1 = tr_MinerGasLimit t2.
Proof.
  unfold transitions_differ. destruct (big_Cmp (tr_Block t1) (tr_Block t2)) as [r| |] eqn:Er; cbn [mbind outcome_bind]; [|done|done]. intros H%outcome_Ret_inj. revert H.
  rewrite first_of_None, !Forall_cons. intros (H1 & _ & _ & _ & _ & _ & _ & H2 & _).
  assert (r = Eq) as -> by (by destruct r). split.
  - unfold big_Cmp in Er. destruct (tr_Block t1) as [b1|], (tr_Block t2) as [b2|]; try done. injection Er as Er. by apply Z.compare_eq in Er as ->.
  - cbn [orb] in H2. by destruct (Z.eqb_spec (tr_MinerGasLimit t1) (tr_MinerGasLimit t2)).
Qed.

(** Up to the head both lists give the same values for what is compared. *)
Lemma past_values {A} (f : A -> Transition -> A) head n n1 : n <= head -> (forall t1 t2 v, transitions_differ t1 t2 = Ret None -> f v t1 = f v t2) ->
  forall l1 l2 v, below_head tr_Block l1 head = Ret n1 -> below_head tr_Block l2 head = Ret n1 -> past_loop transitions_differ l1 l2 n1 = Ret None ->
  transition_loop l1 n f v = transition_loop l2 n f v.
Proof.
  intros Hn Hf. induction n1 as [|n1 IH]; intros l1 l2 v H1 H2 Hp.
  - assert (forall l, below_head tr_Block l head = Ret 0%nat -> transition_loop l n f v = Ret v) as Hstop.
    { intros [|t l]; cbn; [done|]. unfold big_Cmp. destruct (tr_Block t) as [b|]; cbn; [|done]. destruct (Z.compare_spec b head); [destruct (below_head tr_Block l head); cbn; congruence..|].
      intros _. destruct (Z.compare_spec b n); [lia|lia|done]. }
    by rewrite !Hstop.
  - destruct l1 as [|t1 l1], l2 as [|t2 l2]; cbn in H1, H2, Hp; try done. destruct (transitions_differ t1 t2) as [[e|]| |] eqn:Ed; cbn in Hp; try done.
    pose proof (transitions_agree _ _ Ed) as [Eb _]. cbn [transition_loop]. rewrite <- Eb in *. destruct (big_Cmp (tr_Block t1) (Some n)) as [r| |] eqn:Ec; cbn; [|done|done].
    unfold big_Cmp in *. destruct (tr_Block t1) as [b|]; cbn in *; [|done].
    assert (forall l, (match b ?= head with Gt => Ret 0%nat | _ => k ← below_head tr_Block l head; Ret (S k) end) = Ret (S n1) -> below_head tr_Block l head = Ret n1) as Hb.
    { intros l. destruct (b ?= head); [..|done]; destruct (below_head tr_Block l head); cbn; congruence. }
    rewrite (Hf t1 t2 v Ed). destruct r; [by apply IH; auto..|done].
Qed.

Lemma transitions_past c newcfg head n d b b' : isTransitionsConfigCompatible c newcfg head = Ret (None, b, b') -> cc_Transitions c <> [] -> n <= head ->
  GetMinerMinGasLimit c (Some n) d = GetMinerMinGasLimit newcfg (Some n) d.
Proof.
  unfold isTransitionsConfigCompatible, past_compatible, GetMinerMinGasLimit, GetTransitionValue. intros H Hne Hn. destruct (cc_Transitions c) as [|t1 l1]; [done|]. destruct (cc_Transitions newcfg) as [|t2 l2]; [done|].
  destruct (below_head tr_Block (t1 :: l1) head) as [n1| |] eqn:E1; cbn [mbind outcome_bind] in H; [|done|done].
  destruct (below_head tr_Block (t2 :: l2) head) as [n2| |] eqn:E2; cbn [mbind outcome_bind] in H; [|done|done].
  destruct (Nat.eqb_spec n1 n2) as [<-|]; cbn [negb] in H; [|done]. destruct (past_loop transitions_differ (t1 :: l1) (t2 :: l2) n1) as [[e|]| |] eqn:Ep; cbn [mbind outcome_bind] in H; try done.
  eapply past_values; [exact Hn| |done|done|done]. intros u1 u2 v [_ E]%transitions_agree. unfold if_nonzero. by rewrite E.
Qed.


(** ** The search for the lowest conflict *)

Lemma rewind_bound what s1 s2 h : 0 <= h < 2 ^ 64 -> isForked s1 (Some h) || isForked s2 (Some h) = true ->
  0 <= ce_RewindTo (newCompatError what s1 s2) /\ (ce_RewindTo (newCompatError what s1 s2) < h \/ ce_RewindTo (newCompatError what s1 s2) = 0).
Proof.
  intros Hh Hf. unfold newCompatError. cbn [ce_RewindTo].
  assert (forall r, r <= h -> 0 <= (if 0 <? r then u64 (u64 r - 1) else 0) /\ ((if 0 <? r then u64 (u64 r - 1) else 0) < h \/ (if 0 <? r then u64 (u64 r - 1) else 0) = 0)) as Hr.
  { intros r Hr. destruct (Z.ltb_spec 0 r); [|lia]. rewrite (u64_small r), u64_small by lia. lia. }
  destruct s1 as [s1|], s2 as [s2|]; cbn in Hf |- *; rewrite ?orb_false_r, ?orb_true_iff, ?Z.leb_le in Hf; [|by apply Hr..|done].
  destruct (Z.ltb_spec s1 s2); apply Hr; lia.
Qed.

(** Without a mismatch of chain identifiers that counts as a fork block. *)
Definition ids_agree (c newcfg : ChainConfig) (activated : bool) : Prop := activated = false \/ cc_ChainID c = None \/ cc_ChainID c = cc_ChainID newcfg.

(** A check that fails asks for a rewind below the head, or to the genesis. *)
Definition rewinds (h : Z) (o : option ConfigCompatError) : Prop := forall e, o = Some e -> 0 <= ce_RewindTo e /\ (ce_RewindTo e < h \/ ce_RewindTo e = 0).

Lemma conflict_rewinds b what s1 s2 h : 0 <= h < 2 ^ 64 -> (b = true -> isForked s1 (Some h) || isForked s2 (Some h) = true) -> rewinds h (conflict b what s1 s2).
Proof. unfold conflict. intros Hh Hb e E. destruct b; [|done]. injection E as <-. by apply rewind_bound; auto. Qed.

Lemma incompatible_forked s1 s2 h : isForkIncompatible s1 s2 (Some h) = true -> isForked s1 (Some h) || isForked s2 (Some h) = true.
Proof. unfold isForkIncompatible. by intros [H _]%andb_true_iff. Qed.

Lemma rescheduled_rewinds what block c newcfg h : 0 <= h < 2 ^ 64 -> rewinds h (rescheduled what block c newcfg h).
Proof. intros Hh. apply conflict_rewinds; [done|]. apply incompatible_forked. Qed.

Lemma checkCompatible_rewinds c newcfg h activated : 0 <= h < 2 ^ 64 -> ids_agree c newcfg activated -> rewinds h (checkCompatible c newcfg h activated).
Proof.
  intros Hh Hid. assert (forall l : list (option ConfigCompatError), Forall (rewinds h) l -> rewinds h (first_of l)) as Hfirst.
  { intros l Hl e He%first_of_Some. rewrite Forall_forall in Hl. by apply (Hl _ He). }
  unfold checkCompatible. apply Hfirst. rewrite !Forall_cons. split_and!; try by apply rescheduled_rewinds.
  - apply conflict_rewinds; [done|]. unfold IsDAOFork. by intros [-> _]%andb_true_iff.
  - apply conflict_rewinds; [done|]. intros [_ H]%andb_true_iff. by apply incompatible_forked.
  - apply conflict_rewinds; [done|]. intros [[[-> Hs]%andb_true_iff _]%andb_true_iff Hne]%andb_true_iff. exfalso. destruct Hid as [Hid|[Hid|Hid]]; [done|by rewrite Hid in Hs|].
    rewrite Hid in Hne. apply negb_true_iff in Hne. assert (configNumEqual (cc_ChainID newcfg) (cc_ChainID newcfg) = true) by (by apply configNumEqual_true). congruence.
  - apply conflict_rewinds; [done|]. unfold IsEIP158. by intros [-> _]%andb_true_iff.
  - apply conflict_rewinds; [done|]. intros [H _]%andb_true_iff. by apply incompatible_forked.
  - destruct (cc_Istanbul c), (cc_Istanbul newcfg); try done. apply conflict_rewinds; [done|]. apply incompatible_forked.
  - destruct (cc_Istanbul c), (cc_Istanbul newcfg); try done. apply conflict_rewinds; [done|]. apply incompatible_forked.
  - apply conflict_rewinds; [done|]. intros [_ H]%andb_true_iff. by apply incompatible_forked.
  - done.
Qed.

Lemma compat_loop_more c newcfg activated fuel fuel' : (fuel <= fuel')%nat -> forall h l r, compat_loop fuel c newcfg h activated l = Some r -> compat_loop fuel' c newcfg h activated l = Some r.
Proof.
  intros Hf. revert fuel' Hf. induction fuel as [|fuel IH]; intros [|fuel'] Hf h l r; cbn [compat_loop]; try done; [lia|].
  destruct (checkCompatible c newcfg h activated) as [err|]; [|done]. destruct (match l with Some l => _ | None => _ end); [done|]. apply IH. lia.
Qed.

Lemma compat_loop_ends c newcfg activated : ids_agree c newcfg activated -> forall fuel l, 0 <= ce_RewindTo l < 2 ^ 64 -> (Z.to_nat (ce_RewindTo l) < fuel)%nat ->
  exists e, compat_loop fuel c newcfg (ce_RewindTo l) activated (Some l) = Some (Some e) /\ 0 <= ce_RewindTo e <= ce_RewindTo l /\
    (checkCompatible c newcfg (ce_RewindTo e) activated = None \/ ce_RewindTo e = 0).
Proof.
  intros Hid. induction fuel as [|fuel IH]; intros l Hl Hf; [lia|]. cbn [compat_loop]. destruct (checkCompatible c newcfg (ce_RewindTo l) activated) as [err|] eqn:E; [|exists l; split; [done|]; split; [lia|by left]].
  destruct (checkCompatible_rewinds c newcfg _ activated Hl Hid err E) as [H0 H1]. destruct (Z.eqb_spec (ce_RewindTo err) (ce_RewindTo l)) as [Heq|Hne].
  - exists l. split; [done|]. split; [lia|]. right. lia.
  - destruct (IH err) as (e & He & Hb & Hc); [lia|lia|]. exists e. split; [done|]. split; [lia|done].
Qed.

(** C28: unless the chain identifiers differ, the search for the lowest conflict
    ends after at most as many rounds as the chain has blocks.  It reports no
    conflict exactly when there is none at the head; otherwise it asks for a
    rewind to a block at which the configurations are compatible, or to the
    genesis block. *)
Theorem check_compatible_ends c newcfg height activated : ids_agree c newcfg activated -> 0 <= height < 2 ^ 64 ->
  exists r, (forall fuel, (Z.to_nat height + 2 <= fuel)%nat -> compat_loop fuel c newcfg height activated None = Some r) /\
    match r with
    | None => checkCompatible c newcfg height activated = None
    | Some e => checkCompatible c newcfg height activated <> None /\ 0 <= ce_RewindTo e <= height /\ (checkCompatible c newcfg (ce_RewindTo e) activated = None \/ ce_RewindTo e = 0)
    end.
Proof.
  intros Hid Hh. destruct (checkCompatible c newcfg height activated) as [err|] eqn:E.
  - destruct (checkCompatible_rewinds c newcfg _ activated Hh Hid err E) as [H0 H1].
    destruct (compat_loop_ends c newcfg activated Hid (S (Z.to_nat (ce_RewindTo err))) err) as (e & He & Hb & Hc); [lia|lia|]. exists (Some e). split; [|split; [done|split; [lia|done]]].
    intros [|fuel] Hf; [lia|]. cbn [compat_loop]. rewrite E. eapply compat_loop_more; [|exact He]. lia.
  - exists None. split; [|done]. intros [|fuel] Hf; [lia|]. cbn [compat_loop]. by rewrite E.
Qed.

(** ** The order of forks *)

Definition active (n : Z) (f : fork) : Prop := isForked (fk_block f) (Some n) = true.

Lemma fork_order_cons cur forks last n : fork_order_loop (cur :: forks) last = None ->
  (forall l, last = Some l -> active n cur -> active n l) /\ exists last', fork_order_loop forks last' = None /\ (last' = Some cur \/ last' = last /\ fk_optional cur = true).
Proof.
  cbn [fork_order_loop]. intros H. destruct (match last with Some l => _ | None => _ end) eqn:E; [done|]. split.
  - intros l -> Ha. unfold active in *. destruct (fk_block l) as [b|], (fk_block cur) as [b'|]; try done. destruct (Z.ltb_spec b' b); [done|]. cbn in *. rewrite Z.leb_le in *. lia.
  - eexists. split; [exact H|]. destruct (fk_optional cur); cbn; [|by left]. destruct (fk_block cur); [by left|by right].
Qed.

(** Active forks are preceded by active forks. *)
Lemma later_active forks n g : forall l, fork_order_loop forks (Some l) = None -> g ∈ forks -> active n g -> active n l.
Proof.
  induction forks as [|cur forks IH]; intros l Hl; [by intros ?%not_elem_of_nil|]. destruct (fork_order_cons cur forks (Some l) n Hl) as (Hc & last' & H' & Hor).
  intros [->|Hg]%elem_of_cons Ha; [by apply Hc|]. destruct Hor as [-> |[-> _]]; [|by apply IH]. apply Hc; [done|]. by apply IH.
Qed.

Lemma order_split l1 f l2 : fk_optional f = false -> forall last, fork_order_loop (l1 ++ f :: l2) last = None -> fork_order_loop l2 (Some f) = None.
Proof.
  intros Hf. induction l1 as [|cur l1 IH]; intros last H; cbn [app] in H; destruct (fork_order_cons _ _ _ 0 H) as (_ & last' & H' & Hor); [|by eapply IH].
  destruct Hor as [-> |[_ E]]; [done|congruence].
Qed.

(** When the order of forks is accepted, the forks that are active at a block
    are an initial part of the sequence of forks. *)
Theorem fork_order_nested c num : CheckConfigForkOrder c = None ->
  (isForked (cc_BerlinBlock c) (Some num) = true -> IsIstanbul c (Some num) = true) /\ (IsIstanbul c (Some num) = true -> IsPetersburg c (Some num) = true) /\
  (IsPetersburg c (Some num) = true -> IsConstantinople c (Some num) = true) /\ (IsConstantinople c (Some num) = true -> IsByzantium c (Some num) = true) /\
  (IsByzantium c (Some num) = true -> IsEIP158 c (Some num) = true) /\ (IsEIP158 c (Some num) = true -> IsEIP155 c (Some num) = true) /\
  (IsEIP155 c (Some num) = true -> IsEIP150 c (Some num) = true) /\ (IsEIP150 c (Some num) = true -> IsHomestead c (Some num) = true).
Proof.
  intros H. unfold CheckConfigForkOrder in H.
  assert (forall i j f g, (i < j)%nat -> forks_of c !! i = Some f -> forks_of c !! j = Some g -> fk_optional f = false -> active num g -> active num f) as Hij.
  { intros i j f g Hlt Hi Hj Hf. pose proof (take_drop_middle _ _ _ Hi) as Hs. rewrite <- Hs in H. apply order_split in H; [|done]. eapply later_active; [exact H|].
    apply list_elem_of_lookup. exists (j - S i)%nat. rewrite lookup_drop. by replace (S i + (j - S i))%nat with j by lia. }
  unfold active in Hij. unfold IsPetersburg, IsConstantinople, IsIstanbul, IsByzantium, IsEIP158, IsEIP155, IsEIP150, IsHomestead. split_and!.
  - by apply (Hij 8%nat 10%nat _ _ ltac:(lia) eq_refl eq_refl eq_refl).
  - intros Hi. apply orb_true_iff. left. exact (Hij 7%nat 8%nat _ _ ltac:(lia) eq_refl eq_refl eq_refl Hi).
  - intros [Hp|[_ Hp]%andb_true_iff]%orb_true_iff; [|done]. by apply (Hij 6%nat 7%nat _ _ ltac:(lia) eq_refl eq_refl eq_refl).
  - by apply (Hij 5%nat 6%nat _ _ ltac:(lia) eq_refl eq_refl eq_refl).
  - by apply (Hij 4%nat 5%nat _ _ ltac:(lia) eq_refl eq_refl eq_refl).
  - by apply (Hij 3%nat 4%nat _ _ ltac:(lia) eq_refl eq_refl eq_refl).
  - by apply (Hij 2%nat 3%nat _ _ ltac:(lia) eq_refl eq_refl eq_refl).
  - by apply (Hij 0%nat 2%nat _ _ ltac:(lia) eq_refl eq_refl eq_refl).
Qed.

(** ** Transitions in order *)

Definition reached (n : Z) (t : Transition) : Prop := match tr_Block t with Some b => b <= n | None => False end.

#[global] Instance reached_dec n t : Decision (reached n t).
Proof. unfold reached. destruct (tr_Block t); apply _. Defined.

Lemma transition_error_None c t isQBFT prev : transition_error c t isQBFT prev = None -> exists b, tr_Block t = Some b /\ prev <= b.
Proof.
  unfold transition_error. intros H. destruct (tr_Block t) as [b|]; [|by repeat case_match]. exists b. split; [done|]. destruct (Z.ltb_spec b prev); [|done]. by repeat case_match.
Qed.

Lemma ascending_blocks c ts : forall isQBFT prev t, transitions_loop c ts isQBFT prev = None -> t ∈ ts -> exists b, tr_Block t = Some b /\ prev <= b.
Proof.
  induction ts as [|u ts IH]; intros isQBFT prev t H Ht; [by apply not_elem_of_nil in Ht|]. cbn [transitions_loop] in H. destruct (transition_error c u isQBFT prev) eqn:E; [done|].
  destruct (transition_error_None _ _ _ _ E) as (b & Eb & Hb). apply elem_of_cons in Ht as [->|Ht]; [by exists b|]. destruct (IH _ _ _ H Ht) as (b' & Eb' & Hb'). rewrite Eb in Hb'. exists b'. split; [done|]. cbn in Hb'. lia.
Qed.

Lemma transition_loop_all {A} c (f : A -> Transition -> A) n ts : forall isQBFT prev v, transitions_loop c ts isQBFT prev = None -> transition_loop ts n f v = Ret (foldl f v (filter (reached n) ts)).
Proof.
  induction ts as [|t ts IH]; intros isQBFT prev v H; [done|]. cbn [transitions_loop] in H. destruct (transition_error c t isQBFT prev) eqn:E; [done|].
  destruct (transition_error_None _ _ _ _ E) as (b & Eb & Hb). cbn [transition_loop]. rewrite filter_cons, Eb. cbn [big_Cmp mbind outcome_bind].
  assert (reached n t <-> b <= n) as Hr by (unfold reached; by rewrite Eb). destruct (Z.compare_spec b n) as [Heq|Hlt|Hgt].
  - rewrite decide_True by (apply Hr; lia). cbn [foldl]. by eapply IH.
  - rewrite decide_True by (apply Hr; lia). cbn [foldl]. by eapply IH.
  - rewrite decide_False by (rewrite Hr; lia). rewrite filter_none; [done|]. intros u Hu. destruct (ascending_blocks c ts _ _ u H Hu) as (b' & Eb' & Hb'). unfold reached. rewrite Eb'. rewrite Eb in Hb'. cbn in Hb'. lia.
Qed.

(** In a configuration whose transitions are accepted, a lookup never
    panics and applies exactly the transitions at or before the block, in
    their order, although it stops at the first later one. *)
Theorem transition_values_exact {A} c num (f : A -> Transition -> A) (v : A) : CheckTransitionsData c = None ->
  GetTransitionValue c (Some num) f v = Ret (foldl f v (filter (reached num) (cc_Transitions c))).
Proof. unfold CheckTransitionsData, GetTransitionValue. apply transition_loop_all. Qed.

(** ** Examples *)

Definition plain (id homestead eip155 constantinople petersburg gasPrice : option Z) (ts : list Transition) : ChainConfig :=
  mkChainConfig id homestead None false None eip155 None None constantinople petersburg None None None None None None None None ts true 64 0 None None [] None None gasPrice.

Definition at_block (b gasLimit txSize : Z) : Transition :=
  mkTransition (Some b) EmptyString 0 0 None 0 0 0 [] EmptyString None None None None gasLimit None txSize None None None.

Definition stored_config : ChainConfig := plain (Some 100) (Some 50) (Some 0) None None None [].
Definition genesis_config : ChainConfig := plain (Some 200) (Some 60) (Some 0) None None None [].

Lemma identifiers_up h : 0 <= h < 50 -> checkCompatible stored_config genesis_config h true = Some (newCompatError "EIP155 chain ID" (Some 100) (Some 200)).
Proof.
  intros Hh. unfold checkCompatible, rescheduled, isForkIncompatible, IsDAOFork, IsEIP155. cbn [stored_config genesis_config plain cc_HomesteadBlock cc_DAOForkBlock cc_EIP150Block cc_EIP155Block cc_ChainID isForked configNumEqual].
  destruct (Z.leb_spec 50 h); [lia|]. destruct (Z.leb_spec 60 h); [lia|]. destruct (Z.leb_spec 0 h); [|lia]. reflexivity.
Qed.

Lemma rescheduled_down : checkCompatible stored_config genesis_config 99 true = Some (newCompatError "Homestead fork block" (Some 50) (Some 60)).
Proof. by vm_compute. Qed.

Lemma diverging_loop fuel : forall l, (ce_RewindTo l = 99 -> compat_loop fuel stored_config genesis_config 99 true (Some l) = None) /\
  (ce_RewindTo l = 49 -> compat_loop fuel stored_config genesis_config 49 true (Some l) = None).
Proof.
  induction fuel as [|fuel IH]; intros l; [done|]. split; intros E; cbn [compat_loop]; [rewrite rescheduled_down|rewrite identifiers_up by lia]; rewrite E; apply IH; reflexivity.
Qed.

(** C29: when the chain identifiers differ, the search need not end: the
    identifiers are taken for block numbers, so that the rewind for them goes
    up, past a rescheduled fork, from where the search goes down again, for
    ever. *)
Theorem check_compatible_diverges fuel : CheckCompatible fuel stored_config genesis_config 10 true = Ret None.
Proof.
  destruct fuel as [|fuel]; [done|]. change (CheckCompatible (S fuel) stored_config genesis_config 10 true) with (Ret (compat_loop (S fuel) stored_config genesis_config 10 true None)).
  cbn [compat_loop]. rewrite identifiers_up by lia. f_equal. by apply diverging_loop.
Qed.


Lemma check_compatible_ends_witness : exists r, compat_loop 102 (plain (Some 1) (Some 50) None None None None []) (plain (Some 1) (Some 60) None None None None []) 100 true None = Some (Some r) /\
  ce_RewindTo r = 49 /\ checkCompatible (plain (Some 1) (Some 50) None None None None []) (plain (Some 1) (Some 60) None None None None []) 49 true = None.
Proof.
  destruct (check_compatible_ends (plain (Some 1) (Some 50) None None None None []) (plain (Some 1) (Some 60) None None None None []) 100 true) as (r & Hr & H).
  - right. right. reflexivity.
  - lia.
  - pose proof (Hr 102%nat ltac:(lia)) as E. assert (compat_loop 102 (plain (Some 1) (Some 50) None None None None []) (plain (Some 1) (Some 60) None None None None []) 100 true None = Some (Some (newCompatError "Homestead fork block" (Some 50) (Some 60)))) as E' by (vm_compute; reflexivity).
    rewrite E in E'. injection E' as ->. exists (newCompatError "Homestead fork block" (Some 50) (Some 60)). split; [exact E|]. split; [vm_compute; reflexivity|]. destruct H as (_ & _ & [H|H]); [exact H|vm_compute in H; discriminate H].
Defined.

Definition ordered_forks : ChainConfig :=
  mkChainConfig (Some 10) (Some 0) None false (Some 0) (Some 2) (Some 3) (Some 3) (Some 5) (Some 5) (Some 8) None (Some 9) None None None None None [] true 64 0 None None [] None None None.

Lemma fork_order_nested_witness : CheckConfigForkOrder ordered_forks = None /\ IsIstanbul ordered_forks (Some 8) = true /\ IsPetersburg ordered_forks (Some 8) = true.
Proof.
  split; [vm_compute; reflexivity|]. split; [vm_compute; reflexivity|]. apply (fork_order_nested ordered_forks 8); vm_compute; reflexivity.
Defined.

Lemma transition_values_exact_witness : GetTransitionValue (plain None None None None None None [at_block 3 7 0; at_block 3 9 0; at_block 30 8 0]) (Some 20) (if_nonzero tr_MinerGasLimit) 5 = Ret 9.
Proof.
  rewrite (transition_values_exact (plain None None None None None None [at_block 3 7 0; at_block 3 9 0; at_block 30 8 0]) 20 (if_nonzero tr_MinerGasLimit) 5); vm_compute; reflexivity.
Defined.

(** A transition that does not set the size limit of transactions takes back
    the one an earlier transition has set. *)
Example size_limit_forgotten : GetTransactionSizeLimit (plain None None None None None None [at_block 3 0 128]) (Some 9) = Ret 128 /\
  GetTransactionSizeLimit (plain None None None None None None [at_block 3 0 128; at_block 5 7 0]) (Some 9) = Ret 64.
Proof. by vm_compute. Qed.

(** Size limits of recorded transitions are not compared. *)
Example size_limit_rewritten :
  CheckCompatible 1 (plain None None None None None None [at_block 3 0 128]) (plain None None None None None None [at_block 3 0 32]) 10 true = Ret (Some None) /\
  GetTransactionSizeLimit (plain None None None None None None [at_block 3 0 128]) (Some 9) = Ret 128 /\
  GetTransactionSizeLimit (plain None None None None None None [at_block 3 0 32]) (Some 9) = Ret 32.
Proof. by vm_compute. Qed.

(** Transitions may be added to the past of a chain that has none. *)
Example transitions_added :
  CheckCompatible 1 (plain None None None None None None []) (plain None None None None None None [at_block 3 7 0]) 10 true = Ret (Some None) /\
  GetMinerMinGasLimit (plain None None None None None None []) (Some 9) 5 = Ret 5 /\ GetMinerMinGasLimit (plain None None None None None None [at_block 3 7 0]) (Some 9) 5 = Ret 7.
Proof. by vm_compute. Qed.

(** The block from which gas has a price is not compared. *)
Example gas_price_rewritten :
  CheckCompatible 1 (plain None None None None None (Some 3) []) (plain None None None None None (Some 100) []) 10 true = Ret (Some None) /\
  IsGasPriceEnabled (plain None None None None None (Some 3) []) (Some 9) = Ret true /\ IsGasPriceEnabled (plain None None None None None (Some 100) []) (Some 9) = Ret false.
Proof. by vm_compute. Qed.

(** Without a Petersburg block Petersburg starts with Constantinople; setting
    the block later moves it out of the past. *)
Example petersburg_rewritten :
  CheckCompatible 1 (plain None None None (Some 3) None None []) (plain None None None (Some 3) (Some 100) None []) 10 true = Ret (Some None) /\
  IsPetersburg (plain None None None (Some 3) None None []) (Some 9) = true /\ IsPetersburg (plain None None None (Some 3) (Some 100) None []) (Some 9) = false.
Proof. by vm_compute. Qed.
