(* ===== verification/ChainSigner.v ===== *)
(** * The signer of a chain ([core/types/transaction_signing.go])

    Which signer a chain configuration prescribes at a block, and which one the
    pool and the API use when the block is not known.  A fork never takes the
    sender of a transaction away. *)
From Stdlib Require Import ZArith Lia.
From stdpp Require Import base option list.
From S2P Require Import Prelude Errors Rlp Common Transaction Block Signing ChainConfig.
Open Scope Z_scope.

Definition MakeSigner (config : ChainConfig) (blockNumber : option Z) : TxSigner :=
  if IsBerlin config blockNumber then NewEIP2930Signer (cc_ChainID config)
  else if IsEIP155 config blockNumber then NewEIP155Signer (cc_ChainID config)
  else if IsHomestead config blockNumber then HomesteadSigner
  else FrontierSigner.

Definition LatestSigner (config : ChainConfig) : TxSigner :=
  match cc_ChainID config with
  | Some _ =>
      match cc_BerlinBlock config, cc_YoloV3Block config, cc_EIP155Block config with
      | None, None, None => HomesteadSigner
      | None, None, Some _ => NewEIP155Signer (cc_ChainID config)
      | _, _, _ => NewEIP2930Signer (cc_ChainID config)
      end
  | None => HomesteadSigner
  end.

Section Upgrade.
Context `{Keccak} `{Secp256k1}.

(** [v] is not negative, as in every transaction that was decoded. *)
Definition v_ok (t : TxData) : Prop := match t with Legacy d => match lt_V d with Some v => 0 <= v | None => True end | Access _ => True end.

Lemma homestead_v t a : v_ok t -> HomesteadSigner_Sender t = Ret a -> IsPrivate t = true \/ Protected t = false.
Proof.
  destruct t as [d|d]; [|done]. cbn [HomesteadSigner_Sender v_ok]. intros Hv. destruct (FrontierSigner_Hash (Legacy d)) as [h| |]; cbn [mbind outcome_bind]; [|done|done].
  unfold IsPrivate, Protected, recoverPlain. cbn [rawSignatureValues fst]. destruct (lt_V d) as [v|]; cbn [deref mbind outcome_bind]; [|by right].
  destruct (Z.ltb_spec 8 (BitLen v)) as [|Hb]; [done|]. apply BitLen_le in Hb; [|done|lia]. assert (Uint64 v = v) as Eu by (unfold Uint64; rewrite Z.abs_eq by done; apply u64_small; lia).
  rewrite !Eu. unfold isPrivate, isProtectedV. rewrite Eu. destruct (lt_R d) as [r|]; cbn [deref mbind outcome_bind]; [|done]. destruct (lt_S d) as [x|]; cbn [deref mbind outcome_bind]; [|done].
  destruct ((v =? 37) || (v =? 38)) eqn:Ep; [by left|]. intros Hs. right. apply orb_false_iff in Ep as [E1%Z.eqb_neq E2%Z.eqb_neq].
  destruct (ValidateSignatureValues _ _ _ _) eqn:Ev; cbn [negb] in Hs; [|done]. unfold ValidateSignatureValues in Ev. destruct (_ || _); [done|]. destruct (_ && _); [done|].
  apply andb_true_iff in Ev as [_ Ev]. assert ((BitLen v <=? 8) = true) as -> by (apply Z.leb_le, BitLen_small; lia). cbn in Hb.
  assert (v = 27 \/ v = 28) as [-> | ->]; [|done|done]. rewrite !orb_true_iff, !Z.eqb_eq in Ev.
  pose proof (Z.mod_pos_bound (v - 27) 256). destruct (Z_lt_le_dec v 27) as [Hlt|Hge].
  - rewrite <- (Z.mod_add _ 1), Z.mod_small in Ev by lia. lia.
  - rewrite Z.mod_small in Ev by lia. lia.
Qed.

Lemma homestead_to_155 c t a : v_ok t -> HomesteadSigner_Sender t = Ret a -> EIP155Signer_Sender c t = Ret a.
Proof.
  intros Hv Ht. unfold EIP155Signer_Sender. destruct (homestead_v t a Hv Ht) as [-> |E]; [done|]. destruct (IsPrivate t); [done|]. destruct t as [d|d]; [|done]. by rewrite E.
Qed.

Lemma eip155_to_2930 c t a : EIP155Signer_Sender c t = Ret a -> EIP2930Signer_Sender c t = Ret a.
Proof. unfold EIP155Signer_Sender, EIP2930Signer_Sender. destruct (IsPrivate t); [done|]. by destruct t. Qed.

(** Signers in the order in which forks introduce them. *)
Definition rank_of (s : TxSigner) : nat := match s with EIP2930Signer _ => 2 | EIP155Signer _ => 1 | _ => 0 end.

Definition of_chain (c : Z) (s : TxSigner) : Prop := s = HomesteadSigner \/ s = EIP155Signer c \/ s = EIP2930Signer c.

Lemma sender_upgrade c s s' t a : v_ok t -> of_chain c s -> of_chain c s' -> (rank_of s <= rank_of s')%nat -> signer_Sender s t = Ret a -> signer_Sender s' t = Ret a.
Proof.
  intros Hv [-> |[-> | ->]] [-> |[-> | ->]] Hr Ht; cbn [rank_of signer_Sender] in *; try done; try lia.
  - by apply homestead_to_155.
  - by apply eip155_to_2930, homestead_to_155.
  - by apply eip155_to_2930.
Qed.

Lemma MakeSigner_of_chain config n : IsHomestead config (Some n) = true -> of_chain (default 0 (cc_ChainID config)) (MakeSigner config (Some n)).
Proof. intros Hh. unfold MakeSigner. rewrite Hh. destruct (IsBerlin _ _); [by right; right|]. destruct (IsEIP155 _ _); [by right; left|by left]. Qed.

(** C30: forks keep senders.  A transaction whose sender is known at a block
    since Homestead has the same sender at every later block, and the signer
    that is used when the block is not known finds it too. *)
Theorem forks_keep_senders config n m t a : v_ok t -> n <= m -> IsHomestead config (Some n) = true -> is_Some (cc_ChainID config) ->
  signer_Sender (MakeSigner config (Some n)) t = Ret a ->
  signer_Sender (MakeSigner config (Some m)) t = Ret a /\ signer_Sender (LatestSigner config) t = Ret a.
Proof.
  intros Hv Hnm Hh [id Eid] Ht. pose proof (MakeSigner_of_chain config n Hh) as Hn. split.
  - eapply (sender_upgrade _ _ _ _ _ Hv Hn); [apply MakeSigner_of_chain; by eapply forked_later| |exact Ht].
    unfold MakeSigner. rewrite Hh. assert (forall s, isForked s (Some n) = true -> isForked s (Some m) = true) as Hmon by (intros s; by apply forked_later).
    unfold IsBerlin, IsEIP155. pose proof (Hmon (cc_BerlinBlock config)). pose proof (Hmon (cc_YoloV3Block config)). pose proof (Hmon (cc_EIP155Block config)).
    destruct (isForked (cc_BerlinBlock config) (Some n)); [rewrite H1 by done; cbn; lia|]. destruct (isForked (cc_YoloV3Block config) (Some n)); [rewrite H2, !orb_true_r by done; cbn; lia|].
    cbn [orb]. destruct (isForked (cc_EIP155Block config) (Some n)); [|destruct (_ || _), (isForked (cc_EIP155Block config) (Some m)); cbn; lia].
    rewrite H3 by done. destruct (_ || _); cbn; lia.
  - eapply (sender_upgrade _ _ _ _ _ Hv Hn); [| |exact Ht]; unfold LatestSigner, MakeSigner; rewrite Eid, ?Hh; unfold IsBerlin, IsEIP155, of_chain.
    + destruct (cc_BerlinBlock config), (cc_YoloV3Block config), (cc_EIP155Block config); auto.
    + destruct (cc_BerlinBlock config), (cc_YoloV3Block config), (cc_EIP155Block config); cbn; repeat case_match; cbn; lia.
Qed.

End Upgrade.

(** A transaction signed before replay protection keeps its sender after Berlin. *)
Section Witness.
#[local] Existing Instance sample_keccak.
#[local] Existing Instance sample_secp.

Definition early_tx : TxData :=
  let d := Legacy (mkLegacyTx 0 (Some 5) 21000 (Some 9) (Some 1) [] None None None) in
  match SignNewTx sample_ec_key HomesteadSigner d 0 with Ret t => t_inner t | _ => d end.

Lemma forks_keep_senders_witness : exists a, signer_Sender (MakeSigner ordered_forks (Some 1)) early_tx = Ret a /\ MakeSigner ordered_forks (Some 9) = EIP2930Signer 10 /\
  signer_Sender (MakeSigner ordered_forks (Some 9)) early_tx = Ret a /\ signer_Sender (LatestSigner ordered_forks) early_tx = Ret a.
Proof.
  exists (pub_address (@ec_pubkey sample_secp sample_ec_key)). assert (signer_Sender (MakeSigner ordered_forks (Some 1)) early_tx = Ret (pub_address (@ec_pubkey sample_secp sample_ec_key))) as E by (vm_compute; reflexivity).
  split; [exact E|]. split; [vm_compute; reflexivity|]. apply (forks_keep_senders ordered_forks 1 9 early_tx); [vm_compute; discriminate|lia|reflexivity|by eexists|exact E].
Defined.

End Witness.
