(* ===== verification/PriceNonce.v ===== *)
(** * Transactions by price and nonce ([core/types/transaction.go])

    The order in which transactions are offered for a block: a heap of the
    next transaction of every account, by gas price and then by the time they
    were first seen, and the rest of every account's transactions in the order
    of their nonces.  The set refines a map from accounts to queues.  Go ranges
    over the map of accounts in any order: the order is an argument.  That the
    sender is cached in a transaction is left out here: the cache does not
    change any answer. *)
From Stdlib Require Import ZArith Lia.
From stdpp Require Import base list option gmap.
From S2P Require Import Prelude Errors Prque Common Transaction Signing.
Open Scope Z_scope.

(** ** Comparing transactions *)

(** [GasPrice] of a transaction that was decoded or built is not nil. *)
Definition GasPrice (t : Transaction) : Z := default 0 (tx_gasPrice (t_inner t)).

Record TxByPriceAndTime := mkHeads { heads : list Transaction }.

Definition price_less (a b : Transaction) : bool :=
  if GasPrice a =? GasPrice b then t_time a <? t_time b else GasPrice b <? GasPrice a.

#[global] Instance price_heap : HeapInterface TxByPriceAndTime Transaction := {|
  h_Len s := length (heads s);
  h_Less s i j := match heads s !! i, heads s !! j with Some a, Some b => price_less a b | _, _ => false end;
  h_Swap i j s := mkHeads (list_Swap i j (heads s));
  h_Push x s := mkHeads (heads s ++ [x]);
  h_Pop s := '(x, l) ← list_Pop (heads s); Ret (x, mkHeads l)
|}.

(** ** The set *)

Record TransactionsByPriceAndNonce := mkPriceNonce {
  pn_txs : gmap Address (list Transaction);
  pn_heads : TxByPriceAndTime;
  pn_signer : TxSigner
}.

Section PriceNonce.
Context `{Keccak} `{Secp256k1}.

(** The sender, or the zero address after an error. *)
Definition account (signer : TxSigner) (t : Transaction) : outcome Address :=
  match (Sender signer t).1 with
  | Ret a => Ret a
  | Err _ => Ret 0
  | Panic => Panic
  end.

(** The loop over the accounts. *)
Fixpoint collect (signer : TxSigner) (order : list Address) (txs : gmap Address (list Transaction)) (hs : list Transaction) :
    outcome (gmap Address (list Transaction) * list Transaction) :=
  match order with
  | [] => Ret (txs, hs)
  | from :: order' =>
      accTxs ← deref (txs !! from);
      match accTxs with
      | [] => Panic
      | t :: rest =>
          acc ← account signer t;
          if negb (acc =? from) then collect signer order' (delete from txs) hs
          else collect signer order' (<[from := rest]> txs) (hs ++ [t])
      end
  end.

Definition NewTransactionsByPriceAndNonce (signer : TxSigner) (order : list Address) (txs : gmap Address (list Transaction)) :
    outcome TransactionsByPriceAndNonce :=
  '(txs', hs) ← collect signer order txs [];
  Ret (mkPriceNonce txs' (heap_Init (mkHeads hs)) signer).

Definition Peek (t : TransactionsByPriceAndNonce) : option Transaction := heads (pn_heads t) !! 0%nat.

Definition Shift (t : TransactionsByPriceAndNonce) : outcome TransactionsByPriceAndNonce :=
  best ← deref (heads (pn_heads t) !! 0%nat);
  acc ← account (pn_signer t) best;
  match pn_txs t !! acc with
  | Some (next :: rest) =>
      Ret (mkPriceNonce (<[acc := rest]> (pn_txs t)) (heap_Fix 0 (mkHeads (<[0%nat := next]> (heads (pn_heads t))))) (pn_signer t))
  | _ => '(_, hs) ← heap_Pop (pn_heads t); Ret (mkPriceNonce (pn_txs t) hs (pn_signer t))
  end.

Definition PriceNonce_Pop (t : TransactionsByPriceAndNonce) : outcome TransactionsByPriceAndNonce :=
  '(_, hs) ← heap_Pop (pn_heads t); Ret (mkPriceNonce (pn_txs t) hs (pn_signer t)).

End PriceNonce.

(** ** The heap *)

(** Times are nanoseconds of 64 bits: the order is that of one number. *)
#[local] Instance tx_ranked : Ranked Transaction := fun t => GasPrice t * 2 ^ 64 - t_time t.

Definition timed (t : Transaction) : Prop := 0 <= t_time t < 2 ^ 64.

(** [t'] is not worth more than [t], nor as much and seen earlier. *)
Definition not_before (t t' : Transaction) : Prop := GasPrice t' < GasPrice t \/ (GasPrice t' = GasPrice t /\ t_time t <= t_time t').

Lemma rank_less a b : timed a -> timed b -> price_less a b = (rank b <? rank a).
Proof.
  unfold timed, price_less, rank, tx_ranked. intros Ha Hb. destruct (Z.eqb_spec (GasPrice a) (GasPrice b)) as [->|Hne].
  - destruct (Z.ltb_spec (t_time a) (t_time b)), (Z.ltb_spec (GasPrice b * 2 ^ 64 - t_time b) (GasPrice b * 2 ^ 64 - t_time a)); lia || done.
  - destruct (Z.ltb_spec (GasPrice b) (GasPrice a)), (Z.ltb_spec (GasPrice b * 2 ^ 64 - t_time b) (GasPrice a * 2 ^ 64 - t_time a)); lia || done.
Qed.

Lemma rank_not_before t t' : timed t -> timed t' -> rank t' <= rank t <-> not_before t t'.
Proof. unfold timed, not_before, rank, tx_ranked. lia. Qed.

(** The heads are the list heap. *)
Definition heads_rel (s : TxByPriceAndTime) (l : list Transaction) : Prop := heads s = l /\ Forall timed l.

#[local] Instance heads_refine : HeapSimulation heads_rel.
Proof.
  split; cbn [h_Len h_Less h_Swap h_Push h_Pop price_heap list_heap].
  - by intros s l [-> _].
  - intros s l i j [-> Ht] [a Ha]%lookup_lt_is_Some_2 [b Hb]%lookup_lt_is_Some_2. unfold list_Less. rewrite Ha, Hb. apply rank_less; by eapply Forall_lookup_1.
  - intros s l i j [-> Ht] _ _. split; [done|]. by rewrite list_Swap_perm.
  - intros i j l. apply length_list_Swap.
  - intros s l [-> Ht]. unfold list_Pop. destruct (last l) as [x|]; [|done]. cbn. split; [done|]. split; [done|]. by apply Forall_take.
Qed.

(** A heap of heads with the transactions of a list. *)
Definition heap_of (s : TxByPriceAndTime) (l : list Transaction) : Prop :=
  heap_order (prio (heads s)) (length (heads s)) /\ Forall timed l /\ heads s ≡ₚ l.

Lemma heap_of_rel s l : heap_of s l -> heads_rel s (heads s).
Proof. intros (_ & Ht & Hp). split; [done|]. by rewrite Hp. Qed.

Lemma heap_of_init l : Forall timed l -> heap_of (heap_Init (mkHeads l)) l.
Proof.
  intros Ht. destruct (heap_Init_refines heads_rel (mkHeads l) l) as [E _]; [done|]. destruct (heap_Init_list l) as [Ho Hp]. unfold heap_of. rewrite E. split; [|done].
  by rewrite (Permutation_length Hp).
Qed.

Lemma heap_of_root s l t : heap_of s l -> heads s !! 0%nat = Some t -> t ∈ l /\ forall t', t' ∈ l -> not_before t t'.
Proof.
  intros (Ho & Ht & Hp) Hr. assert (t ∈ l) as Hin by (rewrite <- Hp; by eapply list_elem_of_lookup_2). split; [done|]. intros t' Hin'.
  rewrite Forall_forall in Ht. rewrite <- rank_not_before by auto. rewrite <- Hp in Hin'. apply list_elem_of_lookup in Hin' as [i Hi].
  pose proof (heap_order_root _ _ i Ho (lookup_lt_Some _ _ _ Hi)) as Hle. unfold prio in Hle. by rewrite Hi, Hr in Hle.
Qed.

Lemma heap_of_pop s l : heap_of s l -> l <> [] -> exists t s' l', heap_Pop s = Ret (t, s') /\ heads s !! 0%nat = Some t /\ l ≡ₚ t :: l' /\ heap_of s' l'.
Proof.
  intros Hs Hl. pose proof Hs as (Ho & Ht & Hp). destruct (heap_Pop_list (heads s) Ho) as (t & l' & E & Hp' & Ho' & _ & Hr); [intros E; rewrite E in Hp; by apply Permutation_nil_l in Hp|].
  pose proof (heap_Pop_refines heads_rel _ _ (heap_of_rel s l Hs)) as Hpr. rewrite E in Hpr. destruct (heap_Pop s) as [[t' s']| |]; try done. destruct Hpr as [-> [E' Ht']].
  exists t, s', l'. split_and!; [done|done|by rewrite <- Hp, Hp'|]. split; [by rewrite E'|]. split; [done|by rewrite E'].
Qed.

Lemma heap_of_fix s l t t' : heap_of s (t :: l) -> heads s !! 0%nat = Some t -> timed t' -> heap_of (heap_Fix 0 (mkHeads (<[0%nat := t']> (heads s)))) (t' :: l).
Proof.
  intros Hs Hr Ht'. pose proof Hs as (Ho & Ht & Hp). destruct (heads s) as [|t0 hs] eqn:Eh; [done|]. injection Hr as ->. apply Permutation_cons_inv in Hp. apply Forall_cons in Ht as [_ Ht].
  destruct (heap_Fix_list hs t t' Ho) as [Ho' Hp']. destruct (heap_Fix_refines heads_rel 0 (mkHeads (t' :: hs)) (t' :: hs)) as [E _].
  - split; [done|]. apply Forall_cons. split; [done|]. by rewrite Hp.
  - cbn. lia.
  - cbn [list_insert insert]. unfold heap_of. change (<[0%nat:=t']> (t :: hs)) with (t' :: hs). rewrite E. split; [by rewrite (Permutation_length Hp')|]. split; [by apply Forall_cons|by rewrite Hp', Hp].
Qed.

(** ** The set refines a map of queues *)

Section Refine.
Context `{Keccak} `{Secp256k1} (signer : TxSigner).

Definition acct (t : Transaction) : Address := match account signer t with Ret a => a | _ => 0 end.

(** What is known of a transaction in the queue of an account. *)
Definition of_account (a : Address) (t : Transaction) : Prop := account signer t = Ret a /\ timed t.

Lemma of_account_acct a t : of_account a t -> acct t = a.
Proof. intros [E _]. unfold acct. by rewrite E. Qed.

(** The heads are the first transactions of the queues, one for each account. *)
Record heads_ok (T : TransactionsByPriceAndNonce) (m : gmap Address (list Transaction)) (hs : list Transaction) : Prop := {
  ho_heap : heap_of (pn_heads T) hs;
  ho_nodup : NoDup (map acct hs);
  ho_queue t : t ∈ hs -> m !! acct t = Some (t :: default [] (pn_txs T !! acct t));
  ho_dom a q : m !! a = Some q -> a ∈ map acct hs
}.

Definition pn_rel (T : TransactionsByPriceAndNonce) (m : gmap Address (list Transaction)) : Prop :=
  pn_signer T = signer /\ (forall a q, m !! a = Some q -> Forall (of_account a) q) /\ exists hs, heads_ok T m hs.

Lemma ho_elem T m hs a q : heads_ok T m hs -> m !! a = Some q -> exists t, t ∈ hs /\ acct t = a /\ q = t :: default [] (pn_txs T !! a).
Proof.
  intros Hh Hq. pose proof (ho_dom _ _ _ Hh a q Hq) as Hin. change (map acct hs) with (acct <$> hs) in Hin. apply list_elem_of_fmap in Hin as (t & -> & Ht). exists t. split; [done|]. split; [done|].
  pose proof (ho_queue _ _ _ Hh t Ht). congruence.
Qed.

Lemma ho_perm T m hs hs' : hs ≡ₚ hs' -> heads_ok T m hs -> heads_ok T m hs'.
Proof.
  intros Hp [(Ho & Ht & Hh) Hn Hq Hd]. split.
  - split; [done|]. split; [by rewrite <- Hp|by rewrite Hh].
  - change (map acct ?l) with (acct <$> l) in *. by rewrite <- Hp.
  - intros t Hin. apply Hq. by rewrite Hp.
  - intros a q Ha. pose proof (Hd a q Ha) as Hin. change (map acct ?l) with (acct <$> l) in *. by rewrite <- Hp.
Qed.

Lemma forget_account (m : gmap Address (list Transaction)) a : (forall b q, m !! b = Some q -> Forall (of_account b) q) -> forall b q, delete a m !! b = Some q -> Forall (of_account b) q.
Proof. intros Hm b q [_ Hb]%lookup_delete_Some. by apply Hm. Qed.

(** Removing the best head with its account. *)
Lemma pop_head T m hs t : pn_rel T m -> heads_ok T m hs -> heads (pn_heads T) !! 0%nat = Some t ->
  exists hs', heap_Pop (pn_heads T) = Ret (t, hs') /\ pn_rel (mkPriceNonce (pn_txs T) hs' (pn_signer T)) (delete (acct t) m).
Proof.
  intros (Es & Hm & _) Hh Hr. destruct (heap_of_root _ _ _ (ho_heap _ _ _ Hh) Hr) as [Hin _].
  destruct (heap_of_pop _ _ (ho_heap _ _ _ Hh)) as (t' & s' & l' & E & Hr' & Hp & Hs'); [intros ->; by apply not_elem_of_nil in Hin|].
  rewrite Hr in Hr'. injection Hr' as <-. exists s'. split; [done|]. split; [done|]. split; [by apply forget_account|]. exists l'.
  apply (ho_perm _ _ _ _ Hp) in Hh. pose proof (ho_nodup _ _ _ Hh) as Hn. cbn [map] in Hn. apply NoDup_cons in Hn as [Hni Hn].
  assert (forall u, u ∈ l' -> acct u <> acct t) as Hne by (intros u Hu E'; apply Hni; rewrite <- E'; apply (list_elem_of_fmap_2 acct); done).
  split; cbn [pn_heads pn_txs]; [done|done| |].
  - intros u Hu. rewrite lookup_delete_ne by (intros E'; by apply (Hne u Hu)). apply (ho_queue _ _ _ Hh). apply elem_of_cons. by right.
  - intros a q [Ha Hq]%lookup_delete_Some. pose proof (ho_dom _ _ _ Hh a q Hq) as Hd. cbn [map] in Hd. apply elem_of_cons in Hd as [->|]; done.
Qed.

(** Replacing it by the next one of its account. *)
Lemma shift_head T m hs t next rest : pn_rel T m -> heads_ok T m hs -> heads (pn_heads T) !! 0%nat = Some t -> pn_txs T !! acct t = Some (next :: rest) ->
  pn_rel (mkPriceNonce (<[acct t := rest]> (pn_txs T)) (heap_Fix 0 (mkHeads (<[0%nat := next]> (heads (pn_heads T))))) (pn_signer T)) (<[acct t := next :: rest]> m).
Proof.
  intros (Es & Hm & _) Hh Hr Hx. destruct (heap_of_root _ _ _ (ho_heap _ _ _ Hh) Hr) as [Hin _]. pose proof (ho_queue _ _ _ Hh t Hin) as Hq. rewrite Hx in Hq. cbn [default] in Hq.
  pose proof (Hm _ _ Hq) as [_ Hrest]%Forall_cons. pose proof Hrest as [Hnext _]%Forall_cons. pose proof (of_account_acct _ _ Hnext) as Ea.
  apply list_elem_of_split in Hin as (l1 & l2 & ->). apply (ho_perm _ _ _ (t :: l1 ++ l2)) in Hh; [|by rewrite Permutation_middle].
  pose proof (ho_nodup _ _ _ Hh) as Hn. cbn [map] in Hn. apply NoDup_cons in Hn as [Hni Hn].
  assert (forall u, u ∈ l1 ++ l2 -> acct u <> acct t) as Hne by (intros u Hu E'; apply Hni; rewrite <- E'; apply (list_elem_of_fmap_2 acct); done).
  split; [done|]. split.
  { intros b q [[<- <-]|[_ Hb]]%lookup_insert_Some; [done|by apply Hm]. }
  exists (next :: l1 ++ l2). split; cbn [pn_heads pn_txs map].
  - apply (heap_of_fix _ _ t); [apply Hh|done|apply Hnext].
  - rewrite Ea. by apply NoDup_cons.
  - intros u [->|Hu]%elem_of_cons; [rewrite Ea, !lookup_insert_eq; done|]. pose proof (Hne u Hu). rewrite !lookup_insert_ne by done. apply (ho_queue _ _ _ Hh). apply elem_of_cons. by right.
  - intros a q [[<- <-]|[Ha Hq']]%lookup_insert_Some; [rewrite Ea; apply elem_of_cons; by left|]. pose proof (ho_dom _ _ _ Hh a q Hq') as Hd. cbn [map] in Hd.
    apply elem_of_cons in Hd as [->|Hd]; [done|]. apply elem_of_cons. by right.
Qed.

(** *** Building the set *)

(** Queues of an account: not empty, all from one sender where it is the
    account. *)
Definition grouped (a : Address) (q : list Transaction) : Prop :=
  exists t rest, q = t :: rest /\ account signer t <> Panic /\ (acct t = a -> Forall (of_account a) q).

Definition kept (kv : Address * list Transaction) : Prop := match kv.2 with t :: _ => acct t = kv.1 | [] => False end.

#[global] Instance kept_dec kv : Decision (kept kv).
Proof. unfold kept. destruct kv.2; apply _. Defined.

Definition kept_head (txs : gmap Address (list Transaction)) (a : Address) : option Transaction :=
  match txs !! a with Some (t :: _) => if acct t =? a then Some t else None | _ => None end.

Lemma account_acct t : account signer t <> Panic -> account signer t = Ret (acct t).
Proof. unfold acct, account. by destruct (Sender signer t).1. Qed.

Lemma collect_ok order : forall txs hs, NoDup order -> (forall a, a ∈ order -> exists q, txs !! a = Some q /\ grouped a q) ->
  exists txs', collect signer order txs hs = Ret (txs', hs ++ omap (kept_head txs) order) /\
    (forall a, a ∉ order -> txs' !! a = txs !! a) /\ (forall a t rest, a ∈ order -> txs !! a = Some (t :: rest) -> acct t = a -> txs' !! a = Some rest).
Proof.
  induction order as [|a order IH]; intros txs hs Hn Hg; cbn [collect omap list_omap].
  { exists txs. rewrite app_nil_r. split; [done|]. split; [done|]. intros b t rest Hb. by apply not_elem_of_nil in Hb. }
  apply NoDup_cons in Hn as [Ha Hn]. destruct (Hg a) as (q & Hq & t & rest & -> & Hp & Hf); [apply elem_of_cons; by left|].
  unfold kept_head at 1. rewrite Hq. cbn [deref mbind outcome_bind]. rewrite (account_acct t Hp). cbn [mbind outcome_bind].
  assert (forall txs1, (forall b, b <> a -> txs1 !! b = txs !! b) -> omap (kept_head txs1) order = omap (kept_head txs) order /\ forall b, b ∈ order -> exists q, txs1 !! b = Some q /\ grouped b q) as Hsame.
  { intros txs1 H1. split; [apply list_omap_ext, Forall_Forall2_diag, Forall_forall; intros b Hb; unfold kept_head; rewrite H1; [done|by intros ->]|].
    intros b Hb. rewrite H1 by (by intros ->). apply Hg. apply elem_of_cons. by right. }
  destruct (Z.eqb_spec (acct t) a) as [E|E]; cbn [negb].
  - destruct (Hsame (<[a := rest]> txs)) as [Eo Hg1]; [intros b Hb; by rewrite lookup_insert_ne|]. destruct (IH (<[a := rest]> txs) (hs ++ [t]) Hn Hg1) as (txs' & Ec & Hout & Hin).
    exists txs'. split; [rewrite Ec, Eo, <- app_assoc; done|]. split.
    + intros b Hb. rewrite not_elem_of_cons in Hb. rewrite Hout by tauto. by rewrite lookup_insert_ne by (by intros ->; tauto).
    + intros b u r [->|Hb]%elem_of_cons Hu Eu; [rewrite Hq in Hu; injection Hu as -> ->; rewrite Hout by done; apply lookup_insert_eq|].
      apply (Hin b u); [done| |done]. rewrite lookup_insert_ne by (by intros ->). done.
  - destruct (Hsame (delete a txs)) as [Eo Hg1]; [intros b Hb; by rewrite lookup_delete_ne|]. destruct (IH (delete a txs) hs Hn Hg1) as (txs' & Ec & Hout & Hin).
    exists txs'. split; [by rewrite Ec, Eo|]. split.
    + intros b Hb. rewrite not_elem_of_cons in Hb. rewrite Hout by tauto. by rewrite lookup_delete_ne by (by intros ->; tauto).
    + intros b u r [->|Hb]%elem_of_cons Hu Eu; [rewrite Hq in Hu; injection Hu as -> ->; done|].
      apply (Hin b u); [done| |done]. rewrite lookup_delete_ne by (by intros ->). done.
Qed.

Lemma kept_head_Some txs a t : kept_head txs a = Some t -> exists rest, txs !! a = Some (t :: rest) /\ acct t = a.
Proof.
  unfold kept_head. destruct (txs !! a) as [[|u rest]|]; try done. destruct (Z.eqb_spec (acct u) a); [|done]. intros [= ->]. by exists rest.
Qed.

Lemma kept_accounts txs order : sublist (map acct (omap (kept_head txs) order)) order.
Proof.
  induction order as [|a order IH]; cbn [omap list_omap]; [constructor|]. destruct (kept_head txs a) as [t|] eqn:E; [|by constructor].
  apply kept_head_Some in E as (_ & _ & E). cbn [map]. rewrite E. by constructor.
Qed.

(** An order of the accounts, and the queues of the accounts. *)
Record pool_ok (order : list Address) (txs : gmap Address (list Transaction)) : Prop := {
  po_nodup : NoDup order;
  po_dom a : a ∈ order <-> is_Some (txs !! a);
  po_queue a q : txs !! a = Some q -> grouped a q
}.

Lemma New_rel order txs : pool_ok order txs -> exists T, NewTransactionsByPriceAndNonce signer order txs = Ret T /\ pn_rel T (filter kept txs).
Proof.
  intros [Hn Hd Hg]. destruct (collect_ok order txs [] Hn) as (txs' & E & _ & Hin).
  { intros a [q Hq]%Hd. exists q. split; [done|by apply Hg]. }
  unfold NewTransactionsByPriceAndNonce. rewrite E. cbn [mbind outcome_bind app]. eexists. split; [done|]. set (hs := omap (kept_head txs) order).
  assert (forall t, t ∈ hs -> exists rest, txs !! acct t = Some (t :: rest) /\ txs' !! acct t = Some rest) as Hhs.
  { intros t (a & Ha & (rest & Hq & <-)%kept_head_Some)%list_elem_of_omap. exists rest. split; [done|]. by apply (Hin _ t). }
  assert (forall a q, filter kept txs !! a = Some q -> Forall (of_account a) q) as Hf.
  { intros a q [Hq Hk]%map_lookup_filter_Some. destruct (Hg a q Hq) as (t & rest & -> & _ & Hall). by apply Hall. }
  split; [done|]. split; [done|]. exists hs.
  assert (forall t rest, txs !! acct t = Some (t :: rest) -> filter kept txs !! acct t = Some (t :: rest)) as Hk by (intros t rest Hq; by apply map_lookup_filter_Some).
  split; cbn [pn_heads pn_txs].
  - apply heap_of_init, Forall_forall. intros t Ht. destruct (Hhs t Ht) as (rest & Hq & _). pose proof (Hf _ _ (Hk _ _ Hq)) as [[_ Htm] _]%Forall_cons. done.
  - by apply (sublist_NoDup (map acct hs) order Hn (kept_accounts txs order)).
  - intros t Ht. destruct (Hhs t Ht) as (rest & Hq & ->). by apply Hk.
  - intros a q [Hq Hka]%map_lookup_filter_Some. destruct (Hg a q Hq) as (t & rest & -> & _ & _). unfold kept in Hka. cbn [fst snd] in Hka. rewrite <- Hka.
    apply (list_elem_of_fmap_2 acct), list_elem_of_omap. exists a. split; [apply Hd; eauto|]. unfold kept_head. by rewrite Hq, Hka, Z.eqb_refl.
Qed.

(** ** The property *)

(** C33: the set of transactions offers, of the next
    transactions of all accounts, one with the highest gas price, the earliest
    seen if there are several.  Shifting moves on to the next transaction of
    the same account and popping drops the account; neither touches another
    account, loses a transaction or changes the order within an account. *)
Theorem price_nonce_refines (T : TransactionsByPriceAndNonce) (m : gmap Address (list Transaction)) (Hr : pn_rel T m) :
  (Peek T = None <-> m = ∅) /\
  forall t, Peek T = Some t -> exists rest, m !! acct t = Some (t :: rest) /\
    (forall a t' rest', m !! a = Some (t' :: rest') -> not_before t t') /\
    (exists T', Shift T = Ret T' /\ pn_rel T' (match rest with [] => delete (acct t) m | _ => <[acct t := rest]> m end)) /\
    (exists T', PriceNonce_Pop T = Ret T' /\ pn_rel T' (delete (acct t) m)).
Proof.
  pose proof Hr as (Es & Hm & hs & Hh). split.
  - unfold Peek. pose proof (ho_heap _ _ _ Hh) as (_ & _ & Hp). split.
    + intros E. assert (hs = []) as -> by (destruct (heads (pn_heads T)); [by apply Permutation_nil_l in Hp|done]).
      apply map_empty. intros a. destruct (m !! a) as [q|] eqn:Ea; [|done]. apply (ho_dom _ _ _ Hh) in Ea. by apply not_elem_of_nil in Ea.
    + intros ->. destruct (heads (pn_heads T)) as [|t l]; [done|]. assert (t ∈ hs) as Ht by (rewrite <- Hp; apply elem_of_cons; by left). pose proof (ho_queue _ _ _ Hh t Ht). done.
  - unfold Peek. intros t Ht. destruct (heap_of_root _ _ _ (ho_heap _ _ _ Hh) Ht) as [Hin Hbest]. pose proof (ho_queue _ _ _ Hh t Hin) as Hq. eexists. split; [exact Hq|].
    destruct (pop_head T m hs t Hr Hh Ht) as (hs' & Ep & Hpop). split_and!.
    + intros a t' rest' Ha. destruct (ho_elem _ _ _ a _ Hh Ha) as (u & Hu & _ & [= <- _]). by apply Hbest.
    + unfold Shift. rewrite Ht. cbn [deref mbind outcome_bind]. rewrite Es. pose proof (Hm _ _ Hq) as [[Ea _] _]%Forall_cons. rewrite Ea. cbn [mbind outcome_bind].
      destruct (pn_txs T !! acct t) as [[|next rest]|] eqn:Ex; cbn [default].
      * rewrite Ep. cbn [mbind outcome_bind]. eexists. split; [done|]. by rewrite <- Es.
      * eexists. split; [done|]. rewrite <- Es. by apply (shift_head T m hs).
      * rewrite Ep. cbn [mbind outcome_bind]. eexists. split; [done|]. by rewrite <- Es.
    + unfold PriceNonce_Pop. rewrite Ep. eexists. by split.
Qed.

End Refine.

(** ** Example *)

Section Witness.
#[local] Existing Instance sample_keccak.
#[local] Existing Instance sample_secp.

Definition paid (key : @ec_key sample_secp) (nonce price time : Z) : Transaction :=
  let d := Legacy (mkLegacyTx nonce (Some price) 21000 (Some 9) (Some 1) [] None None None) in
  match SignNewTx key HomesteadSigner d time with Ret t => t | _ => NewTx d time end.

Definition alice : Address := pub_address (@ec_pubkey sample_secp 1).
Definition bob : Address := pub_address (@ec_pubkey sample_secp 2).
Definition alice_txs : list Transaction := [paid 1 0 5 100; paid 1 1 90 101].
Definition bob_txs : list Transaction := [paid 2 7 20 102].
Definition sample_pool : gmap Address (list Transaction) := <[alice := alice_txs]> {[bob := bob_txs]}.

Lemma alice_not_bob : alice <> bob.
Proof. vm_compute. done. Qed.

Lemma alice_sent : Forall (of_account HomesteadSigner alice) alice_txs.
Proof. repeat constructor; vm_compute; done. Qed.

Lemma bob_sent : Forall (of_account HomesteadSigner bob) bob_txs.
Proof. repeat constructor; vm_compute; done. Qed.

Lemma alice_some : alice_txs <> [].
Proof. done. Qed.

Lemma bob_some : bob_txs <> [].
Proof. done. Qed.

#[local] Opaque alice bob alice_txs bob_txs.

Lemma sent_grouped a q : q <> [] -> Forall (of_account HomesteadSigner a) q -> grouped HomesteadSigner a q.
Proof. intros Hne Hq. destruct q as [|t rest]; [done|]. exists t, rest. split; [done|]. split; [|done]. apply Forall_cons in Hq as [[E _] _]. by rewrite E. Qed.

Lemma sample_pool_ok : pool_ok HomesteadSigner [bob; alice] sample_pool.
Proof.
  split.
  - apply NoDup_cons. split; [|by apply NoDup_singleton]. intros E%list_elem_of_singleton. by apply alice_not_bob.
  - intros a. rewrite elem_of_cons, list_elem_of_singleton. unfold sample_pool. rewrite lookup_insert_is_Some, lookup_singleton_is_Some.
    destruct (decide (alice = a)) as [<-|n].
    + split; intros _; [left; reflexivity|right; reflexivity].
    + split; [intros [-> | ->]; [right; split; [exact n|reflexivity]|by destruct (n eq_refl)]|]. intros [E|[_ E]]; [destruct (n E)|left; symmetry; exact E].
  - unfold sample_pool. intros a q [[<- <-]|[_ [<- <-]%lookup_singleton_Some]]%lookup_insert_Some; apply sent_grouped; [apply alice_some|apply alice_sent|apply bob_some|apply bob_sent].
Qed.

Definition sample_set : TransactionsByPriceAndNonce :=
  match NewTransactionsByPriceAndNonce HomesteadSigner [bob; alice] sample_pool with Ret T => T | _ => mkPriceNonce ∅ (mkHeads []) HomesteadSigner end.

Definition kept_pool : gmap Address (list Transaction) := filter (kept HomesteadSigner) sample_pool.

Lemma sample_set_rel : pn_rel HomesteadSigner sample_set kept_pool.
Proof.
  destruct (New_rel HomesteadSigner [bob; alice] sample_pool sample_pool_ok) as (T & E & HT). unfold sample_set. rewrite E. exact HT.
Qed.

(** Bob's transaction is the dearest that can be executed. *)
Lemma price_nonce_refines_witness : Peek sample_set = Some (paid 2 7 20 102) /\ exists T', Shift sample_set = Ret T' /\ Peek T' = Some (paid 1 0 5 100).
Proof.
  assert (Peek sample_set = Some (paid 2 7 20 102)) as Hp by (vm_compute; reflexivity). split; [exact Hp|].
  destruct (price_nonce_refines HomesteadSigner sample_set kept_pool sample_set_rel) as [_ Hall].
  destruct (Hall _ Hp) as (rest & _ & _ & (T' & E & _) & _). exists T'. split; [exact E|].
  assert (match Shift sample_set with Ret T => Peek T | _ => None end = Some (paid 1 0 5 100)) as Hs by (vm_compute; reflexivity). rewrite E in Hs. exact Hs.
Defined.

End Witness.
