(* ===== verification/TxList.v ===== *)
(** * The transaction pool's lists ([core/tx_list.go], [core/tx_noncer.go])

    The transactions of one account in the pool: a map from nonces to
    transactions with a heap of the nonces and a cache of the sorted contents
    ([txSortedMap]), and the list with the caps on cost and gas built on it
    ([txList]).  Both refine a finite map from nonces: the heap and the cache
    never show.  Go ranges over maps in any order: the order is an argument, of
    which only that it is a permutation is assumed.  [sort.Sort] is the sorted
    permutation, which is unique since the nonces of a map are distinct.  A nil
    entry a map would return for an absent key is [None]. *)
From Stdlib Require Import ZArith Lia.
From stdpp Require Import base list option gmap sorting.
From S2P Require Import Prelude Errors Prque Common Transaction Signing PriceNonce.
Open Scope Z_scope.

(** ** The heap of nonces *)

Record nonceHeap := mkNonces { nonces : list Z }.

#[global] Instance nonce_heap : HeapInterface nonceHeap Z := {|
  h_Len h := length (nonces h);
  h_Less h i j := match nonces h !! i, nonces h !! j with Some a, Some b => a <? b | _, _ => false end;
  h_Swap i j h := mkNonces (list_Swap i j (nonces h));
  h_Push x h := mkNonces (nonces h ++ [x]);
  h_Pop h := '(x, l) ← list_Pop (nonces h); Ret (x, mkNonces l)
|}.

(** ** The sorted map *)

Record txSortedMap := mkSortedMap {
  sm_items : gmap Z Transaction;
  sm_index : nonceHeap;
  sm_cache : option (list Transaction)
}.

Definition Nonce (t : Transaction) : Z := tx_nonce (t_inner t).

Definition newTxSortedMap : txSortedMap := mkSortedMap ∅ (mkNonces []) None.

Definition sm_Get (nonce : Z) (m : txSortedMap) : option Transaction := sm_items m !! nonce.

Definition sm_Put (tx : Transaction) (m : txSortedMap) : txSortedMap :=
  let nonce := Nonce tx in
  let index := match sm_items m !! nonce with None => heap_Push nonce (sm_index m) | Some _ => sm_index m end in
  mkSortedMap (<[nonce := tx]> (sm_items m)) index None.

(** Slices of the cache, which panic when they are out of range. *)
Definition slice_from (n : nat) (cache : option (list Transaction)) : outcome (option (list Transaction)) :=
  match cache with
  | None => Ret None
  | Some l => if (n <=? length l)%nat then Ret (Some (drop n l)) else Panic
  end.

Definition slice_back (n : nat) (cache : option (list Transaction)) : outcome (option (list Transaction)) :=
  match cache with
  | None => Ret None
  | Some l => if (n <=? length l)%nat then Ret (Some (take (length l - n) l)) else Panic
  end.

(** The loop of [Forward]; every round pops a nonce, so their number is fuel
    enough. *)
Fixpoint forward_loop (fuel : nat) (threshold : Z) (items : gmap Z Transaction) (index : nonceHeap) (removed : list (option Transaction)) :
    outcome (gmap Z Transaction * nonceHeap * list (option Transaction)) :=
  match nonces index !! 0%nat with
  | Some first =>
      if first <? threshold then
        match fuel with
        | O => Panic
        | S fuel' =>
            '(nonce, index') ← heap_Pop index;
            forward_loop fuel' threshold (delete nonce items) index' (removed ++ [items !! nonce])
        end
      else Ret (items, index, removed)
  | None => Ret (items, index, removed)
  end.

Definition sm_Forward (threshold : Z) (m : txSortedMap) : outcome (list (option Transaction) * txSortedMap) :=
  '(items, index, removed) ← forward_loop (length (nonces (sm_index m))) threshold (sm_items m) (sm_index m) [];
  cache ← slice_from (length removed) (sm_cache m);
  Ret (removed, mkSortedMap items index cache).

Section Order.
Variable order : gmap Z Transaction -> list (Z * Transaction).

Definition sm_reheap (m : txSortedMap) : txSortedMap :=
  mkSortedMap (sm_items m) (heap_Init (mkNonces (order (sm_items m)).*1)) None.

(** The loop of [filter] over the entries. *)
Fixpoint filter_loop (f : Transaction -> bool) (entries : list (Z * Transaction)) (items : gmap Z Transaction) (removed : list Transaction) :
    gmap Z Transaction * list Transaction :=
  match entries with
  | [] => (items, removed)
  | (nonce, tx) :: entries' =>
      if f tx then filter_loop f entries' (delete nonce items) (removed ++ [tx]) else filter_loop f entries' items removed
  end.

Definition sm_filter (f : Transaction -> bool) (m : txSortedMap) : list Transaction * txSortedMap :=
  let '(items, removed) := filter_loop f (order (sm_items m)) (sm_items m) [] in
  (removed, mkSortedMap items (sm_index m) (match removed with [] => sm_cache m | _ => None end)).

Definition sm_Filter (f : Transaction -> bool) (m : txSortedMap) : list Transaction * txSortedMap :=
  let '(removed, m') := sm_filter f m in
  (removed, match removed with [] => m' | _ => sm_reheap m' end).

(** The loop of [Cap]: from the last nonce of the sorted index downwards. *)
Fixpoint cap_loop (size : nat) (threshold : Z) (index : list Z) (items : gmap Z Transaction) (drops : list (option Transaction)) :
    outcome (gmap Z Transaction * list (option Transaction)) :=
  if threshold <? Z.of_nat size then
    match size with
    | O => Panic
    | S n =>
        nonce ← deref (index !! n);
        cap_loop n threshold index (delete nonce items) (drops ++ [items !! nonce])
    end
  else Ret (items, drops).

Definition sm_Cap (threshold : Z) (m : txSortedMap) : outcome (list (option Transaction) * txSortedMap) :=
  if Z.of_nat (size (sm_items m)) <=? threshold then Ret ([], m)
  else
    let index := merge_sort Z.le (nonces (sm_index m)) in
    '(items, drops) ← cap_loop (size (sm_items m)) threshold index (sm_items m) [];
    cache ← slice_back (length drops) (sm_cache m);
    Ret (drops, mkSortedMap items (heap_Init (mkNonces (take (Z.to_nat threshold) index))) cache).

(** The position of a nonce in the index. *)
Definition position (nonce : Z) (index : list Z) : option nat := fst <$> list_find (fun n => n = nonce) index.

Definition sm_Remove (nonce : Z) (m : txSortedMap) : outcome (bool * txSortedMap) :=
  match sm_items m !! nonce with
  | None => Ret (false, m)
  | Some _ =>
      index ← (match position nonce (nonces (sm_index m)) with
               | Some i => '(_, index) ← heap_Remove i (sm_index m); Ret index
               | None => Ret (sm_index m)
               end);
      Ret (true, mkSortedMap (delete nonce (sm_items m)) index None)
  end.

(** The loop of [Ready]; the nonce wraps around. *)
Fixpoint ready_loop (fuel : nat) (next : Z) (items : gmap Z Transaction) (index : nonceHeap) (ready : list (option Transaction)) :
    outcome (gmap Z Transaction * nonceHeap * list (option Transaction)) :=
  match nonces index !! 0%nat with
  | Some first =>
      if first =? next then
        match fuel with
        | O => Panic
        | S fuel' =>
            '(_, index') ← heap_Pop index;
            ready_loop fuel' (u64 (next + 1)) (delete next items) index' (ready ++ [items !! next])
        end
      else Ret (items, index, ready)
  | None => Ret (items, index, ready)
  end.

Definition sm_Ready (start : Z) (m : txSortedMap) : outcome (list (option Transaction) * txSortedMap) :=
  match nonces (sm_index m) !! 0%nat with
  | None => Ret ([], m)
  | Some first =>
      if start <? first then Ret ([], m)
      else
        '(items, index, ready) ← ready_loop (length (nonces (sm_index m))) first (sm_items m) (sm_index m) [];
        Ret (ready, mkSortedMap items index None)
  end.

Definition sm_Len (m : txSortedMap) : nat := size (sm_items m).

(** [sort.Sort(types.TxByNonce(...))] *)
Definition TxByNonce (a b : Transaction) : Prop := Nonce a <= Nonce b.
#[global] Instance TxByNonce_dec : RelDecision TxByNonce.
Proof. intros a b. unfold TxByNonce. apply _. Defined.

Definition sm_flatten (m : txSortedMap) : list Transaction * txSortedMap :=
  match sm_cache m with
  | Some l => (l, m)
  | None =>
      let l := merge_sort TxByNonce (order (sm_items m)).*2 in
      (l, mkSortedMap (sm_items m) (sm_index m) (Some l))
  end.

(** [Flatten] returns a copy, [LastElement] the last entry. *)
Definition sm_Flatten (m : txSortedMap) : list Transaction * txSortedMap := sm_flatten m.

Definition sm_LastElement (m : txSortedMap) : outcome (Transaction * txSortedMap) :=
  let '(l, m') := sm_flatten m in
  tx ← deref (last l);
  Ret (tx, m').

End Order.

(** ** The index of nonces is a heap *)

#[local] Instance nonce_ranked : Ranked Z := Z.opp.

Definition nonce_rel (h : nonceHeap) (l : list Z) : Prop := nonces h = l.

#[global] Instance nonce_refines : HeapRefinement nonce_rel.
Proof.
  split; [split|..]; cbn [h_Len h_Less h_Swap h_Push h_Pop nonce_heap list_heap]; unfold nonce_rel.
  - by intros s l ->.
  - intros s l i j -> [a Ha]%lookup_lt_is_Some_2 [b Hb]%lookup_lt_is_Some_2. unfold list_Less, rank, nonce_ranked. rewrite Ha, Hb.
    destruct (Z.ltb_spec a b), (Z.ltb_spec (- b) (- a)); lia || done.
  - by intros s l i j ->.
  - intros i j l. apply length_list_Swap.
  - intros s l ->. unfold list_Pop. by destruct (last l).
  - by intros s l x ->.
  - intros x l. rewrite length_app. cbn. lia.
Qed.

(** Heaps of an ascending list: the root is its head. *)
Definition index_of (h : nonceHeap) (ns : list Z) : Prop := StronglySorted Z.lt ns /\ heap_holds nonce_rel h ns.

Lemma index_root h ns : index_of h ns -> nonces h !! 0%nat = head ns.
Proof.
  intros [Hs Hh]. destruct ns as [|n ns].
  - destruct Hh as (l & -> & _ & ->%Permutation_nil_r). done.
  - destruct (holds_root _ _ _ Hh) as (l & x & -> & -> & Hx & Hmin); [done|]. apply StronglySorted_inv in Hs as [_ Hs]. rewrite Forall_forall in Hs.
    specialize (Hmin n ltac:(apply elem_of_cons; by left)). unfold rank, nonce_ranked in Hmin. apply elem_of_cons in Hx as [->|Hx]; [done|]. specialize (Hs x Hx). lia.
Qed.

Lemma index_pop h n ns : index_of h (n :: ns) -> exists h', heap_Pop h = Ret (n, h') /\ index_of h' ns.
Proof.
  intros [Hs Hh]. destruct (holds_pop _ _ _ Hh) as (x & h' & l' & E & Hp & Hh' & Hmin); [done|]. apply StronglySorted_inv in Hs as [Hs Hn]. rewrite Forall_forall in Hn.
  assert (x = n) as ->.
  { assert (x ∈ n :: ns) as Hx by (rewrite Hp; apply elem_of_cons; by left). apply elem_of_cons in Hx as [->|Hx]; [done|]. specialize (Hn x Hx).
    assert (n ∈ x :: l') as [->|Hn']%elem_of_cons by (rewrite <- Hp; apply elem_of_cons; by left); [lia|]. specialize (Hmin n Hn'). unfold rank, nonce_ranked in Hmin. lia. }
  exists h'. split; [done|]. split; [done|]. apply Permutation_cons_inv in Hp. by rewrite Hp.
Qed.

Lemma index_init l ns : StronglySorted Z.lt ns -> l ≡ₚ ns -> index_of (heap_Init (mkNonces l)) ns.
Proof. intros Hs Hp. split; [done|]. rewrite <- Hp. by apply holds_init; [apply _|]. Qed.

(** ** Ascending lists of transactions and their maps *)

Definition before (a b : Transaction) : Prop := Nonce a < Nonce b.
Definition ascending (l : list Transaction) : Prop := StronglySorted before l.
Definition entries (l : list Transaction) : list (Z * Transaction) := (fun t => (Nonce t, t)) <$> l.
Definition contents (l : list Transaction) : gmap Z Transaction := list_to_map (entries l).

Lemma entries_fst l : (entries l).*1 = Nonce <$> l.
Proof. unfold entries. rewrite <- list_fmap_compose. done. Qed.

Lemma entries_snd l : (entries l).*2 = l.
Proof. unfold entries. rewrite <- list_fmap_compose. cbn. apply list_fmap_id. Qed.

Lemma ascending_nonces l : ascending l <-> StronglySorted Z.lt (Nonce <$> l).
Proof.
  unfold ascending. induction l as [|t l IH]; [split; constructor|]. rewrite fmap_cons.
  split; intros [Hs Hf]%StronglySorted_inv; constructor; try by apply IH.
  - by rewrite Forall_fmap.
  - by rewrite Forall_fmap in Hf.
Qed.

Lemma ascending_NoDup l : ascending l -> NoDup (Nonce <$> l).
Proof.
  induction l as [|t l IH]; [constructor|]. intros [Hs Hf]%StronglySorted_inv. cbn. apply NoDup_cons. split; [|by apply IH].
  intros (u & E & Hu)%list_elem_of_fmap. rewrite Forall_forall in Hf. specialize (Hf u Hu). unfold before in Hf. lia.
Qed.

Lemma ascending_sublist l l' : sublist l' l -> ascending l -> ascending l'.
Proof.
  intros Hsub. induction Hsub as [|t l1 l2 Hsub IH|t l1 l2 Hsub IH]; [done|..]; intros [Hs Hf]%StronglySorted_inv; [|by apply IH].
  constructor; [by apply IH|]. rewrite Forall_forall in *. intros u Hu. apply Hf. by eapply elem_of_sublist.
Qed.

Lemma ascending_unique l l' : ascending l -> l' ≡ₚ l -> merge_sort TxByNonce l' = l.
Proof.
  intros Hs Hp. assert (merge_sort TxByNonce l' ≡ₚ l) as Hp' by (by rewrite merge_sort_Permutation).
  apply (StronglySorted_unique_strong TxByNonce); [| | |done].
  - intros a b Ha Hb H1 H2. rewrite Hp' in Ha. unfold TxByNonce in *. pose proof (ascending_NoDup l Hs) as Hn.
    apply list_elem_of_lookup in Ha as [i Hi], Hb as [j Hj]. assert (i = j) as ->; [|congruence].
    eapply (NoDup_lookup (Nonce <$> l)); [done|rewrite list_lookup_fmap, Hi; done|rewrite list_lookup_fmap, Hj; cbn; f_equal; lia].
  - apply StronglySorted_merge_sort; [intros a b c; unfold TxByNonce; lia|intros a b; unfold TxByNonce; lia].
  - clear Hp Hp'. induction Hs as [|t l Hs IH Hf]; constructor; [done|]. eapply Forall_impl; [done|]. unfold before, TxByNonce. lia.
Qed.

Lemma contents_lookup l n t : ascending l -> contents l !! n = Some t <-> t ∈ l /\ Nonce t = n.
Proof.
  intros Hs. unfold contents. rewrite <- elem_of_list_to_map by (rewrite entries_fst; by apply ascending_NoDup). unfold entries. rewrite list_elem_of_fmap. split.
  - intros (u & [= -> ->] & Hu). done.
  - intros [Hu <-]. by exists t.
Qed.

Lemma contents_None l n : contents l !! n = None <-> n ∉ Nonce <$> l.
Proof. unfold contents. rewrite <- entries_fst. split; [apply not_elem_of_list_to_map_2|apply not_elem_of_list_to_map_1]. Qed.

Lemma contents_perm l l' : ascending l -> l ≡ₚ l' -> contents l = contents l'.
Proof. intros Hs Hp. apply list_to_map_proper; [rewrite entries_fst; by apply ascending_NoDup|]. unfold entries. by rewrite Hp. Qed.

Lemma contents_delete l l' t : ascending l -> l ≡ₚ t :: l' -> delete (Nonce t) (contents l) = contents l'.
Proof.
  intros Hs Hp. rewrite (contents_perm l (t :: l')) by done. apply delete_insert_id, contents_None. pose proof (ascending_NoDup l Hs) as Hn.
  rewrite Hp in Hn. cbn in Hn. by apply NoDup_cons in Hn as [? _].
Qed.

Lemma contents_list l : ascending l -> map_to_list (contents l) ≡ₚ entries l.
Proof. intros Hs. apply map_to_list_to_map. rewrite entries_fst. by apply ascending_NoDup. Qed.

Lemma contents_size l : ascending l -> size (contents l) = length l.
Proof. intros Hs. rewrite <- length_map_to_list, (contents_list l Hs). unfold entries. by rewrite length_fmap. Qed.

(** ** The sorted map refines an ascending list *)

Definition in_range (t : Transaction) : Prop := 0 <= Nonce t < 2 ^ 64.

Record sm_rel (m : txSortedMap) (l : list Transaction) : Prop := {
  sr_ascending : ascending l;
  sr_items : sm_items m = contents l;
  sr_index : index_of (sm_index m) (Nonce <$> l);
  sr_cache : sm_cache m = None \/ sm_cache m = Some l;
  sr_range : Forall in_range l
}.

Lemma newTxSortedMap_rel : sm_rel newTxSortedMap [].
Proof.
  split; cbn; [constructor|done| |by left|constructor]. split; [constructor|]. exists []. split; [done|]. split; [intros i Hi; cbn in Hi; lia|done].
Qed.

(** [Put]: into its place, instead of one with the same nonce. *)
Fixpoint insert_tx (tx : Transaction) (l : list Transaction) : list Transaction :=
  match l with
  | [] => [tx]
  | t :: l' => if Nonce tx <? Nonce t then tx :: l else if Nonce tx =? Nonce t then tx :: l' else t :: insert_tx tx l'
  end.

Lemma put_elem tx l u : u ∈ insert_tx tx l -> u = tx \/ u ∈ l.
Proof.
  induction l as [|t l IH]; cbn; [by intros ->%list_elem_of_singleton; left|]. destruct (Nonce tx <? Nonce t); [set_solver|].
  destruct (Nonce tx =? Nonce t); set_solver.
Qed.

Lemma put_ascending tx l : ascending l -> ascending (insert_tx tx l).
Proof.
  unfold ascending. induction l as [|t l IH]; [intros _; repeat constructor|]. intros Hs. pose proof Hs as [Hs' Hf]%StronglySorted_inv. rewrite Forall_forall in Hf. cbn.
  destruct (Z.ltb_spec (Nonce tx) (Nonce t)); [constructor; [done|]|destruct (Z.eqb_spec (Nonce tx) (Nonce t)) as [E|]; (constructor; [by auto|])];
    apply Forall_forall; intros u Hu; unfold before in *.
  - apply elem_of_cons in Hu as [->|Hu]; [done|]. specialize (Hf u Hu). lia.
  - specialize (Hf u Hu). lia.
  - apply put_elem in Hu as [->|Hu]; [lia|by apply Hf].
Qed.

Lemma put_contents tx l : ascending l -> contents (insert_tx tx l) = <[Nonce tx := tx]> (contents l).
Proof.
  induction l as [|t l IH]; [done|]. intros [Hs' Hf]%StronglySorted_inv. cbn. destruct (Z.ltb_spec (Nonce tx) (Nonce t)); [done|].
  destruct (Z.eqb_spec (Nonce tx) (Nonce t)) as [E|E].
  - unfold contents. cbn. by rewrite E, insert_insert_eq.
  - change (<[Nonce t := t]> (contents (insert_tx tx l)) = <[Nonce tx := tx]> (<[Nonce t := t]> (contents l))). rewrite IH by done. by apply insert_insert_ne.
Qed.

Lemma put_nonces tx l : ascending l -> Nonce <$> insert_tx tx l ≡ₚ if decide (Nonce tx ∈ Nonce <$> l) then Nonce <$> l else Nonce tx :: (Nonce <$> l).
Proof.
  induction l as [|t l IH]; [intros _; destruct (decide _) as [[]%not_elem_of_nil|]; done|]. intros [Hs Hf]%StronglySorted_inv. rewrite Forall_forall in Hf. cbn [insert_tx].
  destruct (Z.ltb_spec (Nonce tx) (Nonce t)).
  - destruct (decide (Nonce tx ∈ Nonce <$> t :: l)) as [Hin|Hin]; [|by rewrite (fmap_cons Nonce tx)]. apply list_elem_of_fmap in Hin as (u & E & [->|Hu]%elem_of_cons); [lia|]. specialize (Hf u Hu). unfold before in Hf. lia.
  - destruct (Z.eqb_spec (Nonce tx) (Nonce t)) as [E|E].
    + rewrite decide_True by (rewrite E; apply elem_of_cons; by left). cbn. by rewrite E.
    + rewrite !fmap_cons, (IH Hs). destruct (decide (Nonce tx ∈ Nonce <$> l)) as [Hin|Hin].
      * rewrite decide_True by (apply elem_of_cons; by right). done.
      * rewrite decide_False by (rewrite not_elem_of_cons; done). apply Permutation_swap.
Qed.

Lemma put_new tx l : Nonce tx ∉ Nonce <$> l -> insert_tx tx l ≡ₚ tx :: l.
Proof.
  induction l as [|t l IH]; [done|]. rewrite fmap_cons, not_elem_of_cons. intros [Hne Hni]. cbn [insert_tx]. destruct (Nonce tx <? Nonce t); [done|].
  destruct (Z.eqb_spec (Nonce tx) (Nonce t)); [done|]. rewrite IH by done. apply Permutation_swap.
Qed.

Lemma put_replaced tx l o l' : NoDup (Nonce <$> l) -> l ≡ₚ o :: l' -> Nonce o = Nonce tx -> ascending l -> insert_tx tx l ≡ₚ tx :: l'.
Proof.
  revert l'. induction l as [|t l IH]; intros l' Hn Hp E Hs; [by apply Permutation_nil_cons in Hp|]. cbn [insert_tx].
  pose proof Hs as [Hs' Hf]%StronglySorted_inv. rewrite Forall_forall in Hf. apply NoDup_cons in Hn as [Hni Hn].
  assert (o ∈ t :: l) as [->|Ho]%elem_of_cons by (rewrite Hp; apply elem_of_cons; by left).
  - apply Permutation_cons_inv in Hp. rewrite E, Z.ltb_irrefl, Z.eqb_refl. by rewrite Hp.
  - specialize (Hf o Ho) as Hto. unfold before in Hto. destruct (Z.ltb_spec (Nonce tx) (Nonce t)); [lia|]. destruct (Z.eqb_spec (Nonce tx) (Nonce t)); [lia|].
    assert (t ∈ l') as Ht. { assert (t ∈ o :: l') as [->|]%elem_of_cons by (rewrite <- Hp; apply elem_of_cons; by left); [lia|done]. }
    apply elem_of_Permutation in Ht as [l1 Hl1]. rewrite Hl1 in Hp. rewrite (Permutation_swap t o) in Hp. apply Permutation_cons_inv in Hp.
    rewrite (IH l1), Hl1 by done. apply Permutation_swap.
Qed.

Lemma sm_Put_rel tx m l : sm_rel m l -> in_range tx -> sm_rel (sm_Put tx m) (insert_tx tx l).
Proof.
  intros [Hs Hi [Hn Hh] _ Hr] Ht. split; cbn [sm_Put sm_items sm_index sm_cache].
  - by apply put_ascending.
  - by rewrite Hi, put_contents.
  - split; [by apply ascending_nonces, put_ascending|]. rewrite put_nonces, Hi by done. destruct (contents l !! Nonce tx) as [t|] eqn:E.
    + apply contents_lookup in E as [Hin <-]; [|done]. rewrite decide_True; [done|]. by apply list_elem_of_fmap_2.
    + apply contents_None in E. rewrite decide_False by done. by apply holds_push; [apply _|].
  - by left.
  - apply Forall_forall. rewrite Forall_forall in Hr. intros u [->|Hu]%put_elem; auto.
Qed.

(** Parts of the list keep what is known of it. *)
Lemma index_sublist l l' : ascending l -> sublist l' l -> StronglySorted Z.lt (Nonce <$> l').
Proof. intros Hs Hsub. apply ascending_nonces. by eapply ascending_sublist. Qed.

Lemma range_sublist l l' : Forall in_range l -> sublist l' l -> Forall in_range l'.
Proof. intros Hr Hsub. rewrite Forall_forall in *. intros u Hu. apply Hr. by eapply elem_of_sublist. Qed.

Lemma sm_rel_part m l items index cache l' : sm_rel m l -> sublist l' l -> items = contents l' ->
  heap_holds nonce_rel index (Nonce <$> l') -> cache = None \/ cache = Some l' -> sm_rel (mkSortedMap items index cache) l'.
Proof.
  intros Hr Hsub Hi Hh Hc. pose proof (sr_ascending _ _ Hr) as Hs. split; [by eapply ascending_sublist|done| |done|].
  - split; [by eapply index_sublist|done].
  - eapply range_sublist; [apply Hr|done].
Qed.

(** [Forward] splits the list at the threshold. *)
Lemma split_threshold th l : ascending l ->
  l = filter (fun t => Nonce t < th) l ++ filter (fun t => th <= Nonce t) l.
Proof.
  induction l as [|t l IH]; [done|]. intros [Hs Hf]%StronglySorted_inv. rewrite !filter_cons. destruct (decide (Nonce t < th)).
  - rewrite decide_False by lia. cbn. f_equal. by apply IH.
  - rewrite decide_True by lia. rewrite Forall_forall in Hf. replace (filter (fun u => Nonce u < th) l) with (@nil Transaction).
    + cbn. f_equal. symmetry. apply filter_all. intros u Hu. specialize (Hf u Hu). unfold before in Hf. lia.
    + symmetry. apply filter_none. intros u Hu. specialize (Hf u Hu). unfold before in Hf. lia.
Qed.

Lemma forward_loop_ok th l : forall fuel items index removed, ascending l -> items = contents l -> index_of index (Nonce <$> l) -> (length l <= fuel)%nat ->
  exists index', forward_loop fuel th items index removed =
      Ret (contents (filter (fun t => th <= Nonce t) l), index', removed ++ (Some <$> filter (fun t => Nonce t < th) l)) /\
    index_of index' (Nonce <$> filter (fun t => th <= Nonce t) l).
Proof.
  induction l as [|t l IH]; intros fuel items index removed Hs Hi Hx Hf.
  - exists index. destruct fuel; cbn [forward_loop]; rewrite (index_root _ _ Hx); cbn; by rewrite app_nil_r, Hi.
  - pose proof Hs as [Hs' _]%StronglySorted_inv. destruct fuel as [|fuel]; [cbn in Hf; lia|]. cbn [forward_loop]. rewrite (index_root _ _ Hx). cbn [fmap list_fmap head].
    destruct (Z.ltb_spec (Nonce t) th) as [Hlt|Hge].
    + destruct (index_pop _ _ _ Hx) as (index1 & E & Hx1). rewrite E. cbn [mbind outcome_bind]. rewrite Hi.
      rewrite (contents_delete _ l) by done. destruct (IH fuel (contents l) index1 (removed ++ [contents (t :: l) !! Nonce t])) as (index' & E' & Hx'); [done|done|done|cbn in Hf; lia|].
      exists index'. rewrite filter_cons_False, filter_cons_True by lia. split; [|done]. rewrite E', <- app_assoc. do 3 f_equal.
      cbn. by rewrite lookup_insert_eq.
    + exists index. pose proof (split_threshold th _ Hs) as Hsp. rewrite filter_cons_False in Hsp by lia. rewrite (filter_cons_False (fun u => Nonce u < th)) by lia.
      destruct (filter (fun u => Nonce u < th) l) as [|u l1] eqn:E1.
      * cbn [app] in Hsp. rewrite <- Hsp. cbn. by rewrite app_nil_r, Hi.
      * exfalso. injection Hsp as -> _. assert (u ∈ filter (fun u => Nonce u < th) l) as [? _]%list_elem_of_filter by (rewrite E1; apply elem_of_cons; by left). lia.
Qed.

Lemma index_length h ns : index_of h ns -> length (nonces h) = length ns.
Proof. intros [_ (l & -> & _ & Hp)]. by rewrite Hp. Qed.

Lemma sm_Forward_rel th m l : sm_rel m l -> exists m',
  sm_Forward th m = Ret (Some <$> filter (fun t => Nonce t < th) l, m') /\ sm_rel m' (filter (fun t => th <= Nonce t) l).
Proof.
  intros Hr. pose proof Hr as [Hs Hi Hx Hc Hrg]. unfold sm_Forward.
  destruct (forward_loop_ok th l (length (nonces (sm_index m))) (sm_items m) (sm_index m) [] Hs Hi Hx) as (index' & E & Hx').
  { rewrite (index_length _ _ Hx), length_fmap. done. }
  rewrite E. cbn [mbind outcome_bind app]. rewrite length_fmap. pose proof (split_threshold th l Hs) as Hsp.
  assert (exists c, slice_from (length (filter (fun t => Nonce t < th) l)) (sm_cache m) = Ret c /\ (c = None \/ c = Some (filter (fun t => th <= Nonce t) l))) as (c & -> & Hc').
  { destruct Hc as [-> | ->]; [exists None; by split; [|left]|]. eexists. split; [|by right]. cbn [slice_from]. rewrite leb_correct.
    - do 2 f_equal. rewrite Hsp at 2. apply drop_app_length.
    - rewrite Hsp at 2. rewrite length_app. lia. }
  eexists. split; [done|]. eapply sm_rel_part; [done|apply sublist_filter|done|apply Hx'|done].
Qed.

Section Ranges.
Context (order : gmap Z Transaction -> list (Z * Transaction)) (Horder : forall m, order m ≡ₚ map_to_list m).

(** What a sorted map holds while the heap is not up to date. *)
Definition holds (m : txSortedMap) (l : list Transaction) : Prop :=
  ascending l /\ sm_items m = contents l /\ Forall in_range l.

Lemma sm_rel_holds m l : sm_rel m l -> holds m l.
Proof. by intros []. Qed.

Lemma order_contents l : ascending l -> order (contents l) ≡ₚ entries l.
Proof. intros Hs. by rewrite Horder, contents_list. Qed.

Lemma reheap_rel m l : holds m l -> sm_rel (sm_reheap order m) l.
Proof.
  intros (Hs & Hi & Hr). split; cbn [sm_reheap sm_items sm_index sm_cache]; [done|done| |by left|done].
  apply index_init; [by apply ascending_nonces|]. rewrite Hi, (order_contents l Hs), entries_fst. done.
Qed.

Lemma filter_loop_removed f es : forall items removed, (filter_loop f es items removed).2 = removed ++ filter f es.*2.
Proof.
  induction es as [|[n t] es IH]; intros items removed; cbn [filter_loop fmap list_fmap snd]; [by rewrite app_nil_r|].
  rewrite filter_cons. destruct (f t) eqn:E; rewrite IH; cbn; [by rewrite <- app_assoc|done].
Qed.

Lemma filter_loop_items f es n t : forall items removed,
  (filter_loop f es items removed).1 !! n = Some t <-> items !! n = Some t /\ forall u, (n, u) ∈ es -> f u = false.
Proof.
  induction es as [|[k u] es IH]; intros items removed; cbn [filter_loop].
  { split; [intros E; split; [done|]; by intros v []%not_elem_of_nil|by intros [E _]]. }
  destruct (f u) eqn:E; rewrite IH.
  - rewrite lookup_delete_Some. split.
    + intros [[Hk Ht] Hn]. split; [done|]. intros v [[= -> ->]|Hv]%elem_of_cons; [done|by apply Hn].
    + intros [Ht Hn]. split; [split; [|done]|].
      * intros ->. specialize (Hn u ltac:(apply elem_of_cons; by left)). congruence.
      * intros v Hv. apply Hn. apply elem_of_cons. by right.
  - apply and_iff_compat_l. split; [|intros Hn v Hv; apply Hn; apply elem_of_cons; by right].
    intros Hn v [[= -> ->]|Hv]%elem_of_cons; [done|by apply Hn].
Qed.

Lemma filter_holds f m l : holds m l -> exists items removed,
  filter_loop f (order (sm_items m)) (sm_items m) [] = (items, removed) /\ removed ≡ₚ filter f l /\ items = contents (filter (fun t => f t = false) l).
Proof.
  intros (Hs & Hi & _). pose proof (order_contents l Hs) as Hp. pose proof (filter_loop_removed f (order (sm_items m)) (sm_items m) []) as H1.
  pose proof (fun n t => filter_loop_items f (order (sm_items m)) n t (sm_items m) []) as H2. rewrite Hi in *.
  destruct (filter_loop f (order (contents l)) (contents l) []) as [items removed]. exists items, removed. split; [done|]. cbn [fst snd app] in *. split.
  - rewrite H1, Hp, entries_snd. done.
  - apply map_eq. intros n. apply option_eq. intros t. rewrite H2, (contents_lookup l) by done.
    rewrite contents_lookup, list_elem_of_filter by (eapply ascending_sublist; [apply sublist_filter|done]). split.
    + intros [[Ht <-] Hn]. split; [|done]. split; [|done]. apply Hn. rewrite Hp. by apply (list_elem_of_fmap_2 (fun t => (Nonce t, t))).
    + intros [[Ef Ht] <-]. split; [done|]. intros u Hu. rewrite Hp in Hu. apply list_elem_of_fmap in Hu as (v & [= E ->] & Hv).
      enough (t = v) as -> by done. assert (contents l !! Nonce t = Some t) by (apply contents_lookup; done).
      assert (contents l !! Nonce t = Some v) by (apply contents_lookup; done). congruence.
Qed.

Lemma filter_false_perm (f : Transaction -> bool) l : filter f l ++ filter (fun t => f t = false) l ≡ₚ l.
Proof.
  rewrite <- (filter_app_complement f l) at 3. apply Permutation_app_head.
  rewrite (filter_ext_in (fun t => f t = false) (fun t => ~ f t)); [done|]. intros t _.
  destruct (f t); cbn; intuition congruence.
Qed.

Lemma sm_filter_rel f m l : holds m l -> exists removed m', sm_filter order f m = (removed, m') /\
  removed ≡ₚ filter f l /\ holds m' (filter (fun t => f t = false) l) /\ (filter f l = [] -> m' = m).
Proof.
  intros Hh. destruct (filter_holds f m l Hh) as (items & removed & E & Hp & Hi). destruct Hh as (Hs & Hm & Hr). unfold sm_filter. rewrite E. do 2 eexists. split; [done|]. split; [done|]. split.
  - split; [eapply ascending_sublist; [apply sublist_filter|done]|]. split; [done|]. eapply range_sublist; [done|apply sublist_filter].
  - intros E'. rewrite E' in Hp. apply Permutation_nil_r in Hp as ->. rewrite Hi. pose proof (filter_false_perm f l) as Hpp. rewrite E' in Hpp. cbn in Hpp.
    rewrite <- (contents_perm l) by done. rewrite <- Hm. by destruct m.
Qed.

Lemma sm_Filter_rel f m l : sm_rel m l -> exists removed m', sm_Filter order f m = (removed, m') /\
  removed ≡ₚ filter f l /\ sm_rel m' (filter (fun t => f t = false) l).
Proof.
  intros Hr. destruct (sm_filter_rel f m l (sm_rel_holds _ _ Hr)) as (removed & m' & E & Hp & Hh & Hn). unfold sm_Filter. rewrite E. do 2 eexists. split; [done|]. split; [done|].
  destruct removed as [|t removed]; [|by apply reheap_rel]. apply Permutation_nil_l in Hp. rewrite Hn by done.
  rewrite (filter_all (fun t => f t = false)); [done|]. intros t Ht. destruct (f t) eqn:Ef; [|done].
  exfalso. eapply (filter_nil_not_elem_of f l t); [done|by rewrite Ef|done].
Qed.

(** [flatten]: the cache or the sorted values. *)
Lemma sm_flatten_rel m l : sm_rel m l -> exists m', sm_flatten order m = (l, m') /\ sm_rel m' l.
Proof.
  intros Hr. pose proof Hr as [Hs Hi Hx Hc Hrg]. unfold sm_flatten. destruct Hc as [-> | E]; [|rewrite E; eauto].
  rewrite Hi, (ascending_unique l _ Hs) by (rewrite (order_contents l Hs), entries_snd; done). eexists. split; [done|]. split; cbn; auto.
Qed.

End Ranges.

(** [Cap] keeps the lowest nonces and returns the others, the highest first. *)
Lemma take_S_perm (l : list Transaction) n t : l !! n = Some t -> take (S n) l ≡ₚ t :: take n l.
Proof. intros Ht. rewrite (take_S_r _ _ _ Ht). by rewrite Permutation_app_comm. Qed.

Lemma cap_loop_ok th l n : ascending l -> (th <= n)%nat -> (n <= length l)%nat -> forall drops,
  cap_loop n (Z.of_nat th) (Nonce <$> l) (contents (take n l)) drops =
  Ret (contents (take th l), drops ++ (Some <$> reverse (drop th (take n l)))).
Proof.
  intros Hs Hth. induction Hth as [|n Hth IH]; intros Hn drops.
  - destruct th; cbn [cap_loop]; rewrite Z.ltb_irrefl, drop_ge by (rewrite length_take; lia); cbn; by rewrite app_nil_r.
  - destruct (lookup_lt_is_Some_2 l n) as [t Ht]; [lia|]. cbn [cap_loop]. destruct (Z.ltb_spec (Z.of_nat th) (Z.of_nat (S n))); [|lia].
    rewrite list_lookup_fmap, Ht. cbn [fmap option_fmap option_map deref mbind outcome_bind].
    assert (ascending (take (S n) l)) as Hsn by (eapply ascending_sublist; [apply sublist_take|done]).
    rewrite (contents_delete _ (take n l) t) by (done || by apply take_S_perm). rewrite IH by lia. do 2 f_equal.
    rewrite (proj2 (contents_lookup (take (S n) l) (Nonce t) t Hsn)) by (split; [rewrite take_S_perm by done; apply elem_of_cons; by left|done]).
    rewrite (take_S_r _ _ _ Ht), drop_app_le, reverse_app by (rewrite length_take; lia). cbn. by rewrite <- app_assoc.
Qed.

Lemma sm_Cap_rel th m l : sm_rel m l -> 0 <= th -> exists m',
  sm_Cap th m = Ret (Some <$> reverse (drop (Z.to_nat th) l), m') /\ sm_rel m' (take (Z.to_nat th) l).
Proof.
  intros Hr Hth. pose proof Hr as [Hs Hi [Hn Hh] Hc Hrg]. unfold sm_Cap. rewrite Hi, contents_size by done. destruct (Z.leb_spec (Z.of_nat (length l)) th) as [Hle|Hlt].
  { exists m. rewrite drop_ge, take_ge by lia. done. }
  assert (merge_sort Z.le (nonces (sm_index m)) = Nonce <$> l) as ->.
  { destruct Hh as (h & -> & _ & Hp). apply (StronglySorted_unique Z.le).
    - apply StronglySorted_merge_sort; [apply _|intros x y; lia].
    - clear - Hn. induction Hn as [|x ns Hn IH Hf]; constructor; [done|]. eapply Forall_impl; [done|]. cbn. lia.
    - by rewrite merge_sort_Permutation. }
  pose proof (cap_loop_ok (Z.to_nat th) l (length l) Hs ltac:(lia) ltac:(lia) []) as Hcl. rewrite Z2Nat.id, (take_ge l (length l)) in Hcl by lia.
  rewrite Hcl. cbn [mbind outcome_bind app]. rewrite length_fmap, length_reverse, length_drop.
  assert (exists c, slice_back (length l - Z.to_nat th) (sm_cache m) = Ret c /\ (c = None \/ c = Some (take (Z.to_nat th) l))) as (c & -> & Hc').
  { destruct Hc as [-> | ->]; [exists None; by split; [|left]|]. eexists. split; [|by right]. cbn [slice_back]. rewrite leb_correct by lia. do 3 f_equal. lia. }
  cbn [mbind outcome_bind]. eexists. split; [done|]. eapply sm_rel_part; [done|apply sublist_take|done| |done].
  rewrite fmap_take. apply index_init; [|done]. rewrite <- fmap_take. eapply index_sublist; [done|apply sublist_take].
Qed.

(** [Remove] *)
Lemma remove_perm l t : ascending l -> t ∈ l -> l ≡ₚ t :: filter (fun u => Nonce u <> Nonce t) l.
Proof.
  intros Hs Ht. rewrite <- (filter_app_complement (fun u => Nonce u = Nonce t) l) at 1. enough (filter (fun u => Nonce u = Nonce t) l = [t]) as -> by done.
  induction l as [|u l IH]; [by apply not_elem_of_nil in Ht|]. pose proof Hs as [Hs' Hf]%StronglySorted_inv. rewrite Forall_forall in Hf. rewrite filter_cons.
  apply elem_of_cons in Ht as [->|Ht].
  - rewrite decide_True by done. f_equal. apply filter_none. intros v Hv. specialize (Hf v Hv). unfold before in Hf. lia.
  - specialize (Hf t Ht) as Hut. unfold before in Hut. rewrite decide_False by lia. by apply IH.
Qed.

Lemma remove_split l t : ascending l -> t ∈ l -> l ≡ₚ t :: filter (fun u => Nonce u < Nonce t) l ++ filter (fun u => Nonce t < Nonce u) l.
Proof.
  intros Hs Ht. rewrite (remove_perm l t Hs Ht) at 1. f_equiv. rewrite <- (filter_app_complement (fun u => Nonce u < Nonce t) (filter _ l)), !list_filter_filter.
  rewrite (filter_ext_in (fun u => Nonce u < Nonce t /\ Nonce u <> Nonce t) (fun u => Nonce u < Nonce t)) by (intros; lia).
  rewrite (filter_ext_in (fun u => ~ Nonce u < Nonce t /\ Nonce u <> Nonce t) (fun u => Nonce t < Nonce u)) by (intros; lia). done.
Qed.

Lemma position_lookup n l : n ∈ l -> exists i, position n l = Some i /\ l !! i = Some n.
Proof.
  intros Hn. unfold position. destruct (list_find_elem_of (fun k => k = n) l n Hn eq_refl) as [[i k] E]. rewrite E. apply list_find_Some in E as (Hl & -> & _). by exists i.
Qed.

Lemma sm_Remove_rel n m l : sm_rel m l -> exists m',
  sm_Remove n m = Ret (bool_decide (n ∈ Nonce <$> l), m') /\ sm_rel m' (filter (fun t => Nonce t <> n) l).
Proof.
  intros Hr. pose proof Hr as [Hs Hi [Hn (h & Eh & Ho & Hp)] Hc Hrg]. unfold sm_Remove. rewrite Hi. destruct (contents l !! n) as [t|] eqn:E.
  - apply contents_lookup in E as [Ht <-]; [|done]. rewrite bool_decide_true by (by apply list_elem_of_fmap_2). unfold nonce_rel in Eh. rewrite Eh.
    destruct (position_lookup (Nonce t) h) as (i & -> & Hl); [rewrite Hp; by apply list_elem_of_fmap_2|].
    destruct (holds_remove nonce_rel i (sm_index m) h (Nonce <$> l) (Nonce t)) as (s' & l' & -> & Hp' & Hh'); [done..|].
    cbn [mbind outcome_bind]. eexists. split; [done|]. pose proof (remove_perm l t Hs Ht) as Hpl. rewrite Hpl in Hp' at 1. rewrite fmap_cons in Hp'. apply Permutation_cons_inv in Hp'.
    eapply sm_rel_part; [done|apply sublist_filter|by apply contents_delete| |by left]. by rewrite Hp'.
  - apply contents_None in E. rewrite bool_decide_false by done. exists m. split; [done|]. rewrite filter_all; [done|].
    intros t Ht <-. apply E. by apply list_elem_of_fmap_2.
Qed.

(** [Ready]: the consecutive nonces from the lowest one on. *)
Fixpoint consecutive (next : Z) (l : list Transaction) : nat :=
  match l with
  | [] => 0
  | t :: l' => if Nonce t =? next then S (consecutive (next + 1) l') else 0
  end.

Lemma ready_loop_ok l : forall fuel next items index ready, 0 <= next -> ascending l -> Forall in_range l -> Forall (fun t => next <= Nonce t) l -> items = contents l -> index_of index (Nonce <$> l) -> (length l <= fuel)%nat ->
  exists index', ready_loop fuel (u64 next) items index ready =
      Ret (contents (drop (consecutive next l) l), index', ready ++ (Some <$> take (consecutive next l) l)) /\
    index_of index' (Nonce <$> drop (consecutive next l) l).
Proof.
  induction l as [|t l IH]; intros fuel next items index ready H0 Hs Hr Hnext Hi Hx Hf.
  - exists index. destruct fuel; cbn [ready_loop]; rewrite (index_root _ _ Hx); cbn; by rewrite app_nil_r, Hi.
  - pose proof Hs as [Hs' Hb]%StronglySorted_inv. apply Forall_cons in Hr as [Ht Hr], Hnext as [Hle _]. destruct fuel as [|fuel]; [cbn in Hf; lia|]. cbn [ready_loop consecutive].
    rewrite (index_root _ _ Hx). cbn [fmap list_fmap head]. destruct (Z.eqb_spec (Nonce t) next) as [<-|Hne].
    + unfold in_range in Ht. rewrite u64_small, Z.eqb_refl by lia. destruct (index_pop _ _ _ Hx) as (index1 & E & Hx1). rewrite E. cbn [mbind outcome_bind]. rewrite Hi, (contents_delete _ l) by done.
      destruct (IH fuel (Nonce t + 1) (contents l) index1 (ready ++ [contents (t :: l) !! Nonce t])) as (index' & E' & Hx'); [lia|done|done| |done|done|cbn in Hf; lia|].
      { eapply Forall_impl; [done|]. unfold before. intros u. lia. }
      exists index'. split; [|done]. rewrite E', <- app_assoc. do 3 f_equal. cbn. by rewrite lookup_insert_eq.
    + exists index. cbn [take drop fmap list_fmap]. rewrite app_nil_r, Hi.
      destruct (Z.eqb_spec (Nonce t) (u64 next)) as [E|]; [|done]. exfalso. unfold in_range in Ht. rewrite u64_small in E by lia. lia.
Qed.

(** The number of transactions [Ready] takes. *)
Definition ready_count (start : Z) (l : list Transaction) : nat :=
  match l with
  | [] => 0
  | t :: _ => if start <? Nonce t then 0 else consecutive (Nonce t) l
  end.

Lemma sm_Ready_rel start m l : sm_rel m l -> exists m',
  sm_Ready start m = Ret (Some <$> take (ready_count start l) l, m') /\ sm_rel m' (drop (ready_count start l) l).
Proof.
  intros Hr. pose proof Hr as [Hs Hi Hx Hc Hrg]. unfold sm_Ready. rewrite (index_root _ _ Hx). destruct l as [|t l]; [by exists m|].
  cbn [fmap list_fmap head ready_count]. destruct (start <? Nonce t); [by exists m|].
  pose proof Hrg as [Ht _]%Forall_cons. pose proof Hs as [_ Hb]%StronglySorted_inv. unfold in_range in Ht.
  destruct (ready_loop_ok (t :: l) (length (nonces (sm_index m))) (Nonce t) (sm_items m) (sm_index m) []) as (index' & E & Hx'); [lia|done|done| |done|done| |].
  - constructor; [done|]. eapply Forall_impl; [done|]. unfold before. intros u. lia.
  - rewrite (index_length _ _ Hx), length_fmap. done.
  - rewrite u64_small in E by lia. rewrite E. cbn [mbind outcome_bind app]. eexists. split; [done|].
    eapply sm_rel_part; [done|apply sublist_drop|done|apply Hx'|by left].
Qed.

(** The sorted map of an account's transactions, with its heap of nonces
    and its cache, behaves as the list of the transactions in the ascending
    order of their nonces, whatever order Go ranges over the map in.  No
    operation panics; looking up, inserting, removing, dropping below a nonce,
    filtering, capping the number, taking the ones ready for processing and
    listing the contents return and keep exactly what they do for the list. *)
Theorem sorted_map_refines (order : gmap Z Transaction -> list (Z * Transaction)) (Horder : forall items, order items ≡ₚ map_to_list items)
    (m : txSortedMap) (l : list Transaction) (Hr : sm_rel m l) :
  (forall n t, sm_Get n m = Some t <-> t ∈ l /\ Nonce t = n) /\
  (forall tx, in_range tx -> sm_rel (sm_Put tx m) (insert_tx tx l)) /\
  (forall th, exists m', sm_Forward th m = Ret (Some <$> filter (fun t => Nonce t < th) l, m') /\ sm_rel m' (filter (fun t => th <= Nonce t) l)) /\
  (forall f, exists removed m', sm_Filter order f m = (removed, m') /\ removed ≡ₚ filter f l /\ sm_rel m' (filter (fun t => f t = false) l)) /\
  (forall th, 0 <= th -> exists m', sm_Cap th m = Ret (Some <$> reverse (drop (Z.to_nat th) l), m') /\ sm_rel m' (take (Z.to_nat th) l)) /\
  (forall n, exists m', sm_Remove n m = Ret (bool_decide (n ∈ Nonce <$> l), m') /\ sm_rel m' (filter (fun t => Nonce t <> n) l)) /\
  (forall start, exists m', sm_Ready start m = Ret (Some <$> take (ready_count start l) l, m') /\ sm_rel m' (drop (ready_count start l) l)) /\
  (exists m', sm_Flatten order m = (l, m') /\ sm_rel m' l) /\ sm_Len m = length l.
Proof.
  split_and!.
  - intros n t. unfold sm_Get. rewrite (sr_items _ _ Hr). apply contents_lookup, Hr.
  - intros tx Ht. by apply sm_Put_rel.
  - intros th. by apply sm_Forward_rel.
  - intros f. by apply sm_Filter_rel.
  - intros th Hth. by apply sm_Cap_rel.
  - intros n. by apply sm_Remove_rel.
  - intros start. by apply sm_Ready_rel.
  - by apply sm_flatten_rel.
  - unfold sm_Len. rewrite (sr_items _ _ Hr). apply contents_size, Hr.
Qed.

(** ** The list of an account *)

Record txList := mkTxList { tl_strict : bool; tl_txs : txSortedMap; tl_costcap : Z; tl_gascap : Z }.

Definition newTxList (strict : bool) : txList := mkTxList strict newTxSortedMap 0 0.

Definition tl_Overlaps (tx : Transaction) (l : txList) : bool :=
  match sm_Get (Nonce tx) (tl_txs l) with Some _ => true | None => false end.

Definition Gas (t : Transaction) : Z := tx_gas (t_inner t).

(** As for [GasPrice], the value of a transaction that was decoded or built is
    not nil. *)
Definition Cost (t : Transaction) : Z := GasPrice t * Gas t + default 0 (tx_value (t_inner t)).

(** [100 + int64(priceBump)] wraps around. *)
Definition price_threshold (old : Transaction) (priceBump : Z) : Z := i64 (100 + i64 priceBump) * GasPrice old / 100.

Definition tl_Add (tx : Transaction) (priceBump : Z) (l : txList) : (bool * option Transaction) * txList :=
  let old := sm_Get (Nonce tx) (tl_txs l) in
  let abort := match old with
               | Some o => (GasPrice tx <=? GasPrice o) || (GasPrice tx <? price_threshold o priceBump)
               | None => false
               end in
  if abort then ((false, None), l)
  else
    let cost := Cost tx in
    let gas := Gas tx in
    ((true, old), mkTxList (tl_strict l) (sm_Put tx (tl_txs l))
                    (if tl_costcap l <? cost then cost else tl_costcap l) (if tl_gascap l <? gas then gas else tl_gascap l)).

Definition with_txs (l : txList) (m : txSortedMap) : txList := mkTxList (tl_strict l) m (tl_costcap l) (tl_gascap l).

Definition tl_Forward (threshold : Z) (l : txList) : outcome (list (option Transaction) * txList) :=
  '(removed, m) ← sm_Forward threshold (tl_txs l); Ret (removed, with_txs l m).

Section ListOrder.
Variable order : gmap Z Transaction -> list (Z * Transaction).

(** The lowest nonce of the removed ones, from [math.MaxUint64] on. *)
Definition lowest_nonce (removed : list Transaction) : Z :=
  fold_left (fun lowest tx => if Nonce tx <? lowest then Nonce tx else lowest) removed (2 ^ 64 - 1).

Definition tl_Filter (costLimit gasLimit : Z) (l : txList) : (list Transaction * list Transaction) * txList :=
  if (tl_costcap l <=? costLimit) && (tl_gascap l <=? gasLimit) then (([], []), l)
  else
    let '(removed, m) := sm_Filter order (fun tx => (gasLimit <? Gas tx) || (costLimit <? Cost tx)) (tl_txs l) in
    match removed with
    | [] => (([], []), mkTxList (tl_strict l) m costLimit gasLimit)
    | _ =>
        let '(invalids, m') :=
          if tl_strict l then let lowest := lowest_nonce removed in sm_filter order (fun tx => lowest <? Nonce tx) m
          else ([], m) in
        ((removed, invalids), mkTxList (tl_strict l) (sm_reheap order m') costLimit gasLimit)
    end.

Definition tl_Cap (threshold : Z) (l : txList) : outcome (list (option Transaction) * txList) :=
  '(drops, m) ← sm_Cap threshold (tl_txs l); Ret (drops, with_txs l m).

Definition tl_Remove (tx : Transaction) (l : txList) : outcome ((bool * list Transaction) * txList) :=
  let nonce := Nonce tx in
  '(removed, m) ← sm_Remove nonce (tl_txs l);
  if negb removed then Ret ((false, []), with_txs l m)
  else if tl_strict l then
    let '(invalids, m') := sm_Filter order (fun tx => nonce <? Nonce tx) m in
    Ret ((true, invalids), with_txs l m')
  else Ret ((true, []), with_txs l m).

Definition tl_Ready (start : Z) (l : txList) : outcome (list (option Transaction) * txList) :=
  '(ready, m) ← sm_Ready start (tl_txs l); Ret (ready, with_txs l m).

Definition tl_Len (l : txList) : nat := sm_Len (tl_txs l).

Definition tl_Empty (l : txList) : bool := (tl_Len l =? 0)%nat.

Definition tl_Flatten (l : txList) : list Transaction * txList :=
  let '(txs, m) := sm_Flatten order (tl_txs l) in (txs, with_txs l m).

Definition tl_LastElement (l : txList) : outcome (Transaction * txList) :=
  '(tx, m) ← sm_LastElement order (tl_txs l); Ret (tx, with_txs l m).

End ListOrder.

(** ** The list refines an ascending list with caps *)

Record tl_rel (L : txList) (l : list Transaction) : Prop := {
  tr_txs : sm_rel (tl_txs L) l;
  tr_cost t : t ∈ l -> Cost t <= tl_costcap L;
  tr_gas t : t ∈ l -> Gas t <= tl_gascap L
}.

Lemma newTxList_rel strict : tl_rel (newTxList strict) [].
Proof. split; [apply newTxSortedMap_rel|..]; by intros t []%not_elem_of_nil. Qed.

Lemma with_txs_rel L l m l' : tl_rel L l -> sm_rel m l' -> sublist l' l -> tl_rel (with_txs L m) l'.
Proof. intros [_ Hc Hg] Hm Hsub. split; [done|..]; intros t Ht; [apply Hc|apply Hg]; by eapply elem_of_sublist. Qed.

(** Whether a transaction may take the place of an older one. *)
Definition outbids (tx : Transaction) (priceBump : Z) (old : Transaction) : bool :=
  (GasPrice old <? GasPrice tx) && (price_threshold old priceBump <=? GasPrice tx).

Lemma tl_Add_refused tx bump L l o : tl_rel L l -> o ∈ l -> Nonce o = Nonce tx -> outbids tx bump o = false ->
  tl_Add tx bump L = ((false, None), L).
Proof.
  intros [[Hs Hi _ _ _] _ _] Ho En Hb. unfold tl_Add, sm_Get. rewrite Hi, (proj2 (contents_lookup l (Nonce tx) o Hs)) by done.
  unfold outbids in Hb. destruct (Z.leb_spec (GasPrice tx) (GasPrice o)); [done|]. destruct (Z.ltb_spec (GasPrice tx) (price_threshold o bump)); [done|]. lia.
Qed.

Lemma tl_Add_accepted tx bump L l old : tl_rel L l -> in_range tx ->
  match old with Some o => o ∈ l /\ Nonce o = Nonce tx /\ outbids tx bump o = true | None => Nonce tx ∉ Nonce <$> l end ->
  exists L', tl_Add tx bump L = ((true, old), L') /\ tl_rel L' (insert_tx tx l) /\ tl_strict L' = tl_strict L.
Proof.
  intros [Hm Hc Hg] Ht Hold. pose proof Hm as [Hs Hi _ _ _]. assert (sm_Get (Nonce tx) (tl_txs L) = old) as E.
  { unfold sm_Get. rewrite Hi. destruct old as [o|]; [apply contents_lookup; tauto|by apply contents_None]. }
  unfold tl_Add. rewrite E. match goal with |- context [if ?b then _ else _] => assert (b = false) as -> end.
  { destruct old as [o|]; [|done]. destruct Hold as (_ & _ & Hb). unfold outbids in Hb. apply andb_true_iff in Hb as [?%Z.ltb_lt ?%Z.leb_le].
    destruct (Z.leb_spec (GasPrice tx) (GasPrice o)); [lia|]. by apply Z.ltb_ge. }
  eexists. split; [done|]. split; [|done]. split; cbn [tl_txs tl_costcap tl_gascap]; [by apply sm_Put_rel|..]; intros t [->|Hin]%put_elem.
  - destruct (Z.ltb_spec (tl_costcap L) (Cost tx)); lia.
  - specialize (Hc t Hin). destruct (Z.ltb_spec (tl_costcap L) (Cost tx)); lia.
  - destruct (Z.ltb_spec (tl_gascap L) (Gas tx)); lia.
  - specialize (Hg t Hin). destruct (Z.ltb_spec (tl_gascap L) (Gas tx)); lia.
Qed.

(** *** Filtering *)

(** The longest prefix in which nothing is refused. *)
Fixpoint prefix_until (f : Transaction -> bool) (l : list Transaction) : list Transaction :=
  match l with [] => [] | t :: l' => if f t then [] else t :: prefix_until f l' end.

Definition too_dear (costLimit gasLimit : Z) (tx : Transaction) : bool := (gasLimit <? Gas tx) || (costLimit <? Cost tx).

Lemma prefix_until_split (f : Transaction -> bool) l : filter f l <> [] ->
  exists t r, l = prefix_until f l ++ t :: r /\ f t = true /\ (forall u, u ∈ prefix_until f l -> f u = false).
Proof.
  induction l as [|u l IH]; [done|]. rewrite filter_cons. cbn [prefix_until]. destruct (f u) eqn:E; intros Hne.
  - exists u, l. split; [done|]. split; [done|]. by intros v []%not_elem_of_nil.
  - destruct IH as (t & r & Hl & Ht & Hp); [done|]. exists t, r. cbn. rewrite <- Hl. split; [done|]. split; [done|].
    intros v [->|Hv]%elem_of_cons; [done|by apply Hp].
Qed.

Lemma prefix_until_all (f : Transaction -> bool) l : filter f l = [] -> prefix_until f l = l.
Proof.
  induction l as [|u l IH]; [done|]. rewrite filter_cons. cbn [prefix_until]. destruct (f u) eqn:E; [done|]. intros Hn. by rewrite IH.
Qed.

Lemma lowest_spec removed : forall a n, (n = a \/ exists t, t ∈ removed /\ Nonce t = n) -> n <= a -> (forall t, t ∈ removed -> n <= Nonce t) ->
  fold_left (fun lowest tx => if Nonce tx <? lowest then Nonce tx else lowest) removed a = n.
Proof.
  induction removed as [|t removed IH]; intros a n Hn Hle Hmin; cbn [fold_left].
  - destruct Hn as [->|(t & []%not_elem_of_nil & _)]. done.
  - pose proof (Hmin t ltac:(apply elem_of_cons; by left)) as Ht. apply IH.
    + destruct Hn as [->|(u & [->|Hu]%elem_of_cons & E)]; [left|left|right; eauto]; destruct (Z.ltb_spec (Nonce t) a); lia.
    + destruct (Nonce t <? a); lia.
    + intros u Hu. apply Hmin. apply elem_of_cons. by right.
Qed.

Lemma ascending_app l1 t l2 : ascending (l1 ++ t :: l2) -> (forall u, u ∈ l1 -> Nonce u < Nonce t) /\ (forall u, u ∈ l2 -> Nonce t < Nonce u).
Proof.
  unfold ascending. induction l1 as [|u l1 IH]; cbn [app]; intros [Hs Hf]%StronglySorted_inv; rewrite Forall_forall in Hf.
  - split; [by intros u []%not_elem_of_nil|done].
  - destruct (IH Hs) as [H1 H2]. split; [|done]. intros v [->|Hv]%elem_of_cons; [|by apply H1]. apply Hf. apply elem_of_app. right. apply elem_of_cons. by left.
Qed.

(** In strict mode, what is above the lowest removed nonce goes too. *)
Lemma strict_prefix (f : Transaction -> bool) l removed : ascending l -> Forall in_range l -> removed ≡ₚ filter f l -> filter f l <> [] ->
  let lowest := lowest_nonce removed in
  filter (fun t => (lowest <? Nonce t) = false) (filter (fun t => f t = false) l) = prefix_until f l /\
  filter (fun t => lowest <? Nonce t) (filter (fun t => f t = false) l) = filter (fun t => f t = false) (drop (length (prefix_until f l)) l).
Proof.
  intros Hs Hr Hp Hne. destruct (prefix_until_split f l Hne) as (t & r & Hl & Ht & Hok). set (p := prefix_until f l) in *. clearbody p. subst l.
  destruct (ascending_app _ _ _ Hs) as [Hlt Hgt]. rewrite Forall_app, Forall_cons in Hr. destruct Hr as (_ & Hrt & _). unfold in_range in Hrt.
  assert (lowest_nonce removed = Nonce t) as ->.
  { apply lowest_spec; [right; exists t; split; [|done]|lia|].
    - rewrite Hp, list_elem_of_filter, Ht. split; [done|]. apply elem_of_app. right. apply elem_of_cons. by left.
    - intros u. rewrite Hp, list_elem_of_filter. intros [Hu [Hin|[->|Hin]%elem_of_cons]%elem_of_app]; [|done|apply Hgt in Hin; lia].
      rewrite (Hok u Hin) in Hu. done. }
  cbv zeta. rewrite drop_app_length, !filter_app, !(filter_cons_False (fun u => f u = false)) by congruence. rewrite (filter_all (fun u => f u = false) p) by done.
  split.
  - rewrite (filter_all _ p), filter_none; [apply app_nil_r|..].
    + intros u [_ Hu]%list_elem_of_filter E%Z.ltb_ge. apply Hgt in Hu. lia.
    + intros u Hu. apply Z.ltb_ge. apply Hlt in Hu. lia.
  - rewrite (filter_none _ p), filter_all; [done|..].
    + intros u [_ Hu]%list_elem_of_filter. by apply Is_true_true, Z.ltb_lt, Hgt.
    + intros u Hu E%Is_true_true%Z.ltb_lt. apply Hlt in Hu. lia.
Qed.

Section ListRanges.
Context (order : gmap Z Transaction -> list (Z * Transaction)) (Horder : forall m, order m ≡ₚ map_to_list m).

Definition filter_kept (strict : bool) (f : Transaction -> bool) (l : list Transaction) : list Transaction :=
  if strict then prefix_until f l else filter (fun t => f t = false) l.

Definition filter_invalid (strict : bool) (f : Transaction -> bool) (l : list Transaction) : list Transaction :=
  if strict then filter (fun t => f t = false) (drop (length (prefix_until f l)) l) else [].

Lemma filter_kept_all strict (f : Transaction -> bool) l : filter f l = [] -> filter_kept strict f l = l /\ filter_invalid strict f l = [].
Proof.
  intros Hn. unfold filter_kept, filter_invalid. rewrite (prefix_until_all f l Hn), drop_ge by done. split; [|by destruct strict].
  destruct strict; [done|]. apply filter_all. intros t Ht. destruct (f t) eqn:E; [|done]. exfalso. eapply (filter_nil_not_elem_of f l t); [done|by rewrite E|done].
Qed.

Lemma prefix_until_sublist f l : sublist (prefix_until f l) l.
Proof. induction l as [|t l IH]; [done|]. cbn. destruct (f t); [apply sublist_nil_l|by constructor]. Qed.

Lemma filter_kept_sublist strict f l : sublist (filter_kept strict f l) l.
Proof. destruct strict; [apply prefix_until_sublist|apply sublist_filter]. Qed.

Lemma prefix_until_ok f l t : t ∈ prefix_until f l -> f t = false.
Proof.
  induction l as [|u l IH]; cbn; [by intros []%not_elem_of_nil|]. destruct (f u) eqn:E; [by intros []%not_elem_of_nil|].
  intros [->|Ht]%elem_of_cons; auto.
Qed.

Lemma filter_kept_ok strict f l t : t ∈ filter_kept strict f l -> f t = false.
Proof. destruct strict; [apply prefix_until_ok|]. by intros [? _]%list_elem_of_filter. Qed.

Lemma tl_Filter_rel c g L l : tl_rel L l -> exists removed invalids L', tl_Filter order c g L = ((removed, invalids), L') /\
  removed ≡ₚ filter (too_dear c g) l /\ invalids ≡ₚ filter_invalid (tl_strict L) (too_dear c g) l /\
  tl_rel L' (filter_kept (tl_strict L) (too_dear c g) l) /\ tl_strict L' = tl_strict L.
Proof.
  intros [Hm Hc Hg]. unfold tl_Filter. destruct (_ && _) eqn:Ecap.
  { apply andb_true_iff in Ecap as [Hcc%Z.leb_le Hgg%Z.leb_le]. assert (filter (too_dear c g) l = []) as Hn.
    { apply filter_none. intros t Ht. specialize (Hc t Ht). specialize (Hg t Ht). unfold too_dear. destruct (Z.ltb_spec g (Gas t)), (Z.ltb_spec c (Cost t)); cbn; lia || tauto. }
    destruct (filter_kept_all (tl_strict L) _ _ Hn) as [-> ->]. rewrite Hn. exists [], [], L. done. }
  change (fun tx => (g <? Gas tx) || (c <? Cost tx)) with (too_dear c g).
  destruct (sm_Filter_rel order Horder (too_dear c g) _ l Hm) as (removed & m & -> & Hp & Hm').
  assert (forall m', sm_rel m' (filter_kept (tl_strict L) (too_dear c g) l) -> tl_rel (mkTxList (tl_strict L) m' c g) (filter_kept (tl_strict L) (too_dear c g) l)) as Hrel.
  { intros m' Hk. split; [done|..]; cbn [tl_costcap tl_gascap]; intros t Ht%filter_kept_ok; unfold too_dear in Ht; apply orb_false_iff in Ht as [?%Z.ltb_ge ?%Z.ltb_ge]; lia. }
  destruct removed as [|t removed].
  { apply Permutation_nil_l in Hp as Hn. symmetry in Hn. destruct (filter_kept_all (tl_strict L) _ _ Hn) as [Ek Ei]. rewrite Ei. exists [], [], (mkTxList (tl_strict L) m c g). split_and!; [done|done|done| |done].
    apply Hrel. rewrite Ek. rewrite filter_all in Hm'; [done|]. intros u Hu. destruct (too_dear c g u) eqn:E; [|done]. exfalso. eapply (filter_nil_not_elem_of (too_dear c g) l u); [done|by rewrite E|done]. }
  assert (filter (too_dear c g) l <> []) as Hne by (intros E; rewrite E in Hp; by apply Permutation_nil_r in Hp).
  unfold filter_invalid. destruct (tl_strict L) eqn:Estrict; cbn [filter_kept] in *.
  - destruct (strict_prefix _ l _ (sr_ascending _ _ Hm) (sr_range _ _ Hm) Hp Hne) as [Ek Ei].
    destruct (sm_filter_rel order Horder (fun tx => lowest_nonce (t :: removed) <? Nonce tx) m _ (sm_rel_holds _ _ Hm')) as (invalids & m' & -> & Hp' & Hh & _).
    rewrite Ek in Hh. rewrite Ei in Hp'. do 3 eexists. split; [done|]. split_and!; [done|done| |done]. by apply Hrel, reheap_rel.
  - do 3 eexists. split; [done|]. split_and!; [done|done| |done]. by apply Hrel, reheap_rel, sm_rel_holds.
Qed.

Definition removes_above (strict : bool) (n : Z) (l : list Transaction) : bool := strict && bool_decide (n ∈ Nonce <$> l).

Lemma tl_Remove_rel tx L l : tl_rel L l -> exists invalids L',
  tl_Remove order tx L = Ret ((bool_decide (Nonce tx ∈ Nonce <$> l), invalids), L') /\ tl_strict L' = tl_strict L /\
  invalids ≡ₚ (if removes_above (tl_strict L) (Nonce tx) l then filter (fun t => Nonce tx < Nonce t) l else []) /\
  tl_rel L' (if removes_above (tl_strict L) (Nonce tx) l then filter (fun t => Nonce t < Nonce tx) l else filter (fun t => Nonce t <> Nonce tx) l).
Proof.
  intros HL. pose proof HL as [Hm _ _]. unfold tl_Remove, removes_above. destruct (sm_Remove_rel (Nonce tx) _ _ Hm) as (m & -> & Hm'). cbn [mbind outcome_bind].
  destruct (bool_decide (Nonce tx ∈ Nonce <$> l)) eqn:E; cbn [negb].
  - destruct (tl_strict L) eqn:Es; cbn [andb].
    + destruct (sm_Filter_rel order Horder (fun t => Nonce tx <? Nonce t) _ _ Hm') as (invalids & m' & -> & Hp & Hm''). rewrite list_filter_filter in Hp, Hm''.
      do 2 eexists. split; [done|]. split; [done|]. split.
      * rewrite Hp. erewrite filter_ext_in; [done|]. intros t _. cbn. rewrite Is_true_true, Z.ltb_lt. lia.
      * rewrite (filter_ext_in _ (fun t => Nonce t < Nonce tx)) in Hm''; [by eapply with_txs_rel; [..|apply sublist_filter]|]. intros t _. cbn. rewrite Z.ltb_ge. lia.
    + do 2 eexists. split; [done|]. split; [done|]. split; [done|]. by eapply with_txs_rel; [..|apply sublist_filter].
  - rewrite andb_false_r. do 2 eexists. split; [done|]. split; [done|]. split; [done|]. by eapply with_txs_rel; [..|apply sublist_filter].
Qed.

Lemma tl_part L l l' (op : txSortedMap -> outcome (list (option Transaction) * txSortedMap)) out : tl_rel L l -> sublist l' l ->
  (sm_rel (tl_txs L) l -> exists m', op (tl_txs L) = Ret (out, m') /\ sm_rel m' l') ->
  exists L', ('(res, m) ← op (tl_txs L); Ret (res, with_txs L m)) = Ret (out, L') /\ tl_rel L' l' /\ tl_strict L' = tl_strict L.
Proof.
  intros HL Hsub Hop. destruct (Hop (tr_txs _ _ HL)) as (m' & -> & Hm'). eexists. split; [done|]. split; [|done]. by eapply with_txs_rel.
Qed.

Lemma tl_Forward_rel th L l : tl_rel L l -> exists L', tl_Forward th L = Ret (Some <$> filter (fun t => Nonce t < th) l, L') /\
  tl_rel L' (filter (fun t => th <= Nonce t) l) /\ tl_strict L' = tl_strict L.
Proof. intros HL. apply (tl_part L l); [done|apply sublist_filter|apply sm_Forward_rel]. Qed.

Lemma tl_Cap_rel th L l : tl_rel L l -> 0 <= th -> exists L', tl_Cap th L = Ret (Some <$> reverse (drop (Z.to_nat th) l), L') /\
  tl_rel L' (take (Z.to_nat th) l) /\ tl_strict L' = tl_strict L.
Proof. intros HL Hth. apply (tl_part L l); [done|apply sublist_take|]. intros Hm. by apply sm_Cap_rel. Qed.

Lemma tl_Ready_rel start L l : tl_rel L l -> exists L', tl_Ready start L = Ret (Some <$> take (ready_count start l) l, L') /\
  tl_rel L' (drop (ready_count start l) l) /\ tl_strict L' = tl_strict L.
Proof. intros HL. apply (tl_part L l); [done|apply sublist_drop|apply sm_Ready_rel]. Qed.

Lemma tl_Flatten_rel L l : tl_rel L l -> exists L', tl_Flatten order L = (l, L') /\ tl_rel L' l /\ tl_strict L' = tl_strict L.
Proof.
  intros HL. destruct (sm_flatten_rel order Horder _ _ (tr_txs _ _ HL)) as (m & E & Hm). unfold tl_Flatten, sm_Flatten. rewrite E. eexists. split; [done|]. split; [|done].
  by eapply with_txs_rel.
Qed.

Lemma tl_LastElement_rel L l t : tl_rel L l -> last l = Some t -> exists L', tl_LastElement order L = Ret (t, L') /\ tl_rel L' l /\ tl_strict L' = tl_strict L.
Proof.
  intros HL Ht. destruct (sm_flatten_rel order Horder _ _ (tr_txs _ _ HL)) as (m & E & Hm). unfold tl_LastElement, sm_LastElement. rewrite E, Ht. eexists. split; [done|]. split; [|done].
  by eapply with_txs_rel.
Qed.

(** C31: the list of an account behaves as the ascending list of its
    transactions.  A transaction takes the place of one with the same nonce
    only if it pays more and at least the bumped price; the caps on cost and
    gas never hide a transaction from filtering; filtering returns what is too
    dear and keeps the rest or, in strict mode, only what comes before it;
    removing a transaction in strict mode also removes all that follow. *)
Theorem tx_list_refines (L : txList) (l : list Transaction) (HL : tl_rel L l) :
  (forall tx bump o, o ∈ l -> Nonce o = Nonce tx -> outbids tx bump o = false -> tl_Add tx bump L = ((false, None), L)) /\
  (forall tx bump old, in_range tx ->
    match old with Some o => o ∈ l /\ Nonce o = Nonce tx /\ outbids tx bump o = true | None => Nonce tx ∉ Nonce <$> l end ->
    exists L', tl_Add tx bump L = ((true, old), L') /\ tl_rel L' (insert_tx tx l) /\ tl_strict L' = tl_strict L) /\
  (forall c g, exists removed invalids L', tl_Filter order c g L = ((removed, invalids), L') /\
    removed ≡ₚ filter (too_dear c g) l /\ invalids ≡ₚ filter_invalid (tl_strict L) (too_dear c g) l /\
    tl_rel L' (filter_kept (tl_strict L) (too_dear c g) l) /\ tl_strict L' = tl_strict L) /\
  (forall tx, exists invalids L', tl_Remove order tx L = Ret ((bool_decide (Nonce tx ∈ Nonce <$> l), invalids), L') /\ tl_strict L' = tl_strict L /\
    invalids ≡ₚ (if removes_above (tl_strict L) (Nonce tx) l then filter (fun t => Nonce tx < Nonce t) l else []) /\
    tl_rel L' (if removes_above (tl_strict L) (Nonce tx) l then filter (fun t => Nonce t < Nonce tx) l else filter (fun t => Nonce t <> Nonce tx) l)) /\
  (forall t, last l = Some t -> exists L', tl_LastElement order L = Ret (t, L') /\ tl_rel L' l /\ tl_strict L' = tl_strict L).
Proof.
  split_and!.
  - intros tx bump o. by apply tl_Add_refused.
  - intros tx bump old. by apply tl_Add_accepted.
  - intros c g. by apply tl_Filter_rel.
  - intros tx. by apply tl_Remove_rel.
  - intros t. by apply tl_LastElement_rel.
Qed.

End ListRanges.

(** ** A strict list has no gaps *)

Section Strict.
Context (order : gmap Z Transaction -> list (Z * Transaction)) (Horder : forall m, order m ≡ₚ map_to_list m).

(** The operations on a strict list: what is added replaces a transaction or
    follows the last one. *)
Inductive tl_step : txList -> txList -> Prop :=
  | step_replace L tx bump : tl_Overlaps tx L = true -> in_range tx -> tl_step L (tl_Add tx bump L).2
  | step_first L tx bump : tl_Empty L = true -> in_range tx -> tl_step L (tl_Add tx bump L).2
  | step_append L tx bump t L1 : tl_LastElement order L = Ret (t, L1) -> Nonce tx = Nonce t + 1 -> in_range tx -> tl_step L (tl_Add tx bump L1).2
  | step_forward L th out L' : tl_Forward th L = Ret (out, L') -> tl_step L L'
  | step_filter L c g out L' : tl_Filter order c g L = (out, L') -> tl_step L L'
  | step_cap L th out L' : 0 <= th -> tl_Cap th L = Ret (out, L') -> tl_step L L'
  | step_remove L tx out L' : tl_Remove order tx L = Ret (out, L') -> tl_step L L'
  | step_ready L start out L' : tl_Ready start L = Ret (out, L') -> tl_step L L'
  | step_flatten L out L' : tl_Flatten order L = (out, L') -> tl_step L L'.

Definition contiguous (ns : list Z) : Prop := forall i a b, ns !! i = Some a -> ns !! S i = Some b -> b = a + 1.

Lemma contiguous_app_l ns ms : contiguous (ns ++ ms) -> contiguous ns.
Proof. intros H i a b Ha Hb. apply (H i a b); by apply lookup_app_l_Some. Qed.

Lemma contiguous_app_r ns ms : contiguous (ns ++ ms) -> contiguous ms.
Proof.
  intros H i a b Ha Hb. apply (H (length ns + i)%nat a b); [by rewrite lookup_app_r, Nat.add_comm, Nat.add_sub by lia|].
  rewrite lookup_app_r by lia. by replace (S (length ns + i) - length ns)%nat with (S i) by lia.
Qed.

Lemma contiguous_snoc ns n : contiguous ns -> (forall m, last ns = Some m -> n = m + 1) -> contiguous (ns ++ [n]).
Proof.
  intros H Hl i a b Ha Hb. pose proof (lookup_lt_Some _ _ _ Hb) as Hlt. rewrite length_app in Hlt. cbn in Hlt. rewrite lookup_app_l in Ha by lia.
  destruct (decide (S i < length ns)%nat).
  - rewrite lookup_app_l in Hb by done. by apply (H i).
  - rewrite lookup_app_r in Hb by lia. replace (S i - length ns)%nat with 0%nat in Hb by lia. injection Hb as <-. apply Hl.
    rewrite last_lookup, <- Ha. f_equal. lia.
Qed.

(** What stays after an operation is a prefix or a suffix. *)
Lemma prefix_until_prefix f l : exists r, l = prefix_until f l ++ r.
Proof.
  induction l as [|t l [r IH]]; cbn; [by exists []|]. destruct (f t); [by exists (t :: l)|]. exists r. cbn. by rewrite <- IH.
Qed.

Lemma contiguous_take n l : contiguous (Nonce <$> l) -> contiguous (Nonce <$> take n l).
Proof. rewrite <- (take_drop n l) at 1. rewrite fmap_app. apply contiguous_app_l. Qed.

Lemma contiguous_drop n l : contiguous (Nonce <$> l) -> contiguous (Nonce <$> drop n l).
Proof. rewrite <- (take_drop n l) at 1. rewrite fmap_app. apply contiguous_app_r. Qed.

Lemma contiguous_above th l : ascending l -> contiguous (Nonce <$> l) -> contiguous (Nonce <$> filter (fun t => th <= Nonce t) l).
Proof. intros Hs. rewrite (split_threshold th l Hs) at 1. rewrite fmap_app. apply contiguous_app_r. Qed.

Lemma contiguous_below th l : ascending l -> contiguous (Nonce <$> l) -> contiguous (Nonce <$> filter (fun t => Nonce t < th) l).
Proof. intros Hs. rewrite (split_threshold th l Hs) at 1. rewrite fmap_app. apply contiguous_app_l. Qed.

Lemma put_replace tx l : ascending l -> Nonce tx ∈ Nonce <$> l -> Nonce <$> insert_tx tx l = Nonce <$> l.
Proof.
  intros Hs Hin. pose proof (put_nonces tx l Hs) as Hp. rewrite decide_True in Hp by done.
  apply (StronglySorted_unique_strong Z.lt); [intros; lia|by apply ascending_nonces, put_ascending|by apply ascending_nonces|done].
Qed.

Lemma put_append tx l : (forall t, t ∈ l -> Nonce t < Nonce tx) -> insert_tx tx l = l ++ [tx].
Proof.
  induction l as [|t l IH]; intros Hlt; [done|]. cbn [insert_tx]. specialize (Hlt t ltac:(apply elem_of_cons; by left)) as Ht.
  destruct (Z.ltb_spec (Nonce tx) (Nonce t)); [lia|]. destruct (Z.eqb_spec (Nonce tx) (Nonce t)); [lia|]. cbn. f_equal.
  apply IH. intros u Hu. apply Hlt, elem_of_cons. by right.
Qed.

Definition strict_ok (L : txList) : Prop := exists l, tl_rel L l /\ tl_strict L = true /\ contiguous (Nonce <$> l).

(** Adding, accepted or not. *)
Lemma strict_add tx bump L l : tl_rel L l -> tl_strict L = true -> in_range tx -> contiguous (Nonce <$> l) -> contiguous (Nonce <$> insert_tx tx l) -> strict_ok (tl_Add tx bump L).2.
Proof.
  intros HL Hst Ht Hc Hput. pose proof (sr_ascending _ _ (tr_txs _ _ HL)) as Hs. destruct (decide (Nonce tx ∈ Nonce <$> l)) as [Hin|Hin].
  - apply list_elem_of_fmap in Hin as (o & En & Ho). destruct (outbids tx bump o) eqn:Eb.
    + destruct (tl_Add_accepted tx bump L l (Some o) HL Ht) as (L' & -> & HL' & Es); [done|]. exists (insert_tx tx l). cbn. split; [done|]. split; [congruence|done].
    + rewrite (tl_Add_refused tx bump L l o) by done. by exists l.
  - destruct (tl_Add_accepted tx bump L l None HL Ht Hin) as (L' & -> & HL' & Es). exists (insert_tx tx l). cbn. split; [done|]. split; [congruence|done].
Qed.

Lemma strict_append L l t L1 tx bump : tl_rel L l -> tl_strict L = true -> contiguous (Nonce <$> l) ->
  tl_LastElement order L = Ret (t, L1) -> Nonce tx = Nonce t + 1 -> in_range tx -> strict_ok (tl_Add tx bump L1).2.
Proof.
  intros HL Hst Hc El Hn Ht. destruct (last l) as [u|] eqn:Eu.
  - destruct (tl_LastElement_rel order Horder L l u HL Eu) as (L' & E & HL' & Es). rewrite E in El. injection El as -> ->.
    apply (strict_add tx bump L1 l); [done|congruence|done|done|]. apply last_Some in Eu as (l0 & ->). pose proof (sr_ascending _ _ (tr_txs _ _ HL)) as Hs.
    destruct (ascending_app l0 t [] Hs) as [Hlt _]. rewrite put_append, fmap_app.
    + apply contiguous_snoc; [done|]. intros m. rewrite fmap_app. cbn. rewrite last_snoc. intros [= <-]. done.
    + intros v [Hv| ->%list_elem_of_singleton]%elem_of_app; [specialize (Hlt v Hv)|]; lia.
  - exfalso. destruct (sm_flatten_rel order Horder _ _ (tr_txs _ _ HL)) as (m & E & _). unfold tl_LastElement, sm_LastElement in El. by rewrite E, Eu in El.
Qed.

Lemma tl_step_ok L L' : strict_ok L -> tl_step L L' -> strict_ok L'.
Proof.
  intros (l & HL & Hst & Hc) Hstep. pose proof (tr_txs _ _ HL) as Hm. pose proof (sr_ascending _ _ Hm) as Hs.
  destruct Hstep as [L tx bump Ho Ht|L tx bump He Ht|L tx bump t L1 El Hn Ht|L th out L' E|L c g out L' E|L th out L' Hth E|L tx out L' E|L start out L' E|L out L' E].
  - apply (strict_add tx bump L l); [done..|]. rewrite put_replace; [done|done|]. unfold tl_Overlaps, sm_Get in Ho. rewrite (sr_items _ _ Hm) in Ho.
    destruct (contents l !! Nonce tx) as [o|] eqn:E; [|done]. apply contents_lookup in E as [Hin <-]; [|done]. by apply list_elem_of_fmap_2.
  - apply (strict_add tx bump L l); [done..|]. unfold tl_Empty, tl_Len, sm_Len in He. rewrite (sr_items _ _ Hm), contents_size in He by done.
    destruct l; [|done]. intros i a b. destruct i; cbn; done.
  - by eapply strict_append.
  - destruct (tl_Forward_rel th L l HL) as (L2 & E2 & HL2 & Es). rewrite E2 in E. injection E as <- <-. eexists. split; [done|]. split; [congruence|]. by apply contiguous_above.
  - destruct (tl_Filter_rel order Horder c g L l HL) as (rm & iv & L2 & E2 & _ & _ & HL2 & Es). rewrite E2 in E. injection E as <- <-. eexists. split; [done|]. split; [congruence|].
    rewrite Hst. cbn. destruct (prefix_until_prefix (too_dear c g) l) as [r Er]. rewrite Er, fmap_app in Hc. by apply contiguous_app_l in Hc.
  - destruct (tl_Cap_rel th L l HL Hth) as (L2 & E2 & HL2 & Es). rewrite E2 in E. injection E as <- <-. eexists. split; [done|]. split; [congruence|]. by apply contiguous_take.
  - destruct (tl_Remove_rel order Horder tx L l HL) as (iv & L2 & E2 & Es & _ & HL2). rewrite E2 in E. injection E as <- <-. eexists. split; [done|]. split; [congruence|].
    unfold removes_above. rewrite Hst. cbn. case_bool_decide as Hin; [by apply contiguous_below|]. rewrite filter_all; [done|]. intros t Ht Et. apply Hin. rewrite <- Et. by apply list_elem_of_fmap_2.
  - destruct (tl_Ready_rel start L l HL) as (L2 & E2 & HL2 & Es). rewrite E2 in E. injection E as <- <-. eexists. split; [done|]. split; [congruence|]. by apply contiguous_drop.
  - destruct (tl_Flatten_rel order Horder L l HL) as (L2 & E2 & HL2 & Es). rewrite E2 in E. injection E as <- <-. eexists. split; [done|]. split; [congruence|done].
Qed.

(** Whatever is done to the strict list of an account, starting from an
    empty one and adding only transactions that replace one or follow the
    last, its transactions have consecutive nonces and stay within the caps on
    cost and gas; listing them never disagrees with the heap. *)
Theorem strict_list_contiguous (L : txList) (Hsteps : rtc tl_step (newTxList true) L) :
  exists l L', tl_Flatten order L = (l, L') /\ contiguous (Nonce <$> l) /\
    Forall (fun t => Cost t <= tl_costcap L /\ Gas t <= tl_gascap L) l /\ tl_Len L = length l.
Proof.
  assert (strict_ok L) as (l & HL & _ & Hc).
  { refine (rtc_ind_r (fun L => strict_ok L) (newTxList true) _ _ L Hsteps); [|intros L1 L2 _ Hstep HL1; by eapply tl_step_ok].
    exists []. split; [apply newTxList_rel|]. split; [done|]. intros i a b. by destruct i. }
  destruct (tl_Flatten_rel order Horder L l HL) as (L' & E & _). exists l, L'. split; [done|]. split; [done|]. split.
  - apply Forall_forall. intros t Ht. split; [by apply HL|by apply HL].
  - unfold tl_Len, sm_Len. rewrite (sr_items _ _ (tr_txs _ _ HL)). apply contents_size, HL.
Qed.

End Strict.

(** ** Examples *)

Definition sent (nonce price gas : Z) : Transaction :=
  mkTransaction (Legacy (mkLegacyTx nonce (Some price) gas (Some 9) (Some 1) [] None None None)) 0 None None None.

Lemma sent_in_range price gas : in_range (sent 4 price gas) /\ in_range (sent 5 price gas) /\ in_range (sent 7 price gas).
Proof. unfold in_range, Nonce. cbn. lia. Qed.

Definition sample_map : txSortedMap := sm_Put (sent 4 10 21000) (sm_Put (sent 7 30 21000) (sm_Put (sent 5 20 21000) newTxSortedMap)).
Definition sample_txs : list Transaction := [sent 4 10 21000; sent 5 20 21000; sent 7 30 21000].

Lemma sample_map_rel : sm_rel sample_map sample_txs.
Proof.
  change sample_txs with (insert_tx (sent 4 10 21000) (insert_tx (sent 7 30 21000) (insert_tx (sent 5 20 21000) []))).
  repeat apply sm_Put_rel; try apply newTxSortedMap_rel; apply sent_in_range.
Qed.

Lemma sorted_map_refines_witness :
  (exists m', sm_Forward 5 sample_map = Ret ([Some (sent 4 10 21000)], m') /\ sm_rel m' [sent 5 20 21000; sent 7 30 21000]) /\
  (exists m', sm_Cap 1 sample_map = Ret ([Some (sent 7 30 21000); Some (sent 5 20 21000)], m') /\ sm_rel m' [sent 4 10 21000]) /\
  (exists m', sm_Ready 4 sample_map = Ret ([Some (sent 4 10 21000); Some (sent 5 20 21000)], m') /\ sm_rel m' [sent 7 30 21000]).
Proof.
  destruct (sorted_map_refines map_to_list (fun _ => reflexivity _) sample_map sample_txs sample_map_rel) as (_ & _ & Hf & _ & Hc & _ & Hr & _).
  split; [exact (Hf 5)|]. split; [exact (Hc 1 ltac:(lia))|exact (Hr 4)].
Defined.

(** Transactions with a nonce lower than the start are not all returned. *)
Example ready_leaves_lower : (fun r => r.1) <$> (match sm_Ready 9 sample_map with Ret r => Some r | _ => None end) = Some [Some (sent 4 10 21000); Some (sent 5 20 21000)].
Proof. vm_compute. reflexivity. Qed.

Definition sample_list : txList := (tl_Add (sent 5 20 40000) 10 (tl_Add (sent 4 10 21000) 10 (newTxList true)).2).2.

Lemma sample_list_rel : tl_rel sample_list [sent 4 10 21000; sent 5 20 40000].
Proof.
  destruct (tl_Add_accepted (sent 4 10 21000) 10 (newTxList true) [] None) as (L1 & E1 & H1 & _); [apply newTxList_rel|apply sent_in_range|apply not_elem_of_nil|].
  destruct (tl_Add_accepted (sent 5 20 40000) 10 L1 [sent 4 10 21000] None) as (L2 & E2 & H2 & _); [done|apply sent_in_range|intros E; cbn in E; by apply list_elem_of_singleton in E|].
  unfold sample_list. rewrite E1. cbn [snd]. rewrite E2. exact H2.
Qed.

(** With a gas limit of 30000 the second transaction is filtered out. *)
Lemma tx_list_refines_witness :
  exists removed invalids L', tl_Filter map_to_list 1000000 30000 sample_list = ((removed, invalids), L') /\
    removed ≡ₚ [sent 5 20 40000] /\ invalids ≡ₚ [] /\ tl_rel L' [sent 4 10 21000] /\ tl_strict L' = true.
Proof.
  destruct (tx_list_refines map_to_list (fun _ => reflexivity _) sample_list _ sample_list_rel) as (_ & _ & Hf & _). exact (Hf 1000000 30000).
Defined.

Lemma strict_list_contiguous_witness :
  exists l L', tl_Flatten map_to_list sample_list = (l, L') /\ contiguous (Nonce <$> l) /\
    Forall (fun t => Cost t <= tl_costcap sample_list /\ Gas t <= tl_gascap sample_list) l /\ tl_Len sample_list = length l.
Proof.
  apply (strict_list_contiguous map_to_list (fun _ => reflexivity _) sample_list).
  eapply rtc_l; [apply (step_first map_to_list (newTxList true) (sent 4 10 21000) 10); [reflexivity|apply sent_in_range]|]. apply rtc_once.
  replace sample_list with (tl_Add (sent 5 20 40000) 10 (tl_Flatten map_to_list (tl_Add (sent 4 10 21000) 10 (newTxList true)).2).2).2 by (vm_compute; reflexivity).
  apply (step_append map_to_list _ _ _ (sent 4 10 21000)); [vm_compute; reflexivity|reflexivity|apply sent_in_range].
Defined.
