(* ===== verification/TxPool.v ===== *)
(** * The transaction pool's indices ([core/tx_pool.go], [core/tx_list.go], [core/tx_noncer.go])

    Sets of accounts, the lookup of all transactions of the pool by hash, the
    list of the remote transactions by price, from which the pool takes what
    it evicts, and the nonces the pool promises.  The lookup counts the slots
    in use exactly; the priced list evicts the cheapest remote transactions.
    The mutexes are left out: every operation is one step.  The order in which
    Go ranges over a map is an argument.  The caches in a transaction do not
    change an answer and are left out. *)
From Stdlib Require Import ZArith Lia.
From stdpp Require Import base list option gmap.
From S2P Require Import Prelude Errors Prque Common Transaction Signing PriceNonce TxList.
Open Scope Z_scope.

(** ** Sets of accounts *)

Record accountSet := mkAccountSet {
  as_accounts : gset Address;
  as_signer : TxSigner;
  as_cache : option (list Address)
}.

Definition as_add (addr : Address) (s : accountSet) : accountSet := mkAccountSet ({[addr]} ∪ as_accounts s) (as_signer s) None.

Definition newAccountSet (signer : TxSigner) (addrs : list Address) : accountSet :=
  fold_left (fun s addr => as_add addr s) addrs (mkAccountSet ∅ signer None).

Definition as_contains (addr : Address) (s : accountSet) : bool := bool_decide (addr ∈ as_accounts s).

Definition as_empty (s : accountSet) : bool := (size (as_accounts s) =? 0)%nat.

Section Accounts.
Context `{Keccak} `{Secp256k1}.

Definition as_containsTx (tx : Transaction) (s : accountSet) : outcome bool :=
  match (Sender (as_signer s) tx).1 with
  | Ret addr => Ret (as_contains addr s)
  | Err _ => Ret false
  | Panic => Panic
  end.

Definition as_addTx (tx : Transaction) (s : accountSet) : outcome accountSet :=
  match (Sender (as_signer s) tx).1 with
  | Ret addr => Ret (as_add addr s)
  | Err _ => Ret s
  | Panic => Panic
  end.

Definition as_flatten (order : gset Address -> list Address) (s : accountSet) : list Address * accountSet :=
  match as_cache s with
  | Some l => (l, s)
  | None => let l := order (as_accounts s) in (l, mkAccountSet (as_accounts s) (as_signer s) (Some l))
  end.

Definition as_merge (other s : accountSet) : accountSet := mkAccountSet (as_accounts other ∪ as_accounts s) (as_signer s) None.

End Accounts.

(** ** The lookup *)

Section Hashed.
Context `{HK : Keccak} `{HS : Secp256k1}.

(** [tx.Hash()] and [tx.Size()], without filling the caches. *)
Definition tx_id (t : Transaction) : Hash := match (Transaction_Hash t).1 with Ret h => h | _ => 0 end.

Definition txSlotSize : Z := 32 * 1024.

(** The division is one of floats by a power of two, which is exact, and the
    conversion truncates. *)
Definition numSlots (t : Transaction) : Z :=
  match (Transaction_Size t).1 with Ret n => (n + txSlotSize - 1) / txSlotSize | _ => 0 end.

Record txLookup := mkLookup { lk_slots : Z; lk_locals : gmap Hash Transaction; lk_remotes : gmap Hash Transaction }.

Definition newTxLookup : txLookup := mkLookup 0 ∅ ∅.

(** The callback carries a state and says whether to go on. *)
Fixpoint range_loop {A} (f : A -> Hash -> Transaction -> bool -> A * bool) (local : bool) (kvs : list (Hash * Transaction)) (a : A) : A * bool :=
  match kvs with
  | [] => (a, true)
  | (k, v) :: kvs' => let '(a', go) := f a k v local in if go then range_loop f local kvs' a' else (a', false)
  end.

Definition lk_Range {A} (order : gmap Hash Transaction -> list (Hash * Transaction)) (f : A -> Hash -> Transaction -> bool -> A * bool) (local remote : bool) (t : txLookup) (a : A) : A :=
  let '(a1, go) := if local then range_loop f true (order (lk_locals t)) a else (a, true) in
  if go then (if remote then (range_loop f false (order (lk_remotes t)) a1).1 else a1) else a1.

Definition lk_Get (hash : Hash) (t : txLookup) : option Transaction :=
  match lk_locals t !! hash with Some tx => Some tx | None => lk_remotes t !! hash end.

Definition lk_GetLocal (hash : Hash) (t : txLookup) : option Transaction := lk_locals t !! hash.

Definition lk_GetRemote (hash : Hash) (t : txLookup) : option Transaction := lk_remotes t !! hash.

Definition lk_Count (t : txLookup) : nat := size (lk_locals t) + size (lk_remotes t).

Definition lk_Add (tx : Transaction) (local : bool) (t : txLookup) : txLookup :=
  let slots := lk_slots t + numSlots tx in
  if local then mkLookup slots (<[tx_id tx := tx]> (lk_locals t)) (lk_remotes t)
  else mkLookup slots (lk_locals t) (<[tx_id tx := tx]> (lk_remotes t)).

Definition lk_Remove (hash : Hash) (t : txLookup) : txLookup :=
  match lk_Get hash t with
  | None => t
  | Some tx => mkLookup (lk_slots t - numSlots tx) (delete hash (lk_locals t)) (delete hash (lk_remotes t))
  end.

(** The loop of [RemoteToLocals]. *)
Fixpoint migrate_loop (s : accountSet) (kvs : list (Hash * Transaction)) (locals remotes : gmap Hash Transaction) (migrated : nat) :
    outcome (gmap Hash Transaction * gmap Hash Transaction * nat) :=
  match kvs with
  | [] => Ret (locals, remotes, migrated)
  | (hash, tx) :: kvs' =>
      here ← as_containsTx tx s;
      if (here : bool) then migrate_loop s kvs' (<[hash := tx]> locals) (delete hash remotes) (S migrated) else migrate_loop s kvs' locals remotes migrated
  end.

Definition lk_RemoteToLocals (order : gmap Hash Transaction -> list (Hash * Transaction)) (s : accountSet) (t : txLookup) : outcome (nat * txLookup) :=
  '(locals, remotes, migrated) ← migrate_loop s (order (lk_remotes t)) (lk_locals t) (lk_remotes t) 0;
  Ret (migrated, mkLookup (lk_slots t) locals remotes).

(** ** The remote transactions by price *)

Record priceHeap := mkPrices { ph_txs : list Transaction }.

(** The cheaper one first and, at the same price, the higher nonce. *)
Definition price_cheaper (a b : Transaction) : bool :=
  if GasPrice a <? GasPrice b then true else if GasPrice b <? GasPrice a then false else Nonce b <? Nonce a.

#[global] Instance prices_heap : HeapInterface priceHeap Transaction := {|
  h_Len h := length (ph_txs h);
  h_Less h i j := match ph_txs h !! i, ph_txs h !! j with Some a, Some b => price_cheaper a b | _, _ => false end;
  h_Swap i j h := mkPrices (list_Swap i j (ph_txs h));
  h_Push x h := mkPrices (ph_txs h ++ [x]);
  h_Pop h := '(x, l) ← list_Pop (ph_txs h); Ret (x, mkPrices l)
|}.

(** The lookup is shared with the pool: it is an argument of the operations
    that read it. *)
Record txPricedList := mkPriced { pl_remotes : priceHeap; pl_stales : Z }.

Definition newTxPricedList : txPricedList := mkPriced (mkPrices []) 0.

Definition pl_Put (tx : Transaction) (local : bool) (l : txPricedList) : txPricedList :=
  if local then l else mkPriced (heap_Push tx (pl_remotes l)) (pl_stales l).

Definition pl_Reheap (order : gmap Hash Transaction -> list (Hash * Transaction)) (all : txLookup) (l : txPricedList) : txPricedList :=
  let txs := lk_Range order (fun acc _ tx _ => (acc ++ [tx], true)) false true all [] in
  mkPriced (heap_Init (mkPrices txs)) 0.

Definition pl_Removed (order : gmap Hash Transaction -> list (Hash * Transaction)) (all : txLookup) (count : Z) (l : txPricedList) : txPricedList :=
  let stales := pl_stales l + count in
  if stales <=? Z.of_nat (length (ph_txs (pl_remotes l))) / 4 then mkPriced (pl_remotes l) stales
  else pl_Reheap order all (mkPriced (pl_remotes l) stales).

Definition stale (all : txLookup) (tx : Transaction) : bool := match lk_GetRemote (tx_id tx) all with None => true | Some _ => false end.

(** The loops pop an element in every round: the number of elements is fuel
    enough. *)
Fixpoint cap_prices_loop (fuel : nat) (all : txLookup) (threshold : Z) (l : txPricedList) (drops : list Transaction) : outcome (list Transaction * txPricedList) :=
  match ph_txs (pl_remotes l) !! 0%nat with
  | None => Ret (drops, l)
  | Some cheapest =>
      match fuel with
      | O => Panic
      | S fuel' =>
          if stale all cheapest then
            '(_, h) ← heap_Pop (pl_remotes l); cap_prices_loop fuel' all threshold (mkPriced h (pl_stales l - 1)) drops
          else if threshold <=? GasPrice cheapest then Ret (drops, l)
          else '(_, h) ← heap_Pop (pl_remotes l); cap_prices_loop fuel' all threshold (mkPriced h (pl_stales l)) (drops ++ [cheapest])
      end
  end.

Definition pl_Cap (all : txLookup) (threshold : Z) (l : txPricedList) : outcome (list Transaction * txPricedList) :=
  cap_prices_loop (length (ph_txs (pl_remotes l))) all threshold l [].

(** The stale heads are discarded. *)
Fixpoint clean_loop (fuel : nat) (all : txLookup) (l : txPricedList) : outcome txPricedList :=
  match ph_txs (pl_remotes l) !! 0%nat with
  | None => Ret l
  | Some first =>
      if stale all first then
        match fuel with
        | O => Panic
        | S fuel' => '(_, h) ← heap_Pop (pl_remotes l); clean_loop fuel' all (mkPriced h (pl_stales l - 1))
        end
      else Ret l
  end.

Definition pl_Underpriced (all : txLookup) (tx : Transaction) (l : txPricedList) : outcome (bool * txPricedList) :=
  l' ← clean_loop (length (ph_txs (pl_remotes l))) all l;
  match ph_txs (pl_remotes l') !! 0%nat with
  | None => Ret (false, l')
  | Some cheapest => Ret (GasPrice tx <=? GasPrice cheapest, l')
  end.

Fixpoint discard_loop (fuel : nat) (all : txLookup) (slots : Z) (l : txPricedList) (drops : list Transaction) : outcome (list Transaction * Z * txPricedList) :=
  if (0 <? length (ph_txs (pl_remotes l)))%nat && (0 <? slots) then
    match fuel with
    | O => Panic
    | S fuel' =>
        '(tx, h) ← heap_Pop (pl_remotes l);
        if stale all tx then discard_loop fuel' all slots (mkPriced h (pl_stales l - 1)) drops
        else discard_loop fuel' all (slots - numSlots tx) (mkPriced h (pl_stales l)) (drops ++ [tx])
    end
  else Ret (drops, slots, l).

Definition pl_Discard (all : txLookup) (slots : Z) (force : bool) (l : txPricedList) : outcome ((list Transaction * bool) * txPricedList) :=
  (* [make] with a negative capacity *)
  if slots <? 0 then Panic
  else
  '(drops, short, l') ← discard_loop (length (ph_txs (pl_remotes l))) all slots l [];
  if (0 <? short) && negb force then
    Ret (([], false), mkPriced (fold_left (fun h tx => heap_Push tx h) drops (pl_remotes l')) (pl_stales l'))
  else Ret ((drops, true), l').

End Hashed.

(** ** The nonces of the pool *)

(** The state database is not modelled: [fallback] reads a nonce from it. *)
Record txNoncer := mkNoncer { nc_nonces : gmap Address Z }.

Section Noncer.
Variable fallback : Address -> Z.

Definition newTxNoncer : txNoncer := mkNoncer ∅.

Definition nc_load (addr : Address) (n : txNoncer) : Z * txNoncer :=
  match nc_nonces n !! addr with
  | Some v => (v, n)
  | None => (fallback addr, mkNoncer (<[addr := fallback addr]> (nc_nonces n)))
  end.

Definition nc_get (addr : Address) (n : txNoncer) : Z * txNoncer := nc_load addr n.

Definition nc_set (addr : Address) (nonce : Z) (n : txNoncer) : txNoncer := mkNoncer (<[addr := nonce]> (nc_nonces n)).

Definition nc_setIfLower (addr : Address) (nonce : Z) (n : txNoncer) : txNoncer :=
  let '(v, n') := nc_load addr n in
  if v <=? nonce then n' else mkNoncer (<[addr := nonce]> (nc_nonces n')).

End Noncer.

(** ** The lookup counts exactly *)

Section LookupProofs.
Context `{HK : Keccak} `{HS : Secp256k1}.

Definition total_slots (l : list Transaction) : Z := foldr (fun t n => numSlots t + n) 0 l.

Definition values (m : gmap Hash Transaction) : list Transaction := (map_to_list m).*2.

#[global] Instance total_slots_perm : Proper ((≡ₚ) ==> eq) total_slots.
Proof. intros l l' Hp. unfold total_slots. induction Hp; cbn [foldr]; lia. Qed.

Lemma total_slots_cons t l : total_slots (t :: l) = numSlots t + total_slots l.
Proof. done. Qed.

Lemma total_slots_app l l' : total_slots (l ++ l') = total_slots l + total_slots l'.
Proof. induction l as [|t l IH]; [done|]. cbn [app]. rewrite !total_slots_cons. lia. Qed.

Lemma values_insert (m : gmap Hash Transaction) k t : m !! k = None -> values (<[k := t]> m) ≡ₚ t :: values m.
Proof. intros Hk. unfold values. by rewrite map_to_list_insert. Qed.

Lemma values_delete (m : gmap Hash Transaction) k t : m !! k = Some t -> values m ≡ₚ t :: values (delete k m).
Proof. intros Hk. unfold values. by rewrite <- (map_to_list_delete m k t Hk). Qed.

Lemma values_elem (m : gmap Hash Transaction) t : t ∈ values m <-> exists k, m !! k = Some t.
Proof.
  unfold values. rewrite list_elem_of_fmap. split.
  - intros ([k u] & -> & Hu). exists k. by apply elem_of_map_to_list.
  - intros [k Hk]. exists (k, t). split; [done|by apply elem_of_map_to_list].
Qed.

Definition keyed (m : gmap Hash Transaction) : Prop := forall k t, m !! k = Some t -> tx_id t = k.

Record lk_ok (t : txLookup) : Prop := {
  lo_disjoint : lk_locals t ##ₘ lk_remotes t;
  lo_locals : keyed (lk_locals t);
  lo_remotes : keyed (lk_remotes t);
  lo_slots : lk_slots t = total_slots (values (lk_locals t)) + total_slots (values (lk_remotes t))
}.

Lemma keyed_insert m t : keyed m -> keyed (<[tx_id t := t]> m).
Proof. intros Hm k u [[<- <-]|[_ Hu]]%lookup_insert_Some; [done|by apply Hm]. Qed.

Lemma keyed_delete m k : keyed m -> keyed (delete k m).
Proof. intros Hm i u [_ Hu]%lookup_delete_Some. by apply Hm. Qed.

Lemma lk_Get_None hash t : lk_Get hash t = None -> lk_locals t !! hash = None /\ lk_remotes t !! hash = None.
Proof. unfold lk_Get. by destruct (lk_locals t !! hash). Qed.

Lemma lk_Add_ok tx local t : lk_ok t -> lk_Get (tx_id tx) t = None -> lk_ok (lk_Add tx local t).
Proof.
  intros [Hd Hl Hr Hs] [Hnl Hnr]%lk_Get_None. unfold lk_Add. destruct local; split; cbn [lk_locals lk_remotes lk_slots]; try done.
  - by apply map_disjoint_insert_l_2.
  - by apply keyed_insert.
  - rewrite values_insert, total_slots_cons by done. lia.
  - by apply map_disjoint_insert_r_2.
  - by apply keyed_insert.
  - rewrite values_insert, total_slots_cons by done. lia.
Qed.

Lemma lk_Remove_ok hash t : lk_ok t -> lk_ok (lk_Remove hash t) /\ lk_Get hash (lk_Remove hash t) = None.
Proof.
  intros Ht. pose proof Ht as [Hd Hl Hr Hs]. unfold lk_Remove. destruct (lk_Get hash t) as [tx|] eqn:E; [|done]. split.
  - split; cbn [lk_locals lk_remotes lk_slots]; [by apply map_disjoint_delete_l, map_disjoint_delete_r|by apply keyed_delete|by apply keyed_delete|].
    unfold lk_Get in E. destruct (lk_locals t !! hash) as [u|] eqn:El.
    + injection E as ->. rewrite (delete_id (lk_remotes t)) by (by eapply map_disjoint_Some_l). rewrite (values_delete _ _ _ El), total_slots_cons in Hs. lia.
    + rewrite (delete_id (lk_locals t)) by done. rewrite (values_delete _ _ _ E), total_slots_cons in Hs. lia.
  - unfold lk_Get. cbn. by rewrite !lookup_delete_eq.
Qed.

(** Migrating moves transactions from one map to the other. *)
Lemma migrate_one t hash tx : lk_ok t -> lk_remotes t !! hash = Some tx ->
  lk_ok (mkLookup (lk_slots t) (<[hash := tx]> (lk_locals t)) (delete hash (lk_remotes t))).
Proof.
  intros [Hd Hl Hr Hs] Ht. pose proof (map_disjoint_Some_r _ _ _ _ Hd Ht) as Hn. split; cbn [lk_locals lk_remotes lk_slots].
  - apply map_disjoint_insert_l. split; [apply lookup_delete_eq|by apply map_disjoint_delete_r].
  - rewrite <- (Hr _ _ Ht). by apply keyed_insert.
  - by apply keyed_delete.
  - rewrite (values_insert _ _ _ Hn). rewrite (values_delete _ _ _ Ht) in Hs. rewrite total_slots_cons in *. lia.
Qed.

Lemma migrate_loop_ok s kvs : forall t n r, lk_ok t -> NoDup kvs.*1 -> (forall k v, (k, v) ∈ kvs -> lk_remotes t !! k = Some v) ->
  migrate_loop s kvs (lk_locals t) (lk_remotes t) n = Ret r ->
  lk_ok (mkLookup (lk_slots t) r.1.1 r.1.2) /\ (forall k, lk_Get k (mkLookup (lk_slots t) r.1.1 r.1.2) = lk_Get k t).
Proof.
  induction kvs as [|[hash tx] kvs IH]; intros t n r Ht Hn Hin E; cbn [migrate_loop] in E.
  { injection E as <-. cbn [fst snd]. by destruct t. }
  destruct (as_containsTx tx s) as [here| |]; [|done|done]. cbn [mbind outcome_bind] in E. cbn in Hn. apply NoDup_cons in Hn as [Hni Hn].
  assert (lk_remotes t !! hash = Some tx) as Hr by (apply Hin, elem_of_cons; by left). destruct here.
  - apply (IH (mkLookup (lk_slots t) (<[hash := tx]> (lk_locals t)) (delete hash (lk_remotes t)))) in E as [Hok Hget]; [|by apply migrate_one|done|].
    + split; [done|]. intros k. rewrite Hget. unfold lk_Get. cbn. destruct (decide (k = hash)) as [->|Hk]; [|by rewrite lookup_insert_ne, lookup_delete_ne].
      rewrite lookup_insert_eq. by rewrite (map_disjoint_Some_r _ _ _ _ (lo_disjoint _ Ht) Hr), Hr.
    + intros k v Hkv. cbn. rewrite lookup_delete_ne; [apply Hin, elem_of_cons; by right|]. intros ->. apply Hni. by apply (list_elem_of_fmap_2 fst _ (k, v)).
  - apply IH in E; [done|done|done|]. intros k v Hkv. apply Hin, elem_of_cons. by right.
Qed.

(** The changes the pool makes: it only adds what it does not know. *)
Inductive lk_step (order : gmap Hash Transaction -> list (Hash * Transaction)) : txLookup -> txLookup -> Prop :=
  | lk_add t tx local : lk_Get (tx_id tx) t = None -> lk_step order t (lk_Add tx local t)
  | lk_remove t hash : lk_step order t (lk_Remove hash t)
  | lk_migrate t s n t' : lk_RemoteToLocals order s t = Ret (n, t') -> lk_step order t t'.

Lemma lk_step_ok order t t' : (forall m, order m ≡ₚ map_to_list m) -> lk_ok t -> lk_step order t t' -> lk_ok t'.
Proof.
  intros Ho Ht Hstep. destruct Hstep as [t tx local Hn|t hash|t s n t' E]; [by apply lk_Add_ok|by apply lk_Remove_ok|].
  unfold lk_RemoteToLocals in E. destruct (migrate_loop _ _ _ _ _) as [[[lc rm] k]| |] eqn:Em; [|done|done]. injection E as <- <-.
  apply migrate_loop_ok in Em as [Hok _]; [done|done|rewrite Ho; apply NoDup_fst_map_to_list|]. intros i v Hi. rewrite Ho in Hi. by apply elem_of_map_to_list.
Qed.

(** Whatever the pool adds, removes or makes local, a transaction is in at
    most one of the two sets and under its own hash, and the count of slots is
    exactly the sum of the slots of all transactions there are. *)
Theorem lookup_exact (order : gmap Hash Transaction -> list (Hash * Transaction)) (Horder : forall m, order m ≡ₚ map_to_list m)
    (t : txLookup) (Hsteps : rtc (lk_step order) newTxLookup t) :
  lk_slots t = total_slots (values (lk_locals t)) + total_slots (values (lk_remotes t)) /\
  (forall hash tx, lk_Get hash t = Some tx -> tx_id tx = hash /\ ~ (is_Some (lk_GetLocal hash t) /\ is_Some (lk_GetRemote hash t))) /\
  lk_Count t = length (values (lk_locals t) ++ values (lk_remotes t)).
Proof.
  assert (lk_ok t) as [Hd Hl Hr Hs].
  { refine (rtc_ind_r (fun t => lk_ok t) newTxLookup _ _ t Hsteps); [|intros; by eapply lk_step_ok].
    split; cbn; [apply map_disjoint_empty_l|by intros ?|by intros ?|done]. }
  split; [done|]. split.
  - intros hash tx E. split.
    + unfold lk_Get in E. destruct (lk_locals t !! hash) eqn:El; [injection E as ->; by apply Hl|by apply Hr].
    + intros [[a Ha] [b Hb]]. unfold lk_GetLocal, lk_GetRemote in *. rewrite (map_disjoint_Some_l _ _ _ _ Hd Ha) in Hb. done.
  - unfold lk_Count, values. by rewrite length_app, !length_fmap, !length_map_to_list.
Qed.

End LookupProofs.

(** ** The priced list evicts the cheapest *)

#[local] Instance bid_ranked : Ranked Transaction := fun t => Nonce t - GasPrice t * 2 ^ 64.

Definition price_rel (s : priceHeap) (l : list Transaction) : Prop := ph_txs s = l /\ Forall in_range l.

Lemma rank_cheaper a b : in_range a -> in_range b -> price_cheaper a b = (rank b <? rank a).
Proof.
  unfold in_range, price_cheaper, rank, bid_ranked. intros Ha Hb. destruct (Z.ltb_spec (GasPrice a) (GasPrice b)); [symmetry; apply Z.ltb_lt; lia|].
  destruct (Z.ltb_spec (GasPrice b) (GasPrice a)); [symmetry; apply Z.ltb_ge; lia|].
  destruct (Z.ltb_spec (Nonce b) (Nonce a)); symmetry; [apply Z.ltb_lt|apply Z.ltb_ge]; lia.
Qed.

Lemma rank_price a b : in_range a -> in_range b -> rank b <= rank a -> GasPrice a <= GasPrice b.
Proof. unfold in_range, rank, bid_ranked. lia. Qed.

#[local] Instance prices_refine : HeapSimulation price_rel.
Proof.
  split; cbn [h_Len h_Less h_Swap h_Push h_Pop prices_heap list_heap].
  - by intros s l [-> _].
  - intros s l i j [-> Ht] [a Ha]%lookup_lt_is_Some_2 [b Hb]%lookup_lt_is_Some_2. unfold list_Less. rewrite Ha, Hb. apply rank_cheaper; by eapply Forall_lookup_1.
  - intros s l i j [-> Ht] _ _. split; [done|]. by rewrite list_Swap_perm.
  - intros i j l. apply length_list_Swap.
  - intros s l [-> Ht]. unfold list_Pop. destruct (last l) as [x|]; [|done]. cbn. split; [done|]. split; [done|]. by apply Forall_take.
Qed.

Definition prices_of (P : txPricedList) (h : list Transaction) : Prop := heap_holds price_rel (pl_remotes P) h.

Lemma prices_range P h : prices_of P h -> Forall in_range h.
Proof. intros (l & [_ Hf] & _ & Hp). by rewrite <- Hp. Qed.

Lemma prices_length P h : prices_of P h -> length (ph_txs (pl_remotes P)) = length h.
Proof. intros (l & [-> _] & _ & Hp). by rewrite Hp. Qed.

(** The first element of the heap: none is cheaper. *)
Lemma prices_root P h : prices_of P h ->
  match ph_txs (pl_remotes P) !! 0%nat with
  | None => h = []
  | Some t => t ∈ h /\ (forall u, u ∈ h -> GasPrice t <= GasPrice u) /\
      exists s h', heap_Pop (pl_remotes P) = Ret (t, s) /\ h ≡ₚ t :: h' /\ forall n, prices_of (mkPriced s n) h'
  end.
Proof.
  intros Hh. pose proof (prices_range _ _ Hh) as Hr. rewrite Forall_forall in Hr. pose proof Hh as (l & [El _] & Ho & Hp).
  destruct (ph_txs (pl_remotes P) !! 0%nat) as [t|] eqn:E.
  - destruct l as [|t0 l]; [by rewrite El in E|]. assert (h <> []) as Hne by (intros ->; by apply Permutation_nil_r in Hp).
    destruct (holds_root _ _ _ Hh Hne) as (l1 & x & [El1 _] & Hx & Hin & Hmax). rewrite El1 in E. assert (x = t) as -> by congruence.
    split; [done|]. split; [intros u Hu; apply rank_price; auto|].
    pose proof (heap_Pop_list (t0 :: l) Ho ltac:(done)) as (y & l' & Ey & Hpl & Ho' & _ & Hy).
    pose proof (heap_Pop_refines price_rel (pl_remotes P) (t0 :: l)) as Hpr. rewrite Ey in Hpr. destruct (heap_Pop (pl_remotes P)) as [[z s]| |].
    2,3: exfalso; apply Hpr; split; [done|by rewrite Hp; apply (prices_range _ _ Hh)].
    destruct Hpr as [-> Hs]; [split; [done|by rewrite Hp; apply (prices_range _ _ Hh)]|].
    assert (y = t) as -> by (rewrite El in El1; subst l1; congruence). exists s, l'. split; [done|]. split; [by rewrite <- Hp|]. intros n. by exists l'.
  - rewrite El in E. destruct l; [by apply Permutation_nil_l in Hp|done].
Qed.

Section Priced.
Context `{HK : Keccak} `{HS : Secp256k1} (all : txLookup).

Definition live (h : list Transaction) : list Transaction := filter (fun t => stale all t = false) h.

(** The heap has all remote transactions; what it has under the hash of one
    bids the same. *)
Definition covers (h : list Transaction) : Prop :=
  (forall k t, lk_remotes all !! k = Some t -> exists u, u ∈ h /\ tx_id u = k) /\
  (forall u t, u ∈ h -> lk_remotes all !! tx_id u = Some t -> GasPrice u = GasPrice t /\ Nonce u = Nonce t).

Lemma live_elem h t : t ∈ live h <-> t ∈ h /\ is_Some (lk_remotes all !! tx_id t).
Proof.
  unfold live, stale, lk_GetRemote. rewrite list_elem_of_filter. destruct (lk_remotes all !! tx_id t).
  - split; [intros [_ ?]; split; [done|by eexists]|by intros [? _]].
  - split; [by intros [? _]|by intros [_ []]].
Qed.

Lemma covers_live h h' : (forall t, t ∈ live h <-> t ∈ live h') -> covers h -> covers h'.
Proof.
  intros Hl [H1 H2]. split.
  - intros k t Hk. destruct (H1 k t Hk) as (u & Hu & E). exists u. split; [|done]. assert (u ∈ live h) as [? _]%Hl%live_elem; [|done]. apply live_elem. rewrite E. eauto.
  - intros u t Hu Ht. apply H2; [|done]. assert (u ∈ live h') as [? _]%Hl%live_elem; [|done]. apply live_elem. eauto.
Qed.

Lemma live_cons t h : live (t :: h) = if stale all t then live h else t :: live h.
Proof. unfold live. rewrite filter_cons. by destruct (stale all t). Qed.

#[global] Instance live_perm : Proper ((≡ₚ) ==> (≡ₚ)) live.
Proof. intros h h' Hp. unfold live. by rewrite Hp. Qed.

(** Cleaning up drops stale heads only. *)
Lemma clean_loop_ok fuel : forall P h, prices_of P h -> (length h <= fuel)%nat ->
  exists P' h', clean_loop fuel all P = Ret P' /\ prices_of P' h' /\ h' ⊆ h /\ live h ≡ₚ live h' /\
    match ph_txs (pl_remotes P') !! 0%nat with Some t => stale all t = false | None => True end.
Proof.
  induction fuel as [|fuel IH]; intros P h Hh Hlen; cbn [clean_loop]; pose proof (prices_root P h Hh) as Hroot; destruct (ph_txs (pl_remotes P) !! 0%nat) as [t|] eqn:E.
  - destruct Hroot as (Hin & _). destruct h; [by apply not_elem_of_nil in Hin|cbn in Hlen; lia].
  - exists P, h. by rewrite E.
  - destruct Hroot as (_ & _ & s & h1 & Epop & Hp & Hh1). destruct (stale all t) eqn:Est.
    + rewrite Epop. cbn [mbind outcome_bind]. destruct (IH _ h1 (Hh1 (pl_stales P - 1))) as (P' & h' & Ec & Hh' & Hs & Hl & Hm); [apply Permutation_length in Hp; cbn in Hp; lia|].
      exists P', h'. split_and!; [done|done|intros u Hu%Hs; rewrite Hp; apply elem_of_cons; by right| |done]. rewrite Hp, live_cons, Est. done.
    + exists P, h. by rewrite E, Est.
  - exists P, h. by rewrite E.
Qed.

(** [Underpriced] compares with the cheapest remote transaction. *)
Lemma underpriced_ok P h tx : prices_of P h -> covers h -> exists b P' h', pl_Underpriced all tx P = Ret (b, P') /\ prices_of P' h' /\ h' ⊆ h /\ covers h' /\
  (b = true <-> lk_remotes all <> ∅ /\ forall k t, lk_remotes all !! k = Some t -> GasPrice tx <= GasPrice t).
Proof.
  intros Hh Hc. destruct (clean_loop_ok (length (ph_txs (pl_remotes P))) P h Hh) as (P' & h' & E & Hh' & Hs & Hl & Hm); [by rewrite (prices_length P h)|].
  assert (covers h') as Hc' by (apply (covers_live h); [intros t; by rewrite Hl|done]). unfold pl_Underpriced. rewrite E. cbn [mbind outcome_bind].
  pose proof (prices_root P' h' Hh') as Hroot. destruct (ph_txs (pl_remotes P') !! 0%nat) as [t|].
  - destruct Hroot as (Hin & Hmin & _). do 3 eexists. split_and!; [done|done|done|done|]. rewrite Z.leb_le. unfold stale, lk_GetRemote in Hm.
    destruct (lk_remotes all !! tx_id t) as [t'|] eqn:Et; [|done]. destruct (proj2 Hc' t t' Hin Et) as [Eg _]. split.
    + intros Hle. split; [intros E0; rewrite E0 in Et; done|]. intros k u Hk. destruct (proj1 Hc' k u Hk) as (v & Hv & <-). destruct (proj2 Hc' v u Hv Hk) as [Ev _]. specialize (Hmin v Hv). lia.
    + intros [_ Hall]. rewrite Eg. by eapply Hall.
  - subst h'. do 3 eexists. split_and!; [done|done|done|done|]. split; [done|]. intros [Hne _]. exfalso. apply Hne, map_empty. intros k.
    destruct (lk_remotes all !! k) as [u|] eqn:Ek; [|done]. destruct (proj1 Hc' k u Ek) as (v & []%not_elem_of_nil & _).
Qed.

(** [Cap] takes all remote transactions below the threshold. *)
Lemma cap_prices_ok th fuel : forall P h drops, prices_of P h -> (length h <= fuel)%nat ->
  exists new P' h', cap_prices_loop fuel all th P drops = Ret (drops ++ new, P') /\ prices_of P' h' /\ h' ⊆ h /\ live h ≡ₚ new ++ live h' /\
    (forall d, d ∈ new -> GasPrice d < th) /\ (forall u, u ∈ h' -> th <= GasPrice u).
Proof.
  induction fuel as [|fuel IH]; intros P h drops Hh Hlen; cbn [cap_prices_loop]; pose proof (prices_root P h Hh) as Hroot; destruct (ph_txs (pl_remotes P) !! 0%nat) as [t|] eqn:E.
  1: destruct Hroot as (Hin & _); destruct h; [by apply not_elem_of_nil in Hin|cbn in Hlen; lia].
  1, 3: subst h; exists [], P, []; rewrite app_nil_r; split_and!; [done|done|done|done|..]; by intros u []%not_elem_of_nil.
  destruct Hroot as (_ & Hmin & s & h1 & Epop & Hp & Hh1). assert (length h1 <= fuel)%nat as Hlen1 by (apply Permutation_length in Hp; cbn in Hp; lia).
  assert (live h ≡ₚ live (t :: h1)) as Hlive by (by rewrite Hp). rewrite live_cons in Hlive.
  assert (h1 ⊆ h) as Hsub by (intros u Hu; rewrite Hp; apply elem_of_cons; by right). destruct (stale all t) eqn:Est.
  - rewrite Epop. cbn [mbind outcome_bind]. destruct (IH _ h1 drops (Hh1 (pl_stales P - 1)) Hlen1) as (new & P' & h' & Ec & Hh' & Hs & Hl & Hd & Hu).
    exists new, P', h'. split_and!; [done|done|by etrans|by rewrite Hlive|done|done].
  - destruct (Z.leb_spec th (GasPrice t)).
    + exists [], P, h. rewrite app_nil_r. split_and!; [done|done|done|done|by intros u []%not_elem_of_nil|]. intros u Hu. specialize (Hmin u Hu). lia.
    + rewrite Epop. cbn [mbind outcome_bind]. destruct (IH _ h1 (drops ++ [t]) (Hh1 (pl_stales P)) Hlen1) as (new & P' & h' & Ec & Hh' & Hs & Hl & Hd & Hu).
      exists (t :: new), P', h'. split_and!; [by rewrite Ec, <- app_assoc|done|by etrans|by rewrite Hlive, Hl| |done]. intros d [->|Hin]%elem_of_cons; [done|by apply Hd].
Qed.

(** [Discard] pops the cheapest until there is room. *)
Lemma discard_ok fuel : forall P h slots drops, prices_of P h -> (length h <= fuel)%nat ->
  exists new P' h', discard_loop fuel all slots P drops = Ret (drops ++ new, slots - total_slots new, P') /\ prices_of P' h' /\ live h ≡ₚ new ++ live h' /\
    h' ⊆ h /\ (forall d u, d ∈ new -> u ∈ h' -> GasPrice d <= GasPrice u) /\ (h' = [] \/ slots <= total_slots new).
Proof.
  induction fuel as [|fuel IH]; intros P h slots drops Hh Hlen; cbn [discard_loop]; rewrite (prices_length P h Hh); destruct (Nat.ltb_spec 0 (length h)) as [Hpos|Hz], (Z.ltb_spec 0 slots); cbn [andb].
  1: lia.
  4: {
    pose proof (prices_root P h Hh) as Hroot. destruct (ph_txs (pl_remotes P) !! 0%nat) as [t|]; [|subst h; cbn in Hpos; lia].
    destruct Hroot as (_ & Hmin & s & h1 & Epop & Hp & Hh1). assert (length h1 <= fuel)%nat as Hlen1 by (apply Permutation_length in Hp; cbn in Hp; lia).
    assert (live h ≡ₚ live (t :: h1)) as Hlive by (by rewrite Hp). rewrite live_cons in Hlive. rewrite Epop. cbn [mbind outcome_bind].
    assert (h1 ⊆ h) as Hsub by (intros u Hu; rewrite Hp; apply elem_of_cons; by right). destruct (stale all t) eqn:Est.
    - destruct (IH _ h1 slots drops (Hh1 (pl_stales P - 1)) Hlen1) as (new & P' & h' & Ec & Hh' & Hl & Hs & Hd & Hend).
      exists new, P', h'. split_and!; [done|done|by rewrite Hlive|by etrans|done|done].
    - destruct (IH _ h1 (slots - numSlots t) (drops ++ [t]) (Hh1 (pl_stales P)) Hlen1) as (new & P' & h' & Ec & Hh' & Hl & Hs & Hd & Hend).
      exists (t :: new), P', h'. split_and!; [|done|by rewrite Hlive, Hl|by etrans| |].
      + rewrite Ec, <- app_assoc, total_slots_cons. by replace (slots - numSlots t - total_slots new) with (slots - (numSlots t + total_slots new)) by lia.
      + intros d u [->|Hin]%elem_of_cons Hu; [by apply Hmin, Hsub, Hs|by apply Hd].
      + rewrite total_slots_cons. destruct Hend; [by left|right; lia]. }
  all: exists [], P, h; rewrite app_nil_r, Z.sub_0_r; split_and!; [done|done|done|done|by intros d u []%not_elem_of_nil|].
  all: first [right; cbn; lia|left; destruct h; [done|cbn in Hz; lia]].
Qed.

Lemma push_back P n drops : forall h s, heap_holds price_rel s h -> Forall in_range drops -> P = mkPriced (fold_left (fun h tx => heap_Push tx h) drops s) n -> prices_of P (drops ++ h).
Proof.
  intros h s Hh Hr ->. unfold prices_of. cbn [pl_remotes]. revert h s Hh. induction Hr as [|t drops Ht Hr IH]; intros h s Hh; cbn [fold_left app]; [done|].
  rewrite Permutation_middle. apply IH. apply holds_push_at; [apply _| |done]. intros l [El Hl]. split; [cbn; by rewrite El|]. apply Forall_app. by split; [|constructor].
Qed.

Lemma cap_ok P h th : prices_of P h -> exists drops P' h', pl_Cap all th P = Ret (drops, P') /\ prices_of P' h' /\ h' ⊆ h /\ live h ≡ₚ drops ++ live h' /\
  (forall d, d ∈ drops -> GasPrice d < th) /\ (forall u, u ∈ h' -> th <= GasPrice u).
Proof.
  intros Hh. destruct (cap_prices_ok th (length (ph_txs (pl_remotes P))) P h [] Hh) as (new & P' & h' & E & H'); [by rewrite (prices_length P h)|]. by exists new, P', h'.
Qed.

Lemma discards_ok P h slots force : prices_of P h -> covers h -> 0 <= slots -> exists drops ok P' h', pl_Discard all slots force P = Ret ((drops, ok), P') /\ prices_of P' h' /\ h' ⊆ h /\
  if ok then live h ≡ₚ drops ++ live h' /\ (forall d u, d ∈ drops -> u ∈ h' -> GasPrice d <= GasPrice u) /\ (slots <= total_slots drops \/ (force = true /\ h' = []))
  else drops = [] /\ force = false /\ total_slots (live h) < slots /\ covers h'.
Proof.
  intros Hh Hc Hslots. unfold pl_Discard. destruct (Z.ltb_spec slots 0); [lia|].
  destruct (discard_ok (length (ph_txs (pl_remotes P))) P h slots [] Hh) as (new & P' & h' & E & Hh' & Hl & Hs & Hd & Hend); [by rewrite (prices_length P h)|].
  rewrite E. cbn [mbind outcome_bind app]. destruct (Z.ltb_spec 0 (slots - total_slots new)) as [Hshort|Hroom]; cbn [andb].
  - destruct Hend as [->|]; [|lia]. cbn in Hl. rewrite app_nil_r in Hl. destruct force; cbn [negb].
    + exists new, true, P', []. split_and!; [done|done|done|by rewrite app_nil_r|by intros d u _ []%not_elem_of_nil|by right].
    + assert (new ⊆ h) as Hsub by (intros t Ht; rewrite <- Hl in Ht; by apply live_elem in Ht as [? _]).
      exists [], false. do 2 eexists. split; [done|]. split; [eapply push_back; [exact Hh'| |done]|].
      * pose proof (prices_range P h Hh) as Hr. rewrite Forall_forall in *. intros t Ht. by apply Hr, Hsub.
      * rewrite app_nil_r. split_and!; [done|done|done|rewrite Hl; lia|]. apply (covers_live h); [|done]. intros t. rewrite Hl. split; [|by intros [? _]%live_elem].
        intros Ht. assert (t ∈ live h) as [_ ?]%live_elem by (by rewrite Hl). by apply live_elem.
  - exists new, true, P', h'. split_and!; [done|done|done|done|done|left; lia].
Qed.


End Priced.

(** ** The priced list follows the pool *)

Section Follow.
Context `{HK : Keccak} `{HS : Secp256k1}.

(** A transaction the pool does not know; an entry that was left behind under
    its hash bids the same. *)
Lemma covers_add all h tx : covers all h -> lk_Get (tx_id tx) all = None ->
  (forall u, u ∈ h -> tx_id u = tx_id tx -> GasPrice u = GasPrice tx /\ Nonce u = Nonce tx) -> covers (lk_Add tx false all) (tx :: h).
Proof.
  intros [Hc1 Hc2] Hn Hb. split.
  - cbn. intros k t [[<- <-]|[_ Hk]]%lookup_insert_Some; [exists tx; split; [apply elem_of_cons; by left|done]|].
    destruct (Hc1 k t Hk) as (u & Hu & E). exists u. split; [apply elem_of_cons; by right|done].
  - cbn. intros u t Hu [[E <-]|[_ Hk]]%lookup_insert_Some; apply elem_of_cons in Hu as [->|Hu]; [done|by apply Hb|..|by apply Hc2].
    apply lk_Get_None in Hn as [_ Hn]. congruence.
Qed.

Lemma prices_put P h tx : prices_of P h -> in_range tx -> prices_of (pl_Put tx false P) (tx :: h).
Proof.
  intros Hh Ht. unfold prices_of. apply holds_push_at; [apply _| |done]. intros l [El Hl]. split; [cbn; by rewrite El|]. apply Forall_app. by split; [|constructor].
Qed.

Lemma priced_add all P h tx : prices_of P h -> covers all h -> in_range tx -> lk_Get (tx_id tx) all = None ->
  (forall u, u ∈ h -> tx_id u = tx_id tx -> GasPrice u = GasPrice tx /\ Nonce u = Nonce tx) ->
  prices_of (pl_Put tx false P) (tx :: h) /\ covers (lk_Add tx false all) (tx :: h).
Proof. intros. split; [by apply prices_put|by apply covers_add]. Qed.

Lemma priced_add_local all P h tx : prices_of P h -> covers all h -> prices_of (pl_Put tx true P) h /\ covers (lk_Add tx true all) h.
Proof. done. Qed.

Lemma covers_remove all h hash : covers all h -> covers (lk_Remove hash all) h.
Proof.
  intros [Hc1 Hc2]. unfold lk_Remove. destruct (lk_Get hash all) as [tx|]; [|done]. split; cbn; [intros k t [_ Hk]%lookup_delete_Some|intros u t Hu [_ Hk]%lookup_delete_Some]; eauto.
Qed.

Lemma range_collect kvs : forall acc, range_loop (fun acc (_ : Hash) tx (_ : bool) => (acc ++ [tx], true)) false kvs acc = (acc ++ kvs.*2, true).
Proof. induction kvs as [|[k t] kvs IH]; intros acc; cbn [range_loop]; [by rewrite app_nil_r|]. rewrite IH, <- app_assoc. done. Qed.

Lemma reheap_ok order all P : (forall m, order m ≡ₚ map_to_list m) -> keyed (lk_remotes all) -> Forall in_range (values (lk_remotes all)) ->
  prices_of (pl_Reheap order all P) (values (lk_remotes all)) /\ covers all (values (lk_remotes all)).
Proof.
  intros Ho Hk Hr. split; [|split].
  - unfold prices_of, pl_Reheap, lk_Range. rewrite range_collect. cbn [fst app pl_remotes]. assert ((order (lk_remotes all)).*2 ≡ₚ values (lk_remotes all)) as Hp by (by rewrite Ho).
    rewrite <- Hp. apply holds_init; [apply _|]. split; [done|]. by rewrite Hp.
  - intros k t Ht. exists t. split; [apply values_elem; eauto|by apply Hk].
  - intros u t (k & Hu)%values_elem Ht. pose proof (Hk _ _ Hu) as E. rewrite E in Ht. assert (u = t) as -> by congruence. done.
Qed.

Lemma removed_ok order all n P h : (forall m, order m ≡ₚ map_to_list m) -> keyed (lk_remotes all) -> Forall in_range (values (lk_remotes all)) ->
  prices_of P h -> covers all h -> exists h', prices_of (pl_Removed order all n P) h' /\ covers all h'.
Proof.
  intros Ho Hk Hr Hh Hc. unfold pl_Removed. destruct (_ <=? _); [by exists h|]. eexists. by apply reheap_ok.
Qed.

End Follow.

(** [setIfLower] lowers what [get] answers for the account, and for no other. *)
Lemma noncer_lowers fallback n addr nonce other : (nc_get fallback other (nc_setIfLower fallback addr nonce n)).1 =
  if decide (other = addr) then Z.min nonce (nc_get fallback addr n).1 else (nc_get fallback other n).1.
Proof.
  unfold nc_get, nc_setIfLower, nc_load. destruct (nc_nonces n !! addr) as [v|] eqn:E; cbn [fst snd].
  - destruct (Z.leb_spec v nonce), (decide (other = addr)) as [->|Hne]; cbn [nc_nonces]; rewrite ?lookup_insert_eq, ?lookup_insert_ne, ?E by done; cbn; try lia; by destruct (nc_nonces n !! other).
  - destruct (Z.leb_spec (fallback addr) nonce), (decide (other = addr)) as [->|Hne]; cbn [nc_nonces]; rewrite ?lookup_insert_eq, ?lookup_insert_ne by done; cbn; try lia; by destruct (nc_nonces n !! other).
Qed.

(** ** Examples *)

Section Witness.
#[local] Existing Instance sample_keccak.
#[local] Existing Instance sample_secp.

(** A transaction of one slot with its hash. *)
Definition offer (hash price : Z) : Transaction :=
  mkTransaction (Legacy (mkLegacyTx 0 (Some price) 21000 (Some 9) (Some 1) [] None None None)) 0 (Some hash) (Some 110) None.

Definition offers : txLookup * txPricedList :=
  fold_left (fun '(all, P) tx => (lk_Add tx false all, pl_Put tx false P)) [offer 3 30; offer 1 10; offer 2 20; offer 5 50; offer 4 40] (newTxLookup, newTxPricedList).

Definition offered : list Transaction := [offer 4 40; offer 5 50; offer 2 20; offer 1 10; offer 3 30].

Lemma offer_in_range hash price : in_range (offer hash price).
Proof. unfold in_range, Nonce. cbn. lia. Qed.

(** Adding an offer whose hash is new. *)
Lemma offer_added all P h hash price : prices_of P h -> covers all h -> lk_Get hash all = None -> Forall (fun u => tx_id u <> hash) h ->
  prices_of (pl_Put (offer hash price) false P) (offer hash price :: h) /\ covers (lk_Add (offer hash price) false all) (offer hash price :: h).
Proof.
  intros Hh Hc Hn Hf. apply priced_add; [done|done|apply offer_in_range|done|]. rewrite Forall_forall in Hf. intros u Hu E. by destruct (Hf u Hu).
Qed.

Lemma offers_ok : prices_of offers.2 offered /\ covers offers.1 offered.
Proof.
  unfold offers, offered. cbn [fold_left fst snd].
  assert (prices_of newTxPricedList [] /\ covers newTxLookup []) as H0.
  { split; [exists []; split; [done|]; split; [intros i Hi; cbn in Hi; lia|done]|]. split; [done|]. by intros u t []%not_elem_of_nil. }
  pose proof (offer_added _ _ _ 3 30 (proj1 H0) (proj2 H0) eq_refl ltac:(by repeat constructor)) as H1.
  pose proof (offer_added _ _ _ 1 10 (proj1 H1) (proj2 H1) eq_refl ltac:(by repeat constructor)) as H2.
  pose proof (offer_added _ _ _ 2 20 (proj1 H2) (proj2 H2) eq_refl ltac:(by repeat constructor)) as H3.
  pose proof (offer_added _ _ _ 5 50 (proj1 H3) (proj2 H3) eq_refl ltac:(by repeat constructor)) as H4.
  exact (offer_added _ _ _ 4 40 (proj1 H4) (proj2 H4) eq_refl ltac:(by repeat constructor)).
Qed.


(** A transaction that is dropped from the pool and comes back is twice in the
    heap until the next rebuild: it counts twice when room is made. *)
Example readded_counts_twice :
  let all := lk_Add (offer 1 10) false (lk_Remove 1 offers.1) in
  let P := pl_Put (offer 1 10) false (pl_Removed map_to_list (lk_Remove 1 offers.1) 1 offers.2) in
  match pl_Discard all 2 false P with Ret (r, _) => r = ([offer 1 10; offer 1 10], true) | _ => False end.
Proof. vm_compute. reflexivity. Qed.

Lemma lookup_exact_witness :
  let t := lk_Remove 3 (lk_Add (offer 4 40) true (lk_Add (offer 3 30) false newTxLookup)) in
  lk_slots t = 1 /\ lk_slots t = total_slots (values (lk_locals t)) + total_slots (values (lk_remotes t)).
Proof.
  intros t. split; [vm_compute; reflexivity|].
  refine (proj1 (lookup_exact map_to_list (fun _ => reflexivity _) t _)).
  eapply rtc_l; [apply (lk_add _ newTxLookup (offer 3 30) false); reflexivity|]. eapply rtc_l; [apply (lk_add _ _ (offer 4 40) true); vm_compute; reflexivity|].
  apply rtc_once. apply lk_remove.
Defined.

End Witness.
