(* ===== verification/PoolHead.v ===== *)
(** * A new head under the transaction pool ([core/tx_pool.go])

    When the chain switches to another branch, the pool takes back the
    transactions of the blocks that left the chain, unless they are in the
    blocks that joined it.  This file models the walk down the two branches in
    [TxPool.reset], with [GetBlock] of the chain as an argument, and shows what
    it collects.  The depth of a reorganisation is computed in floating point,
    which is exact for the numbers of blocks below 2^53. *)
From Stdlib Require Import ZArith Lia.
From stdpp Require Import base list option gmap.
From S2P Require Import Prelude Errors Common Transaction Block Signing TxPool.
Open Scope Z_scope.

(** A block of the chain, its transactions with their caches. *)
Record PoolBlock := mkPoolBlock { bl_header : Header; bl_Transactions : list Transaction }.

Section Head.
Context `{HK : Keccak}.
Implicit Types (b rem add : PoolBlock) (txs : list Transaction).

(** [types.TxDifference] *)
Definition TxDifference (a b : list Transaction) : list Transaction :=
  let remove : gset Hash := list_to_set (tx_id <$> b) in
  filter (fun tx => tx_id tx ∉ remove) a.

Definition bl_Hash b : Hash := Header_Hash (bl_header b).

Definition NumberU64 (h : Header) : outcome Z := n ← deref (hdr_Number h); Ret (u64 n).

Context (GetBlock : Hash -> Z -> option PoolBlock).

Definition parent_of b : outcome (option PoolBlock) :=
  n ← NumberU64 (bl_header b);
  Ret (GetBlock (hdr_ParentHash (bl_header b)) (u64 (n - 1))).

(** Both first loops: down to the number of the other block.  The answer is
    [None] when a parent is missing. *)
Fixpoint lower_loop (fuel : nat) b (limit : Z) txs : outcome (option (PoolBlock * list Transaction)) :=
  match fuel with
  | O => Panic
  | S fuel' =>
      n ← NumberU64 (bl_header b);
      if limit <? n then
        p ← parent_of b;
        match p with
        | None => Ret None
        | Some b' => lower_loop fuel' b' limit (txs ++ bl_Transactions b)
        end
      else Ret (Some (b, txs))
  end.

(** The third loop: down both branches until they meet. *)
Fixpoint meet_loop (fuel : nat) rem add (discarded included : list Transaction) : outcome (option (list Transaction * list Transaction)) :=
  match fuel with
  | O => Panic
  | S fuel' =>
      if bl_Hash rem =? bl_Hash add then Ret (Some (discarded, included))
      else
        p ← parent_of rem;
        match p with
        | None => Ret None
        | Some rem' =>
            q ← parent_of add;
            match q with
            | None => Ret None
            | Some add' => meet_loop fuel' rem' add' (discarded ++ bl_Transactions rem) (included ++ bl_Transactions add)
            end
        end
  end.

Definition branch_txs rem add : outcome (option (list Transaction)) :=
  nr ← NumberU64 (bl_header rem);
  na ← NumberU64 (bl_header add);
  let fuel := S (Z.to_nat (Z.max nr na)) in
  r ← lower_loop fuel rem na [];
  match r with
  | None => Ret None
  | Some (rem, discarded) =>
      nr ← NumberU64 (bl_header rem);
      a ← lower_loop fuel add nr [];
      match a with
      | None => Ret None
      | Some (add, included) =>
          m ← meet_loop fuel rem add discarded included;
          Ret ('(discarded, included) ← m; Some (TxDifference discarded included))
      end
  end.

(** [float64] of a [uint64]: rounded to 53 bits, halves to even. *)
Definition float64_of (n : Z) : Z :=
  let unit := 2 ^ Z.max 0 (Z.log2 n - 52) in
  let q := n / unit in
  let r := n mod unit in
  (if (unit <? 2 * r) || ((2 * r =? unit) && Z.odd q) then q + 1 else q) * unit.

(** [uint64(math.Abs(float64(oldNum) - float64(newNum)))], exact whenever it is
    at most 64. *)
Definition reorg_depth (oldNum newNum : Z) : Z := Z.abs (float64_of oldNum - float64_of newNum).

Lemma float64_exact n : 0 <= n < 2 ^ 53 -> float64_of n = n.
Proof.
  intros Hn. unfold float64_of. assert (Z.log2 n < 53) as Hl. { destruct (Z.eq_dec n 0) as [->|]; [cbn; lia|]. apply Z.log2_lt_pow2; lia. }
  rewrite Z.max_l, Z.pow_0_r, Z.div_1_r, Z.mod_1_r by lia. replace ((1 <? 2 * 0) || ((2 * 0 =? 1) && Z.odd n)) with false by done. lia.
Qed.

(** What [reset] reinjects; [None] when it gives up. *)
Definition reinject_of (oldHead newHead : option Header) : outcome (option (list Transaction)) :=
  match oldHead with
  | None => Ret (Some [])
  | Some old =>
      new ← deref newHead;
      if Header_Hash old =? hdr_ParentHash new then Ret (Some [])
      else
        oldNum ← NumberU64 old;
        newNum ← NumberU64 new;
        if 64 <? reorg_depth oldNum newNum then Ret (Some [])
        else
          match GetBlock (Header_Hash old) oldNum with
          | None => if oldNum <=? newNum then Ret None else Ret (Some [])
          | Some rem => add ← deref (GetBlock (Header_Hash new) newNum); branch_txs rem add
          end
  end.

(** ** The chain *)

(** A block is stored under its hash and number, and no chain is as long as
    the integers are wide. *)
Definition stored_right : Prop := forall h n b, GetBlock h n = Some b -> bl_Hash b = h /\ hdr_Number (bl_header b) = Some n /\ 0 <= n < 2 ^ 64 - 1.

Definition at_height b (n : Z) : Prop := hdr_Number (bl_header b) = Some n /\ 0 <= n < 2 ^ 64 - 1.

Context (HGB : stored_right).

Lemma number_of h n : hdr_Number h = Some n -> 0 <= n < 2 ^ 64 - 1 -> NumberU64 h = Ret n.
Proof. intros E Hn. unfold NumberU64. rewrite E. cbn. by rewrite u64_small by lia. Qed.

Lemma at_height_number b n : at_height b n -> NumberU64 (bl_header b) = Ret n.
Proof. intros [E Hn]. by apply number_of. Qed.

Lemma parent_step b n p : at_height b n -> parent_of b = Ret (Some p) -> 1 <= n /\ at_height p (n - 1).
Proof.
  intros Hb. unfold parent_of. rewrite (at_height_number b n Hb). cbn. intros H%(f_equal (fun o => match o with Ret o => o | _ => None end)). apply HGB in H as (_ & Hn & Hr).
  destruct Hb as [_ Hb]. assert (1 <= n) as H1. { destruct (Z.eq_dec n 0) as [->|]; [|lia]. change (u64 (0 - 1)) with (2 ^ 64 - 1) in Hr. lia. }
  rewrite u64_small in Hn, Hr by lia. by split.
Qed.

Lemma parent_safe b n : at_height b n -> exists p, parent_of b = Ret p.
Proof. intros Hb. unfold parent_of. rewrite (at_height_number b n Hb). by eexists. Qed.

(** ** Branches *)

(** The blocks from [b] down to [a], without [a]. *)
Inductive branch : PoolBlock -> list PoolBlock -> PoolBlock -> Prop :=
  | branch_here a : branch a [] a
  | branch_down b b' l a : parent_of b = Ret (Some b') -> branch b' l a -> branch b (b :: l) a.

Definition txs_of (l : list PoolBlock) : list Transaction := l ≫= bl_Transactions.

Lemma branch_height b l a n : branch b l a -> at_height b n -> at_height a (n - Z.of_nat (length l)).
Proof.
  intros Hb. revert n. induction Hb as [a|b b' l a Hp _ IH]; intros n Hn; [by rewrite Z.sub_0_r|]. destruct (parent_step b n b' Hn Hp) as [_ Hn']. apply IH in Hn'. cbn [length]. by replace (n - Z.of_nat (S (length l))) with (n - 1 - Z.of_nat (length l)) by lia.
Qed.

Lemma lower_branch k : forall fuel b l a n txs, branch b l a -> at_height b n -> (k <= length l)%nat -> (k < fuel)%nat ->
  exists b', lower_loop fuel b (n - Z.of_nat k) txs = Ret (Some (b', txs ++ txs_of (take k l))) /\ branch b' (drop k l) a /\ at_height b' (n - Z.of_nat k).
Proof.
  induction k as [|k IH]; intros fuel b l a n txs Hb Hn Hk Hf; destruct fuel as [|fuel]; try lia; cbn [lower_loop]; rewrite (at_height_number b n Hn); cbn [mbind outcome_bind].
  - rewrite Z.sub_0_r, Z.ltb_irrefl. exists b. rewrite take_0, drop_0. unfold txs_of. cbn. by rewrite app_nil_r.
  - destruct (Z.ltb_spec (n - Z.of_nat (S k)) n); [|lia]. destruct Hb as [|b b' l a Hp Hb]; cbn [length] in Hk; [lia|]. rewrite Hp. cbn [mbind outcome_bind].
    destruct (parent_step b n b' Hn Hp) as [_ Hn']. destruct (IH fuel b' l a (n - 1) (txs ++ bl_Transactions b) Hb Hn') as (b2 & E & Hb2 & Hn2); [lia|lia|].
    replace (n - Z.of_nat (S k)) with (n - 1 - Z.of_nat k) by lia. exists b2. split; [|done]. rewrite E. cbn [take]. unfold txs_of. rewrite bind_cons. by rewrite <- app_assoc.
Qed.

Lemma meet_branches l : forall fuel rem add l' a d i, branch rem l a -> branch add l' a -> length l = length l' -> (length l < fuel)%nat ->
  (forall b b', b ∈ l -> b' ∈ l' -> bl_Hash b <> bl_Hash b') -> meet_loop fuel rem add d i = Ret (Some (d ++ txs_of l, i ++ txs_of l')).
Proof.
  induction l as [|b l IH]; intros fuel rem add l' a d i Hr Ha Hlen Hf Hne; destruct fuel as [|fuel]; try (cbn in Hf; lia); destruct l' as [|b' l']; try done; cbn [meet_loop].
  - inversion Hr; subst. inversion Ha; subst. rewrite Z.eqb_refl. unfold txs_of. cbn. by rewrite !app_nil_r.
  - inversion Hr as [|? r1 ? ? Hp1 Hr1]; subst. inversion Ha as [|? a1 ? ? Hp2 Ha1]; subst. destruct (Z.eqb_spec (bl_Hash b) (bl_Hash b')) as [E|_]; [exfalso; eapply (Hne b b'); [apply elem_of_cons; by left|apply elem_of_cons; by left|done]|].
    rewrite Hp1, Hp2. cbn [mbind outcome_bind]. rewrite (IH fuel r1 a1 l' a); [|done|done|cbn in Hlen; lia|cbn in Hf; lia|intros x y Hx Hy; apply Hne; apply elem_of_cons; by right].
    unfold txs_of. by rewrite !bind_cons, <- !app_assoc.
Qed.

Lemma elem_of_dropped {A} (x : A) n l : x ∈ drop n l -> x ∈ l.
Proof. intros Hx. rewrite <- (take_drop n l). apply elem_of_app. by right. Qed.

Lemma branch_txs_meet rem add lo ln a nr na : at_height rem nr -> at_height add na -> branch rem lo a -> branch add ln a -> (forall b b', b ∈ lo -> b' ∈ ln -> bl_Hash b <> bl_Hash b') ->
  branch_txs rem add = Ret (Some (TxDifference (txs_of lo) (txs_of ln))).
Proof.
  intros Hr Ha Br Ba Hdis. pose proof (branch_height _ _ _ _ Br Hr) as [E1 R1]. pose proof (branch_height _ _ _ _ Ba Ha) as [E2 R2]. rewrite E2 in E1. injection E1 as E1.
  unfold branch_txs. rewrite (at_height_number rem nr Hr), (at_height_number add na Ha). cbn [mbind outcome_bind].
  set (k := (length lo - length ln)%nat). set (j := (length ln - length lo)%nat).
  assert (exists rem', lower_loop (S (Z.to_nat (Z.max nr na))) rem na [] = Ret (Some (rem', txs_of (take k lo))) /\ branch rem' (drop k lo) a /\ at_height rem' (nr - Z.of_nat k)) as (rem' & El & Br' & Hr').
  { destruct (Z_lt_le_dec nr na) as [Hlt|Hge].
    - exists rem. assert (k = 0%nat) as -> by lia. cbn [lower_loop]. rewrite (at_height_number rem nr Hr). cbn [mbind outcome_bind]. destruct (Z.ltb_spec na nr); [lia|]. rewrite take_0, drop_0, Z.sub_0_r. done.
    - destruct (lower_branch k (S (Z.to_nat (Z.max nr na))) rem lo a nr [] Br Hr) as (b' & E & ?); [lia|lia|]. exists b'. split; [|done]. replace (nr - Z.of_nat k) with na in E by lia. exact E. }
  rewrite El. cbn [mbind outcome_bind]. rewrite (at_height_number rem' _ Hr'). cbn [mbind outcome_bind].
  destruct (lower_branch j (S (Z.to_nat (Z.max nr na))) add ln a na [] Ba Ha) as (add' & Ej & Ba' & _); [lia|lia|]. replace (nr - Z.of_nat k) with (na - Z.of_nat j) by lia. rewrite Ej. cbn [mbind outcome_bind].
  rewrite (meet_branches (drop k lo) _ rem' add' (drop j ln) a); [|done|done|rewrite !length_drop; lia|rewrite length_drop; lia|].
  - cbn. unfold txs_of. rewrite <- !bind_app, !take_drop. done.
  - intros b b' Hb Hb'. apply Hdis; [by eapply elem_of_dropped|by eapply elem_of_dropped].
Qed.

(** C26: after a reorganisation of at most 64 blocks the pool reinjects exactly
    the transactions of the abandoned branch that are not in the new one: both
    branches are followed down to the block where they meet.  (The depth is
    computed in floating point, which is exact for numbers below 2^53.) *)
Theorem reorg_reinjects old new rem add lo ln a no nn : GetBlock (Header_Hash old) no = Some rem -> GetBlock (Header_Hash new) nn = Some add ->
  hdr_Number old = Some no -> hdr_Number new = Some nn -> Header_Hash old <> hdr_ParentHash new -> Z.abs (no - nn) <= 64 -> no < 2 ^ 53 -> nn < 2 ^ 53 ->
  branch rem lo a -> branch add ln a -> (forall b b', b ∈ lo -> b' ∈ ln -> bl_Hash b <> bl_Hash b') ->
  exists txs, reinject_of (Some old) (Some new) = Ret (Some txs) /\
    forall t, t ∈ txs <-> (exists b, b ∈ lo /\ t ∈ bl_Transactions b) /\ forall b u, b ∈ ln -> u ∈ bl_Transactions b -> tx_id u <> tx_id t.
Proof.
  intros Er Ea Eo En Hne Hd Ho53 Hn53 Hr Ha Hdis. destruct (HGB _ _ _ Er) as (_ & Nr & Rr). destruct (HGB _ _ _ Ea) as (_ & Na & Ra).
  exists (TxDifference (txs_of lo) (txs_of ln)). split.
  - unfold reinject_of. cbn [deref mbind outcome_bind]. destruct (Z.eqb_spec (Header_Hash old) (hdr_ParentHash new)); [done|].
    rewrite (number_of old no Eo Rr), (number_of new nn En Ra). cbn [mbind outcome_bind].
    unfold reorg_depth. rewrite !float64_exact by lia. destruct (Z.ltb_spec 64 (Z.abs (no - nn))); [lia|]. rewrite Er, Ea. cbn [deref mbind outcome_bind].
    by apply (branch_txs_meet rem add lo ln a no nn).
  - intros t. unfold TxDifference. rewrite list_elem_of_filter, elem_of_list_to_set, list_elem_of_fmap. unfold txs_of. rewrite list_elem_of_bind. split.
    + intros [Hn (b & Ht & Hb)]. split; [by exists b|]. intros b' u Hb' Hu E. apply Hn. exists u. split; [done|]. apply list_elem_of_bind. by exists b'.
    + intros [(b & Hb & Ht) Hn]. split; [|by exists b]. intros (u & E & (b' & Hu & Hb')%list_elem_of_bind). by eapply Hn.
Qed.

(** ** The walk ends *)

Context (G : Transaction -> Prop) (HGtx : forall h n b, GetBlock h n = Some b -> Forall G (bl_Transactions b)).

Definition stored b (n : Z) : Prop := at_height b n /\ Forall G (bl_Transactions b).

Lemma found_stored h n b : GetBlock h n = Some b -> stored b n.
Proof. intros E. destruct (HGB _ _ _ E) as (_ & ?). split; [done|by eapply HGtx]. Qed.

Lemma parent_stored b n p : stored b n -> parent_of b = Ret (Some p) -> 1 <= n /\ stored p (n - 1).
Proof.
  intros [Hb _] E. destruct (parent_step b n p Hb E) as [H1 Hp]. split; [done|]. split; [done|]. unfold parent_of in E. rewrite (at_height_number b n Hb) in E. cbn in E.
  apply (f_equal (fun o => match o with Ret o => o | _ => None end)) in E. by eapply HGtx.
Qed.

Lemma lower_safe fuel : forall b n limit txs, stored b n -> (Z.to_nat n < fuel)%nat -> Forall G txs ->
  exists r, lower_loop fuel b limit txs = Ret r /\ match r with Some (b', txs') => Forall G txs' /\ exists n', stored b' n' /\ n' <= n | None => True end.
Proof.
  induction fuel as [|fuel IH]; intros b n limit txs Hb Hf Ht; [lia|]. cbn [lower_loop]. pose proof Hb as [Hh HG]. rewrite (at_height_number b n Hh). cbn [mbind outcome_bind].
  destruct (limit <? n); [|eexists; split; [done|]; split; [done|]; exists n; split; [done|lia]]. destruct (parent_safe b n Hh) as [[p|] E]; rewrite E; cbn [mbind outcome_bind]; [|by eexists].
  destruct (parent_stored b n p Hb E) as [H1 Hp]. destruct (IH p (n - 1) limit (txs ++ bl_Transactions b) Hp) as (r & Er & Hr); [lia|by apply Forall_app|].
  exists r. split; [done|]. destruct r as [[b' txs']|]; [|done]. destruct Hr as (? & n' & ? & ?). split; [done|]. exists n'. split; [done|lia].
Qed.

Lemma meet_safe fuel : forall rem add n m d i, stored rem n -> stored add m -> (Z.to_nat n < fuel)%nat -> Forall G d ->
  exists r, meet_loop fuel rem add d i = Ret r /\ match r with Some (d', _) => Forall G d' | None => True end.
Proof.
  induction fuel as [|fuel IH]; intros rem add n m d i Hr Ha Hf Hd; [lia|]. cbn [meet_loop]. destruct (_ =? _); [by eexists|]. pose proof Hr as [Hh HG]. pose proof Ha as [Hh' _].
  destruct (parent_safe rem n Hh) as [[p|] E]; rewrite E; cbn [mbind outcome_bind]; [|by eexists]. destruct (parent_safe add m Hh') as [[q|] E']; rewrite E'; cbn [mbind outcome_bind]; [|by eexists].
  destruct (parent_stored rem n p Hr E) as [H1 Hp]. destruct (parent_stored add m q Ha E') as [_ Hq]. eapply (IH p q); [done|done|lia|]. by apply Forall_app.
Qed.

Lemma branch_safe rem add n m : stored rem n -> stored add m -> exists r, branch_txs rem add = Ret r /\ match r with Some txs => Forall G txs | None => True end.
Proof.
  intros Hr Ha. unfold branch_txs. rewrite (at_height_number rem n (proj1 Hr)), (at_height_number add m (proj1 Ha)). cbn [mbind outcome_bind].
  pose proof (proj2 (proj1 Hr)) as Rn. pose proof (proj2 (proj1 Ha)) as Rm.
  destruct (lower_safe (S (Z.to_nat (Z.max n m))) rem n m [] Hr) as (r & E & H1); [lia|done|]. rewrite E. cbn [mbind outcome_bind]. destruct r as [[rem' d]|]; [|by eexists]. destruct H1 as (Hd & n' & Hr' & Hle).
  rewrite (at_height_number rem' n' (proj1 Hr')). cbn [mbind outcome_bind]. pose proof (proj2 (proj1 Hr')) as Rn'.
  destruct (lower_safe (S (Z.to_nat (Z.max n m))) add m n' [] Ha) as (r & E' & H2); [lia|done|]. rewrite E'. cbn [mbind outcome_bind]. destruct r as [[add' i]|]; [|by eexists]. destruct H2 as (_ & m' & Ha' & _).
  destruct (meet_safe (S (Z.to_nat (Z.max n m))) rem' add' n' m' d i Hr' Ha') as (r & E2 & H3); [lia|done|]. rewrite E2. cbn [mbind outcome_bind]. eexists. split; [reflexivity|]. destruct r as [[d' i']|]; [|done]. cbn.
  unfold TxDifference. rewrite Forall_forall in *. intros t [_ Ht]%list_elem_of_filter. by apply H3.
Qed.

(** What a reset may be asked for. *)
Definition numbered (h : Header) : Prop := is_Some (hdr_Number h).

Lemma reinject_safe oldHead newHead : (forall h, oldHead = Some h -> numbered h) -> (forall h, newHead = Some h -> exists n b, hdr_Number h = Some n /\ GetBlock (Header_Hash h) (u64 n) = Some b) ->
  is_Some newHead \/ oldHead = None -> exists r, reinject_of oldHead newHead = Ret r /\ match r with Some txs => Forall G txs | None => True end.
Proof.
  assert (exists r : option (list Transaction), Ret (Some []) = Ret r /\ match r with Some txs => Forall G txs | None => True end) as Hnil by (exists (Some []); by split).
  intros Ho Hn Hor. unfold reinject_of. destruct oldHead as [old|]; [|done]. destruct Hor as [[new ->]|]; [|done]. cbn [deref mbind outcome_bind]. destruct (_ =? _); [done|].
  destruct (Ho old eq_refl) as [no Eo]. destruct (Hn new eq_refl) as (nn & b & En & Eb). unfold NumberU64. rewrite Eo, En. cbn [deref mbind outcome_bind].
  destruct (64 <? _); [done|]. destruct (GetBlock (Header_Hash old) (u64 no)) as [rem|] eqn:Er; [|destruct (_ <=? _); [by eexists|done]]. rewrite Eb. cbn [deref mbind outcome_bind].
  eapply branch_safe; eapply found_stored; eassumption.
Qed.
End Head.

(** ** Example *)

Section Witness.
#[local] Existing Instance sample_keccak.

Definition side_header (parent : Hash) (number used : Z) : Header := mkHeader parent 0 0 0 0 0 0 (Some 1) (Some number) 8000000 used number [] 0 0.
Definition genesis_block : PoolBlock := mkPoolBlock (side_header 0 0 0) [].
Definition old_block : PoolBlock := mkPoolBlock (side_header (bl_Hash genesis_block) 1 7) [offer 1 10; offer 2 20].
Definition new_block1 : PoolBlock := mkPoolBlock (side_header (bl_Hash genesis_block) 1 8) [offer 2 20].
Definition new_block2 : PoolBlock := mkPoolBlock (side_header (bl_Hash new_block1) 2 9) [offer 3 30].

Definition side_blocks (h : Hash) (n : Z) : option PoolBlock :=
  if (h =? bl_Hash genesis_block) && (n =? 0) then Some genesis_block
  else if (h =? bl_Hash old_block) && (n =? 1) then Some old_block
  else if (h =? bl_Hash new_block1) && (n =? 1) then Some new_block1
  else if (h =? bl_Hash new_block2) && (n =? 2) then Some new_block2
  else None.

Lemma side_stored : stored_right side_blocks.
Proof.
  intros h n b. unfold side_blocks.
  assert (forall h' n' (b' : PoolBlock) (o : option PoolBlock), h' = bl_Hash b' -> hdr_Number (bl_header b') = Some n' -> 0 <= n' < 2 ^ 64 - 1 ->
    (o = Some b -> bl_Hash b = h /\ hdr_Number (bl_header b) = Some n /\ 0 <= n < 2 ^ 64 - 1) ->
    (if (h =? h') && (n =? n') then Some b' else o) = Some b -> bl_Hash b = h /\ hdr_Number (bl_header b) = Some n /\ 0 <= n < 2 ^ 64 - 1) as Hif.
  { intros h' n' b' o Eh En Hn Ho. destruct (_ && _) eqn:E; [|exact Ho]. intros [= <-]. apply andb_true_iff in E as [E1%Z.eqb_eq E2%Z.eqb_eq]. subst h n. split; [symmetry; exact Eh|]. split; [exact En|exact Hn]. }
  repeat (apply Hif; [reflexivity|reflexivity|lia|]). intros [=].
Qed.

(** The transaction that is in both branches is not reinjected. *)
Lemma reorg_reinjects_witness : exists txs, reinject_of side_blocks (Some (bl_header old_block)) (Some (bl_header new_block2)) = Ret (Some txs) /\ offer 1 10 ∈ txs /\ offer 2 20 ∉ txs.
Proof.
  destruct (reorg_reinjects side_blocks side_stored (bl_header old_block) (bl_header new_block2) old_block new_block2 [old_block] [new_block2; new_block1] genesis_block 1 2) as (txs & E & Htxs).
  - vm_compute. reflexivity.
  - vm_compute. reflexivity.
  - reflexivity.
  - reflexivity.
  - vm_compute. discriminate.
  - lia.
  - lia.
  - lia.
  - eapply branch_down; [vm_compute; reflexivity|apply branch_here].
  - eapply branch_down; [vm_compute; reflexivity|]. eapply branch_down; [vm_compute; reflexivity|apply branch_here].
  - intros b b' Hb Hb'. apply list_elem_of_singleton in Hb as ->. apply elem_of_cons in Hb' as [->|Hb']; [|apply list_elem_of_singleton in Hb' as ->]; vm_compute; discriminate.
  - exists txs. split; [exact E|]. split.
    + apply Htxs. split; [exists old_block; split; [by apply list_elem_of_singleton|apply elem_of_cons; by left]|].
      intros b u Hb Hu. apply elem_of_cons in Hb as [->|Hb]; [|apply list_elem_of_singleton in Hb as ->]; cbn in Hu; apply list_elem_of_singleton in Hu as ->; vm_compute; discriminate.
    + intros H. apply Htxs in H as [_ H]. apply (H new_block1 (offer 2 20)); [apply elem_of_cons; right; by apply list_elem_of_singleton|by apply list_elem_of_singleton|reflexivity].
Defined.

End Witness.
