(* ===== verification/Pool.v ===== *)
(** * The transaction pool ([core/tx_pool.go])

    The pool itself, over the lists of [TxList] and the indices of [TxPool]:
    validation, admission with eviction and replacement, promotion from the
    queue to the pending lists, demotion, removal, truncation and the reset to
    a new head, with the loop that schedules these background runs and the
    transactions it announces.  What the pool reads of the chain (blocks and
    states, permissions, the private transaction manager) is an argument.  The
    journal on disk and metrics are left out; the mutex makes every operation
    one step.  The time is read once in an operation. *)
From Stdlib Require Import ZArith Lia Strings.Byte.
From stdpp Require Import base strings list option gmap sorting.
From S2P Require Import Prelude Errors Rlp Prque Common Transaction Block Signing ChainConfig ChainSigner PriceNonce TxList TxPool PoolHead.
Open Scope Z_scope.

(** ** What the pool is given *)

Record TxPoolConfig := mkPoolConfig {
  cf_NoLocals : bool;
  cf_PriceLimit : Z;
  cf_PriceBump : Z;
  cf_AccountSlots : Z;
  cf_GlobalSlots : Z;
  cf_AccountQueue : Z;
  cf_GlobalQueue : Z;
  cf_Lifetime : Z
}.

Definition DefaultTxPoolConfig : TxPoolConfig := mkPoolConfig false 1 10 16 4096 64 1024 10800000000000.

Definition sanitize (c : TxPoolConfig) : TxPoolConfig :=
  let at_least_one v d := if v <? 1 then d else v in
  mkPoolConfig (cf_NoLocals c)
    (at_least_one (cf_PriceLimit c) (cf_PriceLimit DefaultTxPoolConfig)) (at_least_one (cf_PriceBump c) (cf_PriceBump DefaultTxPoolConfig))
    (at_least_one (cf_AccountSlots c) (cf_AccountSlots DefaultTxPoolConfig)) (at_least_one (cf_GlobalSlots c) (cf_GlobalSlots DefaultTxPoolConfig))
    (at_least_one (cf_AccountQueue c) (cf_AccountQueue DefaultTxPoolConfig)) (at_least_one (cf_GlobalQueue c) (cf_GlobalQueue DefaultTxPoolConfig))
    (at_least_one (cf_Lifetime c) (cf_Lifetime DefaultTxPoolConfig)).

(** What the pool reads of a state. *)
Record StateView := mkStateView { GetNonce : Address -> Z; GetBalance : Address -> Z }.

(** The chain, the check of the permission contracts, the private transaction
    manager and the clock. *)
Record PoolChain := mkPoolChain {
  pc_config : ChainConfig;
  pc_CurrentBlock : PoolBlock;
  pc_GetBlock : Hash -> Z -> option PoolBlock;
  pc_StateAt : Hash -> option StateView;
  pc_CheckAccountPermission : Address -> option Address -> Z -> bytes -> Z -> Z -> option error;
  pc_FetchPrivateTransaction : bytes -> option Transaction;
  pc_now : Z
}.

Definition pc_IsQuorum (ch : PoolChain) : bool := cc_IsQuorum (pc_config ch).

Definition gas_enabled (ch : PoolChain) : outcome bool := IsGasPriceEnabled (pc_config ch) (hdr_Number (bl_header (pc_CurrentBlock ch))).

(** [!IsQuorum || IsGasPriceEnabled(...)] *)
Definition price_counts (ch : PoolChain) : outcome bool := if pc_IsQuorum ch then gas_enabled ch else Ret true.

Definition size_limit (ch : PoolChain) : outcome Z :=
  n ← deref (hdr_Number (bl_header (pc_CurrentBlock ch)));
  GetTransactionSizeLimit (pc_config ch) (Some n).

(** The orders in which Go ranges over maps. *)
Class Ranges := {
  range_txs : gmap Z Transaction -> list (Z * Transaction);
  range_lists : gmap Address txList -> list (Address * txList);
  range_accounts : gset Address -> list Address;
  range_events : gmap Address txSortedMap -> list (Address * txSortedMap)
}.

Class RangesLaws `{Ranges} := {
  range_txs_perm m : range_txs m ≡ₚ map_to_list m;
  range_lists_perm m : range_lists m ≡ₚ map_to_list m;
  range_accounts_perm s : range_accounts s ≡ₚ elements s;
  range_events_perm m : range_events m ≡ₚ map_to_list m
}.

(** ** The schedule of background runs *)

(** What a run is asked for: a reset from the old to the new head, accounts
    whose transactions may be executable, and transactions to announce. *)
Record ReorgRun := mkRun {
  rr_reset : option (option Header * option Header);
  rr_dirtyAccounts : option accountSet;
  rr_queuedEvents : gmap Address txSortedMap
}.

(** The variables of [scheduleReorgLoop]: the run that is active and the one
    that is being prepared. *)
Record Schedule := mkSchedule { sc_running : option ReorgRun; sc_launchNextRun : bool; sc_next : ReorgRun }.

Definition newSchedule : Schedule := mkSchedule None false (mkRun None None ∅).

Definition launch (s : Schedule) : Schedule :=
  match sc_running s, sc_launchNextRun s with
  | None, true => mkSchedule (Some (sc_next s)) false (mkRun None None ∅)
  | _, _ => s
  end.

Definition on_reset (oldHead newHead : option Header) (s : Schedule) : Schedule :=
  let next := sc_next s in
  launch (mkSchedule (sc_running s) true
    (mkRun (Some (match rr_reset next with None => oldHead | Some (old, _) => old end, newHead)) (rr_dirtyAccounts next) (rr_queuedEvents next))).

Definition on_promote (set : accountSet) (s : Schedule) : Schedule :=
  let next := sc_next s in
  launch (mkSchedule (sc_running s) true
    (mkRun (rr_reset next) (Some (match rr_dirtyAccounts next with None => set | Some d => as_merge set d end)) (rr_queuedEvents next))).

Definition put_event (addr : Address) (tx : Transaction) (events : gmap Address txSortedMap) : gmap Address txSortedMap :=
  <[addr := sm_Put tx (default newTxSortedMap (events !! addr))]> events.

Definition on_event (addr : Address) (tx : Transaction) (s : Schedule) : Schedule :=
  let next := sc_next s in
  launch (mkSchedule (sc_running s) (sc_launchNextRun s) (mkRun (rr_reset next) (rr_dirtyAccounts next) (put_event addr tx (rr_queuedEvents next)))).

Definition on_done (s : Schedule) : Schedule := launch (mkSchedule None (sc_launchNextRun s) (sc_next s)).

Record TxPool := mkTxPool {
  po_config : TxPoolConfig;
  po_gasPrice : Z;
  po_signer : TxSigner;
  po_istanbul : bool;
  po_eip2718 : bool;
  po_currentState : StateView;
  po_pendingNonces : txNoncer;
  po_currentMaxGas : Z;
  po_locals : accountSet;
  po_pending : gmap Address txList;
  po_queue : gmap Address txList;
  po_beats : gmap Address Z;
  po_all : txLookup;
  po_priced : txPricedList;
  po_sched : Schedule
}.

Definition set_gasPrice (v : Z) (p : TxPool) : TxPool := mkTxPool (po_config p) v (po_signer p) (po_istanbul p) (po_eip2718 p) (po_currentState p) (po_pendingNonces p) (po_currentMaxGas p) (po_locals p) (po_pending p) (po_queue p) (po_beats p) (po_all p) (po_priced p) (po_sched p).
Definition set_forks (istanbul eip2718 : bool) (p : TxPool) : TxPool := mkTxPool (po_config p) (po_gasPrice p) (po_signer p) istanbul eip2718 (po_currentState p) (po_pendingNonces p) (po_currentMaxGas p) (po_locals p) (po_pending p) (po_queue p) (po_beats p) (po_all p) (po_priced p) (po_sched p).
Definition set_head (s : StateView) (n : txNoncer) (gas : Z) (p : TxPool) : TxPool := mkTxPool (po_config p) (po_gasPrice p) (po_signer p) (po_istanbul p) (po_eip2718 p) s n gas (po_locals p) (po_pending p) (po_queue p) (po_beats p) (po_all p) (po_priced p) (po_sched p).
Definition upd_nonces (f : txNoncer -> txNoncer) (p : TxPool) : TxPool := set_head (po_currentState p) (f (po_pendingNonces p)) (po_currentMaxGas p) p.
Definition upd_locals (f : accountSet -> accountSet) (p : TxPool) : TxPool := mkTxPool (po_config p) (po_gasPrice p) (po_signer p) (po_istanbul p) (po_eip2718 p) (po_currentState p) (po_pendingNonces p) (po_currentMaxGas p) (f (po_locals p)) (po_pending p) (po_queue p) (po_beats p) (po_all p) (po_priced p) (po_sched p).
Definition upd_pending (f : gmap Address txList -> gmap Address txList) (p : TxPool) : TxPool := mkTxPool (po_config p) (po_gasPrice p) (po_signer p) (po_istanbul p) (po_eip2718 p) (po_currentState p) (po_pendingNonces p) (po_currentMaxGas p) (po_locals p) (f (po_pending p)) (po_queue p) (po_beats p) (po_all p) (po_priced p) (po_sched p).
Definition upd_queue (f : gmap Address txList -> gmap Address txList) (p : TxPool) : TxPool := mkTxPool (po_config p) (po_gasPrice p) (po_signer p) (po_istanbul p) (po_eip2718 p) (po_currentState p) (po_pendingNonces p) (po_currentMaxGas p) (po_locals p) (po_pending p) (f (po_queue p)) (po_beats p) (po_all p) (po_priced p) (po_sched p).
Definition upd_beats (f : gmap Address Z -> gmap Address Z) (p : TxPool) : TxPool := mkTxPool (po_config p) (po_gasPrice p) (po_signer p) (po_istanbul p) (po_eip2718 p) (po_currentState p) (po_pendingNonces p) (po_currentMaxGas p) (po_locals p) (po_pending p) (po_queue p) (f (po_beats p)) (po_all p) (po_priced p) (po_sched p).
Definition set_index (all : txLookup) (priced : txPricedList) (p : TxPool) : TxPool := mkTxPool (po_config p) (po_gasPrice p) (po_signer p) (po_istanbul p) (po_eip2718 p) (po_currentState p) (po_pendingNonces p) (po_currentMaxGas p) (po_locals p) (po_pending p) (po_queue p) (po_beats p) all priced (po_sched p).
Definition upd_sched (f : Schedule -> Schedule) (p : TxPool) : TxPool := mkTxPool (po_config p) (po_gasPrice p) (po_signer p) (po_istanbul p) (po_eip2718 p) (po_currentState p) (po_pendingNonces p) (po_currentMaxGas p) (po_locals p) (po_pending p) (po_queue p) (po_beats p) (po_all p) (po_priced p) (f (po_sched p)).

(** A call whose error is a value for the caller. *)
Definition try {S A} (m : M S A) : M S (A + error) := fun s =>
  match m s with
  | (Ret a, s') => (Ret (inl a), s')
  | (Err e, s') => (Ret (inr e), s')
  | (Panic, s') => (Panic, s')
  end.

Definition pure {S A} (o : outcome A) : M S A := fun s => (o, s).

(** Loops over slices. *)
Fixpoint for_each {S A} (f : A -> M S unit) (l : list A) : M S unit :=
  match l with
  | [] => mret tt
  | x :: l' => f x;; for_each f l'
  end.

(** ** Intrinsic gas ([core/state_transition.go]) *)

Definition TxGas : Z := 21000.
Definition TxGasContractCreation : Z := 53000.
Definition TxDataZeroGas : Z := 4.
Definition TxDataNonZeroGasFrontier : Z := 68.
Definition TxDataNonZeroGasEIP2028 : Z := 16.
Definition TxAccessListAddressGas : Z := 2400.
Definition TxAccessListStorageKeyGas : Z := 1900.
Definition MaxUint64 : Z := 2 ^ 64 - 1.

Definition IntrinsicGas (data : bytes) (accessList : AccessList) (isContractCreation isHomestead isEIP2028 : bool) : outcome Z :=
  let gas := if isContractCreation && isHomestead then TxGasContractCreation else TxGas in
  gas ← (if (0 <? length data)%nat then
           let nz := Z.of_nat (length (filter (fun b => b <> x00) data)) in
           let nonZeroGas := if isEIP2028 then TxDataNonZeroGasEIP2028 else TxDataNonZeroGasFrontier in
           if (MaxUint64 - gas) / nonZeroGas <? nz then Err ErrGasUintOverflow
           else
             let gas := u64 (gas + u64 (nz * nonZeroGas)) in
             let z := zlen data - nz in
             if (MaxUint64 - gas) / TxDataZeroGas <? z then Err ErrGasUintOverflow
             else Ret (u64 (gas + u64 (z * TxDataZeroGas)))
         else Ret gas);
  let gas := u64 (gas + u64 (Z.of_nat (length accessList) * TxAccessListAddressGas)) in
  Ret (u64 (gas + u64 (Z.of_nat (StorageKeys accessList) * TxAccessListStorageKeyGas))).

Section Pool.
Context `{HK : Keccak} `{HS : Secp256k1} `{HR : Ranges}.
Implicit Types (ch : PoolChain) (tx : Transaction) (addr : Address) (hash : Hash).

(** ** Validation *)

Definition QuorumPrivacyPrecompileContractAddress : Address := BytesToAddress [x7a].

Definition IsPrivacyMarker (tx : Transaction) : bool :=
  match tx_to (t_inner tx) with Some to => to =? QuorumPrivacyPrecompileContractAddress | None => false end.

(** The sender by the latest signer of the transaction's own chain, or the
    zero address. *)
Definition From (tx : Transaction) : outcome Address :=
  c ← chainID (t_inner tx);
  account (NewEIP2930Signer c) tx.

Definition tx_bytes (tx : Transaction) : Z := match (Transaction_Size tx).1 with Ret n => n | _ => 0 end.

Definition Value (tx : Transaction) : Z := default 0 (tx_value (t_inner tx)).

(** The checks before those of Quorum. *)
Definition validate_basic ch (p : TxPool) tx : outcome Address :=
  _ ← fail_if (negb (po_eip2718 p) && negb (txType (t_inner tx) =? LegacyTxType)) ErrTxTypeNotSupported;
  sizeLimit ← size_limit ch;
  _ ← fail_if (u64 (sizeLimit * 1024) <? tx_bytes tx) ErrOversizedData;
  _ ← fail_if (Value tx <? 0) ErrNegativeValue;
  _ ← fail_if (po_currentMaxGas p <? Gas tx) ErrGasLimit;
  on_err (Sender (po_signer p) tx).1 ErrInvalidSender.

(** The checks after them. *)
Definition validate_state ch (p : TxPool) tx (from : Address) (local : bool) : outcome unit :=
  priced ← price_counts ch;
  _ ← fail_if (priced && negb (local || as_contains from (po_locals p)) && (GasPrice tx <? po_gasPrice p)) ErrUnderpriced;
  _ ← fail_if (Nonce tx <? GetNonce (po_currentState p) from) ErrNonceTooLow;
  _ ← fail_if (GetBalance (po_currentState p) from <? Cost tx) ErrInsufficientFunds;
  intrGas ← IntrinsicGas (tx_data (t_inner tx)) (tx_accessList (t_inner tx)) (match tx_to (t_inner tx) with None => true | Some _ => false end) true (po_istanbul p);
  fail_if (Gas tx <? intrGas) ErrIntrinsicGas.

(** Privacy markers nest as deep as the fuel; deeper ones exhaust the stack. *)
Fixpoint validateTx (fuel : nat) ch (p : TxPool) tx (local : bool) : outcome unit :=
  match fuel with
  | O => Panic
  | S fuel' =>
      from ← validate_basic ch p tx;
      _ ← (if pc_IsQuorum ch then
             _ ← (if IsPrivacyMarker tx then
                    match pc_FetchPrivateTransaction ch (tx_data (t_inner tx)) with
                    | Some innerTx => validateTx fuel' ch p innerTx local
                    | None => Ret tt
                    end
                  else Ret tt);
             enabled ← gas_enabled ch;
             _ ← fail_if (negb enabled && negb (GasPrice tx =? 0)) ErrInvalidGasPrice;
             _ ← fail_if (IsPrivate (t_inner tx) && ((length (tx_data (t_inner tx)) =? 0)%nat || negb (Value tx =? 0))) ErrEtherValueUnsupported;
             sender ← From tx;
             match pc_CheckAccountPermission ch sender (tx_to (t_inner tx)) (Value tx) (tx_data (t_inner tx)) (Gas tx) (GasPrice tx) with
             | Some e => Err e
             | None => Ret tt
             end
           else Ret tt);
      validate_state ch p tx from local
  end.

(** A privacy marker and the private transaction it stands for. *)
Definition marker_depth : nat := 2.

(** ** The indices *)

Definition lookup_Remove hash : M TxPool unit := modify (fun p => set_index (lk_Remove hash (po_all p)) (po_priced p) p).

Definition priced_Removed (count : Z) : M TxPool unit := modify (fun p => set_index (po_all p) (pl_Removed range_txs (po_all p) count (po_priced p)) p).

Definition index_Add tx (local : bool) : M TxPool unit := modify (fun p => set_index (lk_Add tx local (po_all p)) (pl_Put tx local (po_priced p)) p).

(** A replaced transaction is forgotten. *)
Definition forget_old (old : option Transaction) : M TxPool unit :=
  match old with
  | Some o => lookup_Remove (tx_id o);; priced_Removed 1
  | None => mret tt
  end.

Definition forget_all (txs : list (option Transaction)) : M TxPool unit :=
  for_each (fun o => tx ← pure (deref o); lookup_Remove (tx_id tx)) txs.

(** ** Admission *)

Definition enqueueTx ch hash tx (local addAll : bool) : M TxPool bool :=
  p ← get;
  from ← pure (account (po_signer p) tx);
  let list := default (newTxList false) (po_queue p !! from) in
  let '((inserted, old), list') := tl_Add tx (cf_PriceBump (po_config p)) list in
  modify (upd_queue <[from := list']>);;
  if negb inserted then throw ErrReplaceUnderpriced
  else
    forget_old old;;
    when addAll (index_Add tx local);;
    modify (upd_beats (fun beats => match beats !! from with None => <[from := pc_now ch]> beats | Some _ => beats end));;
    mret (match old with Some _ => true | None => false end).

Definition promoteTx ch addr hash tx : M TxPool bool :=
  p ← get;
  let list := default (newTxList true) (po_pending p !! addr) in
  let '((inserted, old), list') := tl_Add tx (cf_PriceBump (po_config p)) list in
  modify (upd_pending <[addr := list']>);;
  if negb inserted then
    lookup_Remove hash;; priced_Removed 1;; mret false
  else
    forget_old old;;
    modify (upd_nonces (nc_set addr (u64 (Nonce tx + 1))));;
    modify (upd_beats <[addr := pc_now ch]>);;
    mret true.

(** The rest of [removeTx] for a transaction of the queue. *)
Definition remove_queued addr tx : M TxPool unit :=
  p ← get;
  match po_queue p !! addr with
  | None => mret tt
  | Some future =>
      '((_, _), future') ← pure (tl_Remove range_txs tx future);
      if tl_Empty future' then modify (upd_queue (delete addr));; modify (upd_beats (delete addr))
      else modify (upd_queue <[addr := future']>)
  end.

Definition removeTx ch hash (outofbound : bool) : M TxPool unit :=
  p ← get;
  match lk_Get hash (po_all p) with
  | None => mret tt
  | Some tx =>
      addr ← pure (account (po_signer p) tx);
      lookup_Remove hash;;
      when outofbound (priced_Removed 1);;
      match po_pending p !! addr with
      | None => remove_queued addr tx
      | Some pending =>
          '((removed, invalids), pending') ← pure (tl_Remove range_txs tx pending);
          (if (removed : bool) then
            modify (upd_pending (if tl_Empty pending' then delete addr else <[addr := pending']>));;
            for_each (fun t => _ ← try (enqueueTx ch (tx_id t) t false false); mret tt) invalids;;
            modify (fun p => upd_nonces (nc_setIfLower (GetNonce (po_currentState p)) addr (Nonce tx)) p)
          else
            modify (upd_pending <[addr := pending']>);;
            remove_queued addr tx)
      end
  end.

Definition remove_all ch (outofbound : bool) (txs : list Transaction) : M TxPool unit :=
  for_each (fun t => removeTx ch (tx_id t) outofbound) txs.

(** [uint64(GlobalSlots + GlobalQueue)] *)
Definition capacity (p : TxPool) : Z := u64 (cf_GlobalSlots (po_config p) + cf_GlobalQueue (po_config p)).

(** If the pool is full, the cheapest remote transactions make room. *)
Definition make_room ch tx (isLocal : bool) : M TxPool unit :=
  p ← get;
  if capacity p <? u64 (Z.of_nat (lk_Count (po_all p)) + numSlots tx) then
    counts ← pure (price_counts ch);
    refused ← (if (counts : bool) && negb isLocal then
                 '(under, priced) ← pure (pl_Underpriced (po_all p) tx (po_priced p));
                 modify (set_index (po_all p) priced);;
                 mret under
               else mret false);
    if (refused : bool) then throw ErrUnderpriced
    else
      p ← get;
      '((drops, success), priced) ← pure (pl_Discard (po_all p) (lk_slots (po_all p) - i64 (capacity p) + numSlots tx) isLocal (po_priced p));
      modify (set_index (po_all p) priced);;
      if negb isLocal && negb success then throw ErrTxPoolOverflow
      else remove_all ch false drops
  else mret tt.

(** The event goes to the schedule, which files it under the sender. *)
Definition queueTxEvent tx : M TxPool unit :=
  p ← get;
  addr ← pure (account (po_signer p) tx);
  modify (upd_sched (on_event addr tx)).

(** The sender is marked as local, and its remote transactions with it. *)
Definition mark_local addr : M TxPool unit :=
  modify (upd_locals (as_add addr));;
  p ← get;
  '(migrated, all) ← pure (lk_RemoteToLocals range_txs (po_locals p) (po_all p));
  modify (set_index all (po_priced p));;
  priced_Removed (Z.of_nat migrated).

Definition add_queued ch tx addr (local isLocal : bool) : M TxPool bool :=
  replaced ← enqueueTx ch (tx_id tx) tx isLocal true;
  p ← get;
  when (local && negb (as_contains addr (po_locals p))) (mark_local addr);;
  mret replaced.

Definition add ch tx (local : bool) : M TxPool bool :=
  let hash := tx_id tx in
  p ← get;
  match lk_Get hash (po_all p) with
  | Some _ => throw ErrAlreadyKnown
  | None =>
      known ← (if local then mret true else pure (as_containsTx tx (po_locals p)));
      let isLocal := (known : bool) in
      pure (validateTx marker_depth ch p tx isLocal);;
      make_room ch tx isLocal;;
      p ← get;
      from ← pure (account (po_signer p) tx);
      match po_pending p !! from with
      | Some list =>
          if tl_Overlaps tx list then
            let '((inserted, old), list') := tl_Add tx (cf_PriceBump (po_config p)) list in
            modify (upd_pending <[from := list']>);;
            if negb inserted then throw ErrReplaceUnderpriced
            else
              forget_old old;;
              index_Add tx isLocal;;
              queueTxEvent tx;;
              modify (upd_beats <[from := pc_now ch]>);;
              mret (match old with Some _ => true | None => false end)
          else add_queued ch tx from local isLocal
      | None => add_queued ch tx from local isLocal
      end
  end.

(** The errors of the batch, and the accounts to be promoted. *)
Fixpoint add_loop ch (txs : list Transaction) (local : bool) (errs : list (option error)) (dirty : accountSet) : M TxPool (list (option error) * accountSet) :=
  match txs with
  | [] => mret (errs, dirty)
  | tx :: txs' =>
      r ← try (add ch tx local);
      match (r : bool + error) with
      | inl false => dirty' ← pure (as_addTx tx dirty); add_loop ch txs' local (errs ++ [None]) dirty'
      | inl true => add_loop ch txs' local (errs ++ [None]) dirty
      | inr e => add_loop ch txs' local (errs ++ [Some e]) dirty
      end
  end.

Definition addTxsLocked ch (txs : list Transaction) (local : bool) : M TxPool (list (option error) * accountSet) :=
  p ← get;
  add_loop ch txs local [] (newAccountSet (po_signer p) []).

(** What is known or has no valid signature is sorted out first. *)
Fixpoint filter_known (p : TxPool) (txs : list Transaction) : outcome (list (option error) * list Transaction) :=
  match txs with
  | [] => Ret ([], [])
  | tx :: txs' =>
      match lk_Get (tx_id tx) (po_all p) with
      | Some _ => '(errs, news) ← filter_known p txs'; Ret (Some ErrAlreadyKnown :: errs, news)
      | None =>
          match (Sender (po_signer p) tx).1 with
          | Ret _ => '(errs, news) ← filter_known p txs'; Ret (None :: errs, tx :: news)
          | Err _ => '(errs, news) ← filter_known p txs'; Ret (Some ErrInvalidSender :: errs, news)
          | Panic => Panic
          end
      end
  end.

(** The errors of the new ones go into the empty slots. *)
Fixpoint merge_errs (errs newErrs : list (option error)) : list (option error) :=
  match errs, newErrs with
  | None :: errs', e :: newErrs' => e :: merge_errs errs' newErrs'
  | Some e :: errs', _ => Some e :: merge_errs errs' newErrs
  | _, _ => errs
  end.

(** The errors, and the set of accounts whose promotion is requested. *)
Definition addTxs ch (txs : list Transaction) (local : bool) : M TxPool (list (option error)) :=
  p ← get;
  '(errs, news) ← pure (filter_known p txs);
  match news with
  | [] => mret errs
  | _ =>
      '(newErrs, dirty) ← addTxsLocked ch news local;
      modify (upd_sched (on_promote dirty));;
      mret (merge_errs errs newErrs)
  end.

Definition AddLocals ch (txs : list Transaction) : M TxPool (list (option error)) :=
  p ← get; addTxs ch txs (negb (cf_NoLocals (po_config p))).

Definition AddRemotes ch (txs : list Transaction) : M TxPool (list (option error)) := addTxs ch txs false.

(** ** Promotion and demotion *)

(** Promoting the ready ones; those that were promoted are returned. *)
Fixpoint promote_loop ch addr (readies : list (option Transaction)) (promoted : list Transaction) : M TxPool (list Transaction) :=
  match readies with
  | [] => mret promoted
  | o :: readies' =>
      tx ← pure (deref o);
      ok ← promoteTx ch addr (tx_id tx) tx;
      promote_loop ch addr readies' (if (ok : bool) then promoted ++ [tx] else promoted)
  end.

(** The list is the one of the queue: every change of it is one of the pool. *)
Definition promote_account ch addr (promoted : list Transaction) : M TxPool (list Transaction) :=
  p ← get;
  match po_queue p !! addr with
  | None => mret promoted
  | Some list =>
      '(forwards, list) ← pure (tl_Forward (GetNonce (po_currentState p) addr) list);
      modify (upd_queue <[addr := list]>);;
      forget_all forwards;;
      counts ← pure (price_counts ch);
      let '((drops, _), list) :=
        if (counts : bool) then tl_Filter range_txs (GetBalance (po_currentState p) addr) (po_currentMaxGas p) list
        else (([], []), list) in
      modify (upd_queue <[addr := list]>);;
      forget_all (Some <$> drops);;
      let '(start, nonces) := nc_get (GetNonce (po_currentState p)) addr (po_pendingNonces p) in
      modify (upd_nonces (fun _ => nonces));;
      '(readies, list) ← pure (tl_Ready start list);
      modify (upd_queue <[addr := list]>);;
      promoted ← promote_loop ch addr readies promoted;
      '(caps, list) ← pure (if as_contains addr (po_locals p) then Ret ([], list) else tl_Cap (i64 (cf_AccountQueue (po_config p))) list);
      modify (upd_queue <[addr := list]>);;
      forget_all caps;;
      priced_Removed (zlen forwards + zlen drops + zlen caps);;
      when (tl_Empty list) (modify (upd_queue (delete addr));; modify (upd_beats (delete addr)));;
      mret promoted
  end.

Fixpoint promoteExecutables ch (accounts : list Address) (promoted : list Transaction) : M TxPool (list Transaction) :=
  match accounts with
  | [] => mret promoted
  | addr :: accounts' => promoted ← promote_account ch addr promoted; promoteExecutables ch accounts' promoted
  end.

Definition requeue_all ch (txs : list (option Transaction)) : M TxPool unit :=
  for_each (fun o => t ← pure (deref o); _ ← try (enqueueTx ch (tx_id t) t false false); mret tt) txs.

Definition demote_account ch addr : M TxPool unit :=
  p ← get;
  match po_pending p !! addr with
  | None => mret tt
  | Some list =>
      let nonce := GetNonce (po_currentState p) addr in
      '(olds, list) ← pure (tl_Forward nonce list);
      modify (upd_pending <[addr := list]>);;
      forget_all olds;;
      let '((drops, invalids), list) := tl_Filter range_txs (GetBalance (po_currentState p) addr) (po_currentMaxGas p) list in
      modify (upd_pending <[addr := list]>);;
      forget_all (Some <$> drops);;
      priced_Removed (zlen olds + zlen drops);;
      requeue_all ch (Some <$> invalids);;
      '(gapped, list) ← pure (if (0 <? tl_Len list)%nat && (match sm_Get nonce (tl_txs list) with None => true | Some _ => false end) then tl_Cap 0 list else Ret ([], list));
      modify (upd_pending <[addr := list]>);;
      requeue_all ch gapped;;
      when (tl_Empty list) (modify (upd_pending (delete addr)))
  end.

Definition demoteUnexecutables ch : M TxPool unit :=
  p ← get;
  for_each (demote_account ch) (range_lists (po_pending p)).*1.

(** ** Truncation *)

Definition count_lists (m : gmap Address txList) : Z := foldr (fun al n => Z.of_nat (tl_Len al.2) + n) 0 (range_lists m).

(** One transaction less for an offender. *)
Definition cap_one addr : M TxPool unit :=
  p ← get;
  list ← pure (deref (po_pending p !! addr));
  '(caps, list) ← pure (tl_Cap (Z.of_nat (tl_Len list) - 1) list);
  modify (upd_pending <[addr := list]>);;
  for_each (fun o =>
    tx ← pure (deref o);
    lookup_Remove (tx_id tx);;
    modify (fun p => upd_nonces (nc_setIfLower (GetNonce (po_currentState p)) addr (Nonce tx)) p)) caps;;
  priced_Removed (zlen caps).

(** [pool.pending[addr].Len()] *)
Definition pending_len (p : TxPool) addr : outcome Z := list ← deref (po_pending p !! addr); Ret (Z.of_nat (tl_Len list)).

Definition rounds (p : TxPool) addr : nat := match po_pending p !! addr with Some list => tl_Len list | None => 0 end.

(** Both reduction loops: while there are too many and the list of [last] is
    longer than [limit], every offender loses one.  The list of [last] loses one
    in every round: its length is fuel enough. *)
Fixpoint reduce_loop (fuel : nat) (offenders : list Address) (last : Address) (limit pending : Z) : M TxPool Z :=
  p ← get;
  if cf_GlobalSlots (po_config p) <? pending then
    n ← pure (pending_len p last);
    if limit <? n then
      match fuel with
      | O => panic
      | S fuel' => for_each cap_one offenders;; reduce_loop fuel' offenders last limit (pending - zlen offenders)
      end
    else mret pending
  else mret pending.

(** The offenders, the largest first: when another one comes in, the others are
    brought down to it. *)
Fixpoint offenders_loop (fuel : nat) (spammers : Prque Address) (offenders : list Address) (pending : Z) : M TxPool (list Address * Z) :=
  p ← get;
  if (cf_GlobalSlots (po_config p) <? pending) && negb (Prque_Empty spammers) then
    match fuel with
    | O => panic
    | S fuel' =>
        '((offender, _), spammers') ← pure (Prque_Pop spammers);
        pending' ← (match last offenders with
                    | None => mret pending
                    | Some prev =>
                        threshold ← pure (pending_len p offender);
                        reduce_loop (rounds p prev) offenders prev threshold pending
                    end);
        offenders_loop fuel' spammers' (offenders ++ [offender]) pending'
    end
  else mret (offenders, pending).

Definition spam_order (p : TxPool) : Prque Address :=
  foldl (fun q al => if negb (as_contains al.1 (po_locals p)) && (cf_AccountSlots (po_config p) <? Z.of_nat (tl_Len al.2)) then Prque_Push al.1 (Z.of_nat (tl_Len al.2)) q else q)
    Prque_New (range_lists (po_pending p)).

Definition truncatePending : M TxPool unit :=
  p ← get;
  let pending := count_lists (po_pending p) in
  if pending <=? cf_GlobalSlots (po_config p) then mret tt
  else
    let spammers := spam_order p in
    '(offenders, pending) ← offenders_loop (Prque_Size spammers) spammers [] pending;
    match last offenders with
    | None => mret tt
    | Some final =>
        if cf_GlobalSlots (po_config p) <? pending then
          p ← get;
          _ ← reduce_loop (rounds p final) offenders final (cf_AccountSlots (po_config p)) pending;
          mret tt
        else mret tt
    end.

(** Accounts with their heartbeats, the latest heartbeat last. *)
Definition by_heartbeat (a b : Address * Z) : Prop := a.2 <= b.2.
#[global] Instance by_heartbeat_dec : RelDecision by_heartbeat.
Proof. intros a b. unfold by_heartbeat. apply _. Defined.

(** From the last address down; [addresses] is reversed. *)
Fixpoint truncate_loop ch (addresses : list (Address * Z)) (drop : Z) : M TxPool unit :=
  match addresses with
  | [] => mret tt
  | (addr, _) :: addresses' =>
      if 0 <? drop then
        p ← get;
        list ← pure (deref (po_queue p !! addr));
        let '(txs, list) := tl_Flatten range_txs list in
        modify (upd_queue <[addr := list]>);;
        let size := Z.of_nat (tl_Len list) in
        if size <=? drop then remove_all ch true txs;; truncate_loop ch addresses' (drop - size)
        else remove_all ch true (take (Z.to_nat drop) (reverse txs));; truncate_loop ch addresses' 0
      else mret tt
  end.

Definition truncateQueue ch : M TxPool unit :=
  p ← get;
  let queued := count_lists (po_queue p) in
  if queued <=? cf_GlobalQueue (po_config p) then mret tt
  else
    let addresses := (fun al => (al.1, default 0 (po_beats p !! al.1))) <$> filter (fun al => as_contains al.1 (po_locals p) = false) (range_lists (po_queue p)) in
    truncate_loop ch (reverse (merge_sort by_heartbeat addresses)) (queued - cf_GlobalQueue (po_config p)).

(** ** Evictions and prices *)

(** The eviction tick of [loop]. *)
Definition evict_account ch addr : M TxPool unit :=
  p ← get;
  match po_queue p !! addr with
  | None => mret tt
  | Some list =>
      if as_contains addr (po_locals p) then mret tt
      else if cf_Lifetime (po_config p) <? pc_now ch - default 0 (po_beats p !! addr) then
        let '(txs, list) := tl_Flatten range_txs list in
        modify (upd_queue <[addr := list]>);;
        remove_all ch true txs
      else mret tt
  end.

Definition evict ch : M TxPool unit :=
  p ← get;
  for_each (evict_account ch) (range_lists (po_queue p)).*1.

Definition SetGasPrice ch (price : Z) : M TxPool unit :=
  counts ← pure (price_counts ch);
  if negb (counts : bool) then mret tt
  else
    modify (set_gasPrice price);;
    p ← get;
    '(drops, priced) ← pure (pl_Cap (po_all p) price (po_priced p));
    modify (set_index (po_all p) priced);;
    remove_all ch false drops.

(** ** Background runs *)

Definition pool_reset ch (oldHead newHead : option Header) : M TxPool unit :=
  reinject ← pure (reinject_of (pc_GetBlock ch) oldHead newHead);
  match reinject with
  | None => mret tt
  | Some reinject =>
      let newHead := default (bl_header (pc_CurrentBlock ch)) newHead in
      match pc_StateAt ch (hdr_Root newHead) with
      | None => mret tt
      | Some statedb =>
          modify (set_head statedb newTxNoncer (hdr_GasLimit newHead));;
          _ ← addTxsLocked ch reinject false;
          n ← pure (deref (hdr_Number newHead));
          let next := Some (n + 1) in
          modify (set_forks (IsIstanbul (pc_config ch) next) (IsBerlin (pc_config ch) next))
      end
  end.

(** Events below the nonces of the new head are stale. *)
Fixpoint stale_events (addrs : list Address) (events : gmap Address txSortedMap) : M TxPool (gmap Address txSortedMap) :=
  match addrs with
  | [] => mret events
  | addr :: addrs' =>
      p ← get;
      let '(nonce, nonces) := nc_get (GetNonce (po_currentState p)) addr (po_pendingNonces p) in
      modify (upd_nonces (fun _ => nonces));;
      m ← pure (deref (events !! addr));
      '(_, m) ← pure (sm_Forward nonce m);
      stale_events addrs' (if (sm_Len m =? 0)%nat then delete addr events else <[addr := m]> events)
  end.

(** The last nonce of every pending list. *)
Definition update_nonce addr : M TxPool unit :=
  p ← get;
  list ← pure (deref (po_pending p !! addr));
  '(highest, list) ← pure (tl_LastElement range_txs list);
  modify (upd_pending <[addr := list]>);;
  modify (upd_nonces (nc_set addr (u64 (Nonce highest + 1)))).

Fixpoint promoted_events (signer : TxSigner) (promoted : list Transaction) (events : gmap Address txSortedMap) : outcome (gmap Address txSortedMap) :=
  match promoted with
  | [] => Ret events
  | tx :: promoted' => addr ← account signer tx; promoted_events signer promoted' (put_event addr tx events)
  end.

(** What goes to the feed. *)
Definition announced (events : gmap Address txSortedMap) : list Transaction := range_events events ≫= (fun am => (sm_Flatten range_txs am.2).1).

Definition runReorg ch (run : ReorgRun) : M TxPool (list Transaction) :=
  let addrs := match rr_dirtyAccounts run, rr_reset run with Some d, None => (as_flatten range_accounts d).1 | _, _ => [] end in
  '(addrs, events) ← (match rr_reset run with
                      | None => mret (addrs, rr_queuedEvents run)
                      | Some (oldHead, newHead) =>
                          pool_reset ch oldHead newHead;;
                          events ← stale_events (range_events (rr_queuedEvents run)).*1 (rr_queuedEvents run);
                          p ← get;
                          mret ((range_lists (po_queue p)).*1, events)
                      end);
  promoted ← promoteExecutables ch addrs [];
  match rr_reset run with Some _ => demoteUnexecutables ch | None => mret tt end;;
  truncatePending;;
  truncateQueue ch;;
  p ← get;
  for_each update_nonce (range_lists (po_pending p)).*1;;
  p ← get;
  events ← pure (promoted_events (po_signer p) promoted events);
  mret (announced events).

(** The active run, to its end. *)
Definition run_scheduled ch : M TxPool (list Transaction) :=
  p ← get;
  match sc_running (po_sched p) with
  | None => mret []
  | Some run => txs ← runReorg ch run; modify (upd_sched on_done);; mret txs
  end.

Definition requestReset (oldHead newHead : option Header) : M TxPool unit := modify (upd_sched (on_reset oldHead newHead)).

(** ** Reading *)

Definition pool_stats (p : TxPool) : Z * Z := (count_lists (po_pending p), count_lists (po_queue p)).

Definition pool_Nonce addr : M TxPool Z :=
  p ← get;
  let '(n, nonces) := nc_get (GetNonce (po_currentState p)) addr (po_pendingNonces p) in
  modify (upd_nonces (fun _ => nonces));; mret n.

Variant TxStatus := TxStatusUnknown | TxStatusQueued | TxStatusPending.

Definition status_of (p : TxPool) hash : outcome TxStatus :=
  match lk_Get hash (po_all p) with
  | None => Ret TxStatusUnknown
  | Some tx =>
      from ← account (po_signer p) tx;
      let has (m : gmap Address txList) := match m !! from with Some list => match sm_Get (Nonce tx) (tl_txs list) with Some _ => true | None => false end | None => false end in
      Ret (if has (po_pending p) then TxStatusPending else if has (po_queue p) then TxStatusQueued else TxStatusUnknown)
  end.

(** A pool without transactions that starts from a state. *)
Definition blank_pool (config : TxPoolConfig) (signer : TxSigner) (locals : list Address) (statedb : StateView) : TxPool :=
  mkTxPool config (cf_PriceLimit config) signer false false statedb newTxNoncer 0 (newAccountSet signer locals) ∅ ∅ ∅ newTxLookup newTxPricedList newSchedule.

(** The first reset gives the pool its state.  The error is logged by [reset];
    a pool that goes on without a state is not modelled. *)
Definition NewTxPool (config : TxPoolConfig) (locals : list Address) ch : outcome TxPool :=
  let head := bl_header (pc_CurrentBlock ch) in
  match pc_StateAt ch (hdr_Root head) with
  | None => Err (ErrFmt "Failed to reset txpool state")
  | Some statedb =>
      let '(r, p) := pool_reset ch None (Some head) (blank_pool (sanitize config) (LatestSigner (pc_config ch)) locals statedb) in
      _ ← r; Ret p
  end.

End Pool.
