(* ===== verification/PoolGas.v ===== *)
(** * Intrinsic gas

    [IntrinsicGas] (core/state_transition.go) computes in 64 bits, with a check
    before each of the two products of the transaction's data. *)
From Stdlib Require Import ZArith Lia.
From Stdlib Require Import Strings.Byte.
From stdpp Require Import base option gmap functions list.
From S2P Require Import Prelude Errors Rlp Prque Common Transaction Block Signing PriceNonce TxList TxPool PoolHead Pool.
Open Scope Z_scope.

(** The gas before any data, and what the data and the access list add. *)
Definition base_gas (isContractCreation isHomestead : bool) : Z := if isContractCreation && isHomestead then TxGasContractCreation else TxGas.

Definition data_gas (isEIP2028 : bool) (data : bytes) : Z :=
  foldr (fun b n => (if bool_decide (b = x00) then TxDataZeroGas else if isEIP2028 then TxDataNonZeroGasEIP2028 else TxDataNonZeroGasFrontier) + n) 0 data.

Definition list_gas (accessList : AccessList) : Z :=
  Z.of_nat (length accessList) * TxAccessListAddressGas + Z.of_nat (StorageKeys accessList) * TxAccessListStorageKeyGas.

Lemma data_gas_counts isEIP2028 data : let nz := Z.of_nat (length (filter (fun b => b <> x00) data)) in
  data_gas isEIP2028 data = nz * (if isEIP2028 then TxDataNonZeroGasEIP2028 else TxDataNonZeroGasFrontier) + (zlen data - nz) * TxDataZeroGas /\ 0 <= nz <= zlen data.
Proof.
  induction data as [|b data [IH Hn]]; [by destruct isEIP2028|]. cbv zeta. cbn [data_gas foldr]. fold (data_gas isEIP2028 data). rewrite IH, zlen_cons, filter_cons.
  destruct (decide (b = x00)) as [->|Hb].
  - rewrite decide_False by (intros Hn0; by apply Hn0). rewrite bool_decide_true by done. split; lia.
  - rewrite decide_True by done. rewrite bool_decide_false by done. cbn [length]. rewrite Nat2Z.inj_succ. split; [destruct isEIP2028|]; lia.
Qed.

Lemma quotient_room gas per n : 0 < per -> ((MaxUint64 - gas) / per <? n) = true <-> MaxUint64 < gas + n * per.
Proof.
  intros Hp. rewrite Z.ltb_lt. split.
  - intros Hlt. apply Z.lt_nge. intros Hle. assert (n <= (MaxUint64 - gas) / per) by (apply Z.div_le_lower_bound; lia). lia.
  - intros Hlt. apply Z.div_lt_upper_bound; lia.
Qed.

Lemma u64_sum gas n : 0 <= gas -> 0 <= n -> gas + n <= MaxUint64 -> u64 (gas + u64 n) = gas + n.
Proof. unfold u64, MaxUint64. intros H1 H2 H3. rewrite (Z.mod_small n) by lia. apply Z.mod_small. lia. Qed.

(** C40: the gas of a transaction's data is exact, byte by byte, and rejected
    precisely when it does not fit in 64 bits; with an access list the sum is
    exact as long as it fits. *)
Theorem intrinsic_gas_exact data accessList isContractCreation isHomestead isEIP2028 :
  let exact := base_gas isContractCreation isHomestead + data_gas isEIP2028 data in
  match IntrinsicGas data accessList isContractCreation isHomestead isEIP2028 with
  | Ret gas => exact <= MaxUint64 /\ (exact + list_gas accessList <= MaxUint64 -> gas = exact + list_gas accessList)
  | Err e => e = ErrGasUintOverflow /\ MaxUint64 < exact
  | Panic => False
  end.
Proof.
  cbv zeta. destruct (data_gas_counts isEIP2028 data) as [-> Hnz]. unfold IntrinsicGas. fold (base_gas isContractCreation isHomestead).
  set (nz := Z.of_nat (length (filter _ data))) in *. set (per := if isEIP2028 then TxDataNonZeroGasEIP2028 else TxDataNonZeroGasFrontier). set (base := base_gas _ _).
  assert (0 < per) as Hper by (unfold per; by destruct isEIP2028). assert (0 <= base <= MaxUint64) as Hbase by (unfold base, base_gas, TxGasContractCreation, TxGas, MaxUint64; destruct (_ && _); lia).
  assert (0 <= nz * per) as Hnn by (apply Z.mul_nonneg_nonneg; lia).
  assert (forall gas, 0 <= gas <= MaxUint64 -> gas = base + (nz * per + (zlen data - nz) * TxDataZeroGas) ->
    base + (nz * per + (zlen data - nz) * TxDataZeroGas) <= MaxUint64 /\ (base + (nz * per + (zlen data - nz) * TxDataZeroGas) + list_gas accessList <= MaxUint64 ->
    u64 (u64 (gas + u64 (Z.of_nat (length accessList) * TxAccessListAddressGas)) + u64 (Z.of_nat (StorageKeys accessList) * TxAccessListStorageKeyGas)) = base + (nz * per + (zlen data - nz) * TxDataZeroGas) + list_gas accessList)) as Hlists.
  { intros gas Hg <-. split; [lia|]. unfold list_gas. intros Hl. unfold TxAccessListAddressGas, TxAccessListStorageKeyGas in *. rewrite (u64_sum gas), u64_sum; lia. }
  destruct (Nat.ltb_spec 0 (length data)) as [Hd|Hd]; cbn [mbind outcome_bind].
  - destruct (_ <? nz) eqn:E1; cbn [mbind outcome_bind]; [apply quotient_room in E1; [split; [done|unfold TxDataZeroGas; lia]|done]|].
    assert (base + nz * per <= MaxUint64) as H1 by (apply Z.nlt_ge; rewrite <- quotient_room by done; by rewrite E1). rewrite (u64_sum base) by lia.
    destruct (_ <? zlen data - nz) eqn:E2; cbn [mbind outcome_bind]; [apply quotient_room in E2; [split; [done|lia]|done]|].
    assert (base + nz * per + (zlen data - nz) * TxDataZeroGas <= MaxUint64) as H2 by (apply Z.nlt_ge; rewrite <- quotient_room by done; by rewrite E2).
    assert (0 <= (zlen data - nz) * TxDataZeroGas) by (unfold TxDataZeroGas; lia). rewrite (u64_sum (base + nz * per)) by lia. apply Hlists; lia.
  - assert (zlen data = 0) as Hz by (unfold zlen; lia). assert (nz = 0) as En by lia. rewrite Hz, En in Hlists |- *. apply Hlists; unfold TxDataZeroGas; lia.
Qed.
