(* ===== verification/PoolSchedule.v ===== *)
(** * The schedule loses no request

    While a background run of the pool is active, [scheduleReorgLoop] merges
    what is asked for into the next run, which starts when the active one
    ends. *)
From Stdlib Require Import ZArith Lia.
From stdpp Require Import base option gmap list.
From S2P Require Import Prelude Errors Common Transaction Block Signing PriceNonce TxList TxPool PoolHead Pool.
Open Scope Z_scope.

Variant request :=
  | ReqReset (oldHead newHead : option Header)
  | ReqPromote (set : accountSet)
  | ReqEvent (addr : Address) (tx : Transaction).

Definition on_request (s : Schedule) (r : request) : Schedule :=
  match r with
  | ReqReset oldHead newHead => on_reset oldHead newHead s
  | ReqPromote set => on_promote set s
  | ReqEvent addr tx => on_event addr tx s
  end.

(** What the requests ask for together. *)
Definition resets_of (rs : list request) : list (option Header * option Header) := omap (fun r => match r with ReqReset o n => Some (o, n) | _ => None end) rs.
Definition sets_of (rs : list request) : list accountSet := omap (fun r => match r with ReqPromote s => Some s | _ => None end) rs.
Definition events_of (rs : list request) : list (Address * Transaction) := omap (fun r => match r with ReqEvent a t => Some (a, t) | _ => None end) rs.

(** From the first old head to the last new one. *)
Definition merged_reset (l : list (option Header * option Header)) : option (option Header * option Header) :=
  match head l, last l with Some (o, _), Some (_, n) => Some (o, n) | _, _ => None end.

Definition all_accounts (l : list accountSet) : gset Address := ⋃ (as_accounts <$> l).

Lemma merged_reset_snoc l o n : merged_reset (l ++ [(o, n)]) = Some (match merged_reset l with None => o | Some (o', _) => o' end, n).
Proof.
  unfold merged_reset. rewrite last_snoc. destruct l as [|[o' n'] l]; [done|]. cbn [app head]. destruct (last ((o', n') :: l)) as [[]|] eqn:E; [done|]. by apply last_None in E.
Qed.

Lemma all_accounts_snoc l s : all_accounts (l ++ [s]) = as_accounts s ∪ all_accounts l.
Proof. unfold all_accounts. rewrite fmap_app, union_list_app_L. cbn. set_solver. Qed.

(** No request to the pool's background loop is lost.  Whatever is asked for
    while a run is active, the next run resets from the first old to the last
    new head, looks at all accounts that were named and announces all queued
    transactions, and it starts as soon as the active run ends; without a
    request none starts. *)
Theorem no_request_lost run rs :
  let s := foldl on_request (mkSchedule (Some run) false (mkRun None None ∅)) rs in
  sc_running s = Some run /\
  rr_reset (sc_next s) = merged_reset (resets_of rs) /\
  (as_accounts <$> rr_dirtyAccounts (sc_next s)) = (match sets_of rs with [] => None | l => Some (all_accounts l) end) /\
  rr_queuedEvents (sc_next s) = foldl (fun ev at' => put_event at'.1 at'.2 ev) ∅ (events_of rs) /\
  sc_running (on_done s) = (match resets_of rs, sets_of rs with [], [] => None | _, _ => Some (sc_next s) end).
Proof.
  intros s. assert (sc_running s = Some run /\ rr_reset (sc_next s) = merged_reset (resets_of rs) /\
    (as_accounts <$> rr_dirtyAccounts (sc_next s)) = (match sets_of rs with [] => None | l => Some (all_accounts l) end) /\
    rr_queuedEvents (sc_next s) = foldl (fun ev at' => put_event at'.1 at'.2 ev) ∅ (events_of rs) /\
    sc_launchNextRun s = (match resets_of rs, sets_of rs with [], [] => false | _, _ => true end)) as (H1 & H2 & H3 & H4 & H5).
  { subst s. induction rs as [|r rs (I1 & I2 & I3 & I4 & I5)] using rev_ind; [done|]. rewrite foldl_snoc. set (s := foldl on_request _ rs) in *. unfold resets_of, sets_of, events_of in *. rewrite !omap_app.
    destruct r as [o n|set|a t]; cbn [on_request omap list_omap]; unfold on_reset, on_promote, on_event, launch; cbn [sc_running]; rewrite I1; cbn [sc_running sc_next sc_launchNextRun rr_reset rr_dirtyAccounts rr_queuedEvents]; rewrite ?app_nil_r.
    - split_and!; [done| |done|done|by destruct (omap (fun r => match r with ReqReset o n => Some (o, n) | _ => None end) rs)]. rewrite merged_reset_snoc, I2. by destruct (merged_reset _) as [[]|].
    - split_and!; [done|done| |done|]; [|by destruct (omap (fun r => match r with ReqReset o n => Some (o, n) | _ => None end) rs), (omap (fun r => match r with ReqPromote s => Some s | _ => None end) rs)].
      destruct (omap (fun r => match r with ReqPromote s => Some s | _ => None end) rs) as [|d l] eqn:El.
      + destruct (rr_dirtyAccounts (sc_next s)); [done|]. cbn [fmap option_fmap option_map app]. f_equal. unfold all_accounts. set_solver.
      + destruct (rr_dirtyAccounts (sc_next s)) as [d'|]; [|done]. injection I3 as I3. cbn [fmap option_fmap option_map as_merge as_accounts app]. f_equal. change (d :: l ++ [set]) with ((d :: l) ++ [set]). by rewrite all_accounts_snoc, I3.
    - split_and!; [done|done|done| |done]. rewrite foldl_snoc. cbn. by rewrite I4. }
  split_and!; [done..|]. unfold on_done, launch. cbn [sc_running sc_launchNextRun sc_next]. rewrite H5. by destruct (resets_of rs), (sets_of rs).
Qed.
