(* ===== verification/PoolIndex.v ===== *)
(** * The pool's indices follow its lists

    The part of the pool's consistency that concerns the lookup and the priced
    list: what they hold is exactly what a family of lists, one for each
    account, holds.  The operations of the pool move transactions between its
    lists, which does not change the family, and add and forget them, which
    does.  With it the logic of operations that neither panic nor break an
    invariant, whether they return an error or not. *)
From Stdlib Require Import ZArith Lia.
From stdpp Require Import base option gmap functions list.
From S2P Require Import Prelude Errors Prque Common Transaction Block Signing ChainConfig PriceNonce TxList TxPool PoolHead Pool.
Open Scope Z_scope.

(** ** Operations that keep an invariant *)

(** [m] does not panic; it returns with [Q] or gives an error with [I]. *)
Definition ends {S A} (I : S -> Prop) (m : M S A) (Q : A -> S -> Prop) (s : S) : Prop :=
  match m s with
  | (Ret a, s') => Q a s'
  | (Err _, s') => I s'
  | (Panic, _) => False
  end.

Section Ends.
Context {S : Type} (I : S -> Prop).

Lemma ends_bind {A B} (m : M S A) (k : A -> M S B) Q s : ends I m (fun a => ends I (k a) Q) s -> ends I (m ≫= k) Q s.
Proof. unfold ends, mbind, M_bind. by destruct (m s) as [[a|e|] s']. Qed.

Lemma ends_mono {A} (m : M S A) (Q Q' : A -> S -> Prop) s : ends I m Q s -> (forall a s', Q a s' -> Q' a s') -> ends I m Q' s.
Proof. unfold ends. intros Hm HQ. destruct (m s) as [[a|e|] s']; auto. Qed.

Lemma ends_get Q s : Q s s -> ends I get Q s.
Proof. done. Qed.

Lemma ends_modify (f : S -> S) Q s : Q tt (f s) -> ends I (modify f) Q s.
Proof. done. Qed.

Lemma ends_ret {A} (a : A) (Q : A -> S -> Prop) s : Q a s -> ends I (mret a) Q s.
Proof. done. Qed.

Lemma ends_throw {A} e (Q : A -> S -> Prop) s : I s -> ends I (throw e) Q s.
Proof. done. Qed.

Lemma ends_pure {A} (o : outcome A) a Q s : o = Ret a -> Q a s -> ends I (pure o) Q s.
Proof. by intros ->. Qed.

Lemma ends_checked {A} (o : outcome A) Q s : o <> Panic -> I s -> (forall a, o = Ret a -> Q a s) -> ends I (pure o) Q s.
Proof. unfold ends, pure. destruct o; auto. Qed.

Lemma ends_when b (m : M S unit) Q s : (b = true -> ends I m Q s) -> (b = false -> Q tt s) -> ends I (when b m) Q s.
Proof. destruct b; [intros H _; by apply H|intros _ H; by apply H]. Qed.

Lemma ends_try {A} (m : M S A) (J : S -> Prop) s : ends J m (fun _ => J) s -> ends I (try m) (fun _ => J) s.
Proof. unfold ends, try. by destruct (m s) as [[a|e|] s']. Qed.

Lemma ends_seq {A B C} (m1 : M S A) (m2 : M S B) (k : B -> M S C) Q s : ends I (m1;; m2) (fun b => ends I (k b) Q) s -> ends I (m1;; m2 ≫= k) Q s.
Proof. unfold ends, mbind, M_bind. destruct (m1 s) as [[a|e|] s1]; [|done|done]. by destruct (m2 s1) as [[b|e|] s2]. Qed.

Lemma ends_eq {A} (m : M S A) a s s' (Q : A -> S -> Prop) : m s = (Ret a, s') -> Q a s' -> ends I m Q s.
Proof. unfold ends. by intros ->. Qed.

(** A loop, with an invariant on what is left of the slice. *)
Lemma ends_for_each {A} (f : A -> M S unit) (J : list A -> S -> Prop) l s :
  (forall x l s, J (x :: l) s -> ends I (f x) (fun _ => J l) s) -> J l s -> ends I (for_each f l) (fun _ => J []) s.
Proof.
  intros Hf. revert s. induction l as [|x l IH]; intros s Hs; [done|]. cbn [for_each]. apply ends_bind.
  eapply ends_mono; [by apply Hf|]. intros [] s'. apply IH.
Qed.

End Ends.

Create HintDb pool.
#[export] Hint Resolve ends_get ends_modify ends_ret ends_throw : pool.

(** ** Transactions that come to the pool *)

(** The hash of a transaction determines its bid, its sender can be computed
    with any signer, and it takes at least one slot. *)
Record genuine_ok `{Keccak} `{Secp256k1} (G : Transaction -> Prop) : Prop := {
  go_range t : G t -> in_range t;
  go_bind a b : G a -> G b -> tx_id a = tx_id b -> GasPrice a = GasPrice b /\ Nonce a = Nonce b;
  go_sender t s : G t -> (Sender s t).1 <> Panic;
  go_chain t : G t -> chainID (t_inner t) <> Panic /\ forall e, chainID (t_inner t) <> Err e;
  go_slots t : G t -> 1 <= numSlots t
}.

(** What the pool relies on of the chain: private transactions are genuine and
    no markers, transitions are in order, blocks are stored under their hashes
    and numbers and hold genuine transactions. *)
Record genuine_chain `{Keccak} (G : Transaction -> Prop) (ch : PoolChain) : Prop := {
  gc_private d t : pc_FetchPrivateTransaction ch d = Some t -> G t /\ IsPrivacyMarker t = false;
  gc_transitions : CheckTransitionsData (pc_config ch) = None;
  gc_current : numbered (bl_header (pc_CurrentBlock ch));
  gc_stored : stored_right (pc_GetBlock ch);
  gc_blocks h n b : pc_GetBlock ch h n = Some b -> Forall G (bl_Transactions b)
}.

Lemma transitions_return {A} ch num (f : A -> Transition -> A) v : CheckTransitionsData (pc_config ch) = None -> exists r, GetTransitionValue (pc_config ch) num f v = Ret r.
Proof. intros Hc. destruct num as [n|]; [|by eexists]. eexists. by eapply transition_loop_all. Qed.

Lemma gas_enabled_returns `{Keccak} G ch : genuine_chain G ch -> exists b, gas_enabled ch = Ret b.
Proof.
  intros Hch. unfold gas_enabled, IsGasPriceEnabled. destruct (transitions_return ch (hdr_Number (bl_header (pc_CurrentBlock ch))) (if_set tr_GasPriceEnabled) false (gc_transitions G ch Hch)) as [r ->]. by eexists.
Qed.

Lemma price_counts_returns `{Keccak} G ch : genuine_chain G ch -> exists b, price_counts ch = Ret b.
Proof. intros Hch. unfold price_counts. destruct (pc_IsQuorum ch); [by eapply gas_enabled_returns|by eexists]. Qed.

Lemma size_limit_returns `{Keccak} G ch : genuine_chain G ch -> exists n, size_limit ch = Ret n.
Proof.
  intros Hch. unfold size_limit. destruct (gc_current G ch Hch) as [n ->]. cbn [deref mbind outcome_bind]. unfold GetTransactionSizeLimit.
  destruct (transitions_return ch (Some n) (fun _ t => tr_TransactionSizeLimit t) 0 (gc_transitions G ch Hch)) as [r ->]. by eexists.
Qed.

(** ** The indices *)

Section Index.
Context `{HK : Keccak} `{HS : Secp256k1} `{HRL : RangesLaws}.
Context (G : Transaction -> Prop) (HG : genuine_ok G) (signer : TxSigner).

(** Transactions the priced list has given up and that are about to be removed. *)
Context (miss : list Transaction).

#[local] Abbreviation family := (Address -> list Transaction).
Implicit Types (ev : family) (all : txLookup) (priced : txPricedList).

Record index_inv ev all priced : Prop := {
  ix_here a t : t ∈ ev a -> account signer t = Ret a /\ lk_Get (tx_id t) all = Some t /\ G t;
  ix_known h t : lk_Get h all = Some t -> exists a, t ∈ ev a;
  ix_nonces a : NoDup (Nonce <$> ev a);
  ix_lookup : lk_ok all;
  ix_priced : exists h, prices_of priced h /\ covers all (h ++ miss) /\ Forall G (h ++ miss)
}.

Lemma account_safe t s : G t -> account s t <> Panic /\ forall e, account s t <> Err e.
Proof. intros Ht. pose proof (go_sender G HG t s Ht). unfold account. by destruct (Sender s t).1. Qed.

Lemma index_perm ev ev' all priced : (forall a, ev' a ≡ₚ ev a) -> index_inv ev all priced -> index_inv ev' all priced.
Proof.
  intros Hp [H1 H2 H3 H4 H5]. split; [|..|done|done].
  - intros a t. rewrite Hp. apply H1.
  - intros h t Ht. destruct (H2 h t Ht) as [a Ha]. exists a. by rewrite Hp.
  - intros a. rewrite Hp. apply H3.
Qed.

Lemma known_genuine ev all priced h t : index_inv ev all priced -> lk_Get h all = Some t -> G t /\ tx_id t = h.
Proof.
  intros Hi Ht. destruct (ix_known _ _ _ Hi h t Ht) as [a Ha]. split; [by eapply ix_here|].
  pose proof (ix_lookup _ _ _ Hi) as [_ Hl Hr _]. unfold lk_Get in Ht. destruct (lk_locals all !! h) as [u|] eqn:E; [injection Ht as ->; by apply Hl|by apply Hr].
Qed.

(** Two transactions under one hash are one. *)
Lemma here_same ev all priced a b t u : index_inv ev all priced -> t ∈ ev a -> u ∈ ev b -> tx_id t = tx_id u -> t = u /\ a = b.
Proof.
  intros Hi Ht Hu E. destruct (ix_here _ _ _ Hi a t Ht) as (Ha & H1 & _), (ix_here _ _ _ Hi b u Hu) as (Hb & H2 & _). rewrite E in H1.
  assert (t = u) as -> by congruence. split; [done|]. congruence.
Qed.

Lemma lk_Get_Remove h k all : lk_ok all -> lk_Get k (lk_Remove h all) = if decide (k = h) then None else lk_Get k all.
Proof.
  intros Hl. destruct (decide (k = h)) as [->|Hne]; [by apply lk_Remove_ok|]. unfold lk_Remove. destruct (lk_Get h all); [|done].
  unfold lk_Get. cbn. by rewrite !lookup_delete_ne.
Qed.

Lemma lk_Get_Add tx local k all : lk_Get (tx_id tx) all = None -> lk_Get k (lk_Add tx local all) = if decide (k = tx_id tx) then Some tx else lk_Get k all.
Proof.
  intros [Hl Hr]%lk_Get_None. unfold lk_Get, lk_Add. destruct (decide (k = tx_id tx)) as [->|Hne], local; cbn; rewrite ?lookup_insert_eq, ?lookup_insert_ne by done; try done. by rewrite Hl.
Qed.

Lemma nonces_rest (l l' : list Transaction) t : NoDup (Nonce <$> l) -> l ≡ₚ t :: l' -> NoDup (Nonce <$> l') /\ Nonce t ∉ Nonce <$> l'.
Proof. intros Hn Hp. rewrite Hp in Hn. cbn in Hn. by apply NoDup_cons in Hn as [? ?]. Qed.

(** Forgetting a transaction. *)
Lemma index_remove ev all priced a t l : index_inv ev all priced -> ev a ≡ₚ t :: l -> index_inv (<[a := l]> ev) (lk_Remove (tx_id t) all) priced.
Proof.
  intros Hi Hp. pose proof Hi as [H1 H2 H3 H4 (h & Hh & Hc & Hg)]. destruct (nonces_rest _ _ _ (H3 a) Hp) as [Hn Hni].
  assert (forall b u, u ∈ (<[a := l]> ev) b -> u ∈ ev b /\ tx_id u <> tx_id t) as Hsub.
  { intros b u Hu. destruct (decide (b = a)) as [->|Hb].
    - rewrite fn_lookup_insert in Hu. assert (u ∈ ev a) as Hu' by (rewrite Hp; apply elem_of_cons; by right). split; [done|]. intros E.
      destruct (here_same _ _ _ a a u t Hi) as [-> _]; [done|rewrite Hp; apply elem_of_cons; by left|done|]. apply Hni. by apply list_elem_of_fmap_2.
    - rewrite fn_lookup_insert_ne in Hu by done. split; [done|]. intros E. destruct (here_same _ _ _ b a u t Hi) as [_ ->]; [done|rewrite Hp; apply elem_of_cons; by left|done|done]. }
  split.
  - intros b u [Hu Hne]%Hsub. destruct (H1 b u Hu) as (Ha & Hk & HGu). split; [done|]. split; [|done]. by rewrite lk_Get_Remove, decide_False.
  - intros k u Hu. rewrite lk_Get_Remove in Hu by done. destruct (decide (k = tx_id t)) as [|Hne]; [done|]. destruct (H2 k u Hu) as [b Hb]. exists b.
    destruct (decide (b = a)) as [->|]; [|by rewrite fn_lookup_insert_ne]. rewrite fn_lookup_insert. rewrite Hp in Hb. apply elem_of_cons in Hb as [->|]; [|done].
    exfalso. apply Hne. symmetry. by eapply known_genuine.
  - intros b. destruct (decide (b = a)) as [->|]; [by rewrite fn_lookup_insert|by rewrite fn_lookup_insert_ne].
  - by apply lk_Remove_ok.
  - exists h. split; [done|]. split; [by apply covers_remove|done].
Qed.

(** Changing the priced list alone. *)
Lemma index_priced ev all priced priced' h : index_inv ev all priced -> prices_of priced' h -> covers all (h ++ miss) -> Forall G (h ++ miss) -> index_inv ev all priced'.
Proof. intros [H1 H2 H3 H4 _] Hh Hc Hg. split; eauto. Qed.

Lemma remotes_known all k t : lk_ok all -> lk_remotes all !! k = Some t -> lk_Get k all = Some t.
Proof. intros Hl Ht. unfold lk_Get. by rewrite (map_disjoint_Some_r _ _ _ _ (lo_disjoint _ Hl) Ht). Qed.

Lemma index_removed ev all priced n : index_inv ev all priced -> index_inv ev all (pl_Removed range_txs all n priced).
Proof.
  intros Hi. pose proof Hi as [H1 H2 H3 H4 (h & Hh & Hc & Hg)]. unfold pl_Removed. destruct (_ <=? _); [by eapply index_priced|].
  assert (Forall G (values (lk_remotes all))) as Hv.
  { apply Forall_forall. intros t [k Hk]%values_elem. eapply known_genuine; [done|]. by apply remotes_known. }
  destruct (reheap_ok range_txs all (mkPriced (pl_remotes priced) (pl_stales priced + n))) as [Hp Hcv].
  - intros m. apply range_txs_perm.
  - apply H4.
  - eapply Forall_impl; [done|]. apply (go_range G HG).
  - apply Forall_app in Hg as [_ Hg]. assert (Forall G (values (lk_remotes all) ++ miss)) as Hg' by (by apply Forall_app). eapply index_priced; [done|done| |done].
    split; [intros k t Ht; destruct (proj1 Hcv k t Ht) as (u & Hu & E); exists u; rewrite elem_of_app; auto|].
    intros u t Hu Ht. destruct (known_genuine _ _ _ (tx_id u) t Hi) as [HGt E]; [by apply remotes_known|]. apply (go_bind G HG); [by eapply Forall_forall|done|done].
Qed.

(** Adding one. *)
Lemma index_add ev all priced tx a local : index_inv ev all priced -> G tx -> account signer tx = Ret a -> lk_Get (tx_id tx) all = None -> Nonce tx ∉ Nonce <$> ev a ->
  index_inv (<[a := tx :: ev a]> ev) (lk_Add tx local all) (pl_Put tx local priced).
Proof.
  intros Hi HGt Ha Hfresh Hn. pose proof Hi as [H1 H2 H3 H4 (h & Hh & Hc & Hg)]. split.
  - intros b u Hu. rewrite lk_Get_Add by done.
    assert (u = tx /\ b = a \/ u ∈ ev b) as [[-> ->]|Hu'].
    { destruct (decide (b = a)) as [->|Hb]; [|rewrite fn_lookup_insert_ne in Hu by done; by right]. rewrite fn_lookup_insert in Hu. apply elem_of_cons in Hu as [->|]; [by left|by right]. }
    + by rewrite decide_True.
    + destruct (H1 b u Hu') as (Hau & Hku & HGu). split; [done|]. split; [|done]. rewrite decide_False; [done|]. intros E. congruence.
  - intros k u Hu. rewrite lk_Get_Add in Hu by done. destruct (decide (k = tx_id tx)) as [->|Hk].
    + injection Hu as <-. exists a. rewrite fn_lookup_insert. apply elem_of_cons. by left.
    + destruct (H2 k u Hu) as [b Hb]. exists b. destruct (decide (b = a)) as [->|]; [|by rewrite fn_lookup_insert_ne]. rewrite fn_lookup_insert. apply elem_of_cons. by right.
  - intros b. destruct (decide (b = a)) as [->|]; [|by rewrite fn_lookup_insert_ne]. rewrite fn_lookup_insert. cbn. by apply NoDup_cons.
  - by apply lk_Add_ok.
  - destruct local; [by exists h|]. exists (tx :: h). split; [apply prices_put; [done|by apply (go_range G HG)]|]. split; [|by constructor].
    apply covers_add; [done|done|]. intros u Hu E. apply (go_bind G HG); [by eapply Forall_forall|done|done].
Qed.

(** Making the transactions of local accounts local. *)
Lemma migrate_runs s kvs : forall locals remotes n, Forall (fun kv => G kv.2) kvs -> exists r, migrate_loop s kvs locals remotes n = Ret r.
Proof.
  induction kvs as [|[k t] kvs IH]; intros locals remotes n Hf; cbn [migrate_loop]; [by eexists|]. apply Forall_cons in Hf as [Ht Hf]. cbn in Ht.
  assert (exists b, as_containsTx t s = Ret b) as [b ->].
  { pose proof (go_sender G HG t (as_signer s) Ht). unfold as_containsTx. destruct (Sender (as_signer s) t).1; [by eexists|by eexists|done]. }
  cbn [mbind outcome_bind]. destruct b; by apply IH.
Qed.

Lemma migrate_remotes s kvs : forall locals remotes n r, migrate_loop s kvs locals remotes n = Ret r -> r.1.2 ⊆ remotes.
Proof.
  induction kvs as [|[k t] kvs IH]; intros locals remotes n r E; cbn [migrate_loop] in E; [by injection E as <-|].
  destruct (as_containsTx t s) as [here| |]; [|done|done]. cbn [mbind outcome_bind] in E. destruct here; apply IH in E; [|done]. etrans; [done|apply delete_subseteq].
Qed.

Lemma index_migrate ev all priced s : index_inv ev all priced -> exists n all', lk_RemoteToLocals range_txs s all = Ret (n, all') /\ index_inv ev all' priced /\ forall k, lk_Get k all' = lk_Get k all.
Proof.
  intros Hi. pose proof Hi as [H1 H2 H3 H4 (h & Hh & Hc & Hg)].
  destruct (migrate_runs s (range_txs (lk_remotes all)) (lk_locals all) (lk_remotes all) 0) as [[[lc rm] n] E].
  { apply Forall_forall. intros [k t] Ht. rewrite range_txs_perm in Ht. apply elem_of_map_to_list in Ht. eapply known_genuine; [done|]. by apply remotes_known. }
  pose proof (migrate_remotes _ _ _ _ _ _ E) as Hsub. cbn [fst snd] in Hsub.
  destruct (migrate_loop_ok s (range_txs (lk_remotes all)) all 0 (lc, rm, n) H4) as [Hok Hget]; [rewrite range_txs_perm; apply NoDup_fst_map_to_list| |exact E|].
  { intros k v Hkv. rewrite range_txs_perm in Hkv. by apply elem_of_map_to_list. }
  cbn [fst snd] in *. unfold lk_RemoteToLocals. rewrite E. cbn [mbind outcome_bind]. do 2 eexists. split; [done|]. split; [|done]. split.
  - intros a t Ht. rewrite Hget. by apply H1.
  - intros k t. rewrite Hget. apply H2.
  - done.
  - done.
  - exists h. split; [done|]. split; [|done]. destruct Hc as [Hc1 Hc2]. split; cbn [lk_remotes].
    + intros k t Ht. eapply Hc1. by eapply lookup_weaken.
    + intros u t Hu Ht. eapply Hc2; [done|]. by eapply lookup_weaken.
Qed.

End Index.
