(* ===== verification/PoolOk.v ===== *)
(** * The pool is consistent

    Whatever is added to the pool, removed from it, promoted, demoted or
    truncated, the transactions the pool knows are exactly those of its pending
    and queued lists, each in one list, that of its sender, with no two of a
    sender under one nonce; and no operation panics. *)
From Stdlib Require Import ZArith Lia.
From stdpp Require Import base option gmap functions list sorting.
From S2P Require Import Prelude Errors Rlp Prque Common Transaction Signing PriceNonce TxList TxPool Pool PoolIndex.
Open Scope Z_scope.

Section PoolOk.
Context `{HK : Keccak} `{HS : Secp256k1} `{HRL : RangesLaws}.
Context (G : Transaction -> Prop) (HG : genuine_ok G) (signer : TxSigner) (ch : PoolChain).

(** What the priced list has given up and the pool is about to remove. *)
Context (miss : list Transaction).

#[local] Abbreviation family := (Address -> list Transaction).
Implicit Types (pend que loose : family) (p : TxPool) (a b : Address) (t tx : Transaction).

(** ** The invariant *)

Definition config_ok (c : TxPoolConfig) : Prop := 1 <= cf_AccountSlots c /\ 0 <= cf_AccountQueue c < 2 ^ 63.

(** The announcements that wait are sorted maps. *)
Definition events_ok (events : gmap Address txSortedMap) : Prop := forall a m, events !! a = Some m -> exists l, sm_rel m l.

Record sched_ok (s : Schedule) : Prop := {
  so_next : events_ok (rr_queuedEvents (sc_next s));
  so_running run : sc_running s = Some run -> events_ok (rr_queuedEvents run);
  so_waits : sc_launchNextRun s = true -> is_Some (sc_running s);
  so_idle : sc_launchNextRun s = false -> rr_reset (sc_next s) = None /\ rr_dirtyAccounts (sc_next s) = None
}.

(** A map of lists and what they hold. *)
Definition lists_rel (strict : bool) (m : gmap Address txList) (g : family) : Prop :=
  forall a, match m !! a with Some L => tl_rel L (g a) /\ tl_strict L = strict | None => g a = [] end.

(** Between two steps of an operation some transactions are in no list. *)
Record pool_inv pend que loose p : Prop := {
  pv_signer : po_signer p = signer;
  pv_config : config_ok (po_config p);
  pv_sched : sched_ok (po_sched p);
  pv_pending : lists_rel true (po_pending p) pend;
  pv_queue : lists_rel false (po_queue p) que;
  pv_index : index_inv G signer miss (fun a => pend a ++ que a ++ loose a) (po_all p) (po_priced p)
}.

Definition none : family := fun _ => [].

(** No pending list is empty. *)
Definition tidy (m : gmap Address txList) : Prop := forall a L, m !! a = Some L -> tl_Empty L = false.

Definition pool_ok p : Prop := tidy (po_pending p) /\ exists pend que, pool_inv pend que none p.

(** ** Maps of lists *)

Lemma lists_get strict m g a : lists_rel strict m g -> tl_rel (default (newTxList strict) (m !! a)) (g a) /\ tl_strict (default (newTxList strict) (m !! a)) = strict.
Proof. intros Hm. specialize (Hm a). destruct (m !! a) as [L|]; cbn; [done|]. rewrite Hm. split; [apply newTxList_rel|done]. Qed.

Lemma lists_insert strict m g a L l : lists_rel strict m g -> tl_rel L l -> tl_strict L = strict -> lists_rel strict (<[a := L]> m) (<[a := l]> g).
Proof.
  intros Hm HL Hs b. destruct (decide (b = a)) as [->|Hb]; [by rewrite lookup_insert_eq, fn_lookup_insert|].
  rewrite lookup_insert_ne, fn_lookup_insert_ne by done. apply Hm.
Qed.

Lemma lists_delete strict m g a : lists_rel strict m g -> lists_rel strict (delete a m) (<[a := []]> g).
Proof.
  intros Hm b. destruct (decide (b = a)) as [->|Hb]; [by rewrite lookup_delete_eq, fn_lookup_insert|].
  rewrite lookup_delete_ne, fn_lookup_insert_ne by done. apply Hm.
Qed.

Lemma lists_ext strict m g g' : (forall a, g a = g' a) -> lists_rel strict m g -> lists_rel strict m g'.
Proof. intros E Hm a. specialize (Hm a). by rewrite <- E. Qed.

Lemma lists_empty_rel L l : tl_rel L l -> tl_Empty L = true <-> l = [].
Proof.
  intros [[Hs Hi _ _ _] _ _]. unfold tl_Empty, tl_Len, sm_Len. rewrite Hi, contents_size, Nat.eqb_eq by done. by destruct l.
Qed.

Lemma lists_len L l : tl_rel L l -> tl_Len L = length l.
Proof. intros [[Hs Hi _ _ _] _ _]. unfold tl_Len, sm_Len. by rewrite Hi, contents_size. Qed.

Lemma tidy_insert m a L : tidy m -> tl_Empty L = false -> tidy (<[a := L]> m).
Proof. intros Hm HL b L' [[<- <-]|[_ Hb]]%lookup_insert_Some; [done|by eapply Hm]. Qed.

Lemma tidy_delete m a : tidy m -> tidy (delete a m).
Proof. intros Hm b L' [_ Hb]%lookup_delete_Some. by eapply Hm. Qed.

(** ** Moving transactions between lists *)

Lemma inv_move pend que loose p pend' que' loose' p' : pool_inv pend que loose p ->
  po_signer p' = po_signer p -> po_config p' = po_config p /\ po_sched p' = po_sched p -> po_all p' = po_all p -> po_priced p' = po_priced p ->
  lists_rel true (po_pending p') pend' -> lists_rel false (po_queue p') que' ->
  (forall a, pend' a ++ que' a ++ loose' a ≡ₚ pend a ++ que a ++ loose a) -> pool_inv pend' que' loose' p'.
Proof.
  intros [Hs Hc Hsc Hp Hq Hi] Es [Ec Esc] Ea Epr Hp' Hq' Hperm. split; [by rewrite Es|by rewrite Ec|by rewrite Esc|done|done|]. rewrite Ea, Epr. eapply index_perm; [exact Hperm|done].
Qed.

Lemma inv_index pend que loose p ev' p' pend' que' loose' : pool_inv pend que loose p ->
  po_signer p' = po_signer p -> po_config p' = po_config p /\ po_sched p' = po_sched p ->
  lists_rel true (po_pending p') pend' -> lists_rel false (po_queue p') que' ->
  index_inv G signer miss ev' (po_all p') (po_priced p') -> (forall a, pend' a ++ que' a ++ loose' a ≡ₚ ev' a) -> pool_inv pend' que' loose' p'.
Proof. intros [Hs Hc Hsc Hp Hq Hi] Es [Ec Esc] Hp' Hq' Hi' Hperm. split; [by rewrite Es|by rewrite Ec|by rewrite Esc|done|done|]. eapply index_perm; [exact Hperm|done]. Qed.

(** Changing one account of one part. *)
Lemma parts_insert (f g : family) a l l' : (forall b, f b ≡ₚ g b) -> l ≡ₚ l' -> forall b, (<[a := l]> f) b ≡ₚ (<[a := l']> g) b.
Proof. intros Hfg Hl b. destruct (decide (b = a)) as [->|]; [by rewrite !fn_lookup_insert|by rewrite !fn_lookup_insert_ne]. Qed.

(** ** The queue takes a loose transaction *)

Lemma here pend que loose p a t : pool_inv pend que loose p -> t ∈ pend a ++ que a ++ loose a -> account signer t = Ret a /\ lk_Get (tx_id t) (po_all p) = Some t /\ G t.
Proof. intros Hp Ht. by apply (ix_here _ _ _ _ _ _ (pv_index _ _ _ _ Hp) a). Qed.

Lemma loose_fresh pend que loose p a t l : pool_inv pend que loose p -> loose a ≡ₚ t :: l -> (Nonce t ∉ Nonce <$> pend a) /\ (Nonce t ∉ Nonce <$> que a).
Proof.
  intros Hp Hl. pose proof (ix_nonces _ _ _ _ _ _ (pv_index _ _ _ _ Hp) a) as Hn. cbv beta in Hn. rewrite !fmap_app, Hl in Hn. cbn in Hn.
  apply NoDup_app in Hn as (_ & H1 & Hn). apply NoDup_app in Hn as (_ & H2 & _). split.
  - intros Hin. apply (H1 _ Hin). rewrite elem_of_app, elem_of_cons. auto.
  - intros Hin. apply (H2 _ Hin). rewrite elem_of_cons. auto.
Qed.

Definition frame a p p' : Prop := forall b, b <> a -> po_pending p' !! b = po_pending p !! b /\ po_queue p' !! b = po_queue p !! b.

Lemma enqueue_loose pend que loose p a t l : pool_inv pend que loose p -> loose a ≡ₚ t :: l -> exists p',
  enqueueTx ch (tx_id t) t false false p = (Ret false, p') /\ pool_inv pend (<[a := insert_tx t (que a)]> que) (<[a := l]> loose) p' /\
  po_pending p' = po_pending p /\ po_all p' = po_all p /\ frame a p p'.
Proof.
  intros Hp Hl. destruct (here _ _ _ _ a t Hp) as (Ha & Hk & HGt); [rewrite !elem_of_app, Hl, elem_of_cons; auto|].
  destruct (loose_fresh _ _ _ _ _ _ _ Hp Hl) as [_ Hni]. destruct (lists_get false _ _ a (pv_queue _ _ _ _ Hp)) as [HL Hst].
  destruct (tl_Add_accepted t (cf_PriceBump (po_config p)) _ _ None HL (go_range G HG t HGt) Hni) as (L' & E & HL' & Es).
  unfold enqueueTx, get, pure, mbind, M_bind. rewrite (pv_signer _ _ _ _ Hp), Ha. cbn beta iota zeta. rewrite E.
  eexists. split; [reflexivity|]. split; [|split; [done|split; [done|]]].
  - eapply inv_move; [exact Hp|done|done|done|done|apply Hp| |].
    + cbn. apply lists_insert; [apply Hp|done|congruence].
    + intros b. destruct (decide (b = a)) as [->|Hb]; [|by rewrite !fn_lookup_insert_ne]. rewrite !fn_lookup_insert, Hl, put_new by done.
      by rewrite <- Permutation_middle.
  - intros b Hb. split; [done|]. cbn. by rewrite lookup_insert_ne.
Qed.

Lemma inv_ext pend que loose pend' que' loose' p : pool_inv pend que loose p -> (forall a, pend a = pend' a) -> (forall a, que a = que' a) -> (forall a, loose a ≡ₚ loose' a) -> pool_inv pend' que' loose' p.
Proof.
  intros Hp E1 E2 E3. eapply inv_move; [exact Hp|done|done|done|done|eapply lists_ext; [done|apply Hp]|eapply lists_ext; [done|apply Hp]|].
  intros a. by rewrite E1, E2, E3.
Qed.

(** Transactions of one account that are in no list. *)
Definition apart a (l : list Transaction) : family := <[a := l]> none.

Lemma apart_here a l : apart a l a = l.
Proof. apply fn_lookup_insert. Qed.

Lemma apart_rest a t l b : (<[a := l]> (apart a (t :: l))) b = apart a l b.
Proof. unfold apart. destruct (decide (b = a)) as [->|]; [by rewrite !fn_lookup_insert|by rewrite !fn_lookup_insert_ne]. Qed.

Lemma apart_nil a b : apart a [] b = none b.
Proof. unfold apart, none. destruct (decide (b = a)) as [->|]; [by rewrite fn_lookup_insert|by rewrite fn_lookup_insert_ne]. Qed.

(** All of them go to the queue. *)
Lemma requeue_ok pend a l : forall que p, pool_inv pend que (apart a l) p -> exists que' p',
  requeue_all ch (Some <$> l) p = (Ret tt, p') /\ pool_inv pend que' none p' /\ po_pending p' = po_pending p /\ po_all p' = po_all p /\ frame a p p'.
Proof.
  induction l as [|t l IH]; intros que p Hp.
  - exists que, p. split; [done|]. split; [|done]. eapply inv_ext; [exact Hp|done|done|]. intros b. by rewrite apart_nil.
  - destruct (enqueue_loose _ _ _ _ a t l Hp) as (p1 & E & Hp1 & Ep & Ea & Hf); [by rewrite apart_here|].
    destruct (IH (<[a := insert_tx t (que a)]> que) p1) as (que' & p' & E' & Hp' & Ep' & Ea' & Hf').
    { eapply inv_ext; [exact Hp1|done|done|]. intros b. by rewrite apart_rest. }
    exists que', p'. split; [|split; [done|]].
    + unfold requeue_all in *. cbn [fmap list_fmap for_each deref]. unfold mbind, M_bind, pure, try at 1. rewrite E. exact E'.
    + split; [congruence|]. split; [congruence|]. intros b Hb. destruct (Hf b Hb), (Hf' b Hb). split; congruence.
Qed.

(** The loop of [removeTx] is the same. *)
Lemma requeue_invalids l : forall p, for_each (fun t => _ ← try (enqueueTx ch (tx_id t) t false false); mret tt) l p = requeue_all ch (Some <$> l) p.
Proof.
  induction l as [|t l IH]; intros p; [done|]. unfold requeue_all in *. cbn [for_each fmap list_fmap deref]. unfold mbind, M_bind, pure at 1.
  destruct (try _ p) as [[r|e|] p1]; [apply IH|done|done].
Qed.

(** ** Forgetting *)

Definition shrinks p p' : Prop := forall h t, lk_Get h (po_all p') = Some t -> lk_Get h (po_all p) = Some t.

#[global] Instance shrinks_preorder : PreOrder shrinks.
Proof. split; [by intros p h t|]. intros p1 p2 p3 H1 H2 h t Ht. by apply H1, H2. Qed.

Lemma shrinks_remove p p' h : lk_ok (po_all p) -> po_all p' = lk_Remove h (po_all p) -> shrinks p p'.
Proof. intros Hl E k t. rewrite E, lk_Get_Remove by done. by destruct (decide (k = h)). Qed.

(** Only the indices change. *)
Definition only_index p p' : Prop := p' = set_index (po_all p') (po_priced p') p.

#[global] Instance only_index_preorder : PreOrder only_index.
Proof. split; [by intros []|]. unfold only_index. intros p1 p2 p3 H1 H2. rewrite H2, H1. done. Qed.

Lemma only_index_set p all priced : only_index p (set_index all priced p).
Proof. done. Qed.

Lemma inv_only pend que loose loose' p p' ev' : pool_inv pend que loose p -> only_index p p' -> index_inv G signer miss ev' (po_all p') (po_priced p') ->
  (forall a, pend a ++ que a ++ loose' a ≡ₚ ev' a) -> pool_inv pend que loose' p'.
Proof. intros Hp E Hi Hperm. eapply (inv_index _ _ _ p); [exact Hp|by rewrite E|by rewrite E|rewrite E; apply Hp|rewrite E; apply Hp|exact Hi|exact Hperm]. Qed.

Lemma inv_removed pend que loose p n : pool_inv pend que loose p -> exists p', priced_Removed n p = (Ret tt, p') /\ pool_inv pend que loose p' /\ only_index p p' /\ po_all p' = po_all p.
Proof.
  intros Hp. eexists. split; [reflexivity|]. split; [|done].
  eapply (inv_only _ _ _ _ _ _ (fun a => pend a ++ que a ++ loose a)); [exact Hp|done| |done]. apply (index_removed G HG), Hp.
Qed.

Lemma parts_loose pend que loose a l b : pend b ++ que b ++ (<[a := l]> loose) b = (<[a := pend a ++ que a ++ l]> (fun c => pend c ++ que c ++ loose c)) b.
Proof. destruct (decide (b = a)) as [->|]; [by rewrite !fn_lookup_insert|by rewrite !fn_lookup_insert_ne]. Qed.

Lemma forget_one pend que loose p a t l : pool_inv pend que loose p -> loose a ≡ₚ t :: l -> exists p',
  lookup_Remove (tx_id t) p = (Ret tt, p') /\ pool_inv pend que (<[a := l]> loose) p' /\ only_index p p' /\ shrinks p p'.
Proof.
  intros Hp Hl. eexists. split; [reflexivity|]. split; [|split; [done|]].
  - eapply inv_only; [exact Hp|done|eapply (index_remove _ _ _ _ _ _ a t (pend a ++ que a ++ l)); [apply Hp|]|].
    + cbv beta. rewrite Hl. solve_Permutation.
    + intros b. by rewrite parts_loose.
  - eapply shrinks_remove; [|done]. apply Hp.
Qed.

Lemma forget_all_ok pend que a rest l : forall loose p, pool_inv pend que loose p -> loose a ≡ₚ l ++ rest -> exists p',
  forget_all (Some <$> l) p = (Ret tt, p') /\ pool_inv pend que (<[a := rest]> loose) p' /\ only_index p p' /\ shrinks p p'.
Proof.
  induction l as [|t l IH]; intros loose p Hp Hl.
  - exists p. split; [done|]. split; [|done]. eapply inv_ext; [exact Hp|done|done|]. intros b. destruct (decide (b = a)) as [->|]; [by rewrite fn_lookup_insert|by rewrite fn_lookup_insert_ne].
  - destruct (forget_one _ _ _ _ a t (l ++ rest) Hp Hl) as (p1 & E & Hp1 & Ho & Hsh).
    destruct (IH (<[a := l ++ rest]> loose) p1 Hp1) as (p' & E' & Hp' & Ho' & Hsh'); [by rewrite fn_lookup_insert|].
    exists p'. split; [|split; [|split; by etrans]].
    + unfold forget_all in *. cbn [fmap list_fmap for_each deref]. unfold mbind, M_bind, pure at 1. rewrite E. exact E'.
    + eapply inv_ext; [exact Hp'|done|done|]. intros b. destruct (decide (b = a)) as [->|]; [by rewrite !fn_lookup_insert|by rewrite !fn_lookup_insert_ne].
Qed.


(** ** Removing a transaction *)

Lemma frame_only p p' : only_index p p' -> po_pending p' = po_pending p /\ po_queue p' = po_queue p /\ po_signer p' = po_signer p /\ po_config p' = po_config p /\ po_sched p' = po_sched p.
Proof. by intros ->. Qed.

(** The accounts whose lists are left alone. *)
Definition untouched hash p p' : Prop :=
  forall b, (forall t, lk_Get hash (po_all p) = Some t -> account signer t <> Ret b) -> po_pending p' !! b = po_pending p !! b /\ po_queue p' !! b = po_queue p !! b.

Lemma frame_untouched hash p p' a t : lk_Get hash (po_all p) = Some t -> account signer t = Ret a -> frame a p p' -> untouched hash p p'.
Proof. intros Ht Ha Hf b Hb. apply Hf. intros ->. by apply (Hb t). Qed.

Lemma forget_index I pend que p a t rest (outofbound : bool) Q : pool_inv pend que none p -> pend a ++ que a ≡ₚ t :: rest ->
  (forall p', only_index p p' -> shrinks p p' -> index_inv G signer miss (<[a := rest]> (fun b => pend b ++ que b)) (po_all p') (po_priced p') -> lk_Get (tx_id t) (po_all p') = None -> Q tt p') ->
  ends I (lookup_Remove (tx_id t);; when outofbound (priced_Removed 1)) Q p.
Proof.
  intros Hp Ht HQ. assert (index_inv G signer miss (fun b => pend b ++ que b) (po_all p) (po_priced p)) as Hi.
  { eapply index_perm; [|apply Hp]. intros b. cbn. by rewrite app_nil_r. }
  pose proof (index_remove _ _ _ _ _ _ a t rest Hi Ht) as Hi1. apply ends_bind, ends_modify.
  assert (shrinks p (set_index (lk_Remove (tx_id t) (po_all p)) (po_priced p) p)) as Hsh by (eapply shrinks_remove; [apply Hp|done]).
  assert (lk_Get (tx_id t) (lk_Remove (tx_id t) (po_all p)) = None) as Hgone by (apply lk_Remove_ok, Hp).
  apply ends_when; intros _.
  - apply ends_modify, HQ; [done|done| |done]. by apply (index_removed G HG).
  - by apply HQ.
Qed.

(** A transaction that is in the queue. *)
Lemma remove_queued_ok I pend que p p1 a t rest (Q : unit -> TxPool -> Prop) : pool_inv pend que none p -> que a ≡ₚ t :: rest -> t ∈ que a ->
  po_signer p1 = po_signer p -> po_config p1 = po_config p /\ po_sched p1 = po_sched p -> lists_rel true (po_pending p1) pend -> po_queue p1 = po_queue p ->
  index_inv G signer miss (<[a := pend a ++ rest]> (fun b => pend b ++ que b)) (po_all p1) (po_priced p1) ->
  (forall p', pool_inv pend (<[a := filter (fun u => Nonce u <> Nonce t) (que a)]> que) none p' -> po_pending p' = po_pending p1 -> po_all p' = po_all p1 -> frame a p1 p' -> Q tt p') ->
  ends I (remove_queued a t) Q p1.
Proof.
  intros Hp Hr Ht Es [Ec Esc] Hpd Eq Hi HQ. unfold remove_queued. apply ends_bind, ends_get. rewrite Eq. pose proof (pv_queue _ _ _ _ Hp a) as Hqa.
  destruct (po_queue p !! a) as [L|] eqn:EL; [|rewrite Hqa in Ht; by apply not_elem_of_nil in Ht]. destruct Hqa as [HL Hst].
  destruct (tl_Remove_rel range_txs range_txs_perm t L (que a) HL) as (iv & L' & E & Es' & _ & HL'). unfold removes_above in HL'. rewrite Hst in HL'. cbn [andb] in HL'.
  pose proof (sr_ascending _ _ (tr_txs _ _ HL)) as Hs. pose proof (remove_perm _ _ Hs Ht) as Hrm. rewrite Hr in Hrm at 1. apply Permutation_cons_inv in Hrm.
  set (kept := filter (fun u => Nonce u <> Nonce t) (que a)) in *. apply ends_bind. eapply ends_pure; [exact E|]. cbv beta iota.
  assert (forall q' p', po_signer p' = po_signer p1 -> po_config p' = po_config p1 /\ po_sched p' = po_sched p1 -> po_pending p' = po_pending p1 -> po_all p' = po_all p1 -> po_priced p' = po_priced p1 -> po_queue p' = q' -> lists_rel false q' (<[a := kept]> que) -> pool_inv pend (<[a := kept]> que) none p') as Hfin.
  { intros q' p' E1 [E2 E2'] E3 E4 E5 E6 Hq'. eapply (inv_index _ _ _ p); [exact Hp|congruence|split; congruence|by rewrite E3|by rewrite E6|rewrite E4, E5; exact Hi|].
    intros b. unfold none. rewrite app_nil_r. destruct (decide (b = a)) as [->|]; [by rewrite !fn_lookup_insert, Hrm|by rewrite !fn_lookup_insert_ne]. }
  destruct (tl_Empty L') eqn:Ee.
  - apply ends_bind, ends_modify, ends_modify. apply HQ; [|done|done|].
    + apply (Hfin (delete a (po_queue p1))); try done. apply lists_empty_rel in HL' as He. rewrite (proj1 He Ee), Eq. apply lists_delete, Hp.
    + intros b Hb. split; [done|]. cbn. by rewrite lookup_delete_ne.
  - apply ends_modify. apply HQ; [|done|done|].
    + apply (Hfin (<[a := L']> (po_queue p1))); try done. rewrite Eq. apply lists_insert; [apply Hp|done|congruence].
    + intros b Hb. split; [done|]. cbn. by rewrite lookup_insert_ne.
Qed.

(** A transaction that is pending: those after it are queued again. *)
Lemma remove_pending_ok I pend que p p1 a t rest L (Q : unit -> TxPool -> Prop) : pool_inv pend que none p -> tidy (po_pending p) -> po_pending p !! a = Some L -> t ∈ pend a ->
  pend a ++ que a ≡ₚ t :: rest -> only_index p p1 -> index_inv G signer miss (<[a := rest]> (fun b => pend b ++ que b)) (po_all p1) (po_priced p1) ->
  (forall p', pool_ok p' -> po_all p' = po_all p1 -> frame a p1 p' -> Q tt p') ->
  ends I ('((removed, invalids), pending') ← pure (tl_Remove range_txs t L);
    (if (removed : bool) then
      modify (upd_pending (if tl_Empty pending' then delete a else <[a := pending']>));;
      for_each (fun t => _ ← try (enqueueTx ch (tx_id t) t false false); mret tt) invalids;;
      modify (fun p => upd_nonces (nc_setIfLower (GetNonce (po_currentState p)) a (Nonce t)) p)
    else modify (upd_pending <[a := pending']>);; remove_queued a t)) Q p1.
Proof.
  intros Hp Htidy EL Ht Hr Ho Hi HQ. pose proof (pv_pending _ _ _ _ Hp a) as Hpa. rewrite EL in Hpa. destruct Hpa as [HL Hst].
  destruct (tl_Remove_rel range_txs range_txs_perm t L (pend a) HL) as (iv & L' & E & Es' & Hiv & HL'). unfold removes_above in Hiv, HL'. rewrite Hst in Hiv, HL'.
  rewrite bool_decide_true in E, Hiv, HL' by (by apply list_elem_of_fmap_2). cbn [andb] in Hiv, HL'.
  apply ends_bind. eapply ends_pure; [exact E|]. cbv beta iota. apply ends_bind, ends_modify.
  set (kept := filter (fun u => Nonce u < Nonce t) (pend a)) in *. set (pend1 := <[a := kept]> pend).
  set (p2 := upd_pending (if tl_Empty L' then delete a else <[a := L']>) p1).
  assert (lists_rel true (po_pending p2) pend1 /\ tidy (po_pending p2)) as [Hl2 Ht2].
  { destruct (frame_only _ _ Ho) as (E1 & _). cbn. rewrite E1. destruct (tl_Empty L') eqn:Ee.
    - apply lists_empty_rel in HL' as He. unfold pend1. rewrite (proj1 He Ee). split; [apply lists_delete, Hp|by apply tidy_delete].
    - split; [apply lists_insert; [apply Hp|done|congruence]|by apply tidy_insert]. }
  assert (pool_inv pend1 que (apart a iv) p2) as Hp2.
  { destruct (frame_only _ _ Ho) as (_ & E2 & E3 & E4). eapply (inv_index _ _ _ p); [exact Hp|done|done|done|cbn; rewrite E2; apply Hp|exact Hi|].
    intros b. unfold pend1, apart, none. destruct (decide (b = a)) as [->|]; [|rewrite !fn_lookup_insert_ne, app_nil_r by done; done]. rewrite !fn_lookup_insert.
    apply (Permutation_cons_inv (a := t)). rewrite <- Hr, Hiv. pose proof (remove_split _ _ (sr_ascending _ _ (tr_txs _ _ HL)) Ht) as Hsp. fold kept in Hsp.
    set (above := filter (fun u => Nonce t < Nonce u) (pend a)) in *. rewrite Hsp. solve_Permutation. }
  apply ends_bind. destruct (requeue_ok _ _ _ _ _ Hp2) as (que' & p3 & E3 & Hp3 & Ep3 & Ea3 & Hf3).
  eapply ends_eq; [rewrite requeue_invalids; exact E3|]. apply ends_modify, HQ; [|done|].
  - split; [cbn; by rewrite Ep3|]. exists pend1, que'. eapply inv_move; [exact Hp3|done|done|done|done|apply Hp3|apply Hp3|done].
  - intros b Hb. destruct (Hf3 b Hb) as [H1 H2]. cbn in *. rewrite H1, H2. split; [|done]. destruct (tl_Empty L'); [by rewrite lookup_delete_ne|by rewrite lookup_insert_ne].
Qed.

(** A queued transaction goes alone. *)
Lemma removeTx_queued I pend que p a t outofbound (Q : unit -> TxPool -> Prop) : tidy (po_pending p) -> pool_inv pend que none p -> t ∈ que a ->
  (forall p', tidy (po_pending p') -> pool_inv pend (<[a := filter (fun u => Nonce u <> Nonce t) (que a)]> que) none p' -> shrinks p p' -> frame a p p' -> lk_Get (tx_id t) (po_all p') = None -> Q tt p') ->
  ends I (removeTx ch (tx_id t) outofbound) Q p.
Proof.
  intros Htidy Hp Htq HQ. unfold removeTx. apply ends_bind, ends_get. destruct (here _ _ _ _ a t Hp) as (Hacc & Et & _); [rewrite !elem_of_app; auto|]. rewrite Et.
  apply ends_bind. rewrite (pv_signer _ _ _ _ Hp). eapply ends_pure; [exact Hacc|]. pose proof Htq as [r1 Hr1]%elem_of_Permutation.
  apply ends_seq. eapply (forget_index _ _ _ _ a t (pend a ++ r1)); [exact Hp|rewrite Hr1; solve_Permutation|]. intros p1 Ho Hsh Hi Hgone. pose proof (pv_pending _ _ _ _ Hp a) as Hpa.
  pose proof (ix_nonces _ _ _ _ _ _ (pv_index _ _ _ _ Hp) a) as Hn. unfold none in Hn. rewrite app_nil_r, fmap_app in Hn. apply NoDup_app in Hn as (_ & Hdis & _).
  assert (Nonce t ∉ Nonce <$> pend a) as Hni by (intros Hn; apply (Hdis _ Hn); by apply list_elem_of_fmap_2).
  destruct (frame_only _ _ Ho) as (E1 & E2 & E3 & E4).
  assert (forall p' p2, frame a p1 p2 -> frame a p2 p' -> po_all p' = po_all p1 -> shrinks p p' /\ frame a p p' /\ lk_Get (tx_id t) (po_all p') = None) as Hfr.
  { intros p' p2 Hf Hf' Ea. split; [etrans; [exact Hsh|]; intros h u; by rewrite Ea|]. split; [|by rewrite Ea]. intros b Hb. destruct (Hf b Hb), (Hf' b Hb). split; congruence. }
  destruct (po_pending p !! a) as [L|] eqn:EL.
  - destruct Hpa as [HL Hst]. destruct (tl_Remove_rel range_txs range_txs_perm t L (pend a) HL) as (iv & L' & E & Es' & _ & HL'). unfold removes_above in HL'.
    rewrite bool_decide_false in E, HL' by done. rewrite andb_false_r, filter_all in HL'; [|intros u Hu Eu; apply Hni; rewrite <- Eu; by apply list_elem_of_fmap_2].
    apply ends_bind. eapply ends_pure; [exact E|]. cbv beta iota. apply ends_bind, ends_modify.
    assert (tl_Empty L' = false) as Hne. { destruct (tl_Empty L') eqn:Ee; [|done]. apply lists_empty_rel in HL'. apply lists_empty_rel in HL. rewrite (Htidy a L EL) in HL. rewrite Ee in HL'. naive_solver. }
    eapply (remove_queued_ok _ _ _ p); [exact Hp|exact Hr1|done|done|done| |done|exact Hi|].
    + cbn. rewrite E1. eapply lists_ext; [|apply (lists_insert true _ pend a L' (pend a)); [apply Hp|done|congruence]]. intros b. destruct (decide (b = a)) as [->|]; [by rewrite fn_lookup_insert|by rewrite fn_lookup_insert_ne].
    + intros p' Hp' Ep' Ea' Hf. destruct (Hfr p' (upd_pending <[a := L']> p1)) as (? & ? & ?); [intros b Hb; cbn; by rewrite lookup_insert_ne|done|done|].
      apply HQ; [rewrite Ep'; cbn; rewrite E1; by apply tidy_insert|done..].
  - eapply (remove_queued_ok _ _ _ p); [exact Hp|exact Hr1|done|done|done|rewrite E1; apply Hp|done|exact Hi|].
    intros p' Hp' Ep' Ea' Hf. destruct (Hfr p' p1) as (? & ? & ?); [done..|]. apply HQ; [by rewrite Ep', E1|done..].
Qed.

Lemma removeTx_ok I p hash outofbound : pool_ok p ->
  ends I (removeTx ch hash outofbound) (fun _ p' => pool_ok p' /\ shrinks p p' /\ untouched hash p p' /\ lk_Get hash (po_all p') = None) p.
Proof.
  intros [Htidy (pend & que & Hp)]. destruct (lk_Get hash (po_all p)) as [t|] eqn:Et.
  2: { unfold removeTx. apply ends_bind, ends_get. rewrite Et. apply ends_ret. split; [by split; [|exists pend, que]|]. split; [done|]. by split; [intros b|]. }
  destruct (known_genuine _ _ _ _ _ _ _ _ (pv_index _ _ _ _ Hp) Et) as [_ Eid]. destruct (ix_known _ _ _ _ _ _ (pv_index _ _ _ _ Hp) hash t Et) as [a Ha].
  destruct (here _ _ _ _ a t Hp Ha) as (Hacc & _). unfold none in Ha. rewrite app_nil_r in Ha. pose proof Ha as [Htp|Htq]%elem_of_app.
  - unfold removeTx. apply ends_bind, ends_get. rewrite Et. apply ends_bind. rewrite (pv_signer _ _ _ _ Hp). eapply ends_pure; [exact Hacc|].
    apply elem_of_Permutation in Ha as [rest Hr]. apply ends_seq. rewrite <- Eid. eapply forget_index; [exact Hp|exact Hr|]. intros p1 Ho Hsh Hi Hgone.
    pose proof (pv_pending _ _ _ _ Hp a) as Hpa. destruct (po_pending p !! a) as [L|] eqn:EL; [|rewrite Hpa in Htp; by apply not_elem_of_nil in Htp].
    eapply remove_pending_ok; [exact Hp|done|done|done|exact Hr|done|exact Hi|]. intros p' Hok Ea Hf. split; [done|]. split; [etrans; [exact Hsh|]; intros h u; by rewrite Ea|]. split; [|by rewrite Ea].
    rewrite Eid. eapply frame_untouched; [exact Et|done|]. destruct (frame_only _ _ Ho) as (E1 & E2 & _). intros b Hb. destruct (Hf b Hb). split; congruence.
  - rewrite <- Eid. eapply removeTx_queued; [done|exact Hp|done|]. intros p' Ht' Hp' Hsh Hf Hgone. split; [split; [done|by eexists _, _]|]. split; [done|]. split; [|done].
    rewrite Eid. by eapply frame_untouched.
Qed.

(** Removing several; only the lists of their senders change. *)
Lemma remove_all_ok I p outofbound txs : pool_ok p ->
  ends I (remove_all ch outofbound txs) (fun _ p' => pool_ok p' /\ shrinks p p' /\ (forall u, u ∈ txs -> lk_Get (tx_id u) (po_all p') = None) /\
    forall b, (forall u t, u ∈ txs -> lk_Get (tx_id u) (po_all p) = Some t -> account signer t <> Ret b) -> po_pending p' !! b = po_pending p !! b /\ po_queue p' !! b = po_queue p !! b) p.
Proof.
  intros Hp. unfold remove_all.
  eapply ends_mono; [apply (ends_for_each _ _ (fun l s => pool_ok s /\ shrinks p s /\ exists pre, txs = pre ++ l /\ (forall u, u ∈ pre -> lk_Get (tx_id u) (po_all s) = None) /\
    forall b, (forall u t, u ∈ txs -> lk_Get (tx_id u) (po_all p) = Some t -> account signer t <> Ret b) -> po_pending s !! b = po_pending p !! b /\ po_queue s !! b = po_queue p !! b))|].
  - intros x l s (Hs & Hsh & pre & -> & Hpre & Hf). eapply ends_mono; [by apply removeTx_ok|]. intros [] s' (Hs' & Hsh' & Hu & Hgone). split; [done|]. split; [by etrans|].
    exists (pre ++ [x]). split; [by rewrite <- app_assoc|]. split.
    + intros u [Hu'| ->%list_elem_of_singleton]%elem_of_app; [|done]. destruct (lk_Get (tx_id u) (po_all s')) as [t|] eqn:E; [|done]. apply Hsh' in E. by rewrite Hpre in E.
    + intros b Hb. destruct (Hf b Hb) as [<- <-]. apply Hu. intros t Ht. apply (Hb x); [apply elem_of_app; right; apply elem_of_cons; by left|by apply Hsh].
  - split; [done|]. split; [done|]. exists []. split; [done|]. split; [by intros u []%not_elem_of_nil|done].
  - intros [] s' (Hs & Hsh & pre & E & Hpre & Hf). rewrite app_nil_r in E. by subst pre.
Qed.

End PoolOk.
