(* ===== verification/PoolAdd.v ===== *)
(** * Admission keeps the pool consistent

    Validation does not panic; making room evicts remote transactions only as
    far as the pool is consistent again when it is done; a transaction that is
    accepted replaces the one with its nonce, if there is one, in the list it
    is in. *)
From Stdlib Require Import ZArith Lia.
From stdpp Require Import base option gmap functions list sorting.
From S2P Require Import Prelude Errors Rlp Prque Common Transaction Signing PriceNonce TxList TxPool Pool PoolIndex PoolOk.
Open Scope Z_scope.

Section PoolAdd.
Context `{HK : Keccak} `{HS : Secp256k1} `{HRL : RangesLaws}.
Context (G : Transaction -> Prop) (HG : genuine_ok G) (signer : TxSigner) (ch : PoolChain).

Context (Hch : genuine_chain G ch).

#[local] Abbreviation family := (Address -> list Transaction).
#[local] Abbreviation inv := (pool_inv G signer []).
#[local] Abbreviation ok := (pool_ok G signer []).
Implicit Types (pend que loose : family) (p : TxPool) (a b : Address) (t tx : Transaction).

(** ** Validation *)

Lemma From_safe t : G t -> safe (From t).
Proof.
  intros Ht. unfold From. apply safe_bind; [apply (go_chain G HG t Ht)|]. intros c _. by apply (account_safe G HG).
Qed.

Lemma IntrinsicGas_safe data al c h e : safe (IntrinsicGas data al c h e).
Proof.
  unfold IntrinsicGas. apply safe_bind; [|done]. destruct (0 <? length data)%nat; [|done]. destruct (_ <? _); [done|]. by destruct (_ <? _).
Qed.

Lemma validate_basic_safe p t : G t -> safe (validate_basic ch p t).
Proof.
  intros Ht. unfold validate_basic. apply safe_bind; [apply safe_fail_if|intros [] _]. destruct (size_limit_returns G ch Hch) as [limit ->]. cbn [mbind outcome_bind].
  repeat (apply safe_bind; [apply safe_fail_if|intros [] _]). apply safe_on_err. by apply (go_sender G HG).
Qed.

Lemma validate_state_safe p t from local : safe (validate_state ch p t from local).
Proof.
  unfold validate_state. destruct (price_counts_returns G ch Hch) as [priced ->]. cbn [mbind outcome_bind]. repeat (apply safe_bind; [apply safe_fail_if|intros [] _]). apply safe_bind; [apply IntrinsicGas_safe|]. intros g _. apply safe_fail_if.
Qed.

Lemma validateTx_step fuel p t local : G t ->
  (IsPrivacyMarker t = true -> forall u, pc_FetchPrivateTransaction ch (tx_data (t_inner t)) = Some u -> safe (validateTx fuel ch p u local)) -> safe (validateTx (S fuel) ch p t local).
Proof.
  intros Ht Hm. cbn [validateTx]. apply safe_bind; [by apply validate_basic_safe|]. intros from _. apply safe_bind; [|intros [] _; apply validate_state_safe].
  destruct (pc_IsQuorum ch); [|done]. apply safe_bind.
  - destruct (IsPrivacyMarker t); [|done]. destruct (pc_FetchPrivateTransaction ch _) as [u|] eqn:Eu; [|done]. by apply Hm.
  - intros [] _. destruct (gas_enabled_returns G ch Hch) as [enabled ->]. cbn [mbind outcome_bind]. repeat (apply safe_bind; [apply safe_fail_if|intros [] _]). apply safe_bind; [by apply From_safe|]. intros s _. by destruct (pc_CheckAccountPermission _ _ _ _ _ _ _).
Qed.

Lemma validateTx_safe p t local : G t -> safe (validateTx marker_depth ch p t local).
Proof.
  intros Ht. apply validateTx_step; [done|]. intros _ u Eu. destruct (gc_private G ch Hch _ _ Eu) as [HGu Hmu]. apply validateTx_step; [done|]. by rewrite Hmu.
Qed.

(** ** Making room *)

Lemma set_aside p priced' h' drops : ok p -> prices_of priced' h' -> covers (po_all p) (h' ++ drops) -> Forall G (h' ++ drops) -> pool_ok G signer drops (set_index (po_all p) priced' p).
Proof.
  intros [Ht (pend & que & [Hs Hc Hsc Hp Hq [H1 H2 H3 H4 _]])] Hpr Hcv Hg. split; [done|]. exists pend, que. split; try done. split; eauto.
Qed.

Lemma given_up p drops : pool_ok G signer drops p -> (forall u, u ∈ drops -> lk_Get (tx_id u) (po_all p) = None) -> ok p.
Proof.
  intros [Ht (pend & que & [Hs Hc Hsc Hp Hq [H1 H2 H3 H4 (h & Hh & [Hc1 Hc2] & Hg)]])] Hgone. split; [done|]. exists pend, que. split; try done. split; try done.
  apply Forall_app in Hg as [Hg _]. exists h. rewrite app_nil_r. split; [done|]. split; [|done]. split.
  - intros k t Hk. destruct (Hc1 k t Hk) as (u & [Hu|Hu]%elem_of_app & E); [by exists u|]. exfalso. apply Hgone in Hu. rewrite E, (remotes_known _ _ _ H4 Hk) in Hu. done.
  - intros u t Hu. apply Hc2. apply elem_of_app. by left.
Qed.

Lemma ok_priced p : ok p -> exists h, prices_of (po_priced p) h /\ covers (po_all p) h /\ Forall G h.
Proof. intros [_ (pend & que & [_ _ _ _ _ [_ _ _ _ (h & Hh & Hc & Hg)]])]. exists h. by rewrite app_nil_r in Hc, Hg. Qed.

Lemma set_priced_ok p priced' h' : ok p -> prices_of priced' h' -> covers (po_all p) h' -> Forall G h' -> ok (set_index (po_all p) priced' p).
Proof. intros Hp Hh Hc Hg. eapply set_aside; [done|exact Hh|by rewrite app_nil_r|by rewrite app_nil_r]. Qed.

Lemma Forall_subset (h h' : list Transaction) : h' ⊆ h -> Forall G h -> Forall G h'.
Proof. rewrite !Forall_forall. auto. Qed.

(** What was given up is still covered together with the rest. *)
Lemma covers_drops all h h' drops : covers all h -> live all h ≡ₚ drops ++ live all h' -> covers all (h' ++ drops) /\ drops ⊆ h.
Proof.
  intros Hc Hl. assert (drops ⊆ live all h) as Hd by (intros t Ht; rewrite Hl; apply elem_of_app; by left). split.
  - apply (covers_live all h); [|done]. intros t. rewrite Hl, (live_elem all (h' ++ drops)), !elem_of_app, live_elem. split.
    + intros [Ht|[Ht ?]]; [|auto]. split; [auto|]. by apply Hd, live_elem in Ht as [_ ?].
    + intros [[Ht|Ht] Hk]; [right; by split|by left].
  - intros t Ht. by apply Hd, live_elem in Ht as [? _].
Qed.

Lemma slots_count all : (forall k t, lk_Get k all = Some t -> G t) -> lk_ok all -> Z.of_nat (lk_Count all) <= lk_slots all.
Proof.
  intros Hg Hok. rewrite (lo_slots _ Hok).
  assert (forall m : gmap Hash Transaction, (forall t, t ∈ values m -> G t) -> Z.of_nat (size m) <= total_slots (values m)) as Hsum.
  { intros m Hm. rewrite <- length_map_to_list. replace (length (map_to_list m)) with (length (values m)) by (unfold values; by rewrite length_fmap).
    revert Hm. generalize (values m) as l. induction l as [|t l IH]; intros Hm; [done|]. rewrite total_slots_cons. cbn [length].
    pose proof (go_slots G HG t (Hm t ltac:(apply elem_of_cons; by left))). specialize (IH ltac:(intros u Hu; apply Hm, elem_of_cons; by right)). lia. }
  pose proof (Hsum (lk_locals all)) as H1. pose proof (Hsum (lk_remotes all)) as H2. unfold lk_Count. rewrite Nat2Z.inj_add. apply Z.add_le_mono; [apply H1|apply H2].
  - intros t [k Hk]%values_elem. apply (Hg k). unfold lk_Get. by rewrite Hk.
  - intros t [k Hk]%values_elem. apply (Hg k). by apply remotes_known.
Qed.

Lemma ok_slots p : ok p -> Z.of_nat (lk_Count (po_all p)) <= lk_slots (po_all p).
Proof.
  intros [_ (pend & que & Hp)]. apply slots_count; [|apply Hp]. intros k t Hk. by eapply known_genuine; [apply Hp|].
Qed.

(** What is asked of [Discard] is not negative. *)
Lemma room_needed p tx : ok p -> G tx -> capacity p < u64 (Z.of_nat (lk_Count (po_all p)) + numSlots tx) -> 0 <= lk_slots (po_all p) - i64 (capacity p) + numSlots tx.
Proof.
  intros Hp Ht Hfull. pose proof (ok_slots p Hp). pose proof (go_slots G HG tx Ht). pose proof (u64_range (cf_GlobalSlots (po_config p) + cf_GlobalQueue (po_config p))) as Hcap. fold (capacity p) in Hcap.
  assert (u64 (Z.of_nat (lk_Count (po_all p)) + numSlots tx) <= Z.of_nat (lk_Count (po_all p)) + numSlots tx) by (apply Z.mod_le; lia).
  assert (i64 (capacity p) <= capacity p); [|lia]. unfold i64. pose proof (Z.mod_le (capacity p + 2 ^ 63) (2 ^ 64)). lia.
Qed.

Lemma evict_ok p tx isLocal (Q : unit -> TxPool -> Prop) : ok p -> G tx -> capacity p < u64 (Z.of_nat (lk_Count (po_all p)) + numSlots tx) ->
  (forall p', ok p' -> shrinks p p' -> Q tt p') ->
  ends ok ('((drops, success), priced) ← pure (pl_Discard (po_all p) (lk_slots (po_all p) - i64 (capacity p) + numSlots tx) isLocal (po_priced p));
      modify (set_index (po_all p) priced);;
      if negb isLocal && negb (success : bool) then throw ErrTxPoolOverflow else remove_all ch false drops) Q p.
Proof.
  intros Hp Ht Hfull HQ. destruct (ok_priced p Hp) as (h & Hh & Hc & Hg).
  destruct (discards_ok (po_all p) (po_priced p) h _ isLocal Hh Hc (room_needed p tx Hp Ht Hfull)) as (drops & success & P' & h' & E & Hh' & Hsub & Hres).
  apply ends_bind. eapply ends_pure; [exact E|]. cbv beta iota. apply ends_bind, ends_modify. destruct success; rewrite ?andb_false_r; cbn [negb].
  - destruct Hres as (Hl & _ & _). destruct (covers_drops _ _ _ _ Hc Hl) as [Hcd Hds].
    assert (pool_ok G signer drops (set_index (po_all p) P' p)) as Hok by (eapply set_aside; [done|done|done|apply Forall_app; split; by eapply Forall_subset]).
    eapply ends_mono; [by apply (remove_all_ok G HG)|]. intros [] p' (Hp' & Hsh & Hgone & _). apply HQ; [by eapply given_up|done].
  - destruct Hres as (-> & -> & _ & Hc'). cbn. eapply set_priced_ok; [done|exact Hh'|done|by eapply Forall_subset].
Qed.

Lemma make_room_ok p tx isLocal : ok p -> G tx -> ends ok (make_room ch tx isLocal) (fun _ p' => ok p' /\ shrinks p p') p.
Proof.
  intros Hp Ht. unfold make_room. apply ends_bind, ends_get. destruct (Z.ltb_spec (capacity p) (u64 (Z.of_nat (lk_Count (po_all p)) + numSlots tx))) as [Hfull|]; [|by apply ends_ret].
  apply ends_bind. destruct (price_counts_returns G ch Hch) as [counts Ec]. eapply ends_pure; [exact Ec|]. apply ends_bind. destruct (_ && _).
  - destruct (ok_priced p Hp) as (h & Hh & Hc & Hg). destruct (underpriced_ok (po_all p) (po_priced p) h tx Hh Hc) as (b & P' & h' & E & Hh' & Hsub & Hc' & _).
    apply ends_bind. eapply ends_pure; [exact E|]. cbv beta iota. apply ends_bind, ends_modify, ends_ret.
    assert (ok (set_index (po_all p) P' p)) as Hok by (eapply set_priced_ok; [done|done|done|by eapply Forall_subset]). destruct b; [by apply ends_throw|].
    apply ends_bind, ends_get. by apply evict_ok.
  - apply ends_ret, ends_bind, ends_get. by apply evict_ok.
Qed.

(** ** The new transaction *)

Lemma ok_account' t s : G t -> exists a, account s t = Ret a.
Proof. intros Ht. destruct (account_safe G HG t s Ht) as [H1 H2]. destruct (account s t) as [a|e|]; [by exists a|by destruct (H2 e)|done]. Qed.

Lemma ok_account t : G t -> exists a, account signer t = Ret a.
Proof. apply ok_account'. Qed.

Lemma parts_none pend que b : pend b ++ que b ++ none b = pend b ++ que b.
Proof. unfold none. by rewrite app_nil_r. Qed.

Lemma inv_parts pend que p : inv pend que none p -> index_inv G signer [] (fun b => pend b ++ que b) (po_all p) (po_priced p).
Proof. intros Hp. eapply index_perm; [|apply Hp]. intros b. cbv beta. by rewrite parts_none. Qed.

(** The indices after a transaction has come in, with or without one that it
    replaces. *)
Lemma forget_old_ok I ev p a o rest Q : index_inv G signer [] ev (po_all p) (po_priced p) -> (match o with Some t => ev a ≡ₚ t :: rest | None => rest = ev a end) ->
  (forall p', only_index p p' -> shrinks p p' -> index_inv G signer [] (<[a := rest]> ev) (po_all p') (po_priced p') -> Q tt p') -> ends I (forget_old o) Q p.
Proof.
  intros Hi Hr HQ. unfold forget_old. destruct o as [t|].
  - apply ends_bind, ends_modify, ends_modify, HQ; [done|eapply shrinks_remove; [apply Hi|done]|]. cbn. apply (index_removed G HG). by apply index_remove.
  - apply ends_ret, HQ; [done|done|]. eapply index_perm; [|exact Hi]. intros b. subst rest. destruct (decide (b = a)) as [->|]; [by rewrite fn_lookup_insert|by rewrite fn_lookup_insert_ne].
Qed.

(** The list it goes to holds it instead of the old one. *)
Lemma added_perm (l : list Transaction) tx o : ascending l -> NoDup (Nonce <$> l) -> match o with Some t => t ∈ l /\ Nonce t = Nonce tx | None => Nonce tx ∉ Nonce <$> l end ->
  exists l0, insert_tx tx l ≡ₚ tx :: l0 /\ match o with Some t => l ≡ₚ t :: l0 | None => l0 = l end.
Proof.
  intros Hs Hn Ho. destruct o as [t|]; [|exists l; split; [by apply put_new|done]]. destruct Ho as [[l0 Hl]%elem_of_Permutation E]. exists l0. split; [|done]. by eapply put_replaced.
Qed.

Lemma tl_Add_cases tx bump L l : tl_rel L l -> in_range tx -> tl_Add tx bump L = ((false, None), L) \/
  exists old L', tl_Add tx bump L = ((true, old), L') /\ tl_rel L' (insert_tx tx l) /\ tl_strict L' = tl_strict L /\
    match old with Some o => o ∈ l /\ Nonce o = Nonce tx | None => Nonce tx ∉ Nonce <$> l end.
Proof.
  intros HL Ht. destruct (decide (Nonce tx ∈ Nonce <$> l)) as [Hin|Hin].
  - apply list_elem_of_fmap in Hin as (o & En & Ho). destruct (outbids tx bump o) eqn:Eb; [right|left; by eapply tl_Add_refused].
    destruct (tl_Add_accepted tx bump L l (Some o) HL Ht) as (L' & E & HL' & Es); [done|]. by exists (Some o), L'.
  - right. destruct (tl_Add_accepted tx bump L l None HL Ht Hin) as (L' & E & HL' & Es). by exists None, L'.
Qed.

Lemma index_new I pend que p p1 a tx old rest local Q : inv pend que none p -> po_all p1 = po_all p -> po_priced p1 = po_priced p ->
  G tx -> account signer tx = Ret a -> lk_Get (tx_id tx) (po_all p) = None ->
  match old with Some t => pend a ++ que a ≡ₚ t :: rest | None => rest = pend a ++ que a end -> Nonce tx ∉ Nonce <$> rest ->
  (forall p', only_index p1 p' -> index_inv G signer [] (<[a := tx :: rest]> (fun b => pend b ++ que b)) (po_all p') (po_priced p') -> Q tt p') ->
  ends I (forget_old old;; index_Add tx local) Q p1.
Proof.
  intros Hp Ea Epr HGt Hacc Hfresh Hr Hn HQ. apply ends_bind. eapply (forget_old_ok _ (fun b => pend b ++ que b) _ a _ rest).
  { rewrite Ea, Epr. by apply inv_parts. }
  { done. }
  intros p2 Ho Hsh Hi. apply ends_modify, HQ; [by rewrite Ho|]. cbn.
  assert (lk_Get (tx_id tx) (po_all p2) = None) as Hf2. { destruct (lk_Get (tx_id tx) (po_all p2)) as [t|] eqn:E; [|done]. apply Hsh in E. by rewrite Ea, Hfresh in E. }
  pose proof (index_add G HG _ _ _ _ _ tx a local Hi HGt Hacc Hf2) as Hadd. rewrite fn_lookup_insert in Hadd. specialize (Hadd Hn).
  eapply index_perm; [|exact Hadd]. intros b. destruct (decide (b = a)) as [->|]; [by rewrite !fn_lookup_insert|by rewrite !fn_lookup_insert_ne].
Qed.

(** Into the queue. *)
Lemma enqueue_new pend que p a tx local : inv pend que none p -> tidy (po_pending p) -> G tx -> account signer tx = Ret a -> lk_Get (tx_id tx) (po_all p) = None ->
  Nonce tx ∉ Nonce <$> pend a -> ends ok (enqueueTx ch (tx_id tx) tx local true) (fun _ p' => ok p') p.
Proof.
  intros Hp Htidy HGt Hacc Hfresh Hnp. unfold enqueueTx. apply ends_bind, ends_get, ends_bind. rewrite (pv_signer _ _ _ _ _ _ _ Hp). eapply ends_pure; [exact Hacc|].
  destruct (lists_get false _ _ a (pv_queue _ _ _ _ _ _ _ Hp)) as [HL Hst]. set (L := default (newTxList false) (po_queue p !! a)) in *.
  destruct (tl_Add_cases tx (cf_PriceBump (po_config p)) L (que a) HL (go_range G HG tx HGt)) as [E|(old & L' & E & HL' & Es & Hold)]; rewrite E; cbv beta iota zeta; cbn [negb]; apply ends_bind, ends_modify.
  - split; [done|]. exists pend, (<[a := que a]> que). eapply inv_move; [exact Hp|done|done|done|done|apply Hp|apply lists_insert; [apply Hp|done|done]|].
    intros b. destruct (decide (b = a)) as [->|]; [by rewrite fn_lookup_insert|by rewrite fn_lookup_insert_ne].
  - pose proof (ix_nonces _ _ _ _ _ _ (inv_parts _ _ _ Hp) a) as Hn. cbv beta in Hn. rewrite fmap_app in Hn. apply NoDup_app in Hn as (_ & Hdis & Hnq).
    destruct (added_perm (que a) tx old (sr_ascending _ _ (tr_txs _ _ HL)) Hnq Hold) as (l0 & Hins & Hl0). apply ends_seq.
    eapply (index_new _ pend que p _ a tx old (pend a ++ l0)); [done|done|done|done|done|done| | |].
    + destruct old as [o|]; [rewrite Hl0; solve_Permutation|by subst l0].
    + rewrite fmap_app, elem_of_app. intros [?|Hin]; [done|]. destruct old as [o|]; [|by subst l0]. destruct Hold as [_ En]. rewrite Hl0 in Hnq. cbn in Hnq. rewrite En in Hnq. by apply NoDup_cons in Hnq as [? _].
    + intros p' Ho Hi. apply ends_bind, ends_modify, ends_ret. destruct (frame_only _ _ Ho) as (E1 & E2 & E3 & E4). split; [cbn; by rewrite E1|].
      exists pend, (<[a := insert_tx tx (que a)]> que). eapply (inv_index _ _ _ _ _ _ p); [exact Hp|done|done|cbn; rewrite E1; apply Hp|cbn; rewrite E2; cbn; apply lists_insert; [apply Hp|done|congruence]|exact Hi|].
      intros b. rewrite parts_none. destruct (decide (b = a)) as [->|]; [|by rewrite !fn_lookup_insert_ne]. rewrite !fn_lookup_insert, Hins. solve_Permutation.
Qed.

(** In place of a pending one. *)
Lemma ok_fields p p' : ok p -> po_signer p' = po_signer p -> po_config p' = po_config p /\ po_sched p' = po_sched p -> po_all p' = po_all p -> po_priced p' = po_priced p -> po_pending p' = po_pending p -> po_queue p' = po_queue p -> ok p'.
Proof.
  intros [Ht (pend & que & Hp)] E1 E2 E3 E4 E5 E6. split; [by rewrite E5|]. exists pend, que. eapply inv_move; [exact Hp|done..|rewrite E5; apply Hp|rewrite E6; apply Hp|done].
Qed.

(** ** The schedule *)

Lemma launch_ok s : events_ok (rr_queuedEvents (sc_next s)) -> (forall run, sc_running s = Some run -> events_ok (rr_queuedEvents run)) ->
  (sc_launchNextRun s = false -> rr_reset (sc_next s) = None /\ rr_dirtyAccounts (sc_next s) = None) -> sched_ok (launch s).
Proof.
  intros H1 H2 H3. unfold launch. destruct (sc_running s) as [run|] eqn:Er.
  - split; [done|rewrite Er; intros run' [= <-]; by apply H2|by rewrite Er|done].
  - destruct (sc_launchNextRun s) eqn:El.
    + split; cbn; [by intros a m|by intros run [= <-]|done|done].
    + split; [done|by rewrite Er|by rewrite El|intros _; by apply H3].
Qed.

Lemma put_event_ok a t events : events_ok events -> in_range t -> events_ok (put_event a t events).
Proof.
  intros He Ht b m. unfold put_event. intros [[<- <-]|[_ Hm]]%lookup_insert_Some; [|by eapply He]. assert (exists l, sm_rel (default newTxSortedMap (events !! a)) l) as [l Hl].
  - destruct (events !! a) as [m0|] eqn:E; [by eapply He|]. exists []. apply newTxSortedMap_rel.
  - eexists. by apply sm_Put_rel.
Qed.

Lemma on_reset_ok old new s : sched_ok s -> sched_ok (on_reset old new s).
Proof. intros []. by apply launch_ok. Qed.

Lemma on_promote_ok set s : sched_ok s -> sched_ok (on_promote set s).
Proof. intros []. by apply launch_ok. Qed.

Lemma on_event_ok a t s : sched_ok s -> in_range t -> sched_ok (on_event a t s).
Proof. intros [] Ht. apply launch_ok; [by apply put_event_ok|done|done]. Qed.

Lemma on_done_ok s : sched_ok s -> sched_ok (on_done s).
Proof. intros []. by apply launch_ok. Qed.

Lemma ok_sched p f : ok p -> sched_ok (f (po_sched p)) -> ok (upd_sched f p).
Proof. intros [Ht (pend & que & [])] Hf. split; [done|]. exists pend, que. by split. Qed.

Lemma sched_of p : ok p -> sched_ok (po_sched p).
Proof. intros [_ (pend & que & Hp)]. by apply (pv_sched _ _ _ _ _ _ _ Hp). Qed.

Lemma queueTxEvent_ok p t : ok p -> G t -> ends ok (queueTxEvent t) (fun _ => ok) p.
Proof.
  intros Hp Ht. unfold queueTxEvent. apply ends_bind, ends_get, ends_bind. destruct (ok_account' t (po_signer p) Ht) as [a Ea]. eapply ends_pure; [exact Ea|]. apply ends_modify.
  apply ok_sched; [done|]. apply on_event_ok; [by apply sched_of|by apply (go_range G HG)].
Qed.

Lemma replace_pending pend que p a tx L isLocal : inv pend que none p -> tidy (po_pending p) -> G tx -> account signer tx = Ret a -> lk_Get (tx_id tx) (po_all p) = None ->
  po_pending p !! a = Some L -> tl_Overlaps tx L = true ->
  ends ok (let '((inserted, old), list') := tl_Add tx (cf_PriceBump (po_config p)) L in
    modify (upd_pending <[a := list']>);;
    if negb inserted then throw ErrReplaceUnderpriced
    else
      forget_old old;;
      index_Add tx isLocal;;
      queueTxEvent tx;;
      modify (upd_beats <[a := pc_now ch]>);;
      mret (match old with Some _ => true | None => false end)) (fun _ p' => ok p') p.
Proof.
  intros Hp Htidy HGt Hacc Hfresh EL Hov. pose proof (pv_pending _ _ _ _ _ _ _ Hp a) as Hpa. rewrite EL in Hpa. destruct Hpa as [HL Hst].
  assert (Nonce tx ∈ Nonce <$> pend a) as Hin.
  { unfold tl_Overlaps, sm_Get in Hov. pose proof (tr_txs _ _ HL) as [Hs Hi _ _ _]. rewrite Hi in Hov. destruct (contents (pend a) !! Nonce tx) as [o|] eqn:Eo; [|done].
    apply contents_lookup in Eo as [Ho <-]; [|done]. by apply list_elem_of_fmap_2. }
  destruct (tl_Add_cases tx (cf_PriceBump (po_config p)) L (pend a) HL (go_range G HG tx HGt)) as [E|(old & L' & E & HL' & Es & Hold)]; rewrite E; cbv beta iota zeta; cbn [negb]; apply ends_bind, ends_modify.
  - assert (<[a := L]> (po_pending p) = po_pending p) as Esame by (by apply insert_id). split; [cbn; by rewrite Esame|]. exists pend, que.
    eapply inv_move; [exact Hp|done|done|done|done|cbn; rewrite Esame; apply Hp|apply Hp|done].
  - pose proof (ix_nonces _ _ _ _ _ _ (inv_parts _ _ _ Hp) a) as Hn. cbv beta in Hn. rewrite fmap_app in Hn. apply NoDup_app in Hn as (Hnp & Hdis & _).
    destruct (added_perm (pend a) tx old (sr_ascending _ _ (tr_txs _ _ HL)) Hnp Hold) as (l0 & Hins & Hl0). apply ends_seq.
    destruct old as [o|]; [|done]. destruct Hold as [_ En]. eapply (index_new _ pend que p _ a tx (Some o) (l0 ++ que a)); [done|done|done|done|done|done| | |].
    + by rewrite Hl0.
    + rewrite fmap_app, elem_of_app. intros [Hx|Hx]; [|by apply (Hdis _ Hin)]. rewrite Hl0 in Hnp. cbn in Hnp. rewrite En in Hnp. by apply NoDup_cons in Hnp as [? _].
    + intros p' Ho Hi. destruct (frame_only _ _ Ho) as (E1 & E2 & E3 & E4). apply ends_bind. eapply ends_mono; [apply queueTxEvent_ok; [|done]|].
      * assert (tl_Empty L' = false) as Hne. { destruct (tl_Empty L') eqn:Ee; [|done]. apply lists_empty_rel in HL'. apply HL' in Ee. rewrite Ee in Hins. by apply Permutation_nil_cons in Hins. }
        split; [cbn; rewrite E1; by apply tidy_insert|]. exists (<[a := insert_tx tx (pend a)]> pend), que.
        eapply (inv_index _ _ _ _ _ _ p); [exact Hp|done|done|cbn; rewrite E1; cbn; apply lists_insert; [apply Hp|done|congruence]|cbn; rewrite E2; apply Hp|exact Hi|].
        intros b. rewrite parts_none. destruct (decide (b = a)) as [->|]; [|by rewrite !fn_lookup_insert_ne]. by rewrite !fn_lookup_insert, Hins.
      * intros [] p2 Hp2. apply ends_bind, ends_modify, ends_ret. eapply ok_fields; [exact Hp2|done..].
Qed.

Lemma mark_local_ok p a : ok p -> ends ok (mark_local a) (fun _ => ok) p.
Proof.
  intros Hp. unfold mark_local. apply ends_bind, ends_modify, ends_bind, ends_get. assert (ok (upd_locals (as_add a) p)) as Hp1 by (by eapply ok_fields). set (p1 := upd_locals (as_add a) p) in *.
  destruct Hp1 as [Ht (pend & que & Hp1)]. destruct (index_migrate G HG _ _ _ _ _ (po_locals p1) (pv_index _ _ _ _ _ _ _ Hp1)) as (n & all' & E & Hi & _).
  apply ends_bind. eapply ends_pure; [exact E|]. cbv beta iota. apply ends_bind, ends_modify, ends_modify. split; [done|]. exists pend, que.
  eapply (inv_index _ _ _ _ _ _ p1); [exact Hp1|done|done|apply Hp1|apply Hp1|apply (index_removed G HG); exact Hi|done].
Qed.

Lemma add_queued_ok p a tx local isLocal pend que : inv pend que none p -> tidy (po_pending p) -> G tx -> account signer tx = Ret a -> lk_Get (tx_id tx) (po_all p) = None ->
  Nonce tx ∉ Nonce <$> pend a -> ends ok (add_queued ch tx a local isLocal) (fun _ => ok) p.
Proof.
  intros Hp Htidy HGt Hacc Hfresh Hn. unfold add_queued. apply ends_bind. eapply ends_mono; [by eapply enqueue_new|]. intros r p1 Hp1.
  apply ends_bind, ends_get, ends_bind, ends_when; [|by intros _; apply ends_ret]. intros _. eapply ends_mono; [by apply mark_local_ok|]. intros [] p2 Hp2. by apply ends_ret.
Qed.

Lemma add_ok p tx local : ok p -> G tx -> ends ok (add ch tx local) (fun _ => ok) p.
Proof.
  intros Hp HGt. unfold add. apply ends_bind, ends_get. destruct (lk_Get (tx_id tx) (po_all p)) as [u|] eqn:Efresh; [by apply ends_throw|].
  assert (forall k : bool -> M TxPool bool, (forall known, ends ok (k known) (fun _ => ok) p) -> ends ok ((if local then mret true else pure (as_containsTx tx (po_locals p))) ≫= k) (fun _ => ok) p) as Hknown.
  { intros k Hk. apply ends_bind. destruct local; [apply ends_ret, Hk|]. apply ends_checked; [|done|intros b _; apply Hk].
    unfold as_containsTx. pose proof (go_sender G HG tx (as_signer (po_locals p)) HGt). by destruct (Sender (as_signer (po_locals p)) tx).1. }
  apply Hknown. intros known. clear Hknown. apply ends_bind, ends_checked; [by apply validateTx_safe|done|]. intros [] _.
  apply ends_bind. eapply ends_mono; [by apply make_room_ok|]. intros [] p1 [Hp1 Hsh]. apply ends_bind, ends_get.
  assert (lk_Get (tx_id tx) (po_all p1) = None) as Hf1. { destruct (lk_Get (tx_id tx) (po_all p1)) as [t|] eqn:E; [|done]. apply Hsh in E. by rewrite Efresh in E. }
  destruct (ok_account tx HGt) as [a Hacc]. destruct Hp1 as [Htidy (pend & que & Hp1)]. rewrite (pv_signer _ _ _ _ _ _ _ Hp1).
  apply ends_bind. eapply ends_pure; [exact Hacc|]. pose proof (pv_pending _ _ _ _ _ _ _ Hp1 a) as Hpa.
  destruct (po_pending p1 !! a) as [L|] eqn:EL; [|eapply add_queued_ok; [exact Hp1|done|done|done|done|rewrite Hpa; apply not_elem_of_nil]].
  destruct (tl_Overlaps tx L) eqn:Hov; [by eapply replace_pending|]. eapply add_queued_ok; [exact Hp1|done|done|done|done|]. destruct Hpa as [HL _].
  unfold tl_Overlaps, sm_Get in Hov. rewrite (sr_items _ _ (tr_txs _ _ HL)) in Hov. apply contents_None. by destruct (contents (pend a) !! Nonce tx).
Qed.

(** Batches. *)
Lemma add_loop_ok I txs local : forall p errs dirty, ok p -> Forall G txs -> ends I (add_loop ch txs local errs dirty) (fun _ => ok) p.
Proof.
  induction txs as [|tx txs IH]; intros p errs dirty Hp Hg; cbn [add_loop]; [by apply ends_ret|]. apply Forall_cons in Hg as [HGt Hg].
  apply ends_bind. eapply ends_mono; [by apply ends_try, add_ok|]. intros [[|]|e] p1 Hp1; [by apply IH| |by apply IH].
  assert (exists d, as_addTx tx dirty = Ret d) as [d Ed]. { unfold as_addTx. pose proof (go_sender G HG tx (as_signer dirty) HGt). destruct (Sender (as_signer dirty) tx).1; [by eexists..|done]. }
  apply ends_bind. eapply ends_pure; [exact Ed|]. by apply IH.
Qed.

Lemma addTxsLocked_ok I p txs local : ok p -> Forall G txs -> ends I (addTxsLocked ch txs local) (fun _ => ok) p.
Proof. intros Hp Hg. unfold addTxsLocked. apply ends_bind, ends_get. by apply add_loop_ok. Qed.

Lemma filter_known_ok p txs : Forall G txs -> exists errs news, filter_known p txs = Ret (errs, news) /\ Forall G news.
Proof.
  induction txs as [|tx txs IH]; intros Hg; [by exists [], []|]. apply Forall_cons in Hg as [HGt Hg]. destruct (IH Hg) as (errs & news & E & Hn). cbn [filter_known]. rewrite E.
  destruct (lk_Get (tx_id tx) (po_all p)); [by eexists _, _|]. pose proof (go_sender G HG tx (po_signer p) HGt). destruct (Sender (po_signer p) tx).1; [|by eexists _, _|done].
  do 2 eexists. split; [done|]. by constructor.
Qed.

Lemma addTxs_ok I p txs local : ok p -> Forall G txs -> ends I (addTxs ch txs local) (fun _ => ok) p.
Proof.
  intros Hp Hg. unfold addTxs. apply ends_bind, ends_get. destruct (filter_known_ok p txs Hg) as (errs & news & E & Hn). apply ends_bind. eapply ends_pure; [exact E|]. cbv beta iota.
  destruct news as [|t news]; [by apply ends_ret|]. apply ends_bind. eapply ends_mono; [by apply addTxsLocked_ok|]. intros [newErrs dirty] p1 Hp1. apply ends_bind, ends_modify, ends_ret. apply ok_sched; [done|]. by apply on_promote_ok, sched_of.
Qed.

End PoolAdd.
