(* ===== verification/PoolCount.v ===== *)
(** * Counting the transactions of the pool

    [pending] and [queue] are counted list by list.  A family gives the same
    number over any accounts that include those of the map, so that a count
    can be followed through a change of some accounts. *)
From Stdlib Require Import ZArith Lia.
From stdpp Require Import base option gmap functions list.
From S2P Require Import Prelude Errors Rlp Prque Common Transaction Block Signing PriceNonce TxList TxPool PoolHead Pool PoolIndex PoolOk.
Open Scope Z_scope.

Section Counting.
Context `{HRL : RangesLaws}.
#[local] Abbreviation family := (Address -> list Transaction).

Definition total (X : list Address) (g : family) : Z := foldr (fun a n => Z.of_nat (length (g a)) + n) 0 X.

(** Accounts whose lists have the same length. *)
Definition level (n : nat) (X : list Address) (g : family) : Prop := forall a, a ∈ X -> length (g a) = n.

Lemma total_cons a X g : total (a :: X) g = Z.of_nat (length (g a)) + total X g.
Proof. done. Qed.

Lemma total_perm X Y g : X ≡ₚ Y -> total X g = total Y g.
Proof. intros HXY. unfold total. induction HXY; cbn in *; lia. Qed.

Lemma total_app X Y g : total (X ++ Y) g = total X g + total Y g.
Proof. unfold total. induction X; cbn in *; lia. Qed.

Lemma total_same X g g' : (forall a, a ∈ X -> g' a = g a) -> total X g' = total X g.
Proof.
  induction X as [|a X IH]; intros Hs; [done|]. rewrite !total_cons, (Hs a), IH; [done| |apply elem_of_cons; by left].
  intros b Hb. apply Hs, elem_of_cons. by right.
Qed.

Lemma total_level n X g : level n X g -> total X g = Z.of_nat n * zlen X.
Proof.
  induction X as [|a X IH]; intros Hs; [unfold zlen; cbn; lia|]. rewrite zlen_cons, total_cons, (Hs a), IH; [lia| |apply elem_of_cons; by left].
  intros b Hb. apply Hs, elem_of_cons. by right.
Qed.

Lemma elements_part (X Y : gset Address) (l : list Address) : NoDup l -> (forall a, a ∈ l <-> a ∈ Y) -> Y ⊆ X -> elements X ≡ₚ l ++ elements (X ∖ Y).
Proof.
  intros Hnd Hl HY. apply NoDup_Permutation; [apply NoDup_elements| |].
  - apply NoDup_app. split; [done|]. split; [|apply NoDup_elements]. intros a Ha%Hl. rewrite elem_of_elements. set_solver.
  - intros a. rewrite elem_of_app, !elem_of_elements, Hl. destruct (decide (a ∈ Y)); set_solver.
Qed.

Lemma count_total strict m g (X : gset Address) : lists_rel strict m g -> dom m ⊆ X -> count_lists m = total (elements X) g.
Proof.
  intros Hm Hd. rewrite (total_perm _ ((map_to_list m).*1 ++ elements (X ∖ dom m))).
  - rewrite total_app, (total_level 0 (elements _)).
    + rewrite Z.add_0_r. unfold count_lists. assert (forall l : list (Address * txList), (forall al, al ∈ l -> m !! al.1 = Some al.2) -> foldr (fun al n => Z.of_nat (tl_Len al.2) + n) 0 l = total l.*1 g) as Hl.
      { induction l as [|[a L] l IH]; intros Hin; [done|]. cbn [fmap list_fmap fst]. rewrite total_cons. cbn [foldr snd]. rewrite IH by (intros al Hal; apply Hin, elem_of_cons; by right).
        pose proof (Hm a) as Ha. assert (m !! a = Some L) as EL by (apply (Hin (a, L)), elem_of_cons; by left). rewrite EL in Ha. by rewrite (lists_len _ _ (proj1 Ha)). }
      rewrite Hl; [apply total_perm; by rewrite range_lists_perm|]. intros [a L]. rewrite range_lists_perm. by intros ?%elem_of_map_to_list.
    + intros a [_ Ha]%elem_of_elements%elem_of_difference. specialize (Hm a). apply not_elem_of_dom in Ha. rewrite Ha in Hm. by rewrite Hm.
  - apply elements_part; [apply NoDup_fst_map_to_list| |done]. intros a. rewrite elem_of_dom, list_elem_of_fmap. split.
    + intros ([b L] & -> & E%elem_of_map_to_list). by exists L.
    + intros [L E]. exists (a, L). split; [done|]. by apply elem_of_map_to_list.
Qed.

(** What the accounts in [l] have more or less is what the map has more or less. *)
Lemma count_change strict m m' g g' l : lists_rel strict m g -> lists_rel strict m' g' -> NoDup l -> (forall a, a ∉ l -> g' a = g a) ->
  count_lists m' - total l g' = count_lists m - total l g.
Proof.
  intros Hm Hm' Hnd Hsame. set (X := dom m ∪ dom m' ∪ list_to_set l : gset Address).
  rewrite (count_total strict m g X), (count_total strict m' g' X) by (done || set_solver).
  assert (elements X ≡ₚ l ++ elements (X ∖ list_to_set l)) as HX. { apply elements_part; [done| |set_solver]. intros a. by rewrite elem_of_list_to_set. }
  rewrite !(total_perm _ _ _ HX), !total_app, (total_same (elements _) g g'); [lia|].
  intros a [_ Ha]%elem_of_elements%elem_of_difference. apply Hsame. by rewrite elem_of_list_to_set in Ha.
Qed.

(** A round of the reduction: every account in [l] has one less. *)
Lemma count_round strict m m' g g' l n : lists_rel strict m g -> lists_rel strict m' g' -> NoDup l -> (forall a, a ∉ l -> g' a = g a) ->
  level (S n) l g -> level n l g' -> count_lists m' = count_lists m - zlen l.
Proof.
  intros Hm Hm' Hnd Hsame Hl Hl'. pose proof (count_change strict m m' g g' l Hm Hm' Hnd Hsame) as Hc.
  rewrite (total_level _ _ _ Hl), (total_level _ _ _ Hl') in Hc. lia.
Qed.

End Counting.
