(* ===== verification/PoolRuns.v ===== *)
(** * Background runs keep the pool consistent

    Promotion moves transactions from the queue to the pending lists, demotion
    moves them back, truncation forgets some; each run of them leaves a
    consistent pool. *)
From Stdlib Require Import ZArith Lia.
From stdpp Require Import base option gmap functions list sorting.
From S2P Require Import Prelude Errors Rlp Prque Common Transaction Block Signing PriceNonce TxList TxPool PoolHead Pool PoolIndex PoolOk PoolAdd PoolCount.
Open Scope Z_scope.

Section PoolRuns.
Context `{HK : Keccak} `{HS : Secp256k1} `{HRL : RangesLaws}.
Context (G : Transaction -> Prop) (HG : genuine_ok G) (signer : TxSigner) (ch : PoolChain) (Hch : genuine_chain G ch).

(** No run ends with an error: what holds after one is not used. *)
Context (J : TxPool -> Prop).

#[local] Abbreviation family := (Address -> list Transaction).
#[local] Abbreviation inv := (pool_inv G signer []).
#[local] Abbreviation ok := (pool_ok G signer []).
Implicit Types (pend que loose : family) (p : TxPool) (a b : Address) (t tx : Transaction).

(** ** Taking transactions out of a list *)

Lemma queue_out pend que p a L kept out : inv pend que none p -> tl_rel L kept -> tl_strict L = false -> que a ≡ₚ kept ++ out ->
  inv pend (<[a := kept]> que) (apart a out) (upd_queue <[a := L]> p).
Proof.
  intros Hp HL Hst Hperm. eapply inv_move; [exact Hp|done|done|done|done|apply Hp|apply lists_insert; [apply Hp|done|done]|].
  intros b. unfold apart, none. destruct (decide (b = a)) as [->|]; [|by rewrite !fn_lookup_insert_ne]. rewrite !fn_lookup_insert, Hperm. solve_Permutation.
Qed.

Lemma pending_out pend que p a L kept out : inv pend que none p -> tl_rel L kept -> tl_strict L = true -> pend a ≡ₚ kept ++ out ->
  inv (<[a := kept]> pend) que (apart a out) (upd_pending <[a := L]> p).
Proof.
  intros Hp HL Hst Hperm. eapply inv_move; [exact Hp|done|done|done|done|apply lists_insert; [apply Hp|done|done]|apply Hp|].
  intros b. unfold apart, none. destruct (decide (b = a)) as [->|]; [|by rewrite !fn_lookup_insert_ne]. rewrite !fn_lookup_insert, Hperm. solve_Permutation.
Qed.

(** They are forgotten. *)
Lemma forget_apart I pend que p a out (Q : unit -> TxPool -> Prop) : inv pend que (apart a out) p ->
  (forall p', inv pend que none p' -> only_index p p' -> Q tt p') -> ends I (forget_all (Some <$> out)) Q p.
Proof.
  intros Hp HQ. destruct (forget_all_ok G signer [] pend que a [] out _ _ Hp) as (p' & E & Hp' & Ho & _); [by rewrite apart_here, app_nil_r|].
  eapply ends_eq; [exact E|]. apply HQ; [|done]. eapply inv_ext; [exact Hp'|done|done|]. intros b. unfold apart, none.
  destruct (decide (b = a)) as [->|]; [by rewrite fn_lookup_insert|by rewrite !fn_lookup_insert_ne].
Qed.

(** ** Promotion *)

Lemma promote_one pend que p a t l : inv pend que (apart a (t :: l)) p -> tidy (po_pending p) -> exists p',
  promoteTx ch a (tx_id t) t p = (Ret true, p') /\ inv (<[a := insert_tx t (pend a)]> pend) que (apart a l) p' /\ tidy (po_pending p') /\ po_queue p' = po_queue p.
Proof.
  intros Hp Htidy. destruct (here _ _ _ _ _ _ _ a t Hp) as (Ha & Hk & HGt); [rewrite apart_here, !elem_of_app, elem_of_cons; auto|].
  destruct (loose_fresh _ _ _ _ _ _ _ a t l Hp) as [Hni _]; [by rewrite apart_here|]. destruct (lists_get true _ _ a (pv_pending _ _ _ _ _ _ _ Hp)) as [HL Hst].
  destruct (tl_Add_accepted t (cf_PriceBump (po_config p)) _ _ None HL (go_range G HG t HGt) Hni) as (L' & E & HL' & Es).
  unfold promoteTx, get, mbind, M_bind. rewrite E. eexists. split; [reflexivity|]. split; [|split; [|done]].
  - eapply inv_move; [exact Hp|done|done|done|done|cbn; apply lists_insert; [apply Hp|done|congruence]|apply Hp|].
    intros b. unfold apart, none. destruct (decide (b = a)) as [->|]; [|by rewrite !fn_lookup_insert_ne]. rewrite !fn_lookup_insert, put_new by done. solve_Permutation.
  - cbn. apply tidy_insert; [done|]. destruct (tl_Empty L') eqn:Ee; [|done]. apply lists_empty_rel in HL'. apply HL' in Ee. pose proof (put_new t (pend a) Hni) as Hpn. rewrite Ee in Hpn. by apply Permutation_nil_cons in Hpn.
Qed.

Lemma promote_loop_ok I que a l : forall pend p promoted, inv pend que (apart a l) p -> tidy (po_pending p) -> Forall G promoted ->
  ends I (promote_loop ch a (Some <$> l) promoted) (fun r p' => (exists pend', inv pend' que none p') /\ tidy (po_pending p') /\ po_queue p' = po_queue p /\ Forall G r) p.
Proof.
  induction l as [|t l IH]; intros pend p promoted Hp Htidy Hg; cbn [promote_loop fmap list_fmap].
  - apply ends_ret. split; [exists pend|done]. eapply inv_ext; [exact Hp|done|done|]. intros b. by rewrite apart_nil.
  - apply ends_bind. eapply ends_pure; [done|]. destruct (promote_one _ _ _ _ _ _ Hp Htidy) as (p1 & E & Hp1 & Ht1 & Eq1).
    apply ends_bind. eapply ends_eq; [exact E|]. destruct (here _ _ _ _ _ _ _ a t Hp) as (_ & _ & HGt); [rewrite apart_here, !elem_of_app, elem_of_cons; auto|].
    eapply ends_mono; [eapply IH; [done|done|by apply Forall_app; split; [|apply Forall_singleton]]|]. intros r p' (He & Ht & Eq & Hr). by rewrite Eq, Eq1.
Qed.

(** The list after its costly transactions are dropped, if prices count. *)
Lemma filtered_ok (prices : bool) c g L l : tl_rel L l -> tl_strict L = false -> exists drops invalids L' kept,
  (if prices then tl_Filter range_txs c g L else (([], []), L)) = ((drops, invalids), L') /\ tl_rel L' kept /\ tl_strict L' = false /\ l ≡ₚ kept ++ drops.
Proof.
  intros HL Hst. destruct prices; [|exists [], [], L, l; by rewrite app_nil_r]. destruct (tl_Filter_rel range_txs range_txs_perm c g L l HL) as (rm & iv & L' & E & Hrm & _ & HL' & Es).
  rewrite Hst in HL', Es. exists rm, iv, L', (filter (fun t => too_dear c g t = false) l). split_and!; [done|done|done|]. rewrite Hrm, Permutation_app_comm. by rewrite filter_false_perm.
Qed.

Lemma capped_ok (exempt : bool) th L l : tl_rel L l -> 0 <= th -> exists caps L' kept,
  (if exempt then Ret ([], L) else tl_Cap th L) = Ret (Some <$> caps, L') /\ tl_rel L' kept /\ tl_strict L' = tl_strict L /\ l ≡ₚ kept ++ caps.
Proof.
  intros HL Hth. destruct exempt; [exists [], L, l; by rewrite app_nil_r|]. destruct (tl_Cap_rel th L l HL Hth) as (L' & E & HL' & Es).
  exists (reverse (drop (Z.to_nat th) l)), L', (take (Z.to_nat th) l). split_and!; [done|done|done|]. by rewrite reverse_Permutation, take_drop.
Qed.

(** One transaction list of the queue, step by step: what is taken out is
    forgotten or promoted. *)
Lemma queue_forget I pend que p a L kept out l (Q : unit -> TxPool -> Prop) : inv pend (<[a := l]> que) none p -> tl_rel L kept -> tl_strict L = false -> l ≡ₚ kept ++ out ->
  (forall p', inv pend (<[a := kept]> que) none p' -> po_pending p' = po_pending p -> po_queue p' = <[a := L]> (po_queue p) -> Q tt p') ->
  ends I (modify (upd_queue <[a := L]>);; forget_all (Some <$> out)) Q p.
Proof.
  intros Hp HL Hst Hperm HQ. apply ends_bind, ends_modify. eapply forget_apart.
  - eapply (queue_out _ _ _ _ _ _ out); [exact Hp|done|done|by rewrite fn_lookup_insert].
  - intros p' Hp' Ho. destruct (frame_only _ _ Ho) as (E1 & E2 & _). apply HQ; [|done|done]. eapply inv_ext; [exact Hp'|done| |done].
    intros b. destruct (decide (b = a)) as [->|]; [by rewrite !fn_lookup_insert|by rewrite !fn_lookup_insert_ne].
Qed.

Lemma inv_same pend que p a l : inv pend que none p -> que a = l -> inv pend (<[a := l]> que) none p.
Proof. intros Hp <-. eapply inv_ext; [exact Hp|done| |done]. intros b. destruct (decide (b = a)) as [->|]; [by rewrite fn_lookup_insert|by rewrite fn_lookup_insert_ne]. Qed.

Lemma queue_done p a L pend que kept n : inv pend (<[a := kept]> que) none p -> tidy (po_pending p) -> tl_rel L kept -> po_queue p !! a = Some L ->
  ends J (priced_Removed n;; when (tl_Empty L) (modify (upd_queue (delete a));; modify (upd_beats (delete a)))) (fun _ => ok) p.
Proof.
  intros Hp Htidy HL EL. apply ends_bind. destruct (inv_removed G HG _ _ _ _ _ _ n Hp) as (p1 & E & Hp1 & Ho & _). eapply ends_eq; [exact E|]. destruct (frame_only _ _ Ho) as (E1 & E2 & E3 & E4).
  apply ends_when; intros Ee.
  - apply lists_empty_rel in HL. apply HL in Ee. subst kept. apply ends_bind, ends_modify, ends_modify. split; [cbn; by rewrite E1|]. exists pend, (<[a := []]> que).
    eapply inv_move; [exact Hp1|done|done|done|done|apply Hp1| |done]. cbn. eapply lists_ext; [|apply (lists_delete false _ (<[a := []]> que)); apply Hp1].
    intros b. destruct (decide (b = a)) as [->|]; [by rewrite !fn_lookup_insert|by rewrite !fn_lookup_insert_ne].
  - split; [by rewrite E1|]. by exists pend, (<[a := kept]> que).
Qed.

Lemma promote_account_ok p a promoted : ok p -> Forall G promoted -> ends J (promote_account ch a promoted) (fun r p' => ok p' /\ Forall G r) p.
Proof.
  intros [Htidy (pend & que & Hp)] Hg. pose proof (pv_config _ _ _ _ _ _ _ Hp) as [_ Hcap]. unfold promote_account. apply ends_bind, ends_get. pose proof (pv_queue _ _ _ _ _ _ _ Hp a) as Hqa.
  destruct (po_queue p !! a) as [L|] eqn:EL; [|apply ends_ret; split; [split; [done|by exists pend, que]|done]]. destruct Hqa as [HL Hst].
  destruct (tl_Forward_rel (GetNonce (po_currentState p) a) L (que a) HL) as (L1 & E1 & HL1 & Es1). apply ends_bind. eapply ends_pure; [exact E1|]. cbv beta iota. apply ends_seq.
  eapply queue_forget; [by apply inv_same|exact HL1|congruence| |].
  { rewrite (split_threshold (GetNonce (po_currentState p) a) (que a)) at 1 by apply HL. apply Permutation_app_comm. }
  intros p1 Hp1 Et1 _. apply ends_bind. destruct (price_counts_returns G ch Hch) as [counts Ec]. eapply ends_pure; [exact Ec|].
  destruct (filtered_ok counts (GetBalance (po_currentState p) a) (po_currentMaxGas p) L1 _ HL1) as (drops & iv & L2 & k2 & E2 & HL2 & Es2 & Hp2); [congruence|].
  rewrite E2. cbv beta iota. apply ends_seq. eapply queue_forget; [exact Hp1|exact HL2|done|exact Hp2|]. intros p2 Hp2' Et2 _.
  destruct (nc_get (GetNonce (po_currentState p)) a (po_pendingNonces p)) as [start nonces]. cbv beta iota. apply ends_bind, ends_modify.
  destruct (tl_Ready_rel start L2 k2 HL2) as (L3 & E3 & HL3 & Es3). apply ends_bind. eapply ends_pure; [exact E3|]. cbv beta iota. apply ends_bind, ends_modify. apply ends_bind.
  set (n := ready_count start k2) in *. set (p3 := upd_queue <[a := L3]> (upd_nonces (fun _ => nonces) p2)).
  assert (inv pend (<[a := drop n k2]> que) (apart a (take n k2)) p3) as Hp3.
  { eapply inv_ext; [eapply (queue_out _ (<[a := k2]> que) (upd_nonces (fun _ => nonces) p2) a L3 (drop n k2) (take n k2)); [|done|congruence|]|done| |done].
    - eapply inv_move; [exact Hp2'|done|done|done|done|apply Hp2'|apply Hp2'|done].
    - rewrite fn_lookup_insert, Permutation_app_comm. by rewrite take_drop.
    - intros b. destruct (decide (b = a)) as [->|]; [by rewrite !fn_lookup_insert|by rewrite !fn_lookup_insert_ne]. }
  eapply ends_mono; [eapply promote_loop_ok; [exact Hp3|cbn; by rewrite Et2, Et1|exact Hg]|]. intros promoted' p4 ([pend' Hp4] & Ht4 & Eq4 & Hg4). apply ends_bind.
  destruct (capped_ok (as_contains a (po_locals p)) (i64 (cf_AccountQueue (po_config p))) L3 _ HL3) as (caps & L4 & k4 & E4 & HL4 & Es4 & Hperm4); [rewrite i64_small; lia|].
  eapply ends_pure; [exact E4|]. cbv beta iota. apply ends_seq. eapply queue_forget; [exact Hp4|exact HL4|congruence|exact Hperm4|]. intros p5 Hp5 Et5 Eq5.
  apply ends_seq. eapply ends_mono; [eapply queue_done; [exact Hp5|by rewrite Et5|exact HL4|rewrite Eq5; apply lookup_insert_eq]|]. intros [] p6 Hp6. by apply ends_ret.
Qed.

Lemma promoteExecutables_ok accounts : forall p promoted, ok p -> Forall G promoted -> ends J (promoteExecutables ch accounts promoted) (fun r p' => ok p' /\ Forall G r) p.
Proof.
  induction accounts as [|a accounts IH]; intros p promoted Hp Hg; cbn [promoteExecutables]; [by apply ends_ret|].
  apply ends_bind. eapply ends_mono; [by apply promote_account_ok|]. intros r p1 [Hp1 Hr]. by apply IH.
Qed.

(** ** Demotion *)

Lemma strict_parts (f : Transaction -> bool) l : l ≡ₚ prefix_until f l ++ filter f l ++ filter (fun t => f t = false) (drop (length (prefix_until f l)) l).
Proof.
  destruct (prefix_until_prefix f l) as [r Hr]. assert (forall t, t ∈ prefix_until f l -> f t = false) as Hk by (intros t; apply prefix_until_ok).
  revert Hr Hk. generalize (prefix_until f l) as k. intros k -> Hk. rewrite filter_app, (filter_none f k) by (intros t Ht; rewrite (Hk t Ht); intros []).
  cbn [app]. rewrite drop_app_length. by rewrite filter_false_perm.
Qed.

Definition tidy_but a (m : gmap Address txList) : Prop := forall b L, b <> a -> m !! b = Some L -> tl_Empty L = false.

Lemma tidy_but_insert a m L : tidy_but a m -> tidy_but a (<[a := L]> m).
Proof. intros Hm b L' Hb. rewrite lookup_insert_ne by done. by apply Hm. Qed.

Lemma demote_done p a L pend que kept : inv (<[a := kept]> pend) que none p -> tidy_but a (po_pending p) -> tl_rel L kept -> po_pending p !! a = Some L ->
  ends J (when (tl_Empty L) (modify (upd_pending (delete a)))) (fun _ => ok) p.
Proof.
  intros Hp Htidy HL EL. apply ends_when; intros Ee.
  - apply lists_empty_rel in HL. apply HL in Ee. subst kept. apply ends_modify. split; [intros b L' E; cbn in E; apply lookup_delete_Some in E as [Hb E]; by eapply Htidy|].
    exists (<[a := []]> pend), que. eapply inv_move; [exact Hp|done|done|done|done| |apply Hp|done]. cbn. eapply lists_ext; [|apply (lists_delete true _ (<[a := []]> pend)); apply Hp].
    intros b. destruct (decide (b = a)) as [->|]; [by rewrite !fn_lookup_insert|by rewrite !fn_lookup_insert_ne].
  - split; [|by exists (<[a := kept]> pend), que]. intros b L' E. destruct (decide (b = a)) as [->|Hb]; [congruence|by eapply Htidy].
Qed.

Lemma insert_twice (g : family) a l l' b : (<[a := l]> (<[a := l']> g)) b = (<[a := l]> g) b.
Proof. destruct (decide (b = a)) as [->|]; [by rewrite !fn_lookup_insert|by rewrite !fn_lookup_insert_ne]. Qed.

Lemma demote_account_ok p a : ok p -> ends J (demote_account ch a) (fun _ => ok) p.
Proof.
  intros [Htidy (pend & que & Hp)]. unfold demote_account. apply ends_bind, ends_get. pose proof (pv_pending _ _ _ _ _ _ _ Hp a) as Hpa.
  destruct (po_pending p !! a) as [L|] eqn:EL; [|apply ends_ret; split; [done|by exists pend, que]]. destruct Hpa as [HL Hst]. set (nonce := GetNonce (po_currentState p) a).
  destruct (tl_Forward_rel nonce L (pend a) HL) as (L1 & E1 & HL1 & Es1). apply ends_bind. eapply ends_pure; [exact E1|]. cbv beta iota zeta. apply ends_bind, ends_modify, ends_bind.
  set (k1 := filter (fun t => nonce <= Nonce t) (pend a)) in *. eapply forget_apart; [eapply (pending_out _ _ _ a L1 k1); [exact Hp|done|congruence|]|].
  { rewrite (split_threshold nonce (pend a)) at 1 by apply HL. apply Permutation_app_comm. }
  intros p1 Hp1 Ho1. destruct (frame_only _ _ Ho1) as (Ep1 & _). cbn in Ep1.
  destruct (tl_Filter_rel range_txs range_txs_perm (GetBalance (po_currentState p) a) (po_currentMaxGas p) L1 k1 HL1) as (drops & iv & L2 & E2 & Hd & Hi & HL2 & Es2).
  rewrite E2. cbv beta iota. rewrite Es1, Hst in Hi, HL2, Es2. cbn [filter_kept filter_invalid] in Hi, HL2. set (f := too_dear _ _) in *. set (k2 := prefix_until f k1) in *. apply ends_bind, ends_modify, ends_bind.
  assert (inv (<[a := k2]> pend) que (apart a (drops ++ iv)) (upd_pending <[a := L2]> p1)) as Hp2.
  { eapply inv_ext; [eapply (pending_out _ _ p1 a L2 k2 (drops ++ iv)); [exact Hp1|done|congruence|]|intros b; apply insert_twice|done|done].
    rewrite fn_lookup_insert, Hd, Hi. apply (strict_parts f). }
  destruct (forget_all_ok G signer [] _ _ a iv drops _ _ Hp2) as (p3 & E3 & Hp3 & Ho3 & _); [by rewrite apart_here|]. eapply ends_eq; [exact E3|].
  apply ends_bind. destruct (inv_removed G HG _ _ _ _ _ _ (zlen (Some <$> filter (fun t => Nonce t < nonce) (pend a)) + zlen drops) Hp3) as (p4 & E4 & Hp4 & Ho4 & _). eapply ends_eq; [exact E4|].
  apply ends_bind. destruct (requeue_ok G HG signer ch [] (<[a := k2]> pend) a iv que p4) as (que' & p5 & E5 & Hp5 & Ep5 & _).
  { eapply inv_ext; [exact Hp4|done|done|]. intros b. unfold apart. by rewrite insert_twice. }
  eapply ends_eq; [exact E5|]. apply ends_bind. destruct (frame_only _ _ Ho3) as (Ep3 & _), (frame_only _ _ Ho4) as (Ep4 & _). cbn in Ep3.
  destruct (capped_ok (negb ((0 <? tl_Len L2)%nat && match sm_Get nonce (tl_txs L2) with None => true | Some _ => false end)) 0 L2 k2 HL2) as (gapped & L3 & k3 & E6 & HL3 & Es3 & Hperm3); [done|].
  eapply ends_pure; [|]. { rewrite <- E6. by destruct (_ && _). }
  cbv beta iota. apply ends_bind, ends_modify, ends_bind.
  assert (inv (<[a := k3]> pend) que' (apart a gapped) (upd_pending <[a := L3]> p5)) as Hp6.
  { eapply inv_ext; [eapply (pending_out _ _ p5 a L3 k3 gapped); [exact Hp5|done|congruence|by rewrite fn_lookup_insert]|intros b; apply insert_twice|done|done]. }
  destruct (requeue_ok G HG signer ch [] _ a gapped _ _ Hp6) as (que'' & p7 & E7 & Hp7 & Ep7 & _). eapply ends_eq; [exact E7|].
  assert (tidy_but a (po_pending p7)) as Ht7.
  { rewrite Ep7. cbn. apply tidy_but_insert. rewrite Ep5, Ep4, Ep3. apply tidy_but_insert. rewrite Ep1. apply tidy_but_insert. intros b L' _. apply Htidy. }
  eapply demote_done; [exact Hp7|exact Ht7|exact HL3|]. rewrite Ep7. cbn. apply lookup_insert_eq.
Qed.

Lemma for_each_ok {A} (f : A -> M TxPool unit) l p : ok p -> (forall x p, ok p -> ends J (f x) (fun _ => ok) p) -> ends J (for_each f l) (fun _ => ok) p.
Proof. intros Hp Hf. apply (ends_for_each J f (fun _ => ok)); [|done]. intros x _ s Hs. by apply Hf. Qed.

Lemma demoteUnexecutables_ok p : ok p -> ends J (demoteUnexecutables ch) (fun _ => ok) p.
Proof. intros Hp. unfold demoteUnexecutables. apply ends_bind, ends_get. apply for_each_ok; [done|]. intros a p'. apply demote_account_ok. Qed.

(** ** Truncating the pending lists *)

(** What [cap_one] takes out of a list. *)
Lemma drop_capped I pend que a l : forall p (Q : unit -> TxPool -> Prop), inv pend que (apart a l) p ->
  (forall p', inv pend que none p' -> po_pending p' = po_pending p -> po_config p' = po_config p -> Q tt p') ->
  ends I (for_each (fun o => tx ← pure (deref o); lookup_Remove (tx_id tx);; modify (fun p => upd_nonces (nc_setIfLower (GetNonce (po_currentState p)) a (Nonce tx)) p)) (Some <$> l)) Q p.
Proof.
  induction l as [|t l IH]; intros p Q Hp HQ; cbn [for_each fmap list_fmap].
  - apply ends_ret, HQ; [|done|done]. eapply inv_ext; [exact Hp|done|done|]. intros b. by rewrite apart_nil.
  - apply ends_bind, ends_bind. eapply ends_pure; [done|]. destruct (forget_one G signer [] _ _ _ _ a t l Hp) as (p1 & E & Hp1 & Ho & _); [by rewrite apart_here|].
    apply ends_bind. eapply ends_eq; [exact E|]. apply ends_modify. destruct (frame_only _ _ Ho) as (E1 & E2 & E3 & E4 & _). apply IH.
    + eapply inv_ext; [eapply inv_move; [exact Hp1|done|done|done|done|apply Hp1|apply Hp1|done]|done|done|]. intros b. by rewrite apart_rest.
    + intros p' Hp' Ep Ec. apply HQ; [done|by rewrite Ep|by rewrite Ec].
Qed.

Lemma cap_one_ok I pend que p a n (Q : unit -> TxPool -> Prop) : inv pend que none p -> tidy (po_pending p) -> length (pend a) = S (S n) ->
  (forall p', inv (<[a := take (S n) (pend a)]> pend) que none p' -> tidy (po_pending p') -> po_config p' = po_config p -> Q tt p') -> ends I (cap_one a) Q p.
Proof.
  intros Hp Htidy Hlen HQ. unfold cap_one. apply ends_bind, ends_get. pose proof (pv_pending _ _ _ _ _ _ _ Hp a) as Hpa.
  destruct (po_pending p !! a) as [L|] eqn:EL; [|by rewrite Hpa in Hlen]. destruct Hpa as [HL Hst]. apply ends_bind. eapply ends_pure; [done|].
  rewrite (lists_len _ _ HL), Hlen. replace (Z.of_nat (S (S n)) - 1) with (Z.of_nat (S n)) by lia.
  destruct (tl_Cap_rel (Z.of_nat (S n)) L (pend a) HL) as (L' & E & HL' & Es); [lia|]. rewrite Nat2Z.id in E, HL'. apply ends_bind. eapply ends_pure; [exact E|]. cbv beta iota. apply ends_bind, ends_modify, ends_bind.
  assert (length (take (S n) (pend a)) = S n) as Hlen' by (rewrite length_take; lia).
  eapply drop_capped; [eapply (pending_out _ _ _ a L' (take (S n) (pend a))); [exact Hp|done|congruence|]|].
  { by rewrite reverse_Permutation, take_drop. }
  intros p1 Hp1 Ep1 Ec1. destruct (inv_removed G HG _ _ _ _ _ _ (zlen (Some <$> reverse (drop (S n) (pend a)))) Hp1) as (p2 & E2 & Hp2 & Ho2 & _). eapply ends_eq; [exact E2|].
  destruct (frame_only _ _ Ho2) as (F1 & F2 & F3 & F4 & _). apply HQ; [done| |by rewrite F4, Ec1].
  rewrite F1, Ep1. cbn. apply tidy_insert; [done|]. destruct (tl_Empty L') eqn:Ee; [|done]. apply lists_empty_rel in HL'. apply HL' in Ee. by rewrite Ee in Hlen'.
Qed.

(** Some transactions at the end of the offenders' lists are gone. *)
Record truncated (G0 : TxPoolConfig) que (offenders : list Address) pend0 pend p : Prop := {
  tc_inv : inv pend que none p;
  tc_tidy : tidy (po_pending p);
  tc_config : po_config p = G0;
  tc_others b : b ∉ offenders -> pend b = pend0 b;
  tc_prefix b : pend b `prefix_of` pend0 b
}.

Lemma truncated_refl c que offenders pend0 pend p : truncated c que offenders pend0 pend p -> truncated c que offenders pend pend p.
Proof. intros [T1 T2 T3 _ _]. by split. Qed.

Lemma truncated_trans c que offenders pend0 pend pend' p p' : truncated c que offenders pend0 pend p -> truncated c que offenders pend pend' p' -> truncated c que offenders pend0 pend' p'.
Proof. intros T [T1 T2 T3 T4 T5]. split; [done|done|done|intros b Hb; rewrite T4 by done; by apply T|intros b; etrans; [apply T5|apply T]]. Qed.

(** A round takes one transaction from every offender. *)
Lemma cap_round I c que offenders pend p n : truncated c que offenders pend pend p -> NoDup offenders -> level (S (S n)) offenders pend ->
  ends I (for_each cap_one offenders) (fun _ p' => exists pend', truncated c que offenders pend pend' p' /\ level (S n) offenders pend' /\ count_lists (po_pending p') = count_lists (po_pending p) - zlen offenders) p.
Proof.
  intros Ht Hnd Hlv.
  eapply ends_mono; [apply (ends_for_each I cap_one (fun l s => exists pend' pre, offenders = pre ++ l /\ truncated c que offenders pend pend' s /\ level (S n) pre pend' /\ level (S (S n)) l pend'))|].
  - intros a l s (pend' & pre & -> & [Hi Hty Hc Ho Hx] & Hpre & Hl). eapply (cap_one_ok _ _ _ _ _ n); [exact Hi|done|apply Hl, elem_of_cons; by left|].
    intros s' Hi' Hty' Hc'. exists (<[a := take (S n) (pend' a)]> pend'), (pre ++ [a]). split; [by rewrite <- app_assoc|]. apply NoDup_app in Hnd as (_ & Hdis & [Hal _]%NoDup_cons). split; [|split].
    + split; [done|done|congruence| |].
      * intros b Hb. rewrite fn_lookup_insert_ne; [by apply Ho|]. intros ->. apply Hb, elem_of_app. right. apply elem_of_cons. by left.
      * intros b. destruct (decide (b = a)) as [->|]; [rewrite fn_lookup_insert|by rewrite fn_lookup_insert_ne]. etrans; [|apply Hx]. apply prefix_take.
    + intros b [Hb| ->%list_elem_of_singleton]%elem_of_app; [|rewrite fn_lookup_insert, length_take, (Hl a); [lia|apply elem_of_cons; by left]]. rewrite fn_lookup_insert_ne; [by apply Hpre|]. intros ->. apply (Hdis _ Hb), elem_of_cons. by left.
    + intros b Hb. rewrite fn_lookup_insert_ne; [apply Hl, elem_of_cons; by right|]. by intros ->.
  - exists pend, []. split_and!; [done|done|by intros a []%not_elem_of_nil|done].
  - intros [] s (pend' & pre & E & Ht' & Hpre & _). rewrite app_nil_r in E. subst pre. exists pend'. split; [done|]. split; [done|].
    eapply (count_round true _ _ pend pend'); [apply Ht|apply Ht'|done|apply Ht'|done|done].
Qed.

Lemma pending_len_ok pend que p a : inv pend que none p -> pend a <> [] -> pending_len p a = Ret (Z.of_nat (length (pend a))) /\ rounds p a = length (pend a).
Proof.
  intros Hp Hne. pose proof (pv_pending _ _ _ _ _ _ _ Hp a) as Hpa. unfold pending_len, rounds. destruct (po_pending p !! a) as [L|]; [|done]. destruct Hpa as [HL _].
  cbn. by rewrite (lists_len _ _ HL).
Qed.

Lemma level_some n offenders pend a : level (S n) offenders pend -> a ∈ offenders -> pend a <> [].
Proof. intros Hl Ha E. specialize (Hl a Ha). by rewrite E in Hl. Qed.

(** Reducing brings all offenders to the limit, if it does not end before; the
    counter stays exact. *)
Lemma reduce_loop_ok I c que offenders final limit fuel : forall pend p n pending, truncated c que offenders pend pend p -> NoDup offenders -> final ∈ offenders ->
  level (S n) offenders pend -> (S n <= fuel)%nat -> 1 <= limit -> pending = count_lists (po_pending p) ->
  ends I (reduce_loop fuel offenders final limit pending) (fun pending' p' => exists pend' n', truncated c que offenders pend pend' p' /\ level (S n') offenders pend' /\
    (pending' <= cf_GlobalSlots c \/ Z.of_nat (S n') <= limit) /\ (limit <= Z.of_nat (S n) -> limit <= Z.of_nat (S n')) /\ pending' = count_lists (po_pending p')) p.
Proof.
  induction fuel as [|fuel IH]; intros pend p n pending Ht Hnd Hfin Hlv Hf Hlim Hcount; [lia|]. cbn [reduce_loop]. apply ends_bind, ends_get. rewrite (tc_config _ _ _ _ _ _ Ht).
  destruct (Z.ltb_spec (cf_GlobalSlots c) pending) as [Hgt|Hle]; [|apply ends_ret; exists pend, n; split_and!; auto].
  destruct (pending_len_ok _ _ _ final (tc_inv _ _ _ _ _ _ Ht)) as [Elen _]; [by eapply level_some|]. apply ends_bind. eapply ends_pure; [exact Elen|]. rewrite (Hlv final Hfin).
  destruct (Z.ltb_spec limit (Z.of_nat (S n))) as [Hl|Hl]; [|apply ends_ret; exists pend, n; split_and!; auto].
  destruct n as [|n]; [lia|]. apply ends_bind. eapply ends_mono; [by eapply cap_round|]. intros [] p1 (pend1 & Ht1 & Hlv1 & Hc1).
  eapply ends_mono; [eapply (IH pend1 p1 n); [by eapply truncated_refl|done|done|done|lia|done|lia]|]. intros pending' p' (pend' & n' & Ht' & Hlv' & Hend & Hmin & Hc'). exists pend', n'.
  split_and!; [by eapply truncated_trans|done|done| |done]. intros _. apply Hmin. lia.
Qed.

(** The accounts in the priority queue with the lengths of their lists. *)
Record spam_ok c (offenders : list Address) (items : list (pitem Address)) pend : Prop := {
  sp_length x : x ∈ items -> it_priority x = Z.of_nat (length (pend (it_value x)));
  sp_slots x : x ∈ items -> cf_AccountSlots c < it_priority x;
  sp_nodup : NoDup (offenders ++ (it_value <$> items))
}.

Lemma truncated_weaken c que offenders a pend0 pend p : truncated c que offenders pend0 pend p -> truncated c que (offenders ++ [a]) pend0 pend p.
Proof. intros [H1 H2 H3 H4 H5]. split; [done|done|done| |done]. intros b Hb. apply H4. intros Hin. apply Hb, elem_of_app. by left. Qed.

Lemma spam_next c offenders items items' x pend pend' : spam_ok c offenders items pend -> items ≡ₚ x :: items' -> (forall b, b ∉ offenders -> pend' b = pend b) ->
  spam_ok c (offenders ++ [it_value x]) items' pend' /\ pend' (it_value x) = pend (it_value x) /\ it_value x ∉ offenders.
Proof.
  intros [H1 H2 H3] Hp Hsame. rewrite Hp in H3. cbn in H3. assert (forall y, y ∈ items' -> y ∈ items) as Hsub by (intros y Hy; rewrite Hp; apply elem_of_cons; by right).
  apply NoDup_app in H3 as (Hn & Hdis & [Hx Hn']%NoDup_cons).
  assert (forall y, y ∈ items -> it_value y ∉ offenders) as Hout. { intros y Hy Ho. apply (Hdis _ Ho). rewrite Hp in Hy. apply elem_of_cons in Hy as [->|Hy]; apply elem_of_cons; [by left|right; by apply list_elem_of_fmap_2]. }
  assert (x ∈ items) as Hxi by (rewrite Hp; apply elem_of_cons; by left). split; [split|split; [by apply Hsame, Hout|by apply Hout]].
  - intros y Hy. rewrite Hsame by (by apply Hout, Hsub). by apply H1, Hsub.
  - intros y Hy. by apply H2, Hsub.
  - rewrite <- app_assoc. apply NoDup_app. split; [done|]. split; [done|]. by apply NoDup_cons.
Qed.

(** Accounts above their slots, all as long as one another unless the counter
    is within the limit. *)
Record collected c que pend0 (offenders : list Address) (pending : Z) pend p : Prop := {
  cl_truncated : truncated c que offenders pend0 pend p;
  cl_over a : a ∈ offenders -> cf_AccountSlots c < Z.of_nat (length (pend a));
  cl_level : cf_GlobalSlots c < pending -> exists n, level (S n) offenders pend;
  cl_count : pending = count_lists (po_pending p)
}.

(** Another account, as long as the others or after they have been reduced to it. *)
Lemma collected_more c que pend0 offenders pending pend p a n : collected c que pend0 offenders pending pend p -> cf_AccountSlots c < Z.of_nat (length (pend a)) ->
  (cf_GlobalSlots c < pending -> level (S n) (offenders ++ [a]) pend) -> collected c que pend0 (offenders ++ [a]) pending pend p.
Proof.
  intros [T1 T2 _ T4] Ha Hn. split; [by apply truncated_weaken| |intros Hgt; exists n; by apply Hn|done].
  intros b [Hb| ->%list_elem_of_singleton]%elem_of_app; [by apply T2|done].
Qed.

(** From some offenders and further accounts, [all] are those to reduce: all of
    them if the counter is still above the limit. *)
Definition gathered c que pend0 (offenders : list Address) (items : list (pitem Address)) (all : list Address) (pending : Z) p' : Prop :=
  exists pend', collected c que pend0 all pending pend' p' /\ NoDup all /\
    (forall a, a ∈ all -> a ∈ offenders \/ a ∈ it_value <$> items) /\ (forall a, a ∈ offenders -> a ∈ all) /\ (cf_GlobalSlots c < pending -> forall a, a ∈ it_value <$> items -> a ∈ all).

Lemma gathered_more c que pend0 offenders x items items' all pending p' : items ≡ₚ x :: items' -> gathered c que pend0 (offenders ++ [it_value x]) items' all pending p' -> gathered c que pend0 offenders items all pending p'.
Proof.
  intros Hp (pend' & Hc' & Hn' & Hin & Hout & Hall). assert (forall a, a ∈ it_value <$> items <-> a = it_value x \/ a ∈ it_value <$> items') as Hx by (intros a; by rewrite Hp, fmap_cons, elem_of_cons).
  exists pend'. split; [done|]. split; [done|]. split; [|split].
  - intros a [[Ha| ->%list_elem_of_singleton]%elem_of_app|Ha]%Hin; rewrite Hx; auto.
  - intros a Ha. apply Hout, elem_of_app. by left.
  - intros Hgt' a [->|Ha]%Hx; [apply Hout, elem_of_app; right; apply elem_of_cons; by left|by apply Hall].
Qed.

Lemma offenders_loop_ok I c que pend0 fuel : config_ok c -> forall spammers items offenders pending pend p, collected c que pend0 offenders pending pend p -> pq_rel spammers items -> (length items <= fuel)%nat ->
  spam_ok c offenders items pend -> (forall a x, a ∈ offenders -> x ∈ items -> it_priority x <= Z.of_nat (length (pend a))) ->
  ends I (offenders_loop fuel spammers offenders pending) (fun r => gathered c que pend0 offenders items r.1 r.2) p.
Proof.
  intros [Hslots _]. induction fuel as [|fuel IH]; intros spammers items offenders pending pend p Ht Hq Hlen Hsp Hmax; cbn [offenders_loop]; apply ends_bind, ends_get; rewrite (tc_config _ _ _ _ _ _ (cl_truncated _ _ _ _ _ _ _ Ht));
    pose proof (sp_nodup _ _ _ _ Hsp) as Hnd; apply NoDup_app in Hnd as (Hnd & _ & _);
    (destruct (Z.ltb_spec (cf_GlobalSlots c) pending) as [Hgt|Hle]; cbn [andb]; [|apply ends_ret; exists pend; split_and!; [done|done|by left|done|cbn; lia]]);
    (destruct (Prque_Empty spammers) eqn:Ee; cbn [negb]; [apply (Prque_Empty_rel _ _ Hq) in Ee as ->; apply ends_ret; exists pend; split_and!; [done|done|by left|done|by intros _ a []%not_elem_of_nil]|]).
  { exfalso. destruct items; [|cbn in Hlen; lia]. pose proof (proj2 (Prque_Empty_rel _ _ Hq) eq_refl). congruence. }
  destruct (Prque_Pop_rel spammers items Hq) as (x & q' & items' & Epop & Hp & Hq' & Hge).
  { intros ->. pose proof (proj2 (Prque_Empty_rel _ _ Hq) eq_refl). congruence. }
  assert (x ∈ items) as Hxi by (rewrite Hp; apply elem_of_cons; by left). apply ends_bind. eapply ends_pure; [exact Epop|]. cbv beta iota. apply ends_bind.
  assert (length items' <= fuel)%nat as Hlen' by (apply Permutation_length in Hp; cbn in Hp; lia). pose proof (sp_length _ _ _ _ Hsp x Hxi) as Hxl. pose proof (sp_slots _ _ _ _ Hsp x Hxi) as Hxs.
  assert (forall pending' pend1 p1, collected c que pend0 (offenders ++ [it_value x]) pending' pend1 p1 -> spam_ok c (offenders ++ [it_value x]) items' pend1 ->
    (forall a, a ∈ offenders ++ [it_value x] -> it_priority x <= Z.of_nat (length (pend1 a))) -> ends I (offenders_loop fuel q' (offenders ++ [it_value x]) pending') (fun r => gathered c que pend0 offenders items r.1 r.2) p1) as Hrest.
  { intros pending' pend1 p1 Hc1 Hsp1 Hm1. eapply ends_mono; [apply (IH q' items' (offenders ++ [it_value x]) pending' pend1); [done|done|done|done|]|].
    - intros a y Ha Hy. specialize (Hm1 a Ha). specialize (Hge y Hy). lia.
    - intros r p'. by apply gathered_more. }
  destruct (length (pend (it_value x))) as [|k] eqn:Ek; [lia|]. destruct (last offenders) as [prev|] eqn:Eprev.
  - assert (prev ∈ offenders) as Hprev by (apply last_Some in Eprev as [l0 ->]; apply elem_of_app; right; apply elem_of_cons; by left).
    destruct Ht as [Ht Hover Hlv Hcount]. destruct (Hlv Hgt) as [n Hn].
    destruct (pending_len_ok _ _ _ (it_value x) (tc_inv _ _ _ _ _ _ Ht)) as [Et _]; [intros E; by rewrite E in Ek|]. apply ends_bind. eapply ends_pure; [exact Et|].
    destruct (pending_len_ok _ _ _ prev (tc_inv _ _ _ _ _ _ Ht)) as [_ Er]; [by eapply level_some|]. rewrite Er, (Hn prev Hprev).
    eapply ends_mono; [eapply (reduce_loop_ok _ _ _ _ _ _ _ _ _ n); [by eapply truncated_refl|done|done|done|lia|rewrite Ek; lia|done]|].
    intros pending' p1 (pend1 & n1 & Ht1 & Hlv1 & Hend & Hmin & Hc1). destruct (spam_next c offenders items items' x pend pend1 Hsp Hp (tc_others _ _ _ _ _ _ Ht1)) as (Hsp1 & Ex & Hxo).
    pose proof (Hmax prev x Hprev Hxi) as Hmp. rewrite (Hn prev Hprev) in Hmp. rewrite Ek in Hend, Hmin. apply (Hrest pending' pend1); [|done|].
    + apply (collected_more _ _ _ _ _ _ _ _ k); [split; [by eapply truncated_trans| |intros _; by exists n1|done]|rewrite Ex, Ek; lia|].
      * intros a Ha. rewrite (Hlv1 a Ha). lia.
      * intros Hgt'. assert (n1 = k) as -> by lia. intros b [Hb| ->%list_elem_of_singleton]%elem_of_app; [by apply Hlv1|by rewrite Ex].
    + intros a [Ha| ->%list_elem_of_singleton]%elem_of_app; [rewrite (Hlv1 a Ha); lia|rewrite Ex, Ek; lia].
  - apply last_None in Eprev as ->. apply ends_ret. destruct (spam_next c [] items items' x pend pend Hsp Hp) as (Hsp1 & _); [done|].
    apply (Hrest pending pend); [|done|intros a ->%list_elem_of_singleton; rewrite Ek; lia].
    apply (collected_more _ _ _ _ _ _ _ _ k); [done|rewrite Ek; lia|]. intros _. by intros b ->%list_elem_of_singleton.
Qed.

#[local] Abbreviation spams p := (fun al => negb (as_contains al.1 (po_locals p)) && (cf_AccountSlots (po_config p) <? Z.of_nat (tl_Len al.2)) = true).
Definition spam_item (al : Address * txList) : pitem Address := mkItem al.1 (Z.of_nat (tl_Len al.2)).

Lemma spam_order_rel p : pq_rel (spam_order p) (spam_item <$> filter (spams p) (range_lists (po_pending p))).
Proof.
  unfold spam_order. assert (forall l q items, pq_rel q items -> pq_rel (foldl (fun q al => if negb (as_contains al.1 (po_locals p)) && (cf_AccountSlots (po_config p) <? Z.of_nat (tl_Len al.2)) then Prque_Push al.1 (Z.of_nat (tl_Len al.2)) q else q) q l)
    ((spam_item <$> filter (spams p) l) ++ items)) as Hfold.
  { induction l as [|al l IH]; intros q items Hq; [done|]. cbn [foldl]. rewrite filter_cons. destruct (_ && _) eqn:E.
    - rewrite decide_True by done. cbn [fmap list_fmap app]. rewrite Permutation_middle. apply IH. by apply Prque_Push_rel.
    - rewrite decide_False by done. by apply IH. }
  specialize (Hfold (range_lists (po_pending p)) Prque_New [] Prque_New_rel). by rewrite app_nil_r in Hfold.
Qed.

Lemma spam_order_ok pend que p : inv pend que none p -> spam_ok (po_config p) [] (spam_item <$> filter (spams p) (range_lists (po_pending p))) pend.
Proof.
  intros Hp. assert (forall x, x ∈ spam_item <$> filter (spams p) (range_lists (po_pending p)) -> exists a L, x = spam_item (a, L) /\ po_pending p !! a = Some L /\ spams p (a, L)) as Hx.
  { intros x ([a L] & -> & [Hs Hin]%list_elem_of_filter)%list_elem_of_fmap. exists a, L. split; [done|]. rewrite range_lists_perm in Hin. by apply elem_of_map_to_list in Hin. }
  split.
  - intros x (a & L & -> & EL & _)%Hx. pose proof (pv_pending _ _ _ _ _ _ _ Hp a) as Hpa. rewrite EL in Hpa. destruct Hpa as [HL _]. cbn. by rewrite (lists_len _ _ HL).
  - intros x (a & L & -> & _ & Hs)%Hx. apply andb_true_iff in Hs as [_ Hs%Z.ltb_lt]. done.
  - cbn [app]. rewrite <- list_fmap_compose. change (it_value ∘ spam_item) with (fst (A := Address) (B := txList)).
    eapply (sublist_NoDup _ (range_lists (po_pending p)).*1); [rewrite range_lists_perm; apply NoDup_fst_map_to_list|]. apply fmap_sublist, sublist_filter.
Qed.

Lemma spam_order_all pend que p a : inv pend que none p -> a ∈ it_value <$> (spam_item <$> filter (spams p) (range_lists (po_pending p))) <->
  as_contains a (po_locals p) = false /\ cf_AccountSlots (po_config p) < Z.of_nat (length (pend a)).
Proof.
  intros Hp. pose proof (pv_pending _ _ _ _ _ _ _ Hp a) as Hpa. rewrite <- list_fmap_compose. change (it_value ∘ spam_item) with (fst (A := Address) (B := txList)). rewrite list_elem_of_fmap. split.
  - intros ([b L] & -> & [[Hs1 Hs2%Z.ltb_lt]%andb_true_iff Hin]%list_elem_of_filter). cbn [fst snd] in *. rewrite range_lists_perm in Hin. apply elem_of_map_to_list in Hin. rewrite Hin in Hpa.
    rewrite <- (lists_len _ _ (proj1 Hpa)). split; [by apply negb_true_iff|done].
  - intros [Hl Hs]. destruct (po_pending p !! a) as [L|] eqn:EL; [|rewrite Hpa in Hs; pose proof (pv_config _ _ _ _ _ _ _ Hp) as [? _]; cbn in Hs; lia].
    exists (a, L). split; [done|]. apply list_elem_of_filter. cbn [fst snd]. rewrite Hl, (lists_len _ _ (proj1 Hpa)). split; [by apply Z.ltb_lt|]. rewrite range_lists_perm. by apply elem_of_map_to_list.
Qed.

(** What truncating does to the pending transactions: it ends within the limit
    or with no remote account above its slots; accounts lose their last
    transactions, local ones and those within their slots none, and the others
    none of those within their slots. *)
Record pending_limited p pend pend' p' : Prop := {
  pl_limit : count_lists (po_pending p') <= cf_GlobalSlots (po_config p) \/ forall a, as_contains a (po_locals p) = false -> Z.of_nat (length (pend' a)) <= cf_AccountSlots (po_config p);
  pl_prefix a : pend' a `prefix_of` pend a;
  pl_keeps a : as_contains a (po_locals p) = true \/ Z.of_nat (length (pend a)) <= cf_AccountSlots (po_config p) -> pend' a = pend a;
  pl_slots a : cf_AccountSlots (po_config p) < Z.of_nat (length (pend a)) -> cf_AccountSlots (po_config p) <= Z.of_nat (length (pend' a))
}.

Definition spammers_of p pend (l : list Address) : Prop := forall a, a ∈ l -> as_contains a (po_locals p) = false /\ cf_AccountSlots (po_config p) < Z.of_nat (length (pend a)).

Lemma limited_of p pend pend' p' que l : truncated (po_config p) que l pend pend' p' -> spammers_of p pend l -> (forall a, a ∈ l -> cf_AccountSlots (po_config p) <= Z.of_nat (length (pend' a))) ->
  (count_lists (po_pending p') <= cf_GlobalSlots (po_config p) \/ forall a, as_contains a (po_locals p) = false -> Z.of_nat (length (pend' a)) <= cf_AccountSlots (po_config p)) -> pending_limited p pend pend' p'.
Proof.
  intros Ht Hsp Hsl Hlim. split; [done|apply Ht| |].
  - intros a Ha. apply (tc_others _ _ _ _ _ _ Ht). intros [? ?]%Hsp. destruct Ha; [congruence|lia].
  - intros a Ha. destruct (decide (a ∈ l)) as [Hin|Hout]; [by apply Hsl|]. rewrite (tc_others _ _ _ _ _ _ Ht a Hout). lia.
Qed.

Lemma truncatePending_limits pend que p : tidy (po_pending p) -> inv pend que none p ->
  ends J truncatePending (fun _ p' => exists pend', tidy (po_pending p') /\ inv pend' que none p' /\ pending_limited p pend pend' p') p.
Proof.
  intros Htidy Hp. unfold truncatePending. apply ends_bind, ends_get. destruct (Z.leb_spec (count_lists (po_pending p)) (cf_GlobalSlots (po_config p))) as [Hle|Hgt0].
  { apply ends_ret. exists pend. split; [done|]. split; [done|]. split; [by left|done|done|lia]. }
  apply ends_bind. pose proof (pv_config _ _ _ _ _ _ _ Hp) as Hc. pose proof (spam_order_ok _ _ _ Hp) as Hsp.
  eapply ends_mono; [eapply (offenders_loop_ok _ (po_config p) que pend _ Hc _ _ [] _ pend); [|apply spam_order_rel| |exact Hsp|by intros a x []%not_elem_of_nil]|].
  - split; [by split|by intros a []%not_elem_of_nil|intros _; exists 0%nat; by intros a []%not_elem_of_nil|done].
  - by rewrite (Prque_Size_rel _ _ (spam_order_rel p)).
  - intros [offenders pending] p1 (pend1 & [Ht1 Hover Hlv Hcount] & Hnd & Hin & _ & Hall). cbn [fst snd] in *.
    assert (spammers_of p pend offenders) as Hof by (intros a [[]%not_elem_of_nil|Ha]%Hin; by apply (spam_order_all pend que)).
    assert (forall a, as_contains a (po_locals p) = false -> cf_GlobalSlots (po_config p) < pending -> a ∉ offenders -> Z.of_nat (length (pend a)) <= cf_AccountSlots (po_config p)) as Hrest.
    { intros a Hl Hgt Hno. apply Z.le_ngt. intros Hs. apply Hno, Hall; [done|]. by apply (spam_order_all pend que). }
    assert (cf_GlobalSlots (po_config p) < pending \/ pending_limited p pend pend1 p1) as Hdone.
    { destruct (Z.lt_ge_cases (cf_GlobalSlots (po_config p)) pending); [by left|right]. eapply limited_of; [done|done|intros a Ha; specialize (Hover a Ha); lia|left; lia]. }
    destruct (last offenders) as [final|] eqn:Efin.
    2: { apply ends_ret. exists pend1. split; [apply Ht1|]. split; [apply Ht1|]. destruct Hdone as [Hgt|]; [|done]. apply last_None in Efin as ->. eapply limited_of; [done|done|by intros a []%not_elem_of_nil|].
         right. intros a Hl. rewrite (tc_others _ _ _ _ _ _ Ht1) by apply not_elem_of_nil. by apply Hrest; [| |apply not_elem_of_nil]. }
    destruct (Z.ltb_spec (cf_GlobalSlots (po_config p)) pending) as [Hgt|]; [|apply ends_ret; exists pend1; split; [apply Ht1|]; split; [apply Ht1|]; destruct Hdone; [lia|done]].
    assert (final ∈ offenders) as Hfin by (apply last_Some in Efin as [l0 ->]; apply elem_of_app; right; apply elem_of_cons; by left). destruct (Hlv Hgt) as [n Hn].
    apply ends_bind, ends_get, ends_bind. destruct (pending_len_ok _ _ _ final (tc_inv _ _ _ _ _ _ Ht1)) as [_ Er]; [by eapply level_some|]. rewrite Er, (Hn final Hfin).
    eapply ends_mono; [eapply (reduce_loop_ok _ _ _ _ _ _ _ _ _ n); [by eapply truncated_refl|done|done|done|lia| |done]|].
    + rewrite (tc_config _ _ _ _ _ _ Ht1). apply Hc.
    + rewrite (tc_config _ _ _ _ _ _ Ht1). intros pending' p2 (pend2 & n2 & Ht2 & Hl2 & Hend & Hmin & Hc2). apply ends_ret. exists pend2. split; [apply Ht2|]. split; [apply Ht2|].
      pose proof (truncated_trans _ _ _ _ _ _ _ _ Ht1 Ht2) as Ht. assert (forall a, a ∈ offenders -> cf_AccountSlots (po_config p) <= Z.of_nat (length (pend2 a))) as Hmin2.
      { intros a Ha. rewrite (Hl2 a Ha). apply Hmin. specialize (Hover a Ha). rewrite (Hn a Ha) in Hover. lia. }
      eapply limited_of; [done|done|done|]. destruct Hend as [Hend|Hend]; [left; lia|right]. intros a Hl. destruct (decide (a ∈ offenders)) as [Ha|Ha]; [by rewrite (Hl2 a Ha)|].
      rewrite (tc_others _ _ _ _ _ _ Ht a Ha). by apply Hrest.
Qed.

Lemma truncatePending_ok p : ok p -> ends J truncatePending (fun _ => ok) p.
Proof. intros [Htidy (pend & que & Hp)]. eapply ends_mono; [by eapply truncatePending_limits|]. intros [] p' (pend' & Ht' & Hp' & _). split; [done|by exists pend', que]. Qed.

(** ** Truncating the queue, evicting old transactions *)

(** Listing a list only fills its cache. *)
Lemma flatten_queue p a L txs L' : ok p -> po_queue p !! a = Some L -> tl_Flatten range_txs L = (txs, L') -> ok (upd_queue <[a := L']> p) /\ (forall t, t ∈ txs -> account signer t = Ret a /\ lk_Get (tx_id t) (po_all p) = Some t).
Proof.
  intros [Htidy (pend & que & Hp)] EL Ef. pose proof (pv_queue _ _ _ _ _ _ _ Hp a) as Hqa. rewrite EL in Hqa. destruct Hqa as [HL Hst].
  destruct (tl_Flatten_rel range_txs range_txs_perm L (que a) HL) as (L2 & E & HL2 & Es). rewrite E in Ef. injection Ef as <- <-. split.
  - split; [done|]. exists pend, (<[a := que a]> que). eapply inv_ext; [eapply (queue_out _ _ _ a L2 (que a) []); [exact Hp|done|congruence|by rewrite app_nil_r]|done|done|]. intros b. by rewrite apart_nil.
  - intros t Ht. destruct (here _ _ _ _ _ _ _ a t Hp) as (Ha & Hk & _); [rewrite !elem_of_app; auto|]. done.
Qed.

Lemma remove_listed p a txs outofbound (Q : unit -> TxPool -> Prop) : ok p -> (forall t, t ∈ txs -> account signer t = Ret a /\ lk_Get (tx_id t) (po_all p) = Some t) ->
  (forall p', ok p' -> frame a p p' -> Q tt p') -> ends J (remove_all ch outofbound txs) Q p.
Proof.
  intros Hp Htx HQ. eapply ends_mono; [by apply (remove_all_ok G HG)|]. intros [] p' (Hp' & _ & _ & Hf). apply HQ; [done|]. intros b Hb. apply Hf. intros u t Hu Ht.
  destruct (Htx u Hu) as [Ha Hk]. assert (u = t) as -> by congruence. congruence.
Qed.

Lemma flatten_same pend que p a L : inv pend que none p -> po_queue p !! a = Some L ->
  exists L', tl_Flatten range_txs L = (que a, L') /\ tl_Len L' = length (que a) /\ inv pend que none (upd_queue <[a := L']> p).
Proof.
  intros Hp EL. pose proof (pv_queue _ _ _ _ _ _ _ Hp a) as Hqa. rewrite EL in Hqa. destruct Hqa as [HL Hst]. destruct (tl_Flatten_rel range_txs range_txs_perm L (que a) HL) as (L' & E & HL' & Es).
  exists L'. split; [done|]. split; [by apply lists_len|]. eapply inv_ext; [eapply (queue_out _ _ _ a L' (que a) []); [exact Hp|done|congruence|by rewrite app_nil_r]|done| |intros b; by rewrite apart_nil].
  intros b. destruct (decide (b = a)) as [->|]; [by rewrite fn_lookup_insert|by rewrite fn_lookup_insert_ne].
Qed.

(** Removing some queued transactions of an account takes these and no others. *)
Lemma remove_all_queued I a outofbound l : forall pend que p, tidy (po_pending p) -> inv pend que none p -> NoDup l -> (forall t, t ∈ l -> t ∈ que a) ->
  ends I (remove_all ch outofbound l) (fun _ p' => exists que', tidy (po_pending p') /\ inv pend que' none p' /\ frame a p p' /\ (forall b, b <> a -> que' b = que b) /\ (length (que' a) + length l = length (que a))%nat) p.
Proof.
  induction l as [|t l IH]; intros pend que p Htidy Hp Hnd Hin; unfold remove_all; cbn [for_each].
  { apply ends_ret. exists que. split_and!; [done|done|done|done|cbn; lia]. }
  apply NoDup_cons in Hnd as [Htl Hnd]. assert (t ∈ que a) as Ht by (apply Hin, elem_of_cons; by left). apply ends_bind. eapply removeTx_queued; [done|done|exact Hp|exact Ht|]. intros p1 Htidy1 Hp1 _ Hf1 _.
  pose proof (pv_queue _ _ _ _ _ _ _ Hp a) as Hqa. destruct (po_queue p !! a) as [L|]; [|rewrite Hqa in Ht; by apply not_elem_of_nil in Ht]. destruct Hqa as [HL _]. pose proof (sr_ascending _ _ (tr_txs _ _ HL)) as Hs.
  pose proof (remove_perm _ _ Hs Ht) as Hrm. eapply ends_mono; [apply (IH pend _ p1 Htidy1 Hp1 Hnd)|].
  - intros u Hu. rewrite fn_lookup_insert. apply list_elem_of_filter. assert (u ∈ que a) as Hua by (apply Hin, elem_of_cons; by right). split; [|done]. intros E. apply Htl.
    rewrite Hrm in Hua. apply elem_of_cons in Hua as [->|[? _]%list_elem_of_filter]; [done|congruence].
  - intros [] p' (que' & Ht' & Hp' & Hf' & Ho & Hlen). exists que'. split_and!; [done|done| | |].
    + intros b Hb. destruct (Hf1 b Hb), (Hf' b Hb). split; congruence.
    + intros b Hb. rewrite (Ho b Hb). by rewrite fn_lookup_insert_ne.
    + rewrite fn_lookup_insert in Hlen. apply Permutation_length in Hrm. cbn in Hrm |- *. lia.
Qed.

(** What is left of the queue when [drop] transactions of some accounts are to
    go: as many less, or nothing of these accounts. *)
Record queue_limited (addresses : list Address) (drop : Z) que p que' p' : Prop := {
  ql_others b : b ∉ addresses -> que' b = que b;
  ql_count : count_lists (po_queue p) - drop <= count_lists (po_queue p') <= count_lists (po_queue p);
  ql_limit : count_lists (po_queue p') = count_lists (po_queue p) - drop \/ forall a, a ∈ addresses -> que' a = []
}.

Lemma limited_step a addresses drop n que p que1 p1 que2 p2 : a ∉ addresses -> 0 <= n <= drop -> (forall b, b <> a -> que1 b = que b) -> count_lists (po_queue p1) = count_lists (po_queue p) - n ->
  (n = drop \/ que1 a = []) -> queue_limited addresses (drop - n) que1 p1 que2 p2 -> queue_limited (a :: addresses) drop que p que2 p2.
Proof.
  intros Ha Hn Ho Hc He [H1 H2 H3]. split.
  - intros b [Hba Hb]%not_elem_of_cons. rewrite H1 by done. by apply Ho.
  - lia.
  - destruct He as [->|He]; [left; lia|]. destruct H3 as [H3|H3]; [left; lia|right]. intros b [->|Hb]%elem_of_cons; [by rewrite H1|by apply H3].
Qed.

Lemma truncate_loop_limits addresses : forall pend que p d, tidy (po_pending p) -> inv pend que none p -> NoDup addresses.*1 -> (forall a, a ∈ addresses.*1 -> is_Some (po_queue p !! a)) -> 0 <= d ->
  ends J (truncate_loop ch addresses d) (fun _ p' => exists que', tidy (po_pending p') /\ inv pend que' none p' /\ queue_limited addresses.*1 d que p que' p') p.
Proof.
  induction addresses as [|[a beat] addresses IH]; intros pend que p d Htidy Hp Hnd Hq Hd; cbn [truncate_loop].
  { apply ends_ret. exists que. split_and!; [done|done|]. split; [done|lia|]. right. by intros a []%not_elem_of_nil. }
  destruct (Z.ltb_spec 0 d) as [Hpos|Hz]; [|apply ends_ret; exists que; split_and!; [done|done|]; split; [done|lia|left; lia]].
  cbn [fmap list_fmap fst] in *. apply NoDup_cons in Hnd as [Hna Hnd]. apply ends_bind, ends_get, ends_bind. destruct (Hq a) as [L EL]; [apply elem_of_cons; by left|]. rewrite EL. eapply ends_pure; [done|].
  destruct (flatten_same pend que p a L Hp EL) as (L' & -> & Elen & Hp1). cbv beta iota. apply ends_bind, ends_modify. rewrite Elen.
  assert (NoDup (que a)) as Hnq. { pose proof (ix_nonces _ _ _ _ _ _ (pv_index _ _ _ _ _ _ _ Hp) a) as Hn. apply NoDup_fmap_1 in Hn. apply NoDup_app in Hn as (_ & _ & [Hn _]%NoDup_app). done. }
  assert (forall l k n, que a ≡ₚ l ++ k -> n = Z.of_nat (length l) -> n <= d -> (n = d \/ length l = length (que a)) ->
    ends J (remove_all ch true l;; truncate_loop ch addresses (d - n)) (fun _ p' => exists que', tidy (po_pending p') /\ inv pend que' none p' /\ queue_limited (a :: addresses.*1) d que p que' p') (upd_queue <[a := L']> p)) as Hstep.
  { intros l k n Hl -> Hn Hall. rewrite Hl in Hnq. apply NoDup_app in Hnq as (Hnq & _). apply ends_bind. eapply ends_mono; [apply (remove_all_queued _ a true l pend que); [done|done|done|intros t Ht; rewrite Hl; apply elem_of_app; by left]|].
    intros [] p2 (que2 & Ht2 & Hp2 & Hf2 & Ho2 & Hlen2). eapply ends_mono; [apply (IH pend que2 p2); [done|done|done| |lia]|].
    - intros b Hb. assert (b <> a) as Hne by (by intros ->). destruct (Hf2 b Hne) as [_ ->]. cbn. rewrite lookup_insert_ne by done. apply Hq, elem_of_cons. by right.
    - intros [] p3 (que3 & Ht3 & Hp3 & Hlim). exists que3. split; [done|]. split; [done|]. eapply limited_step; [done| |exact Ho2| | |exact Hlim]; [lia| |].
      + pose proof (count_change false (po_queue p) (po_queue p2) que que2 [a] (pv_queue _ _ _ _ _ _ _ Hp) (pv_queue _ _ _ _ _ _ _ Hp2)) as Hch1. rewrite !total_cons in Hch1. cbn [total foldr] in Hch1.
        specialize (Hch1 (NoDup_singleton a)). assert (forall b, b ∉ [a] -> que2 b = que b) as Hb by (intros b Hb; apply Ho2; intros ->; apply Hb, elem_of_cons; by left). specialize (Hch1 Hb). lia.
      + destruct Hall as [?|Hall]; [by left|right]. apply nil_length_inv. lia. }
  destruct (Z.leb_spec (Z.of_nat (length (que a))) d) as [Hle|Hgt]; [apply (Hstep _ []); [by rewrite app_nil_r|done|done|by right]|].
  replace (truncate_loop ch addresses 0) with (truncate_loop ch addresses (d - d)) by (f_equal; lia). assert (length (take (Z.to_nat d) (reverse (que a))) = Z.to_nat d) as El by (rewrite length_take, length_reverse; lia).
  apply (Hstep _ (drop (Z.to_nat d) (reverse (que a)))); [|lia|lia|by left]. rewrite take_drop. by rewrite reverse_Permutation.
Qed.

Lemma truncateQueue_limits pend que p : tidy (po_pending p) -> inv pend que none p ->
  ends J (truncateQueue ch) (fun _ p' => exists que', tidy (po_pending p') /\ inv pend que' none p' /\ (forall a, as_contains a (po_locals p) = true -> que' a = que a) /\
    (count_lists (po_queue p') = Z.min (count_lists (po_queue p)) (cf_GlobalQueue (po_config p)) \/ forall a, as_contains a (po_locals p) = false -> que' a = [])) p.
Proof.
  intros Htidy Hp. unfold truncateQueue. apply ends_bind, ends_get. destruct (Z.leb_spec (count_lists (po_queue p)) (cf_GlobalQueue (po_config p))) as [Hle|Hgt]; [apply ends_ret; exists que; split_and!; [done|done|done|left; lia]|].
  set (addresses := (fun al : Address * txList => (al.1, default 0 (po_beats p !! al.1))) <$> filter (fun al => as_contains al.1 (po_locals p) = false) (range_lists (po_queue p))).
  assert ((reverse (merge_sort by_heartbeat addresses)).*1 ≡ₚ (filter (fun al => as_contains al.1 (po_locals p) = false) (range_lists (po_queue p))).*1) as Hperm.
  { rewrite reverse_Permutation, merge_sort_Permutation. unfold addresses. by rewrite <- list_fmap_compose. }
  assert (forall a, a ∈ (reverse (merge_sort by_heartbeat addresses)).*1 <-> as_contains a (po_locals p) = false /\ is_Some (po_queue p !! a)) as Hin.
  { intros a. rewrite Hperm, list_elem_of_fmap. split.
    - intros ([b L] & -> & [Hl Hin]%list_elem_of_filter). rewrite range_lists_perm in Hin. apply elem_of_map_to_list in Hin. by split; [|exists L].
    - intros [Hl [L EL]]. exists (a, L). split; [done|]. apply list_elem_of_filter. split; [done|]. rewrite range_lists_perm. by apply elem_of_map_to_list. }
  eapply ends_mono; [apply (truncate_loop_limits _ pend que p); [done|done| |by intros a [_ ?]%Hin|lia]|].
  - rewrite Hperm. eapply (sublist_NoDup _ (range_lists (po_queue p)).*1); [rewrite range_lists_perm; apply NoDup_fst_map_to_list|]. apply fmap_sublist, sublist_filter.
  - intros [] p' (que' & Ht' & Hp' & [H1 H2 H3]). exists que'. split; [done|]. split; [done|]. split.
    + intros a Ha. apply H1. intros [Hf _]%Hin. congruence.
    + destruct H3 as [H3|H3]; [left; lia|right]. intros a Ha. destruct (po_queue p !! a) as [L|] eqn:EL; [apply H3, Hin; by rewrite EL|].
      rewrite H1 by (intros [_ [? ?]]%Hin; congruence). pose proof (pv_queue _ _ _ _ _ _ _ Hp a) as Hqa. by rewrite EL in Hqa.
Qed.

Lemma truncateQueue_ok p : ok p -> ends J (truncateQueue ch) (fun _ => ok) p.
Proof. intros [Htidy (pend & que & Hp)]. eapply ends_mono; [by eapply truncateQueue_limits|]. intros [] p' (que' & Ht' & Hp' & _). split; [done|by exists pend, que']. Qed.

Lemma evict_account_ok p a : ok p -> ends J (evict_account ch a) (fun _ => ok) p.
Proof.
  intros Hp. unfold evict_account. apply ends_bind, ends_get. destruct (po_queue p !! a) as [L|] eqn:EL; [|by apply ends_ret]. destruct (as_contains _ _); [by apply ends_ret|].
  destruct (_ <? _); [|by apply ends_ret]. destruct (tl_Flatten range_txs L) as [txs L'] eqn:Ef. destruct (flatten_queue p a L txs L' Hp EL Ef) as [Hp1 Htx].
  apply ends_bind, ends_modify. by eapply remove_listed.
Qed.

Lemma eviction_ok p : ok p -> ends J (evict ch) (fun _ => ok) p.
Proof. intros Hp. unfold evict. apply ends_bind, ends_get. apply for_each_ok; [done|]. intros a s. apply evict_account_ok. Qed.

(** ** The price limit *)

Lemma SetGasPrice_ok p price : ok p -> ends J (SetGasPrice ch price) (fun _ => ok) p.
Proof.
  intros Hp. unfold SetGasPrice. apply ends_bind. destruct (price_counts_returns G ch Hch) as [counts Ec]. eapply ends_pure; [exact Ec|]. destruct counts; cbn [negb]; [|by apply ends_ret]. apply ends_bind, ends_modify, ends_bind, ends_get, ends_bind.
  assert (ok (set_gasPrice price p)) as Hp1 by (eapply ok_fields; [exact Hp|done..]). destruct (ok_priced _ _ _ Hp1) as (h & Hh & Hc & Hg).
  destruct (cap_ok (po_all (set_gasPrice price p)) (po_priced (set_gasPrice price p)) h price Hh) as (drops & P' & h' & E & Hh' & Hsub & Hl & _). eapply ends_pure; [exact E|].
  cbv beta iota. apply ends_bind, ends_modify. destruct (covers_drops _ _ _ _ Hc Hl) as [Hcd Hds].
  eapply ends_mono; [apply (remove_all_ok G HG signer ch drops); eapply set_aside; [done|exact Hh'|done|apply Forall_app; split; by eapply Forall_subset]|].
  intros [] p' (Hp' & _ & Hgone & _). by eapply given_up.
Qed.

(** ** The last nonces *)

(** They are only read: the lists stay what they are. *)
Lemma update_nonce_same I pend que p a : tidy (po_pending p) -> inv pend que none p -> pend a <> [] -> ends I (update_nonce a) (fun _ p' => tidy (po_pending p') /\ inv pend que none p') p.
Proof.
  intros Htidy Hp Hne. unfold update_nonce. apply ends_bind, ends_get, ends_bind. pose proof (pv_pending _ _ _ _ _ _ _ Hp a) as Hpa. destruct (po_pending p !! a) as [L|] eqn:EL; [|done].
  eapply ends_pure; [done|]. apply ends_bind. destruct Hpa as [HL Hst]. destruct (last (pend a)) as [t|] eqn:Et; [|by apply last_None in Et].
  destruct (tl_LastElement_rel range_txs range_txs_perm L (pend a) t HL Et) as (L' & E & HL' & Es). eapply ends_pure; [exact E|]. cbv beta iota. apply ends_bind, ends_modify, ends_modify. split.
  - cbn. apply tidy_insert; [done|]. destruct (tl_Empty L') eqn:Ee; [|done]. by apply (lists_empty_rel L' _ HL') in Ee.
  - assert (inv pend que none (upd_pending <[a := L']> p)) as Hp1.
    { eapply inv_ext; [eapply (pending_out _ _ _ a L' (pend a) []); [exact Hp|done|congruence|by rewrite app_nil_r]| |done|intros b; by rewrite apart_nil].
      intros b. destruct (decide (b = a)) as [->|]; [by rewrite fn_lookup_insert|by rewrite fn_lookup_insert_ne]. }
    destruct Hp1. by split.
Qed.

Lemma update_nonces_same I pend que p : tidy (po_pending p) -> inv pend que none p ->
  ends I (for_each update_nonce (range_lists (po_pending p)).*1) (fun _ p' => tidy (po_pending p') /\ inv pend que none p') p.
Proof.
  intros Htidy Hp. eapply ends_mono; [apply (ends_for_each _ _ (fun l s => (tidy (po_pending s) /\ inv pend que none s) /\ forall a, a ∈ l -> pend a <> []))|]; [|split; [done|]|by intros [] s [? _]].
  - intros a l s [[Ht Hs] Ha]. eapply ends_mono; [eapply update_nonce_same; [done|done|apply Ha, elem_of_cons; by left]|]. intros [] s' Hs'. split; [done|]. intros b Hb. apply Ha, elem_of_cons. by right.
  - intros a ([b L] & -> & Hin)%list_elem_of_fmap. rewrite range_lists_perm in Hin. apply elem_of_map_to_list in Hin. pose proof (pv_pending _ _ _ _ _ _ _ Hp b) as Hpb. rewrite Hin in Hpb. cbn. intros E.
    apply (lists_empty_rel _ _ (proj1 Hpb)) in E. by rewrite (Htidy b L Hin) in E.
Qed.

(** ** The limits after a run *)

(** [truncatePending] and what follows it changes neither the settings nor the
    local accounts. *)
Definition fixed p : TxPoolConfig * accountSet := (po_config p, po_locals p).

Definition keeps {A} (m : M TxPool A) : Prop := forall p, fixed (m p).2 = fixed p.

Lemma keeps_bind {A B} (m : M TxPool A) (k : A -> M TxPool B) : keeps m -> (forall x, keeps (k x)) -> keeps (m ≫= k).
Proof. intros Hm Hk p. unfold mbind, M_bind. specialize (Hm p). destruct (m p) as [[x|e|] p1]; [|done|done]. by rewrite Hk. Qed.

Lemma keeps_for_each {A} (f : A -> M TxPool unit) l : (forall x, keeps (f x)) -> keeps (for_each f l).
Proof. intros Hf. induction l as [|x l IH]; [done|]. by apply keeps_bind. Qed.

Lemma keeps_try {A} (m : M TxPool A) : keeps m -> keeps (try m).
Proof. intros Hm p. unfold try. specialize (Hm p). by destruct (m p) as [[x|e|] p1]. Qed.

Ltac keeps :=
  repeat match goal with
  | |- keeps (mbind _ _) => apply keeps_bind; [|intros ?]
  | |- keeps (for_each _ _) => apply keeps_for_each; intros ?
  | |- keeps (try _) => apply keeps_try
  | |- keeps (match ?x with _ => _ end) => destruct x
  | |- keeps _ => progress cbv beta zeta
  | |- keeps _ => intros ?p; reflexivity
  end.

Lemma keeps_cap_one a : keeps (cap_one a).
Proof. unfold cap_one. keeps. Qed.

Lemma keeps_reduce_loop offenders final limit fuel : forall pending, keeps (reduce_loop fuel offenders final limit pending).
Proof. induction fuel as [|fuel IH]; intros pending; cbn [reduce_loop]; keeps; first [apply keeps_cap_one|apply IH]. Qed.

Lemma keeps_offenders_loop fuel : forall spammers offenders pending, keeps (offenders_loop fuel spammers offenders pending).
Proof. induction fuel as [|fuel IH]; intros spammers offenders pending; cbn [offenders_loop]; keeps; first [apply keeps_reduce_loop|apply IH]. Qed.

Lemma keeps_truncatePending : keeps truncatePending.
Proof. unfold truncatePending. keeps; first [apply keeps_offenders_loop|apply keeps_reduce_loop]. Qed.

Lemma keeps_forget_old old : keeps (forget_old old).
Proof. unfold forget_old. keeps. Qed.

Lemma keeps_enqueueTx hash tx local addAll : keeps (enqueueTx ch hash tx local addAll).
Proof. unfold enqueueTx, when. keeps; apply keeps_forget_old. Qed.

Lemma keeps_remove_all outofbound txs : keeps (remove_all ch outofbound txs).
Proof. unfold remove_all, removeTx, remove_queued, when. keeps; apply keeps_enqueueTx. Qed.

Lemma keeps_truncate_loop addresses : forall d, keeps (truncate_loop ch addresses d).
Proof. induction addresses as [|[a beat] addresses IH]; intros d; cbn [truncate_loop]; keeps; (apply keeps_remove_all || apply IH). Qed.

Lemma keeps_truncateQueue : keeps (truncateQueue ch).
Proof. unfold truncateQueue. keeps. apply keeps_truncate_loop. Qed.

Lemma keeps_update_nonces l : keeps (for_each update_nonce l).
Proof. unfold update_nonce. keeps. Qed.

Lemma ends_keeps {A} (m : M TxPool A) Q p : keeps m -> ends J m Q p -> ends J m (fun x p' => Q x p' /\ fixed p' = fixed p) p.
Proof. intros Hk. unfold ends. specialize (Hk p). destruct (m p) as [[x|e|] p']; cbn in Hk; [by split|done|done]. Qed.

(** The pool is within its limits: as many pending transactions as allowed, or
    no remote account with more than its slots; as many queued ones as allowed,
    or none of remote accounts. *)
Definition within_limits p : Prop :=
  (count_lists (po_pending p) <= cf_GlobalSlots (po_config p) \/ forall a, as_contains a (po_locals p) = false -> Z.of_nat (rounds p a) <= cf_AccountSlots (po_config p)) /\
  (count_lists (po_queue p) <= cf_GlobalQueue (po_config p) \/ forall a L, as_contains a (po_locals p) = false -> po_queue p !! a = Some L -> tl_Len L = 0%nat).

Lemma count_family strict m m' g : lists_rel strict m g -> lists_rel strict m' g -> count_lists m' = count_lists m.
Proof. intros Hm Hm'. pose proof (count_change strict m m' g g [] Hm Hm') as Hc. cbn in Hc. specialize (Hc (NoDup_nil_2)). specialize (Hc (fun _ _ => eq_refl)). lia. Qed.

Lemma limits_of pend que p : inv pend que none p ->
  (count_lists (po_pending p) <= cf_GlobalSlots (po_config p) \/ forall a, as_contains a (po_locals p) = false -> Z.of_nat (length (pend a)) <= cf_AccountSlots (po_config p)) ->
  (count_lists (po_queue p) <= cf_GlobalQueue (po_config p) \/ forall a, as_contains a (po_locals p) = false -> que a = []) -> within_limits p.
Proof.
  intros Hp H1 H2. split.
  - destruct H1 as [H1|H1]; [by left|right]. intros a Ha. pose proof (pv_pending _ _ _ _ _ _ _ Hp a) as Hpa. specialize (H1 a Ha). unfold rounds.
    destruct (po_pending p !! a) as [L|]; [by rewrite (lists_len _ _ (proj1 Hpa))|]. pose proof (pv_config _ _ _ _ _ _ _ Hp) as [? _]. lia.
  - destruct H2 as [H2|H2]; [by left|right]. intros a L Ha EL. pose proof (pv_queue _ _ _ _ _ _ _ Hp a) as Hqa. rewrite EL in Hqa. by rewrite (lists_len _ _ (proj1 Hqa)), (H2 a Ha).
Qed.

Lemma trim_ok {A} p (k : M TxPool A) Q : ok p -> (forall p', ok p' -> within_limits p' -> ends J k Q p') ->
  ends J (truncatePending;; truncateQueue ch;; p ← get; for_each update_nonce (range_lists (po_pending p)).*1;; k) Q p.
Proof.
  intros [Htidy (pend & que & Hp)] HQ. apply ends_bind. eapply ends_mono; [apply ends_keeps; [apply keeps_truncatePending|by eapply truncatePending_limits]|].
  intros [] p1 [(pend1 & Ht1 & Hp1 & [Hl _ _ _]) [= Ec1 El1]]. apply ends_bind. eapply ends_mono; [apply ends_keeps; [apply keeps_truncateQueue|by eapply truncateQueue_limits]|].
  intros [] p2 [(que2 & Ht2 & Hp2 & _ & Hq) [= Ec2 El2]]. apply ends_bind, ends_get, ends_bind. eapply ends_mono; [apply ends_keeps; [apply keeps_update_nonces|by eapply update_nonces_same]|].
  intros [] p3 [[Ht3 Hp3] [= Ec3 El3]]. apply HQ; [split; [done|by exists pend1, que2]|].
  pose proof (count_family _ _ _ _ (pv_pending _ _ _ _ _ _ _ Hp1) (pv_pending _ _ _ _ _ _ _ Hp3)) as Hcp. pose proof (count_family _ _ _ _ (pv_queue _ _ _ _ _ _ _ Hp2) (pv_queue _ _ _ _ _ _ _ Hp3)) as Hcq.
  apply (limits_of pend1 que2 p3 Hp3); rewrite Ec3, El3, Ec2, El2.
  - rewrite Ec1, El1, Hcp. done.
  - destruct Hq as [Hq|Hq]; [left; lia|by right].
Qed.

(** ** A reset and a whole run *)

(** The heads of a reset: the old one has a number, the new one is a block of
    the chain. *)
Definition heads_known (reset : option (option Header * option Header)) : Prop :=
  forall old new, reset = Some (old, new) -> (forall h, old = Some h -> numbered h) /\ exists h n blk, new = Some h /\ hdr_Number h = Some n /\ pc_GetBlock ch (Header_Hash h) (u64 n) = Some blk.

Lemma pool_reset_ok p old new : ok p -> (exists txs, reinject_of (pc_GetBlock ch) old new = Ret txs /\ match txs with Some txs => Forall G txs | None => True end) ->
  (forall h, new = Some h -> numbered h) -> ends J (pool_reset ch old new) (fun _ => ok) p.
Proof.
  intros Hp (txs & E & Hg) Hn. unfold pool_reset. apply ends_bind. eapply ends_pure; [exact E|]. destruct txs as [txs|]; [|by apply ends_ret]. destruct (pc_StateAt ch _) as [st|]; [|by apply ends_ret].
  apply ends_bind, ends_modify, ends_bind. eapply ends_mono; [apply (addTxsLocked_ok G HG signer ch Hch); [|done]|].
  - eapply ok_fields; [exact Hp|done..].
  - intros r p1 Hp1. apply ends_bind. assert (numbered (default (bl_header (pc_CurrentBlock ch)) new)) as [n En] by (destruct new as [h|]; [by apply Hn|apply (gc_current G ch Hch)]).
    rewrite En. eapply ends_pure; [done|]. apply ends_modify. eapply ok_fields; [exact Hp1|done..].
Qed.

Lemma first_reset_ok p h : ok p -> numbered h -> ends J (pool_reset ch None (Some h)) (fun _ => ok) p.
Proof. intros Hp Hh. apply pool_reset_ok; [done|exists (Some []); by split|]. by intros h' [= <-]. Qed.

Lemma stale_events_ok addrs : forall p events, ok p -> events_ok events -> NoDup addrs -> (forall a, a ∈ addrs -> is_Some (events !! a)) ->
  ends J (stale_events addrs events) (fun r p' => ok p' /\ events_ok r) p.
Proof.
  induction addrs as [|a addrs IH]; intros p events Hp He Hnd Hin; cbn [stale_events]; [by apply ends_ret|]. apply NoDup_cons in Hnd as [Hna Hnd]. apply ends_bind, ends_get.
  destruct (nc_get _ _ _) as [nonce nonces]. apply ends_bind, ends_modify, ends_bind. destruct (Hin a) as [m Em]; [apply elem_of_cons; by left|]. rewrite Em. eapply ends_pure; [done|].
  destruct (He a m Em) as [l Hl]. destruct (sm_Forward_rel nonce m l Hl) as (m' & E & Hm'). apply ends_bind. eapply ends_pure; [exact E|]. cbv beta iota. apply IH; [eapply ok_fields; [exact Hp|done..]| |done|].
  - destruct (_ =? _)%nat.
    + intros b x [_ Hx]%lookup_delete_Some. by eapply He.
    + intros b x [[<- <-]|[_ Hx]]%lookup_insert_Some; [by eexists|by eapply He].
  - intros b Hb. assert (b <> a) as Hne by (by intros ->). destruct (_ =? _)%nat; [rewrite lookup_delete_ne by done|rewrite lookup_insert_ne by done]; apply Hin, elem_of_cons; by right.
Qed.

Lemma promoted_events_ok s txs : forall events, Forall G txs -> events_ok events -> exists r, promoted_events s txs events = Ret r /\ events_ok r.
Proof.
  induction txs as [|t txs IH]; intros events Hg He; cbn [promoted_events]; [by eexists|]. apply Forall_cons in Hg as [Ht Hg]. destruct (ok_account' G HG t s Ht) as [a ->]. cbn [mbind outcome_bind].
  apply IH; [done|]. apply put_event_ok; [done|by apply (go_range G HG)].
Qed.

(** The first part of a run. *)
Lemma run_reset_ok p run addrs : ok p -> events_ok (rr_queuedEvents run) -> heads_known (rr_reset run) ->
  ends J (match rr_reset run with
           | None => mret (addrs, rr_queuedEvents run)
           | Some (oldHead, newHead) => pool_reset ch oldHead newHead;; events ← stale_events (range_events (rr_queuedEvents run)).*1 (rr_queuedEvents run); p ← get; mret ((range_lists (po_queue p)).*1, events)
           end) (fun r p' => ok p' /\ events_ok r.2) p.
Proof.
  intros Hp He Hk. destruct (rr_reset run) as [[old new]|]; [|by apply ends_ret]. destruct (Hk old new eq_refl) as (Ho & h & n & b & -> & En & Eb). apply ends_bind.
  eapply ends_mono; [apply pool_reset_ok; [done| |intros h' [= <-]; by eexists]|].
  - apply (reinject_safe _ (gc_stored G ch Hch) G (gc_blocks G ch Hch)); [done|intros h' [= <-]; eauto|left; by eexists].
  - intros [] p1 Hp1. apply ends_bind. eapply ends_mono; [apply stale_events_ok; [done|done| |]|].
    + rewrite range_events_perm. apply NoDup_fst_map_to_list.
    + intros a ([a' m] & -> & Hin)%list_elem_of_fmap. rewrite range_events_perm in Hin. apply elem_of_map_to_list in Hin. by exists m.
    + intros events p2 [Hp2 He2]. apply ends_bind, ends_get, ends_ret. by split.
Qed.

Lemma runReorg_ok p run : ok p -> events_ok (rr_queuedEvents run) -> heads_known (rr_reset run) -> ends J (runReorg ch run) (fun _ p' => ok p' /\ within_limits p') p.
Proof.
  intros Hp He Hk. unfold runReorg. apply ends_bind. eapply ends_mono; [by apply run_reset_ok|]. intros [addrs events] p1 [Hp1 He1]. cbv beta iota. cbn [snd] in He1.
  apply ends_bind. eapply ends_mono; [by apply promoteExecutables_ok|]. intros promoted p2 [Hp2 Hg]. apply ends_bind.
  assert (ends J (match rr_reset run with Some _ => demoteUnexecutables ch | None => mret tt end) (fun _ => ok) p2) as H2 by (destruct (rr_reset run); [by apply demoteUnexecutables_ok|by apply ends_ret]).
  eapply ends_mono; [exact H2|]. intros [] p3 Hp3. apply trim_ok; [done|]. intros p4 Hp4 Hl4. apply ends_bind, ends_get, ends_bind.
  destruct (promoted_events_ok (po_signer p4) promoted events Hg He1) as (r & E & _). eapply ends_pure; [exact E|]. by apply ends_ret.
Qed.

Lemma run_scheduled_ok p : ok p -> (forall run, sc_running (po_sched p) = Some run -> heads_known (rr_reset run)) ->
  ends J (run_scheduled ch) (fun _ p' => ok p' /\ (is_Some (sc_running (po_sched p)) -> within_limits p')) p.
Proof.
  intros Hp Hk. unfold run_scheduled. apply ends_bind, ends_get. destruct (sc_running (po_sched p)) as [run|] eqn:Er; [|apply ends_ret; split; [done|by intros [? ?]]]. apply ends_bind.
  eapply ends_mono; [apply runReorg_ok; [done|by eapply (sched_of G signer p Hp)|by apply Hk]|]. intros txs p1 [Hp1 Hl1]. apply ends_bind, ends_modify, ends_ret. split; [|done].
  apply ok_sched; [done|]. apply on_done_ok. eapply sched_of. exact Hp1.
Qed.

Lemma requestReset_ok p old new : ok p -> ends J (requestReset old new) (fun _ => ok) p.
Proof. intros Hp. apply ends_modify. apply ok_sched; [done|]. apply on_reset_ok. eapply sched_of. exact Hp. Qed.

Lemma pool_Nonce_ok p a : ok p -> ends J (pool_Nonce a) (fun _ => ok) p.
Proof.
  intros Hp. unfold pool_Nonce. apply ends_bind, ends_get. destruct (nc_get _ _ _) as [n nonces]. apply ends_bind, ends_modify, ends_ret. eapply ok_fields; [exact Hp|done..].
Qed.

End PoolRuns.
