(* ===== verification/PoolConsistent.v ===== *)
(** * The pool stays consistent

    Whatever the pool is asked to do, from its creation on and in any order,
    every operation returns, the lists of the accounts and the two indices describe
    the same transactions, and the numbers the pool reports are exact. *)
From Stdlib Require Import ZArith Lia.
From stdpp Require Import base option gmap functions list sorting.
From S2P Require Import Prelude Errors Rlp Prque Common Transaction Block Signing ChainConfig ChainSigner PriceNonce TxList TxPool PoolHead Pool PoolIndex PoolOk PoolAdd PoolRuns.
Open Scope Z_scope.

(** ** Operations *)

(** What other parts of the node ask for, what [loop] does by itself, and the
    background runs. *)
Inductive pool_op :=
  | op_AddLocals (txs : list Transaction)
  | op_AddRemotes (txs : list Transaction)
  | op_SetGasPrice (price : Z)
  | op_Nonce (addr : Address)
  | op_evict
  | op_head (oldHead newHead : option Header)
  | op_run.

Section Operations.
Context `{HK : Keccak} `{HS : Secp256k1} `{HRL : RangesLaws}.

Definition run_op (ch : PoolChain) (op : pool_op) : M TxPool unit :=
  match op with
  | op_AddLocals txs => _ ← AddLocals ch txs; mret tt
  | op_AddRemotes txs => _ ← AddRemotes ch txs; mret tt
  | op_SetGasPrice price => SetGasPrice ch price
  | op_Nonce addr => _ ← pool_Nonce addr; mret tt
  | op_evict => evict ch
  | op_head oldHead newHead => requestReset oldHead newHead
  | op_run => _ ← run_scheduled ch; mret tt
  end.

(** ** Consistency *)

Definition listed (m : gmap Address txList) (a : Address) (t : Transaction) : Prop :=
  exists L, m !! a = Some L /\ sm_Get (Nonce t) (tl_txs L) = Some t.

Record consistent (signer : TxSigner) (p : TxPool) : Prop := {
  (* The pool knows a transaction by its hash iff it is in the list of its sender. *)
  cs_known hash t : lk_Get hash (po_all p) = Some t <-> tx_id t = hash /\ exists a, account signer t = Ret a /\ (listed (po_pending p) a t \/ listed (po_queue p) a t);
  cs_sender a t : listed (po_pending p) a t \/ listed (po_queue p) a t -> account signer t = Ret a;
  (* No nonce is pending and queued. *)
  cs_once a t u : listed (po_pending p) a t -> listed (po_queue p) a u -> Nonce t <> Nonce u;
  (* Every list in [pending] has a transaction. *)
  cs_pending a L : po_pending p !! a = Some L -> exists t, listed (po_pending p) a t;
  (* Every remote transaction can be found by its price. *)
  cs_priced hash t : lk_GetRemote hash (po_all p) = Some t -> exists u, u ∈ ph_txs (pl_remotes (po_priced p)) /\ tx_id u = hash /\ GasPrice u = GasPrice t;
  (* The slots, the numbers of transactions and the status are exact. *)
  cs_slots : lk_slots (po_all p) = total_slots (values (lk_locals (po_all p)) ++ values (lk_remotes (po_all p)));
  cs_count : Z.of_nat (lk_Count (po_all p)) = (pool_stats p).1 + (pool_stats p).2;
  cs_status hash : exists s, status_of p hash = Ret s /\
    match s with
    | TxStatusUnknown => lk_Get hash (po_all p) = None
    | TxStatusQueued => exists a t, lk_Get hash (po_all p) = Some t /\ listed (po_queue p) a t
    | TxStatusPending => exists a t, lk_Get hash (po_all p) = Some t /\ listed (po_pending p) a t
    end;
  (* A request is served by the next run, which waits for the active one only. *)
  cs_scheduled : (rr_reset (sc_next (po_sched p)) <> None \/ rr_dirtyAccounts (sc_next (po_sched p)) <> None -> sc_launchNextRun (po_sched p) = true) /\
    (sc_launchNextRun (po_sched p) = true -> is_Some (sc_running (po_sched p)))
}.

(** ** The invariant gives it *)

Context (G : Transaction -> Prop) (HG : genuine_ok G) (signer : TxSigner).
#[local] Abbreviation family := (Address -> list Transaction).
#[local] Abbreviation inv := (pool_inv G signer []).
#[local] Abbreviation ok := (pool_ok G signer []).

Lemma listed_in strict m (g : family) a t : lists_rel strict m g -> listed m a t <-> t ∈ g a.
Proof.
  intros Hm. specialize (Hm a). unfold listed. destruct (m !! a) as [L|].
  - destruct Hm as [[[Hs Hi _ _ _] _ _] _]. split.
    + intros (L' & [= <-] & E). unfold sm_Get in E. rewrite Hi in E. by apply contents_lookup in E as [? _].
    + intros Ht. exists L. split; [done|]. unfold sm_Get. rewrite Hi. by apply contents_lookup.
  - rewrite Hm. split; [by intros (L & ? & _)|by intros []%not_elem_of_nil].
Qed.

(** The transactions of all lists of a map. *)
Definition everything (m : gmap Address txList) (g : family) : list Transaction := (map_to_list m) ≫= (fun al => g al.1).

Lemma count_everything strict m (g : family) : lists_rel strict m g -> count_lists m = Z.of_nat (length (everything m g)).
Proof.
  intros Hm. assert (forall l, (forall al, al ∈ l -> m !! al.1 = Some al.2) -> foldr (fun al n => Z.of_nat (tl_Len al.2) + n) 0 l = Z.of_nat (length (l ≫= (fun al => g al.1)))) as Hl.
  { induction l as [|[a L] l IH]; intros Hin; [done|]. rewrite bind_cons, length_app, Nat2Z.inj_add. cbn [foldr]. rewrite IH by (intros al Hal; apply Hin, elem_of_cons; by right).
    pose proof (Hm a) as Ha. assert (m !! a = Some L) as EL by (apply (Hin (a, L)), elem_of_cons; by left). rewrite EL in Ha. destruct Ha as [HL _]. cbn. by rewrite (lists_len _ _ HL). }
  unfold count_lists, everything. rewrite Hl.
  - by rewrite range_lists_perm.
  - intros [a L]. rewrite range_lists_perm. by intros ?%elem_of_map_to_list.
Qed.

Lemma everything_elem strict m (g : family) t : lists_rel strict m g -> t ∈ everything m g <-> exists a, t ∈ g a.
Proof.
  intros Hm. unfold everything. rewrite list_elem_of_bind. split.
  - intros ([a L] & Ht & _). by exists a.
  - intros [a Ht]. pose proof (Hm a) as Ha. destruct (m !! a) as [L|] eqn:E; [|rewrite Ha in Ht; by apply not_elem_of_nil in Ht].
    exists (a, L). split; [done|]. by apply elem_of_map_to_list.
Qed.

Lemma everything_NoDup m (g : family) : (forall a, NoDup (g a)) -> (forall a t, t ∈ g a -> account signer t = Ret a) -> NoDup (everything m g).
Proof.
  intros Hn Ha. unfold everything. pose proof (NoDup_fst_map_to_list m) as Hk. revert Hk. generalize (map_to_list m). induction l as [|[a L] l IH]; intros Hk; [apply NoDup_nil; done|].
  cbn in Hk. apply NoDup_cons in Hk as [Hka Hk]. rewrite bind_cons. apply NoDup_app. split; [apply Hn|]. split; [|by apply IH].
  intros t Ht ([b L'] & Hb & Hin)%list_elem_of_bind. apply Hka. cbn in *. apply Ha in Ht, Hb. assert (a = b) as -> by congruence. by apply (list_elem_of_fmap_2 fst) in Hin.
Qed.

Lemma nodup_of_nonces (l : list Transaction) : NoDup (Nonce <$> l) -> NoDup l.
Proof. apply NoDup_fmap_1. Qed.

Lemma known_everything p pend que : inv pend que none p -> values (lk_locals (po_all p)) ++ values (lk_remotes (po_all p)) ≡ₚ everything (po_pending p) pend ++ everything (po_queue p) que.
Proof.
  intros Hp. pose proof (pv_index _ _ _ _ _ _ _ Hp) as [H1 H2 H3 [Hd Hl Hr _] _]. pose proof (pv_pending _ _ _ _ _ _ _ Hp) as Hpe. pose proof (pv_queue _ _ _ _ _ _ _ Hp) as Hqu.
  assert (forall m, keyed m -> NoDup (values m)) as Hv.
  { intros m Hk. apply (NoDup_fmap_1 tx_id). unfold values. rewrite <- list_fmap_compose. erewrite list_fmap_ext; [apply NoDup_fst_map_to_list|]. intros i [k t] E.
    apply list_elem_of_lookup_2, elem_of_map_to_list in E. cbn. by apply Hk. }
  assert (forall a, NoDup (pend a) /\ NoDup (que a) /\ forall t, t ∈ pend a -> t ∉ que a) as Hna.
  { intros a. pose proof (nodup_of_nonces _ (H3 a)) as Hn. unfold none in Hn. rewrite app_nil_r in Hn. apply NoDup_app in Hn as (N1 & N2 & N3). auto. }
  assert (forall a t, t ∈ pend a \/ t ∈ que a -> account signer t = Ret a /\ lk_Get (tx_id t) (po_all p) = Some t) as Hac.
  { intros a t Ht. destruct (H1 a t) as (? & ? & _); [rewrite !elem_of_app; tauto|done]. }
  apply NoDup_Permutation.
  - apply NoDup_app. split; [by apply Hv|]. split; [|by apply Hv]. intros t (k & E)%values_elem (k' & E')%values_elem. pose proof (Hl _ _ E) as <-. pose proof (Hr _ _ E') as <-.
    eapply map_disjoint_spec; [exact Hd|exact E|exact E'].
  - apply NoDup_app. split; [apply everything_NoDup; [apply Hna|intros a t Ht; apply Hac; by left]|]. split; [|apply everything_NoDup; [apply Hna|intros a t Ht; apply Hac; by right]].
    intros t (a & Ha)%(everything_elem true _ _ _ Hpe) (b & Hb)%(everything_elem false _ _ _ Hqu). assert (a = b) as <- by (destruct (Hac a t (or_introl Ha)), (Hac b t (or_intror Hb)); congruence).
    by apply (Hna a) in Ha.
  - intros t. rewrite !elem_of_app, !values_elem, (everything_elem true _ _ _ Hpe), (everything_elem false _ _ _ Hqu). split.
    + intros Ht. assert (exists k, lk_Get k (po_all p) = Some t) as [k Hk].
      { destruct Ht as [[k Hk]|[k Hk]]; exists k; unfold lk_Get; [by rewrite Hk|]. by rewrite (map_disjoint_Some_r _ _ _ _ Hd Hk). }
      destruct (H2 k t Hk) as (a & Ha). rewrite !elem_of_app in Ha. unfold none in Ha. destruct Ha as [Ha|[Ha|[]%not_elem_of_nil]]; eauto.
    + intros Ht. assert (lk_Get (tx_id t) (po_all p) = Some t) as Hk by (destruct Ht as [[a Ha]|[a Ha]]; apply (Hac a); auto). unfold lk_Get in Hk.
      destruct (lk_locals (po_all p) !! tx_id t) as [u|] eqn:E; [injection Hk as <-; left; eauto|right; eauto].
Qed.

Lemma known_listed p pend que hash t : inv pend que none p -> lk_Get hash (po_all p) = Some t <-> tx_id t = hash /\ exists a, t ∈ pend a \/ t ∈ que a.
Proof.
  intros Hp. pose proof (pv_index _ _ _ _ _ _ _ Hp) as [H1 H2 _ [_ Hl Hr _] _]. split.
  - intros Hk. split.
    + unfold lk_Get in Hk. destruct (lk_locals (po_all p) !! hash) as [u|] eqn:E; [injection Hk as <-; by apply Hl|by apply Hr].
    + destruct (H2 _ _ Hk) as (a & Ha). exists a. rewrite !elem_of_app in Ha. unfold none in Ha. by destruct Ha as [Ha|[Ha|[]%not_elem_of_nil]]; [left|right].
  - intros (<- & a & Ha). apply (H1 a t). rewrite !elem_of_app. tauto.
Qed.

Definition has_nonce (m : gmap Address txList) (a : Address) (n : Z) : bool :=
  match m !! a with Some L => match sm_Get n (tl_txs L) with Some _ => true | None => false end | None => false end.

Lemma has_nonce_spec strict m (g : family) a n : lists_rel strict m g -> has_nonce m a n = true <-> n ∈ Nonce <$> g a.
Proof.
  intros Hm. specialize (Hm a). unfold has_nonce. destruct (m !! a) as [L|]; [|rewrite Hm; split; [done|by intros []%not_elem_of_nil]].
  destruct Hm as [[[Hs Hi _ _ _] _ _] _]. unfold sm_Get. rewrite Hi. destruct (contents (g a) !! n) as [t|] eqn:E.
  - apply contents_lookup in E as [Ht <-]; [|done]. split; [|done]. intros _. by apply list_elem_of_fmap_2.
  - apply contents_None in E. by split.
Qed.

Lemma nonces_apart p pend que a n : inv pend que none p -> n ∈ Nonce <$> pend a -> n ∉ Nonce <$> que a.
Proof.
  intros Hp Hn Hq. pose proof (ix_nonces _ _ _ _ _ _ (pv_index _ _ _ _ _ _ _ Hp) a) as Hnd. cbv beta in Hnd. rewrite !fmap_app in Hnd. apply NoDup_app in Hnd as (_ & Hd & _).
  apply (Hd n Hn), elem_of_app. by left.
Qed.

Lemma status_exact p pend que hash : inv pend que none p -> exists s, status_of p hash = Ret s /\
  match s with
  | TxStatusUnknown => lk_Get hash (po_all p) = None
  | TxStatusQueued => exists a t, lk_Get hash (po_all p) = Some t /\ t ∈ que a
  | TxStatusPending => exists a t, lk_Get hash (po_all p) = Some t /\ t ∈ pend a
  end.
Proof.
  intros Hp. unfold status_of. rewrite (pv_signer _ _ _ _ _ _ _ Hp). destruct (lk_Get hash (po_all p)) as [t|] eqn:Ek; [|by eexists].
  pose proof Ek as (_ & a & Ha)%(known_listed p pend que hash t Hp). destruct (here _ _ _ _ _ _ _ a t Hp) as [-> _]; [rewrite !elem_of_app; tauto|]. cbn [mbind outcome_bind].
  fold (has_nonce (po_pending p) a (Nonce t)) (has_nonce (po_queue p) a (Nonce t)). eexists. split; [reflexivity|].
  pose proof (has_nonce_spec _ _ _ a (Nonce t) (pv_pending _ _ _ _ _ _ _ Hp)) as Hpn. pose proof (has_nonce_spec _ _ _ a (Nonce t) (pv_queue _ _ _ _ _ _ _ Hp)) as Hqn.
  destruct Ha as [Ha|Ha]; pose proof (list_elem_of_fmap_2 Nonce _ _ Ha) as Hn.
  - apply Hpn in Hn as ->. by exists a, t.
  - destruct (has_nonce (po_pending p) a (Nonce t)).
    + by destruct (nonces_apart p pend que a (Nonce t) Hp (proj1 Hpn eq_refl)).
    + apply Hqn in Hn as ->. by exists a, t.
Qed.

Lemma ok_consistent p : ok p -> consistent signer p.
Proof.
  intros [Htidy (pend & que & Hp)]. pose proof (pv_index _ _ _ _ _ _ _ Hp) as [H1 H2 H3 H4 (h & Hh & [Hc1 Hc2] & _)]. pose proof (pv_pending _ _ _ _ _ _ _ Hp) as Hpe. pose proof (pv_queue _ _ _ _ _ _ _ Hp) as Hqu.
  pose proof (fun a t => listed_in _ _ _ a t Hpe) as Lp. pose proof (fun a t => listed_in _ _ _ a t Hqu) as Lq.
  assert (forall a t, t ∈ pend a \/ t ∈ que a -> account signer t = Ret a) as Hac by (intros a t Ht; apply (H1 a t); rewrite !elem_of_app; tauto). split.
  - intros hash t. rewrite (known_listed p pend que hash t Hp). split; (intros [E Ht]; split; [done|]).
    + destruct Ht as [a Ha]. exists a. split; [by apply Hac|]. by rewrite Lp, Lq.
    + destruct Ht as (a & _ & Ha). exists a. by rewrite Lp, Lq in Ha.
  - intros a t. rewrite Lp, Lq. apply Hac.
  - intros a t u Ht%Lp Hu%Lq E. apply (nonces_apart p pend que a (Nonce t) Hp); [by apply list_elem_of_fmap_2|]. rewrite E. by apply list_elem_of_fmap_2.
  - intros a L EL. pose proof (Hpe a) as Ha. rewrite EL in Ha. destruct Ha as [HL _]. pose proof (Htidy a L EL) as He. destruct (pend a) as [|t l] eqn:Epa.
    + exfalso. pose proof (proj2 (lists_empty_rel L [] HL) eq_refl). congruence.
    + exists t. apply Lp. rewrite Epa. apply elem_of_cons. by left.
  - intros hash t E. rewrite app_nil_r in Hc1, Hc2. destruct (Hc1 hash t E) as (u & Hu & <-). exists u. split; [|split; [done|by apply Hc2]].
    destruct Hh as (l & [El _] & _ & Hl). rewrite El. by rewrite Hl.
  - rewrite total_slots_app. apply H4.
  - unfold pool_stats. cbn [fst snd]. rewrite (count_everything _ _ _ Hpe), (count_everything _ _ _ Hqu), <- Nat2Z.inj_add, <- length_app, <- (known_everything p pend que Hp).
    unfold lk_Count, values. by rewrite length_app, !length_fmap, !length_map_to_list.
  - intros hash. destruct (status_exact p pend que hash Hp) as (s & E & Hs). exists s. split; [done|]. destruct s; [done|..]; destruct Hs as (a & t & Hk & Ha); exists a, t; (split; [done|]); [by apply Lq|by apply Lp].
  - destruct (pv_sched _ _ _ _ _ _ _ Hp) as [_ _ Hw Hi]. split; [|done]. intros Hr. destruct (sc_launchNextRun (po_sched p)); [done|]. destruct (Hi eq_refl) as [E1 E2]. destruct Hr; congruence.
Qed.

(** ** Every operation keeps it *)

(** The transactions are genuine; the heads of the active run are blocks of the
    chain when it is executed. *)
Definition genuine_op (ch : PoolChain) (p : TxPool) (op : pool_op) : Prop :=
  match op with
  | op_AddLocals txs | op_AddRemotes txs => Forall G txs
  | op_run => forall run, sc_running (po_sched p) = Some run -> heads_known ch (rr_reset run)
  | _ => True
  end.

Lemma run_op_ok ch op p : genuine_chain G ch -> genuine_op ch p op -> ok p -> ends (fun _ => False) (run_op ch op) (fun _ => ok) p.
Proof.
  intros Hch Hop Hp. destruct op as [txs|txs|price|a| |old new|]; cbn [run_op].
  - apply ends_bind. unfold AddLocals. apply ends_bind, ends_get. by eapply ends_mono; [apply (addTxs_ok G HG signer ch Hch)|].
  - apply ends_bind. by eapply ends_mono; [apply (addTxs_ok G HG signer ch Hch)|].
  - by apply SetGasPrice_ok.
  - apply ends_bind. by eapply ends_mono; [apply pool_Nonce_ok|].
  - by apply eviction_ok.
  - by apply requestReset_ok.
  - apply ends_bind. eapply ends_mono; [by apply (run_scheduled_ok G HG signer ch Hch)|]. by intros txs p' [? _].
Qed.

Lemma blank_ok config locals st : cf_AccountQueue config < 2 ^ 63 -> ok (blank_pool (sanitize config) signer locals st).
Proof.
  intros Hq. split; [by intros a L|]. exists none, none. split; [done|..].
  - split; cbn; [destruct (Z.ltb_spec (cf_AccountSlots config) 1); lia|]. destruct (Z.ltb_spec (cf_AccountQueue config) 1); lia.
  - by split.
  - by intros a.
  - by intros a.
  - split; [by intros a t []%not_elem_of_nil|done|by intros a; apply NoDup_nil|by split|]. exists []. split; [|split; [split; [done|by intros u t []%not_elem_of_nil]|done]].
    exists []. split; [done|]. split; [intros i Hi; cbn in Hi; lia|done].
Qed.

Lemma NewTxPool_ok config locals ch p : genuine_chain G ch -> cf_AccountQueue config < 2 ^ 63 -> LatestSigner (pc_config ch) = signer -> NewTxPool config locals ch = Ret p -> ok p.
Proof.
  intros Hch Hq Hs. unfold NewTxPool. destruct (pc_StateAt ch _) as [st|]; [|done]. rewrite Hs.
  pose proof (first_reset_ok G HG signer ch Hch (fun _ => False) (blank_pool (sanitize config) signer locals st) (bl_header (pc_CurrentBlock ch)) (blank_ok config locals st Hq) (gc_current G ch Hch)) as He. unfold ends in He.
  destruct (pool_reset _ _ _ _) as [[[]|e|] p']; cbn [mbind outcome_bind]; [by intros [= <-]|done|done].
Qed.

(** ** What the pool goes through *)

(** The pools that come into being; the chain may differ from step to step. *)
Inductive reachable (config : TxPoolConfig) (locals : list Address) : TxPool -> Prop :=
  | reach_new ch p : genuine_chain G ch -> LatestSigner (pc_config ch) = signer -> NewTxPool config locals ch = Ret p -> reachable config locals p
  | reach_op p ch op r p' : reachable config locals p -> genuine_chain G ch -> genuine_op ch p op -> run_op ch op p = (r, p') -> reachable config locals p'.

Lemma reachable_ok config locals p : cf_AccountQueue config < 2 ^ 63 -> reachable config locals p -> ok p.
Proof.
  intros Hq Hr. induction Hr as [ch p Hch Hs E|p ch op r p' _ IH Hch Hop E]; [by eapply NewTxPool_ok|].
  pose proof (run_op_ok ch op p Hch Hop IH) as He. unfold ends in He. rewrite E in He. by destruct r.
Qed.

(** C23: from its creation on, whatever sequence of transactions, price
    changes, nonce queries, evictions, new heads and background runs the pool
    goes through, each of them returns.  At every point the pool knows exactly
    the transactions in its lists, each in the list of its sender, no nonce of
    an account both pending and queued; every remote transaction can be found
    by its price; the slots in use, the numbers of transactions and the status
    of a hash are exact; and every request has a run ahead of it. *)
Theorem pool_consistent config locals p : cf_AccountQueue config < 2 ^ 63 -> reachable config locals p ->
  consistent signer p /\ forall ch op, genuine_chain G ch -> genuine_op ch p op -> exists p', run_op ch op p = (Ret tt, p').
Proof.
  intros Hq Hr. pose proof (reachable_ok config locals p Hq Hr) as Hp. split; [by apply ok_consistent|]. intros ch op Hch Hop.
  pose proof (run_op_ok ch op p Hch Hop Hp) as He. unfold ends in He. destruct (run_op ch op p) as [[[]|e|] p']; [by exists p'|done|done].
Qed.

Definition after (p : TxPool) (chop : PoolChain * pool_op) : TxPool := (run_op chop.1 chop.2 p).2.

Lemma reach_after config locals p chop : reachable config locals p -> genuine_chain G chop.1 -> genuine_op chop.1 p chop.2 -> reachable config locals (after p chop).
Proof. intros Hp Hch Hop. eapply reach_op; [exact Hp|exact Hch|exact Hop|apply surjective_pairing]. Qed.

End Operations.

(** ** Example *)

Section Witness.
#[local] Existing Instance sample_keccak.
#[local] Existing Instance sample_secp.

#[local] Instance sample_ranges : Ranges := {| range_txs := map_to_list; range_lists := map_to_list; range_accounts := elements; range_events := map_to_list |}.
#[local] Instance sample_ranges_laws : RangesLaws.
Proof. by split. Qed.

(** Three transactions of two accounts, one of them with a gap before it. *)
Definition sample_txs : list Transaction := [paid 1 0 5 100; paid 1 1 90 101; paid 2 7 20 102].
Definition sample_header (parent : Hash) (number : Z) : Header := mkHeader parent 0 0 0 0 0 0 (Some 1) (Some number) 8000000 0 number [] 0 0.
Definition block0 : PoolBlock := mkPoolBlock (sample_header 0 0) [].
Definition block1 : PoolBlock := mkPoolBlock (sample_header (bl_Hash block0) 1) [].

Definition sample_blocks (h : Hash) (n : Z) : option PoolBlock :=
  if (h =? bl_Hash block0) && (n =? 0) then Some block0 else if (h =? bl_Hash block1) && (n =? 1) then Some block1 else None.

Definition sample_config : ChainConfig :=
  mkChainConfig None (Some 0) None false None None None None None None None None None None None None None None [] false 64 0 None None [] None None None.

Definition sample_chain (current : PoolBlock) : PoolChain :=
  mkPoolChain sample_config current sample_blocks (fun _ => Some (mkStateView (fun _ => 0) (fun _ => 10 ^ 18))) (fun _ _ _ _ _ _ => None) (fun _ => None) 0.

Lemma sample_all (P : Transaction -> Prop) : P (paid 1 0 5 100) -> P (paid 1 1 90 101) -> P (paid 2 7 20 102) -> forall t, t ∈ sample_txs -> P t.
Proof. intros H1 H2 H3 t [->|[->|[->|[]%not_elem_of_nil]%elem_of_cons]%elem_of_cons]%elem_of_cons; done. Qed.

Lemma sample_genuine : genuine_ok (fun t => t ∈ sample_txs).
Proof.
  split.
  - apply (sample_all in_range); vm_compute; (split; [intros [=]|reflexivity]).
  - intros a b Ha Hb. revert b Hb a Ha.
    apply (sample_all (fun b => forall a, a ∈ sample_txs -> tx_id a = tx_id b -> GasPrice a = GasPrice b /\ Nonce a = Nonce b)); refine (sample_all _ _ _ _); vm_compute; intros [=]; split; reflexivity.
  - intros t s Ht. revert t Ht. apply (sample_all (fun t => (Sender s t).1 <> Panic)); destruct s; vm_compute; intros [=].
  - refine (sample_all _ _ _ _); (split; [|intros e]); vm_compute; intros [=].
  - refine (sample_all _ _ _ _); vm_compute; intros [=].
Qed.

Lemma sample_blocks_found h n b : sample_blocks h n = Some b -> (h = bl_Hash block0 /\ n = 0 /\ b = block0) \/ (h = bl_Hash block1 /\ n = 1 /\ b = block1).
Proof.
  unfold sample_blocks. generalize (bl_Hash block0) (bl_Hash block1). intros h0 h1. destruct (_ && _) eqn:E0; [intros [= <-]; left|destruct ((h =? h1) && _) eqn:E1; [intros [= <-]; right|done]].
  - apply andb_true_iff in E0 as [E0%Z.eqb_eq E0'%Z.eqb_eq]. repeat split; assumption.
  - apply andb_true_iff in E1 as [E1%Z.eqb_eq E1'%Z.eqb_eq]. repeat split; assumption.
Qed.

Lemma sample_chain_ok current : numbered (bl_header current) -> genuine_chain (fun t => t ∈ sample_txs) (sample_chain current).
Proof.
  intros Hn. split; [intros d t [=]|reflexivity|exact Hn| |].
  - intros h n b [(Eh & En & Eb)|(Eh & En & Eb)]%sample_blocks_found; subst n b; (split; [symmetry; exact Eh|]); (split; [reflexivity|lia]).
  - intros h n b [(_ & _ & Eb)|(_ & _ & Eb)]%sample_blocks_found; subst b; constructor.
Qed.

Definition sample_start : TxPool := match NewTxPool DefaultTxPoolConfig [] (sample_chain block0) with Ret p => p | _ => blank_pool DefaultTxPoolConfig HomesteadSigner [] (mkStateView (fun _ => 0) (fun _ => 0)) end.

(** Submissions, their run, a new head and its run, and a new price limit. *)
Definition sample_ops : list (PoolChain * pool_op) :=
  [(sample_chain block0, op_AddLocals [paid 1 0 5 100]); (sample_chain block0, op_AddRemotes [paid 2 7 20 102; paid 1 1 90 101; paid 1 0 5 100]); (sample_chain block0, op_run); (sample_chain block0, op_run);
   (sample_chain block0, op_head (Some (bl_header block0)) (Some (bl_header block1))); (sample_chain block1, op_run); (sample_chain block1, op_SetGasPrice 50)].

Definition resets (p : TxPool) : option (option (option Header * option Header)) := rr_reset <$> sc_running (po_sched p).

Lemma sample_heads p : resets p = None \/ resets p = Some None \/ resets p = Some (Some (Some (bl_header block0), Some (bl_header block1))) ->
  forall current run, sc_running (po_sched p) = Some run -> heads_known (sample_chain current) (rr_reset run).
Proof.
  unfold resets. intros Hr current run E. rewrite E in Hr. cbn in Hr. intros old new E'. rewrite E' in Hr. destruct Hr as [[=]|[[=]|[= -> ->]]].
  split; [intros h [= <-]; eexists; reflexivity|]. exists (bl_header block1), 1, block1. split; [reflexivity|]. split; [reflexivity|]. vm_compute. reflexivity.
Qed.

Definition sample_end : TxPool := foldl after sample_start sample_ops.

Ltac sample_step := apply reach_after; [|apply sample_chain_ok; eexists; reflexivity|cbn [genuine_op fst snd]; first [exact I|rewrite Forall_forall; unfold sample_txs; intros t Ht; rewrite ?elem_of_cons in *; tauto|apply sample_heads]].

Lemma sample_reachable : reachable (fun t => t ∈ sample_txs) HomesteadSigner DefaultTxPoolConfig [] sample_end.
Proof.
  unfold sample_end, sample_ops. cbn [foldl]. sample_step. sample_step; [|right; right; vm_compute; reflexivity]. sample_step.
  sample_step; [|right; left; vm_compute; reflexivity]. sample_step; [|right; left; vm_compute; reflexivity]. sample_step. sample_step.
  apply (reach_new _ _ _ _ (sample_chain block0)); [apply sample_chain_ok; eexists; reflexivity|reflexivity|]. unfold sample_start.
  assert (match NewTxPool DefaultTxPoolConfig [] (sample_chain block0) with Ret _ => true | _ => false end = true) as Hok by (vm_compute; reflexivity).
  destruct (NewTxPool DefaultTxPoolConfig [] (sample_chain block0)); [reflexivity|discriminate Hok|discriminate Hok].
Qed.

(** Alice's two are pending; Bob's, which has a gap before it, was queued and
    fell below the new price limit. *)
Lemma pool_consistent_witness : reachable (fun t => t ∈ sample_txs) HomesteadSigner DefaultTxPoolConfig [] sample_end /\ consistent HomesteadSigner sample_end /\
  pool_stats sample_end = (2, 0) /\ lk_Count (po_all sample_end) = 2%nat.
Proof.
  split; [exact sample_reachable|]. split.
  - apply (pool_consistent (fun t => t ∈ sample_txs) sample_genuine HomesteadSigner DefaultTxPoolConfig []); [reflexivity|exact sample_reachable].
  - split; vm_compute; reflexivity.
Defined.

End Witness.
