(* ===== verification/PoolLimits.v ===== *)
(** * The limits of the pool

    A background run leaves the pool within its limits, whatever it promotes
    and however the accounts come out of Go's maps; what it takes away to get
    there is taken from the remote accounts with the longest lists. *)
From Stdlib Require Import ZArith Lia.
From stdpp Require Import base option gmap functions list sorting.
From S2P Require Import Prelude Errors Rlp Prque Common Transaction Block Signing ChainConfig ChainSigner PriceNonce TxList TxPool PoolHead Pool PoolIndex PoolOk PoolAdd PoolCount PoolRuns PoolConsistent.
Open Scope Z_scope.

Section Limits.
Context `{HK : Keccak} `{HS : Secp256k1} `{HRL : RangesLaws}.
Context (G : Transaction -> Prop) (HG : genuine_ok G) (signer : TxSigner).
#[local] Abbreviation family := (Address -> list Transaction).
#[local] Abbreviation inv := (pool_inv G signer []).

Lemma ends_returns {A} (m : M TxPool A) Q p : ends (fun _ => False) m Q p -> exists x p', m p = (Ret x, p') /\ Q x p'.
Proof. unfold ends. destruct (m p) as [[x|e|] p']; [by exists x, p'|done|done]. Qed.

(** C24: the background run of a pool that has come into being in any way
    returns, and leaves the pool consistent and within its limits: no more than
    [GlobalSlots] pending transactions, or no remote account with more than
    [AccountSlots]; no more than [GlobalQueue] queued ones, or none of remote
    accounts. *)
Theorem pool_limits config locals ch p : cf_AccountQueue config < 2 ^ 63 -> reachable G signer config locals p -> genuine_chain G ch -> genuine_op G ch p op_run -> is_Some (sc_running (po_sched p)) ->
  exists txs p', run_scheduled ch p = (Ret txs, p') /\ within_limits p' /\ consistent signer p'.
Proof.
  intros Hq Hr Hch Hop Hrun. pose proof (reachable_ok G HG signer config locals p Hq Hr) as Hp.
  destruct (ends_returns _ _ _ (run_scheduled_ok G HG signer ch Hch _ p Hp Hop)) as (txs & p' & E & Hp' & Hl). exists txs, p'. split; [done|]. split; [by apply Hl|by eapply ok_consistent].
Qed.

(** What truncating the pending lists leaves of them. *)
Record fairly_truncated (p p' : TxPool) : Prop := {
  (* Nothing is added, and the queue stays. *)
  ft_subset a t : listed (po_pending p') a t -> listed (po_pending p) a t;
  ft_queue a t : listed (po_queue p') a t <-> listed (po_queue p) a t;
  (* An account keeps all transactions before one it keeps. *)
  ft_prefix a t u : listed (po_pending p') a t -> listed (po_pending p) a u -> Nonce u <= Nonce t -> listed (po_pending p') a u;
  (* Local accounts and those within their slots lose nothing. *)
  ft_spared a t : as_contains a (po_locals p) = true \/ Z.of_nat (rounds p a) <= cf_AccountSlots (po_config p) -> listed (po_pending p) a t -> listed (po_pending p') a t;
  (* Nobody falls below the slots of an account. *)
  ft_slots a : cf_AccountSlots (po_config p) < Z.of_nat (rounds p a) -> cf_AccountSlots (po_config p) <= Z.of_nat (rounds p' a);
  (* No more than [GlobalSlots], or no remote account above its slots. *)
  ft_limit : count_lists (po_pending p') <= cf_GlobalSlots (po_config p) \/ forall a, as_contains a (po_locals p) = false -> Z.of_nat (rounds p' a) <= cf_AccountSlots (po_config p)
}.

Lemma rounds_length pend que p a : inv pend que none p -> rounds p a = length (pend a).
Proof.
  intros Hp. pose proof (pv_pending _ _ _ _ _ _ _ Hp a) as Hpa. unfold rounds. destruct (po_pending p !! a) as [L|]; [by rewrite (lists_len _ _ (proj1 Hpa))|by rewrite Hpa].
Qed.

Lemma pending_ascending pend que p a : inv pend que none p -> ascending (pend a).
Proof.
  intros Hp. pose proof (pv_pending _ _ _ _ _ _ _ Hp a) as Hpa. destruct (po_pending p !! a) as [L|]; [apply (sr_ascending _ _ (tr_txs _ _ (proj1 Hpa)))|]. rewrite Hpa. constructor.
Qed.

Lemma prefix_closed (l l' : list Transaction) t u : ascending l -> l' `prefix_of` l -> t ∈ l' -> u ∈ l -> Nonce u <= Nonce t -> u ∈ l'.
Proof.
  intros Hs [k ->] Ht Hu Hle. apply elem_of_app in Hu as [Hu|Hu]; [done|]. exfalso. clear -Hs Ht Hu Hle. induction l' as [|x l' IH]; [by apply not_elem_of_nil in Ht|].
  apply StronglySorted_inv in Hs as [Hs Hf]. rewrite Forall_forall in Hf. apply elem_of_cons in Ht as [->|Ht]; [|by apply IH]. assert (Nonce x < Nonce u) by (apply Hf, elem_of_app; by right). lia.
Qed.

Lemma fairly_of pend que p pend' p' : inv pend que none p -> inv pend' que none p' -> pending_limited p pend pend' p' -> fairly_truncated p p'.
Proof.
  intros Hp Hp' [Hl Hpre Hk Hs]. pose proof (fun a t => listed_in _ _ _ a t (pv_pending _ _ _ _ _ _ _ Hp)) as L1. pose proof (fun a t => listed_in _ _ _ a t (pv_pending _ _ _ _ _ _ _ Hp')) as L1'.
  pose proof (fun a t => listed_in _ _ _ a t (pv_queue _ _ _ _ _ _ _ Hp)) as L2. pose proof (fun a t => listed_in _ _ _ a t (pv_queue _ _ _ _ _ _ _ Hp')) as L2'.
  pose proof (fun a => rounds_length _ _ _ a Hp) as R. pose proof (fun a => rounds_length _ _ _ a Hp') as R'. split.
  - intros a t Ht%L1'. apply L1. destruct (Hpre a) as [k ->]. apply elem_of_app. by left.
  - intros a t. by rewrite L2, L2'.
  - intros a t u Ht%L1' Hu%L1 Hle. apply L1'. eapply (prefix_closed (pend a)); [exact (pending_ascending _ _ _ a Hp)|done|exact Ht|done|done].
  - intros a t Ha Ht%L1. apply L1'. rewrite R in Ha. by rewrite (Hk a Ha).
  - intros a. rewrite R, R'. apply Hs.
  - destruct Hl as [Hl|Hl]; [by left|right]. intros a Ha. rewrite R'. by apply Hl.
Qed.

(** C25: when a run has promoted whatever accounts it is about, truncating the
    pending lists returns and is fair: it adds nothing and leaves the queue
    alone, an account loses its last transactions only, local accounts and
    those within their slots lose none, nobody is cut below their slots, and in
    the end the total is within the limit or every remote account is. *)
Theorem truncation_fair config locals ch accounts p : cf_AccountQueue config < 2 ^ 63 -> reachable G signer config locals p -> genuine_chain G ch ->
  exists promoted p1 p2, promoteExecutables ch accounts [] p = (Ret promoted, p1) /\ truncatePending p1 = (Ret tt, p2) /\ fairly_truncated p1 p2.
Proof.
  intros Hq Hr Hch. pose proof (reachable_ok G HG signer config locals p Hq Hr) as Hp.
  destruct (ends_returns _ _ _ (promoteExecutables_ok G HG signer ch Hch _ accounts p [] Hp (Forall_nil_2 _))) as (promoted & p1 & E1 & [Ht1 (pend & que & Hp1)] & _).
  destruct (ends_returns _ _ _ (truncatePending_limits G HG signer _ pend que p1 Ht1 Hp1)) as ([] & p2 & E2 & pend2 & _ & Hp2 & Hl). exists promoted, p1, p2. split; [done|]. split; [done|]. by eapply fairly_of.
Qed.

End Limits.

(** ** Example *)

Section Witness.
#[local] Existing Instance sample_keccak.
#[local] Existing Instance sample_secp.
#[local] Existing Instance sample_ranges.
#[local] Existing Instance sample_ranges_laws.

(** Room for one pending transaction, one of each account. *)
Definition narrow_config : TxPoolConfig := mkPoolConfig false 1 10 1 1 64 1024 10800000000000.

Definition narrow_start : TxPool := match NewTxPool narrow_config [] (sample_chain block0) with Ret p => p | _ => blank_pool narrow_config HomesteadSigner [] (mkStateView (fun _ => 0) (fun _ => 0)) end.

(** Three remote transactions have been submitted; their run is next. *)
Definition narrow_pool : TxPool := after narrow_start (sample_chain block0, op_AddRemotes sample_txs).

Lemma narrow_reachable : reachable (fun t => t ∈ sample_txs) HomesteadSigner narrow_config [] narrow_pool.
Proof.
  unfold narrow_pool. apply reach_after; [|apply sample_chain_ok; eexists; reflexivity|cbn [genuine_op fst snd]; rewrite Forall_forall; intros t Ht; exact Ht].
  apply (reach_new _ _ _ _ (sample_chain block0)); [apply sample_chain_ok; eexists; reflexivity|reflexivity|]. unfold narrow_start.
  assert (match NewTxPool narrow_config [] (sample_chain block0) with Ret _ => true | _ => false end = true) as Hok by (vm_compute; reflexivity).
  destruct (NewTxPool narrow_config [] (sample_chain block0)); [reflexivity|discriminate Hok|discriminate Hok].
Qed.

Definition stats_after {A} (r : outcome A * TxPool) : Z * Z := pool_stats r.2.

(** Two of Alice's become pending, one of them has to go; Bob's stays queued. *)
Lemma pool_limits_witness : (exists txs p', run_scheduled (sample_chain block0) narrow_pool = (Ret txs, p') /\ within_limits p' /\ consistent HomesteadSigner p') /\
  stats_after (run_scheduled (sample_chain block0) narrow_pool) = (1, 1).
Proof.
  split; [|vm_compute; reflexivity].
  apply (pool_limits (fun t => t ∈ sample_txs) sample_genuine HomesteadSigner narrow_config []); [reflexivity|exact narrow_reachable|apply sample_chain_ok; eexists; reflexivity| |].
  - intros run E. apply (sample_heads narrow_pool); [|exact E]. right. left. vm_compute. reflexivity.
  - assert (match sc_running (po_sched narrow_pool) with Some _ => true | None => false end = true) as Hr by (vm_compute; reflexivity). destruct (sc_running (po_sched narrow_pool)); [eexists; reflexivity|discriminate Hr].
Defined.

Lemma truncation_fair_witness : (exists promoted p1 p2, promoteExecutables (sample_chain block0) [alice] [] narrow_pool = (Ret promoted, p1) /\ truncatePending p1 = (Ret tt, p2) /\ fairly_truncated p1 p2) /\
  stats_after (promoteExecutables (sample_chain block0) [alice] [] narrow_pool) = (2, 1) /\
  stats_after (truncatePending (promoteExecutables (sample_chain block0) [alice] [] narrow_pool).2) = (1, 1).
Proof.
  split; [|split; vm_compute; reflexivity].
  apply (truncation_fair (fun t => t ∈ sample_txs) sample_genuine HomesteadSigner narrow_config []); [reflexivity|exact narrow_reachable|apply sample_chain_ok; eexists; reflexivity].
Defined.

End Witness.
