(* ===== verification/Cache.v ===== *)
(** * Bounded caches

    The backend remembers which peers have seen which messages in ARC caches
    ([github.com/hashicorp/golang-lru]).  The library is a parameter
    ([Cache]); what is documented of it are the laws ([CacheLaws]): a look-up
    finds what is stored and changes only the bookkeeping, an insertion stores
    its entry and may drop others.  The value types of a cache do not matter
    to it.  [fifo] is a concrete cache that satisfies the laws. *)
From Stdlib Require Import ZArith Lia.
From stdpp Require Import base list option gmap.
From S2P Require Import Prelude.
Open Scope Z_scope.

Class Cache := {
  arc : Type -> Type;
  NewARC {V} : nat -> arc V;
  arc_Get {V} : Z -> arc V -> option V * arc V;
  arc_Add {V} : Z -> V -> arc V -> arc V
}.

Class CacheLaws `{Cache} := {
  contents {V} : arc V -> gmap Z V;
  contents_new {V} n : contents (NewARC n : arc V) = ∅;
  arc_Get_value {V} k (c : arc V) : (arc_Get k c).1 = contents c !! k;
  arc_Get_keeps {V} k (c : arc V) : contents (arc_Get k c).2 = contents c;
  arc_Add_last {V} k v (c : arc V) : contents (arc_Add k v c) !! k = Some v;
  arc_Add_sub {V} k v (c : arc V) : contents (arc_Add k v c) ⊆ <[k := v]> (contents c)
}.

Section Laws.
Context `{CacheLaws}.

(** An entry that another insertion leaves in place is the old one. *)
Lemma arc_Add_other {V} k k' v w (c : arc V) : contents (arc_Add k v c) !! k' = Some w -> k' <> k ->
  contents c !! k' = Some w.
Proof.
  intros Hw Hne. pose proof (lookup_weaken _ _ _ _ Hw (arc_Add_sub k v c)) as Hi.
  by rewrite lookup_insert_ne in Hi.
Qed.

Lemma arc_Add_None {V} k k' v (c : arc V) : contents c !! k' = None -> k' <> k -> contents (arc_Add k v c) !! k' = None.
Proof.
  intros Hn Hne. destruct (contents (arc_Add k v c) !! k') as [w|] eqn:E; [|done].
  apply arc_Add_other in E; [congruence|done].
Qed.

End Laws.

(** ** A first-in, first-out cache *)

Record fifo (V : Type) := mkFifo { ff_size : nat; ff_entries : list (Z * V) }.
Arguments mkFifo {V} _ _.
Arguments ff_size {V} _.
Arguments ff_entries {V} _.

Definition fifo_cache : Cache := {|
  arc := fifo;
  NewARC V n := mkFifo (pred n) [];
  arc_Get V k c := ((list_to_map (ff_entries c) : gmap Z V) !! k, c);
  arc_Add V k v c := mkFifo (ff_size c) ((k, v) :: take (ff_size c) (ff_entries c))
|}.

Lemma take_map_sub {V} n (l : list (Z * V)) k v : (list_to_map (take n l) : gmap Z V) !! k = Some v ->
  (list_to_map l : gmap Z V) !! k = Some v.
Proof.
  revert l. induction n as [|n IH]; intros [|[k' w] l]; cbn; try done. destruct (decide (k' = k)) as [->|Hne].
  - by rewrite !lookup_insert_eq.
  - rewrite !lookup_insert_ne by done. apply IH.
Qed.

Program Definition fifo_laws : @CacheLaws fifo_cache := {| contents V c := list_to_map (ff_entries c) |}.
Next Obligation. done. Qed.
Next Obligation. done. Qed.
Next Obligation. done. Qed.
Next Obligation. intros. cbn. apply lookup_insert_eq. Qed.
Next Obligation.
  intros V k v c. apply map_subseteq_spec. cbn. intros k' w. destruct (decide (k' = k)) as [->|Hne].
  - by rewrite !lookup_insert_eq.
  - rewrite !lookup_insert_ne by done. apply take_map_sub.
Qed.
