(* ===== verification/MessageSet.v ===== *)
(** * Vote sets and the backlog (files [core/message_set.go], [core/backlog.go])

    [MessageSet] keeps one message per validator; [backlog] keeps one priority
    queue of future messages per sender.  Go iterates maps in an unspecified
    order: every iteration takes the order as an argument ([MapOrder]), of
    which only that it is a permutation is assumed.  The mutexes are not
    modelled. *)
From Stdlib Require Import ZArith Lia Strings.Byte.
From stdpp Require Import base list option strings gmap.
From S2P Require Import Prelude Errors Rlp Codec Common Validator Block Types Prque.
Open Scope Z_scope.

(** An order of iteration over maps. *)
Definition MapOrder := forall V : Type, gmap Z V -> list (Z * V).

Definition order_ok (o : MapOrder) : Prop := forall V (m : gmap Z V), o V m ≡ₚ map_to_list m.

Definition sorted_order : MapOrder := fun V m => map_to_list m.

Lemma sorted_order_ok : order_ok sorted_order.
Proof. by intros V m. Qed.

(** ** Message sets *)

Record MessageSet := mkMessageSet {
  ms_view : View;
  ms_vs : defaultSet;
  ms_msgs : gmap Z Message
}.

Definition NewMessageSet (valSet : defaultSet) : MessageSet := mkMessageSet (mkView 0 0) valSet ∅.

Definition MessageSet_View (s : MessageSet) : View := ms_view s.

Definition MessageSet_Add (msg : Message) (s : MessageSet) : outcome MessageSet :=
  let '(index, v) := GetByAddress (m_Address msg) (ms_vs s) in
  if (index <? 0) || (match v with None => true | Some _ => false end)
  then Err (ErrFmt "unauthorized address")
  else Ret (mkMessageSet (ms_view s) (ms_vs s) (<[m_Address msg := msg]> (ms_msgs s))).

Definition MessageSet_Values (o : MapOrder) (s : MessageSet) : list Message := (o _ (ms_msgs s)).*2.

Definition MessageSet_Size (s : MessageSet) : Z := Z.of_nat (size (ms_msgs s)).

Definition MessageSet_Get (addr : Address) (s : MessageSet) : option Message := ms_msgs s !! addr.

(** Messages are filed under their sender, a member of the set. *)
Definition ms_ok (s : MessageSet) : Prop :=
  map_Forall (fun a m => m_Address m = a /\ a ∈ AddressList (ms_vs s)) (ms_msgs s).

Lemma NewMessageSet_ok vs : ms_ok (NewMessageSet vs).
Proof. apply map_Forall_empty. Qed.

Lemma MessageSet_Add_inv msg s s' : MessageSet_Add msg s = Ret s' ->
  m_Address msg ∈ AddressList (ms_vs s) /\ ms_vs s' = ms_vs s /\
  ms_msgs s' = <[m_Address msg := msg]> (ms_msgs s).
Proof.
  unfold MessageSet_Add. pose proof (GetByAddress_snd (m_Address msg) (ms_vs s)) as Hg.
  destruct (GetByAddress (m_Address msg) (ms_vs s)) as [i v]. cbn in Hg.
  destruct (decide _) as [Hin|]; subst v; [|by rewrite orb_true_r].
  rewrite orb_false_r. destruct (i <? 0); [done|]. intros [= <-].
  split_and!; [by apply elem_of_AddressList|done|done].
Qed.

Lemma MessageSet_Add_ok msg s s' : ms_ok s -> MessageSet_Add msg s = Ret s' -> ms_ok s'.
Proof.
  intros Hok (Hin & Hv & Hm)%MessageSet_Add_inv. unfold ms_ok. rewrite Hv, Hm.
  apply map_Forall_insert_2; [by split|done].
Qed.

(** A member's message is always accepted. *)
Lemma MessageSet_Add_member msg s : m_Address msg ∈ AddressList (ms_vs s) ->
  MessageSet_Add msg s = Ret (mkMessageSet (ms_view s) (ms_vs s) (<[m_Address msg := msg]> (ms_msgs s))).
Proof.
  intros Hin%elem_of_AddressList. unfold MessageSet_Add.
  pose proof (GetByAddress_snd (m_Address msg) (ms_vs s)) as Hg. rewrite decide_True in Hg by done.
  destruct (GetByAddress (m_Address msg) (ms_vs s)) as [i v] eqn:E. cbn in Hg. subst v.
  apply GetByAddress_Some in E as (_ & Hi & _). destruct (Z.ltb_spec i 0); [lia|done].
Qed.

Lemma MessageSet_Values_perm o s : order_ok o -> MessageSet_Values o s ≡ₚ (map_to_list (ms_msgs s)).*2.
Proof. intros Ho. unfold MessageSet_Values. by rewrite (Ho _ (ms_msgs s)). Qed.

Lemma ms_senders s : ms_ok s ->
  m_Address <$> (map_to_list (ms_msgs s)).*2 = (map_to_list (ms_msgs s)).*1.
Proof.
  intros Hok. rewrite <- list_fmap_compose. apply list_fmap_ext. intros i [a m] Hi. cbn.
  apply list_elem_of_lookup_2, elem_of_map_to_list in Hi. by apply Hok in Hi as [-> _].
Qed.

(** The messages of a set come from distinct validators: their number,
    which the handlers compare with the quorum, counts senders, whatever the
    order of iteration and however often a validator repeats itself. *)
Theorem message_set_counts_validators o s : order_ok o -> ms_ok s ->
  NoDup (m_Address <$> MessageSet_Values o s) /\
  (forall a, a ∈ m_Address <$> MessageSet_Values o s -> a ∈ AddressList (ms_vs s)) /\
  MessageSet_Size s = Z.of_nat (length (MessageSet_Values o s)) /\
  MessageSet_Size s <= Size (ms_vs s).
Proof.
  intros Ho Hok.
  assert (m_Address <$> MessageSet_Values o s ≡ₚ (map_to_list (ms_msgs s)).*1) as Hp
    by by rewrite MessageSet_Values_perm, ms_senders.
  assert (NoDup (m_Address <$> MessageSet_Values o s)) as Hnd by (rewrite Hp; apply NoDup_fst_map_to_list).
  assert (forall a, a ∈ m_Address <$> MessageSet_Values o s -> a ∈ AddressList (ms_vs s)) as Hsub.
  { intros a Ha. rewrite Hp in Ha. apply list_elem_of_fmap in Ha as ([b m] & -> & Hi%elem_of_map_to_list).
    by apply Hok in Hi as [_ ?]. }
  assert (MessageSet_Size s = Z.of_nat (length (MessageSet_Values o s))) as Hsz.
  { unfold MessageSet_Size. f_equal. rewrite MessageSet_Values_perm by done. rewrite length_fmap.
    by rewrite length_map_to_list. }
  split_and!; try done. rewrite Hsz, <- (length_fmap m_Address). unfold Size.
  rewrite <- (length_fmap val_Address). change (val_Address <$> vs_validators (ms_vs s)) with (AddressList (ms_vs s)).
  apply inj_le, submseteq_length, NoDup_submseteq; [done|]. intros a. apply Hsub.
Qed.

Definition sample_message_set : MessageSet :=
  let vs := mkDefaultSet [New 1; New 2; New 3; New 4] RoundRobin None in
  mkMessageSet (mkView 0 0) vs {[ 2 := mkMessage 2 MsgTypePrepareVote (Some (mkView 1 5)) [] [];
                                  3 := mkMessage 3 MsgTypePrepareVote (Some (mkView 1 5)) [] [] ]}.

Lemma message_set_counts_validators_witness : MessageSet_Size sample_message_set <= Size (ms_vs sample_message_set).
Proof.
  apply (message_set_counts_validators sorted_order sample_message_set sorted_order_ok).
  decide_eval.
Defined.
