(* ===== verification/Backlog.v ===== *)
(** * Future messages (files [core/backlog.go], [core/utils.go])

    [checkView] classifies a message against the current view; messages of
    the next views wait in one priority queue per sender and are replayed when
    the view advances.  The loop of [processBacklog] over one queue is
    [drain_queue]; every turn pops an element and only the last one pushes
    one back, so the size of the queue is fuel enough. *)
From Stdlib Require Import ZArith Lia Strings.Byte.
From stdpp Require Import base list option strings gmap.
From S2P Require Import Prelude Errors Rlp Codec Common Validator Block Types Prque MessageSet.
Open Scope Z_scope.

Definition checkView (current : View) (view : option View) : outcome unit :=
  match view with
  | None => Err ErrInvalidMessage
  | Some v =>
      let '(hdiff, rdiff) := View_Sub v current in
      if hdiff <? 0 then Err ErrOldMessage
      else if 1 <? hdiff then Err ErrFarAwayFutureMessage
      else if hdiff =? 1 then Err ErrFutureMessage
      else if rdiff <? 0 then Err ErrOldMessage
      else if rdiff =? 0 then Ret tt
      else Err ErrFutureMessage
  end.

(** ** Queues *)

Definition backlog := gmap Z (Prque Message).

Definition newBackLog : backlog := ∅.

(** A code outside the table has priority 0. *)
Definition messagePriorityTable (code : MsgType) : Z :=
  if (1 <=? code) && (code <=? 8) then code else 0.

Definition toPriority (msgCode : MsgType) (view : View) : Z :=
  i64 (- (i64 (v_Height view) * 100 + i64 (v_Round view) * 10 + messagePriorityTable msgCode)).

Definition backlog_Push (msg : Message) (b : backlog) : backlog :=
  match m_View msg with
  | None => b
  | Some view =>
      if (m_Address msg =? EmptyAddress) || (MsgTypeDecide <? m_Code msg) then b
      else
        let q := default Prque_New (b !! m_Address msg) in
        <[m_Address msg := Prque_Push msg (toPriority (m_Code msg) view) q]> b
  end.

(** Popping from an unknown sender returns nothing; from an empty queue it
    panics. *)
Definition backlog_Pop (addr : Address) (b : backlog) : outcome (option (Message * Z) * backlog) :=
  match b !! addr with
  | None => Ret (None, b)
  | Some q => '(r, q') ← Prque_Pop q; Ret (Some r, <[addr := q']> b)
  end.

Definition backlog_Size (addr : Address) (b : backlog) : Z :=
  match b !! addr with None => 0 | Some q => Z.of_nat (Prque_Size q) end.

(** ** Replay *)

(** The queue that remains and the messages to replay, in order. *)
Fixpoint drain_queue (fuel : nat) (current : View) (q : Prque Message) (replay : list Message)
  : outcome (Prque Message * list Message) :=
  match fuel with
  | O => Ret (q, replay)
  | S f =>
      if Prque_Empty q then Ret (q, replay)
      else
        '((msg, priority), q') ← Prque_Pop q;
        match checkView current (m_View msg) with
        | Ret _ => drain_queue f current q' (replay ++ [msg])
        | Err e =>
            if decide (e = ErrFutureMessage) then Ret (Prque_Push msg priority q', replay)
            else drain_queue f current q' replay
        | Panic => Panic
        end
  end.

(** One turn of the loop over senders: unknown senders keep their queue. *)
Definition process_sender (current : View) (valSet : defaultSet) (addr : Address) (q : Prque Message)
  : outcome (Prque Message * list (Validator * Message)) :=
  match (GetByAddress addr valSet).2 with
  | None => Ret (q, [])
  | Some src =>
      '(q', msgs) ← drain_queue (Prque_Size q) current q [];
      Ret (q', map (pair src) msgs)
  end.

Fixpoint process_senders (current : View) (valSet : defaultSet) (qs : list (Address * Prque Message)) (b : backlog)
  : outcome (backlog * list (Validator * Message)) :=
  match qs with
  | [] => Ret (b, [])
  | (addr, q) :: qs' =>
      '(q', msgs) ← process_sender current valSet addr q;
      '(b', rest) ← process_senders current valSet qs' (<[addr := q']> b);
      Ret (b', msgs ++ rest)
  end.

Definition processBacklog_loop (o : MapOrder) (current : View) (valSet : defaultSet) (b : backlog)
  : outcome (backlog * list (Validator * Message)) :=
  process_senders current valSet (o _ b) b.

(** ** Lemmas *)

Lemma checkView_spec current v :
  Z.abs (v_Height v - v_Height current) < 2 ^ 63 -> Z.abs (v_Round v - v_Round current) < 2 ^ 63 ->
  checkView current (Some v) =
    if v_Height v <? v_Height current then Err ErrOldMessage
    else if v_Height current + 1 <? v_Height v then Err ErrFarAwayFutureMessage
    else if v_Height v =? v_Height current + 1 then Err ErrFutureMessage
    else if v_Round v <? v_Round current then Err ErrOldMessage
    else if v_Round v =? v_Round current then Ret tt
    else Err ErrFutureMessage.
Proof.
  intros Hh Hr. unfold checkView, View_Sub. rewrite !i64_small by lia.
  repeat match goal with
  | |- context [?a <? ?b] => destruct (Z.ltb_spec a b); try lia; try done
  | |- context [?a =? ?b] => destruct (Z.eqb_spec a b); try lia; try done
  end.
Qed.

Lemma checkView_cases current v :
  Z.abs (v_Height v - v_Height current) < 2 ^ 63 -> Z.abs (v_Round v - v_Round current) < 2 ^ 63 ->
  (checkView current (Some v) = Ret tt <-> v = current) /\
  (checkView current (Some v) = Err ErrOldMessage <-> view_lt v current) /\
  (checkView current (Some v) = Err ErrFarAwayFutureMessage <-> v_Height current + 1 < v_Height v) /\
  (checkView current (Some v) = Err ErrFutureMessage <-> view_lt current v /\ v_Height v <= v_Height current + 1).
Proof.
  intros Hh Hr. rewrite checkView_spec by done. unfold view_lt. destruct v as [r h], current as [r0 h0]. cbn in *.
  destruct (Z.ltb_spec h h0), (Z.ltb_spec (h0 + 1) h), (Z.eqb_spec h (h0 + 1)), (Z.ltb_spec r r0), (Z.eqb_spec r r0);
    split_and!; split; intros; simplify_eq; try done; try lia; f_equal; lia.
Qed.

Lemma checkView_no_panic current v : checkView current v <> Panic.
Proof.
  destruct v as [v|]; [|done]. unfold checkView. destruct (View_Sub v current) as [h r].
  by repeat case_match.
Qed.

Definition is_future (current : View) (m : Message) : bool :=
  match checkView current (m_View m) with Err e => bool_decide (e = ErrFutureMessage) | _ => false end.

Definition is_current (current : View) (m : Message) : bool :=
  match checkView current (m_View m) with Ret _ => true | _ => false end.

#[global] Instance view_lt_dec v w : Decision (view_lt v w).
Proof. unfold view_lt. apply _. Defined.

Lemma is_future_spec current m v : m_View m = Some v ->
  Z.abs (v_Height v - v_Height current) < 2 ^ 63 -> Z.abs (v_Round v - v_Round current) < 2 ^ 63 ->
  is_future current m = bool_decide (view_lt current v /\ v_Height v <= v_Height current + 1).
Proof.
  intros Hv Hh Hr. unfold is_future. rewrite Hv.
  destruct (checkView_cases current v Hh Hr) as (_ & _ & _ & Hf).
  destruct (checkView current (Some v)) as [|e|] eqn:E.
  - symmetry. apply bool_decide_eq_false. intros Hx. by apply Hf in Hx.
  - apply bool_decide_ext. rewrite <- Hf. split; [by intros ->|by intros [= ->]].
  - symmetry. apply bool_decide_eq_false. intros Hx. by apply Hf in Hx.
Qed.

(** The loop on one queue, when no future message outranks a message that is
    not: it replays exactly the messages of the current view and keeps exactly
    the future ones. *)
Lemma drain_queue_spec fuel current q l replay : pq_rel q l -> (length l <= fuel)%nat ->
  (forall x y, x ∈ l -> y ∈ l -> is_future current (it_value x) = true ->
     is_future current (it_value y) = false -> it_priority x < it_priority y) ->
  exists q' msgs, drain_queue fuel current q replay = Ret (q', replay ++ msgs) /\
    msgs ≡ₚ filter (fun m => is_current current m = true) (it_value <$> l) /\
    pq_rel q' (filter (fun x => is_future current (it_value x) = true) l).
Proof.
  revert q l replay. induction fuel as [|fuel IH]; intros q l replay Hq Hlen Hmono.
  { destruct l; [|cbn in Hlen; lia]. exists q, []. by rewrite app_nil_r. }
  cbn [drain_queue]. destruct (Prque_Empty q) eqn:He.
  { apply (Prque_Empty_rel q l Hq) in He as ->. exists q, []. by rewrite app_nil_r. }
  assert (l <> []) as Hne by (intros Hl; apply (Prque_Empty_rel q l Hq) in Hl; congruence).
  destruct (Prque_Pop_rel q l Hq Hne) as (x & q' & l' & -> & Hl & Hq' & Hmax). cbn [mbind outcome_bind].
  assert (length l' <= fuel)%nat as Hlen' by (apply Permutation_length in Hl; cbn in Hl; lia).
  assert (forall y, y ∈ l' -> y ∈ l) as Hsub by (intros y Hy; rewrite Hl; by right).
  assert (x ∈ l) as Hx by (rewrite Hl; left).
  assert (forall y z, y ∈ l' -> z ∈ l' -> is_future current (it_value y) = true ->
     is_future current (it_value z) = false -> it_priority y < it_priority z) as Hmono' by auto.
  assert (forall P `{!forall m, Decision (P m)}, filter P l ≡ₚ filter P (x :: l')) as Hfl
    by (intros; by rewrite Hl).
  assert (forall P `{!forall m, Decision (P m)}, filter P (it_value <$> l) ≡ₚ filter P (it_value x :: (it_value <$> l'))) as Hfm
    by (intros; by rewrite Hl).
  pose proof (checkView_no_panic current (m_View (it_value x))) as Hnp.
  destruct (checkView current (m_View (it_value x))) as [[]|e|] eqn:Ec; [| |done].
  - destruct (IH q' l' (replay ++ [it_value x]) Hq' Hlen' Hmono') as (q'' & msgs & -> & Hm & Hq'').
    exists q'', (it_value x :: msgs). rewrite <- app_assoc. split_and!; [done| |].
    + rewrite (Hfm _ _), filter_cons_True by (unfold is_current; by rewrite Ec). by rewrite Hm.
    + rewrite (Hfl _ _), filter_cons_False by (unfold is_future; by rewrite Ec). done.
  - destruct (decide (e = ErrFutureMessage)) as [->|Hef].
    + assert (forall y, y ∈ l' -> is_future current (it_value y) = true) as Hall.
      { intros y Hy. destruct (is_future current (it_value y)) eqn:Ey; [done|].
        assert (it_priority x < it_priority y); [|specialize (Hmax y Hy); lia].
        apply Hmono; auto. unfold is_future. by rewrite Ec. }
      exists (Prque_Push (it_value x) (it_priority x) q'), []. rewrite app_nil_r. split_and!; [done| |].
      * rewrite (Hfm _ _), filter_cons_False by (unfold is_current; by rewrite Ec).
        symmetry. apply Permutation_nil_r, filter_none.
        intros m Hm Hc. apply list_elem_of_fmap in Hm as (y & -> & Hy). specialize (Hall y Hy).
        unfold is_future, is_current in *. by destruct (checkView current (m_View (it_value y))).
      * rewrite (Hfl _ _), filter_cons_True by (unfold is_future; rewrite Ec; by rewrite bool_decide_eq_true).
        rewrite (filter_all _ l') by done.
        destruct x as [v p]. by apply Prque_Push_rel.
    + destruct (IH q' l' replay Hq' Hlen' Hmono') as (q'' & msgs & -> & Hm & Hq'').
      exists q'', msgs. split_and!; [done| |].
      * rewrite (Hfm _ _), filter_cons_False by (unfold is_current; by rewrite Ec). done.
      * rewrite (Hfl _ _), filter_cons_False; [done|]. unfold is_future. rewrite Ec. by rewrite bool_decide_eq_true.
Qed.

(** ** Properties *)

(** A queued message, with the bounds under which its priority follows the
    order of views. *)
Record queued_ok (current : View) (x : pitem Message) : Prop := {
  qo_view : exists v, m_View (it_value x) = Some v /\ it_priority x = toPriority (m_Code (it_value x)) v /\
    0 <= v_Round v <= 9 /\ 0 <= v_Height v <= v_Height current + 1;
  qo_code : 0 <= m_Code (it_value x) <= 8
}.

Lemma toPriority_small code v : 0 <= code <= 8 -> 0 <= v_Round v <= 9 -> 0 <= v_Height v < 2 ^ 56 ->
  exists c, 0 <= c <= 8 /\ toPriority code v = - (v_Height v * 100 + v_Round v * 10 + c).
Proof.
  intros Hc Hr Hh. exists (messagePriorityTable code). unfold toPriority.
  assert (0 <= messagePriorityTable code <= 8) as Ht.
  { unfold messagePriorityTable. destruct (_ && _); lia. }
  split; [done|]. rewrite (i64_small (v_Height v)), (i64_small (v_Round v)), i64_small by lia. done.
Qed.

Lemma queued_mono current x y : 0 <= v_Round current < 2 ^ 62 -> 0 <= v_Height current < 2 ^ 55 ->
  queued_ok current x -> queued_ok current y ->
  is_future current (it_value x) = true -> is_future current (it_value y) = false ->
  it_priority x < it_priority y.
Proof.
  intros Hcr Hch [(v & Hv & Hp & Hr & Hh) Hc] [(w & Hw & Hp' & Hr' & Hh') Hc'].
  destruct (toPriority_small _ v Hc Hr) as (c & Hcb & Ec); [lia|].
  destruct (toPriority_small _ w Hc' Hr') as (c' & Hcb' & Ec'); [lia|].
  rewrite (is_future_spec current _ v Hv), (is_future_spec current _ w Hw) by lia.
  rewrite Hp, Hp', Ec, Ec'. intros Hf%bool_decide_eq_true Hn%bool_decide_eq_false. unfold view_lt in *. lia.
Qed.

(** When the view advances, replaying a sender's backlog delivers
    exactly the messages of the new view, drops the older ones and keeps the
    later ones queued, as long as rounds stay below 10. *)
Theorem backlog_replays_current_view current q l :
  0 <= v_Round current < 2 ^ 62 -> 0 <= v_Height current < 2 ^ 55 ->
  pq_rel q l -> Forall (queued_ok current) l ->
  exists q' msgs, drain_queue (Prque_Size q) current q [] = Ret (q', msgs) /\
    msgs ≡ₚ filter (fun m => is_current current m = true) (it_value <$> l) /\
    pq_rel q' (filter (fun x => is_future current (it_value x) = true) l).
Proof.
  intros Hr Hh Hq Hl. apply (drain_queue_spec _ current q l []); [done| |].
  - by rewrite (Prque_Size_rel q l).
  - rewrite Forall_forall in Hl. intros x y Hx Hy. apply queued_mono; auto.
Qed.

(** A message in round 10 of the current height, and one of the next height. *)
Definition late_message : Message := mkMessage 2 MsgTypeDecide (Some (mkView 10 1)) [] [].
Definition next_message : Message := mkMessage 2 MsgTypeNewView (Some (mkView 0 2)) [] [].

(** From round 10 on, the priority of a message no longer follows its
    view: a message of the next height is popped first, the loop stops at it,
    and the message of the current view behind it is not replayed. *)
Theorem late_round_message_starves :
  let b := backlog_Push late_message (backlog_Push next_message newBackLog) in
  checkView (mkView 10 1) (m_View late_message) = Ret tt /\
  match processBacklog_loop sorted_order (mkView 10 1) (mkDefaultSet [New 2] RoundRobin None) b with
  | Ret (b', replayed) => replayed = [] /\ backlog_Size 2 b' = 2
  | _ => False
  end.
Proof. split; [reflexivity|]. vm_compute. split; reflexivity. Qed.

(** The classification of a message's view: older views are old, more
    than one height ahead is too far, the current view is accepted, and
    everything in between waits. *)
Theorem checkView_classifies current v :
  Z.abs (v_Height v - v_Height current) < 2 ^ 63 -> Z.abs (v_Round v - v_Round current) < 2 ^ 63 ->
  (checkView current (Some v) = Ret tt <-> v = current) /\
  (checkView current (Some v) = Err ErrOldMessage <-> view_lt v current) /\
  (checkView current (Some v) = Err ErrFarAwayFutureMessage <-> v_Height current + 1 < v_Height v) /\
  (checkView current (Some v) = Err ErrFutureMessage <-> view_lt current v /\ v_Height v <= v_Height current + 1).
Proof.
  apply checkView_cases.
Qed.

(** ** Witnesses *)

Lemma backlog_replays_current_view_witness :
  exists q' msgs,
    drain_queue (Prque_Size (Prque_Push sample_message (toPriority MsgTypeNewView sample_view) Prque_New))
      sample_view (Prque_Push sample_message (toPriority MsgTypeNewView sample_view) Prque_New) [] = Ret (q', msgs) /\
    msgs ≡ₚ [sample_message].
Proof.
  destruct (backlog_replays_current_view sample_view
    (Prque_Push sample_message (toPriority MsgTypeNewView sample_view) Prque_New)
    [mkItem sample_message (toPriority MsgTypeNewView sample_view)]) as (q' & msgs & H1 & H2 & _).
  - vm_compute. split; congruence.
  - vm_compute. split; congruence.
  - apply Prque_Push_rel, Prque_New_rel.
  - constructor; [|constructor]. constructor; [exists sample_view|]; vm_compute; repeat split; congruence.
  - exists q', msgs. split; [exact H1|exact H2].
Defined.

Lemma checkView_classifies_witness : checkView (mkView 1 5) (Some (mkView 3 5)) = Err ErrFutureMessage.
Proof.
  apply (checkView_classifies (mkView 1 5) (mkView 3 5)); [reflexivity|reflexivity|].
  split; [right|]; vm_compute; split || idtac; congruence || reflexivity.
Defined.
