(* ===== verification/Protocol.v ===== *)
(** * The protocol of a replica

    What the handlers of a replica promise to the others, without messages,
    stores and timers: a replica is in a view, has at most one proposed node
    and at most one locked block, and keeps a log of the votes it has signed,
    of the lock certificates it has announced as a leader and of its
    decisions.  [astep] is the step relation, [protocol_invariant] what every
    run keeps, and [decisions_agree] the agreement argument: it only uses
    this interface, to which the refinement in [Refinement] connects the code. *)
From Stdlib Require Import ZArith Lia.
From stdpp Require Import base list option relations.
From S2P Require Import Prelude Common Validator Types.
Open Scope Z_scope.

Inductive AEntry :=
| AVote (code : MsgType) (view : View) (node block : Hash)
| ALead (view : View)
| ADecide (qc : QuorumCert) (view : View) (block : Hash).

Definition e_view (e : AEntry) : View :=
  match e with AVote _ v _ _ => v | ALead v => v | ADecide _ v _ => v end.

Record Replica := mkReplica {
  a_view : View;
  a_node : option (Hash * Hash);
  a_lock : option Hash;
  a_log : list AEntry
}.

Definition a_init : Replica := mkReplica (mkView 0 0) None None [].

(** Heights and rounds that fit in 64 bits. *)
Definition in_range (v : View) : Prop := 0 <= v_Height v < 2 ^ 64 /\ 0 <= v_Round v < 2 ^ 64.

(** Equal after truncation to 64 bits, which is how views are compared. *)
Definition same_u64 (v w : View) : Prop :=
  u64 (v_Height v) = u64 (v_Height w) /\ u64 (v_Round v) = u64 (v_Round w).

Definition view_le (v w : View) : Prop := v = w \/ view_lt v w.

Section Steps.
Variable certified : QuorumCert -> Prop.

Inductive astep : Replica -> Replica -> Prop :=
| as_round v r n l g : v_Round v < r < 2 ^ 64 ->
    astep (mkReplica v n l g) (mkReplica (mkView r (v_Height v)) n l g)
| as_height v v' n l g n' l' : v_Height v < v_Height v' -> in_range v' ->
    (forall b, l' = Some b -> exists h, n' = Some (h, b)) ->
    astep (mkReplica v n l g) (mkReplica v' n' l' g)
| as_node v n l g h b : (forall b', l = Some b' -> b' = b) ->
    astep (mkReplica v n l g) (mkReplica v (Some (h, b)) l g)
| as_lock v h b l g :
    astep (mkReplica v (Some (h, b)) l g) (mkReplica v (Some (h, b)) (Some b) g)
| as_vote v h b l g code : (code = MsgTypeCommitVote -> is_Some l) ->
    astep (mkReplica v (Some (h, b)) l g) (mkReplica v (Some (h, b)) l (g ++ [AVote code v h b]))
| as_lead v n l g : is_Some l ->
    astep (mkReplica v n l g) (mkReplica v n l (g ++ [ALead v]))
| as_decide v w h b g qc : certified qc -> qc_Code qc = MsgTypeCommitVote -> qc_ProposedBlock qc = h ->
    qc_View qc = Some w -> same_u64 w v ->
    astep (mkReplica v (Some (h, b)) (Some b) g) (mkReplica v (Some (h, b)) (Some b) (g ++ [ADecide qc v b])).

(** ** The invariant *)

Record protocol_invariant (a : Replica) : Prop := {
  pi_range : in_range (a_view a);
  pi_past e : e ∈ a_log a -> view_le (e_view e) (a_view a) /\ in_range (e_view e);
  pi_lock b : a_lock a = Some b -> exists h, a_node a = Some (h, b);
  pi_commit v n b : AVote MsgTypeCommitVote v n b ∈ a_log a -> v_Height v = v_Height (a_view a) -> a_lock a = Some b;
  pi_lead v : ALead v ∈ a_log a -> v_Height v = v_Height (a_view a) -> is_Some (a_lock a);
  pi_agree v n b v' n' b' : AVote MsgTypeCommitVote v n b ∈ a_log a -> AVote MsgTypeCommitVote v' n' b' ∈ a_log a ->
    v_Height v = v_Height v' -> b = b';
  pi_decide qc v b : ADecide qc v b ∈ a_log a -> certified qc /\ qc_Code qc = MsgTypeCommitVote /\
    exists w, qc_View qc = Some w /\ same_u64 w v
}.

Lemma a_init_ok : protocol_invariant a_init.
Proof. constructor; cbn; intros; by (set_solver || done). Qed.

Lemma view_le_height v w : view_le v w -> v_Height v <= v_Height w.
Proof. unfold view_le, view_lt. intros [->|]; lia. Qed.

Lemma view_le_lt v w x : view_le v w -> view_lt w x -> view_le v x.
Proof. intros [->|H] Hl; right; [done|by eapply view_lt_trans]. Qed.

Lemma elem_of_snoc {A} (x y : A) l : x ∈ l ++ [y] <-> x ∈ l \/ x = y.
Proof. by rewrite elem_of_app, list_elem_of_singleton. Qed.

Lemma log_extend a e : protocol_invariant a -> e_view e = a_view a ->
  forall e', e' ∈ a_log a ++ [e] -> view_le (e_view e') (a_view a) /\ in_range (e_view e').
Proof.
  intros Hi He e' [H| ->]%elem_of_snoc; [by apply (pi_past a Hi)|].
  rewrite He. split; [by left|apply Hi].
Qed.

Lemma astep_invariant a a' : astep a a' -> protocol_invariant a -> protocol_invariant a'.
Proof.
  intros Hs Hi. pose proof Hi as [Hr Hp Hl Hc Hd Ha Hq].
  destruct Hs as [v r n l g Hr'|v v' n l g n' l' Hlt Hv' Hl'|v n l g h b Hb|v h b l g|v h b l g code Hcode|v n l g Hsome|v w h b g qc ? ? ? ? ?];
    constructor; cbn in *; try done.
  - destruct Hr. split; cbn; lia.
  - intros e He. destruct (Hp e He) as [Hle ?]. split; [|done]. eapply view_le_lt; [done|]. right. cbn. lia.
  - intros e He. destruct (Hp e He) as [Hle ?]. split; [|done]. eapply view_le_lt; [done|]. by left.
  - intros w m b He Hh. apply Hp in He as [Hle%view_le_height _]. cbn in Hle. lia.
  - intros w He Hh. apply Hp in He as [Hle%view_le_height _]. cbn in Hle. lia.
  - intros b' Hb'. rewrite (Hb _ Hb'). by exists h.
  - intros b' [= <-]. by exists h.
  - intros w m b' He Hh. specialize (Hc _ _ _ He Hh). destruct (Hl _ Hc) as (? & [= ? ?]). congruence.
  - apply (log_extend _ (AVote code v h b) Hi eq_refl).
  - intros w m b' [He|[= <- -> -> ->]]%elem_of_snoc Hh; [by eapply Hc|].
    destruct Hcode as [x ->]; [done|]. by destruct (Hl x eq_refl) as (? & [= _ ->]).
  - intros w [He|?]%elem_of_snoc Hh; [by eapply Hd|done].
  - assert (forall w m x, AVote MsgTypeCommitVote w m x ∈ g -> v_Height w = v_Height v -> code = MsgTypeCommitVote -> x = b) as Hx.
    { intros w m x He Hh _. specialize (Hc _ _ _ He Hh). by destruct (Hl _ Hc) as (? & [= _ ->]). }
    intros w m b1 w' m' b2 [H1|[= Hc1 -> -> ->]]%elem_of_snoc [H2|[= Hc2 -> -> ->]]%elem_of_snoc Hh.
    + by eapply Ha. + by eapply Hx. + symmetry. by eapply Hx. + done.
  - intros q w x [He|?]%elem_of_snoc; [by eapply Hq|done].
  - apply (log_extend _ (ALead v) Hi eq_refl).
  - intros w m x [He|?]%elem_of_snoc Hh; [by eapply Hc|done].
  - intros w m b1 w' m' b2 [H1|?]%elem_of_snoc [H2|?]%elem_of_snoc Hh; [by eapply Ha|done..].
  - intros q w x [He|?]%elem_of_snoc; [by eapply Hq|done].
  - apply (log_extend _ (ADecide qc v b) Hi eq_refl).
  - intros w' m x [He|?]%elem_of_snoc Hh; [by eapply Hc|done].
  - intros w1 m1 b1 w2 m2 b2 [He1|?]%elem_of_snoc [He2|?]%elem_of_snoc Hh; [by eapply Ha|done..].
  - intros q w' x [He|[= -> -> ->]]%elem_of_snoc; [by eapply Hq|]. split_and!; [done..|]. by exists w.
Qed.

Lemma run_invariant a : rtc astep a_init a -> protocol_invariant a.
Proof.
  apply (rtc_ind_r (fun a => protocol_invariant a)); [apply a_init_ok|].
  intros x y _ Hs Hx. by eapply astep_invariant.
Qed.

(** Views only move forward, and a locked block stays locked as long as the
    height does. *)
Lemma astep_forward a a' : astep a a' -> view_le (a_view a) (a_view a').
Proof. intros []; cbn; try by left. - right; right; cbn; lia. - right; by left. Qed.

Lemma astep_lock a a' b : astep a a' -> protocol_invariant a -> a_lock a = Some b ->
  v_Height (a_view a') = v_Height (a_view a) -> a_lock a' = Some b.
Proof.
  intros Hs Hi Hb Hh. destruct Hs; cbn in *; try done; [lia|].
  subst l. by destruct (pi_lock _ Hi b eq_refl) as (? & [= _ ->]).
Qed.

Lemma view_le_trans u v w : view_le u v -> view_le v w -> view_le u w.
Proof. intros H1 [<-|H2]; [done|]. by eapply view_le_lt. Qed.

Lemma run_forward a a' : rtc astep a a' -> view_le (a_view a) (a_view a').
Proof. induction 1 as [a|a1 a2 a3 H1 _ IH]; [by left|]. eapply view_le_trans; [by apply astep_forward|done]. Qed.

Lemma run_lock a a' b : rtc astep a a' -> protocol_invariant a -> a_lock a = Some b ->
  v_Height (a_view a') = v_Height (a_view a) -> a_lock a' = Some b.
Proof.
  induction 1 as [a|a1 a2 a3 H1 H2 IH]; intros Hi Hb Hh; [done|].
  pose proof (view_le_height _ _ (astep_forward _ _ H1)). pose proof (view_le_height _ _ (run_forward _ _ H2)).
  apply IH; [by eapply astep_invariant| |lia]. eapply astep_lock; [done..|]. lia.
Qed.

(** While a block is locked, every vote is for it. *)
Lemma astep_votes a a' b code v n b' : astep a a' -> protocol_invariant a -> a_lock a = Some b ->
  AVote code v n b' ∈ a_log a' -> AVote code v n b' ∈ a_log a \/ b' = b.
Proof.
  intros Hs Hi Hb. destruct Hs; cbn in *; try (by left).
  - intros [He|[= -> -> -> ->]]%elem_of_snoc; [by left|]. right.
    destruct (pi_lock _ Hi b Hb) as (? & Hn). cbn in Hn. congruence.
  - intros [He|?]%elem_of_snoc; [by left|done].
  - intros [He|?]%elem_of_snoc; [by left|done].
Qed.

End Steps.

Lemma same_u64_range v w : in_range v -> in_range w -> same_u64 v w -> v = w.
Proof.
  intros [Hh Hr] [Hh' Hr'] [E1 E2]. rewrite !u64_small in E1, E2 by lia. destruct v, w. cbn in *. congruence.
Qed.

(** ** Agreement *)

(** The node and the block an entry is about. *)
Definition e_names (e : AEntry) : option (Hash * Hash) :=
  match e with
  | AVote _ _ n b => Some (n, b)
  | ALead _ => None
  | ADecide qc _ b => Some (qc_ProposedBlock qc, b)
  end.

Section Agreement.
Context (vs : defaultSet) (faulty : list Validator) (certified : Address -> QuorumCert -> Prop).

(** The protocol states a validator's replica may be in. *)
Context (replica : Address -> Replica -> Prop).

Definition honest (v : Validator) : Prop := v ∈ vs_validators vs /\ v ∉ faulty.

(** A quorum of validators, the honest ones among which signed the vote the
    certificate stands for. *)
Definition backed (qc : QuorumCert) : Prop :=
  exists A w, NoDup A /\ A ⊆ vs_validators vs /\ Q vs <= Z.of_nat (length A) /\ qc_View qc = Some w /\
    forall v a, v ∈ A -> v ∉ faulty -> replica (val_Address v) a ->
      exists b, AVote (qc_Code qc) w (qc_ProposedBlock qc) b ∈ a_log a.

Record network_ok : Prop := {
  no_size : 0 < Size vs;
  no_faulty : Z.of_nat (length faulty) <= F vs;
  no_total v : honest v -> exists a, replica (val_Address v) a;
  no_runs v a : honest v -> replica (val_Address v) a -> rtc (astep (certified (val_Address v))) a_init a;
  no_backed v qc : honest v -> certified (val_Address v) qc -> backed qc
}.

(** Two entries that name different blocks by the same node hash. *)
Definition collision : Prop :=
  exists u v a a' e e' n b b', honest u /\ honest v /\ replica (val_Address u) a /\ replica (val_Address v) a' /\
    e ∈ a_log a /\ e' ∈ a_log a' /\ e_names e = Some (n, b) /\ e_names e' = Some (n, b') /\ b <> b'.

Lemma honest_invariant v a : network_ok -> honest v -> replica (val_Address v) a ->
  protocol_invariant (certified (val_Address v)) a.
Proof. intros Hok Hv Ha. by apply run_invariant, (no_runs Hok v a). Qed.

(** More than [F] distinct validators include an honest one. *)
Lemma more_than_F_honest (L : list Validator) : network_ok -> NoDup L -> F vs < Z.of_nat (length L) -> exists v, v ∈ L /\ v ∉ faulty.
Proof.
  intros Hok Hnd Hlen. destruct (decide (Exists (fun v => v ∉ faulty) L)) as [He|Hn].
  - by apply Exists_exists in He.
  - exfalso. apply not_Exists_Forall in Hn; [|intros; apply _]. rewrite Forall_forall in Hn.
    assert (length L <= length faulty)%nat; [|pose proof (no_faulty Hok); lia].
    apply submseteq_length, NoDup_submseteq; [done|]. intros v Hv. by apply dec_stable, Hn.
Qed.

(** An honest validator signed both certificates. *)
Lemma backed_common_voter qc qc' : network_ok -> backed qc -> backed qc' ->
  exists v a w w' b b', honest v /\ replica (val_Address v) a /\ qc_View qc = Some w /\ qc_View qc' = Some w' /\
    AVote (qc_Code qc) w (qc_ProposedBlock qc) b ∈ a_log a /\ AVote (qc_Code qc') w' (qc_ProposedBlock qc') b' ∈ a_log a.
Proof.
  intros Hok (A & w & HA & HAs & HAq & Hw & HAv) (B & w' & HB & HBs & HBq & Hw' & HBv).
  destruct (more_than_F_honest (filter (fun v => v ∈ B) A) Hok) as (v & [HvB HvA]%list_elem_of_filter & Hv).
  - by apply list.NoDup_filter.
  - pose proof (list_intersection_length A B _ HA HB HAs HBs). pose proof (F_bounds vs (no_size Hok)).
    unfold Q, Size in *. lia.
  - assert (honest v) as Hh by (split; [by apply HAs|done]). destruct (no_total Hok v Hh) as (a & Ha).
    destruct (HAv v a HvA Hv Ha) as (b & Hb), (HBv v a HvB Hv Ha) as (b' & Hb'). exists v, a, w, w', b, b'. done.
Qed.

Lemma decisions_agree u v a a' qc qc' w w' b b' : network_ok -> honest u -> honest v ->
  replica (val_Address u) a -> replica (val_Address v) a' ->
  ADecide qc w b ∈ a_log a -> ADecide qc' w' b' ∈ a_log a' -> v_Height w = v_Height w' -> b = b' \/ collision.
Proof.
  intros Hok Hu Hv Ha Ha' Hd Hd' Hh.
  pose proof (honest_invariant u a Hok Hu Ha) as Iu. pose proof (honest_invariant v a' Hok Hv Ha') as Iv.
  destruct (pi_decide _ _ Iu _ _ _ Hd) as (Hc & Hcode & w1 & Hw1 & Hs1).
  destruct (pi_decide _ _ Iv _ _ _ Hd') as (Hc' & Hcode' & w2 & Hw2 & Hs2).
  destruct (backed_common_voter qc qc' Hok (no_backed Hok u qc Hu Hc) (no_backed Hok v qc' Hv Hc'))
    as (x & ax & w1' & w2' & c1 & c2 & Hx & Hax & E1 & E2 & V1 & V2).
  rewrite Hw1 in E1. rewrite Hw2 in E2. injection E1 as <-. injection E2 as <-.
  pose proof (honest_invariant x ax Hok Hx Hax) as Ix. rewrite Hcode in V1. rewrite Hcode' in V2.
  destruct (pi_past _ _ Ix _ V1) as [_ R1], (pi_past _ _ Ix _ V2) as [_ R2].
  destruct (pi_past _ _ Iu _ Hd) as [_ R3], (pi_past _ _ Iv _ Hd') as [_ R4]. cbn [e_view] in *.
  pose proof (same_u64_range _ _ R1 R3 Hs1) as ->. pose proof (same_u64_range _ _ R2 R4 Hs2) as ->.
  destruct (decide (b = c1)) as [->|Hne]; [|right; exists u, x, a, ax, (ADecide qc w b), (AVote MsgTypeCommitVote w (qc_ProposedBlock qc) c1); eauto 20].
  destruct (decide (b' = c2)) as [->|Hne]; [|right; exists v, x, a', ax, (ADecide qc' w' b'), (AVote MsgTypeCommitVote w' (qc_ProposedBlock qc') c2); eauto 20].
  left. by apply (pi_agree _ _ Ix _ _ _ _ _ _ V1 V2).
Qed.

End Agreement.
