(* ===== verification/RoundState.v ===== *)
(** * The state of a replica (files [core/round_state.go], [core/core.go])

    [roundState] is the state of the current view, [Core] that of the engine:
    the database (nil or a map of keys), the signer, the validator set, the
    backlog, the queue of block requests, the armed timer and the log of what
    was sent.  What the engine asks of its surroundings while it handles one
    event is collected in [Env]: the chain's head, the verdicts of the backend
    on blocks, the database's write errors, the clock and the iteration order
    of maps.  The methods of [roundState] follow, in the state monad over
    [Core], since they reach the database through it. *)
From Stdlib Require Import ZArith Lia Strings.Byte.
From stdpp Require Import base list option strings gmap.
From S2P Require Import Prelude Errors Rlp Codec Common Validator Block Types Signer Prque MessageSet Backlog.
Open Scope Z_scope.

Section State.
Context `{Keccak} `{Crypto}.

(** [consensus.ExecutedBlock]: state, receipts and logs are opaque. *)
Record ExecutedBlock := mkExecuted {
  xb_Block : option Block;
  xb_State : Z
}.

Record roundState := mkRoundState {
  rs_vs : defaultSet;
  rs_round : Z;
  rs_height : Z;
  rs_state : State;
  rs_lastChainedBlock : Block;
  rs_pendingRequest : option Request;
  rs_node : option ProposedBlock;
  rs_lockedBlock : option Block;
  rs_executed : option ExecutedBlock;
  rs_proposalLocked : bool;
  rs_newViews : MessageSet;
  rs_prepareVotes : MessageSet;
  rs_preCommitVotes : MessageSet;
  rs_commitVotes : MessageSet;
  rs_highQC : option QuorumCert;
  rs_prepareQC : option QuorumCert;
  rs_lockQC : option QuorumCert;
  rs_committedQC : option QuorumCert
}.

(** What the engine does to its surroundings, in order.  A payload is recorded
    with the message it encodes, a use of the threshold key with the vote it
    signs and the node at hand, and a call of [Commit] with the height and the
    node the replica is at. *)
Inductive Effect :=
| ESign (vote : Vote) (node : option ProposedBlock)
| EUnicast (target : Address) (msg : Message) (payload : bytes)
| EBroadcast (msg : Message) (payload : bytes)
| EPostRequest (block : Block)
| EPostBacklog (src : Validator) (msg : Message)
| ECommit (height : Z) (node : option ProposedBlock) (executed : ExecutedBlock)
| ESleepUntil (time : Z).

Record Core := mkCore {
  c_db : option (gmap string bytes);
  c_requestTimeout : Z;
  c_current : option roundState;
  c_signer : HotstuffSigner;
  c_valSet : defaultSet;
  c_backlogs : backlog;
  c_pendingRequests : Prque Request;
  c_isRunning : bool;
  c_timer : option Z;
  c_out : list Effect
}.

Record Env := mkEnv {
  e_LastProposal : option Block * Address;
  e_Verify : Block -> outcome unit;
  e_ExecuteBlock : Block -> outcome ExecutedBlock;
  e_SealBlock : Block -> QuorumCert -> outcome Block;
  e_Commit : ExecutedBlock -> outcome unit;
  e_put : string -> bytes -> outcome unit;
  e_now : Z;
  e_float_overflow : Z;
  e_order : MapOrder
}.

(** ** Field updates *)

Definition set_rs_state (v : State) (s : roundState) : roundState :=
  mkRoundState (rs_vs s) (rs_round s) (rs_height s) v (rs_lastChainedBlock s) (rs_pendingRequest s)
    (rs_node s) (rs_lockedBlock s) (rs_executed s) (rs_proposalLocked s) (rs_newViews s)
    (rs_prepareVotes s) (rs_preCommitVotes s) (rs_commitVotes s) (rs_highQC s) (rs_prepareQC s)
    (rs_lockQC s) (rs_committedQC s).

Definition set_rs_pendingRequest (v : option Request) (s : roundState) : roundState :=
  mkRoundState (rs_vs s) (rs_round s) (rs_height s) (rs_state s) (rs_lastChainedBlock s) v (rs_node s)
    (rs_lockedBlock s) (rs_executed s) (rs_proposalLocked s) (rs_newViews s) (rs_prepareVotes s)
    (rs_preCommitVotes s) (rs_commitVotes s) (rs_highQC s) (rs_prepareQC s) (rs_lockQC s)
    (rs_committedQC s).

Definition set_rs_node (v : option ProposedBlock) (s : roundState) : roundState :=
  mkRoundState (rs_vs s) (rs_round s) (rs_height s) (rs_state s) (rs_lastChainedBlock s)
    (rs_pendingRequest s) v (rs_lockedBlock s) (rs_executed s) (rs_proposalLocked s) (rs_newViews s)
    (rs_prepareVotes s) (rs_preCommitVotes s) (rs_commitVotes s) (rs_highQC s) (rs_prepareQC s)
    (rs_lockQC s) (rs_committedQC s).

Definition set_rs_executed (v : option ExecutedBlock) (s : roundState) : roundState :=
  mkRoundState (rs_vs s) (rs_round s) (rs_height s) (rs_state s) (rs_lastChainedBlock s)
    (rs_pendingRequest s) (rs_node s) (rs_lockedBlock s) v (rs_proposalLocked s) (rs_newViews s)
    (rs_prepareVotes s) (rs_preCommitVotes s) (rs_commitVotes s) (rs_highQC s) (rs_prepareQC s)
    (rs_lockQC s) (rs_committedQC s).

Definition set_rs_newViews (v : MessageSet) (s : roundState) : roundState :=
  mkRoundState (rs_vs s) (rs_round s) (rs_height s) (rs_state s) (rs_lastChainedBlock s)
    (rs_pendingRequest s) (rs_node s) (rs_lockedBlock s) (rs_executed s) (rs_proposalLocked s) v
    (rs_prepareVotes s) (rs_preCommitVotes s) (rs_commitVotes s) (rs_highQC s) (rs_prepareQC s)
    (rs_lockQC s) (rs_committedQC s).

Definition set_rs_prepareVotes (v : MessageSet) (s : roundState) : roundState :=
  mkRoundState (rs_vs s) (rs_round s) (rs_height s) (rs_state s) (rs_lastChainedBlock s)
    (rs_pendingRequest s) (rs_node s) (rs_lockedBlock s) (rs_executed s) (rs_proposalLocked s)
    (rs_newViews s) v (rs_preCommitVotes s) (rs_commitVotes s) (rs_highQC s) (rs_prepareQC s) (rs_lockQC
    s) (rs_committedQC s).

Definition set_rs_preCommitVotes (v : MessageSet) (s : roundState) : roundState :=
  mkRoundState (rs_vs s) (rs_round s) (rs_height s) (rs_state s) (rs_lastChainedBlock s)
    (rs_pendingRequest s) (rs_node s) (rs_lockedBlock s) (rs_executed s) (rs_proposalLocked s)
    (rs_newViews s) (rs_prepareVotes s) v (rs_commitVotes s) (rs_highQC s) (rs_prepareQC s) (rs_lockQC
    s) (rs_committedQC s).

Definition set_rs_commitVotes (v : MessageSet) (s : roundState) : roundState :=
  mkRoundState (rs_vs s) (rs_round s) (rs_height s) (rs_state s) (rs_lastChainedBlock s)
    (rs_pendingRequest s) (rs_node s) (rs_lockedBlock s) (rs_executed s) (rs_proposalLocked s)
    (rs_newViews s) (rs_prepareVotes s) (rs_preCommitVotes s) v (rs_highQC s) (rs_prepareQC s)
    (rs_lockQC s) (rs_committedQC s).

Definition set_rs_highQC (v : option QuorumCert) (s : roundState) : roundState :=
  mkRoundState (rs_vs s) (rs_round s) (rs_height s) (rs_state s) (rs_lastChainedBlock s)
    (rs_pendingRequest s) (rs_node s) (rs_lockedBlock s) (rs_executed s) (rs_proposalLocked s)
    (rs_newViews s) (rs_prepareVotes s) (rs_preCommitVotes s) (rs_commitVotes s) v (rs_prepareQC s)
    (rs_lockQC s) (rs_committedQC s).

Definition set_rs_prepareQC (v : option QuorumCert) (s : roundState) : roundState :=
  mkRoundState (rs_vs s) (rs_round s) (rs_height s) (rs_state s) (rs_lastChainedBlock s)
    (rs_pendingRequest s) (rs_node s) (rs_lockedBlock s) (rs_executed s) (rs_proposalLocked s)
    (rs_newViews s) (rs_prepareVotes s) (rs_preCommitVotes s) (rs_commitVotes s) (rs_highQC s) v
    (rs_lockQC s) (rs_committedQC s).

Definition set_rs_lockQC (v : option QuorumCert) (s : roundState) : roundState :=
  mkRoundState (rs_vs s) (rs_round s) (rs_height s) (rs_state s) (rs_lastChainedBlock s)
    (rs_pendingRequest s) (rs_node s) (rs_lockedBlock s) (rs_executed s) (rs_proposalLocked s)
    (rs_newViews s) (rs_prepareVotes s) (rs_preCommitVotes s) (rs_commitVotes s) (rs_highQC s)
    (rs_prepareQC s) v (rs_committedQC s).

Definition set_rs_committedQC (v : option QuorumCert) (s : roundState) : roundState :=
  mkRoundState (rs_vs s) (rs_round s) (rs_height s) (rs_state s) (rs_lastChainedBlock s)
    (rs_pendingRequest s) (rs_node s) (rs_lockedBlock s) (rs_executed s) (rs_proposalLocked s)
    (rs_newViews s) (rs_prepareVotes s) (rs_preCommitVotes s) (rs_commitVotes s) (rs_highQC s)
    (rs_prepareQC s) (rs_lockQC s) v.

Definition set_locked (b : option Block) (l : bool) (s : roundState) : roundState :=
  mkRoundState (rs_vs s) (rs_round s) (rs_height s) (rs_state s) (rs_lastChainedBlock s)
    (rs_pendingRequest s) (rs_node s) b (rs_executed s) l (rs_newViews s) (rs_prepareVotes s)
    (rs_preCommitVotes s) (rs_commitVotes s) (rs_highQC s) (rs_prepareQC s) (rs_lockQC s)
    (rs_committedQC s).

Definition set_view (h r : Z) (s : roundState) : roundState :=
  mkRoundState (rs_vs s) r h (rs_state s) (rs_lastChainedBlock s) (rs_pendingRequest s) (rs_node s)
    (rs_lockedBlock s) (rs_executed s) (rs_proposalLocked s) (rs_newViews s) (rs_prepareVotes s)
    (rs_preCommitVotes s) (rs_commitVotes s) (rs_highQC s) (rs_prepareQC s) (rs_lockQC s)
    (rs_committedQC s).

Definition set_c_db (v : option (gmap string bytes)) (c : Core) : Core :=
  mkCore v (c_requestTimeout c) (c_current c) (c_signer c) (c_valSet c) (c_backlogs c)
    (c_pendingRequests c) (c_isRunning c) (c_timer c) (c_out c).

Definition set_c_current (v : option roundState) (c : Core) : Core :=
  mkCore (c_db c) (c_requestTimeout c) v (c_signer c) (c_valSet c) (c_backlogs c) (c_pendingRequests
    c) (c_isRunning c) (c_timer c) (c_out c).

Definition set_c_valSet (v : defaultSet) (c : Core) : Core :=
  mkCore (c_db c) (c_requestTimeout c) (c_current c) (c_signer c) v (c_backlogs c) (c_pendingRequests
    c) (c_isRunning c) (c_timer c) (c_out c).

Definition set_c_backlogs (v : backlog) (c : Core) : Core :=
  mkCore (c_db c) (c_requestTimeout c) (c_current c) (c_signer c) (c_valSet c) v (c_pendingRequests c)
    (c_isRunning c) (c_timer c) (c_out c).

Definition set_c_pendingRequests (v : Prque Request) (c : Core) : Core :=
  mkCore (c_db c) (c_requestTimeout c) (c_current c) (c_signer c) (c_valSet c) (c_backlogs c) v
    (c_isRunning c) (c_timer c) (c_out c).

Definition set_c_isRunning (v : bool) (c : Core) : Core :=
  mkCore (c_db c) (c_requestTimeout c) (c_current c) (c_signer c) (c_valSet c) (c_backlogs c)
    (c_pendingRequests c) v (c_timer c) (c_out c).

Definition set_c_timer (v : option Z) (c : Core) : Core :=
  mkCore (c_db c) (c_requestTimeout c) (c_current c) (c_signer c) (c_valSet c) (c_backlogs c)
    (c_pendingRequests c) (c_isRunning c) v (c_out c).

Definition set_c_out (v : list Effect) (c : Core) : Core :=
  mkCore (c_db c) (c_requestTimeout c) (c_current c) (c_signer c) (c_valSet c) (c_backlogs c)
    (c_pendingRequests c) (c_isRunning c) (c_timer c) v.

(** ** Access to the state *)

Definition lift {A} (o : outcome A) : M Core A := fun c => (o, c).

(** [c.current], which panics when dereferenced before the first round. *)
Definition current_rs : M Core roundState := asks (fun c => deref (c_current c)).

Definition mod_rs (f : roundState -> roundState) : M Core unit :=
  rs ← current_rs; modify (set_c_current (Some (f rs))).

Definition emit (e : Effect) : M Core unit := modify (fun c => set_c_out (c_out c ++ [e]) c).

(** A failure that is logged, after which the method returns. *)
Definition or_return {A} (o : outcome A) (k : A -> M Core unit) : M Core unit :=
  match o with Ret a => k a | Err _ => mret tt | Panic => panic end.

(** ** Construction and update *)

Definition newRoundState (validatorSet : defaultSet) (lastChainedBlock : Block) (view : View) : roundState :=
  mkRoundState (Copy validatorSet) (v_Round view) (v_Height view) StateAcceptRequest lastChainedBlock
    None (Some (NewProposedBlock EmptyHash None)) None None false
    (NewMessageSet validatorSet) (NewMessageSet validatorSet) (NewMessageSet validatorSet)
    (NewMessageSet validatorSet) None None None None.

Definition roundState_update (vs : defaultSet) (lastChainedBlock : Block) (view : View) (s : roundState) : roundState :=
  mkRoundState (Copy vs) (v_Round view) (v_Height view) (rs_state s) lastChainedBlock
    (rs_pendingRequest s) (rs_node s) (rs_lockedBlock s) (rs_executed s) (rs_proposalLocked s)
    (NewMessageSet vs) (NewMessageSet vs) (NewMessageSet vs) (NewMessageSet vs)
    (rs_highQC s) (rs_prepareQC s) (rs_lockQC s) (rs_committedQC s).

Definition rs_View (s : roundState) : View := mkView (rs_round s) (rs_height s).
Definition rs_HeightU64 (s : roundState) : Z := u64 (rs_height s).
Definition rs_RoundU64 (s : roundState) : Z := u64 (rs_round s).

(** A request is accepted once. *)
Definition SetPendingRequest (req : Request) (s : roundState) : roundState :=
  match rs_pendingRequest s with None => set_rs_pendingRequest (Some req) s | Some _ => s end.

Definition SetProposedBlock (node : ProposedBlock) : M Core unit :=
  match pb_Block node with
  | None => throw ErrInvalidNode
  | Some _ => mod_rs (set_rs_node (Some node))
  end.

Definition LockedBlock (s : roundState) : option Block :=
  if rs_proposalLocked s then rs_lockedBlock s else None.

Definition Unlock (s : roundState) : roundState :=
  set_rs_executed None (set_rs_node None (set_locked None false (set_rs_pendingRequest None s))).

Definition UnsignedVote (code : MsgType) (s : roundState) : outcome (option Vote) :=
  match rs_node s with
  | None => Ret None
  | Some node =>
      h ← ProposedBlock_Hash node;
      if h =? EmptyHash then Ret None
      else Ret (Some (mkVote code (Some (mkView (rs_round s) (rs_height s))) h []))
  end.

(** ** The snapshot in the database *)

Definition dbRoundStatePrefix : string := "round-state-".
Definition viewKey : string := dbRoundStatePrefix +:+ "view".
Definition prepareQCKey : string := dbRoundStatePrefix +:+ "prepareQC".
Definition lockQCKey : string := dbRoundStatePrefix +:+ "lockQC".
Definition commitQCKey : string := dbRoundStatePrefix +:+ "commitQC".
Definition nodeKey : string := dbRoundStatePrefix +:+ "node".

Section Store.
Variable env : Env.

(** [store...]: encode and put, unless there is no database. *)
Definition store {A} (cd : codec A) (key : string) (a : A) : M Core unit :=
  c ← get;
  match c_db c with
  | None => mret tt
  | Some db =>
      raw ← lift (encode_val cd a);
      _ ← lift (e_put env key raw);
      modify (set_c_db (Some (<[key := raw]> db)))
  end.

Definition storeView (view : View) : M Core unit := store c_View viewKey view.
Definition storePrepareQC (qc : QuorumCert) : M Core unit := store c_QuorumCert prepareQCKey qc.
Definition storeLockQC (qc : QuorumCert) : M Core unit := store c_QuorumCert lockQCKey qc.
Definition storeCommitQC (qc : QuorumCert) : M Core unit := store c_QuorumCert commitQCKey qc.
Definition storeNode (node : ProposedBlock) : M Core unit := store c_ProposedBlock nodeKey node.

Definition SetPrepareQC (qc : QuorumCert) : M Core unit :=
  _ ← storePrepareQC qc; mod_rs (set_rs_prepareQC (Some qc)).

Definition SetCommittedQC (qc : QuorumCert) : M Core unit :=
  _ ← storeCommitQC qc; mod_rs (set_rs_committedQC (Some qc)).

Definition Lock (qc : QuorumCert) : M Core unit :=
  rs ← current_rs;
  match rs_node rs with
  | None => throw ErrInvalidNode
  | Some node =>
      _ ← storeLockQC qc;
      _ ← storeNode node;
      mod_rs (fun s => set_locked (pb_Block node) true (set_rs_lockQC (Some qc) s))
  end.

(** The block of the current node is replaced by its sealed form. *)
Definition SetSealedBlock (block : Block) : M Core unit :=
  rs ← current_rs;
  match rs_node rs with
  | Some (NewProposedBlock parent (Some b)) =>
      if negb (Block_Hash b =? Block_Hash block)
      then throw (ErrFmt "node block not equal to multi-seal block %s vs. %s")
      else
        let node := NewProposedBlock parent (Some block) in
        _ ← mod_rs (set_rs_node (Some node));
        _ ← storeNode node;
        mod_rs (fun s =>
          let s1 := set_locked (Some block) (rs_proposalLocked s) s in
          match rs_executed s with
          | Some (mkExecuted (Some xb) st) =>
              if Block_Hash xb =? Block_Hash block then set_rs_executed (Some (mkExecuted (Some block) st)) s1 else s1
          | _ => s1
          end)
  | _ => throw (ErrFmt "locked block is nil")
  end.

End Store.

(** [load...]: the decoded value of a key; reading an absent key is an error,
    and errors leave the state alone. *)
Definition load {A} (cd : codec A) (key : string) (c : Core) : option A :=
  match c_db c with
  | None => None
  | Some db =>
      match db !! key with
      | None => None
      | Some raw => match decode_val cd raw with Ret a => Some a | _ => None end
      end
  end.

Definition load_with {A} (cd : codec A) (key : string) (f : A -> roundState -> roundState) : M Core unit :=
  c ← get;
  match load cd key c with None => mret tt | Some a => mod_rs (f a) end.

Definition loadView (cur : View) : M Core unit :=
  load_with c_View viewKey (fun v s => if 0 <? View_Cmp v cur then set_view (v_Height v) (v_Round v) s else s).
Definition loadPrepareQC : M Core unit := load_with c_QuorumCert prepareQCKey (fun q => set_rs_prepareQC (Some q)).
Definition loadLockQC : M Core unit := load_with c_QuorumCert lockQCKey (fun q => set_rs_lockQC (Some q)).
Definition loadCommitQC : M Core unit := load_with c_QuorumCert commitQCKey (fun q => set_rs_committedQC (Some q)).
Definition loadNode : M Core unit := load_with c_ProposedBlock nodeKey (fun n => set_rs_node (Some n)).

(** The lock is restored when the stored node is the one the lock is for. *)
Definition relock (s : roundState) : outcome roundState :=
  match rs_lockQC s, rs_node s with
  | Some qc, Some node =>
      match pb_Block node with
      | None => Ret s
      | Some b =>
          h ← ProposedBlock_Hash node;
          if qc_ProposedBlock qc =? h then Ret (set_locked (Some b) true s) else Ret s
      end
  | _, _ => Ret s
  end.

Definition reload (view : View) : M Core unit :=
  _ ← loadView view;
  _ ← loadPrepareQC;
  _ ← loadLockQC;
  _ ← loadCommitQC;
  _ ← loadNode;
  rs ← current_rs;
  rs' ← lift (relock rs);
  mod_rs (fun _ => rs').

End State.
