(* ===== verification/Core.v ===== *)
(** * The replica (package [consensus/hotstuff/core])

    The engine of a replica, handler by handler: the four phases of basic
    HotStuff (prepare, pre-commit, commit, decide) with a leader's and a
    replica's half each, new views, requests, timeouts and the replay of
    queued messages.  A handler is a computation in the state monad over
    [Core]: an error return keeps the state reached so far, a nil dereference
    is [Panic].  Log statements are left out, except that building a logger
    reads the current view and so panics before the first round ([newLogger]).
    Posting to the event mux from a goroutine is an effect; the events come
    back as inputs of [handleEvent]. *)
From Stdlib Require Import ZArith Lia Strings.Byte.
From stdpp Require Import base list option strings gmap.
From S2P Require Import Prelude Errors Rlp Codec Common Validator Block Types Signer Prque MessageSet Backlog RoundState.
Open Scope Z_scope.

Section Core.
Context `{Keccak} `{Crypto}.

(** ** Small accessors *)

Definition c_Address (c : Core) : Address := sg_address (c_signer c).

Definition newLogger : M Core unit := _ ← current_rs; mret tt.

Definition currentView (rs : roundState) : View := mkView (rs_round rs) (rs_height rs).

Definition proposer (c : Core) : outcome Address :=
  v ← deref (GetProposer (c_valSet c)); Ret (val_Address v).

Definition c_HeightU64 (c : Core) : Z := match c_current c with None => 0 | Some rs => rs_HeightU64 rs end.
Definition c_RoundU64 (c : Core) : Z := match c_current c with None => 0 | Some rs => rs_RoundU64 rs end.

(** [c.IsProposer()] *)
Definition c_IsProposer (c : Core) : bool := IsProposer (c_Address c) (c_valSet c).

Definition IsCurrentProposal (blockHash : Hash) (c : Core) : outcome bool :=
  match c_current c with
  | None => Ret false
  | Some rs =>
      isNode ← (match rs_node rs with
                | None => Ret false
                | Some node => h ← ProposedBlock_Hash node; Ret (h =? blockHash)
                end);
      if (isNode : bool) then Ret true
      else match rs_pendingRequest rs with
           | Some (mkRequest (Some b)) => Ret (Block_Hash b =? blockHash)
           | _ => Ret false
           end
  end.

Definition CurrentSequence (c : Core) : outcome (Z * Z) :=
  rs ← deref (c_current c);
  Ret (View_HeightU64 (currentView rs), View_RoundU64 (currentView rs)).

(** ** Checks ([core/utils.go]) *)

Definition c_checkView (view : option View) (c : Core) : outcome unit :=
  match view with
  | None => Err ErrInvalidMessage
  | Some _ => rs ← deref (c_current c); checkView (currentView rs) view
  end.

Definition checkMsgDest (c : Core) : outcome unit := fail_if (negb (c_IsProposer c)) ErrNotToProposer.

Definition checkMsgSource (src : Address) (c : Core) : outcome unit :=
  fail_if (negb (IsProposer src (c_valSet c))) ErrNotFromProposer.

(** The certificate a message of the given code must carry. *)
Definition code_mismatch (code qcCode : MsgType) : bool :=
  ((code =? MsgTypeNewView) && negb (qcCode =? MsgTypePrepareVote)) ||
  ((code =? MsgTypePrepare) && negb (qcCode =? MsgTypePrepareVote)) ||
  ((code =? MsgTypePreCommit) && negb (qcCode =? MsgTypePrepareVote)) ||
  ((code =? MsgTypeCommit) && negb (qcCode =? MsgTypePreCommitVote)) ||
  ((code =? MsgTypeDecide) && negb (qcCode =? MsgTypeCommitVote)).

Definition verifyQC (data : Message) (oqc : option QuorumCert) (c : Core) : outcome unit :=
  match oqc with
  | None => Err (ErrFmt "qc or qc.View is nil")
  | Some qc =>
  match qc_View qc with
  | None => Err (ErrFmt "qc or qc.View is nil")
  | Some qv =>
  if qc_HeightU64 qc =? 0 then Ret tt
  else
    _ ← fail_if ((qc_ProposedBlock qc =? EmptyHash) || (qc_Proposer qc =? EmptyAddress))
          (ErrFmt "qc.ProposedBlock, Proposer, Seal or BLSSig is nil");
    _ ← fail_if (code_mismatch (m_Code data) (qc_Code qc)) (ErrFmt "qc.Code %s not matching message code");
    _ ← (if (m_Code data =? MsgTypeNewView) || (m_Code data =? MsgTypePrepare) then
           dv ← deref (m_View data);
           let '(hdiff, rdiff) := View_Sub dv qv in
           fail_if ((hdiff <? 0) || ((hdiff =? 0) && (rdiff <? 0))) (ErrFmt "view is invalid")
         else Ret tt);
    _ ← (if (m_Code data =? MsgTypePreCommit) || (m_Code data =? MsgTypeCommit) || (m_Code data =? MsgTypeDecide) then
           dv ← deref (m_View data);
           _ ← fail_if (negb (View_Cmp qv dv =? 0)) (ErrFmt "qc.View %v not matching message view");
           p ← proposer c;
           _ ← fail_if (negb (qc_Proposer qc =? p)) (ErrFmt "expect proposer %v, got %v");
           rs ← deref (c_current c);
           match rs_node rs with
           | None => Err (ErrFmt "current node is nil")
           | Some node =>
               h ← ProposedBlock_Hash node;
               fail_if (negb (h =? qc_ProposedBlock qc)) (ErrFmt "expect node %v, got %v")
           end
         else Ret tt);
    let msg := NewCleanMessage (qc_View qc) (qc_Code qc) (Hash_Bytes (qc_ProposedBlock qc)) in
    _ ← on_err (Message_PayloadNoSig msg) (ErrFmt "payload no sig");
    msgHash ← Message_Hash msg;
    _ ← fail_if (negb (msgHash =? qc_SealHash qc)) (ErrFmt "expect qc hash %v, got %v");
    AuthQC (c_signer c) qc
  end
  end.

Definition buildRoundStartQC (lastBlock : Block) : outcome QuorumCert :=
  number ← Block_Number lastBlock;
  n64 ← Block_NumberU64 lastBlock;
  let '(p, h) := if n64 =? 0 then (EmptyAddress, 0x12345) else (Block_Coinbase lastBlock, Block_Hash lastBlock) in
  Ret (mkQC (Some (mkView 0 number)) MsgTypePrepareVote h p []).

Definition checkNode (onode : option ProposedBlock) (compare : bool) (c : Core) : outcome unit :=
  match onode with
  | None => Err ErrInvalidNode
  | Some node =>
      match pb_Block node with
      | None => Err ErrInvalidNode
      | Some b =>
          if pb_Parent node =? EmptyHash then Err ErrInvalidNode
          else if negb compare then Ret tt
          else
            rs ← deref (c_current c);
            match rs_node rs with
            | None => Err (ErrFmt "current node is nil")
            | Some local =>
                lh ← ProposedBlock_Hash local;
                nh ← ProposedBlock_Hash node;
                _ ← fail_if (negb (lh =? nh)) (ErrFmt "expect node %v but got %v");
                lb ← deref (pb_Block local);
                fail_if (negb (Block_Hash lb =? Block_Hash b)) (ErrFmt "expect block %v but got %v")
            end
      end
  end.

Definition checkBlock (block : Block) (c : Core) : outcome unit :=
  rs ← deref (c_current c);
  ln ← Block_NumberU64 (rs_lastChainedBlock rs);
  bn ← Block_NumberU64 block;
  _ ← fail_if (negb (u64 (ln + 1) =? bn)) (ErrFmt "expect block number %v, got %v");
  _ ← fail_if (negb (Block_Hash (rs_lastChainedBlock rs) =? Block_ParentHash block)) (ErrFmt "expect parent hash %v, got %v");
  match LockedBlock rs with
  | None => Ret tt
  | Some locked =>
      kn ← Block_NumberU64 locked;
      _ ← fail_if (negb (bn =? kn)) (ErrFmt "expect locked block number %v, got %v");
      fail_if (negb (Block_Hash block =? Block_Hash locked)) (ErrFmt "expect locked block hash %v, got %v")
  end.

Definition checkVote (vote : Vote) (code : MsgType) (c : Core) : outcome unit :=
  rs ← deref (c_current c);
  expected ← UnsignedVote code rs;
  match expected with
  | None => Err (ErrFmt "expect %s, got %s")
  | Some ev =>
      _ ← fail_if (negb (bool_decide (ev = Vote_Unsigned vote))) (ErrFmt "expect %s, got %s");
      voteBytes ← on_err (encode_val c_Vote (Vote_Unsigned vote)) (ErrFmt "could not encode vote");
      expectedVoteBytes ← on_err (encode_val c_Vote ev) (ErrFmt "could not encode expected vote");
      fail_if (negb (bool_decide (expectedVoteBytes = voteBytes))) (ErrFmt "vote does not match expected vote")
  end.

Definition checkRequestMsg (request : Request) (c : Core) : outcome unit :=
  match req_Block request with
  | None => Err ErrInvalidMessage
  | Some b =>
      rs ← deref (c_current c);
      n ← Block_Number b;
      let d := cmp_Z (rs_height rs) n in
      if 0 <? d then Err ErrOldMessage
      else if d <? 0 then Err ErrFutureMessage
      else Ret tt
  end.

Definition safeNode (node : ProposedBlock) (ohighQC : option QuorumCert) (c : Core) : outcome unit :=
  match ohighQC with
  | None => Err ErrInvalidQC
  | Some highQC =>
      match qc_View highQC with
      | None => Err ErrInvalidQC
      | Some hv =>
          _ ← fail_if (negb (qc_ProposedBlock highQC =? pb_Parent node)) (ErrFmt "expect parent %v, got %v");
          rs ← deref (c_current c);
          match rs_lockQC rs with
          | None => Ret tt
          | Some lockQC =>
              if qc_ProposedBlock lockQC =? pb_Parent node then Ret tt
              else
                lv ← deref (qc_View lockQC);
                if 0 <? View_Cmp hv lv then Ret tt else Err ErrSafeNode
          end
      end
  end.

(** ** Sending ([core/handler.go], [core/utils.go]) *)

(** Sign the unsigned form and encode the message, which keeps the signature. *)
Definition finalizeMessage (msg : Message) (c : Core) : outcome (Message * bytes) :=
  _ ← Message_PayloadNoSig msg;
  msgHash ← Message_Hash msg;
  sig ← Signer_Sign (c_signer c) msgHash;
  let signed := mkMessage (m_Address msg) (m_Code msg) (m_View msg) (m_Msg msg) sig in
  payload ← Message_Payload signed;
  Ret (signed, payload).

Definition is_vote_type (code : MsgType) : bool :=
  (code =? MsgTypeNewView) || (code =? MsgTypePrepareVote) || (code =? MsgTypePreCommitVote) || (code =? MsgTypeCommitVote).

Definition is_leader_type (code : MsgType) : bool :=
  (code =? MsgTypePrepare) || (code =? MsgTypePreCommit) || (code =? MsgTypeCommit) || (code =? MsgTypeDecide).

(** Votes go to the leader, whose absence makes [Unicast] panic; the leader's
    messages go to all. *)
Definition broadcast (code : MsgType) (payload : bytes) : M Core unit :=
  rs ← current_rs;
  c ← get;
  if (GetByAddress (c_Address c) (c_valSet c)).1 <? 0 then mret tt
  else
    or_return (finalizeMessage (NewCleanMessage (Some (currentView rs)) code payload) c) (fun '(msg, signed) =>
      if is_vote_type code then
        target ← lift (proposer c);
        emit (EUnicast target msg signed)
      else if is_leader_type code then emit (EBroadcast msg signed)
      else mret tt).

Definition sendVote (code : MsgType) : M Core unit :=
  rs ← current_rs;
  vote ← lift (UnsignedVote code rs);
  match vote with
  | None => mret tt
  | Some v =>
      or_return (encode_val c_Vote v) (fun unsignedVoteBytes =>
      c ← get;
      or_return (BLSSign (c_signer c) unsignedVoteBytes) (fun signedVoteBytes =>
      _ ← emit (ESign v (rs_node rs));
      or_return (encode_val c_Vote (mkVote (vote_Code v) (vote_View v) (vote_ProposedBlock v) signedVoteBytes))
        (fun payload => broadcast code payload)))
  end.

(** ** Assembling certificates *)

Section Handlers.
Variable env : Env.

Definition GetMessages (code : MsgType) (rs : roundState) : outcome (list Message) :=
  if code =? MsgTypePrepareVote then Ret (MessageSet_Values (e_order env) (rs_prepareVotes rs))
  else if code =? MsgTypePreCommitVote then Ret (MessageSet_Values (e_order env) (rs_preCommitVotes rs))
  else if code =? MsgTypeCommitVote then Ret (MessageSet_Values (e_order env) (rs_commitVotes rs))
  else Err ErrInvalidCode.

(** A message that does not decode leaves a nil vote. *)
Definition GetMessageVotes (msgs : list Message) : list (option Vote) :=
  (fun m => match Message_Decode c_Vote m with Ret v => Some v | _ => None end) <$> msgs.

Definition messagesToQC (code : MsgType) (c : Core) : outcome QuorumCert :=
  rs ← deref (c_current c);
  msgs ← GetMessages code rs;
  _ ← fail_if (match msgs with [] => true | _ => false end) (ErrFmt "assemble qc: not enough message");
  let votes := GetMessageVotes msgs in
  p ← proposer c;
  expected ← UnsignedVote code rs;
  expectedVote ← deref expected;
  expectedVoteBytes ← on_err (encode_val c_Vote expectedVote) (ErrFmt "could not encode expectedVote");
  sigShares ← mapM_outcome (fun ov => v ← deref ov; Ret (vote_BLSSignature v)) votes;
  aggSig ← BLSRecoverAggSig (c_signer c) expectedVoteBytes sigShares;
  Ret (mkQC (Some (currentView rs)) code (vote_ProposedBlock expectedVote) p aggSig).

(** ** Requests and backlog ([core/request.go], [core/backlog.go]) *)

Definition storeRequestMsg (request : Request) : M Core unit :=
  _ ← newLogger;
  b ← lift (deref (req_Block request));
  n ← lift (Block_Number b);
  modify (fun c => set_c_pendingRequests (Prque_Push request (i64 (- i64 n)) (c_pendingRequests c)) c).

(** The loop over pending requests: what remains, and the blocks to post. *)
Fixpoint drain_requests (fuel : nat) (check : Request -> outcome unit) (q : Prque Request) (posted : list Block)
  : outcome (Prque Request * list Block) :=
  match fuel with
  | O => Ret (q, posted)
  | S f =>
      if Prque_Empty q then Ret (q, posted)
      else
        '((r, prio), q') ← Prque_Pop q;
        match check r with
        | Panic => Panic
        | Err e =>
            b ← deref (req_Block r);
            if decide (e = ErrFutureMessage) then Ret (Prque_Push r prio q', posted)
            else drain_requests f check q' posted
        | Ret _ => b ← deref (req_Block r); drain_requests f check q' (posted ++ [b])
        end
  end.

Definition processPendingRequests : M Core unit :=
  c ← get;
  let q := c_pendingRequests c in
  '(q', blocks) ← lift (drain_requests (Prque_Size q) (fun r => checkRequestMsg r c) q []);
  modify (fun c => set_c_out (c_out c ++ map EPostRequest blocks) (set_c_pendingRequests q' c)).

Definition storeBacklog (msg : Message) : M Core unit :=
  _ ← newLogger;
  c ← get;
  if m_Address msg =? c_Address c then mret tt
  else match (GetByAddress (m_Address msg) (c_valSet c)).2 with
       | None => mret tt
       | Some _ => modify (fun c => set_c_backlogs (backlog_Push msg (c_backlogs c)) c)
       end.

Definition processBacklog : M Core unit :=
  rs ← current_rs;
  c ← get;
  '(b', replayed) ← lift (processBacklog_loop (e_order env) (currentView rs) (c_valSet c) (c_backlogs c));
  modify (fun c => set_c_out (c_out c ++ map (fun p => EPostBacklog p.1 p.2) replayed) (set_c_backlogs b' c)).

Definition setCurrentState (s : State) : M Core unit :=
  _ ← mod_rs (set_rs_state s);
  _ ← when ((s =? StateAcceptRequest) || (s =? StateHighQC)) processPendingRequests;
  processBacklog.

(** ** New rounds ([core/core.go], [core/timer.go], [core/new_view.go]) *)

(** [time.Duration(math.Pow(2, round))]: exact below [2^63], otherwise what
    the platform makes of a float64 that does not fit. *)
Definition pow2_duration (round : Z) : Z := if round <? 63 then 2 ^ round else e_float_overflow env.

Definition roundTimeout (requestTimeout round : Z) : Z :=
  let timeout := i64 (i64 requestTimeout * 1000000) in
  if 0 <? round then i64 (timeout + i64 (pow2_duration round * 1000000000)) else timeout.

Definition stopTimer : M Core unit := modify (set_c_timer None).

Definition newRoundChangeTimer : M Core unit :=
  _ ← stopTimer;
  rs ← current_rs;
  modify (fun c => set_c_timer (Some (roundTimeout (c_requestTimeout c) (rs_RoundU64 rs))) c).

Definition sendNewView : M Core unit :=
  rs ← current_rs;
  let encoded := match rs_prepareQC rs with
                 | None => Ret (EncodeToBytes (Lst []))
                 | Some qc => encode_val c_QuorumCert qc
                 end in
  or_return encoded (fun payload => broadcast MsgTypeNewView payload).

Definition updateRoundState (lastProposal : Block) (newView : View) : M Core unit :=
  c ← get;
  _ ← (match c_current c with
       | None =>
           _ ← modify (set_c_current (Some (newRoundState (c_valSet c) lastProposal newView)));
           reload newView
       | Some _ => mod_rs (roundState_update (c_valSet c) lastProposal newView)
       end);
  rs ← current_rs;
  match rs_prepareQC rs with
  | Some _ => mret tt
  | None =>
      qc ← lift (buildRoundStartQC lastProposal);
      _ ← SetPrepareQC env qc;
      mod_rs (fun s => set_rs_committedQC None (set_rs_lockQC None s))
  end.

(** Whether a new round is started, and whether it only changes the round. *)
Definition round_decision (round : Z) (lastNumber : Z) (c : Core) : option bool :=
  match c_current c with
  | None => Some false
  | Some _ =>
      if c_HeightU64 c <=? lastNumber then Some false
      else if lastNumber <? u64 (c_HeightU64 c - 1) then None
      else if round =? 0 then None
      else if u64 round <? c_RoundU64 c then None
      else Some true
  end.

(** A call whose error is logged, after which the caller returns. *)
Definition log_and_return (m k : M Core unit) : M Core unit := fun c =>
  match m c with
  | (Ret _, c') => k c'
  | (Err _, c') => (Ret tt, c')
  | (Panic, c') => (Panic, c')
  end.

Definition new_view (round lastNumber : Z) (changeView : bool) : M Core View :=
  if changeView then rs ← current_rs; mret (mkView round (rs_height rs))
  else mret (mkView 0 (lastNumber + 1)).

Definition enter_round (round : Z) (lastProposal : Block) (lastProposer : Address) (changeView : bool) : M Core unit :=
  number ← lift (Block_Number lastProposal);
  newView ← new_view round number changeView;
  _ ← modify (fun c => set_c_valSet (CalcProposer lastProposer (u64 (v_Round newView)) (c_valSet c)) c);
  log_and_return (updateRoundState lastProposal newView)
    (_ ← when (negb changeView) (mod_rs Unlock);
     _ ← newRoundChangeTimer;
     _ ← setCurrentState StateAcceptRequest;
     sendNewView).

Definition startNewRound (round : Z) : M Core unit :=
  c ← get;
  if negb (c_isRunning c) then mret tt
  else
    match e_LastProposal env with
    | (None, _) => mret tt
    | (Some lastProposal, lastProposer) =>
        n64 ← lift (Block_NumberU64 lastProposal);
        match round_decision round n64 c with
        | None => mret tt
        | Some changeView => enter_round round lastProposal lastProposer changeView
        end
    end.

(** ** Prepare ([core/prepare.go], [core/new_view.go]) *)

(** The block the leader proposes: the locked one, or the pending request. *)
Definition proposal_block (c : Core) (rs : roundState) : outcome (option Block) :=
  match LockedBlock rs with
  | Some locked =>
      n ← Block_NumberU64 locked;
      if negb (n =? c_HeightU64 c) then Ret None else Ret (Some locked)
  | None =>
      match rs_pendingRequest rs with
      | Some (mkRequest (Some b)) =>
          n ← Block_NumberU64 b;
          if negb (n =? c_HeightU64 c) then Ret None else Ret (Some b)
      | _ => Ret None
      end
  end.

Definition sendPrepare : M Core unit :=
  c ← get;
  if negb (c_IsProposer c) then mret tt
  else
    rs ← current_rs;
    if negb (rs_state rs =? StateHighQC) then mret tt
    else
      oblock ← lift (proposal_block c rs);
      match oblock with
      | None => mret tt
      | Some block =>
          _ ← when (e_now env <? Block_Time block) (emit (ESleepUntil (Block_Time block)));
          highQC ← lift (deref (rs_highQC rs));
          let node := NewProposedBlock (qc_ProposedBlock highQC) (Some block) in
          or_return (encode_val c_PackagedQC (NewPackagedQC (Some node) (Some highQC))) (fun payload =>
            _ ← SetProposedBlock node;
            broadcast MsgTypePrepare payload)
      end.

Fixpoint getHighQC_loop (highQC : option QuorumCert) (msgs : list Message) : outcome QuorumCert :=
  match msgs with
  | [] => match highQC with None => Err ErrNilHighQC | Some qc => Ret qc end
  | m :: msgs' =>
      qc ← Message_Decode c_QuorumCert m;
      match highQC with
      | None => getHighQC_loop (Some qc) msgs'
      | Some hq =>
          hv ← deref (qc_View hq);
          v ← deref (qc_View qc);
          getHighQC_loop (Some (if View_Cmp hv v <? 0 then qc else hq)) msgs'
      end
  end.

Definition getHighQC (rs : roundState) : outcome QuorumCert :=
  getHighQC_loop None (MessageSet_Values (e_order env) (rs_newViews rs)).

Definition AddNewViews (msg : Message) : M Core unit :=
  rs ← current_rs; ms ← lift (MessageSet_Add msg (rs_newViews rs)); mod_rs (set_rs_newViews ms).
Definition AddPrepareVote (msg : Message) : M Core unit :=
  rs ← current_rs; ms ← lift (MessageSet_Add msg (rs_prepareVotes rs)); mod_rs (set_rs_prepareVotes ms).
Definition AddPreCommitVote (msg : Message) : M Core unit :=
  rs ← current_rs; ms ← lift (MessageSet_Add msg (rs_preCommitVotes rs)); mod_rs (set_rs_preCommitVotes ms).
Definition AddCommitVote (msg : Message) : M Core unit :=
  rs ← current_rs; ms ← lift (MessageSet_Add msg (rs_commitVotes rs)); mod_rs (set_rs_commitVotes ms).

(** [size >= c.valSet.Q()] *)
Definition quorum (size : Z) (c : Core) : bool := Q (c_valSet c) <=? size.

Definition handleNewView (data : Message) : M Core unit :=
  _ ← newLogger;
  prepareQC ← lift (on_err (Message_Decode c_QuorumCert data) ErrFailedDecodeNewView);
  _ ← asks (c_checkView (m_View data));
  _ ← asks checkMsgDest;
  _ ← asks (verifyQC data (Some prepareQC));
  _ ← wrap (AddNewViews data) ErrAddNewViews;
  rs ← current_rs;
  c ← get;
  if quorum (MessageSet_Size (rs_newViews rs)) c && (rs_state rs <? StateHighQC) then
    highQC ← lift (getHighQC rs);
    _ ← mod_rs (set_rs_highQC (Some highQC));
    _ ← setCurrentState StateHighQC;
    sendPrepare
  else mret tt.

Definition executeBlock (block : Block) : M Core unit :=
  c ← get;
  if c_IsProposer c then mod_rs (set_rs_executed (Some (mkExecuted (Some block) 0)))
  else
    executed ← lift (e_ExecuteBlock env block);
    mod_rs (set_rs_executed (Some executed)).

Definition handlePrepare (data : Message) : M Core unit :=
  _ ← newLogger;
  subject ← lift (on_err (Message_Decode c_PackagedQC data) ErrFailedDecodePrepare);
  _ ← asks (c_checkView (m_View data));
  _ ← asks (checkMsgSource (m_Address data));
  _ ← asks (checkNode (pq_ProposedBlock subject) false);
  node ← lift (deref (pq_ProposedBlock subject));
  block ← lift (deref (pb_Block node));
  _ ← asks (checkBlock block);
  _ ← lift (on_err (e_Verify env block) ErrVerifyUnsealedProposal);
  _ ← executeBlock block;
  _ ← asks (verifyQC data (pq_QC subject));
  _ ← asks (fun c => on_err (safeNode node (pq_QC subject) c) ErrSafeNode);
  c ← get;
  rs ← current_rs;
  _ ← when (c_IsProposer c && (rs_state rs =? StateHighQC)) (sendVote MsgTypePrepareVote);
  c' ← get;
  rs' ← current_rs;
  when (negb (c_IsProposer c') && (rs_state rs' <? StateHighQC))
    (_ ← SetProposedBlock node;
     _ ← setCurrentState StateHighQC;
     sendVote MsgTypePrepareVote).

(** ** Pre-commit ([core/precommit.go]) *)

Definition acceptPrepareQC (prepareQC : QuorumCert) : M Core unit :=
  _ ← SetPrepareQC env prepareQC; mod_rs (set_rs_state StatePrepared).

(** Encode and broadcast a certificate. *)
Definition sendQC (code : MsgType) (qc : QuorumCert) : M Core unit :=
  _ ← newLogger;
  or_return (encode_val c_QuorumCert qc) (fun payload => broadcast code payload).

Definition sendPreCommit (prepareQC : QuorumCert) : M Core unit := sendQC MsgTypePreCommit prepareQC.

Definition handlePrepareVote (data : Message) : M Core unit :=
  _ ← newLogger;
  vote ← lift (on_err (Message_Decode c_Vote data) ErrFailedDecodePrepare);
  _ ← asks (c_checkView (m_View data));
  _ ← asks (checkVote vote MsgTypePrepareVote);
  _ ← asks checkMsgDest;
  _ ← wrap (AddPrepareVote data) ErrAddPrepareVote;
  rs ← current_rs;
  c ← get;
  if quorum (MessageSet_Size (rs_prepareVotes rs)) c && (rs_state rs =? StateHighQC) then
    prepareQC ← asks (fun c => on_err (messagesToQC (m_Code data) c) ErrInvalidQC);
    _ ← acceptPrepareQC prepareQC;
    sendPreCommit prepareQC
  else mret tt.

Definition handlePreCommit (data : Message) : M Core unit :=
  _ ← newLogger;
  prepareQC ← lift (on_err (Message_Decode c_QuorumCert data) ErrFailedDecodePreCommit);
  _ ← asks (c_checkView (m_View data));
  _ ← asks (checkMsgSource (m_Address data));
  _ ← asks (verifyQC data (Some prepareQC));
  c ← get;
  rs ← current_rs;
  _ ← when (c_IsProposer c && (rs_state rs =? StatePrepared)) (sendVote MsgTypePreCommitVote);
  c' ← get;
  rs' ← current_rs;
  when (negb (c_IsProposer c') && (rs_state rs' =? StateHighQC))
    (_ ← acceptPrepareQC prepareQC;
     sendVote MsgTypePreCommitVote).

(** ** Commit ([core/commit.go]) *)

Definition acceptLockQC (qc : QuorumCert) : M Core unit :=
  _ ← Lock env qc; mod_rs (set_rs_state StatePreCommitted).

Definition sendCommit (lockQC : QuorumCert) : M Core unit := sendQC MsgTypeCommit lockQC.

Definition handlePreCommitVote (data : Message) : M Core unit :=
  _ ← newLogger;
  vote ← lift (Message_Decode c_Vote data);
  _ ← asks (c_checkView (m_View data));
  _ ← asks (checkVote vote MsgTypePreCommitVote);
  _ ← asks checkMsgDest;
  _ ← wrap (AddPreCommitVote data) ErrAddPreCommitVote;
  rs ← current_rs;
  c ← get;
  if quorum (MessageSet_Size (rs_preCommitVotes rs)) c && (rs_state rs <? StatePreCommitted) then
    lockQC ← asks (messagesToQC (m_Code data));
    _ ← acceptLockQC lockQC;
    sendCommit lockQC
  else mret tt.

(** The view that is checked is the certificate's, not the message's. *)
Definition handleCommit (data : Message) : M Core unit :=
  _ ← newLogger;
  lockQC ← lift (on_err (Message_Decode c_QuorumCert data) ErrFailedDecodeCommit);
  _ ← asks (c_checkView (qc_View lockQC));
  _ ← asks (checkMsgSource (m_Address data));
  _ ← asks (verifyQC data (Some lockQC));
  c ← get;
  rs ← current_rs;
  _ ← when (c_IsProposer c && (rs_state rs <? StateCommitted)) (sendVote MsgTypeCommitVote);
  c' ← get;
  rs' ← current_rs;
  when (negb (c_IsProposer c') && (rs_state rs' <? StatePreCommitted))
    (_ ← acceptLockQC lockQC;
     sendVote MsgTypeCommitVote).

(** ** Decide ([core/decide.go]) *)

Definition acceptCommitQC (sealedBlock : Block) (commitQC : QuorumCert) : M Core unit :=
  _ ← SetSealedBlock env sealedBlock;
  _ ← SetCommittedQC env commitQC;
  mod_rs (set_rs_state StateCommitted).

(** Whether [executed] is there and for this block. *)
Definition executed_matches (sealedBlock : Block) (rs : roundState) : bool :=
  match rs_executed rs with
  | Some (mkExecuted (Some b) _) => Block_Hash b =? Block_Hash sealedBlock
  | _ => false
  end.

Definition commit (sealedBlock : Block) : M Core unit :=
  rs ← current_rs;
  match LockedBlock rs with
  | None => throw (ErrFmt "locked block is nil")
  | Some locked =>
      if negb (Block_Hash locked =? Block_Hash sealedBlock) then throw (ErrFmt "expect locked block %v, got %v")
      else
        c ← get;
        _ ← when (negb (executed_matches sealedBlock rs))
              (if c_IsProposer c then mod_rs (set_rs_executed (Some (mkExecuted (Some sealedBlock) 0)))
               else
                 executed ← lift (on_err (e_ExecuteBlock env sealedBlock) (ErrFmt "failed to execute block %v, err: %v"));
                 mod_rs (set_rs_executed (Some (mkExecuted (Some sealedBlock) (xb_State executed)))));
        rs' ← current_rs;
        executed ← lift (deref (rs_executed rs'));
        _ ← emit (ECommit (rs_height rs') (rs_node rs') executed);
        lift (e_Commit env executed)
  end.

Definition sendDecide (block : Hash) (commitQC : QuorumCert) : M Core unit :=
  _ ← newLogger;
  or_return (encode_val c_Diploma (mkDiploma (Some commitQC) block)) (fun payload => broadcast MsgTypeDecide payload).

Definition handleCommitVote (data : Message) : M Core unit :=
  _ ← newLogger;
  vote ← lift (Message_Decode c_Vote data);
  _ ← asks (c_checkView (m_View data));
  _ ← asks checkMsgDest;
  _ ← asks (checkVote vote MsgTypeCommitVote);
  rs ← current_rs;
  match LockedBlock rs with
  | None => throw ErrInvalidNode
  | Some lockedBlock =>
      _ ← wrap (AddCommitVote data) ErrAddPreCommitVote;
      rs ← current_rs;
      c ← get;
      if quorum (MessageSet_Size (rs_commitVotes rs)) c && (rs_state rs =? StatePreCommitted) then
        commitQC ← asks (messagesToQC (m_Code data));
        sealedBlock ← lift (e_SealBlock env lockedBlock commitQC);
        _ ← acceptCommitQC sealedBlock commitQC;
        sendDecide (Block_Hash sealedBlock) commitQC
      else mret tt
  end.

(** The locked block, the current node and the certificate agree. *)
Definition check_decision (commitQC : QuorumCert) (blockHash : Hash) (c : Core) : outcome Block :=
  rs ← deref (c_current c);
  match LockedBlock rs with
  | None => Err ErrInvalidBlock
  | Some locked =>
      _ ← fail_if ((blockHash =? EmptyHash) || negb (Block_Hash locked =? blockHash)) ErrInvalidBlock;
      match rs_node rs with
      | None => Err ErrInvalidNode
      | Some node =>
          match pb_Block node with
          | None => Err ErrInvalidNode
          | Some b =>
              h ← ProposedBlock_Hash node;
              _ ← fail_if (negb (h =? qc_ProposedBlock commitQC)) ErrInvalidQC;
              _ ← fail_if (negb (Block_Hash b =? blockHash)) ErrInvalidBlock;
              Ret locked
          end
      end
  end.

Definition handleDecide (data : Message) : M Core unit :=
  _ ← newLogger;
  msg ← lift (on_err (Message_Decode c_Diploma data) ErrFailedDecodeCommit);
  _ ← asks (c_checkView (m_View data));
  _ ← asks (checkMsgSource (m_Address data));
  _ ← asks (verifyQC data (dip_CommitQC msg));
  commitQC ← lift (deref (dip_CommitQC msg));
  lockedBlock ← asks (check_decision commitQC (dip_BlockHash msg));
  c ← get;
  rs ← current_rs;
  _ ← when (c_IsProposer c && (rs_state rs =? StateCommitted)) (commit lockedBlock);
  c' ← get;
  rs' ← current_rs;
  _ ← when (negb (c_IsProposer c') && (rs_state rs' =? StatePreCommitted))
        (sealedBlock ← lift (e_SealBlock env lockedBlock commitQC);
         _ ← acceptCommitQC sealedBlock commitQC;
         commit sealedBlock);
  startNewRound 0.

Definition handleFinalCommitted (header : Header) : M Core unit :=
  _ ← newLogger;
  n ← lift (deref (hdr_Number header));
  rs ← current_rs;
  when (rs_HeightU64 rs <=? u64 n) (startNewRound 0).

(** ** Requests ([core/request.go]) *)

Definition handleRequest (request : Request) : M Core unit :=
  _ ← newLogger;
  c ← get;
  match checkRequestMsg request c with
  | Panic => panic
  | Err e =>
      _ ← when (bool_decide (e = ErrFutureMessage)) (storeRequestMsg request);
      throw e
  | Ret _ =>
      rs ← current_rs;
      if rs_state rs =? StateAcceptRequest then storeRequestMsg request
      else if rs_state rs =? StateHighQC then
        stale ← lift (match rs_pendingRequest rs with
                      | None => Ret true
                      | Some r => b ← deref (req_Block r); n ← Block_NumberU64 b; Ret (n <? rs_HeightU64 rs)
                      end);
        when stale (_ ← mod_rs (SetPendingRequest request); sendPrepare)
      else when (match rs_pendingRequest rs with None => true | Some _ => false end)
             (mod_rs (SetPendingRequest request))
  end.

(** ** Dispatch ([core/handler.go]) *)

Definition dispatch (msg : Message) : M Core unit :=
  let code := m_Code msg in
  if code =? MsgTypeNewView then handleNewView msg
  else if code =? MsgTypePrepare then handlePrepare msg
  else if code =? MsgTypePrepareVote then handlePrepareVote msg
  else if code =? MsgTypePreCommit then handlePreCommit msg
  else if code =? MsgTypePreCommitVote then handlePreCommitVote msg
  else if code =? MsgTypeCommit then handleCommit msg
  else if code =? MsgTypeCommitVote then handleCommitVote msg
  else if code =? MsgTypeDecide then handleDecide msg
  else throw ErrInvalidMessage.

(** A future message is queued. *)
Definition handleCheckedMsg (msg : Message) : M Core unit := fun c =>
  match c_current c with
  | None => (Ret tt, c)
  | Some _ =>
      match dispatch msg c with
      | (Err e, c') =>
          if decide (e = ErrFutureMessage)
          then (_ ← storeBacklog msg; throw e) c'
          else (Err e, c')
      | r => r
      end
  end.

Definition checkValidatorSignature (c : Core) (hash : Hash) (sig : bytes) : outcome Address :=
  CheckSignature (c_valSet c) hash sig.

Definition handleMsg (val : Address) (payload : bytes) : M Core unit :=
  c ← get;
  msg ← lift (on_err (FromPayload val payload (Some (checkValidatorSignature c))) ErrFailedDecodeMessage);
  let '(index, src) := GetByAddress val (c_valSet c) in
  if (index <? 0) || (match src with None => true | Some _ => false end) then throw ErrInvalidSigner
  else handleCheckedMsg msg.

Definition handleTimeoutMsg : M Core unit :=
  rs ← current_rs; startNewRound (rs_round rs + 1).

Inductive Event :=
| RequestEvent (block : option Block)
| MessageEvent (src : Address) (payload : bytes)
| BacklogEvent (src : Validator) (msg : Message)
| TimeoutEvent
| FinalCommittedEvent (header : Header).

(** One turn of [handleEvents]; the handlers' errors are dropped. *)
Definition handleEvent (ev : Event) : M Core unit :=
  ignore match ev with
         | RequestEvent b => handleRequest (mkRequest b)
         | MessageEvent src payload => handleMsg src payload
         | BacklogEvent _ msg => handleCheckedMsg msg
         | TimeoutEvent => handleTimeoutMsg
         | FinalCommittedEvent h => handleFinalCommitted h
         end.

Definition Core_Start : M Core unit :=
  _ ← modify (fun c => set_c_current None (set_c_isRunning true c));
  startNewRound 0.

Definition Core_Stop : M Core unit :=
  _ ← stopTimer; modify (set_c_isRunning false).

End Handlers.

(** The event loop: each event is handled before the next one is taken, in
    the surroundings of its moment. *)
Fixpoint handleEvents (evs : list (Env * Event)) : M Core unit :=
  match evs with
  | [] => mret tt
  | (env, ev) :: evs' => _ ← handleEvent env ev; handleEvents evs'
  end.

Definition Core_New (db : option (gmap string bytes)) (requestTimeout : Z) (signer : HotstuffSigner) (valSet : defaultSet) : Core :=
  mkCore db requestTimeout None signer valSet newBackLog Prque_New false None [].

End Core.
