(* ===== verification/Outbox.v ===== *)
(** * What the engine sends

    The engine's log only grows, and what any handler appends to it satisfies
    a property [P] as soon as what [broadcast] appends does.  The instance
    [sent_ok] says that the bytes of a message on the wire encode the message
    they are logged with. *)
From Stdlib Require Import ZArith Lia Strings.Byte.
From stdpp Require Import base list option strings gmap.
From S2P Require Import Prelude Errors Rlp Codec Common Validator Block Types Signer Prque MessageSet Backlog RoundState Core.
Open Scope Z_scope.

Section Outbox.
Context `{Keccak} `{Crypto}.

Definition emits (P : Effect -> Prop) (c c' : Core) : Prop := exists es, c_out c' = c_out c ++ es /\ Forall P es.

#[global] Instance emits_preorder P : PreOrder (emits P).
Proof.
  split.
  - intros c. exists []. by rewrite app_nil_r.
  - intros c1 c2 c3 (es & E & He) (es' & E' & He'). exists (es ++ es'). rewrite E', E, app_assoc. by rewrite Forall_app.
Qed.

Lemma emits_Forall P c c' : emits P c c' -> Forall P (c_out c) -> Forall P (c_out c').
Proof. intros (es & -> & He) Hc. by apply Forall_app. Qed.

Definition is_send (e : Effect) : bool := match e with EUnicast _ _ _ | EBroadcast _ _ => true | _ => false end.

Section Handlers.
Context (P : Effect -> Prop) (Hother : forall e, is_send e = false -> P e).

Definition sends_ok : Prop := forall code payload c rs m p,
  finalizeMessage (NewCleanMessage (Some (currentView rs)) code payload) c = Ret (m, p) ->
  (is_vote_type code = true -> forall t, P (EUnicast t m p)) /\ (is_leader_type code = true -> P (EBroadcast m p)).
Context (Hsends : sends_ok).

Lemma emits_same (f : Core -> Core) : (forall c, c_out (f c) = c_out c) -> respects (emits P) (modify f).
Proof. intros Hf. apply respects_modify. intros c. exists []. by rewrite Hf, app_nil_r. Qed.

Lemma emits_append (f : Core -> Core) es : (forall c, c_out (f c) = c_out c ++ es) -> Forall P es -> respects (emits P) (modify f).
Proof. intros Hf He. apply respects_modify. intros c. exists es. by rewrite Hf. Qed.

Lemma emits_mod_rs f : respects (emits P) (mod_rs f).
Proof. apply respects_bind; [apply _|apply respects_asks; apply _|]. intros rs. by apply emits_same. Qed.

Lemma emits_lift {A} (o : outcome A) : respects (emits P) (lift o).
Proof. intros c. reflexivity. Qed.

Lemma emits_or_return {A} (o : outcome A) k : (forall a, o = Ret a -> respects (emits P) (k a)) -> respects (emits P) (or_return o k).
Proof. intros Hk. destruct o; [by apply Hk|apply respects_ret; apply _|apply respects_panic; apply _]. Qed.

Lemma emits_emit e : P e -> respects (emits P) (emit e).
Proof. intros He. apply emits_append with [e]; [done|by constructor]. Qed.

Lemma emits_log_and_return m k : respects (emits P) m -> respects (emits P) k -> respects (emits P) (log_and_return m k).
Proof.
  intros Hm Hk c. specialize (Hm c). unfold log_and_return. destruct (m c) as [[[]|e|] c1]; try done. cbn in Hm.
  etrans; [exact Hm|apply Hk].
Qed.

Create HintDb emits.
#[local] Hint Resolve emits_mod_rs emits_lift : emits.

(** One construct of the monad, or a handler that is already known. *)
Ltac emits_step :=
  match goal with
  | |- respects _ (_ ≫= _) => apply respects_bind; [apply _| |intros ?]
  | |- respects _ (when _ _) => apply respects_when; [apply _|]
  | |- respects _ (wrap _ _) => apply respects_wrap
  | |- respects _ (ignore _) => apply respects_ignore
  | |- respects _ (or_return _ _) => apply emits_or_return; intros ? ?
  | |- respects _ (log_and_return _ _) => apply emits_log_and_return
  | |- respects _ current_rs => apply respects_asks; apply _
  | |- respects _ newLogger => unfold newLogger
  | |- respects _ (asks _) => apply respects_asks; apply _
  | |- respects _ get => apply respects_get; apply _
  | |- respects _ (mret _) => apply respects_ret; apply _
  | |- respects _ (throw _) => apply respects_throw; apply _
  | |- respects _ panic => apply respects_panic; apply _
  | |- respects _ (modify _) => by apply emits_same
  | |- respects _ (emit _) => by apply emits_emit, Hother
  | |- respects _ (match ?x with _ => _ end) => destruct x
  | |- _ => by auto with emits
  end.
Ltac emits := repeat emits_step.

Lemma emits_store env {A} (cd : codec A) key a : respects (emits P) (store env cd key a).
Proof. unfold store. emits. Qed.

Lemma emits_load {A} (cd : codec A) key f : respects (emits P) (load_with cd key f).
Proof. unfold load_with. emits. Qed.
#[local] Hint Resolve emits_store emits_load : emits.

Lemma emits_broadcast code payload : respects (emits P) (broadcast code payload).
Proof.
  unfold broadcast. apply respects_bind; [apply _|emits|intros rs]. apply respects_bind; [apply _|emits|intros c].
  destruct (_ <? 0); [emits|]. apply emits_or_return. intros [m p] Hm. destruct (Hsends _ _ _ _ _ _ Hm) as [Hv Hl].
  destruct (is_vote_type code).
  - apply respects_bind; [apply _|emits|intros t]. by apply emits_emit, Hv.
  - destruct (is_leader_type code); [by apply emits_emit, Hl|emits].
Qed.
#[local] Hint Resolve emits_broadcast : emits.

Lemma emits_sendVote code : respects (emits P) (sendVote code).
Proof. unfold sendVote. emits. Qed.
#[local] Hint Resolve emits_sendVote : emits.

Section Env.
Context (env : Env).

Lemma emits_reload v : respects (emits P) (reload v).
Proof. unfold reload, loadView, loadPrepareQC, loadLockQC, loadCommitQC, loadNode. emits. Qed.

Lemma emits_SetPrepareQC qc : respects (emits P) (SetPrepareQC env qc).
Proof. unfold SetPrepareQC, storePrepareQC. emits. Qed.

Lemma emits_SetCommittedQC qc : respects (emits P) (SetCommittedQC env qc).
Proof. unfold SetCommittedQC, storeCommitQC. emits. Qed.

Lemma emits_SetSealedBlock b : respects (emits P) (SetSealedBlock env b).
Proof. unfold SetSealedBlock, storeNode. emits. Qed.

Lemma emits_Lock qc : respects (emits P) (Lock env qc).
Proof. unfold Lock, storeLockQC, storeNode. emits. Qed.

Lemma emits_SetProposedBlock n : respects (emits P) (SetProposedBlock n).
Proof. unfold SetProposedBlock. emits. Qed.
#[local] Hint Resolve emits_reload emits_SetPrepareQC emits_SetCommittedQC emits_SetSealedBlock emits_Lock emits_SetProposedBlock : emits.

Lemma emits_processBacklog : respects (emits P) (processBacklog env).
Proof.
  unfold processBacklog. do 2 (apply respects_bind; [apply _|emits|intros ?]).
  apply respects_bind; [apply _|emits|intros [b' out]].
  eapply emits_append; [done|]. apply Forall_forall. intros e (x & -> & _)%list_elem_of_fmap. by apply Hother.
Qed.

Lemma emits_processPendingRequests : respects (emits P) processPendingRequests.
Proof.
  unfold processPendingRequests. apply respects_bind; [apply _|emits|intros ?].
  apply respects_bind; [apply _|emits|intros [q' bs]].
  eapply emits_append; [done|]. apply Forall_forall. intros e (x & -> & _)%list_elem_of_fmap. by apply Hother.
Qed.
#[local] Hint Resolve emits_processBacklog emits_processPendingRequests : emits.

Lemma emits_setCurrentState st : respects (emits P) (setCurrentState env st).
Proof. unfold setCurrentState. emits. Qed.
#[local] Hint Resolve emits_setCurrentState : emits.

Lemma emits_startNewRound round : respects (emits P) (startNewRound env round).
Proof. unfold startNewRound, enter_round, new_view, updateRoundState, newRoundChangeTimer, stopTimer, sendNewView. emits. Qed.

Lemma emits_sendPrepare : respects (emits P) (sendPrepare env).
Proof. unfold sendPrepare. emits. Qed.

Lemma emits_commit b : respects (emits P) (commit env b).
Proof. unfold commit. emits. Qed.
#[local] Hint Resolve emits_startNewRound emits_sendPrepare emits_commit : emits.

Lemma emits_dispatch msg : respects (emits P) (dispatch env msg).
Proof.
  unfold dispatch. repeat (destruct (m_Code msg =? _)).
  - unfold handleNewView, AddNewViews. emits.
  - unfold handlePrepare, executeBlock. emits.
  - unfold handlePrepareVote, AddPrepareVote, acceptPrepareQC, sendPreCommit, sendQC. emits.
  - unfold handlePreCommit, acceptPrepareQC. emits.
  - unfold handlePreCommitVote, AddPreCommitVote, acceptLockQC, sendCommit, sendQC. emits.
  - unfold handleCommit, acceptLockQC. emits.
  - unfold handleCommitVote, AddCommitVote, acceptCommitQC, sendDecide. emits.
  - unfold handleDecide, acceptCommitQC. emits.
  - emits.
Qed.

Lemma emits_storeBacklog msg : respects (emits P) (storeBacklog msg).
Proof. unfold storeBacklog. emits. Qed.
#[local] Hint Resolve emits_storeBacklog : emits.

Lemma emits_handleCheckedMsg msg : respects (emits P) (handleCheckedMsg env msg).
Proof.
  intros c. unfold handleCheckedMsg. destruct (c_current c); [|reflexivity]. pose proof (emits_dispatch msg c) as Hd.
  destruct (dispatch env msg c) as [[u|e|] c1]; try done. destruct (decide _); [|done]. cbn in Hd. etrans; [exact Hd|].
  revert c1 Hd. change (forall c1, emits P c c1 -> emits P c1 ((_ ← storeBacklog msg; throw e : M Core unit) c1).2). intros c1 _. revert c1.
  change (respects (emits P) (_ ← storeBacklog msg; throw e : M Core unit)). emits.
Qed.
#[local] Hint Resolve emits_handleCheckedMsg : emits.

(** Every handler appends to the log, and nothing but [P]. *)
Lemma emits_handleEvent ev : respects (emits P) (handleEvent env ev).
Proof.
  unfold handleEvent. apply respects_ignore. destruct ev.
  - unfold handleRequest, storeRequestMsg. emits.
  - unfold handleMsg. emits.
  - emits.
  - unfold handleTimeoutMsg. emits.
  - unfold handleFinalCommitted. emits.
Qed.

Lemma emits_Core_Start : respects (emits P) (Core_Start env).
Proof. unfold Core_Start. emits. Qed.

End Env.
End Handlers.

(** ** Bytes on the wire *)

Definition sent_ok (e : Effect) : Prop :=
  match e with
  | EUnicast _ m p | EBroadcast m p => Message_Payload m = Ret p /\ 0 <= m_Code m < 2 ^ 64 /\ is_Some (m_View m) /\ m_Address m = EmptyAddress
  | _ => True
  end.

Lemma sent_ok_other e : is_send e = false -> sent_ok e.
Proof. by destruct e. Qed.

Lemma sent_ok_sends : sends_ok sent_ok.
Proof.
  intros code payload c rs m p Hm. unfold finalizeMessage in Hm. apply outcome_bind_Ret in Hm as (d & _ & Hm).
  apply outcome_bind_Ret in Hm as (h & _ & Hm). apply outcome_bind_Ret in Hm as (sig & _ & Hm).
  apply outcome_bind_Ret in Hm as (p' & Hp & [= <- <-]). cbn [m_Code m_View NewCleanMessage] in *.
  assert (is_vote_type code = true \/ is_leader_type code = true -> 0 <= code < 2 ^ 64) as Hcode.
  { unfold is_vote_type, is_leader_type, MsgTypeNewView, MsgTypePrepareVote, MsgTypePreCommitVote, MsgTypeCommitVote,
      MsgTypePrepare, MsgTypePreCommit, MsgTypeCommit, MsgTypeDecide. rewrite !orb_true_iff, !Z.eqb_eq. lia. }
  split; intros Ht; [intros t|]; (split_and!; [done|apply Hcode; auto|apply Hcode; auto|by eexists|done]).
Qed.

Lemma sent_handleEvent env ev c : emits sent_ok c (handleEvent env ev c).2.
Proof. apply emits_handleEvent; [apply sent_ok_other|apply sent_ok_sends]. Qed.

Lemma sent_Core_Start env c : emits sent_ok c (Core_Start env c).2.
Proof. apply emits_Core_Start; [apply sent_ok_other|apply sent_ok_sends]. Qed.

End Outbox.
