(* ===== verification/Backend.v ===== *)
(** * The backend (package [consensus/hotstuff/backend])

    The backend connects the engine with the chain, the miner and the peers:
    it is the engine's [Backend] interface ([backend.go]), the node's consensus
    engine ([engine.go]) and the peers' message handler ([handler.go]).

    [Backend] holds its fields.  The caches of messages a peer has seen are
    reached through pointers kept in [recentMessages], so they live in a store
    of their own ([bk_caches], indexed by pointer).  What the backend starts in
    other goroutines (posting an event, sending to a peer) and what it hands
    to its surroundings is a log ([bk_out]).  The contents of the chain, the
    clock, the connected peers and Go's map order are a [World] that each call
    sees at its moment.  A goroutine of [Seal] is a [SealTask]; its steps are
    definitions of their own because they interleave with other calls. *)
From Stdlib Require Import ZArith Lia Strings.Byte.
From stdpp Require Import base list option strings gmap.
From S2P Require Import Prelude Errors Rlp Codec Common Validator Transaction Block Types Signer Cache MessageSet RoundState Core.
Open Scope Z_scope.

(** ** Configuration ([config.go]) *)

Definition FaultyMode := string.
Definition Disabled : FaultyMode := "Disabled".
Definition TargetedBadPreCommit : FaultyMode := "TargetedBadPreCommit".
Definition TargetedBadCommit : FaultyMode := "TargetedBadCommit".
Definition BadDecideBadBlock : FaultyMode := "GoodDecideBadBlock".

Record Config := mkConfig {
  cfg_RequestTimeout : Z;
  cfg_BlockPeriod : Z;
  cfg_LeaderPolicy : SelectProposerPolicy;
  cfg_FaultyMode : FaultyMode
}.

Definition DefaultBasicConfig : Config := mkConfig 6000 3 RoundRobin Disabled.

(** ** Messages of the peer-to-peer layer ([p2p/message.go]) *)

(** The payload is a [bytes.Reader] or another reader; [Size] is the size the
    transport announced. *)
Record Msg := mkMsg {
  msg_Code : Z;
  msg_Size : Z;
  msg_Payload : bytes;
  msg_BytesReader : bool
}.

(** A stream limited to [Size] bytes (or not at all, if it is 0) is read up to
    the end of the first value; what follows is not looked at. *)
Definition Msg_Decode {A} (cd : codec A) (msg : Msg) : outcome A :=
  let input := if msg_Size msg =? 0 then msg_Payload msg else take (Z.to_nat (msg_Size msg)) (msg_Payload msg) in
  '(k, c, _) ← Split input;
  it ← (match k with
        | KList => l ← decodeList (length c) c; Ret (Lst l)
        | _ => Ret (Str c)
        end);
  dec cd it.

(** [p2p.Send] *)
Definition Msg_of {A} (cd : codec A) (code : Z) (a : A) : outcome Msg :=
  raw ← encode_val cd a; Ret (mkMsg code (zlen raw mod 2 ^ 32) raw false).

Section Backend.
Context `{Keccak} `{Crypto} `{Eviction} `{Cache}.

(** ** The surroundings *)

(** [consensus.ChainReader], with the functions [Start] is given along with it. *)
Record Chain := mkChain {
  GetHeader : Hash -> Z -> option Header;
  GetHeaderByNumber : Z -> option Header;
  chain_ExecuteBlock : Block -> outcome Z;
  chain_currentBlock : Block;
  chain_hasBadBlock : Hash -> bool
}.

Record World := mkWorld {
  w_chain : Chain;
  w_now : Z;
  w_peers : list Address;
  w_order : MapOrder;
  w_put : string -> bytes -> outcome unit;
  w_float_overflow : Z
}.

(** [handler.FindPeers], [handler.FindPeer]: peers are known by their address. *)
Definition FindPeers (targets : gset Address) (w : World) : gmap Address Address :=
  list_to_map ((fun a => (a, a)) <$> filter (fun a => a ∈ targets) (w_peers w)).

Definition FindPeer (target : Address) (w : World) : option Address :=
  snd <$> list_find (fun a => a = target) (w_peers w).

(** ** State *)

Inductive Out :=
| OSend (peer : Address) (code : Z) (payload : bytes)
| OPost (ev : Event)
| OFeed (executed : ExecutedBlock)
| OEnqueue (block : Block)
| OResult (task : nat) (block : option Block).

Inductive SealPhase := Delaying | Locking | Proposing | Finished.

Record SealTask := mkSealTask { st_block : Block; st_phase : SealPhase }.

Record Backend := mkBackend {
  bk_config : Config;
  bk_signer : HotstuffSigner;
  bk_chain : bool;
  bk_currentBlock : bool;
  bk_hasBadBlock : bool;
  bk_valset : defaultSet;
  bk_recentMessages : arc nat;
  bk_caches : list (arc bool);
  bk_knownMessages : arc bool;
  bk_sealMu : bool;
  bk_seals : list SealTask;
  bk_commitCh : list Block;
  bk_proposedBlockHash : Hash;
  bk_coreStarted : bool;
  bk_broadcaster : bool;
  bk_proposals : gmap Address bool;
  bk_out : list Out
}.

Definition inmemoryPeers : nat := 1000.
Definition inmemoryMessages : nat := 1024.

Definition NewBackend (config : Config) (key : PrivateKey) (valset : defaultSet) (pub : PubPoly) (share : PriShare) (t n : Z) : Backend :=
  mkBackend config (NewSigner key pub share t n) false false false valset (NewARC inmemoryPeers) [] (NewARC inmemoryMessages)
    false [] [] EmptyHash false false ∅ [].

(** ** Field updates *)

Definition set_bk_signer (v : HotstuffSigner) (s : Backend) : Backend :=
  mkBackend (bk_config s) v (bk_chain s) (bk_currentBlock s) (bk_hasBadBlock s) (bk_valset s)
    (bk_recentMessages s) (bk_caches s) (bk_knownMessages s) (bk_sealMu s) (bk_seals s) (bk_commitCh s)
    (bk_proposedBlockHash s) (bk_coreStarted s) (bk_broadcaster s) (bk_proposals s) (bk_out s).

Definition set_bk_recentMessages (v : arc nat) (s : Backend) : Backend :=
  mkBackend (bk_config s) (bk_signer s) (bk_chain s) (bk_currentBlock s) (bk_hasBadBlock s) (bk_valset s) v
    (bk_caches s) (bk_knownMessages s) (bk_sealMu s) (bk_seals s) (bk_commitCh s) (bk_proposedBlockHash s)
    (bk_coreStarted s) (bk_broadcaster s) (bk_proposals s) (bk_out s).

Definition set_bk_caches (v : list (arc bool)) (s : Backend) : Backend :=
  mkBackend (bk_config s) (bk_signer s) (bk_chain s) (bk_currentBlock s) (bk_hasBadBlock s) (bk_valset s)
    (bk_recentMessages s) v (bk_knownMessages s) (bk_sealMu s) (bk_seals s) (bk_commitCh s)
    (bk_proposedBlockHash s) (bk_coreStarted s) (bk_broadcaster s) (bk_proposals s) (bk_out s).

Definition set_bk_knownMessages (v : arc bool) (s : Backend) : Backend :=
  mkBackend (bk_config s) (bk_signer s) (bk_chain s) (bk_currentBlock s) (bk_hasBadBlock s) (bk_valset s)
    (bk_recentMessages s) (bk_caches s) v (bk_sealMu s) (bk_seals s) (bk_commitCh s) (bk_proposedBlockHash s)
    (bk_coreStarted s) (bk_broadcaster s) (bk_proposals s) (bk_out s).

Definition set_bk_sealMu (v : bool) (s : Backend) : Backend :=
  mkBackend (bk_config s) (bk_signer s) (bk_chain s) (bk_currentBlock s) (bk_hasBadBlock s) (bk_valset s)
    (bk_recentMessages s) (bk_caches s) (bk_knownMessages s) v (bk_seals s) (bk_commitCh s)
    (bk_proposedBlockHash s) (bk_coreStarted s) (bk_broadcaster s) (bk_proposals s) (bk_out s).

Definition set_bk_seals (v : list SealTask) (s : Backend) : Backend :=
  mkBackend (bk_config s) (bk_signer s) (bk_chain s) (bk_currentBlock s) (bk_hasBadBlock s) (bk_valset s)
    (bk_recentMessages s) (bk_caches s) (bk_knownMessages s) (bk_sealMu s) v (bk_commitCh s)
    (bk_proposedBlockHash s) (bk_coreStarted s) (bk_broadcaster s) (bk_proposals s) (bk_out s).

Definition set_bk_commitCh (v : list Block) (s : Backend) : Backend :=
  mkBackend (bk_config s) (bk_signer s) (bk_chain s) (bk_currentBlock s) (bk_hasBadBlock s) (bk_valset s)
    (bk_recentMessages s) (bk_caches s) (bk_knownMessages s) (bk_sealMu s) (bk_seals s) v
    (bk_proposedBlockHash s) (bk_coreStarted s) (bk_broadcaster s) (bk_proposals s) (bk_out s).

Definition set_bk_proposedBlockHash (v : Hash) (s : Backend) : Backend :=
  mkBackend (bk_config s) (bk_signer s) (bk_chain s) (bk_currentBlock s) (bk_hasBadBlock s) (bk_valset s)
    (bk_recentMessages s) (bk_caches s) (bk_knownMessages s) (bk_sealMu s) (bk_seals s) (bk_commitCh s) v
    (bk_coreStarted s) (bk_broadcaster s) (bk_proposals s) (bk_out s).

Definition set_bk_coreStarted (v : bool) (s : Backend) : Backend :=
  mkBackend (bk_config s) (bk_signer s) (bk_chain s) (bk_currentBlock s) (bk_hasBadBlock s) (bk_valset s)
    (bk_recentMessages s) (bk_caches s) (bk_knownMessages s) (bk_sealMu s) (bk_seals s) (bk_commitCh s)
    (bk_proposedBlockHash s) v (bk_broadcaster s) (bk_proposals s) (bk_out s).

Definition set_bk_broadcaster (v : bool) (s : Backend) : Backend :=
  mkBackend (bk_config s) (bk_signer s) (bk_chain s) (bk_currentBlock s) (bk_hasBadBlock s) (bk_valset s)
    (bk_recentMessages s) (bk_caches s) (bk_knownMessages s) (bk_sealMu s) (bk_seals s) (bk_commitCh s)
    (bk_proposedBlockHash s) (bk_coreStarted s) v (bk_proposals s) (bk_out s).

Definition set_bk_proposals (v : gmap Address bool) (s : Backend) : Backend :=
  mkBackend (bk_config s) (bk_signer s) (bk_chain s) (bk_currentBlock s) (bk_hasBadBlock s) (bk_valset s)
    (bk_recentMessages s) (bk_caches s) (bk_knownMessages s) (bk_sealMu s) (bk_seals s) (bk_commitCh s)
    (bk_proposedBlockHash s) (bk_coreStarted s) (bk_broadcaster s) v (bk_out s).

Definition set_bk_out (v : list Out) (s : Backend) : Backend :=
  mkBackend (bk_config s) (bk_signer s) (bk_chain s) (bk_currentBlock s) (bk_hasBadBlock s) (bk_valset s)
    (bk_recentMessages s) (bk_caches s) (bk_knownMessages s) (bk_sealMu s) (bk_seals s) (bk_commitCh s)
    (bk_proposedBlockHash s) (bk_coreStarted s) (bk_broadcaster s) (bk_proposals s) v.

Definition attach (c cb bad : bool) (s : Backend) : Backend :=
  mkBackend (bk_config s) (bk_signer s) c cb bad (bk_valset s) (bk_recentMessages s) (bk_caches s)
    (bk_knownMessages s) (bk_sealMu s) (bk_seals s) (bk_commitCh s) (bk_proposedBlockHash s) (bk_coreStarted
    s) (bk_broadcaster s) (bk_proposals s) (bk_out s).

Definition emit (o : Out) : M Backend unit := modify (fun s => set_bk_out (bk_out s ++ [o]) s).

(** A call of the signer, whose cache is part of the state. *)
Definition with_signer {A} (m : M HotstuffSigner A) : M Backend A := fun s =>
  let '(o, sg) := m (bk_signer s) in (o, set_bk_signer sg s).

Definition embed {A} (o : outcome A) : M Backend A := fun s => (o, s).

(** ** Identity and validators *)

Definition bk_Address (s : Backend) : Address := sg_address (bk_signer s).

(** [snap.go]; the proposer of [s.valset], which the engine shares, is not copied. *)
Definition snap (s : Backend) : defaultSet := Copy (bk_valset s).

Definition Validators (s : Backend) : defaultSet := snap s.

(** ** Messages to peers ([backend.go]) *)

Definition hotstuffMsg : Z := 0x11.
Definition NewBlockMsg : Z := 0x07.

(** [s.recentMessages.Get(addr)]: the pointer to a peer's cache. *)
Definition recent_Get (addr : Address) : M Backend (option nat) := fun s =>
  let '(r, m) := arc_Get addr (bk_recentMessages s) in (Ret r, set_bk_recentMessages m s).

Definition recent_Add (addr : Address) (p : nat) : M Backend unit :=
  modify (fun s => set_bk_recentMessages (arc_Add addr p (bk_recentMessages s)) s).

(** [lru.NewARC(inmemoryMessages)]: a new cache in the store. *)
Definition cache_new : M Backend nat := fun s =>
  (Ret (length (bk_caches s)), set_bk_caches (bk_caches s ++ [NewARC inmemoryMessages]) s).

Definition cache_Get (p : nat) (hash : Hash) : M Backend bool := fun s =>
  match bk_caches s !! p with
  | None => (Panic, s)
  | Some m => let '(r, m') := arc_Get hash m in
      (Ret (match r with Some _ => true | None => false end), set_bk_caches (<[p := m']> (bk_caches s)) s)
  end.

Definition cache_Add (p : nat) (hash : Hash) : M Backend unit := fun s =>
  match bk_caches s !! p with
  | None => (Panic, s)
  | Some m => (Ret tt, set_bk_caches (<[p := arc_Add hash true m]> (bk_caches s)) s)
  end.

Definition known_Get (hash : Hash) : M Backend bool := fun s =>
  let '(r, m) := arc_Get hash (bk_knownMessages s) in
  (Ret (match r with Some _ => true | None => false end), set_bk_knownMessages m s).

Definition known_Add (hash : Hash) : M Backend unit :=
  modify (fun s => set_bk_knownMessages (arc_Add hash true (bk_knownMessages s)) s).

Definition payload_hash (payload : bytes) : Hash := rlpHash c_bytes payload.

(** The body of the loop of [Gossip] and of [Unicast]: a peer that is known
    to have the message is skipped. *)
Definition send_once (addr : Address) (hash : Hash) (payload : bytes) : M Backend unit :=
  r ← recent_Get addr;
  match r with
  | Some m =>
      k ← cache_Get m hash;
      if (k : bool) then mret tt
      else _ ← cache_Add m hash; _ ← recent_Add addr m; emit (OSend addr hotstuffMsg payload)
  | None =>
      m ← cache_new;
      _ ← cache_Add m hash; _ ← recent_Add addr m; emit (OSend addr hotstuffMsg payload)
  end.

Fixpoint gossip_loop (ps : list Address) (hash : Hash) (payload : bytes) : M Backend unit :=
  match ps with
  | [] => mret tt
  | addr :: ps' => _ ← send_once addr hash payload; gossip_loop ps' hash payload
  end.

Definition gossip_targets (valSet : defaultSet) (s : Backend) : gset Address :=
  list_to_set (filter (fun a => a <> bk_Address s) (AddressList valSet)).

Definition Gossip (w : World) (valSet : defaultSet) (payload : bytes) : M Backend unit :=
  let hash := payload_hash payload in
  _ ← known_Add hash;
  s ← get;
  let targets := gossip_targets valSet s in
  if bk_broadcaster s && bool_decide (targets <> ∅)
  then gossip_loop (w_order w _ (FindPeers targets w)).*1 hash payload
  else mret tt.

Definition Broadcast (w : World) (valSet : defaultSet) (payload : bytes) : M Backend unit :=
  _ ← Gossip w valSet payload;
  s ← get;
  emit (OPost (MessageEvent (bk_Address s) payload)).

(** [Unicast] once the leader is known. *)
Definition unicast_to (w : World) (target : Address) (payload : bytes) : M Backend unit :=
  let hash := payload_hash payload in
  _ ← known_Add hash;
  s ← get;
  if bk_Address s =? target then emit (OPost (MessageEvent (bk_Address s) payload))
  else if bk_broadcaster s then
    match FindPeer target w with
    | Some p => send_once p hash payload
    | None => mret tt
    end
  else mret tt.

Definition Unicast (w : World) (valSet : defaultSet) (payload : bytes) : M Backend unit :=
  leader ← embed (deref (GetProposer valSet));
  unicast_to w (val_Address leader) payload.

(** ** Headers ([engine.go]) *)

Definition defaultDifficulty : Z := 1.
Definition nilUncleHash : Hash := CalcUncleHash [].
Definition emptyNonce : Z := 0.

Definition Author (h : Header) : M Backend Address := with_signer (RecoverSigner h).

(** The parent of a header: the last of the batch, or the chain's; a nil chain
    is dereferenced only if it is asked. *)
Definition find_parent (chain : option Chain) (h : Header) (number : Z) (parents : list Header) : outcome (option Header) :=
  match last parents with
  | Some p => Ret (Some p)
  | None => c ← deref chain; Ret (GetHeader c (hdr_ParentHash h) (u64 (number - 1)))
  end.

Definition check_parent (h : Header) (number : Z) (parent : option Header) : outcome Header :=
  match parent with
  | None => Err ErrUnknownAncestor
  | Some p =>
      pn ← deref (hdr_Number p);
      if negb (u64 pn =? u64 (number - 1)) || negb (Header_Hash p =? hdr_ParentHash h) then Err ErrUnknownAncestor
      else Ret p
  end.

Definition verifyHeader (chain : option Chain) (now : Z) (h : Header) (parents : list Header) (seal : bool) : M Backend unit :=
  match hdr_Number h with
  | None => throw ErrUnknownBlock
  | Some n =>
      _ ← embed (fail_if (negb (hdr_MixDigest h =? HotstuffDigest)) ErrInvalidMixDigest);
      _ ← embed (fail_if (negb (hdr_UncleHash h =? nilUncleHash)) ErrInvalidUncleHash);
      _ ← embed (fail_if (match hdr_Difficulty h with None => true | Some d => negb (d =? defaultDifficulty) end) ErrInvalidDifficulty);
      let number := u64 n in
      if number =? 0 then mret tt
      else
        candidate ← embed (find_parent chain h number parents);
        parent ← embed (check_parent h number candidate);
        _ ← embed (fail_if (now <? hdr_Time h) ErrInvalidTimestamp);
        s ← get;
        _ ← embed (fail_if (hdr_Time h <? u64 (hdr_Time parent + cfg_BlockPeriod (bk_config s))) ErrInvalidTimestamp);
        _ ← with_signer (RecoverSigner h);
        with_signer (VerifyHeader h (Copy (snap s)) seal)
  end.

Definition bk_VerifyHeader (chain : option Chain) (now : Z) (h : Header) (seal : bool) : M Backend unit :=
  verifyHeader chain now h [] seal.

(** The goroutine of [VerifyHeaders], not aborted: one result per header, an
    error being a value; [seals] may be shorter than [headers]. *)
Definition attempt {A} (m : M Backend A) : M Backend (option error) := fun s =>
  match m s with
  | (Ret _, s') => (Ret None, s')
  | (Err e, s') => (Ret (Some e), s')
  | (Panic, s') => (Panic, s')
  end.

Fixpoint verify_headers_loop (chain : option Chain) (now : Z) (parents headers : list Header) (seals : list bool)
    : M Backend (list (option error)) :=
  match headers with
  | [] => mret []
  | h :: headers' =>
      let seal := match head seals with Some b => b | None => false end in
      e ← attempt (verifyHeader chain now h parents seal);
      rest ← verify_headers_loop chain now (parents ++ [h]) headers' (tail seals);
      mret (e :: rest)
  end.

Definition VerifyHeaders (chain : option Chain) (now : Z) (headers : list Header) (seals : list bool) : M Backend (list (option error)) :=
  verify_headers_loop chain now [] headers seals.

Definition VerifyUncles (b : Block) : outcome unit :=
  if (0 <? length (b_uncles b))%nat then Err ErrInvalidUncleHash else Ret tt.

(** *** Preparing a header

    [Prepare] writes to the header it is given, also when it returns an error;
    the clock is read twice. *)

Definition prepare_fields (coinbase : Address) (h : Header) : Header :=
  mkHeader (hdr_ParentHash h) (hdr_UncleHash h) coinbase (hdr_Root h) (hdr_TxHash h) (hdr_ReceiptHash h) (hdr_Bloom h)
    (hdr_Difficulty h) (hdr_Number h) (hdr_GasLimit h) (hdr_GasUsed h) (hdr_Time h) (hdr_Extra h) HotstuffDigest emptyNonce.

Definition with_Difficulty (d : Z) (h : Header) : Header :=
  mkHeader (hdr_ParentHash h) (hdr_UncleHash h) (hdr_Coinbase h) (hdr_Root h) (hdr_TxHash h) (hdr_ReceiptHash h) (hdr_Bloom h)
    (Some d) (hdr_Number h) (hdr_GasLimit h) (hdr_GasUsed h) (hdr_Time h) (hdr_Extra h) (hdr_MixDigest h) (hdr_Nonce h).

Definition with_Time (t : Z) (h : Header) : Header :=
  mkHeader (hdr_ParentHash h) (hdr_UncleHash h) (hdr_Coinbase h) (hdr_Root h) (hdr_TxHash h) (hdr_ReceiptHash h) (hdr_Bloom h)
    (hdr_Difficulty h) (hdr_Number h) (hdr_GasLimit h) (hdr_GasUsed h) t (hdr_Extra h) (hdr_MixDigest h) (hdr_Nonce h).

Definition with_Root_and_Uncles (root uncleHash : Hash) (h : Header) : Header :=
  mkHeader (hdr_ParentHash h) uncleHash (hdr_Coinbase h) root (hdr_TxHash h) (hdr_ReceiptHash h) (hdr_Bloom h)
    (hdr_Difficulty h) (hdr_Number h) (hdr_GasLimit h) (hdr_GasUsed h) (hdr_Time h) (hdr_Extra h) (hdr_MixDigest h) (hdr_Nonce h).

Definition Prepare (chain : Chain) (now now' : Z) (s : Backend) : M Header unit :=
  _ ← modify (prepare_fields (bk_Address s));
  h ← get;
  n ← asks (fun _ => deref (hdr_Number h));
  match GetHeader chain (hdr_ParentHash h) (u64 (u64 n - 1)) with
  | None => throw ErrUnknownAncestor
  | Some parent =>
      _ ← modify (with_Difficulty defaultDifficulty);
      extra ← (fun h => BuildPrepareExtra h (snap s));
      _ ← modify (with_Extra extra);
      _ ← modify (with_Time (u64 (hdr_Time parent + cfg_BlockPeriod (bk_config s))));
      modify (fun h => if hdr_Time h <? now then with_Time now' h else h)
  end.

(** *** Assembling a block *)

(** Receipts, their root hash and their bloom filter, which only pass through. *)
Record Receipts := mkReceipts { rc_len : nat; rc_hash : Hash; rc_bloom : Z }.

Definition with_Roots (txHash receiptHash : Hash) (bloom : Z) (h : Header) : Header :=
  mkHeader (hdr_ParentHash h) (hdr_UncleHash h) (hdr_Coinbase h) (hdr_Root h) txHash receiptHash bloom
    (hdr_Difficulty h) (hdr_Number h) (hdr_GasLimit h) (hdr_GasUsed h) (hdr_Time h) (hdr_Extra h) (hdr_MixDigest h) (hdr_Nonce h).

Definition with_UncleHash (uncleHash : Hash) (h : Header) : Header := with_Root_and_Uncles (hdr_Root h) uncleHash h.

(** [types.NewBlock] *)
Definition NewBlock (h : Header) (txs : list TxData) (uncles : list Header) (rc : Receipts) : Block :=
  let h := CopyHeader h in
  let txHash := match txs with [] => EmptyRootHash | _ => DeriveSha txs end in
  let '(receiptHash, bloom) := if (rc_len rc =? 0)%nat then (EmptyRootHash, hdr_Bloom h) else (rc_hash rc, rc_bloom rc) in
  let uncleHash := match uncles with [] => EmptyUncleHash | _ => CalcUncleHash uncles end in
  mkBlock (with_UncleHash uncleHash (with_Roots txHash receiptHash bloom h)) txs (CopyHeader <$> uncles).

(** [root] is the state's root after the transactions.  [FinalizeAndAssemble]
    leaves the header it is given as [Finalize] does. *)
Definition Finalize (root : Hash) (h : Header) : Header := with_Root_and_Uncles root nilUncleHash h.

Definition FinalizeAndAssemble (root : Hash) (h : Header) (txs : list TxData) (rc : Receipts) : Block :=
  NewBlock (Finalize root h) txs [] rc.

Definition SealHash (h : Header) : Hash := HeaderHash h.


(** ** What the engine asks of the backend ([backend.go]) *)

Definition the_chain (w : World) (s : Backend) : option Chain := if bk_chain s then Some (w_chain w) else None.

(** The certificate is written into a copy of the header; the nil check of the
    header cannot fail. *)
Definition SealBlock (b : Block) (commitQC : QuorumCert) : outcome Block :=
  let h := Block_Header b in
  encodedQC ← encode_val c_QuorumCert commitQC;
  h' ← SetEncodedQC encodedQC h;
  Ret (Block_WithSeal h' b).

Definition HasBadProposal (w : World) (hash : Hash) (s : Backend) : bool :=
  if bk_hasBadBlock s then chain_hasBadBlock (w_chain w) hash else false.

(** The time that is returned along with [ErrFutureBlock] is left out, since
    [verifyHeader] does not return this error. *)
Definition Verify (w : World) (b : Block) : M Backend unit :=
  s ← get;
  _ ← embed (fail_if (HasBadProposal w (Block_Hash b) s) ErrBlacklistedHash);
  let txnHash := DeriveSha (b_transactions b) in
  let uncleHash := CalcUncleHash (b_uncles b) in
  _ ← embed (fail_if (negb (txnHash =? hdr_TxHash (Block_Header b))) ErrMismatchTxhashes);
  _ ← embed (fail_if (negb (uncleHash =? nilUncleHash)) ErrInvalidUncleHash);
  bk_VerifyHeader (the_chain w s) (w_now w) (Block_Header b) false.

(** The author of a header, if there is one. *)
Definition try_author (h : Header) : M Backend (option Address) := fun s =>
  match Author h s with
  | (Ret a, s') => (Ret (Some a), s')
  | (Err _, s') => (Ret None, s')
  | (Panic, s') => (Panic, s')
  end.

Definition LastProposal (w : World) : M Backend (option Block * Address) :=
  s ← get;
  if negb (bk_currentBlock s) then mret (None, EmptyAddress)
  else
    let block := chain_currentBlock (w_chain w) in
    number ← embed (Block_Number block);
    if 0 <? number then
      author ← try_author (Block_Header block);
      match author with
      | Some proposer => mret (Some block, proposer)
      | None => mret (None, EmptyAddress)
      end
    else mret (Some block, EmptyAddress).

Definition HasProposal (w : World) (hash : Hash) (number : Z) (s : Backend) : outcome bool :=
  c ← deref (the_chain w s);
  Ret (match GetHeader c hash (u64 number) with Some _ => true | None => false end).

Definition bk_GetProposer (w : World) (number : Z) : M Backend Address :=
  s ← get;
  c ← embed (deref (the_chain w s));
  match GetHeaderByNumber c number with
  | None => mret EmptyAddress
  | Some h => author ← try_author h; mret (default EmptyAddress author)
  end.

Definition ExecuteBlock (w : World) (b : Block) (s : Backend) : outcome ExecutedBlock :=
  c ← deref (the_chain w s);
  state ← chain_ExecuteBlock c b;
  Ret (mkExecuted (Some b) state).

(** The send to [commitCh], a channel with room for one block, blocks while it
    is full ([commit_blocks]); [Commit] is what happens when it does not. *)
Definition Commit (executed : ExecutedBlock) : M Backend unit :=
  match xb_Block executed with
  | None => throw (ErrFmt "invalid executed block")
  | Some block =>
      _ ← emit (OFeed executed);
      _ ← embed (Block_Number block);
      s ← get;
      if bk_proposedBlockHash s =? Block_Hash block then modify (fun s => set_bk_commitCh (bk_commitCh s ++ [block]) s)
      else when (bk_broadcaster s) (emit (OEnqueue block))
  end.

Definition commit_blocks (executed : ExecutedBlock) (s : Backend) : bool :=
  match xb_Block executed with
  | None => false
  | Some block => (bk_proposedBlockHash s =? Block_Hash block) && (0 <? length (bk_commitCh s))%nat
  end.

(** ** Sealing ([Seal] in [engine.go]) *)

Definition Seal (chain : Chain) (b : Block) : M Backend unit :=
  let header := Block_Header b in
  number ← embed (deref (hdr_Number header));
  s ← get;
  match (GetByAddress (bk_Address s) (snap s)).2 with
  | None => throw ErrUnauthorized
  | Some _ =>
      match GetHeader chain (hdr_ParentHash header) (u64 (u64 number - 1)) with
      | None => throw ErrUnknownAncestor
      | Some _ =>
          header ← embed (SignerSeal (bk_signer s) header);
          modify (fun s => set_bk_seals (bk_seals s ++ [mkSealTask (Block_WithSeal header b) Delaying]) s)
      end
  end.

(** The steps of the goroutine with number [i]; a step that is not enabled
    changes nothing and returns [None]. *)
Definition set_phase (i : nat) (ph : SealPhase) (s : Backend) : Backend :=
  set_bk_seals (alter (fun t => mkSealTask (st_block t) ph) i (bk_seals s)) s.

(** The header's time has come. *)
Definition seal_due (i : nat) (s : Backend) : option Backend :=
  t ← bk_seals s !! i;
  match st_phase t with Delaying => Some (set_phase i Locking s) | _ => None end.

(** [s.sealMu.Lock()] succeeds and the block is posted to the engine. *)
Definition seal_propose (i : nat) (s : Backend) : option Backend :=
  t ← bk_seals s !! i;
  match st_phase t, bk_sealMu s with
  | Locking, false =>
      Some (emit (OPost (RequestEvent (Some (st_block t))))
              (set_bk_proposedBlockHash (Block_Hash (st_block t)) (set_bk_sealMu true (set_phase i Proposing s)))).2
  | _, _ => None
  end.

(** The deferred function and the result. *)
Definition seal_end (i : nat) (result : option Block) (s : Backend) : Backend :=
  (emit (OResult i result) (set_bk_sealMu false (set_bk_proposedBlockHash EmptyHash (set_phase i Finished s)))).2.

(** A block arrives through [commitCh]; one with another hash is dropped. *)
Definition seal_receive (i : nat) (s : Backend) : option Backend :=
  t ← bk_seals s !! i;
  match st_phase t, bk_commitCh s with
  | Proposing, result :: ch =>
      let s := set_bk_commitCh ch s in
      Some (if Block_Hash (st_block t) =? Block_Hash result then seal_end i (Some result) s else s)
  | _, _ => None
  end.

(** The [stop] channel is seen while waiting for the time or for the result,
    not while waiting for the mutex. *)
Definition seal_stop (i : nat) (s : Backend) : option Backend :=
  t ← bk_seals s !! i;
  match st_phase t with
  | Delaying => Some (emit (OResult i None) (set_phase i Finished s)).2
  | Proposing => Some (seal_end i None s)
  | _ => None
  end.

(** ** Messages from peers ([handler.go]) *)

Definition bk_decode (msg : Msg) : outcome (bytes * Hash) :=
  data ← on_err (Msg_Decode c_bytes msg) ErrDecodeFailed;
  Ret (data, payload_hash data).

Definition c_NewBlock : codec (Block * (option Z * unit)) := c_struct (f_cons c_Block (f_cons c_bigint f_nil)).

(** A block a peer propagates while this node proposes it is not passed on. *)
Definition handle_new_block (msg : Msg) (core : Core) : outcome bool :=
  if msg_BytesReader msg then
    match Msg_Decode c_NewBlock msg with
    | Ret (block, _) =>
        if hdr_MixDigest (Block_Header block) =? HotstuffDigest then IsCurrentProposal (Block_Hash block) core else Ret false
    | Err _ => Ret false
    | Panic => Panic
    end
  else Ret false.

(** The result tells whether the message was one for the engine. *)
Definition HandleMsg (core : Core) (addr : Address) (msg : Msg) : M Backend (bool * option error) :=
  s ← get;
  if msg_Code msg =? hotstuffMsg then
    if negb (bk_coreStarted s) then mret (true, Some ErrStoppedEngine)
    else match bk_decode msg with
         | Ret (data, hash) =>
             r ← recent_Get addr;
             m ← (match r with
                  | Some m => mret m
                  | None => m ← cache_new; _ ← recent_Add addr m; mret m
                  end);
             _ ← cache_Add m hash;
             known ← known_Get hash;
             if (known : bool) then mret (true, None)
             else _ ← known_Add hash; _ ← emit (OPost (MessageEvent addr data)); mret (true, None)
         | Err _ => mret (true, Some ErrDecodeFailed)
         | Panic => panic
         end
  else if (msg_Code msg =? NewBlockMsg) && c_IsProposer core then
    handled ← embed (handle_new_block msg core);
    mret (handled, None)
  else mret (false, None).

Definition NewChainHead (h : Header) : M Backend unit :=
  s ← get;
  if negb (bk_coreStarted s) then throw ErrStoppedEngine
  else emit (OPost (FinalCommittedEvent h)).

Definition SetBroadcaster (b : bool) : M Backend unit := modify (set_bk_broadcaster b).

(** ** The console API ([api.go]) *)

Definition Propose (address : Address) (auth : bool) : M Backend unit :=
  modify (fun s => set_bk_proposals (<[address := auth]> (bk_proposals s)) s).

Definition Discard (address : Address) : M Backend unit :=
  modify (fun s => set_bk_proposals (delete address (bk_proposals s)) s).

Definition Proposals (s : Backend) : gmap Address bool := bk_proposals s.

(** ** The backend as the engine's surroundings *)

Definition backend_env (w : World) (s : Backend) : Env :=
  mkEnv (match (LastProposal w s).1 with Ret r => r | _ => (None, EmptyAddress) end)
    (fun b => (Verify w b s).1) (fun b => ExecuteBlock w b s) SealBlock (fun x => (Commit x s).1)
    (w_put w) (w_now w) (w_float_overflow w) (w_order w).

End Backend.
