(* ===== verification/Gossip.v ===== *)
(** * Spreading messages

    What the backend's message caches achieve.  The caches are reached through
    pointers, so the invariant [peers_ok] says that the pointers are valid and
    that no two peers share a cache; then marking a message as seen by one
    peer says nothing about another.  Insertions may drop entries, so a peer
    can be sent a message again later, but never twice by one call. *)
From Stdlib Require Import ZArith Lia Strings.Byte.
From stdpp Require Import base list option strings gmap.
From S2P Require Import Prelude Errors Rlp Codec Common Validator Block Types Signer Cache MessageSet RoundState Core Backend.
Open Scope Z_scope.

Section Gossip.
Context `{Keccak} `{Crypto} `{Eviction} `{CacheLaws}.

(** ** The invariant *)

Definition recent (s : Backend) : gmap Z nat := contents (bk_recentMessages s).

Record peers_ok (s : Backend) : Prop := {
  po_valid a p : recent s !! a = Some p -> is_Some (bk_caches s !! p);
  po_unshared a b p : recent s !! a = Some p -> recent s !! b = Some p -> a = b
}.

(** The backend knows that the peer has the message. *)
Definition seen (s : Backend) (a hash : Z) : Prop :=
  exists p m v, recent s !! a = Some p /\ bk_caches s !! p = Some m /\ contents m !! hash = Some v.

Definition known (s : Backend) (hash : Z) : Prop := is_Some (contents (bk_knownMessages s) !! hash).

#[global] Instance known_dec s hash : Decision (known s hash).
Proof. unfold known. apply _. Defined.

#[global] Instance seen_dec s a hash : Decision (seen s a hash).
Proof.
  destruct (recent s !! a) as [p|] eqn:Ep; [|right; by intros (p & m & v & ? & _); congruence].
  destruct (bk_caches s !! p) as [m|] eqn:Em; [|right; by intros (p' & m & v & ? & ? & _); congruence].
  destruct (contents m !! hash) as [v|] eqn:Ev; [left; by exists p, m, v|].
  right. intros (p' & m' & v & E1 & E2 & E3). congruence.
Defined.

(** Everything but the peers' caches and the log stays. *)
Definition caches_only (s s' : Backend) : Prop :=
  exists r cs o, s' = set_bk_recentMessages r (set_bk_caches cs (set_bk_out o s)).

#[global] Instance caches_only_preorder : PreOrder caches_only.
Proof.
  split.
  - intros s. exists (bk_recentMessages s), (bk_caches s), (bk_out s). by destruct s.
  - intros s1 s2 s3 (r & cs & o & ->) (r' & cs' & o' & ->). by exists r', cs', o'.
Qed.

Lemma NewBackend_peers_ok config key vs pub share t n : peers_ok (NewBackend config key vs pub share t n).
Proof. split; intros *; unfold recent; cbn; by rewrite contents_new. Qed.

(** The peer part of the state determines the invariant and the view of it. *)
Lemma peers_ok_ext s s' : recent s' = recent s -> bk_caches s' = bk_caches s -> peers_ok s -> peers_ok s'.
Proof. intros Er Ec [Hv Hu]. split; intros *; rewrite Er, ?Ec; eauto. Qed.

Lemma seen_ext s s' a hash : recent s' = recent s -> bk_caches s' = bk_caches s -> seen s' a hash <-> seen s a hash.
Proof. intros Er Ec. unfold seen. by rewrite Er, Ec. Qed.

(** ** Look-ups *)

Lemma recent_Get_spec (a : Z) s : exists s', recent_Get a s = (Ret (recent s !! a), s') /\
  recent s' = recent s /\ bk_caches s' = bk_caches s /\ bk_out s' = bk_out s /\ caches_only s s'.
Proof.
  unfold recent_Get. pose proof (arc_Get_value a (bk_recentMessages s)) as Hv. pose proof (arc_Get_keeps a (bk_recentMessages s)) as Hk.
  destruct (arc_Get a (bk_recentMessages s)) as [r m]. cbn in Hv, Hk. subst r. eexists. split; [reflexivity|].
  split_and!; [exact Hk|done..|]. exists m, (bk_caches s), (bk_out s). by destruct s.
Qed.

Lemma cache_Get_spec p (hash : Z) m s : bk_caches s !! p = Some m -> exists m' s',
  cache_Get p hash s = (Ret (bool_decide (is_Some (contents m !! hash))), s') /\
  contents m' = contents m /\ s' = set_bk_caches (<[p := m']> (bk_caches s)) s.
Proof.
  intros Hm. unfold cache_Get. rewrite Hm. pose proof (arc_Get_value hash m) as Hv. pose proof (arc_Get_keeps hash m) as Hk.
  destruct (arc_Get hash m) as [r m']. cbn in Hv, Hk. subst r. exists m', (set_bk_caches (<[p := m']> (bk_caches s)) s).
  split_and!; [|done|done]. do 2 f_equal. symmetry. destruct (contents m !! hash); [by apply bool_decide_true; eauto|].
  apply bool_decide_false. by intros [? ?].
Qed.

(** Replacing a cache by one with the same contents is not visible. *)
Lemma seen_refresh s p m m' a hash : bk_caches s !! p = Some m -> contents m' = contents m ->
  seen (set_bk_caches (<[p := m']> (bk_caches s)) s) a hash <-> seen s a hash.
Proof.
  intros Hm Hc. unfold seen, recent. cbn. split.
  - intros (q & c & v & Hq & Hl & Hv). destruct (decide (p = q)) as [->|Hne].
    + rewrite list_lookup_insert_eq in Hl by by eapply lookup_lt_Some. injection Hl as <-. exists q, m, v. by rewrite <- Hc.
    + rewrite list_lookup_insert_ne in Hl by done. by exists q, c, v.
  - intros (q & c & v & Hq & Hl & Hv). destruct (decide (p = q)) as [->|Hne].
    + exists q, m', v. rewrite list_lookup_insert_eq by by eapply lookup_lt_Some. split_and!; [done..|].
      rewrite Hc. congruence.
    + exists q, c, v. by rewrite list_lookup_insert_ne.
Qed.

Lemma peers_ok_caches s cs : (length (bk_caches s) <= length cs)%nat -> peers_ok s -> peers_ok (set_bk_caches cs s).
Proof.
  intros Hl [Hv Hu]. split; [|exact Hu]. intros a p Hp. apply Hv in Hp as Hs. cbn. apply lookup_lt_is_Some.
  apply lookup_lt_is_Some in Hs. lia.
Qed.

(** ** Marking a message *)

(** [p] is the cache of [a], or nobody's. *)
Definition owned (s : Backend) (a : Z) (p : nat) : Prop := forall b, recent s !! b = Some p -> b = a.

Definition mark (a : Address) (p : nat) (hash : Hash) (payload : bytes) : M Backend unit :=
  _ ← cache_Add p hash; _ ← recent_Add a p; emit (OSend a hotstuffMsg payload).

Lemma recent_Add_owned s (a : Z) p b q : owned s a p -> contents (arc_Add a p (bk_recentMessages s)) !! b = Some q ->
  (b = a /\ q = p) \/ (b <> a /\ recent s !! b = Some q /\ q <> p).
Proof.
  intros Ho Hq. destruct (decide (b = a)) as [->|Hne].
  - rewrite arc_Add_last in Hq. left. split; [done|congruence].
  - apply arc_Add_other in Hq; [|done]. right. split_and!; [done..|]. intros ->. by apply Hne, Ho.
Qed.

Lemma mark_spec s (a : Z) p (hash : Z) payload : peers_ok s -> is_Some (bk_caches s !! p) -> owned s a p ->
  exists s', mark a p hash payload s = (Ret tt, s') /\ peers_ok s' /\ caches_only s s' /\
    bk_out s' = bk_out s ++ [OSend a hotstuffMsg payload] /\ seen s' a hash /\
    (forall b h, b <> a -> seen s' b h -> seen s b h).
Proof.
  intros [Hv Hu] [m Hm] Ho. unfold mark, cache_Add, recent_Add, emit, modify, mbind, M_bind. rewrite Hm.
  eexists. split; [reflexivity|].
  assert (p < length (bk_caches s))%nat as Hlt by by eapply lookup_lt_Some.
  split_and!.
  - split; unfold recent; cbn.
    + intros b q [(-> & ->)|(Hb & Hq & _)]%recent_Add_owned; [| |done]; apply lookup_lt_is_Some; rewrite length_insert; [done|].
      apply lookup_lt_is_Some. by eapply Hv.
    + intros b b' q [(-> & ->)|(Hb & Hq & Hp)]%recent_Add_owned; [| |done];
        (intros [(-> & E)|(Hb' & Hq' & Hp')]%recent_Add_owned; [| |done]); try done. by eapply Hu.
  - by eexists _, _, _.
  - done.
  - exists p, (arc_Add hash true m), true. unfold recent. cbn. rewrite arc_Add_last, list_lookup_insert_eq by done.
    split_and!; [done..|apply arc_Add_last].
  - intros b h Hne (q & c & v & Hq & Hc & Hx). unfold recent in Hq. cbn in Hq, Hc.
    apply recent_Add_owned in Hq as [(? & _)|(_ & Hq & Hp)]; [done| |done].
    rewrite list_lookup_insert_ne in Hc by done. by exists q, c, v.
Qed.

(** ** One peer *)

Lemma cache_new_spec s : peers_ok s -> exists s', cache_new s = (Ret (length (bk_caches s)), s') /\ peers_ok s' /\
  caches_only s s' /\ bk_out s' = bk_out s /\ recent s' = recent s /\ is_Some (bk_caches s' !! length (bk_caches s)) /\
  (forall a, owned s' a (length (bk_caches s))) /\ (forall a h, seen s' a h <-> seen s a h).
Proof.
  intros Hok. eexists. split; [reflexivity|]. set (cs := bk_caches s ++ _).
  assert (bk_caches s `prefix_of` cs) as Hp by by eexists.
  split_and!; try done.
  - apply peers_ok_caches; [|done]. unfold cs. rewrite length_app. lia.
  - eexists (bk_recentMessages s), cs, (bk_out s). by destruct s.
  - cbn. apply lookup_lt_is_Some. unfold cs. rewrite length_app. cbn. lia.
  - intros a b Hb. apply (po_valid _ Hok) in Hb. apply lookup_lt_is_Some in Hb. lia.
  - intros a h. unfold seen, recent. cbn. split; intros (q & c & v & Hq & Hc & Hx); exists q, c, v; split_and!; try done.
    + unfold cs in Hc. rewrite lookup_app_l in Hc; [done|]. eapply lookup_lt_is_Some, (po_valid _ Hok), Hq.
    + by eapply prefix_lookup_Some.
Qed.

(** Sending to one peer: a peer that has the message is skipped, any other is
    sent it and marked; nobody else is marked. *)
Lemma send_once_spec s (a hash : Z) payload : peers_ok s -> exists s',
  send_once a hash payload s = (Ret tt, s') /\ peers_ok s' /\ caches_only s s' /\
  bk_out s' = bk_out s ++ (if decide (seen s a hash) then [] else [OSend a hotstuffMsg payload]) /\
  seen s' a hash /\ (forall b h, b <> a -> seen s' b h -> seen s b h).
Proof.
  intros Hok. unfold send_once. destruct (recent_Get_spec a s) as (s1 & Hg & Er & Ec & Eo & Hco).
  rewrite (bind_Ret _ _ _ _ _ Hg). assert (peers_ok s1) as Hok1 by by eapply peers_ok_ext.
  assert (forall b h, seen s1 b h <-> seen s b h) as Hs1 by (intros; by apply seen_ext).
  destruct (recent s !! a) as [p|] eqn:Ep; cbv beta iota.
  - destruct (po_valid _ Hok1 a p) as [m Hm]; [by rewrite Er|].
    destruct (cache_Get_spec p hash m s1 Hm) as (m' & s2 & Hc & Hm' & ->). rewrite (bind_Ret _ _ _ _ _ Hc).
    set (s2 := set_bk_caches _ _).
    assert (peers_ok s2) as Hok2 by (apply peers_ok_caches; [by rewrite length_insert|done]).
    assert (forall b h, seen s2 b h <-> seen s b h) as Hs2 by (intros b h; rewrite <- Hs1; by eapply seen_refresh).
    assert (caches_only s s2) as Hco2.
    { etrans; [exact Hco|]. exists (bk_recentMessages s1), (<[p := m']> (bk_caches s1)), (bk_out s1). unfold s2. by destruct s1. }
    cbv beta. case_bool_decide as Hsome.
    + assert (seen s a hash) as Hseen by (apply Hs1; destruct Hsome as [v Hv]; exists p, m, v; by rewrite Er).
      exists s2. rewrite decide_True by done. split_and!; [done..| |by apply Hs2|].
      * unfold s2. cbn. by rewrite Eo, app_nil_r.
      * intros b h _. apply Hs2.
    + assert (~ seen s a hash) as Hns.
      { intros (q & c & v & Hq & Hcq & Hv)%Hs1. rewrite Er, Ep in Hq. injection Hq as <-. rewrite Hm in Hcq. injection Hcq as <-.
        apply Hsome. eauto. }
      destruct (mark_spec s2 a p hash payload Hok2) as (s' & Hmk & Hok' & Hco' & Ho & Hseen & Hoth).
      { unfold s2. cbn. rewrite list_lookup_insert_eq by by eapply lookup_lt_Some. eauto. }
      { intros b Hb. eapply (po_unshared _ Hok2); [exact Hb|]. unfold s2, recent. cbn. fold (recent s1). by rewrite Er. }
      exists s'. rewrite decide_False by done. split_and!; [exact Hmk|done|by etrans| |done|].
      * rewrite Ho. unfold s2. cbn. by rewrite Eo.
      * intros b h Hne Hb. by apply Hs2, Hoth.
  - destruct (cache_new_spec s1 Hok1) as (s2 & Hn & Hok2 & Hco2 & Eo2 & Er2 & Hval & Hown & Hs2). rewrite (bind_Ret _ _ _ _ _ Hn).
    destruct (mark_spec s2 a _ hash payload Hok2 Hval (Hown a)) as (s' & Hmk & Hok' & Hco' & Ho & Hseen & Hoth).
    assert (~ seen s a hash) as Hns by (intros (q & c & v & Hq & _); congruence).
    exists s'. rewrite decide_False by done. split_and!; [exact Hmk|done|by do 2 (etrans; [eassumption|])| |done|].
    + by rewrite Ho, Eo2, Eo.
    + intros b h Hne Hb. by apply Hs1, Hs2, Hoth.
Qed.

(** ** All peers *)

Lemma gossip_loop_spec ps hash payload : forall s, peers_ok s -> NoDup ps -> exists s' l,
  gossip_loop ps hash payload s = (Ret tt, s') /\ peers_ok s' /\ caches_only s s' /\
  bk_out s' = bk_out s ++ ((fun a => OSend a hotstuffMsg payload) <$> l) /\ sublist l ps /\
  (forall a, a ∈ ps -> a ∈ l \/ seen s a hash).
Proof.
  induction ps as [|a ps IH]; intros s Hok Hnd.
  - exists s, []. split_and!; [done..| |done|set_solver]. by rewrite app_nil_r.
  - apply NoDup_cons in Hnd as [Hni Hnd]. destruct (send_once_spec s a hash payload Hok) as (s1 & Hs & Hok1 & Hco1 & Ho1 & _ & Hoth).
    destruct (IH s1 Hok1 Hnd) as (s2 & l & Hl & Hok2 & Hco2 & Ho2 & Hsub & Hall). cbn [gossip_loop].
    rewrite (bind_Ret _ _ _ _ _ Hs). exists s2, (if decide (seen s a hash) then l else a :: l).
    split_and!; [done|done|by etrans| | |].
    + rewrite Ho2, Ho1. destruct (decide (seen s a hash)); by rewrite <- app_assoc.
    + destruct (decide (seen s a hash)); by constructor.
    + intros b [E|Hb]%elem_of_cons; [subst b; destruct (decide (seen s a hash)); [by right|left; left]|].
      destruct (Hall b Hb) as [Hin|Hseen]; [left; destruct (decide _); [done|by right]|].
      right. apply Hoth; [|done]. by intros ->.
Qed.

Lemma elem_of_targets a vs s : a ∈ gossip_targets vs s <-> a ∈ AddressList vs /\ a <> bk_Address s.
Proof. unfold gossip_targets. rewrite elem_of_list_to_set, list_elem_of_filter. tauto. Qed.

Lemma FindPeers_keys o w targets : order_ok o ->
  NoDup (o _ (FindPeers targets w)).*1 /\ forall a, a ∈ (o _ (FindPeers targets w)).*1 <-> a ∈ targets /\ a ∈ w_peers w.
Proof.
  intros Ho. pose proof (Ho _ (FindPeers targets w)) as Hp. split; [rewrite Hp; apply NoDup_fst_map_to_list|].
  intros a. rewrite Hp.
  assert (a ∈ (map_to_list (FindPeers targets w)).*1 <-> a ∈ filter (fun a => a ∈ targets) (w_peers w)) as ->.
  { rewrite list_elem_of_fmap. split.
    - intros ([k v] & -> & Hin%elem_of_map_to_list). apply elem_of_list_to_map_2, list_elem_of_fmap in Hin as (x & [= -> ->] & Hx). done.
    - intros Hin. exists (a, a). split; [done|]. apply elem_of_map_to_list, elem_of_list_to_map_1'; [|by apply list_elem_of_fmap; exists a].
      intros y (x & [= -> ->] & _)%list_elem_of_fmap. done. }
  by rewrite list_elem_of_filter.
Qed.

Lemma Gossip_spec w vs payload s : peers_ok s -> order_ok (w_order w) ->
  exists s' l, Gossip w vs payload s = (Ret tt, s') /\ peers_ok s' /\ known s' (payload_hash payload) /\
    bk_out s' = bk_out s ++ ((fun a => OSend a hotstuffMsg payload) <$> l) /\ NoDup l /\
    (forall a, a ∈ l -> a ∈ AddressList vs /\ a <> bk_Address s /\ a ∈ w_peers w) /\
    (bk_broadcaster s = true -> forall a, a ∈ AddressList vs -> a <> bk_Address s -> a ∈ w_peers w ->
       ~ seen s a (payload_hash payload) -> a ∈ l) /\
    exists k, caches_only (set_bk_knownMessages k s) s'.
Proof.
  intros Hok Ho. unfold Gossip. set (hash := payload_hash payload). set (s1 := set_bk_knownMessages (arc_Add hash true (bk_knownMessages s)) s).
  rewrite (bind_Ret (known_Add hash) _ s tt s1), (bind_Ret get _ s1 s1 s1) by done.
  assert (peers_ok s1) as Hok1 by by apply (peers_ok_ext s).
  assert (known s1 hash) as Hk by (unfold known, s1; cbn; rewrite arc_Add_last; eauto).
  destruct (bk_broadcaster s1 && _) eqn:Eb.
  - destruct (FindPeers_keys _ w (gossip_targets vs s1) Ho) as [Hnd Hin]. set (ps := (w_order w _ _).*1) in *.
    destruct (gossip_loop_spec ps hash payload s1 Hok1 Hnd) as (s' & l & Hl & Hok' & Hco & Hout & Hsub & Hall).
    exists s', l. split_and!; [done|done| |done|by eapply sublist_NoDup| | |by eexists].
    + destruct Hco as (r & cs & o & ->). done.
    + intros a Ha. eapply elem_of_sublist in Ha; [|done]. apply Hin in Ha as [[? ?]%elem_of_targets ?]. done.
    + intros _ a Ha Hne Hp Hns. destruct (Hall a) as [?|[]%Hns]; [|done].
      apply Hin. split; [by apply elem_of_targets|done].
  - exists s1, []. split_and!; [done|done|done|by rewrite app_nil_r|apply NoDup_nil_2|by intros a Ha%elem_of_nil| |exists (arc_Add hash true (bk_knownMessages s)); reflexivity].
    intros Hb a Ha Hne _ _. apply andb_false_iff in Eb as [Eb|Eb]; [by unfold s1 in Eb; cbn in Eb; congruence|].
    apply bool_decide_eq_false in Eb. exfalso. apply Eb. intros E.
    assert (a ∈ gossip_targets vs s1) as Hx by by apply elem_of_targets. rewrite E in Hx. by apply elem_of_empty in Hx.
Qed.

(** One call of [Gossip] sends the message to every connected
    validator but the node itself that is not known to have it, to none of
    them twice and to nobody else, and remembers the message as its own. *)
Theorem gossip_sends_once w vs payload s : peers_ok s -> order_ok (w_order w) ->
  exists s' l, Gossip w vs payload s = (Ret tt, s') /\ peers_ok s' /\ known s' (payload_hash payload) /\
    bk_out s' = bk_out s ++ ((fun a => OSend a hotstuffMsg payload) <$> l) /\ NoDup l /\
    (forall a, a ∈ l -> a ∈ AddressList vs /\ a <> bk_Address s /\ a ∈ w_peers w) /\
    (bk_broadcaster s = true -> forall a, a ∈ AddressList vs -> a <> bk_Address s -> a ∈ w_peers w ->
       ~ seen s a (payload_hash payload) -> a ∈ l).
Proof.
  intros Hok Ho. destruct (Gossip_spec w vs payload s Hok Ho) as (s' & l & ? & ? & ? & ? & ? & ? & ? & _). by exists s', l.
Qed.

(** ** What a call posts *)

(** Sends to peers, and the payload to the node itself. *)
Definition own_message (s : Backend) (payload : bytes) (o : Out) : Prop :=
  (exists a, o = OSend a hotstuffMsg payload) \/ o = OPost (MessageEvent (bk_Address s) payload).

Lemma sends_own s payload l : Forall (own_message s payload) ((fun a => OSend a hotstuffMsg payload) <$> l).
Proof. apply Forall_fmap, Forall_forall. intros a _. left. eauto. Qed.

Lemma Broadcast_spec w vs payload s : peers_ok s -> order_ok (w_order w) -> exists s' os k,
  Broadcast w vs payload s = (Ret tt, s') /\ peers_ok s' /\ caches_only (set_bk_knownMessages k s) s' /\
  bk_out s' = bk_out s ++ os /\ Forall (own_message s payload) os.
Proof.
  intros Hok Ho. destruct (Gossip_spec w vs payload s Hok Ho) as (s1 & l & Hg & Hok1 & _ & Hout & _ & _ & _ & k & Hco).
  unfold Broadcast. rewrite (bind_Ret _ _ _ _ _ Hg), (bind_Ret get _ s1 s1 s1) by done.
  exists (set_bk_out (bk_out s1 ++ [OPost (MessageEvent (bk_Address s1) payload)]) s1), (((fun a => OSend a hotstuffMsg payload) <$> l) ++
    [OPost (MessageEvent (bk_Address s) payload)]), k.
  assert (bk_Address s1 = bk_Address s) as Ha by (destruct Hco as (r & cs & o & ->); done).
  split_and!; [done|by apply (peers_ok_ext s1)| |cbn; by rewrite Hout, Ha, <- app_assoc|].
  - etrans; [exact Hco|]. by eexists (bk_recentMessages s1), (bk_caches s1), _.
  - apply Forall_app. split; [apply sends_own|]. constructor; [by right|done].
Qed.

Lemma unicast_to_spec w t payload s : peers_ok s -> exists s' os k,
  unicast_to w t payload s = (Ret tt, s') /\ peers_ok s' /\ caches_only (set_bk_knownMessages k s) s' /\
  bk_out s' = bk_out s ++ os /\ Forall (own_message s payload) os.
Proof.
  intros Hok. unfold unicast_to. set (hash := payload_hash payload). set (k := arc_Add hash true (bk_knownMessages s)).
  set (s1 := set_bk_knownMessages k s). rewrite (bind_Ret (known_Add hash) _ s tt s1), (bind_Ret get _ s1 s1 s1) by done.
  assert (peers_ok s1) as Hok1 by by apply (peers_ok_ext s).
  assert (forall o, own_message s payload o -> exists s' os k, (Ret tt, set_bk_out (bk_out s1 ++ [o]) s1) = (Ret tt, s') /\ peers_ok s' /\
    caches_only (set_bk_knownMessages k s) s' /\ bk_out s' = bk_out s ++ os /\ Forall (own_message s payload) os) as Hone.
  { intros o Hown. exists (set_bk_out (bk_out s1 ++ [o]) s1), [o], k. split_and!; [done|by apply (peers_ok_ext s)| |done|constructor; done].
    by exists (bk_recentMessages s1), (bk_caches s1), (bk_out s1 ++ [o]). }
  destruct (_ =? t); [apply Hone; by right|].
  assert (exists s' os k, (Ret tt, s1) = (Ret tt, s') /\ peers_ok s' /\
    caches_only (set_bk_knownMessages k s) s' /\ bk_out s' = bk_out s ++ os /\ Forall (own_message s payload) os) as Hnone.
  { exists s1, [], k. split_and!; [done|done|reflexivity|by rewrite app_nil_r|done]. }
  destruct (bk_broadcaster s1); [|done]. destruct (FindPeer t w) as [p|]; [|done].
  destruct (send_once_spec s1 p hash payload Hok1) as (s' & Hs & Hok' & Hco & Hout & _). rewrite Hs.
  eexists s', _, k. split_and!; [done|done|done|exact Hout|]. destruct (decide _); [done|]. constructor; [left; eauto|done].
Qed.

(** ** The wire *)

(** Without surplus bytes the stream decodes like [rlp.DecodeBytes]. *)
Lemma Msg_Decode_whole {A} (cd : codec A) msg a : zlen (msg_Payload msg) <= msg_Size msg -> decode_val cd (msg_Payload msg) = Ret a ->
  Msg_Decode cd msg = Ret a.
Proof.
  intros Hsize Hd. unfold Msg_Decode. rewrite take_ge by (unfold zlen in Hsize; lia). assert ((if msg_Size msg =? 0 then msg_Payload msg
    else msg_Payload msg) = msg_Payload msg) as -> by by destruct (_ =? _).
  unfold decode_val, DecodeBytes in Hd. destruct (Split _) as [[[k c] rest]|e|]; [|done|done]. cbn [mbind outcome_bind] in *.
  destruct (match k with KList => _ | _ => _ end) as [it|e|]; [|done|done]. cbn [mbind outcome_bind] in *. by destruct rest.
Qed.

Lemma wire_roundtrip payload : zlen payload < 2 ^ 31 -> exists msg,
  Msg_of c_bytes hotstuffMsg payload = Ret msg /\ msg_Code msg = hotstuffMsg /\ bk_decode msg = Ret (payload, payload_hash payload).
Proof.
  intros Hlen. assert (zlen (encode (Str payload)) < 2 ^ 32) as Hl.
  { pose proof (encode_le (Str payload)) as Hle. cbn [str_data n_lists] in Hle.
    pose proof (length_encodeString payload). unfold zlen in *. cbn [encode] in *. lia. }
  destruct (decode_encode_val c_bytes payload I) as (raw & Hr & Hd).
  { intros it [= <-]. lia. }
  unfold Msg_of. rewrite Hr. eexists. split; [reflexivity|]. split; [done|]. unfold bk_decode.
  unfold encode_val in Hr. cbn [enc c_bytes mbind outcome_bind] in Hr. rewrite EncodeToBytes_encode in Hr by lia. injection Hr as <-.
  pose proof (zlen_nonneg (encode (Str payload))) as Hp. cbn [encode] in Hl, Hp.
  rewrite (Msg_Decode_whole c_bytes _ payload); [done| |done]. cbn [msg_Size msg_Payload]. rewrite Z.mod_small by lia. lia.
Qed.

(** ** Messages from peers *)

Lemma known_Get_spec (hash : Z) s : exists k, known_Get hash s = (Ret (bool_decide (known s hash)), set_bk_knownMessages k s) /\
  contents k = contents (bk_knownMessages s).
Proof.
  unfold known_Get. pose proof (arc_Get_value hash (bk_knownMessages s)) as Hv. pose proof (arc_Get_keeps hash (bk_knownMessages s)) as Hk.
  destruct (arc_Get hash (bk_knownMessages s)) as [r m]. cbn in Hv, Hk. subst r. exists m. split; [|done]. do 2 f_equal.
  case_bool_decide as Hc; unfold known in Hc; destruct (contents (bk_knownMessages s) !! hash); try done; destruct Hc; eauto; done.
Qed.

(** The peer is marked, as in [mark] but with nothing sent. *)
Definition mark_seen (a : Address) (hash : Hash) : M Backend unit :=
  r ← recent_Get a;
  m ← (match r with Some m => mret m | None => m ← cache_new; _ ← recent_Add a m; mret m end);
  cache_Add m hash.

Lemma cache_Add_spec s (a : Z) p (hash : Z) : peers_ok s -> recent s !! a = Some p -> exists s',
  cache_Add p hash s = (Ret tt, s') /\ peers_ok s' /\ caches_only s s' /\ bk_out s' = bk_out s /\ seen s' a hash.
Proof.
  intros Hok Hp. destruct (po_valid _ Hok _ _ Hp) as [m Hm]. unfold cache_Add. rewrite Hm. eexists. split; [reflexivity|].
  split_and!; [apply peers_ok_caches; [by rewrite length_insert|done]| |done|].
  - exists (bk_recentMessages s), (<[p := arc_Add hash true m]> (bk_caches s)), (bk_out s). by destruct s.
  - exists p, (arc_Add hash true m), true. split_and!; [done| |apply arc_Add_last]. cbn.
    apply list_lookup_insert_eq. by eapply lookup_lt_Some.
Qed.

Lemma mark_seen_spec s (a hash : Z) : peers_ok s -> exists s', mark_seen a hash s = (Ret tt, s') /\ peers_ok s' /\
  caches_only s s' /\ bk_out s' = bk_out s /\ seen s' a hash.
Proof.
  intros Hok. unfold mark_seen. destruct (recent_Get_spec a s) as (s1 & Hg & Er & Ec & Eo & Hco).
  rewrite (bind_Ret _ _ _ _ _ Hg). assert (peers_ok s1) as Hok1 by by eapply peers_ok_ext.
  destruct (recent s !! a) as [p|] eqn:Ep; cbv beta iota.
  - rewrite (bind_Ret (mret p) _ s1 p s1) by done. destruct (cache_Add_spec s1 a p hash Hok1) as (s' & Hc & Hok' & Hco' & Eo' & Hs); [by rewrite Er|].
    exists s'. split_and!; [done|done|by etrans|by rewrite Eo'|done].
  - destruct (cache_new_spec s1 Hok1) as (s2 & Hn & Hok2 & Hco2 & Eo2 & Er2 & Hval & Hown & _).
    set (p := length (bk_caches s1)) in *. set (s3 := set_bk_recentMessages (arc_Add a p (bk_recentMessages s2)) s2).
    rewrite (bind_Ret _ _ s1 p s3) by (rewrite (bind_Ret _ _ _ _ _ Hn); done).
    assert (peers_ok s3) as Hok3.
    { split; unfold recent; cbn.
      - intros b q [(-> & ->)|(Hb & Hq & _)]%recent_Add_owned; [done|by eapply (po_valid _ Hok2)|apply Hown].
      - intros b b' q [(-> & ->)|(Hb & Hq & Hp)]%recent_Add_owned; [| |apply Hown];
          (intros [(-> & E)|(Hb' & Hq' & Hp')]%recent_Add_owned; [| |apply Hown]); try done. by eapply (po_unshared _ Hok2). }
    destruct (cache_Add_spec s3 a p hash Hok3) as (s' & Hc & Hok' & Hco' & Eo' & Hs); [apply arc_Add_last|].
    exists s'. split_and!; [done|done| |by rewrite Eo', <- Eo|done].
    do 2 (etrans; [eassumption|]). etrans; [|exact Hco'].
    exists (arc_Add a p (bk_recentMessages s2)), (bk_caches s2), (bk_out s2). unfold s3. by destruct s2.
Qed.

Lemma HandleMsg_mark core a msg data hash s : msg_Code msg = hotstuffMsg -> bk_coreStarted s = true -> bk_decode msg = Ret (data, hash) ->
  HandleMsg core a msg s = (_ ← mark_seen a hash; known ← known_Get hash;
    if (known : bool) then mret (true, None)
    else _ ← known_Add hash; _ ← emit (OPost (MessageEvent a data)); mret (true, None)) s.
Proof.
  intros Hc Hst Hd. unfold HandleMsg. rewrite (bind_Ret get _ s s s) by done. rewrite Hc, Z.eqb_refl, Hst, Hd. cbn [negb].
  unfold mark_seen, mbind, M_bind. destruct (recent_Get a s) as [[r|e|] s1]; [|done|done].
  destruct r as [m|]; [done|]. by destruct (cache_new s1) as [[m|e|] s2].
Qed.

Lemma HandleMsg_spec core a msg data hash s : peers_ok s -> msg_Code msg = hotstuffMsg -> bk_coreStarted s = true ->
  bk_decode msg = Ret (data, hash) -> exists s',
  HandleMsg core a msg s = (Ret (true, None), s') /\ peers_ok s' /\ seen s' a hash /\ known s' hash /\
  (exists k, caches_only (set_bk_knownMessages k s) s') /\
  bk_out s' = bk_out s ++ (if decide (known s hash) then [] else [OPost (MessageEvent a data)]).
Proof.
  intros Hok Hc Hst Hd. rewrite (HandleMsg_mark core a msg data hash s Hc Hst Hd).
  destruct (mark_seen_spec s a hash Hok) as (s1 & Hm & Hok1 & Hco & Ho & Hs). rewrite (bind_Ret _ _ _ _ _ Hm).
  destruct (known_Get_spec hash s1) as (k & Hk & Ek). rewrite (bind_Ret _ _ _ _ _ Hk). set (s2 := set_bk_knownMessages k s1).
  assert (known s1 hash <-> known s hash) as Hks by (destruct Hco as (r & cs & o & ->); done).
  assert (forall k' o, caches_only (set_bk_knownMessages k' s) (set_bk_out o (set_bk_knownMessages k' s1))) as Hco2.
  { intros k' o'. destruct Hco as (r & cs & o & ->). by exists r, cs, o'. }
  cbv beta. case_bool_decide as Hkn.
  - exists s2. rewrite decide_True by by apply Hks. rewrite app_nil_r. split_and!; [done|by eapply (peers_ok_ext s1)|done| | |exact Ho].
    + destruct Hkn as [v Hv]. exists v. unfold s2. cbn. by rewrite Ek.
    + exists k. specialize (Hco2 k (bk_out s2)). unfold s2 in *. by destruct s1.
  - rewrite decide_False by by rewrite <- Hks. unfold known_Add, emit, modify. eexists. split; [reflexivity|].
    split_and!; [by eapply (peers_ok_ext s1)|done| | |cbn; by rewrite Ho].
    + eexists. apply arc_Add_last.
    + eexists. apply Hco2.
Qed.

(** A message that arrives is posted to the engine exactly if it is
    not known yet; from then on its sender is known to have it, and the same
    bytes arriving again, from whichever peer, are not posted a second time.
    The receiving side of the wire gives back the payload that was sent. *)
Theorem message_posted_once core a payload msg s : peers_ok s -> bk_coreStarted s = true -> zlen payload < 2 ^ 31 ->
  Msg_of c_bytes hotstuffMsg payload = Ret msg -> exists s',
  HandleMsg core a msg s = (Ret (true, None), s') /\ peers_ok s' /\ seen s' a (payload_hash payload) /\
  bk_out s' = bk_out s ++ (if decide (known s (payload_hash payload)) then [] else [OPost (MessageEvent a payload)]) /\
  forall core' b, bk_out (HandleMsg core' b msg s').2 = bk_out s'.
Proof.
  intros Hok Hst Hlen Hm. destruct (wire_roundtrip payload Hlen) as (msg' & Hm' & Hc & Hd). rewrite Hm in Hm'. injection Hm' as <-.
  destruct (HandleMsg_spec core a msg _ _ s Hok Hc Hst Hd) as (s' & Hh & Hok' & Hs & Hk & (k & Hco) & Ho).
  assert (bk_coreStarted s' = true) as Hst' by (destruct Hco as (r & cs & o & ->); done).
  exists s'. split_and!; [done..|]. intros core' b.
  destruct (HandleMsg_spec core' b msg _ _ s' Hok' Hc Hst' Hd) as (s2 & -> & _ & _ & _ & _ & Ho').
  cbn [snd]. rewrite Ho', decide_True by done. by rewrite app_nil_r.
Qed.

End Gossip.
