(* ===== verification/Proposal.v ===== *)
(** * Blocks from the miner to the chain

    What the backend's header rules achieve together: a block that
    [Prepare], [FinalizeAndAssemble] and [Seal] make is one that [Verify]
    accepts at every other validator, the certificate [SealBlock] adds does
    not change its hash and passes the check of an imported block, and
    checking a batch of headers gives the results of checking them one by
    one. *)
From Stdlib Require Import ZArith Lia Strings.Byte.
From stdpp Require Import base list option strings gmap.
From S2P Require Import Prelude Errors Rlp Codec Common Validator Transaction Block Types Signer Cache MessageSet RoundState Core Backend.
Open Scope Z_scope.

#[local] Opaque DeriveSha.

Section Proposal.
Context `{Keccak} `{Crypto} `{Eviction} `{Cache}.

Lemma Copy_members a vs : a ∈ AddressList (Copy vs) <-> a ∈ AddressList vs.
Proof.
  rewrite !elem_of_AddressList. unfold Copy, NewSet. rewrite newDefaultSet_members, list_elem_of_fmap.
  setoid_rewrite elem_of_AddressList. split; [intros (x & [= ->] & ?); done|eauto].
Qed.

Lemma CopyHeader_id h n d : hdr_Number h = Some n -> hdr_Difficulty h = Some d -> CopyHeader h = h.
Proof. destruct h. cbn. by intros -> ->. Qed.

(** ** Checking a header *)

(** The rules that do not concern the signature. *)
Record acceptable (period : Z) (parent h : Header) : Prop := {
  ac_number : exists n, hdr_Number h = Some n /\ 0 < n < 2 ^ 64 /\ hdr_Number parent = Some (n - 1);
  ac_mix : hdr_MixDigest h = HotstuffDigest;
  ac_uncles : hdr_UncleHash h = nilUncleHash;
  ac_difficulty : hdr_Difficulty h = Some defaultDifficulty;
  ac_parent : Header_Hash parent = hdr_ParentHash h;
  ac_time : u64 (hdr_Time parent + period) <= hdr_Time h
}.

(** They do not look at the extra data. *)
Lemma acceptable_replace period parent h p : acceptable period parent h -> acceptable period parent (replace_payload p h).
Proof. by intros []. Qed.

Lemma check_parent_ok period parent h n : acceptable period parent h -> hdr_Number h = Some n ->
  check_parent h (u64 n) (Some parent) = Ret parent.
Proof.
  intros Hac Hn. destruct (ac_number _ _ _ Hac) as (n' & Hn' & Hr & Hp). assert (n' = n) as -> by congruence.
  unfold check_parent. rewrite Hp, (ac_parent _ _ _ Hac), Z.eqb_refl. cbn [deref mbind outcome_bind].
  rewrite (u64_small n) by lia. by rewrite Z.eqb_refl.
Qed.

Lemma verifyHeader_accepts chain now h parents parent seal s v' :
  acceptable (cfg_BlockPeriod (bk_config s)) parent h ->
  (forall n, hdr_Number h = Some n -> find_parent chain h (u64 n) parents = Ret (Some parent)) -> hdr_Time h <= now ->
  RecoverSigner h (bk_signer s) = (Ret (hdr_Coinbase h), v') -> VerifyHeader h (Copy (snap s)) seal v' = (Ret tt, v') ->
  verifyHeader chain now h parents seal s = (Ret tt, set_bk_signer v' s).
Proof.
  intros Hac Hfind Hnow Hr Hv. destruct (ac_number _ _ _ Hac) as (n & Hn & Hrange & _).
  unfold verifyHeader. rewrite Hn, (ac_mix _ _ _ Hac), (ac_uncles _ _ _ Hac), (ac_difficulty _ _ _ Hac), !Z.eqb_refl.
  cbn [negb fail_if]. rewrite !(bind_Ret _ _ s tt s) by done.
  destruct (Z.eqb_spec (u64 n) 0) as [E|_]; [rewrite u64_small in E; lia|].
  rewrite (bind_Ret _ _ s (Some parent) s) by (unfold embed; by rewrite Hfind).
  rewrite (bind_Ret _ _ s parent s) by (unfold embed; by erewrite check_parent_ok).
  destruct (Z.ltb_spec now (hdr_Time h)); [lia|]. rewrite (bind_Ret _ _ s tt s), (bind_Ret get _ s s s) by done.
  pose proof (ac_time _ _ _ Hac) as Ht. destruct (Z.ltb_spec (hdr_Time h) (u64 (hdr_Time parent + cfg_BlockPeriod (bk_config s)))); [lia|].
  rewrite (bind_Ret _ _ s tt s) by done.
  rewrite (bind_Ret (with_signer (RecoverSigner h)) _ s (hdr_Coinbase h) (set_bk_signer v' s)) by (unfold with_signer; by rewrite Hr).
  unfold with_signer. cbn [bk_signer set_bk_signer]. by rewrite Hv.
Qed.

(** ** Batches *)

(** One header at a time, each looked up in the chain. *)
Fixpoint verify_each (chain : option Chain) (now : Z) (headers : list Header) (seals : list bool) : M Backend (list (option error)) :=
  match headers with
  | [] => mret []
  | h :: headers' =>
      e ← attempt (bk_VerifyHeader chain now h (match head seals with Some b => b | None => false end));
      rest ← verify_each chain now headers' (tail seals);
      mret (e :: rest)
  end.

(** The chain has each header's predecessor in the batch as its parent. *)
Fixpoint linked (chain : Chain) (prev : option Header) (headers : list Header) : Prop :=
  match headers with
  | [] => True
  | h :: headers' =>
      (forall p n, prev = Some p -> hdr_Number h = Some n -> GetHeader chain (hdr_ParentHash h) (u64 (u64 n - 1)) = Some p) /\
      linked chain (Some h) headers'
  end.

Lemma verifyHeader_parents c now h parents seal s :
  (forall p n, last parents = Some p -> hdr_Number h = Some n -> GetHeader c (hdr_ParentHash h) (u64 (u64 n - 1)) = Some p) ->
  verifyHeader (Some c) now h parents seal s = bk_VerifyHeader (Some c) now h seal s.
Proof.
  intros Hp. unfold bk_VerifyHeader, verifyHeader. destruct (hdr_Number h) as [n|]; [|done].
  assert (find_parent (Some c) h (u64 n) parents = find_parent (Some c) h (u64 n) []) as ->; [|done].
  unfold find_parent. destruct (last parents) as [p|]; [|done]. cbn. by rewrite (Hp p n).
Qed.

Lemma verify_headers_loop_each c now headers : forall parents seals s, linked c (last parents) headers ->
  verify_headers_loop (Some c) now parents headers seals s = verify_each (Some c) now headers seals s.
Proof.
  induction headers as [|h headers IH]; intros parents seals s Hl; [done|]. destruct Hl as [Hp Hl].
  cbn [verify_headers_loop verify_each]. unfold attempt, mbind, M_bind. rewrite verifyHeader_parents by done.
  destruct (bk_VerifyHeader _ _ _ _ s) as [[u|e|] s1]; [| |done]; rewrite IH by by rewrite last_snoc.
  all: done.
Qed.

(** Checking a batch of headers gives exactly the results, and
    leaves exactly the cache, of checking them one after another against a
    chain that has each header's predecessor. *)
Theorem batch_is_one_by_one c now headers seals s : linked c None headers ->
  VerifyHeaders (Some c) now headers seals s = verify_each (Some c) now headers seals s.
Proof. exact (verify_headers_loop_each c now headers [] seals s). Qed.

(** ** Sealing *)

Lemma Seal_inv c b s s1 : Seal c b s = (Ret tt, s1) -> exists h', SignerSeal (bk_signer s) (Block_Header b) = Ret h' /\
  s1 = set_bk_seals (bk_seals s ++ [mkSealTask (Block_WithSeal h' b) Delaying]) s.
Proof.
  unfold Seal, embed, get, modify, mbind, M_bind. destruct (deref (hdr_Number (Block_Header b))) as [m|e|]; [|done|done].
  destruct ((GetByAddress (bk_Address s) (snap s)).2); [|done]. destruct (GetHeader c _ _); [|done].
  destruct (SignerSeal (bk_signer s) (Block_Header b)) as [h'|e|]; [|done|done]. intros [= <-]. by exists h'.
Qed.

(** [Verify] on a block whose header is acceptable and signed by its coinbase. *)
Lemma Verify_accepts w b parent v v' :
  acceptable (cfg_BlockPeriod (bk_config v)) parent (b_header b) -> bk_chain v = true ->
  (forall n, hdr_Number (b_header b) = Some n -> GetHeader (w_chain w) (hdr_ParentHash (b_header b)) (u64 (u64 n - 1)) = Some parent) ->
  HasBadProposal w (Block_Hash b) v = false -> DeriveSha (b_transactions b) = hdr_TxHash (b_header b) -> b_uncles b = [] ->
  hdr_Time (b_header b) <= w_now w -> RecoverSigner (b_header b) (bk_signer v) = (Ret (hdr_Coinbase (b_header b)), v') ->
  sg_signatures v' !! Block_Hash b = Some (hdr_Coinbase (b_header b)) -> hdr_Coinbase (b_header b) ∈ AddressList (bk_valset v) ->
  Verify w b v = (Ret tt, set_bk_signer v' v).
Proof.
  intros Hac Hch Hpar Hbad Htx Hun Htime Hr Hcache Hin. destruct (ac_number _ _ _ Hac) as (n & Hn & _).
  unfold Verify. rewrite (bind_Ret get _ v v v), Hbad by done. cbn [fail_if]. rewrite (bind_Ret _ _ v tt v) by done.
  assert (Block_Header b = b_header b) as -> by (eapply CopyHeader_id; [done|apply Hac]).
  rewrite Htx, Hun, Z.eqb_refl. unfold nilUncleHash. rewrite Z.eqb_refl. cbn [negb fail_if]. rewrite !(bind_Ret _ _ v tt v) by done.
  unfold the_chain. rewrite Hch. apply (verifyHeader_accepts _ _ _ _ parent); [done| |done|done|].
  - intros m Hm. cbn. by rewrite Hpar.
  - apply VerifyHeader_cached; [done| |by eexists]. unfold snap. by rewrite !Copy_members.
Qed.

(** ** A new block *)

Section Mining.
Context `{!CryptoLaws}.
Context (s : Backend) (key : PrivateKey) (c : Chain) (now now' : Z) (h0 parent : Header) (n : Z).

(** A miner at work: it has its key, knows the parent of the block it is to
    make, and its clock does not go backwards; the validators' addresses and
    the size of the extra data are in range. *)
Record mining : Prop := {
  mi_key : sg_privateKey (bk_signer s) = Some key;
  mi_address : bk_Address s = PubkeyToAddress (public key);
  mi_number : hdr_Number h0 = Some n;
  mi_range : 0 < n < 2 ^ 64;
  mi_parent : GetHeader c (hdr_ParentHash h0) (n - 1) = Some parent;
  mi_parent_number : hdr_Number parent = Some (n - 1);
  mi_parent_hash : Header_Hash parent = hdr_ParentHash h0;
  mi_clock : now <= now';
  mi_validators : Forall address_ok (AddressList (snap s));
  mi_fits seal : (length seal = 0 \/ length seal = 65)%nat -> fits c_HotstuffExtra (mkHotstuffExtra (AddressList (snap s)) [] seal [])
}.

Context (Hmi : mining).

(** The header [Prepare] makes. *)
Definition prepared (h : Header) : Prop :=
  hdr_Number h = Some n /\ hdr_ParentHash h = hdr_ParentHash h0 /\ hdr_Coinbase h = bk_Address s /\
  hdr_MixDigest h = HotstuffDigest /\ hdr_Difficulty h = Some defaultDifficulty /\
  u64 (hdr_Time parent + cfg_BlockPeriod (bk_config s)) <= hdr_Time h /\
  ExtractHotstuffExtra h = Ret (mkHotstuffExtra (AddressList (snap s)) [] [] []).

Lemma Prepare_ok : exists h1, Prepare c now now' s h0 = (Ret tt, h1) /\ prepared h1.
Proof.
  set (e := mkHotstuffExtra (AddressList (snap s)) [] [] []).
  assert (c_ok c_HotstuffExtra e) as Hok by (apply HotstuffExtra_ok_iff, (mi_validators Hmi)).
  destruct (encode_val_total c_HotstuffExtra e Hok) as (payload & Hpay).
  unfold Prepare, modify, get, asks, mbind, M_bind. cbn [prepare_fields hdr_Number hdr_ParentHash]. rewrite (mi_number Hmi). cbn [deref].
  pose proof (mi_range Hmi) as Hr. rewrite (u64_small n), (u64_small (n - 1)), (mi_parent Hmi) by lia.
  unfold BuildPrepareExtra. fold e. rewrite Hpay. cbn [mbind outcome_bind hdr_Extra with_Difficulty prepare_fields].
  set (padded := hdr_Extra h0 ++ _). set (t := u64 _).
  assert (HotstuffExtraVanity <= length padded)%nat as Hlen.
  { unfold padded. rewrite length_app, length_replicate. lia. }
  eexists. split; [reflexivity|]. unfold prepared. destruct (Z.ltb_spec (hdr_Time (with_Time t (with_Extra (take HotstuffExtraVanity padded ++ payload)
    (with_Extra padded (with_Difficulty defaultDifficulty (prepare_fields (bk_Address s) h0)))))) now) as [Ht|Ht];
    cbn in Ht; (split_and!; try done).
  - apply Hmi.
  - cbn. pose proof (mi_clock Hmi). lia.
  - apply (Extract_replace e payload (with_Extra padded h0)); [done|done| |done]. apply (mi_fits Hmi). by left.
  - apply Hmi.
  - apply (Extract_replace e payload (with_Extra padded h0)); [done|done| |done]. apply (mi_fits Hmi). by left.
Qed.

(** The block made of it. *)
Lemma assembled_ok root h1 txs rc : prepared h1 ->
  let b := FinalizeAndAssemble root h1 txs rc in
  acceptable (cfg_BlockPeriod (bk_config s)) parent (b_header b) /\ Block_Header b = b_header b /\ prepared (b_header b) /\
  hdr_TxHash (b_header b) = DeriveSha txs /\ b_transactions b = txs /\ b_uncles b = [] /\ hdr_Time (b_header b) = hdr_Time h1.
Proof.
  intros (Hn & Hp & Hc & Hm & Hd & Ht & He) b. subst b. unfold FinalizeAndAssemble, NewBlock, Finalize.
  assert (CopyHeader (with_Root_and_Uncles root nilUncleHash h1) = with_Root_and_Uncles root nilUncleHash h1) as ->
    by by eapply CopyHeader_id.
  destruct (if (rc_len rc =? 0)%nat then _ else _) as [rh bloom]. cbn [b_header b_transactions b_uncles].
  set (h := with_UncleHash _ _). assert (prepared h) as Hpr by done.
  split_and!; try done.
  - constructor; try done; [|by rewrite (mi_parent_hash Hmi); cbn].
    exists n. split; [done|]. split; [apply Hmi|apply Hmi].
  - by eapply CopyHeader_id.
  - unfold h. cbn. destruct txs; [|done]. by rewrite DeriveSha_nil.
Qed.

(** C11: a block the miner prepares, assembles and seals keeps its hash
    through sealing and is accepted by [Verify] at every validator that knows
    the parent, counts the miner as a member, has the same block period and a
    clock that has reached the block's time. *)
Theorem sealed_proposal_accepted root txs rc : exists h1,
  Prepare c now now' s h0 = (Ret tt, h1) /\
  let b := FinalizeAndAssemble root h1 txs rc in
  forall s1, Seal c b s = (Ret tt, s1) -> exists b',
    bk_seals s1 = bk_seals s ++ [mkSealTask b' Delaying] /\ Block_Hash b' = Block_Hash b /\
    forall w v, bk_chain v = true -> GetHeader (w_chain w) (hdr_ParentHash h0) (n - 1) = Some parent ->
      cfg_BlockPeriod (bk_config v) = cfg_BlockPeriod (bk_config s) -> bk_Address s ∈ AddressList (bk_valset v) ->
      HasBadProposal w (Block_Hash b) v = false -> hdr_Time h1 <= w_now w ->
      (forall a, sg_signatures (bk_signer v) !! Block_Hash b = Some a -> a = bk_Address s) ->
      (Verify w b' v).1 = Ret tt.
Proof.
  destruct Prepare_ok as (h1 & Hprep & Hok). exists h1. split; [done|]. cbv zeta.
  destruct (assembled_ok root h1 txs rc Hok) as (Hac & Hcopy & (Hn & Hp & Hc & Hm & Hd & _ & He) & Htx & Etx & Eun & Etime).
  set (b := FinalizeAndAssemble root h1 txs rc) in *. intros s1 (h' & Hs & ->)%Seal_inv. rewrite Hcopy in Hs.
  set (b' := Block_WithSeal h' b). exists b'. cbn [bk_seals set_bk_seals].
  assert (forall v, (forall a, sg_signatures v !! Block_Hash b = Some a -> a = bk_Address s) -> exists p v',
    h' = replace_payload p (b_header b) /\ Block_Hash b' = Block_Hash b /\ RecoverSigner h' v = (Ret (bk_Address s), v') /\
    sg_signatures v' !! Block_Hash b = Some (bk_Address s)) as Hrec.
  { intros v Hv. destruct (RecoverSigner_sealed (bk_signer s) v key (b_header b) h' _ (mi_key Hmi) (mi_address Hmi) Hm He)
      as (p & seal & v' & Ep & Eh & _ & _ & _ & _ & Hr & _ & Hc'); [|exact Hv|exact Hs|by exists p, v'].
    intros seal Hl. apply (mi_fits Hmi). by right. }
  split_and!; [done| |].
  - by destruct (Hrec (NewSigner key (sg_blsPubPoly (bk_signer s)) (sg_blsPrivKey (bk_signer s)) 0 0)) as (p & v' & _ & Eh & _); [intros a E; cbn in E; by rewrite lookup_empty in E|].
  - intros w v Hch Hpar Hper Hin Hbad Htime Hcache. destruct (Hrec _ Hcache) as (p & v' & Ep & Eh & Hr & Hc').
    assert (hdr_Coinbase h' = bk_Address s) as Hcb by by rewrite Ep. pose proof (mi_range Hmi) as Hrange.
    erewrite (Verify_accepts w b' parent v v'); [done|..]; cbn [b' b_header Block_WithSeal b_transactions b_uncles]; rewrite ?Eh, ?Hcb; try done.
    + rewrite Hper, Ep. by apply acceptable_replace.
    + intros m Hm'. rewrite Ep in Hm'. cbn in Hm'. assert (m = n) as -> by congruence.
      rewrite (u64_small n), (u64_small (n - 1)), Ep by lia. cbn. by rewrite Hp.
    + by rewrite Ep, Etx, <- Htx.
    + by rewrite Ep; cbn; rewrite Etime.
Qed.

End Mining.
(** ** A committed block *)

Lemma RecoverSigner_cached h v a v' : RecoverSigner h v = (Ret a, v') ->
  sg_signatures v' !! Header_Hash h = Some a /\ v' = set_signatures (sg_signatures v') v.
Proof.
  unfold RecoverSigner. destruct (sg_signatures v !! Header_Hash h) as [b|] eqn:E; [intros [= -> <-]; by destruct v|].
  destruct (ExtractHotstuffExtra h) as [e|e|]; [|done|done].
  destruct (getSignatureAddress _ _) as [b|e'|]; [|done|done]. intros [= -> <-]. split; [apply evict_last|done].
Qed.

(** Another certificate in the header leaves its signer as it is. *)
Lemma RecoverSigner_other_qc h e q p v : hdr_MixDigest h = HotstuffDigest -> ExtractHotstuffExtra h = Ret e ->
  fits c_HotstuffExtra (mkHotstuffExtra (ex_Validators e) q (ex_Seal e) (ex_Salt e)) ->
  encode_val c_HotstuffExtra (mkHotstuffExtra (ex_Validators e) q (ex_Seal e) (ex_Salt e)) = Ret p ->
  Header_Hash (replace_payload p h) = Header_Hash h /\
  ExtractHotstuffExtra (replace_payload p h) = Ret (mkHotstuffExtra (ex_Validators e) q (ex_Seal e) (ex_Salt e)) /\
  RecoverSigner (replace_payload p h) v = RecoverSigner h v.
Proof.
  intros Hm He Hf Hp. set (e' := mkHotstuffExtra _ _ _ _) in *.
  assert (ExtractHotstuffExtra (replace_payload p h) = Ret e') as He'.
  { apply Extract_replace; [by eapply ExtractHotstuffExtra_length| |done|done]. apply HotstuffExtra_ok_iff, (ExtractHotstuffExtra_ok _ _ He). }
  pose proof (Header_Hash_replace h e e' p Hm He eq_refl Hf Hp) as Hh. split_and!; [done..|].
  unfold RecoverSigner. rewrite Hh, He', He. by rewrite (HeaderHash_Hash _ e'), (HeaderHash_Hash h e), Hh.
Qed.

(** C12: the block the engine commits is one that other nodes import:
    [SealBlock] writes the commit certificate into a block that a validator
    would accept without changing its hash, and the result passes the full
    header check, certificate included, at every node whose group key
    verifies the certificate. *)
Theorem committed_block_imports chain now b qc e parent v v' :
  acceptable (cfg_BlockPeriod (bk_config v)) parent (b_header b) -> ExtractHotstuffExtra (b_header b) = Ret e ->
  qc_ok qc -> fits c_QuorumCert qc ->
  (forall raw, encode_val c_QuorumCert qc = Ret raw ->
     fits c_HotstuffExtra (mkHotstuffExtra (ex_Validators e) raw (ex_Seal e) (ex_Salt e))) ->
  AuthQC (bk_signer v) qc = Ret tt ->
  (forall n, hdr_Number (b_header b) = Some n -> GetHeader chain (hdr_ParentHash (b_header b)) (u64 (u64 n - 1)) = Some parent) ->
  hdr_Time (b_header b) <= now -> hdr_Coinbase (b_header b) ∈ AddressList (bk_valset v) ->
  RecoverSigner (b_header b) (bk_signer v) = (Ret (hdr_Coinbase (b_header b)), v') ->
  exists b', SealBlock b qc = Ret b' /\ Block_Hash b' = Block_Hash b /\ b_transactions b' = b_transactions b /\
    (bk_VerifyHeader (Some chain) now (b_header b') true v).1 = Ret tt.
Proof.
  intros Hac He Hqc Hfq Hfe Hauth Hpar Htime Hin Hr. destruct (ac_number _ _ _ Hac) as (n & Hn & Hrange & _).
  destruct (decode_encode_val c_QuorumCert qc) as (raw & Henc & Hdec); [by apply qc_ok_codec|done|]. specialize (Hfe raw Henc).
  set (e' := mkHotstuffExtra _ raw _ _) in *.
  destruct (encode_val_total c_HotstuffExtra e') as (p & Hp); [apply HotstuffExtra_ok_iff, (ExtractHotstuffExtra_ok _ _ He)|].
  destruct (RecoverSigner_other_qc (b_header b) e raw p (bk_signer v) (ac_mix _ _ _ Hac) He Hfe Hp) as (Hh & He' & Hr').
  rewrite Hr in Hr'. destruct (RecoverSigner_cached _ _ _ _ Hr) as [Hcache Hv'].
  exists (Block_WithSeal (replace_payload p (b_header b)) b). split_and!; [|exact Hh|done|].
  - unfold SealBlock. assert (Block_Header b = b_header b) as -> by (eapply CopyHeader_id; [done|apply Hac]).
    rewrite Henc. unfold SetEncodedQC. cbn [mbind outcome_bind]. rewrite He. cbn [mbind outcome_bind]. fold e'. by rewrite Hp.
  - cbn [b_header Block_WithSeal]. unfold bk_VerifyHeader. set (h := replace_payload p (b_header b)) in *.
    erewrite (verifyHeader_accepts _ _ _ _ parent); [done|by apply acceptable_replace| |done|exact Hr'|].
    + intros m Hm. cbn. by rewrite (Hpar m).
    + unfold VerifyHeader, mbind, M_bind, asks. cbn [h hdr_Number replace_payload with_Extra]. rewrite Hn. cbn [deref].
      destruct (u64 n =? 0); [done|]. unfold RecoverSigner at 1. fold h. rewrite Hh, Hcache, Z.eqb_refl. cbn [negb].
      rewrite GetByAddress_snd, decide_True by (unfold snap; by rewrite <- elem_of_AddressList, !Copy_members).
      unfold verify_seal. rewrite He'. cbn [on_err mbind outcome_bind ex_EncodedQC]. rewrite Hdec. cbn [mbind outcome_bind].
      f_equal. rewrite Hv'. exact Hauth.
Qed.

End Proposal.
