(* ===== verification/Refinement.v ===== *)
(** * The code implements the protocol

    [refines c a] relates the state of a replica to a state of the protocol of
    [Protocol]: view, proposed node and locked block are those of the round
    state, and whatever the code has signed, announced or committed is in the
    protocol's log.  The lemmas below run the handlers symbolically: a pure
    check leaves the state alone, most updates are [quiet], and the others are
    steps of the protocol.  [handleEvent_sim] is the simulation for a whole
    event. *)
From Stdlib Require Import ZArith Lia Strings.Byte.
From stdpp Require Import base list option strings gmap relations.
From S2P Require Import Prelude Errors Rlp Codec Common Validator Block Types Signer Prque MessageSet Backlog RoundState Core Protocol.
Open Scope Z_scope.

Section Refinement.
Context `{Keccak} `{Crypto}.
Context (sg : HotstuffSigner).

(** ** The relation *)

(** A valid aggregate signature on the vote the certificate stands for. *)
Definition certified (qc : QuorumCert) : Prop :=
  vote_ok (qc_vote qc) /\
  exists data, encode_val c_Vote (qc_vote qc) = Ret data /\ BLSVerifyAggSig sg data (qc_BLSSignature qc) = Ret tt.

Definition node_hash (parent : Hash) (b : Block) : Hash := rlpHash (c_slice c_hash) [parent; Block_Hash b].

Definition node_key (node : option ProposedBlock) : option (Hash * Hash) :=
  match node with
  | Some (NewProposedBlock p (Some b)) => Some (node_hash p b, Block_Hash b)
  | _ => None
  end.

Definition rs_key (rs : roundState) : View * option (Hash * Hash) * option Hash :=
  (currentView rs, node_key (rs_node rs), Block_Hash <$> LockedBlock rs).

(** A decide message does not carry a certificate of height 0 (modulo 2^64),
    which [verifyQC] would not check. *)
Definition decide_checked (m : Message) : Prop :=
  forall d qc, m_Code m = MsgTypeDecide -> Message_Decode c_Diploma m = Ret d -> dip_CommitQC d = Some qc ->
    qc_HeightU64 qc <> 0.

Definition foreign (m : Message) : Prop := m_Address m <> sg_address sg /\ decide_checked m.

Definition logged (g : list AEntry) (e : Effect) : Prop :=
  match e with
  | ESign v _ => vote_ok v /\ vote_BLSSignature v = [] /\
      exists w b, vote_View v = Some w /\ in_range w /\ AVote (vote_Code v) w (vote_ProposedBlock v) b ∈ g
  | EUnicast _ m _ => m_Code m <> MsgTypeCommit
  | EBroadcast m _ => m_Code m = MsgTypeCommit -> exists w, m_View m = Some w /\ ALead w ∈ g
  | EPostBacklog _ m => foreign m
  | ECommit h _ x => exists b qc w, xb_Block x = Some b /\ ADecide qc w (Block_Hash b) ∈ g /\ v_Height w = h
  | _ => True
  end.

(** The node an effect is recorded with. *)
Definition effect_node (e : Effect) : option ProposedBlock :=
  match e with ESign _ n => n | ECommit _ n _ => n | _ => None end.

(** The hashes of an entry are those of a node the replica has signed for or
    committed. *)
Definition named (out : list Effect) (e : AEntry) : Prop :=
  forall n b, e_names e = Some (n, b) -> exists ef, ef ∈ out /\ node_key (effect_node ef) = Some (n, b).

Definition queue_ok (q : Prque Message) : Prop := exists l, pq_rel q l /\ Forall (fun x => foreign (it_value x)) l.

Definition db_ok (c : Core) : Prop := forall db, c_db c = Some db -> db !! viewKey = None.

Record refines (c : Core) (a : Replica) : Prop := {
  rf_signer : c_signer c = sg;
  rf_inv : protocol_invariant certified a;
  rf_db : db_ok c;
  rf_backlog : map_Forall (fun _ => queue_ok) (c_backlogs c);
  rf_log : Forall (logged (a_log a)) (c_out c);
  rf_named : Forall (named (c_out c)) (a_log a);
  rf_current : match c_current c with
               | None => a_view a = mkView 0 0
               | Some rs => 0 < rs_height rs /\ rs_key rs = (a_view a, a_node a, a_lock a)
               end
}.

Definition sim (a : Replica) (c : Core) : Prop := exists a', rtc (astep certified) a a' /\ refines c a'.

Lemma logged_mono g g' e : g ⊆ g' -> logged g e -> logged g' e.
Proof. destruct e; cbn; try done; naive_solver. Qed.

Lemma Forall_logged_mono g g' l : g ⊆ g' -> Forall (logged g) l -> Forall (logged g') l.
Proof. intros Hs. rewrite !Forall_forall. intros Hl e He. by apply (logged_mono g g' e Hs), Hl. Qed.

Lemma Forall_named_mono out out' g : out ⊆ out' -> Forall (named out) g -> Forall (named out') g.
Proof.
  intros Hs. rewrite !Forall_forall. intros Hl e He n b En. destruct (Hl e He n b En) as (ef & Hin & Hk).
  exists ef. split; [by apply Hs|done].
Qed.

(** ** Quiet updates *)

Record quiet (c c' : Core) : Prop := {
  q_signer : c_signer c' = c_signer c;
  q_out : c_out c' = c_out c;
  q_backlogs : c_backlogs c' = c_backlogs c;
  q_db : db_ok c -> db_ok c';
  q_valSet : vs_validators (c_valSet c') = vs_validators (c_valSet c);
  q_key : rs_key <$> c_current c' = rs_key <$> c_current c
}.

#[export] Instance quiet_preorder : PreOrder quiet.
Proof.
  split.
  - intros c. by constructor.
  - intros c1 c2 c3 [] []. constructor; try congruence. auto.
Qed.

Lemma rs_key_height rs rs' : rs_key rs = rs_key rs' -> rs_height rs = rs_height rs' /\ rs_round rs = rs_round rs'.
Proof.
  intros E. split; [exact (f_equal (fun k => v_Height k.1.1) E)|exact (f_equal (fun k => v_Round k.1.1) E)].
Qed.

Lemma quiet_current c c' rs : quiet c c' -> c_current c = Some rs ->
  exists rs', c_current c' = Some rs' /\ rs_key rs' = rs_key rs.
Proof.
  intros Hq Hc. pose proof (q_key _ _ Hq) as Hk. rewrite Hc in Hk.
  destruct (c_current c') as [rs'|]; [|done]. exists rs'. split; [done|]. by apply (inj Some) in Hk.
Qed.

Lemma refines_quiet c c' a : quiet c c' -> refines c a -> refines c' a.
Proof.
  intros Hq [Hs Hi Hd Hb Hl Hnm Hc]. pose proof Hq as [Qs Qo Qb Qd _ Qk].
  constructor; [congruence|done|auto|by rewrite Qb|by rewrite Qo|by rewrite Qo|].
  destruct (c_current c) as [rs|] eqn:E.
  - destruct (quiet_current c c' rs Hq E) as (rs' & -> & Hk). destruct Hc as [Hh Hc].
    split; [|congruence]. by apply rs_key_height in Hk as [-> _].
  - by destruct (c_current c').
Qed.

Lemma sim_quiet a c c' : quiet c c' -> sim a c -> sim a c'.
Proof. intros Hq (a' & Hr & Hf). exists a'. split; [done|]. by eapply refines_quiet. Qed.

(** ** Symbolic execution *)

Section Execution.
Context (a : Replica).

Lemma sim_bind {A} (m : M Core A) (k : A -> M Core unit) c :
  sim a (m c).2 -> (forall x, (m c).1 = Ret x -> sim a (k x (m c).2).2) -> sim a ((m ≫= k) c).2.
Proof. unfold mbind, M_bind. destruct (m c) as [[x|e|] c']; cbn; auto. Qed.

Lemma sim_ask {A} (f : Core -> outcome A) (k : A -> M Core unit) c :
  sim a c -> (forall x, f c = Ret x -> sim a (k x c).2) -> sim a ((asks f ≫= k) c).2.
Proof. intros. by apply sim_bind. Qed.

Lemma sim_lift {A} (o : outcome A) (k : A -> M Core unit) c :
  sim a c -> (forall x, o = Ret x -> sim a (k x c).2) -> sim a ((lift o ≫= k) c).2.
Proof. intros. by apply sim_bind. Qed.

Lemma sim_get (k : Core -> M Core unit) c : sim a (k c c).2 -> sim a ((get ≫= k) c).2.
Proof. done. Qed.

Lemma sim_current (k : roundState -> M Core unit) c :
  sim a c -> (forall rs, c_current c = Some rs -> sim a (k rs c).2) -> sim a ((current_rs ≫= k) c).2.
Proof. intros Hs Hk. apply sim_ask; [done|]. intros rs Hrs%deref_Ret. auto. Qed.

Lemma sim_logger (k : unit -> M Core unit) c :
  sim a c -> (forall rs, c_current c = Some rs -> sim a (k tt c).2) -> sim a ((newLogger ≫= k) c).2.
Proof.
  intros Hs Hk. unfold newLogger, current_rs, asks, mbind, M_bind. destruct (c_current c) as [rs|] eqn:E; cbn; eauto.
Qed.

Lemma sim_or_return {A} (o : outcome A) (k : A -> M Core unit) c :
  sim a c -> (forall x, o = Ret x -> sim a (k x c).2) -> sim a (or_return o k c).2.
Proof. intros Hs Hk. destruct o; cbn; auto. Qed.

Lemma sim_when b (m : M Core unit) c : sim a c -> (b = true -> sim a (m c).2) -> sim a (when b m c).2.
Proof. destruct b; cbn; auto. Qed.

Lemma sim_quiet_bind {A} (m : M Core A) (k : A -> M Core unit) c : respects quiet m -> sim a c ->
  (forall x c', m c = (Ret x, c') -> quiet c c' -> sim a c' -> sim a (k x c').2) -> sim a ((m ≫= k) c).2.
Proof.
  intros Hm Hs Hk. specialize (Hm c). pose proof (sim_quiet a _ _ Hm Hs) as Hs'.
  unfold mbind, M_bind. destruct (m c) as [[x|e|] c'] eqn:E; cbn in *; auto.
Qed.

Lemma sim_quiet_end {A} (m : M Core A) c : respects quiet m -> sim a c -> sim a (m c).2.
Proof. intros Hm. apply sim_quiet, Hm. Qed.

End Execution.

(** ** Which operations are quiet *)

Lemma quiet_mod_rs f : (forall rs, rs_key (f rs) = rs_key rs) -> respects quiet (mod_rs f).
Proof.
  intros Hf c. unfold mod_rs, current_rs, asks, mbind, M_bind. destruct (c_current c) as [rs|] eqn:E; cbn; [|reflexivity].
  constructor; try done. cbn [c_current set_c_current]. rewrite E. unfold fmap, option_fmap, option_map. by rewrite Hf.
Qed.

Lemma quiet_lift {A} (o : outcome A) : respects quiet (lift o).
Proof. intros c. cbn. reflexivity. Qed.

Lemma quiet_current_rs : respects quiet current_rs.
Proof. intros c. cbn. reflexivity. Qed.

Lemma quiet_store env {A} (cd : codec A) key x : key <> viewKey -> respects quiet (store env cd key x).
Proof.
  intros Hk c. unfold store, get, lift, mbind, M_bind. destruct (c_db c) as [db|] eqn:E; cbn; [|reflexivity].
  destruct (encode_val cd x) as [raw| |]; cbn; [|reflexivity..].
  destruct (e_put env key raw); cbn; [|reflexivity..].
  constructor; try done. intros Hd db' [= <-]. rewrite lookup_insert_ne by done. by apply Hd.
Qed.

Create HintDb quiet.
#[local] Hint Resolve respects_ret respects_throw respects_panic respects_asks respects_get respects_wrap
  respects_when quiet_mod_rs quiet_lift quiet_current_rs quiet_store : quiet.
#[local] Hint Extern 1 (respects _ (_ ≫= _)) => apply respects_bind; [apply _| |intros ?] : quiet.
#[local] Hint Extern 1 (PreOrder quiet) => apply quiet_preorder : quiet.
#[local] Hint Extern 1 (_ <> viewKey) => done : quiet.

Lemma quiet_SetPrepareQC env qc : respects quiet (SetPrepareQC env qc).
Proof. unfold SetPrepareQC, storePrepareQC. auto with quiet. Qed.

Lemma quiet_SetCommittedQC env qc : respects quiet (SetCommittedQC env qc).
Proof. unfold SetCommittedQC, storeCommitQC. auto with quiet. Qed.

Lemma quiet_acceptPrepareQC env qc : respects quiet (acceptPrepareQC env qc).
Proof. unfold acceptPrepareQC. auto using quiet_SetPrepareQC with quiet. Qed.

Lemma quiet_executeBlock env b : respects quiet (executeBlock env b).
Proof.
  unfold executeBlock. apply respects_bind; [apply _|auto with quiet|intros c].
  destruct (c_IsProposer c); auto with quiet.
Qed.

Lemma quiet_AddNewViews m : respects quiet (AddNewViews m).
Proof. unfold AddNewViews. auto 6 with quiet. Qed.

Lemma quiet_AddPrepareVote m : respects quiet (AddPrepareVote m).
Proof. unfold AddPrepareVote. auto 6 with quiet. Qed.

Lemma quiet_AddPreCommitVote m : respects quiet (AddPreCommitVote m).
Proof. unfold AddPreCommitVote. auto 6 with quiet. Qed.

Lemma quiet_AddCommitVote m : respects quiet (AddCommitVote m).
Proof. unfold AddCommitVote. auto 6 with quiet. Qed.

Lemma quiet_timer env : respects quiet (newRoundChangeTimer env).
Proof.
  unfold newRoundChangeTimer, stopTimer. apply respects_bind; [apply _| |intros _].
  - intros c. by constructor.
  - apply respects_bind; [apply _|apply quiet_current_rs|intros rs]. intros c. by constructor.
Qed.

Lemma quiet_storeRequestMsg r : respects quiet (storeRequestMsg r).
Proof.
  unfold storeRequestMsg, newLogger. repeat (apply respects_bind; [apply _|auto with quiet|intros ?]).
  intros c. by constructor.
Qed.

(** ** Effects *)

Lemma sim_step a c c' : sim a c ->
  (forall a', refines c a' -> exists a'', astep certified a' a'' /\ refines c' a'') -> sim a c'.
Proof.
  intros (a' & Hr & Hf) Hs. destruct (Hs a' Hf) as (a'' & Ha & Hf').
  exists a''. split; [by eapply rtc_r|done].
Qed.

(** Append effects to the log, and entries to the protocol's log. *)
Lemma refines_log c v n l g g' es : refines c (mkReplica v n l g) -> protocol_invariant certified (mkReplica v n l (g ++ g')) ->
  Forall (logged (g ++ g')) es -> Forall (named es) g' -> refines (set_c_out (c_out c ++ es) c) (mkReplica v n l (g ++ g')).
Proof.
  intros [Hs Hi Hd Hb Hl Hnm Hc] Hi' He Hn'. constructor; try done.
  - cbn. apply Forall_app. split; [|done]. eapply Forall_logged_mono; [|done]. set_solver.
  - cbn. apply Forall_app. split; [eapply Forall_named_mono; [|done]|eapply Forall_named_mono; [|done]]; set_solver.
Qed.

Lemma sim_effects a c es : sim a c -> (forall g, Forall (logged g) es) -> sim a (set_c_out (c_out c ++ es) c).
Proof.
  intros (a' & Hr & Hf) He. exists a'. split; [done|]. destruct a' as [v n l g].
  pose proof (refines_log c v n l g [] es) as Hx. rewrite app_nil_r in Hx. apply Hx; [done|apply Hf|apply He|done].
Qed.

Definition locked (c : Core) : Prop := exists rs, c_current c = Some rs /\ is_Some (LockedBlock rs).

Lemma locked_quiet c c' : quiet c c' -> locked c -> locked c'.
Proof.
  intros Hq (rs & Hc & b & Hb). destruct (quiet_current c c' rs Hq Hc) as (rs' & Hc' & Hk). exists rs'. split; [done|].
  assert (Block_Hash <$> LockedBlock rs' = Block_Hash <$> LockedBlock rs) as E by exact (f_equal (fun k => k.2) Hk).
  rewrite Hb in E. destruct (LockedBlock rs'); [by eexists|done].
Qed.

Lemma locked_out c es : locked c -> locked (set_c_out es c).
Proof. done. Qed.

Lemma finalizeMessage_inv msg c m p : finalizeMessage msg c = Ret (m, p) ->
  m_Code m = m_Code msg /\ m_View m = m_View msg /\ m_Msg m = m_Msg msg /\ Message_Payload m = Ret p.
Proof.
  unfold finalizeMessage. intros (d & _ & H')%outcome_bind_Ret. apply outcome_bind_Ret in H' as (h & _ & H').
  apply outcome_bind_Ret in H' as (sig & _ & H'). apply outcome_bind_Ret in H' as (p' & Hp & [= <- <-]). done.
Qed.

(** What [broadcast] does: nothing, or one message of the current view. *)
Lemma broadcast_cases code payload c :
  (broadcast code payload c).2 = c \/
  exists rs m p e, c_current c = Some rs /\ m_Code m = code /\ m_View m = Some (currentView rs) /\
    (broadcast code payload c).2 = set_c_out (c_out c ++ [e]) c /\
    ((is_vote_type code = true /\ exists t, e = EUnicast t m p) \/ (is_vote_type code = false /\ e = EBroadcast m p)).
Proof.
  unfold broadcast, current_rs, asks, get, mbind, M_bind. destruct (c_current c) as [rs|] eqn:Ec; cbn [deref]; [|by left].
  destruct (_ <? 0); [by left|]. destruct (finalizeMessage _ c) as [[m p]| |] eqn:Ef; cbn [or_return]; [|by left..].
  apply finalizeMessage_inv in Ef as (E1 & E2 & E3 & _). cbn in E1, E2, E3.
  destruct (is_vote_type code) eqn:Ev.
  - destruct (proposer c) as [t| |]; cbn; [|by left..]. right. exists rs, m, p, (EUnicast t m p). split_and!; try done. left. eauto.
  - destruct (is_leader_type code); [|by left]. right. exists rs, m, p, (EBroadcast m p). split_and!; try done. by right.
Qed.

Lemma sim_broadcast a c code payload : code <> MsgTypeCommit -> sim a c -> sim a (broadcast code payload c).2.
Proof.
  intros Hc Hs. destruct (broadcast_cases code payload c) as [->|(rs & m & p & e & _ & Hm & _ & -> & He)]; [done|].
  apply sim_effects; [done|]. intros g. constructor; [|done].
  destruct He as [[_ (t & ->)]|[_ ->]]; cbn; congruence.
Qed.

Lemma sim_broadcast_commit a c payload : locked c -> sim a c -> sim a (broadcast MsgTypeCommit payload c).2.
Proof.
  intros (rs0 & Hc0 & b & Hb) Hs.
  destruct (broadcast_cases MsgTypeCommit payload c) as [->|(rs & m & p & e & Hc & Hm & Hv & -> & He)]; [done|].
  destruct He as [[? _]|[_ ->]]; [done|]. rewrite Hc0 in Hc. injection Hc as <-.
  eapply sim_step; [done|]. intros [v n l g] Hf. pose proof (rf_current _ _ Hf) as Hk. rewrite Hc0 in Hk.
  destruct Hk as [_ [= Ev En El]].
  assert (astep certified (mkReplica v n l g) (mkReplica v n l (g ++ [ALead v]))) as Ha.
  { apply as_lead. rewrite <- El, Hb. by eexists. }
  eexists. split; [exact Ha|]. apply refines_log; [done|by eapply astep_invariant, rf_inv| |].
  - constructor; [|done]. cbn. intros _. exists v. split; [congruence|]. apply elem_of_snoc. by right.
  - by apply Forall_singleton.
Qed.

Lemma ProposedBlock_Hash_key n h : ProposedBlock_Hash n = Ret h ->
  exists b, pb_Block n = Some b /\ h = node_hash (pb_Parent n) b /\ node_key (Some n) = Some (h, Block_Hash b).
Proof.
  unfold ProposedBlock_Hash. intros (b & Hb%deref_Ret & [= <-])%outcome_bind_Ret. exists b.
  destruct n as [p ob]. cbn in *. by subst ob.
Qed.

Lemma node_hash_ok p b : hash_ok (node_hash p b).
Proof. unfold node_hash, rlpHash. case_match; [apply Keccak256Hash_ok|done..]. Qed.

Lemma node_key_named n h b : node_key n = Some (h, b) -> exists p blk, h = node_hash p blk /\ b = Block_Hash blk.
Proof. destruct n as [[p [blk|]]|]; [|done..]. intros [= <- <-]. eauto. Qed.

Lemma UnsignedVote_inv code rs v : UnsignedVote code rs = Ret (Some v) ->
  exists h b, node_key (rs_node rs) = Some (h, b) /\ v = mkVote code (Some (currentView rs)) h [].
Proof.
  unfold UnsignedVote. destruct (rs_node rs) as [n|]; [|done].
  intros (h & (b & _ & _ & Hk)%ProposedBlock_Hash_key & Hv)%outcome_bind_Ret.
  destruct (h =? EmptyHash); [done|]. injection Hv as <-. eauto.
Qed.

Lemma sim_sign a c rs v code : 0 <= code < 2 ^ 64 -> sim a c -> c_current c = Some rs -> UnsignedVote code rs = Ret (Some v) ->
  (code = MsgTypeCommitVote -> locked c) -> sim a (set_c_out (c_out c ++ [ESign v (rs_node rs)]) c).
Proof.
  intros Hrange Hs Hc (h & b & Hk & ->)%UnsignedVote_inv Hcode. eapply sim_step; [done|]. intros [w n l g] Hf.
  pose proof (rf_current _ _ Hf) as Hrs. rewrite Hc in Hrs. destruct Hrs as [_ [= Ev En El]].
  rewrite Hk in En. subst n.
  assert (astep certified (mkReplica w (Some (h, b)) l g) (mkReplica w (Some (h, b)) l (g ++ [AVote code w h b]))) as Ha.
  { apply as_vote. intros (rs' & Hc' & x & Hx)%Hcode. rewrite Hc in Hc'. injection Hc' as <-. rewrite <- El, Hx. by eexists. }
  eexists. split; [exact Ha|]. apply refines_log; [done|by eapply astep_invariant, rf_inv| |].
  - pose proof (pi_range _ _ (rf_inv _ _ Hf)) as Hw. constructor; [|done]. split; [|split; [done|]].
    + split; [exact Hrange|]. split; [|destruct (node_key_named _ _ _ Hk) as (p & blk & -> & _); apply node_hash_ok].
      exists w. split; [cbn; congruence|]. destruct Hw. split; cbn in *; lia.
    + exists w, b. split; [cbn; congruence|]. split; [exact Hw|]. apply elem_of_snoc. by right.
  - apply Forall_singleton. intros n' b' [= <- <-]. exists (ESign (mkVote code (Some (currentView rs)) h []) (rs_node rs)).
    split; [by left|done].
Qed.

Lemma sim_sendVote a c code : 0 <= code < 2 ^ 64 -> code <> MsgTypeCommit -> (code = MsgTypeCommitVote -> locked c) -> sim a c ->
  sim a (sendVote code c).2.
Proof.
  intros Hrange Hn Hl Hs. unfold sendVote. apply sim_current; [done|]. intros rs Hc.
  apply sim_lift; [done|]. intros [v|] Hv; [|done].
  apply sim_or_return; [done|]. intros ub _. apply sim_get. apply sim_or_return; [done|]. intros sb _.
  change (sim a (or_return (encode_val c_Vote (mkVote (vote_Code v) (vote_View v) (vote_ProposedBlock v) sb))
    (fun payload => broadcast code payload) (set_c_out (c_out c ++ [ESign v (rs_node rs)]) c)).2).
  apply sim_or_return; [by eapply sim_sign|]. intros p _. apply sim_broadcast; [done|]. by eapply sim_sign.
Qed.

(** Sending does not touch the round state. *)
Lemma broadcast_current code payload c : c_current (broadcast code payload c).2 = c_current c.
Proof. by destruct (broadcast_cases code payload c) as [->|(? & ? & ? & ? & _ & _ & _ & -> & _)]. Qed.

Lemma sendVote_current code c : c_current (sendVote code c).2 = c_current c.
Proof.
  unfold sendVote, current_rs, asks, lift, get, mbind, M_bind. destruct (c_current c) as [rs|] eqn:Ec; cbn [deref]; [|done].
  destruct (UnsignedVote code rs) as [[v|]| |]; [|done..]. unfold or_return at 1.
  destruct (encode_val c_Vote v) as [ub| |]; [|done..]. unfold or_return at 1.
  destruct (BLSSign (c_signer c) ub) as [sb| |]; [|done..].
  cbn [emit modify]. destruct (encode_val c_Vote _); [|done..]. unfold or_return. by rewrite broadcast_current.
Qed.

(** ** Node and lock *)

Lemma refines_rs c a a' rs : refines c a -> protocol_invariant certified a' -> a_log a' = a_log a ->
  0 < rs_height rs -> rs_key rs = (a_view a', a_node a', a_lock a') -> refines (set_c_current (Some rs) c) a'.
Proof. intros [Hs Hi Hd Hb Hl Hnm Hc] Hi' Eg Hh Hk. constructor; try done; by rewrite Eg. Qed.

Lemma sim_rs_facts a c rs : sim a c -> c_current c = Some rs ->
  0 < rs_height rs < 2 ^ 64 /\ 0 <= rs_round rs < 2 ^ 64 /\
  (forall lb, LockedBlock rs = Some lb -> exists h, node_key (rs_node rs) = Some (h, Block_Hash lb)).
Proof.
  intros ([v n l g] & _ & [_ Hi _ _ _ _ Hc]) Hrs. rewrite Hrs in Hc. destruct Hc as [Hh [= Ev En El]].
  destruct (pi_range _ _ Hi) as [Rh Rr]. cbn in Rh, Rr. subst v. cbn in Rh, Rr. split; [lia|]. split; [lia|].
  intros lb Hlb. rewrite Hlb in El. destruct (pi_lock _ _ Hi (Block_Hash lb)) as (h & Hn); [by cbn; rewrite <- El|].
  exists h. cbn in Hn. congruence.
Qed.

Lemma sim_set_node a c rs n b : sim a c -> c_current c = Some rs -> pb_Block n = Some b ->
  (forall lb, LockedBlock rs = Some lb -> Block_Hash lb = Block_Hash b) ->
  sim a (set_c_current (Some (set_rs_node (Some n) rs)) c).
Proof.
  intros Hs Hc Hb Hl. eapply sim_step; [done|]. intros [v n0 l g] Hf.
  pose proof (rf_current _ _ Hf) as Hk. rewrite Hc in Hk. destruct Hk as [Hh [= Ev En El]].
  assert (astep certified (mkReplica v n0 l g) (mkReplica v (Some (node_hash (pb_Parent n) b, Block_Hash b)) l g)) as Ha.
  { apply as_node. intros b' ->. destruct (LockedBlock rs) as [lb|]; [|done]. injection El as <-. by apply Hl. }
  eexists. split; [exact Ha|]. eapply refines_rs; [done|by eapply astep_invariant, rf_inv|done|done|].
  unfold rs_key. destruct n as [p ob]. cbn in Hb. subst ob. cbn. f_equal; [f_equal|]; done.
Qed.

Lemma sim_SetProposedBlock a c n :
  (forall rs b lb, c_current c = Some rs -> pb_Block n = Some b -> LockedBlock rs = Some lb -> Block_Hash lb = Block_Hash b) ->
  sim a c -> sim a (SetProposedBlock n c).2.
Proof.
  intros Hl Hs. unfold SetProposedBlock. destruct (pb_Block n) as [b|] eqn:Eb; [|done].
  unfold mod_rs. apply sim_current; [done|]. intros rs Hc. cbn. eapply sim_set_node; eauto.
Qed.

Lemma LockedBlock_set_locked b l s : LockedBlock (set_locked b l s) = if l then b else None.
Proof. by destruct l. Qed.

(** Locking the block of the current node. *)
Lemma sim_set_locked a c rs rs' n : sim a c -> c_current c = Some rs -> node_key (rs_node rs) = node_key (Some n) ->
  rs_key rs' = (currentView rs, node_key (rs_node rs), Block_Hash <$> pb_Block n) -> rs_height rs' = rs_height rs ->
  sim a (set_c_current (Some rs') c).
Proof.
  intros Hs Hc Hn Hk' Hh'. pose proof (sim_rs_facts a c rs Hs Hc) as (_ & _ & Hlock).
  destruct (pb_Block n) as [b|] eqn:Eb.
  - eapply sim_step; [done|]. intros [v n0 l g] Hf.
    pose proof (rf_current _ _ Hf) as Hk. rewrite Hc in Hk. destruct Hk as [Hh [= Ev En El]].
    destruct n as [p ob]. cbn in Eb. subst ob. cbn [node_key] in Hn.
    assert (astep certified (mkReplica v n0 l g) (mkReplica v n0 (Some (Block_Hash b)) g)) as Ha.
    { rewrite <- En, Hn. apply as_lock. }
    eexists. split; [exact Ha|]. eapply refines_rs; [done|by eapply astep_invariant, rf_inv|done|lia|]. 
    rewrite Hk', Ev, En. done.
  - assert (node_key (Some n) = None) as E by (destruct n as [p ob]; cbn in *; by subst ob).
    eapply (sim_quiet a c); [|done]. constructor; try done. cbn [c_current set_c_current]. rewrite Hc.
    unfold fmap, option_fmap, option_map. f_equal. rewrite Hk'. unfold rs_key. f_equal.
    destruct (LockedBlock rs) as [lb|]; [|done]. destruct (Hlock lb eq_refl) as (h & Hx). congruence.
Qed.

Lemma sim_Lock a c env qc : sim a c -> sim a (Lock env qc c).2.
Proof.
  intros Hs. unfold Lock. apply sim_current; [done|]. intros rs Hc. destruct (rs_node rs) as [n|] eqn:En; [|done].
  unfold storeLockQC, storeNode.
  apply sim_quiet_bind; [by apply quiet_store|done|]. intros _ c1 _ Hq1 Hs1.
  apply sim_quiet_bind; [by apply quiet_store|done|]. intros _ c2 _ Hq2 Hs2.
  assert (quiet c c2) as Hq by (by etrans). destruct (quiet_current c c2 rs Hq Hc) as (rs2 & Hc2 & Hk).
  unfold mod_rs. apply sim_current; [done|]. intros rs' Hc'. rewrite Hc2 in Hc'. injection Hc' as <-. cbn.
  eapply (sim_set_locked a c2 rs2 _ n); [done|done| | |done].
  - rewrite <- En. exact (f_equal (fun k => k.1.2) Hk).
  - reflexivity.
Qed.

Lemma Lock_locked c env qc rs k : (Lock env qc c).1 = Ret tt -> c_current c = Some rs -> node_key (rs_node rs) = Some k ->
  locked (Lock env qc c).2.
Proof.
  intros Hr Hc Hk. unfold Lock, current_rs, asks, mbind, M_bind in *. rewrite Hc in *. cbn [deref] in *.
  destruct (rs_node rs) as [n|]; [|done]. unfold storeLockQC, storeNode in *.
  pose proof (quiet_store env c_QuorumCert lockQCKey qc ltac:(done) c) as Hq1.
  destruct (store env c_QuorumCert lockQCKey qc c) as [[[]|e|] c1]; cbn in Hr |- *; try done.
  pose proof (quiet_store env c_ProposedBlock nodeKey n ltac:(done) c1) as Hq2.
  destruct (store env c_ProposedBlock nodeKey n c1) as [[[]|e|] c2]; cbn in Hr |- *; try done. cbn in Hq1, Hq2.
  assert (quiet c c2) as Hq by (by etrans). destruct (quiet_current c c2 rs Hq Hc) as (rs2 & Hc2 & _).
  unfold mod_rs, current_rs, asks, mbind, M_bind in *. rewrite Hc2 in *. cbn in *.
  eexists. split; [done|]. rewrite LockedBlock_set_locked. destruct n as [p [b|]]; [by eexists|done].
Qed.

Lemma sim_acceptLockQC a c env qc : sim a c -> sim a (acceptLockQC env qc c).2.
Proof.
  intros Hs. unfold acceptLockQC. apply sim_bind; [by apply sim_Lock|]. intros [] _.
  apply sim_quiet_end; [by apply quiet_mod_rs|by apply sim_Lock].
Qed.

Lemma acceptLockQC_locked c env qc rs k : (acceptLockQC env qc c).1 = Ret tt -> c_current c = Some rs ->
  node_key (rs_node rs) = Some k -> locked (acceptLockQC env qc c).2.
Proof.
  intros Hr Hc Hk. unfold acceptLockQC, mbind, M_bind in *.
  pose proof (Lock_locked c env qc rs k) as Hl. destruct (Lock env qc c) as [[[]|e|] c1]; cbn [fst snd] in *; try done.
  specialize (Hl eq_refl Hc Hk). eapply locked_quiet; [|exact Hl].
  apply (quiet_mod_rs (set_rs_state StatePreCommitted)). done.
Qed.

(** ** Queues *)

(** Whatever holds of the queued messages holds of those replayed and kept. *)
Lemma drain_queue_Forall (P : Message -> Prop) fuel current q l replay q' msgs :
  pq_rel q l -> Forall (fun x => P (it_value x)) l -> Forall P replay ->
  drain_queue fuel current q replay = Ret (q', msgs) ->
  Forall P msgs /\ exists l', pq_rel q' l' /\ Forall (fun x => P (it_value x)) l'.
Proof.
  revert q l replay. induction fuel as [|fuel IH]; intros q l replay Hq Hl Hr Hd; cbn [drain_queue] in Hd.
  { injection Hd as <- <-. eauto. }
  destruct (Prque_Empty q) eqn:He. { injection Hd as <- <-. eauto. }
  assert (l <> []) as Hne by (intros Hx; apply (Prque_Empty_rel q l Hq) in Hx; congruence).
  destruct (Prque_Pop_rel q l Hq Hne) as (x & q1 & l1 & Hpop & Hp & Hq1 & _). rewrite Hpop in Hd. cbn [mbind outcome_bind] in Hd.
  rewrite Hp in Hl. apply Forall_cons in Hl as [Hx Hl1].
  destruct (checkView current (m_View (it_value x))) as [[]|e|]; [| |done].
  - eapply (IH q1 l1 (replay ++ [it_value x])); try done. apply Forall_app. split; [done|]. by constructor.
  - destruct (decide (e = ErrFutureMessage)); [|by eapply (IH q1 l1 replay)].
    injection Hd as <- <-. split; [done|]. destruct x as [y pr]. eexists. split; [by apply Prque_Push_rel|]. by constructor.
Qed.

Lemma process_senders_Forall current vs qs b b' out :
  Forall (fun p => queue_ok p.2) qs -> map_Forall (fun _ => queue_ok) b ->
  process_senders current vs qs b = Ret (b', out) ->
  map_Forall (fun _ => queue_ok) b' /\ Forall (fun p => foreign p.2) out.
Proof.
  revert b b' out. induction qs as [|[addr q] qs IH]; intros b b' out Hqs Hb Hp; cbn [process_senders] in Hp.
  { injection Hp as <- <-. done. }
  apply Forall_cons in Hqs as [Hq Hqs]. cbn in Hq. apply outcome_bind_Ret in Hp as ([q1 m1] & Hs1 & Hp).
  apply outcome_bind_Ret in Hp as ([b1 rest] & Hs2 & [= <- <-]).
  assert (queue_ok q1 /\ Forall (fun p => foreign p.2) m1) as [Hq1 Hm1].
  { unfold process_sender in Hs1. destruct (GetByAddress addr vs).2 as [src|]; [|by injection Hs1 as <- <-].
    apply outcome_bind_Ret in Hs1 as ([q2 msgs] & Hd & [= <- <-]). destruct Hq as (l & Hl & Hf).
    destruct (drain_queue_Forall foreign _ _ _ _ _ _ _ Hl Hf ltac:(done) Hd) as [Hm Hq2]. split; [exact Hq2|].
    apply Forall_forall. intros p Hpm. apply list_elem_of_fmap in Hpm as (m & -> & Hm'). rewrite Forall_forall in Hm. by apply Hm. }
  destruct (IH _ _ _ Hqs (map_Forall_insert_2 _ _ _ _ Hq1 Hb) Hs2) as [? Hrest]. split; [done|]. by apply Forall_app.
Qed.

Lemma backlog_Push_ok m b : foreign m -> map_Forall (fun _ => queue_ok) b -> map_Forall (fun _ => queue_ok) (backlog_Push m b).
Proof.
  intros Hm Hb. unfold backlog_Push. destruct (m_View m) as [v|]; [|done]. destruct (_ || _); [done|].
  apply map_Forall_insert_2; [|done].
  destruct (b !! m_Address m) as [q|] eqn:E; cbn.
  - destruct (Hb _ _ E) as (l & Hl & Hf). eexists. split; [by apply Prque_Push_rel|]. by constructor.
  - eexists. split; [apply Prque_Push_rel, Prque_New_rel|]. by apply Forall_singleton.
Qed.

Lemma refines_backlogs c a b : refines c a -> map_Forall (fun _ => queue_ok) b -> refines (set_c_backlogs b c) a.
Proof. intros [] Hb. by constructor. Qed.

Lemma sim_backlogs a c b : sim a c -> map_Forall (fun _ => queue_ok) b -> sim a (set_c_backlogs b c).
Proof. intros (a' & Hr & Hf) Hb. exists a'. split; [done|]. by apply refines_backlogs. Qed.

Lemma sim_backlog_ok a c : sim a c -> map_Forall (fun _ => queue_ok) (c_backlogs c).
Proof. by intros (a' & _ & []). Qed.

Lemma sim_processBacklog a c env : order_ok (e_order env) -> sim a c -> sim a (processBacklog env c).2.
Proof.
  intros Ho Hs. unfold processBacklog. apply sim_current; [done|]. intros rs Hc. apply sim_get.
  apply sim_lift; [done|]. intros [b' out] Hp. cbn. pose proof (sim_backlog_ok a c Hs) as Hb.
  unfold processBacklog_loop in Hp. apply process_senders_Forall in Hp as [Hb' Hout]; [| |done].
  - apply (sim_effects a (set_c_backlogs b' c)); [by apply sim_backlogs|]. intros g.
    apply Forall_forall. intros e He. apply list_elem_of_fmap in He as ([src m] & -> & Hm). cbn.
    rewrite Forall_forall in Hout. by apply (Hout _ Hm).
  - apply Forall_forall. intros [k q] Hkq. rewrite (Ho _ (c_backlogs c)) in Hkq. apply elem_of_map_to_list in Hkq.
    by apply (Hb k q).
Qed.

Lemma sim_processPendingRequests a c : sim a c -> sim a (processPendingRequests c).2.
Proof.
  intros Hs. unfold processPendingRequests. apply sim_get. apply sim_lift; [done|]. intros [q' blocks] _. cbn.
  apply (sim_effects a (set_c_pendingRequests q' c)).
  - eapply sim_quiet; [|exact Hs]. by constructor.
  - intros g. apply Forall_forall. intros e He. by apply list_elem_of_fmap in He as (b & -> & _).
Qed.

Lemma sim_storeBacklog a c m : foreign m \/ m_Address m = sg_address sg -> sim a c -> sim a (storeBacklog m c).2.
Proof.
  intros Hm Hs. unfold storeBacklog. apply sim_logger; [done|]. intros rs Hc. apply sim_get.
  destruct (Z.eqb_spec (m_Address m) (c_Address c)) as [?|Hne]; [done|].
  destruct (GetByAddress _ _).2; [|done]. cbn. apply sim_backlogs; [done|].
  apply backlog_Push_ok; [|by eapply sim_backlog_ok]. destruct Hm as [|Hm]; [done|].
  destruct Hs as (a' & _ & [Hsg _ _ _ _ _ _]). unfold c_Address in Hne. congruence.
Qed.

Lemma sim_setCurrentState a c env s : order_ok (e_order env) -> sim a c -> sim a (setCurrentState env s c).2.
Proof.
  intros Ho Hs. unfold setCurrentState. apply sim_quiet_bind; [by apply quiet_mod_rs|done|]. intros _ c1 _ _ Hs1.
  apply sim_bind.
  - apply sim_when; [done|]. intros _. by apply sim_processPendingRequests.
  - intros [] _. apply sim_processBacklog; [done|]. apply sim_when; [done|]. intros _. by apply sim_processPendingRequests.
Qed.

Lemma sim_sendNewView a c : sim a c -> sim a (sendNewView c).2.
Proof.
  intros Hs. unfold sendNewView. apply sim_current; [done|]. intros rs _. apply sim_or_return; [done|].
  intros p _. by apply sim_broadcast.
Qed.

(** ** New rounds *)

(** A new height has been entered, and node and lock may still be replaced. *)
Definition sim_fresh (a : Replica) (c : Core) : Prop :=
  exists v n l g v' n' l', rtc (astep certified) a (mkReplica v n l g) /\
    protocol_invariant certified (mkReplica v n l g) /\
    astep certified (mkReplica v n l g) (mkReplica v' n' l' g) /\ v_Height v < v_Height v' /\
    refines c (mkReplica v' n' l' g).

Lemma sim_fresh_sim a c : sim_fresh a c -> sim a c.
Proof. intros (v & n & l & g & v' & n' & l' & Hr & _ & Ha & _ & Hf). eexists. split; [by eapply rtc_r|done]. Qed.

Lemma sim_fresh_quiet a c c' : quiet c c' -> sim_fresh a c -> sim_fresh a c'.
Proof.
  intros Hq (v & n & l & g & v' & n' & l' & Hr & Hi & Ha & Hh & Hf). exists v, n, l, g, v', n', l'.
  split_and!; [done..|by eapply refines_quiet].
Qed.

Lemma sim_fresh_reset a c rs rs' : sim_fresh a c -> c_current c = Some rs -> currentView rs' = currentView rs ->
  (forall lb, LockedBlock rs' = Some lb -> exists h, node_key (rs_node rs') = Some (h, Block_Hash lb)) ->
  sim_fresh a (set_c_current (Some rs') c).
Proof.
  intros (v & n & l & g & v' & n' & l' & Hr & Hi & Ha & Hh & Hf) Hc Hv Hl.
  pose proof (rf_current _ _ Hf) as Hk. rewrite Hc in Hk. destruct Hk as [Hpos [= Ev En El]].
  assert (astep certified (mkReplica v n l g) (mkReplica v' (node_key (rs_node rs')) (Block_Hash <$> LockedBlock rs') g)) as Ha'.
  { apply as_height; [done|apply (pi_range _ _ (rf_inv _ _ Hf))|].
    intros b Hb. destruct (LockedBlock rs') as [lb|]; [|done]. injection Hb as <-. auto. }
  eexists _, _, _, _, _, _, _. split_and!; [done|done|exact Ha'|done|].
  eapply refines_rs; [done|by eapply astep_invariant|done| |].
  - replace (rs_height rs') with (rs_height rs); [done|]. by apply (f_equal v_Height) in Hv.
  - unfold rs_key. rewrite Hv, Ev. done.
Qed.

Definition unlocked (c : Core) : Prop := exists rs, c_current c = Some rs /\ LockedBlock rs = None.

Lemma unlocked_quiet c c' : quiet c c' -> unlocked c -> unlocked c'.
Proof.
  intros Hq (rs & Hc & Hl). destruct (quiet_current c c' rs Hq Hc) as (rs' & Hc' & Hk). exists rs'. split; [done|].
  assert (Block_Hash <$> LockedBlock rs' = Block_Hash <$> LockedBlock rs) as E by exact (f_equal (fun k => k.2) Hk).
  rewrite Hl in E. by destruct (LockedBlock rs').
Qed.

Lemma quiet_load_with {A} (cd : codec A) key f : (forall x rs, rs_key (f x rs) = rs_key rs) -> respects quiet (load_with cd key f).
Proof.
  intros Hf c. unfold load_with, get, mbind, M_bind. destruct (load cd key c) as [x|]; [|cbn; reflexivity].
  apply (quiet_mod_rs (f x)), Hf.
Qed.

Lemma loadView_nop v c : db_ok c -> loadView v c = (Ret tt, c).
Proof.
  intros Hd. unfold loadView, load_with, get, mbind, M_bind, load. destruct (c_db c) as [db|] eqn:E; [|done].
  by rewrite (Hd db E).
Qed.

Lemma relock_inv rs rs' : relock rs = Ret rs' -> LockedBlock rs = None -> currentView rs' = currentView rs /\
  (forall lb, LockedBlock rs' = Some lb -> exists h, node_key (rs_node rs') = Some (h, Block_Hash lb)).
Proof.
  unfold relock. intros Hr Hl.
  destruct (rs_lockQC rs) as [qc|]; [|injection Hr as <-; split; [done|congruence]].
  destruct (rs_node rs) as [n|] eqn:En; [|injection Hr as <-; split; [done|congruence]].
  destruct (pb_Block n) as [b|] eqn:Eb; [|injection Hr as <-; split; [done|congruence]].
  apply outcome_bind_Ret in Hr as (h & (b' & Hb' & _ & Hk)%ProposedBlock_Hash_key & Hr).
  destruct (_ =? h); injection Hr as <-; [|split; [done|congruence]].
  split; [done|]. intros lb. rewrite LockedBlock_set_locked. intros [= <-]. exists h. cbn. rewrite En. congruence.
Qed.

Lemma sim_fresh_loadNode a c : sim_fresh a c -> unlocked c -> sim_fresh a (loadNode c).2 /\ unlocked (loadNode c).2.
Proof.
  intros Hs (rs & Hc & Hl). unfold loadNode, load_with, get, mbind, M_bind.
  destruct (load c_ProposedBlock nodeKey c) as [n|]; [|split; [done|by exists rs]].
  unfold mod_rs, current_rs, asks, mbind, M_bind. rewrite Hc. cbn. split; [|by eexists].
  eapply sim_fresh_reset; [done|done|done|]. intros lb. change (LockedBlock rs = Some lb -> exists h, node_key (Some n) = Some (h, Block_Hash lb)). congruence.
Qed.

Lemma load_with_Ret {A} (cd : codec A) key f c rs : c_current c = Some rs -> exists c', load_with cd key f c = (Ret tt, c').
Proof.
  intros Hc. unfold load_with, get, mbind, M_bind. destruct (load cd key c); [|by eexists].
  unfold mod_rs, current_rs, asks, mbind, M_bind. rewrite Hc. by eexists.
Qed.

Lemma fresh_load {A} (cd : codec A) key f a c : (forall x rs, rs_key (f x rs) = rs_key rs) -> sim_fresh a c -> unlocked c ->
  exists c', load_with cd key f c = (Ret tt, c') /\ sim_fresh a c' /\ unlocked c'.
Proof.
  intros Hf Hs Hu. pose proof Hu as (rs & Hc & _). destruct (load_with_Ret cd key f c rs Hc) as (c' & Hr).
  exists c'. pose proof (quiet_load_with cd key f Hf c) as Hq. rewrite Hr in Hq. cbn in Hq.
  split_and!; [done|by eapply sim_fresh_quiet|by eapply unlocked_quiet].
Qed.

Lemma sim_fresh_reload a c v : sim_fresh a c -> unlocked c -> sim_fresh a (reload v c).2.
Proof.
  intros Hs Hu. unfold reload.
  erewrite bind_Ret; [|apply loadView_nop; destruct (sim_fresh_sim a c Hs) as (a' & _ & Hf); apply Hf].
  destruct (fresh_load c_QuorumCert prepareQCKey (fun q => set_rs_prepareQC (Some q)) a c) as (c1 & E1 & Hs1 & Hu1); [done..|].
  erewrite bind_Ret by exact E1.
  destruct (fresh_load c_QuorumCert lockQCKey (fun q => set_rs_lockQC (Some q)) a c1) as (c2 & E2 & Hs2 & Hu2); [done..|].
  erewrite bind_Ret by exact E2.
  destruct (fresh_load c_QuorumCert commitQCKey (fun q => set_rs_committedQC (Some q)) a c2) as (c3 & E3 & Hs3 & Hu3); [done..|].
  erewrite bind_Ret by exact E3.
  destruct (sim_fresh_loadNode a c3 Hs3 Hu3) as [Hs4 (rs & Hc4 & Hl)].
  pose proof Hu3 as (rs3 & Hc3 & _). destruct (load_with_Ret c_ProposedBlock nodeKey (fun n => set_rs_node (Some n)) c3 rs3 Hc3) as (c4 & E4).
  unfold loadNode in *. rewrite E4 in Hs4, Hc4. cbn in Hs4, Hc4. erewrite bind_Ret by exact E4.
  unfold current_rs, asks, lift, mod_rs, mbind, M_bind. rewrite Hc4. cbn [deref].
  destruct (relock rs) as [rs'| |] eqn:Er; [|done..]. cbn. rewrite Hc4. cbn.
  apply relock_inv in Er as [Hv Hk]; [|done]. by eapply sim_fresh_reset.
Qed.

(** What the surroundings promise: maps are iterated in some order, and block
    numbers leave room for the next height. *)
Record env_ok (env : Env) : Prop := {
  eo_order : order_ok (e_order env);
  eo_number b addr n : e_LastProposal env = (Some b, addr) -> Block_Number b = Ret n -> 0 <= n < 2 ^ 64 - 1
}.

(** Entering a later round of the same height. *)
Lemma sim_enter a c rs lp vs r : sim a c -> c_current c = Some rs -> rs_round rs < r < 2 ^ 64 ->
  sim a (set_c_current (Some (roundState_update vs lp (mkView r (rs_height rs)) rs)) c).
Proof.
  intros Hs Hc Hr. eapply sim_step; [done|]. intros [w n l g] Hf. pose proof (rf_current _ _ Hf) as Hk. rewrite Hc in Hk.
  destruct Hk as [Hh [= Ev En El]].
  assert (astep certified (mkReplica w n l g) (mkReplica (mkView r (v_Height w)) n l g)) as Ha.
  { apply as_round. rewrite <- Ev. cbn. lia. }
  eexists. split; [exact Ha|]. eapply refines_rs; [done|by eapply astep_invariant, rf_inv|done|done|].
  unfold rs_key, currentView. cbn. by rewrite <- En, <- El, <- Ev.
Qed.

(** Entering a later height, and the first one. *)
Lemma sim_enter_height a c rs lp vs v : sim a c -> c_current c = Some rs -> rs_height rs < v_Height v -> in_range v -> 0 < v_Height v ->
  sim_fresh a (set_c_current (Some (roundState_update vs lp v rs)) c).
Proof.
  intros ([w n l g] & Hr & Hf) Hc Hlt Hv Hh. pose proof (rf_current _ _ Hf) as Hk. rewrite Hc in Hk.
  destruct Hk as [_ [= Ev En El]]. pose proof (rf_inv _ _ Hf) as Hi.
  assert (astep certified (mkReplica w n l g) (mkReplica v n l g)) as Ha.
  { apply as_height; [rewrite <- Ev; cbn; lia|done|apply (pi_lock _ _ Hi)]. }
  exists w, n, l, g, v, n, l. split_and!; [done|done|done|rewrite <- Ev; cbn; lia|].
  eapply refines_rs; [done|by eapply astep_invariant|done|done|].
  unfold rs_key, currentView. destruct v as [r h]. cbn. by rewrite <- En, <- El.
Qed.

Lemma sim_first a c vs lp v : sim a c -> c_current c = None -> in_range v -> 0 < v_Height v ->
  sim_fresh a (set_c_current (Some (newRoundState vs lp v)) c).
Proof.
  intros ([w n l g] & Hr & Hf) Hc Hv Hh. pose proof (rf_current _ _ Hf) as Hk. rewrite Hc in Hk. cbn in Hk. subst w.
  assert (astep certified (mkReplica (mkView 0 0) n l g) (mkReplica v None None g)) as Ha by by apply as_height.
  exists (mkView 0 0), n, l, g, v, None, None. split_and!; [done|apply Hf|done|done|].
  eapply refines_rs; [done|by eapply astep_invariant, rf_inv|done|done|destruct v; done].
Qed.

Lemma quiet_round_start_qc env lp : respects quiet (
  rs ← current_rs;
  match rs_prepareQC rs with
  | Some _ => mret tt
  | None =>
      qc ← lift (buildRoundStartQC lp);
      _ ← SetPrepareQC env qc;
      mod_rs (fun s => set_rs_committedQC None (set_rs_lockQC None s))
  end).
Proof.
  apply respects_bind; [apply _|apply quiet_current_rs|intros rs]. destruct (rs_prepareQC rs); [apply respects_ret, _|].
  apply respects_bind; [apply _|apply quiet_lift|intros qc].
  apply respects_bind; [apply _|apply quiet_SetPrepareQC|intros _]. by apply quiet_mod_rs.
Qed.

Lemma bind_assoc_quiet (P : Core -> Prop) {A} (m : M Core A) (k : A -> M Core unit) c :
  (forall c1 c2, quiet c1 c2 -> P c1 -> P c2) -> P (m c).2 -> (forall x, respects quiet (k x)) -> P ((m ≫= k) c).2.
Proof.
  intros HP Hm Hk. unfold mbind, M_bind. destruct (m c) as [[x|e|] c1]; cbn in *; try done.
  eapply HP; [apply Hk|done].
Qed.

Lemma sim_update_round a c env lp rs round : sim a c -> c_current c = Some rs -> rs_round rs < round < 2 ^ 64 ->
  sim a (updateRoundState env lp (mkView round (rs_height rs)) c).2.
Proof.
  intros Hs Hc Hr. destruct (sim_rs_facts a c rs Hs Hc) as (Hh & Hr0 & _). unfold updateRoundState. apply sim_get. rewrite Hc.
  apply (bind_assoc_quiet (sim a)); [by intros ??; apply sim_quiet| |intros []; apply quiet_round_start_qc].
  unfold mod_rs. apply sim_current; [done|]. intros rs' Hc'. rewrite Hc in Hc'. injection Hc' as <-. cbn.
  by apply sim_enter.
Qed.

Lemma sim_update_height a c env lp n : sim a c -> 0 <= n < 2 ^ 64 - 1 ->
  (forall rs, c_current c = Some rs -> rs_height rs <= n) ->
  sim_fresh a (updateRoundState env lp (mkView 0 (n + 1)) c).2.
Proof.
  intros Hs Hn Hlt. unfold updateRoundState. unfold mbind at 1, M_bind at 1. cbn [get].
  apply (bind_assoc_quiet (sim_fresh a)); [by intros ??; apply sim_fresh_quiet| |intros []; apply quiet_round_start_qc].
  assert (in_range (mkView 0 (n + 1))) as Hrg by (split; cbn; lia).
  destruct (c_current c) as [rs|] eqn:Hc.
  - unfold mod_rs, current_rs, asks, mbind, M_bind. rewrite Hc. cbn. specialize (Hlt rs eq_refl).
    apply sim_enter_height; [done|done|cbn; lia|done|cbn; lia].
  - unfold modify, mbind, M_bind. apply sim_fresh_reload; [|by eexists].
    apply sim_first; [done|done|done|cbn; lia].
Qed.

Lemma sim_log_and_return a m k c : sim a (m c).2 -> ((m c).1 = Ret tt -> sim a (k (m c).2).2) -> sim a (log_and_return m k c).2.
Proof. unfold log_and_return. destruct (m c) as [[[]|e|] c']; cbn; auto. Qed.

Lemma sim_round_tail a c env : order_ok (e_order env) -> sim a c ->
  sim a ((_ ← newRoundChangeTimer env; _ ← setCurrentState env StateAcceptRequest; sendNewView) c).2.
Proof.
  intros Ho Hs. apply sim_quiet_bind; [apply quiet_timer|done|]. intros _ c1 _ _ Hs1.
  apply sim_bind; [by apply sim_setCurrentState|]. intros [] _. by apply sim_sendNewView, sim_setCurrentState.
Qed.

Lemma sim_fresh_Unlock a c : sim_fresh a c -> sim a (mod_rs Unlock c).2.
Proof.
  intros Hs. unfold mod_rs, current_rs, asks, mbind, M_bind. destruct (c_current c) as [rs|] eqn:Hc; cbn; [|by apply sim_fresh_sim].
  apply sim_fresh_sim. by eapply sim_fresh_reset.
Qed.

Lemma quiet_set_valSet c vs : vs_validators vs = vs_validators (c_valSet c) -> quiet c (set_c_valSet vs c).
Proof. intros E. by constructor. Qed.

Lemma sim_enter_round a c env round lp addr ch : env_ok env -> e_LastProposal env = (Some lp, addr) -> sim a c ->
  (ch = true -> exists rs, c_current c = Some rs /\ rs_round rs < round < 2 ^ 64) ->
  (ch = false -> forall n rs, Block_Number lp = Ret n -> c_current c = Some rs -> rs_height rs <= n) ->
  sim a (enter_round env round lp addr ch c).2.
Proof.
  intros Ho Hlp Hs Ht Hf. unfold enter_round. apply sim_lift; [done|]. intros n Hn.
  destruct ch.
  - destruct (Ht eq_refl) as (rs & Hc & Hr).
    assert (new_view round n true c = (Ret (mkView round (rs_height rs)), c)) as Ev
      by (unfold new_view, current_rs, asks, mbind, M_bind; by rewrite Hc).
    erewrite bind_Ret by exact Ev. erewrite bind_Ret by reflexivity.
    set (c1 := set_c_valSet _ c). assert (sim a c1) as Hs1 by (eapply sim_quiet; [by apply quiet_set_valSet|done]).
    apply sim_log_and_return; [by apply sim_update_round|]. intros _. cbn [negb].
    apply (sim_round_tail a _ env); [apply Ho|]. by apply sim_update_round.
  - erewrite bind_Ret by reflexivity. erewrite bind_Ret by reflexivity.
    set (c1 := set_c_valSet _ c). assert (sim a c1) as Hs1 by (eapply sim_quiet; [by apply quiet_set_valSet|done]).
    pose proof (eo_number _ Ho lp addr n Hlp Hn) as Hrange.
    assert (sim_fresh a (updateRoundState env lp (mkView 0 (n + 1)) c1).2) as Hu
      by (apply sim_update_height; [done|done|]; intros rs; by apply (Hf eq_refl n)).
    apply sim_log_and_return; [by apply sim_fresh_sim|]. intros _. cbn [negb when].
    apply sim_bind; [by apply sim_fresh_Unlock|]. intros [] _. apply (sim_round_tail a _ env); [apply Ho|by apply sim_fresh_Unlock].
Qed.

Lemma sim_startNewRound a c env round : env_ok env -> sim a c ->
  (round = 0 \/ exists rs, c_current c = Some rs /\ round = rs_round rs + 1) -> sim a (startNewRound env round c).2.
Proof.
  intros Ho Hs Hround. unfold startNewRound. apply sim_get. destruct (negb (c_isRunning c)); [done|].
  destruct (e_LastProposal env) as [[lp|] addr] eqn:Hlp; [|done]. apply sim_lift; [done|]. intros n64 Hn64.
  apply outcome_bind_Ret in Hn64 as (n & Hn & [= <-]).
  pose proof (eo_number _ Ho lp addr n Hlp Hn) as Hrange. rewrite u64_small by lia.
  destruct (round_decision round n c) as [ch|] eqn:Hd; [|done]. unfold round_decision in Hd.
  unfold c_HeightU64, c_RoundU64 in Hd. destruct (c_current c) as [rs|] eqn:Hc.
  - destruct (sim_rs_facts a c rs Hs Hc) as (Hh & Hr & _). unfold rs_HeightU64, rs_RoundU64 in Hd.
    rewrite !u64_small in Hd by lia. apply (sim_enter_round a c env round lp addr ch Ho Hlp Hs).
    + intros ->. exists rs. split; [done|]. destruct Hround as [->|(rs' & [= <-] & ->)].
      * by destruct (rs_height rs <=? n), (n <? rs_height rs - 1).
      * destruct (rs_height rs <=? n), (n <? rs_height rs - 1), (Z.eqb_spec (rs_round rs + 1) 0); try done.
        destruct (Z.eq_dec (rs_round rs) (2 ^ 64 - 1)) as [E|]; [|lia]. exfalso. rewrite E in Hd. vm_compute in Hd. done.
    + intros -> n' rs' Hn' Hc'. rewrite Hc in Hc'. injection Hc' as <-.
      assert (n' = n) as -> by (apply deref_Ret in Hn; unfold Block_Number in Hn'; apply deref_Ret in Hn'; congruence).
      destruct (Z.leb_spec (rs_height rs) n); [lia|]. by repeat case_match.
  - apply (sim_enter_round a c env round lp addr ch Ho Hlp Hs); [|congruence]. injection Hd as <-. done.
Qed.

(** ** Checks *)

Lemma encode_View_ok v it : enc c_View v = Ret it -> view_ok v.
Proof.
  destruct v as [r h]. unfold view_ok, c_View, c_iso, c_struct, f_cons, c_big, writeBigInt. cbn.
  destruct (Z.ltb_spec r 0); cbn; [done|]. destruct (Z.ltb_spec h 0); cbn; [done|]. done.
Qed.

(** A certificate whose clean message encodes has a vote that encodes. *)
Lemma clean_message_view_ok v code payload d : Message_PayloadNoSig (NewCleanMessage (Some v) code payload) = Ret d -> view_ok v.
Proof.
  unfold Message_PayloadNoSig, encode_val, unsigned, NewCleanMessage. cbn [m_View m_Code m_Msg].
  intros (it & He & _)%outcome_bind_Ret. unfold c_Message, c_iso, c_struct in He. cbn [enc] in He.
  apply outcome_bind_Ret in He as (l & He & _). cbn [f_enc f_cons m_Code m_View] in He.
  apply outcome_bind_Ret in He as (i1 & _ & He). apply outcome_bind_Ret in He as (l1 & He & _).
  apply outcome_bind_Ret in He as (i2 & Hv & _). by eapply encode_View_ok.
Qed.

Lemma encode_vote_total code v h : view_ok v -> exists d, encode_val c_Vote (mkVote code (Some v) h []) = Ret d.
Proof.
  intros [Hr Hh]. destruct v as [r k]. cbn in *. unfold encode_val, c_Vote, c_iso, c_struct, f_cons, c_ptr, c_View, c_big, writeBigInt. cbn.
  destruct (Z.ltb_spec r 0); [lia|]. destruct (Z.ltb_spec k 0); [lia|]. cbn. by eexists.
Qed.

Lemma code_mismatch_range code q : (code = MsgTypePreCommit \/ code = MsgTypeCommit \/ code = MsgTypeDecide) ->
  code_mismatch code q = false -> 0 <= q < 2 ^ 64.
Proof. intros [->|[->| ->]]; unfold code_mismatch; cbn; rewrite ?orb_false_r; intros E%negb_false_iff%Z.eqb_eq; by rewrite E. Qed.

(** The facts behind an accepted certificate of the current view. *)
Record qc_accepted (data : Message) (qc : QuorumCert) (c : Core) : Prop := {
  qa_certified : c_signer c = sg -> certified qc;
  qa_view : exists v, qc_View qc = Some v /\ m_View data = Some v;
  qa_node : exists rs b, c_current c = Some rs /\ node_key (rs_node rs) = Some (qc_ProposedBlock qc, b);
  qa_proposer : proposer c = Ret (qc_Proposer qc);
  qa_code : code_mismatch (m_Code data) (qc_Code qc) = false
}.

Lemma verifyQC_accepted data qc c :
  (m_Code data = MsgTypePreCommit \/ m_Code data = MsgTypeCommit \/ m_Code data = MsgTypeDecide) ->
  qc_HeightU64 qc <> 0 -> verifyQC data (Some qc) c = Ret tt -> qc_accepted data qc c.
Proof.
  intros Hcode Hh Hv. unfold verifyQC in Hv. destruct (qc_View qc) as [qv|] eqn:Eqv; [|done].
  destruct (Z.eqb_spec (qc_HeightU64 qc) 0) as [|_]; [done|].
  apply outcome_bind_Ret in Hv as (? & _ & Hv). apply outcome_bind_Ret in Hv as (? & Hmis%fail_if_Ret & Hv).
  apply outcome_bind_Ret in Hv as (? & _ & Hv).
  assert ((m_Code data =? MsgTypePreCommit) || (m_Code data =? MsgTypeCommit) || (m_Code data =? MsgTypeDecide) = true) as Hcc
    by (destruct Hcode as [->|[->| ->]]; done).
  rewrite Hcc in Hv. apply outcome_bind_Ret in Hv as (? & Hb & Hv).
  apply outcome_bind_Ret in Hb as (dv & Hdv%deref_Ret & Hb).
  apply outcome_bind_Ret in Hb as (? & Hcmp%fail_if_Ret%negb_false_iff%Z.eqb_eq%View_Cmp_eq & Hb). subst dv.
  apply outcome_bind_Ret in Hb as (p & Hp & Hb).
  apply outcome_bind_Ret in Hb as (? & Hpeq%fail_if_Ret%negb_false_iff%Z.eqb_eq & Hb). subst p.
  apply outcome_bind_Ret in Hb as (rs & Hrs%deref_Ret & Hb). destruct (rs_node rs) as [n|] eqn:En; [|done].
  apply outcome_bind_Ret in Hb as (h & (b & _ & _ & Hk)%ProposedBlock_Hash_key & Hn%fail_if_Ret%negb_false_iff%Z.eqb_eq). subst h.
  apply outcome_bind_Ret in Hv as (d0 & Hpay%on_err_Ret & Hv). apply outcome_bind_Ret in Hv as (? & _ & Hv).
  apply outcome_bind_Ret in Hv as (? & _ & Hv).
  constructor; [|by exists qv|exists rs, (Block_Hash b); by rewrite En|done|done].
  intros Hsg. unfold AuthQC in Hv. rewrite Eqv in Hv. cbn [deref mbind outcome_bind] in Hv.
  unfold qc_HeightU64, qc_Height in Hh. rewrite Eqv in Hh. destruct (Z.eqb_spec (u64 (v_Height qv)) 0); [done|].
  pose proof (clean_message_view_ok _ _ _ _ Hpay) as Hvok.
  destruct (encode_vote_total (qc_Code qc) qv (qc_ProposedBlock qc) Hvok) as (d & Hd). unfold certified, qc_vote in *.
  rewrite Eqv in *. rewrite Hd in Hv. split; [|exists d; by rewrite <- Hsg].
  split; [by eapply code_mismatch_range|]. split; [by exists qv|].
  destruct (node_key_named _ _ _ Hk) as (p & blk & E & _). cbn. rewrite E. apply node_hash_ok.
Qed.

Lemma checkView_same_u64 cur v u : checkView cur (Some v) = Ret u -> same_u64 v cur.
Proof.
  unfold checkView, View_Sub. intros Hc.
  assert (i64 (v_Height v - v_Height cur) = 0 /\ i64 (v_Round v - v_Round cur) = 0) as [E1 E2].
  { destruct (Z.ltb_spec (i64 (v_Height v - v_Height cur)) 0); [done|].
    destruct (Z.ltb_spec 1 (i64 (v_Height v - v_Height cur))); [done|].
    destruct (Z.eqb_spec (i64 (v_Height v - v_Height cur)) 1); [done|].
    destruct (Z.ltb_spec (i64 (v_Round v - v_Round cur)) 0); [done|].
    destruct (Z.eqb_spec (i64 (v_Round v - v_Round cur)) 0); [|done]. split; lia. }
  split; by apply i64_eq_u64.
Qed.

Lemma c_checkView_inv v c u rs : c_checkView v c = Ret u -> c_current c = Some rs ->
  exists w, v = Some w /\ same_u64 w (currentView rs).
Proof.
  unfold c_checkView. destruct v as [w|]; [|done]. intros Hv Hc. rewrite Hc in Hv. cbn in Hv.
  exists w. split; [done|]. by eapply checkView_same_u64.
Qed.

(** The proposer is one validator. *)
Lemma IsProposer_proposer addr c p : IsProposer addr (c_valSet c) = true -> proposer c = Ret p -> p = addr.
Proof.
  unfold IsProposer, proposer. intros Hi%bool_decide_eq_true Hp.
  apply outcome_bind_Ret in Hp as (v & Hv%deref_Ret & [= <-]). rewrite Hv in Hi.
  rewrite GetByAddress_snd in Hi. case_decide; [|done]. by injection Hi as ->.
Qed.

(** ** The handlers *)

Lemma proposal_block_locked c rs b lb : proposal_block c rs = Ret (Some b) -> LockedBlock rs = Some lb -> b = lb.
Proof.
  unfold proposal_block. intros Hp Hl. rewrite Hl in Hp. apply outcome_bind_Ret in Hp as (n & _ & Hp).
  destruct (negb _); [done|]. by injection Hp as <-.
Qed.

Lemma sim_sendPrepare a c env : sim a c -> sim a (sendPrepare env c).2.
Proof.
  intros Hs. unfold sendPrepare. apply sim_get. destruct (negb (c_IsProposer c)); [done|].
  apply sim_current; [done|]. intros rs Hc. destruct (negb _); [done|].
  apply sim_lift; [done|]. intros [block|] Hb; [|done].
  assert (exists c1, when (e_now env <? Block_Time block) (emit (ESleepUntil (Block_Time block))) c = (Ret tt, c1) /\
    c_current c1 = c_current c /\ sim a c1) as (c1 & E1 & Hc1 & Hs1).
  { destruct (_ <? _); [|by eexists]. eexists. split_and!; [reflexivity|done|].
    apply sim_effects; [done|]. intros g. by constructor. }
  erewrite bind_Ret by exact E1. apply sim_lift; [done|]. intros qc _. apply sim_or_return; [done|]. intros p _.
  assert (sim a (SetProposedBlock (NewProposedBlock (qc_ProposedBlock qc) (Some block)) c1).2) as Hs2.
  { apply sim_SetProposedBlock; [|done]. intros rs' b lb Hc' [= <-] Hl. rewrite Hc1, Hc in Hc'. injection Hc' as <-.
    by rewrite (proposal_block_locked c rs block lb). }
  apply sim_bind; [done|]. intros [] _. by apply sim_broadcast.
Qed.

Lemma sim_handleNewView a c env data : order_ok (e_order env) -> sim a c -> sim a (handleNewView env data c).2.
Proof.
  intros Ho Hs. unfold handleNewView. apply sim_logger; [done|]. intros _ _. apply sim_lift; [done|]. intros qc _.
  do 3 (apply sim_ask; [done|]; intros [] _).
  apply sim_quiet_bind; [apply respects_wrap, quiet_AddNewViews|done|]. intros _ c1 _ _ Hs1.
  apply sim_current; [done|]. intros rs _. apply sim_get. destruct (_ && _); [|done].
  apply sim_lift; [done|]. intros hq _.
  apply sim_quiet_bind; [by apply quiet_mod_rs|done|]. intros _ c2 _ _ Hs2.
  apply sim_bind; [by apply sim_setCurrentState|]. intros [] _. by apply sim_sendPrepare, sim_setCurrentState.
Qed.

Lemma checkBlock_locked b c u rs lb : checkBlock b c = Ret u -> c_current c = Some rs -> LockedBlock rs = Some lb ->
  Block_Hash lb = Block_Hash b.
Proof.
  unfold checkBlock. intros Hb Hc Hl. rewrite Hc in Hb. cbn [deref mbind outcome_bind] in Hb.
  apply outcome_bind_Ret in Hb as (? & _ & Hb). apply outcome_bind_Ret in Hb as (? & _ & Hb).
  apply outcome_bind_Ret in Hb as (? & _ & Hb). apply outcome_bind_Ret in Hb as (? & _ & Hb). rewrite Hl in Hb.
  apply outcome_bind_Ret in Hb as (? & _ & Hb). apply outcome_bind_Ret in Hb as (? & _ & Hb).
  by apply fail_if_Ret, negb_false_iff, Z.eqb_eq in Hb.
Qed.

Lemma key_locked rs rs' lb : rs_key rs' = rs_key rs -> LockedBlock rs' = Some lb ->
  exists lb', LockedBlock rs = Some lb' /\ Block_Hash lb' = Block_Hash lb.
Proof.
  intros Hk Hl. assert (Block_Hash <$> LockedBlock rs' = Block_Hash <$> LockedBlock rs) as E by exact (f_equal (fun k => k.2) Hk).
  rewrite Hl in E. destruct (LockedBlock rs) as [lb'|]; [|done]. exists lb'. split; [done|]. by apply (inj Some) in E.
Qed.

Lemma sim_handlePrepare a c env data : order_ok (e_order env) -> sim a c -> sim a (handlePrepare env data c).2.
Proof.
  intros Ho Hs. unfold handlePrepare. apply sim_logger; [done|]. intros rs Hc. apply sim_lift; [done|]. intros subject _.
  do 3 (apply sim_ask; [done|]; intros [] _).
  apply sim_lift; [done|]. intros node _. apply sim_lift; [done|]. intros block Hblock%deref_Ret.
  apply sim_ask; [done|]. intros [] Hcheck. apply sim_lift; [done|]. intros [] _.
  apply sim_quiet_bind; [apply quiet_executeBlock|done|]. intros _ c1 _ Hq1 Hs1.
  do 2 (apply sim_ask; [done|]; intros [] _).
  apply sim_get, sim_current; [done|]. intros rs1 Hc1.
  assert (forall b, sim a (when b (sendVote MsgTypePrepareVote) c1).2) as Hs2.
  { intros b. apply sim_when; [done|]. intros _. by apply sim_sendVote. }
  assert (forall b, c_current (when b (sendVote MsgTypePrepareVote) c1).2 = c_current c1) as Hc2.
  { intros []; [apply sendVote_current|done]. }
  apply sim_bind; [done|]. intros [] _. set (c2 := (when _ _ c1).2). assert (sim a c2) as Hs2' by apply Hs2.
  apply sim_get, sim_current; [done|]. intros rs2 Hrs2. apply sim_when; [done|]. intros _.
  assert (sim a (SetProposedBlock node c2).2) as Hs3.
  { apply sim_SetProposedBlock; [|done]. intros rs' b lb Hc' Hb Hl. unfold c2 in Hc'. rewrite Hc2 in Hc'.
    destruct (quiet_current c c1 rs Hq1 Hc) as (rsq & Hcq & Hk). rewrite Hcq in Hc'. injection Hc' as <-.
    destruct (key_locked rs rsq lb Hk Hl) as (lb' & Hl' & <-). rewrite Hblock in Hb. injection Hb as <-.
    by eapply checkBlock_locked. }
  apply sim_bind; [done|]. intros [] _. apply sim_bind; [by apply sim_setCurrentState|]. intros [] _.
  apply sim_sendVote; [done|done|done|]. by apply sim_setCurrentState.
Qed.

Lemma sim_sendQC a c code qc : code <> MsgTypeCommit -> sim a c -> sim a (sendQC code qc c).2.
Proof.
  intros Hn Hs. unfold sendQC. apply sim_logger; [done|]. intros _ _. apply sim_or_return; [done|]. intros p _. by apply sim_broadcast.
Qed.

Lemma sim_sendCommit a c qc : locked c -> sim a c -> sim a (sendCommit qc c).2.
Proof.
  intros Hl Hs. unfold sendCommit, sendQC. apply sim_logger; [done|]. intros _ _. apply sim_or_return; [done|].
  intros p _. by apply sim_broadcast_commit.
Qed.

Lemma messagesToQC_node env code c qc : messagesToQC env code c = Ret qc ->
  exists rs k, c_current c = Some rs /\ node_key (rs_node rs) = Some k.
Proof.
  unfold messagesToQC. intros (rs & Hc%deref_Ret & Hq)%outcome_bind_Ret. do 3 apply outcome_bind_Ret in Hq as (? & _ & Hq).
  apply outcome_bind_Ret in Hq as (v & Hv & Hq). apply outcome_bind_Ret in Hq as (v' & ->%deref_Ret & _).
  apply UnsignedVote_inv in Hv as (h & b & Hk & _). eauto.
Qed.

Lemma sim_handlePrepareVote a c env data : sim a c -> sim a (handlePrepareVote env data c).2.
Proof.
  intros Hs. unfold handlePrepareVote. apply sim_logger; [done|]. intros _ _. apply sim_lift; [done|]. intros v _.
  do 3 (apply sim_ask; [done|]; intros [] _).
  apply sim_quiet_bind; [apply respects_wrap, quiet_AddPrepareVote|done|]. intros _ c1 _ _ Hs1.
  apply sim_current; [done|]. intros rs _. apply sim_get. destruct (_ && _); [|done].
  apply sim_ask; [done|]. intros qc _.
  apply sim_quiet_bind; [apply quiet_acceptPrepareQC|done|]. intros _ c2 _ _ Hs2. by apply sim_sendQC.
Qed.

Lemma sim_handlePreCommit a c env data : sim a c -> sim a (handlePreCommit env data c).2.
Proof.
  intros Hs. unfold handlePreCommit. apply sim_logger; [done|]. intros _ _. apply sim_lift; [done|]. intros qc _.
  do 3 (apply sim_ask; [done|]; intros [] _). apply sim_get, sim_current; [done|]. intros rs _.
  assert (forall b, sim a (when b (sendVote MsgTypePreCommitVote) c).2) as Hs2.
  { intros b. apply sim_when; [done|]. intros _. by apply sim_sendVote. }
  apply sim_bind; [done|]. intros [] _. apply sim_get, sim_current; [done|]. intros rs2 _. apply sim_when; [done|]. intros _.
  apply sim_quiet_bind; [apply quiet_acceptPrepareQC|done|]. intros _ c2 _ _ Hs3. by apply sim_sendVote.
Qed.

Lemma sim_handlePreCommitVote a c env data : sim a c -> sim a (handlePreCommitVote env data c).2.
Proof.
  intros Hs. unfold handlePreCommitVote. apply sim_logger; [done|]. intros _ _. apply sim_lift; [done|]. intros v _.
  do 3 (apply sim_ask; [done|]; intros [] _).
  apply sim_quiet_bind; [apply respects_wrap, quiet_AddPreCommitVote|done|]. intros _ c1 _ _ Hs1.
  apply sim_current; [done|]. intros rs _. apply sim_get. destruct (_ && _); [|done].
  apply sim_ask; [done|]. intros qc (rs1 & k & Hc1 & Hk)%messagesToQC_node.
  apply sim_bind; [by apply sim_acceptLockQC|]. intros [] Hr.
  apply sim_sendCommit; [by eapply acceptLockQC_locked|by apply sim_acceptLockQC].
Qed.

(** An own commit message of the current view is only sent when locked. *)
Definition own_commit_locked (data : Message) (c : Core) : Prop :=
  forall rs w, m_Code data = MsgTypeCommit -> m_Address data = sg_address sg -> c_current c = Some rs ->
    m_View data = Some w -> same_u64 w (currentView rs) -> locked c.

Lemma sim_signer a c : sim a c -> c_signer c = sg.
Proof. by intros (a' & _ & []). Qed.

Lemma qc_height_nonzero a c rs qc w : sim a c -> c_current c = Some rs -> qc_View qc = Some w -> same_u64 w (currentView rs) ->
  qc_HeightU64 qc <> 0.
Proof.
  intros Hs Hc Hw [Hu _]. destruct (sim_rs_facts a c rs Hs Hc) as (Hh & _). unfold qc_HeightU64, qc_Height. rewrite Hw, Hu.
  cbn. rewrite u64_small; lia.
Qed.

Lemma sim_handleCommit a c env data : m_Code data = MsgTypeCommit -> own_commit_locked data c -> sim a c ->
  sim a (handleCommit env data c).2.
Proof.
  intros Hcode Hown Hs. unfold handleCommit. apply sim_logger; [done|]. intros rs Hc. apply sim_lift; [done|]. intros qc _.
  apply sim_ask; [done|]. intros [] Hview. apply sim_ask; [done|]. intros [] Hsrc%fail_if_Ret%negb_false_iff.
  apply sim_ask; [done|]. intros [] Hqc. destruct (c_checkView_inv _ _ _ _ Hview Hc) as (w & Hw & Hsame).
  apply verifyQC_accepted in Hqc as [_ (w' & Ew & Hdv) (rs' & b & Hc' & Hk) Hp _]; [|by auto|by eapply qc_height_nonzero].
  rewrite Hw in Ew. injection Ew as <-. rewrite Hc in Hc'. injection Hc' as <-.
  apply sim_get, sim_current; [done|]. intros rs1 _.
  assert (forall b, (b = true -> c_IsProposer c = true) -> sim a (when b (sendVote MsgTypeCommitVote) c).2) as Hs2.
  { intros bb Hbb. apply sim_when; [done|]. intros Hself%Hbb. apply sim_sendVote; [done|done| |done]. intros _.
    eapply (Hown rs w); try done. rewrite <- (IsProposer_proposer _ _ _ Hsrc Hp), (IsProposer_proposer _ _ _ Hself Hp).
    unfold c_Address. by rewrite (sim_signer a c Hs). }
  set (guard := c_IsProposer c && _). assert (guard = true -> c_IsProposer c = true) as Hg by by intros [??]%andb_true_iff.
  assert (c_current (when guard (sendVote MsgTypeCommitVote) c).2 = Some rs) as Hc2.
  { destruct guard; [|done]. by rewrite <- Hc, <- (sendVote_current MsgTypeCommitVote c). }
  apply sim_bind; [by apply Hs2|]. intros [] _. apply sim_get, sim_current; [by apply Hs2|]. intros rs2 _.
  apply sim_when; [by apply Hs2|]. intros _. apply sim_bind; [by apply sim_acceptLockQC, Hs2|]. intros [] Hr.
  apply sim_sendVote; [done|done| |by apply sim_acceptLockQC, Hs2]. intros _. by eapply acceptLockQC_locked.
Qed.

(** ** Deciding *)

Lemma sealed_node_key p b b' : Block_Hash b = Block_Hash b' ->
  node_key (Some (NewProposedBlock p (Some b))) = node_key (Some (NewProposedBlock p (Some b'))).
Proof. intros E. unfold node_key, node_hash. by rewrite E. Qed.

(** Replacing the block by its sealed form: a quiet update, followed by the
    lock on the sealed block when the replica is locked. *)
Lemma SetSealedBlock_cases env block c rs : c_current c = Some rs ->
  quiet c (SetSealedBlock env block c).2 \/
  exists c2 rs2 rs3 p, quiet c c2 /\ c_current c2 = Some rs2 /\
    (SetSealedBlock env block c).2 = set_c_current (Some rs3) c2 /\
    currentView rs3 = currentView rs2 /\ rs_node rs3 = rs_node rs2 /\
    LockedBlock rs3 = (if rs_proposalLocked rs2 then Some block else None) /\
    node_key (rs_node rs) = node_key (Some (NewProposedBlock p (Some block))).
Proof.
  intros Hc. unfold SetSealedBlock.
  assert (current_rs c = (Ret rs, c)) as E0 by (unfold current_rs, asks; by rewrite Hc).
  erewrite !bind_Ret by exact E0.
  destruct (rs_node rs) as [[parent [b|]]|] eqn:En; [|left; cbn; reflexivity..].
  destruct (Z.eqb_spec (Block_Hash b) (Block_Hash block)) as [Eh|]; cbn [negb]; [|left; cbn; reflexivity].
  set (n := NewProposedBlock parent (Some block)). set (c1 := set_c_current (Some (set_rs_node (Some n) rs)) c).
  assert (mod_rs (set_rs_node (Some n)) c = (Ret tt, c1)) as E1 by (unfold mod_rs; by erewrite bind_Ret by exact E0).
  assert (quiet c c1) as Hq1.
  { constructor; try done. cbn [c_current c1 set_c_current]. rewrite Hc. unfold fmap, option_fmap, option_map. f_equal.
    unfold rs_key. f_equal. f_equal. rewrite En. symmetry. by apply sealed_node_key. }
  erewrite !bind_Ret by exact E1.
  pose proof (quiet_store env c_ProposedBlock nodeKey n ltac:(done) c1) as Hq2.
  change (storeNode env n) with (store env c_ProposedBlock nodeKey n).
  destruct (store env c_ProposedBlock nodeKey n c1) as [o c2] eqn:E2. cbn in Hq2.
  assert (quiet c c2) as Hq by by etrans.
  destruct o as [[]|e|]; [|left; unfold mbind, M_bind; by rewrite E2..].
  erewrite !bind_Ret by exact E2. destruct (quiet_current c c2 rs Hq Hc) as (rs2 & Hc2 & _).
  right. unfold mod_rs, current_rs, asks, mbind, M_bind. rewrite Hc2. cbn [deref snd modify].
  eexists c2, rs2, _, parent. split_and!; [done|done|reflexivity|..|by apply sealed_node_key].
  all: destruct (rs_executed rs2) as [[[xb|] st]|]; [destruct (_ =? _)|..]; done.
Qed.

Lemma sim_SetSealedBlock a c env block : sim a c -> sim a (SetSealedBlock env block c).2.
Proof.
  intros Hs. destruct (c_current c) as [rs|] eqn:Hc; [|unfold SetSealedBlock; apply sim_current; [done|congruence]].
  destruct (SetSealedBlock_cases env block c rs Hc) as [Hq|(c2 & rs2 & rs3 & p & Hq & Hc2 & -> & Hv3 & Hn3 & Hl3 & Hk)];
    [by eapply sim_quiet|].
  pose proof (sim_quiet a c c2 Hq Hs) as Hs2. destruct (quiet_current c c2 rs Hq Hc) as (rs2' & Hc2' & Hk2).
  rewrite Hc2 in Hc2'. injection Hc2' as <-. destruct (rs_proposalLocked rs2) eqn:El.
  - eapply (sim_set_locked a c2 rs2 rs3 _); [done|done| | |by apply (f_equal v_Height) in Hv3].
    + rewrite <- Hk. exact (f_equal (fun k => k.1.2) Hk2).
    + unfold rs_key. by rewrite Hv3, Hn3, Hl3.
  - eapply (sim_quiet a c2); [|done]. constructor; try done. cbn [c_current set_c_current]. rewrite Hc2.
    unfold fmap, option_fmap, option_map. f_equal. unfold rs_key. rewrite Hv3, Hn3, Hl3. unfold LockedBlock. by rewrite El.
Qed.

(** View and node of two states are the same. *)
Definition same_node (c c' : Core) : Prop :=
  (fun rs => (rs_key rs).1) <$> c_current c' = (fun rs => (rs_key rs).1) <$> c_current c.

Lemma quiet_same_node c c' : quiet c c' -> same_node c c'.
Proof.
  intros Hq. pose proof (q_key _ _ Hq) as Hk. unfold same_node.
  destruct (c_current c) as [rs|], (c_current c') as [rs'|]; try done.
  apply (inj Some) in Hk. change (Some (rs_key rs').1 = Some (rs_key rs).1). by rewrite Hk.
Qed.

Lemma SetSealedBlock_same_node env block c : same_node c (SetSealedBlock env block c).2.
Proof.
  destruct (c_current c) as [rs|] eqn:Hc.
  - destruct (SetSealedBlock_cases env block c rs Hc) as [Hq|(c2 & rs2 & rs3 & p & Hq & Hc2 & -> & Hv3 & Hn3 & _)];
      [by apply quiet_same_node|].
    apply quiet_same_node in Hq. unfold same_node in *. rewrite <- Hq. cbn [c_current set_c_current]. rewrite Hc2.
    change (Some (rs_key rs3).1 = Some (rs_key rs2).1). unfold rs_key. cbn [fst]. by rewrite Hv3, Hn3.
  - unfold SetSealedBlock, current_rs, asks, mbind, M_bind, same_node. by rewrite Hc; cbn; rewrite Hc.
Qed.

(** A certificate that decides the current node. *)
Definition decision (qc : QuorumCert) (c : Core) : Prop :=
  certified qc /\ qc_Code qc = MsgTypeCommitVote /\
  exists rs b w, c_current c = Some rs /\ node_key (rs_node rs) = Some (qc_ProposedBlock qc, b) /\
    qc_View qc = Some w /\ same_u64 w (currentView rs).

Lemma decision_same_node qc c c' : same_node c c' -> decision qc c -> decision qc c'.
Proof.
  intros Hn (Hq & Hcode & rs & b & w & Hc & Hk & Hw & Hs). split; [done|]. split; [done|]. unfold same_node in Hn.
  rewrite Hc in Hn. destruct (c_current c') as [rs'|]; [|done]. apply (inj Some) in Hn.
  assert (currentView rs' = currentView rs) as Ev by exact (f_equal fst Hn).
  assert (node_key (rs_node rs') = node_key (rs_node rs)) as En by exact (f_equal snd Hn).
  exists rs', b, w. rewrite Ev, En. done.
Qed.

Lemma sim_emit_commit a c rs qc x b lb : sim a c -> decision qc c -> c_current c = Some rs -> LockedBlock rs = Some lb ->
  xb_Block x = Some b -> Block_Hash b = Block_Hash lb -> sim a (set_c_out (c_out c ++ [ECommit (rs_height rs) (rs_node rs) x]) c).
Proof.
  intros Hs (Hq & Hcode & rs' & b' & w & Hc' & Hn & Hw & Hsame) Hc Hl Hx Hb. rewrite Hc in Hc'. injection Hc' as <-.
  destruct (sim_rs_facts a c rs Hs Hc) as (_ & _ & Hlock). destruct (Hlock lb Hl) as (h & Hk). rewrite Hn in Hk. injection Hk as <- ->.
  eapply sim_step; [done|]. intros [v n l g] Hf. pose proof (rf_current _ _ Hf) as Hrs. rewrite Hc in Hrs.
  destruct Hrs as [_ [= Ev En El]]. rewrite Hn in En. rewrite Hl in El. cbn in En, El. subst n l.
  assert (astep certified (mkReplica v (Some (qc_ProposedBlock qc, Block_Hash lb)) (Some (Block_Hash lb)) g)
    (mkReplica v (Some (qc_ProposedBlock qc, Block_Hash lb)) (Some (Block_Hash lb)) (g ++ [ADecide qc v (Block_Hash lb)]))) as Ha.
  { eapply as_decide; try done. by rewrite <- Ev. }
  eexists. split; [exact Ha|]. apply refines_log; [done|by eapply astep_invariant, rf_inv| |].
  - constructor; [|done]. exists b, qc, v. split_and!; [done| |by rewrite <- Ev]. rewrite Hb. apply elem_of_snoc. by right.
  - apply Forall_singleton. intros n' b' [= <- <-]. eexists. split; [by left|done].
Qed.

(** The executed block that is handed over is the decided one. *)
Lemma commit_executed env sealed c rs c1 : c_current c = Some rs ->
  when (negb (executed_matches sealed rs))
    (if c_IsProposer c then mod_rs (set_rs_executed (Some (mkExecuted (Some sealed) 0)))
     else executed ← lift (on_err (e_ExecuteBlock env sealed) (ErrFmt "failed to execute block %v, err: %v"));
          mod_rs (set_rs_executed (Some (mkExecuted (Some sealed) (xb_State executed))))) c = (Ret tt, c1) ->
  quiet c c1 /\ exists rs1 x b, c_current c1 = Some rs1 /\ rs_key rs1 = rs_key rs /\ rs_executed rs1 = Some x /\
    xb_Block x = Some b /\ Block_Hash b = Block_Hash sealed.
Proof.
  intros Hc Hr.
  assert (forall x, mod_rs (set_rs_executed (Some x)) c = (Ret tt, set_c_current (Some (set_rs_executed (Some x) rs)) c)) as Em.
  { intros x. unfold mod_rs, current_rs, asks, mbind, M_bind. by rewrite Hc. }
  assert (forall x, quiet c (set_c_current (Some (set_rs_executed (Some x) rs)) c)) as Hq.
  { intros x. pose proof (quiet_mod_rs (set_rs_executed (Some x)) ltac:(done) c) as Hq. by rewrite Em in Hq. }
  destruct (executed_matches sealed rs) eqn:Ex; cbn [negb when] in Hr.
  - injection Hr as <-. split; [reflexivity|]. unfold executed_matches in Ex.
    destruct (rs_executed rs) as [[[b|] st]|] eqn:Er; [|done..]. apply Z.eqb_eq in Ex. exists rs. eauto 10.
  - destruct (c_IsProposer c).
    + rewrite Em in Hr. injection Hr as <-. split; [apply Hq|]. eexists _, _, sealed. split_and!; try done.
    + unfold lift, mbind, M_bind in Hr. destruct (on_err _ _) as [x| |]; [|done..]. rewrite Em in Hr. injection Hr as <-.
      split; [apply Hq|]. eexists _, _, sealed. split_and!; try done.
Qed.

Lemma quiet_commit_execution env sealed c0 rs : respects quiet (when (negb (executed_matches sealed rs))
    (if c_IsProposer c0 then mod_rs (set_rs_executed (Some (mkExecuted (Some sealed) 0)))
     else executed ← lift (on_err (e_ExecuteBlock env sealed) (ErrFmt "failed to execute block %v, err: %v"));
          mod_rs (set_rs_executed (Some (mkExecuted (Some sealed) (xb_State executed)))))).
Proof. apply respects_when; [apply _|]. destruct (c_IsProposer c0); auto with quiet. Qed.

Lemma sim_commit a c env qc sealed : sim a c -> decision qc c -> sim a (commit env sealed c).2.
Proof.
  intros Hs Hd. unfold commit. apply sim_current; [done|]. intros rs Hc.
  destruct (LockedBlock rs) as [lb|] eqn:Hl; [|done].
  destruct (Z.eqb_spec (Block_Hash lb) (Block_Hash sealed)) as [Eh|]; cbn [negb]; [|done]. apply sim_get.
  apply sim_quiet_bind; [apply quiet_commit_execution|done|]. intros [] c1 Hr _ Hs1.
  destruct (commit_executed env sealed c rs c1 Hc Hr) as (Hq & rs1 & x & b & Hc1 & Hk1 & Hx & Hb & Hbh).
  apply sim_current; [done|]. intros rs1' Hc1'. rewrite Hc1 in Hc1'. injection Hc1' as <-.
  apply sim_lift; [done|]. intros x' Hx'%deref_Ret. rewrite Hx in Hx'. injection Hx' as <-.
  destruct (LockedBlock rs1) as [lb1|] eqn:Hl1.
  - destruct (key_locked rs rs1 lb1 Hk1 Hl1) as (lb' & Hl' & Eh'). rewrite Hl in Hl'. injection Hl' as <-.
    assert (sim a (set_c_out (c_out c1 ++ [ECommit (rs_height rs1) (rs_node rs1) x]) c1)) as Hs2.
    { eapply sim_emit_commit; [done| |done|exact Hl1|exact Hb|congruence].
      eapply decision_same_node; [by apply quiet_same_node|done]. }
    apply sim_bind; [exact Hs2|]. intros [] _. exact Hs2.
  - exfalso. assert (Block_Hash <$> LockedBlock rs1 = Block_Hash <$> LockedBlock rs) as E by exact (f_equal (fun k => k.2) Hk1).
    by rewrite Hl, Hl1 in E.
Qed.

Lemma sim_acceptCommitQC a c env blk qc : sim a c -> sim a (acceptCommitQC env blk qc c).2.
Proof.
  intros Hs. unfold acceptCommitQC. apply sim_bind; [by apply sim_SetSealedBlock|]. intros [] _.
  apply sim_quiet_bind; [apply quiet_SetCommittedQC|by apply sim_SetSealedBlock|]. intros _ c1 _ _ Hs1.
  apply sim_quiet_end; [by apply quiet_mod_rs|done].
Qed.

#[export] Instance same_node_preorder : PreOrder same_node.
Proof. split; unfold same_node; [done|]. intros c1 c2 c3 E1 E2. congruence. Qed.

Lemma acceptCommitQC_same_node env blk qc c : same_node c (acceptCommitQC env blk qc c).2.
Proof.
  assert (forall A (m : M Core A), respects quiet m -> respects same_node m) as Hr.
  { intros A m Hm c'. apply quiet_same_node, Hm. }
  revert c. change (respects same_node (acceptCommitQC env blk qc)). unfold acceptCommitQC.
  apply respects_bind; [apply _|intros c; apply SetSealedBlock_same_node|intros _].
  apply respects_bind; [apply _|apply Hr, quiet_SetCommittedQC|intros _]. by apply Hr, quiet_mod_rs.
Qed.

Lemma same_node_current c c' : c_current c' = c_current c -> same_node c c'.
Proof. unfold same_node. by intros ->. Qed.

Lemma commit_same_node env sealed c : same_node c (commit env sealed c).2.
Proof.
  assert (forall A (m : M Core A), respects quiet m -> respects same_node m) as Hr.
  { intros A m Hm c'. apply quiet_same_node, Hm. }
  revert c. change (respects same_node (commit env sealed)). unfold commit.
  apply respects_bind; [apply _|apply Hr, quiet_current_rs|intros rs].
  destruct (LockedBlock rs); [|apply respects_throw, _]. destruct (negb _); [apply respects_throw, _|].
  apply respects_bind; [apply _|apply respects_get, _|intros c0].
  apply respects_bind; [apply _|apply Hr, quiet_commit_execution|intros _].
  apply respects_bind; [apply _|apply Hr, quiet_current_rs|intros rs1].
  apply respects_bind; [apply _|apply Hr, quiet_lift|intros x].
  apply respects_bind; [apply _|by intros c; apply same_node_current|intros _]. apply Hr, quiet_lift.
Qed.

Lemma sim_handleCommitVote a c env data : sim a c -> sim a (handleCommitVote env data c).2.
Proof.
  intros Hs. unfold handleCommitVote. apply sim_logger; [done|]. intros _ _. apply sim_lift; [done|]. intros v _.
  do 3 (apply sim_ask; [done|]; intros [] _). apply sim_current; [done|]. intros rs _.
  destruct (LockedBlock rs) as [lb|]; [|done].
  apply sim_quiet_bind; [apply respects_wrap, quiet_AddCommitVote|done|]. intros _ c1 _ _ Hs1.
  apply sim_current; [done|]. intros rs1 _. apply sim_get. destruct (_ && _); [|done].
  apply sim_ask; [done|]. intros qc _. apply sim_lift; [done|]. intros sealed _.
  apply sim_bind; [by apply sim_acceptCommitQC|]. intros [] _. unfold sendDecide.
  apply sim_logger; [by apply sim_acceptCommitQC|]. intros _ _. apply sim_or_return; [by apply sim_acceptCommitQC|].
  intros p _. by apply sim_broadcast, sim_acceptCommitQC.
Qed.

Lemma code_mismatch_decide q : code_mismatch MsgTypeDecide q = false -> q = MsgTypeCommitVote.
Proof. unfold code_mismatch. cbn. intros E%negb_false_iff. by apply Z.eqb_eq. Qed.

Lemma sim_handleDecide a c env data : env_ok env -> m_Code data = MsgTypeDecide -> decide_checked data -> sim a c ->
  sim a (handleDecide env data c).2.
Proof.
  intros Ho Hcode Hdc Hs. unfold handleDecide. apply sim_logger; [done|]. intros rs Hc.
  apply sim_lift; [done|]. intros dip Hdip%on_err_Ret. apply sim_ask; [done|]. intros [] Hview.
  apply sim_ask; [done|]. intros [] _. apply sim_ask; [done|]. intros [] Hqc.
  apply sim_lift; [done|]. intros qc Hdqc%deref_Ret. rewrite Hdqc in Hqc. apply sim_ask; [done|]. intros lb _.
  destruct (c_checkView_inv _ _ _ _ Hview Hc) as (w & Hw & Hsame).
  apply verifyQC_accepted in Hqc as [Hcert (w' & Ew & Hdv) (rs' & b & Hc' & Hk) _ Hmis]; [|by auto|by eapply Hdc].
  rewrite Hw in Hdv. injection Hdv as <-. rewrite Hc in Hc'. injection Hc' as <-.
  assert (decision qc c) as Hd.
  { split; [by eapply Hcert, sim_signer|]. split; [apply code_mismatch_decide; by rewrite <- Hcode|].
    exists rs, b, w. done. }
  apply sim_get, sim_current; [done|]. intros rs1 _.
  set (guard := c_IsProposer c && _).
  assert (sim a (when guard (commit env lb) c).2) as Hs2 by (apply sim_when; [done|]; intros _; by eapply sim_commit).
  assert (same_node c (when guard (commit env lb) c).2) as Hn2 by (destruct guard; [apply commit_same_node|reflexivity]).
  apply sim_bind; [done|]. intros [] _. set (c2 := (when guard _ c).2) in *.
  apply sim_get, sim_current; [done|]. intros rs2 _.
  assert (forall g, sim a (when g (sealedBlock ← lift (e_SealBlock env lb qc); _ ← acceptCommitQC env sealedBlock qc; commit env sealedBlock) c2).2) as Hs3.
  { intros g. apply sim_when; [done|]. intros _. apply sim_lift; [done|]. intros sealed _.
    apply sim_bind; [by apply sim_acceptCommitQC|]. intros [] _. eapply (sim_commit _ _ _ qc); [by apply sim_acceptCommitQC|].
    eapply decision_same_node; [|exact Hd]. etrans; [exact Hn2|]. apply acceptCommitQC_same_node. }
  apply sim_bind; [apply Hs3|]. intros [] _. apply sim_startNewRound; [done|apply Hs3|by left].
Qed.

Lemma sim_handleFinalCommitted a c env h : env_ok env -> sim a c -> sim a (handleFinalCommitted env h c).2.
Proof.
  intros Ho Hs. unfold handleFinalCommitted. apply sim_logger; [done|]. intros _ _. apply sim_lift; [done|]. intros n _.
  apply sim_current; [done|]. intros rs _. apply sim_when; [done|]. intros _. apply sim_startNewRound; [done|done|by left].
Qed.

Lemma rs_key_SetPendingRequest r rs : rs_key (SetPendingRequest r rs) = rs_key rs.
Proof. unfold SetPendingRequest. by destruct (rs_pendingRequest rs). Qed.

Lemma sim_handleRequest a c env r : sim a c -> sim a (handleRequest env r c).2.
Proof.
  intros Hs. unfold handleRequest. apply sim_logger; [done|]. intros _ _. apply sim_get.
  assert (forall m : M Core unit, respects quiet m -> sim a (m c).2) as Hq by (intros m Hm; by apply sim_quiet_end).
  destruct (checkRequestMsg r c) as [u|e|]; [|apply sim_quiet_bind; [apply respects_when; [apply _|apply quiet_storeRequestMsg]|done|by intros]|done].
  apply sim_current; [done|]. intros rs _. destruct (rs_state rs =? StateAcceptRequest); [by apply Hq, quiet_storeRequestMsg|].
  destruct (rs_state rs =? StateHighQC).
  - apply sim_lift; [done|]. intros stale _. apply sim_when; [done|]. intros _.
    apply sim_quiet_bind; [apply quiet_mod_rs, rs_key_SetPendingRequest|done|]. intros _ c1 _ _ Hs1. by apply sim_sendPrepare.
  - apply sim_when; [done|]. intros _. apply Hq, quiet_mod_rs, rs_key_SetPendingRequest.
Qed.

(** ** Events *)

(** What reaches a handler: a message of its own is one it has sent, and a
    decide message carries a certificate that is checked. *)
Definition message_ok_for (c : Core) (m : Message) : Prop :=
  decide_checked m /\
  (m_Address m = sg_address sg -> exists m0, m_Code m0 = m_Code m /\ m_View m0 = m_View m /\
     ((exists p, EBroadcast m0 p ∈ c_out c) \/ (exists t p, EUnicast t m0 p ∈ c_out c))).

Lemma own_commit_locked_sim a c m : sim a c -> message_ok_for c m -> own_commit_locked m c.
Proof.
  intros ([v n l g] & _ & Hf) [_ Hown] rs w Hcode Haddr Hc Hv Hsame.
  destruct (Hown Haddr) as (m0 & E1 & E2 & Hin). pose proof (rf_log _ _ Hf) as Hl. rewrite Forall_forall in Hl.
  destruct Hin as [(p & Hin%Hl)|(t & p & Hin%Hl)]; cbn in Hin; [|congruence].
  destruct Hin as (w' & Hw' & Hlead); [congruence|]. assert (w' = w) as -> by congruence.
  pose proof (rf_inv _ _ Hf) as Hi. pose proof (rf_current _ _ Hf) as Hk. rewrite Hc in Hk. destruct Hk as [_ [= Ev En El]].
  destruct (pi_past _ _ Hi _ Hlead) as [_ Hr]. rewrite Ev in Hsame.
  assert (w = v) as -> by (apply same_u64_range; [exact Hr|apply Hi|exact Hsame]).
  destruct (pi_lead _ _ Hi v Hlead eq_refl) as (b & Hb). cbn in Hb. exists rs. split; [done|].
  destruct (LockedBlock rs); [by eexists|]. cbn in El. congruence.
Qed.

Lemma sim_dispatch a c env m : env_ok env -> message_ok_for c m -> sim a c -> sim a (dispatch env m c).2.
Proof.
  intros Ho Hm Hs. unfold dispatch. pose proof (eo_order _ Ho) as Hoo.
  destruct (Z.eqb_spec (m_Code m) MsgTypeNewView); [by apply sim_handleNewView|].
  destruct (Z.eqb_spec (m_Code m) MsgTypePrepare); [by apply sim_handlePrepare|].
  destruct (Z.eqb_spec (m_Code m) MsgTypePrepareVote); [by apply sim_handlePrepareVote|].
  destruct (Z.eqb_spec (m_Code m) MsgTypePreCommit); [by apply sim_handlePreCommit|].
  destruct (Z.eqb_spec (m_Code m) MsgTypePreCommitVote); [by apply sim_handlePreCommitVote|].
  destruct (Z.eqb_spec (m_Code m) MsgTypeCommit); [apply sim_handleCommit; [done|by eapply own_commit_locked_sim|done]|].
  destruct (Z.eqb_spec (m_Code m) MsgTypeCommitVote); [by apply sim_handleCommitVote|].
  destruct (Z.eqb_spec (m_Code m) MsgTypeDecide); [apply sim_handleDecide; [done|done|apply Hm|done]|done].
Qed.

Lemma sim_handleCheckedMsg a c env m : env_ok env -> message_ok_for c m -> sim a c -> sim a (handleCheckedMsg env m c).2.
Proof.
  intros Ho Hm Hs. unfold handleCheckedMsg. destruct (c_current c); [|done].
  pose proof (sim_dispatch a c env m Ho Hm Hs) as Hd. destruct (dispatch env m c) as [[u|e|] c1]; cbn in Hd |- *; [done| |done].
  destruct (decide (e = ErrFutureMessage)); [|done].
  assert (sim a (storeBacklog m c1).2) as Hs1.
  { apply sim_storeBacklog; [|done]. destruct (decide (m_Address m = sg_address sg)); [by right|left]. by split; [|apply Hm]. }
  apply sim_bind; [done|]. by intros [] _.
Qed.

Definition event_ok (c : Core) (ev : Event) : Prop :=
  match ev with
  | MessageEvent src payload => forall m, FromPayload src payload (Some (checkValidatorSignature c)) = Ret m -> message_ok_for c m
  | BacklogEvent src m => EPostBacklog src m ∈ c_out c
  | _ => True
  end.

Lemma handleEvent_sim a c env ev : env_ok env -> event_ok c ev -> sim a c -> sim a (handleEvent env ev c).2.
Proof.
  intros Ho He Hs. unfold handleEvent.
  assert (forall m : M Core unit, sim a (m c).2 -> sim a (ignore m c).2) as Hi.
  { intros m. unfold ignore. by destruct (m c) as [[]]. }
  apply Hi. destruct ev as [b|src p|src m| |h].
  - by apply sim_handleRequest.
  - unfold handleMsg. apply sim_get, sim_lift; [done|]. intros m Hm%on_err_Ret. destruct (GetByAddress src (c_valSet c)) as [i o].
    destruct (_ || _); [done|]. apply sim_handleCheckedMsg; [done|by apply He|done].
  - apply sim_handleCheckedMsg; [done| |done]. destruct Hs as (a' & _ & Hf). pose proof (rf_log _ _ Hf) as Hl.
    rewrite Forall_forall in Hl. apply Hl in He as [Hne Hd]. split; [exact Hd|]. by intros.
  - unfold handleTimeoutMsg. apply sim_current; [done|]. intros rs Hc. apply sim_startNewRound; [done|done|]. right. eauto.
  - by apply sim_handleFinalCommitted.
Qed.

(** ** Runs *)

(** The states a replica reaches: it starts on a database that holds no view,
    with nothing sent, and then handles events one by one. *)
Inductive reach : Core -> Prop :=
| reach_start env db timeout vs : env_ok env -> (forall d, db = Some d -> d !! viewKey = None) ->
    reach (Core_Start env (Core_New db timeout sg vs)).2
| reach_event c env ev : reach c -> env_ok env -> event_ok c ev -> reach (handleEvent env ev c).2.

Lemma refines_new db timeout vs : (forall d, db = Some d -> d !! viewKey = None) -> refines (Core_New db timeout sg vs) a_init.
Proof.
  intros Hd. constructor; try done. apply a_init_ok.
Qed.

Lemma reach_sim c : reach c -> sim a_init c.
Proof.
  induction 1 as [env db timeout vs He Hd|c env ev _ IH He Hev].
  - unfold Core_Start. apply sim_bind; [|intros [] _; apply sim_startNewRound; [done| |by left]].
    + exists a_init. split; [done|]. pose proof (refines_new db timeout vs Hd) as []. by constructor.
    + exists a_init. split; [done|]. pose proof (refines_new db timeout vs Hd) as []. by constructor.
  - by apply handleEvent_sim.
Qed.

End Refinement.
