(* ===== verification/Progress.v ===== *)
(** * Handlers do not panic

    A nil dereference kills the process, so what a peer can send must never
    lead to one.  [core_ok] collects what keeps the engine's pointers valid:
    there is a current round with a proposer, the blocks and nodes at hand are
    complete, the collected messages decode, the leader in [StateHighQC] has a
    high certificate, and the queues are heaps.  Every handler preserves it and
    does not panic, for any message whatever, provided the surroundings do not
    panic themselves ([env_total]).  [runs m Q c] states both at once; the
    rules for it follow the monad's constructions. *)
From Stdlib Require Import ZArith Lia Strings.Byte.
From stdpp Require Import base list option strings gmap.
From S2P Require Import Prelude Errors Rlp Codec Common Validator Block Types Signer Prque MessageSet Backlog RoundState Core Refinement.
Open Scope Z_scope.

Section Progress.
Context `{Keccak} `{Crypto}.

(** ** What the surroundings promise *)

(** The cryptographic library returns errors and does not panic. *)
Record crypto_total : Prop := {
  ct_sign d k : safe (ecdsa_Sign d k);
  ct_pub d s : safe (SigToPub d s);
  ct_share i d : safe (tbls_Sign i d);
  ct_recover p d l t n : safe (tbls_Recover p d l t n);
  ct_verify p d s : safe (bls_Verify p d s)
}.

Definition has_number (b : Block) : Prop := exists n, hdr_Number (b_header b) = Some n.

(** The chain's blocks have numbers and its methods do not panic; writing to
    the database succeeds. *)
Record env_total (env : Env) : Prop := {
  et_order : order_ok (e_order env);
  et_last b a : e_LastProposal env = (Some b, a) -> exists n, hdr_Number (b_header b) = Some n /\ 0 <= n;
  et_verify b : safe (e_Verify env b);
  et_execute b : safe (e_ExecuteBlock env b);
  et_seal b q : safe (e_SealBlock env b q);
  et_sealed b q b' : has_number b -> e_SealBlock env b q = Ret b' -> has_number b';
  et_executed b x b' : has_number b -> e_ExecuteBlock env b = Ret x -> xb_Block x = Some b' -> has_number b';
  et_commit x : (forall b, xb_Block x = Some b -> has_number b) -> safe (e_Commit env x);
  et_put k v : e_put env k v = Ret tt
}.

(** ** The invariant *)

Definition node_ok (n : ProposedBlock) : Prop := exists b, pb_Block n = Some b /\ has_number b.
Definition request_ok (r : Request) : Prop := exists b, req_Block r = Some b /\ has_number b.
Definition decodes {A} (cd : codec A) (ms : MessageSet) : Prop :=
  map_Forall (fun _ m => exists a, Message_Decode cd m = Ret a) (ms_msgs ms).

Record rs_ok (rs : roundState) : Prop := {
  ro_last : has_number (rs_lastChainedBlock rs);
  ro_node n : rs_node rs = Some n -> node_ok n;
  ro_locked b : rs_lockedBlock rs = Some b -> has_number b;
  ro_pending r : rs_pendingRequest rs = Some r -> request_ok r;
  ro_newViews : decodes c_QuorumCert (rs_newViews rs);
  ro_prepareVotes : decodes c_Vote (rs_prepareVotes rs);
  ro_preCommitVotes : decodes c_Vote (rs_preCommitVotes rs);
  ro_commitVotes : decodes c_Vote (rs_commitVotes rs);
  ro_lockQC q : rs_lockQC rs = Some q -> is_Some (qc_View q);
  ro_executed x b : rs_executed rs = Some x -> xb_Block x = Some b -> has_number b
}.

(** A set under a rotating policy, with its proposer chosen. *)
Record valset_live (vs : defaultSet) : Prop := {
  vl_policy : vs_policy vs <> VRF;
  vl_members : vs_validators vs <> [];
  vl_proposer : is_Some (vs_proposer vs)
}.

Definition requests_ok (q : Prque Request) : Prop := exists l, pq_rel q l /\ Forall (fun x => request_ok (it_value x)) l.
Definition backlogs_ok (b : backlog) : Prop := map_Forall (fun _ q => exists l, pq_rel (A:=Message) q l) b.

(** What is posted can be handled, what is committed has a number. *)
Definition effect_total (e : Effect) : Prop :=
  match e with
  | EPostRequest b => has_number b
  | EPostBacklog _ m => is_Some (m_View m)
  | ECommit _ _ x => forall b, xb_Block x = Some b -> has_number b
  | _ => True
  end.

Record core_ok (c : Core) : Prop := {
  co_valset : valset_live (c_valSet c);
  co_requests : requests_ok (c_pendingRequests c);
  co_backlogs : backlogs_ok (c_backlogs c);
  co_out : Forall effect_total (c_out c);
  co_current : exists rs, c_current c = Some rs /\ rs_ok rs /\
    (c_IsProposer c = true -> rs_state rs = StateHighQC -> is_Some (rs_highQC rs))
}.

(** ** Runs without panics *)

Definition runs {A} (m : M Core A) (Q : A -> Core -> Prop) (c : Core) : Prop :=
  match m c with (Ret a, c') => Q a c' | (Err _, c') => core_ok c' | (Panic, _) => False end.

Lemma runs_bind {A B} (m : M Core A) (k : A -> M Core B) Q c :
  runs m (fun a => runs (k a) Q) c -> runs (m ≫= k) Q c.
Proof. unfold runs, mbind, M_bind. by destruct (m c) as [[a|e|] c']. Qed.

Lemma runs_mono {A} (m : M Core A) (Q Q' : A -> Core -> Prop) c :
  runs m Q c -> (forall a c', Q a c' -> Q' a c') -> runs m Q' c.
Proof. unfold runs. intros Hm HQ. destruct (m c) as [[a|e|] c']; auto. Qed.

Lemma runs_ret {A} (a : A) (Q : A -> Core -> Prop) c : Q a c -> runs (mret a) Q c.
Proof. done. Qed.

Lemma runs_throw {A} e (Q : A -> Core -> Prop) c : core_ok c -> runs (throw e) Q c.
Proof. done. Qed.

Lemma runs_get Q c : Q c c -> runs get Q c.
Proof. done. Qed.

Lemma runs_asks {A} (f : Core -> outcome A) (Q : A -> Core -> Prop) c :
  core_ok c -> safe (f c) -> (forall a, f c = Ret a -> Q a c) -> runs (asks f) Q c.
Proof. unfold runs, asks, safe. intros Hc Hs HQ. destruct (f c); auto. Qed.

Lemma runs_lift {A} (o : outcome A) (Q : A -> Core -> Prop) c :
  core_ok c -> safe o -> (forall a, o = Ret a -> Q a c) -> runs (lift o) Q c.
Proof. unfold runs, lift, safe. intros Hc Hs HQ. destruct o; auto. Qed.

Lemma runs_current Q c rs : c_current c = Some rs -> Q rs c -> runs current_rs Q c.
Proof. unfold runs, current_rs, asks. by intros ->. Qed.

Lemma runs_newLogger (Q : unit -> Core -> Prop) c rs : c_current c = Some rs -> Q tt c -> runs newLogger Q c.
Proof. intros Hc HQ. apply runs_bind. by eapply runs_current. Qed.

Lemma runs_wrap {A} (m : M Core A) e Q c : runs m Q c -> runs (wrap m e) Q c.
Proof. unfold runs, wrap. by destruct (m c) as [[]]. Qed.

Lemma runs_when b (m : M Core unit) Q c : (b = true -> runs m Q c) -> (b = false -> Q tt c) -> runs (when b m) Q c.
Proof. destruct b; cbn; auto. Qed.

Lemma runs_modify f (Q : unit -> Core -> Prop) c : Q tt (f c) -> runs (modify f) Q c.
Proof. done. Qed.

Lemma runs_or_return {A} (o : outcome A) k (Q : unit -> Core -> Prop) c :
  safe o -> Q tt c -> (forall a, o = Ret a -> runs (k a) Q c) -> runs (or_return o k) Q c.
Proof. unfold safe. destruct o; cbn; auto. Qed.

Lemma runs_mod_rs f (Q : unit -> Core -> Prop) c rs : c_current c = Some rs ->
  Q tt (set_c_current (Some (f rs)) c) -> runs (mod_rs f) Q c.
Proof. intros Hc HQ. apply runs_bind. eapply runs_current; [done|]. by apply runs_modify. Qed.

(** ** Updates that keep the invariant *)

Lemma core_ok_same c c' : c_valSet c' = c_valSet c -> c_pendingRequests c' = c_pendingRequests c ->
  c_backlogs c' = c_backlogs c -> c_current c' = c_current c -> c_signer c' = c_signer c -> Forall effect_total (c_out c') -> core_ok c -> core_ok c'.
Proof.
  intros Hv Hr Hb Hc Hs Ho [Ov Or Ob _ Oc]. constructor; [by rewrite Hv|by rewrite Hr|by rewrite Hb|done|].
  unfold c_IsProposer, c_Address in *. by rewrite Hc, Hv, Hs.
Qed.

Lemma core_ok_out es c : Forall effect_total es -> core_ok c -> core_ok (set_c_out es c).
Proof. intros He. by apply core_ok_same. Qed.

Lemma effects_snoc c e : core_ok c -> effect_total e -> Forall effect_total (c_out c ++ [e]).
Proof. intros Hc He. apply Forall_app. split; [apply Hc|by constructor]. Qed.

Lemma core_ok_append es c : Forall effect_total es -> core_ok c -> core_ok (set_c_out (c_out c ++ es) c).
Proof. intros He Hc. apply core_ok_out; [|done]. apply Forall_app. split; [apply Hc|done]. Qed.

Lemma core_ok_db db c : core_ok c -> core_ok (set_c_db db c).
Proof. intros Hc. apply (core_ok_same c); [done..|apply Hc|done]. Qed.

Lemma core_ok_timer t c : core_ok c -> core_ok (set_c_timer t c).
Proof. intros Hc. apply (core_ok_same c); [done..|apply Hc|done]. Qed.

Lemma core_ok_current c rs : core_ok c -> rs_ok rs ->
  (c_IsProposer c = true -> rs_state rs = StateHighQC -> is_Some (rs_highQC rs)) -> core_ok (set_c_current (Some rs) c).
Proof. intros [Ov Or Ob Oo Oc] Hr Hp. constructor; [done..|]. by exists rs. Qed.

(** An update of the round that keeps state and high certificate. *)
Lemma core_ok_mod c rs rs' : core_ok c -> c_current c = Some rs -> (rs_ok rs -> rs_ok rs') -> rs_state rs' = rs_state rs ->
  rs_highQC rs' = rs_highQC rs -> core_ok (set_c_current (Some rs') c).
Proof.
  intros Hc Hcur Hr Hs Hh. destruct (co_current c Hc) as (rs0 & E & Hok & Hp). rewrite Hcur in E. injection E as <-.
  apply core_ok_current; [done|by apply Hr|]. by rewrite Hs, Hh.
Qed.

Lemma core_ok_rs c rs : core_ok c -> c_current c = Some rs -> rs_ok rs.
Proof. intros Hc Hcur. destruct (co_current c Hc) as (rs0 & E & Hok & Hp). rewrite Hcur in E. by injection E as <-. Qed.

Lemma core_ok_some c : core_ok c -> exists rs, c_current c = Some rs.
Proof. intros Hc. destruct (co_current c Hc) as (rs & E & _). eauto. Qed.

Lemma safe_proposer c : core_ok c -> safe (proposer c).
Proof. intros Hc. apply safe_bind; [apply safe_deref, Hc|done]. Qed.

Lemma safe_Number b : has_number b -> safe (Block_Number b).
Proof. intros [n Hn]. unfold Block_Number. by rewrite Hn. Qed.

Lemma safe_NumberU64 b : has_number b -> safe (Block_NumberU64 b).
Proof. intros [n Hn]. unfold Block_NumberU64. by rewrite Hn. Qed.

Lemma safe_node_Hash n : node_ok n -> safe (ProposedBlock_Hash n).
Proof. intros (b & Hb & _). unfold ProposedBlock_Hash. by rewrite Hb. Qed.

Lemma LockedBlock_number rs b : rs_ok rs -> LockedBlock rs = Some b -> has_number b.
Proof. unfold LockedBlock. intros Hr. destruct (rs_proposalLocked rs); [apply Hr|done]. Qed.

(** Decoded values are complete. *)
Lemma decoded_block_number b : c_ok c_Block b -> has_number b.
Proof.
  intros [Hh _]. destruct Hh as (_ & _ & _ & _ & _ & _ & _ & _ & (n & Hn & _) & _). by exists n.
Qed.

Lemma decoded_node_ok bs n : decode_val c_ProposedBlock bs = Ret n -> node_ok n.
Proof.
  intros Hd%decode_val_ok. destruct n as [p b]. destruct Hd as (_ & (b' & Hb & Hok) & _). cbn in Hb. subst b.
  exists b'. split; [done|]. by apply decoded_block_number.
Qed.

Lemma decoded_subject_ok m s n b : Message_Decode c_PackagedQC m = Ret s -> pq_ProposedBlock s = Some n -> pb_Block n = Some b ->
  has_number b.
Proof.
  intros Hd%decode_val_ok Hn Hb. destruct s as [on q]. cbn in Hn. subst on. destruct Hd as ((n' & [= <-] & Hok) & _).
  destruct n as [p ob]. cbn in Hb. subst ob. destruct Hok as (_ & (b' & [= <-] & Hok) & _). by apply decoded_block_number.
Qed.

Lemma decoded_qc_view bs q : decode_val c_QuorumCert bs = Ret q -> is_Some (qc_View q).
Proof. intros Hd%decode_val_ok%qc_ok_codec. destruct Hd as ((v & -> & _) & _). by eexists. Qed.

(** ** Checks *)

Section Checks.
Context (Hlib : crypto_total).

#[local] Hint Resolve safe_proposer safe_Number safe_NumberU64 safe_node_Hash : safe.
#[local] Hint Extern 3 (safe (match ?x with _ => _ end)) => destruct x eqn:? : safe.

Lemma safe_Message_Hash m : safe (Message_Hash m).
Proof. unfold Message_Hash, Message_PayloadNoSig. auto with safe. Qed.

Lemma safe_UnsignedVote code rs : rs_ok rs -> safe (UnsignedVote code rs).
Proof.
  intros Hr. unfold UnsignedVote. destruct (rs_node rs) as [n|] eqn:En; [|done].
  apply safe_bind; [apply safe_node_Hash; by apply Hr|]. auto with safe.
Qed.

Lemma safe_c_checkView v c : core_ok c -> safe (c_checkView v c).
Proof.
  intros (rs & Hc)%core_ok_some. unfold c_checkView. rewrite Hc. destruct v as [v|]; [|done]. cbn [deref mbind outcome_bind].
  apply checkView_no_panic.
Qed.

Lemma safe_verifyQC data oqc c : core_ok c -> is_Some (m_View data) -> safe (verifyQC data oqc c).
Proof.
  intros Hc [v Hv]. destruct (core_ok_some c Hc) as [rs Hcur]. pose proof (core_ok_rs c rs Hc Hcur) as Hr.
  unfold verifyQC. destruct oqc as [qc|]; [|done]. destruct (qc_View qc) as [qv|] eqn:Eqv; [|done].
  destruct (_ =? 0); [done|]. rewrite Hv, Hcur. do 2 (apply safe_bind; [auto with safe|intros _ _]).
  apply safe_bind; [destruct (_ || _); [destruct (View_Sub v qv); cbn; auto with safe|done]|intros _ _].
  apply safe_bind; [|intros _ _].
  { destruct (_ || _); [|done]. cbn [deref mbind outcome_bind]. apply safe_bind; [auto with safe|intros _ _].
    apply safe_bind; [auto with safe|intros p _]. apply safe_bind; [auto with safe|intros _ _].
    destruct (rs_node rs) as [n|] eqn:En; [|done]. apply safe_bind; [apply safe_node_Hash; by apply Hr|auto with safe]. }
  apply safe_bind; [apply safe_on_err; unfold Message_PayloadNoSig; auto with safe|intros _ _].
  apply safe_bind; [apply safe_Message_Hash|intros mh _]. apply safe_bind; [auto with safe|intros _ _].
  unfold AuthQC. rewrite Eqv. cbn [deref mbind outcome_bind]. destruct (_ =? 0); [done|]. apply Hlib.
Qed.

Lemma safe_checkNode onode c : safe (checkNode onode false c).
Proof. unfold checkNode. cbn [negb]. destruct onode as [n|]; [|done]. destruct (pb_Block n); auto with safe. Qed.

Lemma safe_checkBlock b c : core_ok c -> has_number b -> safe (checkBlock b c).
Proof.
  intros Hc Hb. destruct (core_ok_some c Hc) as [rs Hcur]. pose proof (core_ok_rs c rs Hc Hcur) as Hr.
  unfold checkBlock. rewrite Hcur. cbn [deref mbind outcome_bind].
  apply safe_bind; [apply safe_NumberU64, Hr|intros ln _]. apply safe_bind; [auto with safe|intros bn _].
  do 2 (apply safe_bind; [auto with safe|intros _ _]). destruct (LockedBlock rs) as [lb|] eqn:El; [|done].
  apply safe_bind; [eauto using safe_NumberU64, LockedBlock_number|auto with safe].
Qed.

Lemma safe_checkVote v code c : core_ok c -> safe (checkVote v code c).
Proof.
  intros Hc. destruct (core_ok_some c Hc) as [rs Hcur]. unfold checkVote. rewrite Hcur. cbn [deref mbind outcome_bind].
  apply safe_bind; [by eapply safe_UnsignedVote, core_ok_rs|]. intros [ev|] _; auto 6 with safe.
Qed.

(** A vote that passes has something to compare it with. *)
Lemma checkVote_vote v code c rs u : checkVote v code c = Ret u -> c_current c = Some rs ->
  exists ev, UnsignedVote code rs = Ret (Some ev).
Proof.
  unfold checkVote. intros Hv Hcur. rewrite Hcur in Hv. cbn [deref mbind outcome_bind] in Hv.
  apply outcome_bind_Ret in Hv as ([ev|] & He & Hv); [eauto|done].
Qed.

Lemma UnsignedVote_code code code' rs ev : UnsignedVote code rs = Ret (Some ev) ->
  exists ev', UnsignedVote code' rs = Ret (Some ev').
Proof.
  unfold UnsignedVote. destruct (rs_node rs) as [n|]; [|done]. intros (h & -> & Hv)%outcome_bind_Ret. cbn.
  destruct (h =? EmptyHash); [done|eauto].
Qed.

Lemma safe_checkRequestMsg r c : core_ok c -> (forall b, req_Block r = Some b -> has_number b) -> safe (checkRequestMsg r c).
Proof.
  intros (rs & Hcur)%core_ok_some Hb. unfold checkRequestMsg. destruct (req_Block r) as [b|]; [|done].
  rewrite Hcur. cbn [deref mbind outcome_bind]. apply safe_bind; [by apply safe_Number, Hb|auto with safe].
Qed.

Lemma safe_safeNode node ohq c : core_ok c -> safe (safeNode node ohq c).
Proof.
  intros Hc. destruct (core_ok_some c Hc) as [rs Hcur]. pose proof (core_ok_rs c rs Hc Hcur) as Hr.
  unfold safeNode. destruct ohq as [hq|]; [|done]. destruct (qc_View hq); [|done]. apply safe_bind; [auto with safe|intros _ _].
  rewrite Hcur. cbn [deref mbind outcome_bind]. destruct (rs_lockQC rs) as [lq|] eqn:El; [|done].
  destruct (_ =? _); [done|]. apply safe_bind; [apply safe_deref; by apply Hr|auto with safe].
Qed.

Lemma safe_CheckSignature vs hash sig : safe (CheckSignature vs hash sig).
Proof.
  unfold CheckSignature, getSignatureAddress. destruct (hash =? EmptyHash); [done|].
  apply safe_bind; [apply safe_bind; [apply Hlib|done]|auto with safe].
Qed.

Lemma safe_FromPayload src payload c : safe (FromPayload src payload (Some (checkValidatorSignature c))).
Proof.
  unfold FromPayload. apply safe_bind; [auto with safe|intros m _]. apply safe_bind; [auto with safe|intros _ _].
  apply safe_bind; [apply safe_Message_Hash|intros h _]. apply safe_bind; [|done].
  apply safe_bind; [apply safe_CheckSignature|auto with safe].
Qed.

Lemma FromPayload_view src payload f m : FromPayload src payload f = Ret m -> is_Some (m_View m).
Proof.
  unfold FromPayload. intros (m0 & Hd & Hm)%outcome_bind_Ret. apply decode_val_ok, message_ok_codec in Hd.
  destruct Hd as (_ & (v & Hv & _) & _). apply outcome_bind_Ret in Hm as (? & _ & Hm).
  apply outcome_bind_Ret in Hm as (? & _ & Hm). apply outcome_bind_Ret in Hm as (? & _ & [= <-]). cbn. rewrite Hv. by eexists.
Qed.

Lemma safe_finalizeMessage m c : safe (finalizeMessage m c).
Proof.
  unfold finalizeMessage, Message_PayloadNoSig, Message_Payload. apply safe_bind; [auto with safe|intros _ _].
  apply safe_bind; [apply safe_Message_Hash|intros h _]. apply safe_bind; [|auto with safe].
  unfold Signer_Sign. destruct (h =? EmptyHash); [done|]. destruct (sg_privateKey _); [apply Hlib|done].
Qed.

(** ** Sending *)

Lemma set_c_out_id c : set_c_out (c_out c) c = c.
Proof. by destruct c. Qed.

Lemma runs_broadcast code payload (Q : unit -> Core -> Prop) c : core_ok c -> (forall es, Forall effect_total es -> Q tt (set_c_out es c)) ->
  runs (broadcast code payload) Q c.
Proof.
  intros Hc HQ. destruct (core_ok_some c Hc) as [rs Hcur]. pose proof (HQ (c_out c) (co_out c Hc)) as Hid. rewrite set_c_out_id in Hid.
  apply runs_bind. eapply runs_current; [done|]. apply runs_bind, runs_get. destruct (_ <? 0); [done|].
  apply runs_or_return; [apply safe_finalizeMessage|done|]. intros [msg signed] _. destruct (is_vote_type code).
  - apply runs_bind, runs_lift; [done|by apply safe_proposer|]. intros t _. by apply runs_modify, HQ, effects_snoc.
  - destruct (is_leader_type code); [by apply runs_modify, HQ, effects_snoc|done].
Qed.

Lemma runs_sendVote code (Q : unit -> Core -> Prop) c : core_ok c -> (forall es, Forall effect_total es -> Q tt (set_c_out es c)) ->
  runs (sendVote code) Q c.
Proof.
  intros Hc HQ. destruct (core_ok_some c Hc) as [rs Hcur]. pose proof (HQ (c_out c) (co_out c Hc)) as Hid. rewrite set_c_out_id in Hid.
  apply runs_bind. eapply runs_current; [done|]. apply runs_bind, runs_lift; [done|by eapply safe_UnsignedVote, core_ok_rs|].
  intros [v|] _; [|done]. apply runs_or_return; [auto with safe|done|]. intros d _. apply runs_bind, runs_get.
  apply runs_or_return; [apply Hlib|done|]. intros sv _. apply runs_bind, runs_modify.
  apply runs_or_return; [auto with safe|by apply HQ, effects_snoc|]. intros payload _. apply runs_broadcast; [by apply core_ok_out; [apply effects_snoc|]|].
  intros es He. exact (HQ es He).
Qed.

Lemma runs_sendQC code qc (Q : unit -> Core -> Prop) c : core_ok c -> (forall es, Forall effect_total es -> Q tt (set_c_out es c)) ->
  runs (sendQC code qc) Q c.
Proof.
  intros Hc HQ. destruct (core_ok_some c Hc) as [rs Hcur]. pose proof (HQ (c_out c) (co_out c Hc)) as Hid. rewrite set_c_out_id in Hid.
  apply runs_bind. eapply runs_newLogger; [done|]. apply runs_or_return; [auto with safe|done|]. intros p _.
  by apply runs_broadcast.
Qed.

(** ** Queues *)

Lemma drain_requests_total check fuel q l posted : pq_rel q l -> Forall (fun x => request_ok (it_value x)) l ->
  (forall r, request_ok r -> safe (check r)) -> Forall has_number posted ->
  exists q' posted', drain_requests fuel check q posted = Ret (q', posted') /\ requests_ok q' /\ Forall has_number posted'.
Proof.
  intros Hq Hl Hs. revert q l posted Hq Hl.
  induction fuel as [|f IH]; intros q l posted Hq Hl Hp; cbn [drain_requests].
  { exists q, posted. split_and!; [done|by exists l|done]. }
  destruct (Prque_Empty q) eqn:Ee; [exists q, posted; split_and!; [done|by exists l|done]|].
  assert (l <> []) as Hne by (intros E; apply (Prque_Empty_rel q l Hq) in E; congruence).
  destruct (Prque_Pop_rel q l Hq Hne) as (x & q' & l' & -> & Hperm & Hq' & _). cbn [mbind outcome_bind].
  rewrite Hperm in Hl. apply Forall_cons in Hl as [Hx Hl']. pose proof Hx as (b & Hb & Hn).
  specialize (Hs _ Hx). destruct (check (it_value x)) as [[]|e|]; [| |done]; rewrite Hb; cbn [deref mbind outcome_bind].
  - apply (IH q' l'); [done|done|]. apply Forall_app. split; [done|by constructor].
  - destruct (decide _); [|by apply (IH q' l')]. eexists _, posted. split_and!; [done| |done]. eexists. split; [by apply Prque_Push_rel|].
    by constructor.
Qed.

Lemma checkView_some current v u : checkView current v = Ret u -> is_Some v.
Proof. destruct v; [eauto|done]. Qed.

Lemma drain_queue_total fuel current q l replay : pq_rel q l -> Forall (fun m => is_Some (m_View m)) replay ->
  exists q' msgs l', drain_queue fuel current q replay = Ret (q', msgs) /\ pq_rel q' l' /\ Forall (fun m => is_Some (m_View m)) msgs.
Proof.
  revert q l replay. induction fuel as [|f IH]; intros q l replay Hq Hm; cbn [drain_queue]; [eauto 8|].
  destruct (Prque_Empty q) eqn:Ee; [eauto 8|].
  assert (l <> []) as Hne by (intros E; apply (Prque_Empty_rel q l Hq) in E; congruence).
  destruct (Prque_Pop_rel q l Hq Hne) as (x & q' & l' & -> & _ & Hq' & _). cbn [mbind outcome_bind].
  pose proof (checkView_no_panic current (m_View (it_value x))) as Hnp.
  destruct (checkView current (m_View (it_value x))) as [[]|e|] eqn:Ev; [| |done].
  - eapply IH; [done|]. apply Forall_app. split; [done|]. apply checkView_some in Ev. by constructor.
  - destruct (decide _); [|by eapply IH]. eexists _, _, _. split_and!; [done|by apply Prque_Push_rel|done].
Qed.

Lemma process_senders_total current vs qs b : Forall (fun p => exists l, pq_rel p.2 l) qs -> backlogs_ok b ->
  exists b' out, process_senders current vs qs b = Ret (b', out) /\ backlogs_ok b' /\ Forall (fun p => is_Some (m_View p.2)) out.
Proof.
  revert b. induction qs as [|[addr q] qs IH]; intros b Hqs Hb; cbn [process_senders]; [eauto|].
  apply Forall_cons in Hqs as [(l & Hq) Hqs]. cbn [snd] in Hq.
  assert (exists q' msgs l', process_sender current vs addr q = Ret (q', msgs) /\ pq_rel q' l' /\ Forall (fun p => is_Some (m_View p.2)) msgs)
    as (q' & msgs & l' & -> & Hq' & Hm).
  { unfold process_sender. destruct (GetByAddress addr vs).2; [|by exists q, [], l].
    destruct (drain_queue_total (Prque_Size q) current q l [] Hq) as (q' & msgs & l' & -> & Hq' & Hm); [constructor|]. cbn.
    eexists _, _, l'. split_and!; [done|done|]. by apply Forall_fmap. }
  cbn [mbind outcome_bind]. destruct (IH (<[addr := q']> b)) as (b' & out & -> & Hb' & Ho); [done| |].
  - apply map_Forall_insert_2; eauto.
  - eexists _, _. split_and!; [done|done|]. by apply Forall_app.
Qed.

Lemma backlog_Push_total m b : backlogs_ok b -> backlogs_ok (backlog_Push m b).
Proof.
  intros Hb. unfold backlog_Push. destruct (m_View m) as [v|]; [|done]. destruct (_ || _); [done|].
  apply map_Forall_insert_2; [|done]. destruct (b !! m_Address m) as [q|] eqn:Eq; cbn [default].
  - destruct (Hb _ _ Eq) as (l & Hq). eexists. by apply Prque_Push_rel.
  - eexists. apply Prque_Push_rel, Prque_New_rel.
Qed.

Lemma runs_processPendingRequests (Q : unit -> Core -> Prop) c : core_ok c ->
  (forall q es, requests_ok q -> Forall effect_total es -> Q tt (set_c_out es (set_c_pendingRequests q c))) -> runs processPendingRequests Q c.
Proof.
  intros Hc HQ. apply runs_bind, runs_get. destruct (co_requests c Hc) as (l & Hq & Hl).
  destruct (drain_requests_total (fun r => checkRequestMsg r c) (Prque_Size (c_pendingRequests c)) _ l [] Hq Hl)
    as (q' & posted & E & Hq' & Hp).
  { intros r (b & Hb & Hn). apply safe_checkRequestMsg; [done|]. intros b' Hb'. congruence. }
  { constructor. }
  apply runs_bind, runs_lift; [done|by rewrite E|]. intros [q2 bs] E2. rewrite E in E2. injection E2 as <- <-.
  apply runs_modify, HQ; [done|]. apply Forall_app. split; [apply Hc|]. by apply Forall_fmap.
Qed.

Lemma core_ok_requests q c : requests_ok q -> core_ok c -> core_ok (set_c_pendingRequests q c).
Proof. intros Hq [Ov Or Ob Oo Oc]. by constructor. Qed.

Lemma core_ok_backlogs b c : backlogs_ok b -> core_ok c -> core_ok (set_c_backlogs b c).
Proof. intros Hb [Ov Or Ob Oo Oc]. by constructor. Qed.

Lemma runs_storeRequestMsg r c : core_ok c -> request_ok r -> runs (storeRequestMsg r) (fun _ => core_ok) c.
Proof.
  intros Hc Hr. destruct (core_ok_some c Hc) as [rs Hcur]. apply runs_bind. eapply runs_newLogger; [done|].
  pose proof Hr as (b & Hb & Hn). apply runs_bind, runs_lift; [done|by rewrite Hb|]. intros b' E. rewrite Hb in E. injection E as <-.
  apply runs_bind, runs_lift; [done|by apply safe_Number|]. intros n _. apply runs_modify, core_ok_requests; [|done].
  destruct (co_requests c Hc) as (l & Hq & Hl). eexists. split; [by apply Prque_Push_rel|]. by constructor.
Qed.

Lemma runs_storeBacklog m c : core_ok c -> runs (storeBacklog m) (fun _ => core_ok) c.
Proof.
  intros Hc. destruct (core_ok_some c Hc) as [rs Hcur]. apply runs_bind. eapply runs_newLogger; [done|].
  apply runs_bind, runs_get. destruct (_ =? _); [done|]. destruct (GetByAddress _ _).2; [|done].
  apply runs_modify, core_ok_backlogs; [|done]. apply backlog_Push_total, Hc.
Qed.

(** ** Handlers *)

Section Handlers.
Context (env : Env) (Henv : env_total env).

(** Field updates of the round. *)
#[local] Ltac rs_update := let Hr := fresh in intros Hr; constructor; cbn; try apply Hr; try done.

Lemma set_c_db_id c : set_c_db (c_db c) c = c.
Proof. by destruct c. Qed.

Lemma store_total {A} (cd : codec A) key a c : safe (store env cd key a c).1 /\ exists db, (store env cd key a c).2 = set_c_db db c.
Proof.
  unfold store, get, lift, modify, mret, M_ret, mbind, M_bind. destruct (c_db c) as [db|] eqn:Edb.
  - pose proof (safe_encode_val cd a) as Hs. destruct (encode_val cd a) as [raw|e|]; [| |done].
    + rewrite (et_put _ Henv). cbn. split; [done|]. by eexists.
    + cbn. split; [done|]. exists (Some db). by rewrite <- Edb, set_c_db_id.
  - cbn. split; [done|]. exists None. by rewrite <- Edb, set_c_db_id.
Qed.

Lemma runs_store {A} (cd : codec A) key a (Q : unit -> Core -> Prop) c : core_ok c -> (forall db, Q tt (set_c_db db c)) ->
  runs (store env cd key a) Q c.
Proof.
  intros Hc HQ. unfold runs. destruct (store_total cd key a c) as [Hs (db & Edb)].
  destruct (store env cd key a c) as [[[]|e|] c'] eqn:E; cbn in *; subst; [apply HQ|by apply core_ok_db|done].
Qed.

Lemma runs_processBacklog c : core_ok c -> runs (processBacklog env) (fun _ => core_ok) c.
Proof.
  intros Hc. destruct (core_ok_some c Hc) as [rs Hcur]. apply runs_bind. eapply runs_current; [done|].
  apply runs_bind, runs_get. unfold processBacklog_loop.
  destruct (process_senders_total (currentView rs) (c_valSet c) (e_order env _ (c_backlogs c)) (c_backlogs c)) as (b' & out & E & Hb' & Hm).
  { rewrite (et_order _ Henv _ (c_backlogs c)). apply Forall_forall. intros [k q] Hk%elem_of_map_to_list. exact (co_backlogs c Hc _ _ Hk). }
  { apply Hc. }
  apply runs_bind, runs_lift; [done|by rewrite E|]. intros [b2 o2] E2. rewrite E in E2. injection E2 as <- <-.
  apply runs_modify, core_ok_out; [|by apply core_ok_backlogs]. apply Forall_app. split; [apply Hc|]. by apply Forall_fmap.
Qed.

Lemma runs_setCurrentState st c rs : c_current c = Some rs -> core_ok (set_c_current (Some (set_rs_state st rs)) c) ->
  runs (setCurrentState env st) (fun _ => core_ok) c.
Proof.
  intros Hcur Hc. apply runs_bind. eapply runs_mod_rs; [done|]. apply runs_bind, runs_when; intros _; [|by apply runs_processBacklog].
  apply runs_processPendingRequests; [done|]. intros q es Hq He. by apply runs_processBacklog, core_ok_out, core_ok_requests.
Qed.

Lemma runs_sendNewView c : core_ok c -> runs sendNewView (fun _ => core_ok) c.
Proof.
  intros Hc. destruct (core_ok_some c Hc) as [rs Hcur]. apply runs_bind. eapply runs_current; [done|].
  apply runs_or_return; [destruct (rs_prepareQC rs); auto with safe|done|]. intros p _.
  apply runs_broadcast; [done|]. intros es He. by apply core_ok_out.
Qed.

Lemma runs_SetPrepareQC qc c : core_ok c -> runs (SetPrepareQC env qc) (fun _ => core_ok) c.
Proof.
  intros Hc. destruct (core_ok_some c Hc) as [rs Hcur]. apply runs_bind, runs_store; [done|]. intros db.
  eapply runs_mod_rs; [done|]. eapply core_ok_mod; [by apply core_ok_db|done|rs_update|done|done].
Qed.

Lemma runs_SetCommittedQC qc c : core_ok c -> runs (SetCommittedQC env qc) (fun _ => core_ok) c.
Proof.
  intros Hc. destruct (core_ok_some c Hc) as [rs Hcur]. apply runs_bind, runs_store; [done|]. intros db.
  eapply runs_mod_rs; [done|]. eapply core_ok_mod; [by apply core_ok_db|done|rs_update|done|done].
Qed.

(** The states from [StatePrepared] on put no demand on the high certificate. *)
Lemma core_ok_state c rs st : core_ok c -> c_current c = Some rs -> st <> StateHighQC ->
  core_ok (set_c_current (Some (set_rs_state st rs)) c).
Proof.
  intros Hc Hcur Hst. apply core_ok_current; [done| |done]. pose proof (core_ok_rs c rs Hc Hcur) as Hr. revert Hr. rs_update.
Qed.

Lemma runs_set_state st c : core_ok c -> st <> StateHighQC -> runs (mod_rs (set_rs_state st)) (fun _ => core_ok) c.
Proof.
  intros Hc Hst. destruct (core_ok_some c Hc) as [rs Hcur]. eapply runs_mod_rs; [done|]. by apply core_ok_state.
Qed.

Lemma runs_acceptPrepareQC qc c : core_ok c -> runs (acceptPrepareQC env qc) (fun _ => core_ok) c.
Proof.
  intros Hc. apply runs_bind. eapply runs_mono; [by apply runs_SetPrepareQC|]. intros [] c' Hc'. by apply runs_set_state.
Qed.

Lemma runs_Lock qc c : core_ok c -> is_Some (qc_View qc) -> runs (Lock env qc) (fun _ => core_ok) c.
Proof.
  intros Hc Hq. destruct (core_ok_some c Hc) as [rs Hcur]. apply runs_bind. eapply runs_current; [done|].
  destruct (rs_node rs) as [n|] eqn:En; [|done]. apply runs_bind, runs_store; [done|]. intros db.
  apply runs_bind, runs_store; [by apply core_ok_db|]. intros db'. eapply runs_mod_rs; [done|].
  eapply core_ok_mod; [by apply core_ok_db, core_ok_db|done| |done|done]. intros Hr. constructor; cbn; try apply Hr.
  - intros b Hb. destruct (ro_node _ Hr n En) as (b' & Hb' & Hn). congruence.
  - by intros q [= <-].
Qed.

Lemma runs_acceptLockQC qc c : core_ok c -> is_Some (qc_View qc) -> runs (acceptLockQC env qc) (fun _ => core_ok) c.
Proof.
  intros Hc Hq. apply runs_bind. eapply runs_mono; [by apply runs_Lock|]. intros [] c' Hc'. by apply runs_set_state.
Qed.

Lemma runs_SetSealedBlock b c : core_ok c -> has_number b -> runs (SetSealedBlock env b) (fun _ => core_ok) c.
Proof.
  intros Hc Hb. destruct (core_ok_some c Hc) as [rs Hcur]. apply runs_bind. eapply runs_current; [done|].
  destruct (rs_node rs) as [[p [b0|]]|] eqn:En; [|done|done]. destruct (negb _); [done|].
  apply runs_bind. eapply runs_mod_rs; [done|]. set (rs1 := set_rs_node _ rs).
  assert (core_ok (set_c_current (Some rs1) c)) as Hc1.
  { eapply core_ok_mod; [done|done| |done|done]. intros Hr. constructor; cbn; try apply Hr. intros n [= <-]. by exists b. }
  apply runs_bind, runs_store; [done|]. intros db. eapply runs_mod_rs; [done|].
  eapply core_ok_mod; [by apply core_ok_db|done| |by repeat case_match|by repeat case_match].
  intros Hr. assert (rs_ok (set_locked (Some b) (rs_proposalLocked rs1) rs1)) as Hl.
  { constructor; cbn; try apply Hr. by intros b' [= <-]. }
  cbn zeta. destruct (rs_executed rs1) as [[[xb|] st]|]; [|done|done]. destruct (_ =? _); [|done]. revert Hl. rs_update.
  by intros x b1 [= <-] [= <-].
Qed.

Lemma runs_acceptCommitQC b qc c : core_ok c -> has_number b -> runs (acceptCommitQC env b qc) (fun _ => core_ok) c.
Proof.
  intros Hc Hb. apply runs_bind. eapply runs_mono; [by apply runs_SetSealedBlock|]. intros [] c1 Hc1.
  apply runs_bind. eapply runs_mono; [by apply runs_SetCommittedQC|]. intros [] c2 Hc2. by apply runs_set_state.
Qed.

(** *** New rounds *)

(** A round whose node may still be the placeholder of [newRoundState]. *)
Record rs_fresh (rs : roundState) : Prop := {
  rf_rest : rs_ok (set_rs_node None rs);
  rf_block n b : rs_node rs = Some n -> pb_Block n = Some b -> has_number b
}.

(** Everything but the round. *)
Record base_ok (c : Core) : Prop := {
  bo_valset : valset_live (c_valSet c);
  bo_requests : requests_ok (c_pendingRequests c);
  bo_backlogs : backlogs_ok (c_backlogs c);
  bo_out : Forall effect_total (c_out c)
}.

(** [c] with another round and database. *)
Definition same_base (c c' : Core) : Prop := exists db cur, c' = set_c_current cur (set_c_db db c).

Lemma same_base_refl c : same_base c c.
Proof. exists (c_db c), (c_current c). by destruct c. Qed.

Lemma same_base_trans c c1 c2 : same_base c c1 -> same_base c1 c2 -> same_base c c2.
Proof. intros (db & cur & ->) (db' & cur' & ->). by exists db', cur'. Qed.

(** A step that succeeds, keeping [P] of the round and everything else but the
    database. *)
Definition steps (P : roundState -> Prop) (m : M Core unit) : Prop := forall c rs, c_current c = Some rs -> P rs ->
  exists c' rs', m c = (Ret tt, c') /\ same_base c c' /\ c_current c' = Some rs' /\ P rs'.

Lemma steps_bind P (m k : M Core unit) : steps P m -> steps P k -> steps P (_ ← m; k).
Proof.
  intros Hm Hk c rs Hcur Hp. destruct (Hm c rs Hcur Hp) as (c1 & rs1 & E1 & Hb1 & Hc1 & Hp1).
  destruct (Hk c1 rs1 Hc1 Hp1) as (c2 & rs2 & E2 & Hb2 & Hc2 & Hp2). exists c2, rs2.
  rewrite (bind_Ret _ _ _ _ _ E1). split_and!; [done|by eapply same_base_trans|done|done].
Qed.

Lemma steps_mod P f : (forall rs, P rs -> P (f rs)) -> steps P (mod_rs f).
Proof.
  intros Hf c rs Hcur Hp. exists (set_c_current (Some (f rs)) c), (f rs).
  split_and!; [|by exists (c_db c), (Some (f rs)); destruct c|done|by apply Hf].
  unfold mod_rs, current_rs. erewrite bind_Ret; [done|]. unfold asks. by rewrite Hcur.
Qed.

Lemma steps_load {A} (P : roundState -> Prop) (cd : codec A) key f :
  (forall bs a rs, decode_val cd bs = Ret a -> P rs -> P (f a rs)) -> steps P (load_with cd key f).
Proof.
  intros Hf c rs Hcur Hp. unfold load_with. rewrite (bind_Ret get _ c c c) by done.
  destruct (load cd key c) as [a|] eqn:El; [|exists c, rs; auto using same_base_refl].
  assert (exists raw, decode_val cd raw = Ret a) as [raw Ed].
  { unfold load in El. repeat case_match; simplify_eq. eauto. }
  exact (steps_mod P (f a) (fun rs => Hf raw a rs Ed) c rs Hcur Hp).
Qed.

Lemma steps_reload v : steps rs_fresh (reload v).
Proof.
  repeat apply steps_bind.
  - apply steps_load. intros bs w rs _ [Hr Hb]. case_match; [|done]. constructor; [|done]. revert Hr. rs_update.
  - apply steps_load. intros bs q rs _ [Hr Hb]. constructor; [|done]. revert Hr. rs_update.
  - apply steps_load. intros bs q rs Hd [Hr Hb]. constructor; [|done]. constructor; cbn; try apply Hr.
    intros q' [= <-]. by eapply decoded_qc_view.
  - apply steps_load. intros bs q rs _ [Hr Hb]. constructor; [|done]. revert Hr. rs_update.
  - apply steps_load. intros bs n rs Hd [Hr _]. constructor; [revert Hr; rs_update|]. intros n' b [= <-] Hb.
    destruct (decoded_node_ok _ _ Hd) as (b' & Hb' & Hn). congruence.
  - intros c rs Hcur [Hr Hb]. rewrite (bind_Ret _ _ c rs c) by (unfold current_rs, asks; by rewrite Hcur).
    assert (exists rs', relock rs = Ret rs' /\ rs_fresh rs') as (rs' & E & Hr').
    { unfold relock. destruct (rs_lockQC rs) as [q|] eqn:Eq; [|exists rs; split; [done|by constructor]].
      destruct (rs_node rs) as [n|] eqn:En; [|exists rs; split; [done|]; constructor; [done|by rewrite En]].
      destruct (pb_Block n) as [b|] eqn:Eb; [|exists rs; split; [done|]; constructor; [done|by rewrite En]].
      unfold ProposedBlock_Hash. rewrite Eb. cbn. case_match; eexists; (split; [done|]); constructor; cbn; rewrite ?En; try done.
      constructor; cbn; try apply Hr. intros b' [= <-]. eauto. }
    rewrite E. exact (steps_mod rs_fresh (fun _ => rs') (fun _ _ => Hr') c rs Hcur (Build_rs_fresh _ Hr Hb)).
Qed.

Lemma steps_store {A} P (cd : codec A) key a : (exists b, encode_val cd a = Ret b) -> steps P (store env cd key a).
Proof.
  intros [raw Er] c rs Hcur Hp. unfold store. rewrite (bind_Ret get _ c c c) by done.
  destruct (c_db c) as [db|]; [|exists c, rs; auto using same_base_refl].
  rewrite (bind_Ret _ _ c raw c) by (unfold lift; by rewrite Er).
  rewrite (bind_Ret _ _ c tt c) by (unfold lift; by rewrite (et_put _ Henv)).
  exists (set_c_db (Some (<[key:=raw]> db)) c), rs.
  split_and!; [done| |done|done]. exists (Some (<[key:=raw]> db)), (c_current c). by destruct c.
Qed.

(** The certificate of the first round can be encoded and stored. *)
Lemma steps_round_start P lp n : hdr_Number (b_header lp) = Some n -> 0 <= n ->
  (forall rs q, P rs -> P (set_rs_prepareQC q rs)) -> (forall rs, P rs -> P (set_rs_committedQC None (set_rs_lockQC None rs))) ->
  steps P (rs ← current_rs;
    match rs_prepareQC rs with
    | Some _ => mret tt
    | None =>
        qc ← lift (buildRoundStartQC lp);
        _ ← SetPrepareQC env qc;
        mod_rs (fun s => set_rs_committedQC None (set_rs_lockQC None s))
    end).
Proof.
  intros Hn Hpos Hp1 Hp2 c rs Hcur Hp. rewrite (bind_Ret _ _ c rs c) by (unfold current_rs, asks; by rewrite Hcur).
  destruct (rs_prepareQC rs); [exists c, rs; auto using same_base_refl|].
  assert (exists qc, buildRoundStartQC lp = Ret qc /\ exists b, encode_val c_QuorumCert qc = Ret b) as (qc & E & Hqc).
  { unfold buildRoundStartQC, Block_Number, Block_NumberU64. rewrite Hn. cbn [deref mbind outcome_bind].
    destruct (if u64 n =? 0 then _ else _) as [p h]. eexists. split; [done|].
    by apply encode_qc_total. }
  rewrite E. assert (steps P (_ ← SetPrepareQC env qc; mod_rs (fun s => set_rs_committedQC None (set_rs_lockQC None s)))) as Hs.
  { apply steps_bind; [|by apply steps_mod]. apply steps_bind; [by apply steps_store|]. apply steps_mod. auto. }
  exact (Hs c rs Hcur Hp).
Qed.

Lemma CalcProposer_live addr round vs : 0 <= round -> valset_live vs -> valset_live (CalcProposer addr round vs).
Proof.
  intros Hround [Hp Hm _]. constructor; [done|done|]. cbn. unfold selector. destruct (decide _); [done|].
  assert (0 < Size vs) as Hs by (unfold Size; destruct (vs_validators vs); [done|cbn [length]; lia]).
  assert (forall seed, is_Some (GetByIndex (seed mod Size vs) vs)) as Hi.
  { intros seed. pose proof (Z.mod_pos_bound seed (Size vs) Hs) as Hb. rewrite GetByIndex_in_range by done.
    apply lookup_lt_is_Some. unfold Size in *. lia. }
  assert ((Size vs =? 0) = false) as E by (apply Z.eqb_neq; lia).
  destruct (decide _); unfold stickySelector, roundRobinSelector; rewrite E; apply Hi.
Qed.

Lemma rs_ok_update vs lp v rs : has_number lp -> rs_ok rs -> rs_ok (roundState_update vs lp v rs).
Proof. intros Hl Hr. constructor; cbn; try done; try apply Hr; apply map_Forall_empty. Qed.

Lemma rs_fresh_new vs lp v : has_number lp -> rs_fresh (newRoundState vs lp v).
Proof. intros Hl. constructor; [|by intros n b [= <-]]. constructor; cbn; try done; apply map_Forall_empty. Qed.

Lemma rs_ok_Unlock rs : rs_fresh rs -> rs_ok (Unlock rs).
Proof. intros [Hr _]. constructor; cbn; try apply Hr; done. Qed.

Lemma rs_ok_fresh rs : rs_ok rs -> rs_fresh rs.
Proof.
  intros Hr. constructor; [constructor; cbn; try apply Hr; done|]. intros n b Hn Hb.
  destruct (ro_node _ Hr n Hn) as (b' & Hb' & ?). congruence.
Qed.

Lemma update_first c lp n v : c_current c = None -> hdr_Number (b_header lp) = Some n -> 0 <= n ->
  exists c' rs', updateRoundState env lp v c = (Ret tt, c') /\ same_base c c' /\ c_current c' = Some rs' /\ rs_fresh rs'.
Proof.
  intros Hcur Hn Hpos. unfold updateRoundState. rewrite (bind_Ret get _ c c c) by done. rewrite Hcur.
  set (c1 := set_c_current (Some (newRoundState (c_valSet c) lp v)) c).
  assert (rs_fresh (newRoundState (c_valSet c) lp v)) as Hf by (apply rs_fresh_new; by exists n).
  destruct (steps_reload v c1 _ eq_refl Hf) as (c2 & rs2 & E2 & Hb2 & Hc2 & Hf2).
  rewrite (bind_Ret _ _ c tt c2) by exact E2.
  destruct (steps_round_start rs_fresh lp n Hn Hpos) with c2 rs2 as (c3 & rs3 & E3 & Hb3 & Hc3 & Hf3); try done.
  { intros rs q [Hr Hb]. constructor; [revert Hr; rs_update|done]. }
  { intros rs [Hr Hb]. constructor; [revert Hr; rs_update|done]. }
  exists c3, rs3. split_and!; [done| |done|done]. apply same_base_trans with c1; [|by apply same_base_trans with c2].
  exists (c_db c), (Some (newRoundState (c_valSet c) lp v)). by destruct c.
Qed.

Lemma update_next c rs lp n v : c_current c = Some rs -> rs_ok rs -> hdr_Number (b_header lp) = Some n -> 0 <= n ->
  exists c' rs', updateRoundState env lp v c = (Ret tt, c') /\ same_base c c' /\ c_current c' = Some rs' /\ rs_ok rs'.
Proof.
  intros Hcur Hr Hn Hpos. unfold updateRoundState. rewrite (bind_Ret get _ c c c) by done. rewrite Hcur.
  assert (steps rs_ok (_ ← mod_rs (roundState_update (c_valSet c) lp v); rs ← current_rs;
    match rs_prepareQC rs with
    | Some _ => mret tt
    | None => qc ← lift (buildRoundStartQC lp); _ ← SetPrepareQC env qc;
              mod_rs (fun s => set_rs_committedQC None (set_rs_lockQC None s))
    end)) as Hs.
  { apply steps_bind; [apply steps_mod; intros; apply rs_ok_update; [by exists n|done]|].
    eapply steps_round_start; [done|done|intros rs0 q Hr0|intros rs0 Hr0]; revert Hr0; rs_update. }
  exact (Hs c rs Hcur Hr).
Qed.

Lemma base_ok_same c c' : same_base c c' -> base_ok c -> base_ok c'.
Proof. intros (db & cur & ->) [Bv Br Bb Bo]. by constructor. Qed.

Lemma core_base_ok c : core_ok c -> base_ok c.
Proof. intros [Ov Or Ob Oo _]. by constructor. Qed.

Lemma runs_round_tail (ch : bool) c rs : base_ok c -> c_current c = Some rs -> rs_fresh rs -> (ch = true -> rs_ok rs) ->
  runs (_ ← when (negb ch) (mod_rs Unlock); _ ← newRoundChangeTimer env; _ ← setCurrentState env StateAcceptRequest; sendNewView)
    (fun _ => core_ok) c.
Proof.
  intros Hb Hcur Hf Hch.
  assert (forall c1 rs1, base_ok c1 -> c_current c1 = Some rs1 -> rs_ok rs1 ->
    runs (_ ← newRoundChangeTimer env; _ ← setCurrentState env StateAcceptRequest; sendNewView) (fun _ => core_ok) c1) as Ht.
  { intros c1 rs1 [Bv Br Bb Bo] Hc1 Hr1. apply runs_bind, runs_bind, runs_modify, runs_bind. eapply runs_current; [done|].
    apply runs_modify, runs_bind. eapply runs_mono; [eapply runs_setCurrentState; [done|]|].
    - constructor; [done..|]. eexists. split; [done|]. split; [revert Hr1; rs_update|]. done.
    - intros [] c2 Hc2. by apply runs_sendNewView. }
  apply runs_bind, runs_when; intros Ech.
  - eapply runs_mod_rs; [done|]. eapply Ht; [|done|by apply rs_ok_Unlock]. by destruct Hb.
  - eapply Ht; [done|done|]. apply Hch. by destruct ch.
Qed.

Lemma runs_enter_round round lp addr ch c n : base_ok c -> hdr_Number (b_header lp) = Some n -> 0 <= n ->
  (forall rs, c_current c = Some rs -> rs_ok rs) -> (ch = true -> is_Some (c_current c)) ->
  runs (enter_round env round lp addr ch) (fun _ => core_ok) c.
Proof.
  intros Hb Hn Hpos Hr Hch. apply runs_bind. unfold runs at 1. unfold lift, Block_Number. rewrite Hn. cbn [deref].
  apply runs_bind. assert (exists v, new_view round n ch c = (Ret v, c)) as (v & Ev).
  { unfold new_view. destruct ch; [|by eexists]. destruct (Hch eq_refl) as [rs Hcur].
    exists (mkView round (rs_height rs)). rewrite (bind_Ret _ _ c rs c); [done|]. unfold current_rs, asks. by rewrite Hcur. }
  unfold runs at 1. rewrite Ev. apply runs_bind, runs_modify. set (c1 := set_c_valSet _ c).
  assert (base_ok c1) as Hb1.
  { destruct Hb as [Bv Br Bb Bo]. constructor; [|done..]. cbn. apply CalcProposer_live; [apply u64_range|done]. }
  assert (exists c2 rs2, updateRoundState env lp v c1 = (Ret tt, c2) /\ same_base c1 c2 /\ c_current c2 = Some rs2 /\
    rs_fresh rs2 /\ (ch = true -> rs_ok rs2)) as (c2 & rs2 & E2 & Hs2 & Hc2 & Hf2 & Hok2).
  { destruct (c_current c) as [rs|] eqn:Hcur.
    - destruct (update_next c1 rs lp n v) as (c2 & rs2 & ? & ? & ? & ?); [done|by apply Hr|done|done|].
      exists c2, rs2. split_and!; auto using rs_ok_fresh.
    - destruct (update_first c1 lp n v) as (c2 & rs2 & ? & ? & ? & ?); [done|done|done|].
      exists c2, rs2. split_and!; try done. intros Et. destruct (Hch Et). done. }
  unfold runs, log_and_return. rewrite E2. apply (runs_round_tail ch c2 rs2); [by eapply base_ok_same|done..].
Qed.

Lemma runs_startNewRound round c : core_ok c -> runs (startNewRound env round) (fun _ => core_ok) c.
Proof.
  intros Hc. apply runs_bind, runs_get. destruct (negb _); [done|]. destruct (e_LastProposal env) as [[lp|] addr] eqn:El; [|done].
  destruct (et_last _ Henv lp addr El) as (n & Hn & Hpos). apply runs_bind, runs_lift; [done|apply safe_NumberU64; by exists n|].
  intros m _. destruct (round_decision round m c) as [ch|]; [|done]. eapply runs_enter_round; [by apply core_base_ok|done|done| |].
  - intros rs Hcur. by eapply core_ok_rs.
  - intros _. by apply core_ok_some.
Qed.

(** *** Collecting messages *)

Lemma MessageSet_Add_total {A} (cd : codec A) m ms : (exists a, Message_Decode cd m = Ret a) -> decodes cd ms ->
  safe (MessageSet_Add m ms) /\ forall ms', MessageSet_Add m ms = Ret ms' -> decodes cd ms'.
Proof.
  intros Hd Hms. split; [unfold MessageSet_Add; destruct (GetByAddress _ _); by case_match|].
  intros ms' Ha%MessageSet_Add_inv. destruct Ha as (_ & _ & E). unfold decodes. rewrite E. by apply map_Forall_insert_2.
Qed.

Lemma values_decode {A} (cd : codec A) ms m : decodes cd ms -> m ∈ MessageSet_Values (e_order env) ms ->
  exists a, Message_Decode cd m = Ret a.
Proof.
  intros Hd. rewrite (MessageSet_Values_perm _ _ (et_order _ Henv)).
  intros ([k m'] & -> & Hk%elem_of_map_to_list)%list_elem_of_fmap. exact (Hd _ _ Hk).
Qed.

Lemma safe_getHighQC_loop msgs hq : (forall m, m ∈ msgs -> exists a, Message_Decode c_QuorumCert m = Ret a) ->
  (forall q, hq = Some q -> is_Some (qc_View q)) -> safe (getHighQC_loop hq msgs).
Proof.
  revert hq. induction msgs as [|m msgs IH]; intros hq Hm Hq; cbn [getHighQC_loop]; [by destruct hq|].
  destruct (Hm m) as [q Eq]; [left|]. rewrite Eq. cbn [mbind outcome_bind]. pose proof (decoded_qc_view _ _ Eq) as [v Hv].
  assert (forall m', m' ∈ msgs -> exists a, Message_Decode c_QuorumCert m' = Ret a) as Hm' by (intros; apply Hm; by right).
  destruct hq as [h|].
  - destruct (Hq h eq_refl) as [hv Hhv]. rewrite Hhv, Hv. cbn [deref mbind outcome_bind]. apply IH; [done|].
    intros q' [= <-]. case_match; by eexists.
  - apply IH; [done|]. intros q' [= <-]. by eexists.
Qed.

Lemma safe_messagesToQC code c rs ev : core_ok c -> c_current c = Some rs -> UnsignedVote code rs = Ret (Some ev) ->
  safe (messagesToQC env code c).
Proof.
  intros Hc Hcur Hv. pose proof (core_ok_rs c rs Hc Hcur) as Hr. unfold messagesToQC. rewrite Hcur. cbn [deref mbind outcome_bind].
  assert (forall msgs, GetMessages env code rs = Ret msgs -> forall m, m ∈ msgs -> exists a, Message_Decode c_Vote m = Ret a) as Hm.
  { unfold GetMessages. intros msgs Hg. repeat case_match; simplify_eq; intros m; apply values_decode; apply Hr. }
  destruct (GetMessages env code rs) as [msgs|e|] eqn:Eg; [|done|unfold GetMessages in Eg; by repeat case_match].
  specialize (Hm msgs eq_refl). cbn [mbind outcome_bind]. apply safe_bind; [auto with safe|intros _ _].
  apply safe_bind; [by apply safe_proposer|intros p _]. rewrite Hv. cbn [mbind outcome_bind deref].
  apply safe_bind; [auto with safe|intros d _]. apply safe_bind.
  - apply safe_mapM. intros ov (m & -> & Hin)%list_elem_of_fmap. destruct (Hm m Hin) as [a ->]. done.
  - intros shares _. apply safe_bind; [apply Hlib|done].
Qed.

Lemma messagesToQC_view code c qc : messagesToQC env code c = Ret qc -> is_Some (qc_View qc).
Proof.
  unfold messagesToQC. intros (rs & _ & Hq)%outcome_bind_Ret.
  repeat apply outcome_bind_Ret in Hq as (? & _ & Hq). injection Hq as <-. by eexists.
Qed.

Lemma runs_AddNewViews m c rs (Q : unit -> Core -> Prop) : core_ok c -> c_current c = Some rs ->
  (exists a, Message_Decode c_QuorumCert m = Ret a) ->
  (forall ms, core_ok (set_c_current (Some (set_rs_newViews ms rs)) c) -> Q tt (set_c_current (Some (set_rs_newViews ms rs)) c)) ->
  runs (AddNewViews m) Q c.
Proof.
  intros Hc Hcur Hd HQ. pose proof (core_ok_rs c rs Hc Hcur) as Hr.
  destruct (MessageSet_Add_total c_QuorumCert m (rs_newViews rs) Hd) as [Hs Hok]; [apply Hr|].
  apply runs_bind. eapply runs_current; [done|]. apply runs_bind, runs_lift; [done|done|]. intros ms Hms.
  eapply runs_mod_rs; [done|]. apply HQ. eapply core_ok_mod; [done|done| |done|done]. intros _.
  constructor; cbn; try apply Hr. by apply Hok.
Qed.

(** The three kinds of votes are collected alike. *)
Lemma runs_AddVote (get_set : roundState -> MessageSet) (upd : MessageSet -> roundState -> roundState) m c rs (Q : unit -> Core -> Prop) :
  core_ok c -> c_current c = Some rs -> (exists a, Message_Decode c_Vote m = Ret a) -> decodes c_Vote (get_set rs) ->
  (forall ms, decodes c_Vote ms -> rs_ok (upd ms rs) /\ rs_state (upd ms rs) = rs_state rs /\ rs_highQC (upd ms rs) = rs_highQC rs) ->
  (forall ms, core_ok (set_c_current (Some (upd ms rs)) c) -> Q tt (set_c_current (Some (upd ms rs)) c)) ->
  runs (rs ← current_rs; ms ← lift (MessageSet_Add m (get_set rs)); mod_rs (upd ms)) Q c.
Proof.
  intros Hc Hcur Hd Hset Hupd HQ. destruct (MessageSet_Add_total c_Vote m (get_set rs) Hd Hset) as [Hs Hok].
  apply runs_bind. eapply runs_current; [done|]. apply runs_bind, runs_lift; [done|done|]. intros ms Hms.
  eapply runs_mod_rs; [done|]. apply HQ. destruct (Hupd ms (Hok ms Hms)) as (Hu & Hst & Hh). by eapply core_ok_mod.
Qed.

(** *** The phases *)

(** The prologue of a handler: the logger, then a decoded body. *)
Lemma runs_decode {A B} (cd : codec A) data e (k : A -> M Core B) Q c rs : core_ok c -> c_current c = Some rs ->
  (forall a, Message_Decode cd data = Ret a -> runs (k a) Q c) ->
  runs (_ ← newLogger; a ← lift (on_err (Message_Decode cd data) e); k a) Q c.
Proof.
  intros Hc Hcur Hk. apply runs_bind. eapply runs_newLogger; [done|]. apply runs_bind, runs_lift; [done| |].
  - apply safe_on_err. unfold Message_Decode. auto with safe.
  - intros a Ha%on_err_Ret. auto.
Qed.

(** A check that reads the state. *)
Lemma runs_check {A B} (f : Core -> outcome A) (k : A -> M Core B) Q c : core_ok c -> safe (f c) ->
  (forall a, f c = Ret a -> runs (k a) Q c) -> runs (a ← asks f; k a) Q c.
Proof. intros Hc Hs Hk. apply runs_bind. by apply runs_asks. Qed.

Lemma safe_checkMsgDest c : safe (checkMsgDest c).
Proof. unfold checkMsgDest. auto with safe. Qed.

Lemma safe_checkMsgSource a c : safe (checkMsgSource a c).
Proof. unfold checkMsgSource. auto with safe. Qed.

Lemma core_out_ok c : core_ok c -> forall es, Forall effect_total es -> core_ok (set_c_out es c).
Proof. intros Hc es He. by apply core_ok_out. Qed.

Lemma safe_proposal_block c rs : rs_ok rs -> safe (proposal_block c rs).
Proof.
  intros Hr. unfold proposal_block. destruct (LockedBlock rs) as [lb|] eqn:El.
  - apply safe_bind; [eauto using safe_NumberU64, LockedBlock_number|auto with safe].
  - destruct (rs_pendingRequest rs) as [[[b|]]|] eqn:Ep; [|done|done].
    destruct (ro_pending _ Hr _ Ep) as (b' & [= <-] & Hb). apply safe_bind; [by apply safe_NumberU64|auto with safe].
Qed.

Lemma proposal_block_number c rs b : rs_ok rs -> proposal_block c rs = Ret (Some b) -> has_number b.
Proof.
  intros Hr. unfold proposal_block. destruct (LockedBlock rs) as [lb|] eqn:El.
  - intros (n & _ & Hb)%outcome_bind_Ret. case_match; [done|]. injection Hb as <-. by eapply LockedBlock_number.
  - destruct (rs_pendingRequest rs) as [[[b0|]]|] eqn:Ep; [|done|done].
    intros (n & _ & Hb)%outcome_bind_Ret. case_match; [done|]. injection Hb as <-.
    destruct (ro_pending _ Hr _ Ep) as (b' & [= <-] & Hb). done.
Qed.

Lemma runs_sendPrepare c : core_ok c -> runs (sendPrepare env) (fun _ => core_ok) c.
Proof.
  intros Hc. destruct (co_current c Hc) as (rs & Hcur & Hr & Hhigh). apply runs_bind, runs_get.
  destruct (c_IsProposer c) eqn:Ep; cbn [negb]; [|done]. apply runs_bind. eapply runs_current; [done|].
  destruct (Z.eqb_spec (rs_state rs) StateHighQC) as [Est|]; cbn [negb]; [|done].
  apply runs_bind, runs_lift; [done|by apply safe_proposal_block|]. intros [b|] Hb; [|done].
  assert (has_number b) as Hn by by eapply proposal_block_number. destruct (Hhigh eq_refl Est) as [hq Ehq].
  apply runs_bind. assert (forall es, Forall effect_total es -> runs (highQC ← lift (deref (rs_highQC rs));
      or_return (encode_val c_PackagedQC (NewPackagedQC (Some (NewProposedBlock (qc_ProposedBlock highQC) (Some b))) (Some highQC)))
        (fun payload => _ ← SetProposedBlock (NewProposedBlock (qc_ProposedBlock highQC) (Some b)); broadcast MsgTypePrepare payload))
      (fun _ => core_ok) (set_c_out es c)) as Hk.
  { intros es He. assert (core_ok (set_c_out es c)) as Hc1 by by apply core_ok_out. rewrite Ehq.
    apply runs_bind, runs_lift; [done|done|]. intros hq' [= <-].
    apply runs_or_return; [auto with safe|done|]. intros p _. apply runs_bind. eapply runs_mod_rs; [done|].
    apply runs_broadcast; [|intros; apply core_ok_out; [done|]];
      (eapply core_ok_mod; [done|done| |done|done]; intros _; constructor; cbn; try apply Hr; intros n [= <-]; by exists b). }
  apply runs_when; intros _; [by apply Hk, effects_snoc|]. specialize (Hk (c_out c) (co_out c Hc)). by rewrite set_c_out_id in Hk.
Qed.

Lemma runs_handleNewView data c : core_ok c -> is_Some (m_View data) -> runs (handleNewView env data) (fun _ => core_ok) c.
Proof.
  intros Hc Hv. destruct (core_ok_some c Hc) as [rs Hcur]. eapply runs_decode; [done|done|]. intros qc Hqc.
  apply runs_check; [done|by apply safe_c_checkView|intros _ _]. apply runs_check; [done|apply safe_checkMsgDest|intros _ _].
  apply runs_check; [done|by apply safe_verifyQC|intros _ _]. apply runs_bind, runs_wrap.
  eapply runs_AddNewViews; [done|done|by exists qc|]. intros ms Hc1. set (c1 := set_c_current _ c) in *.
  apply runs_bind. eapply runs_current; [done|]. apply runs_bind, runs_get. destruct (_ && _); [|done].
  pose proof (core_ok_rs c1 _ Hc1 eq_refl) as Hr1. apply runs_bind, runs_lift; [done| |].
  { apply safe_getHighQC_loop; [|done]. intros m. apply values_decode, Hr1. }
  intros hq _. apply runs_bind. eapply runs_mod_rs; [done|]. apply runs_bind. eapply runs_mono.
  - eapply runs_setCurrentState; [done|]. apply core_ok_current; [|revert Hr1; rs_update|by eexists].
    apply core_ok_current; [done|revert Hr1; rs_update|by eexists].
  - intros [] c2 Hc2. by apply runs_sendPrepare.
Qed.

Lemma runs_executeBlock b c : core_ok c -> has_number b -> runs (executeBlock env b) (fun _ => core_ok) c.
Proof.
  intros Hc Hb. destruct (core_ok_some c Hc) as [rs Hcur]. apply runs_bind, runs_get. destruct (c_IsProposer c).
  - eapply runs_mod_rs; [done|]. eapply core_ok_mod; [done|done|rs_update|done|done]. by intros x b' [= <-] [= <-].
  - apply runs_bind, runs_lift; [done|apply Henv|]. intros x Hx. eapply runs_mod_rs; [done|].
    eapply core_ok_mod; [done|done|rs_update|done|done]. intros x' b' [= <-]. by eapply (et_executed _ Henv).
Qed.

Lemma runs_handlePrepare data c : core_ok c -> is_Some (m_View data) -> runs (handlePrepare env data) (fun _ => core_ok) c.
Proof.
  intros Hc Hv. destruct (core_ok_some c Hc) as [rs Hcur]. eapply runs_decode; [done|done|]. intros subj Hsubj.
  apply runs_check; [done|by apply safe_c_checkView|intros _ _]. apply runs_check; [done|apply safe_checkMsgSource|intros _ _].
  apply runs_check; [done|apply safe_checkNode|]. intros u Hnode.
  assert (exists n b, pq_ProposedBlock subj = Some n /\ pb_Block n = Some b) as (n & b & En & Eb).
  { unfold checkNode in Hnode. destruct (pq_ProposedBlock subj) as [n|]; [|done]. destruct (pb_Block n) as [b|] eqn:Eb; [|done]. eauto. }
  pose proof (decoded_subject_ok _ _ _ _ Hsubj En Eb) as Hb. rewrite En.
  apply runs_bind, runs_lift; [done|done|]. intros n' [= <-]. rewrite Eb. apply runs_bind, runs_lift; [done|done|]. intros b' [= <-].
  apply runs_check; [done|by apply safe_checkBlock|intros _ _]. apply runs_bind, runs_lift; [done|apply safe_on_err, Henv|intros _ _].
  apply runs_bind. eapply runs_mono; [by apply runs_executeBlock|]. intros [] c1 Hc1.
  apply runs_check; [done|by apply safe_verifyQC|intros _ _]. apply runs_check; [done|apply safe_on_err; by apply safe_safeNode|intros _ _].
  apply runs_bind, runs_get. destruct (core_ok_some c1 Hc1) as [rs1 Hcur1]. apply runs_bind. eapply runs_current; [done|].
  apply runs_bind. eapply runs_mono with (Q := fun _ => core_ok).
  { apply runs_when; intros _; [|done]. apply runs_sendVote; [done|by apply core_out_ok]. }
  intros [] c2 Hc2. destruct (co_current c2 Hc2) as (rs2 & Hcur2 & Hr2 & Hhigh2). apply runs_bind, runs_get, runs_bind.
  eapply runs_current; [done|]. apply runs_when; [|done]. intros [Hp _]%andb_true_iff. apply negb_true_iff in Hp.
  apply runs_bind. unfold SetProposedBlock. rewrite Eb. eapply runs_mod_rs; [done|]. set (c3 := set_c_current _ c2).
  assert (rs_ok (set_rs_node (Some n) rs2)) as Hr3.
  { constructor; cbn; try apply Hr2. intros n' [= <-]. by exists b. }
  assert (core_ok c3) as Hc3 by by apply core_ok_current.
  apply runs_bind. eapply runs_mono; [eapply runs_setCurrentState; [done|]|].
  - apply core_ok_current; [done|revert Hr3; rs_update|]. unfold c3, c_IsProposer, c_Address in *. cbn in *. by rewrite Hp.
  - intros [] c4 Hc4. apply runs_sendVote; [done|by apply core_out_ok].
Qed.

Lemma runs_handlePrepareVote data c : core_ok c -> runs (handlePrepareVote env data) (fun _ => core_ok) c.
Proof.
  intros Hc. destruct (core_ok_some c Hc) as [rs Hcur]. pose proof (core_ok_rs c rs Hc Hcur) as Hr.
  eapply runs_decode; [done|done|]. intros vote Hvote.
  apply runs_check; [done|by apply safe_c_checkView|intros _ _]. apply runs_check; [done|by apply safe_checkVote|].
  intros u Hu. destruct (checkVote_vote _ _ _ _ _ Hu Hcur) as [ev Hev].
  apply runs_check; [done|apply safe_checkMsgDest|intros _ _]. apply runs_bind, runs_wrap.
  eapply (runs_AddVote rs_prepareVotes set_rs_prepareVotes); [done|done|by exists vote|apply Hr| |].
  { intros ms Hms. split; [|done]. constructor; cbn; try apply Hr. done. }
  intros ms Hc1. set (c1 := set_c_current _ c) in *. apply runs_bind. eapply runs_current; [done|].
  apply runs_bind, runs_get. destruct (_ && _); [|done]. destruct (UnsignedVote_code _ (m_Code data) _ _ Hev) as [ev' Hev'].
  apply runs_check; [done|apply safe_on_err; by eapply safe_messagesToQC|]. intros qc _.
  apply runs_bind. eapply runs_mono; [by apply runs_acceptPrepareQC|]. intros [] c2 Hc2. apply runs_sendQC; [done|by apply core_out_ok].
Qed.

Lemma runs_handlePreCommit data c : core_ok c -> is_Some (m_View data) -> runs (handlePreCommit env data) (fun _ => core_ok) c.
Proof.
  intros Hc Hv. destruct (core_ok_some c Hc) as [rs Hcur]. eapply runs_decode; [done|done|]. intros qc Hqc.
  apply runs_check; [done|by apply safe_c_checkView|intros _ _]. apply runs_check; [done|apply safe_checkMsgSource|intros _ _].
  apply runs_check; [done|by apply safe_verifyQC|intros _ _]. apply runs_bind, runs_get, runs_bind. eapply runs_current; [done|].
  apply runs_bind. eapply runs_mono with (Q := fun _ => core_ok).
  { apply runs_when; intros _; [|done]. apply runs_sendVote; [done|by apply core_out_ok]. }
  intros [] c2 Hc2. destruct (core_ok_some c2 Hc2) as [rs2 Hcur2]. apply runs_bind, runs_get, runs_bind.
  eapply runs_current; [done|]. apply runs_when; intros _; [|done].
  apply runs_bind. eapply runs_mono; [by apply runs_acceptPrepareQC|]. intros [] c3 Hc3. apply runs_sendVote; [done|by apply core_out_ok].
Qed.

Lemma runs_plain_decode {A B} (cd : codec A) data (k : A -> M Core B) Q c rs : core_ok c -> c_current c = Some rs ->
  (forall a, Message_Decode cd data = Ret a -> runs (k a) Q c) ->
  runs (_ ← newLogger; a ← lift (Message_Decode cd data); k a) Q c.
Proof.
  intros Hc Hcur Hk. apply runs_bind. eapply runs_newLogger; [done|]. apply runs_bind, runs_lift; [done| |done].
  unfold Message_Decode. auto with safe.
Qed.

Lemma runs_handlePreCommitVote data c : core_ok c -> runs (handlePreCommitVote env data) (fun _ => core_ok) c.
Proof.
  intros Hc. destruct (core_ok_some c Hc) as [rs Hcur]. pose proof (core_ok_rs c rs Hc Hcur) as Hr.
  eapply runs_plain_decode; [done|done|]. intros vote Hvote.
  apply runs_check; [done|by apply safe_c_checkView|intros _ _]. apply runs_check; [done|by apply safe_checkVote|].
  intros u Hu. destruct (checkVote_vote _ _ _ _ _ Hu Hcur) as [ev Hev].
  apply runs_check; [done|apply safe_checkMsgDest|intros _ _]. apply runs_bind, runs_wrap.
  eapply (runs_AddVote rs_preCommitVotes set_rs_preCommitVotes); [done|done|by exists vote|apply Hr| |].
  { intros ms Hms. split; [|done]. constructor; cbn; try apply Hr. done. }
  intros ms Hc1. set (c1 := set_c_current _ c) in *. apply runs_bind. eapply runs_current; [done|].
  apply runs_bind, runs_get. destruct (_ && _); [|done]. destruct (UnsignedVote_code _ (m_Code data) _ _ Hev) as [ev' Hev'].
  apply runs_check; [done|by eapply safe_messagesToQC|]. intros qc Hqc%messagesToQC_view.
  apply runs_bind. eapply runs_mono; [by apply runs_acceptLockQC|]. intros [] c2 Hc2. apply runs_sendQC; [done|by apply core_out_ok].
Qed.

Lemma runs_handleCommit data c : core_ok c -> is_Some (m_View data) -> runs (handleCommit env data) (fun _ => core_ok) c.
Proof.
  intros Hc Hv. destruct (core_ok_some c Hc) as [rs Hcur]. eapply runs_decode; [done|done|]. intros qc Hqc.
  apply runs_check; [done|by apply safe_c_checkView|intros _ _]. apply runs_check; [done|apply safe_checkMsgSource|intros _ _].
  apply runs_check; [done|by apply safe_verifyQC|intros _ _]. apply runs_bind, runs_get, runs_bind. eapply runs_current; [done|].
  apply runs_bind. eapply runs_mono with (Q := fun _ => core_ok).
  { apply runs_when; intros _; [|done]. apply runs_sendVote; [done|by apply core_out_ok]. }
  intros [] c2 Hc2. destruct (core_ok_some c2 Hc2) as [rs2 Hcur2]. apply runs_bind, runs_get, runs_bind.
  eapply runs_current; [done|]. apply runs_when; intros _; [|done].
  apply runs_bind. eapply runs_mono; [apply runs_acceptLockQC; [done|by eapply decoded_qc_view]|].
  intros [] c3 Hc3. apply runs_sendVote; [done|by apply core_out_ok].
Qed.

(** *** Decisions *)

Lemma runs_set_executed b st c : core_ok c -> has_number b -> runs (mod_rs (set_rs_executed (Some (mkExecuted (Some b) st))))
  (fun _ c' => core_ok c' /\ exists rs, c_current c' = Some rs /\ is_Some (rs_executed rs)) c.
Proof.
  intros Hc Hb. destruct (core_ok_some c Hc) as [rs Hcur]. eapply runs_mod_rs; [done|]. split; [|eauto].
  eapply core_ok_mod; [done|done|rs_update|done|done]. by intros x b' [= <-] [= <-].
Qed.

Lemma runs_commit b c : core_ok c -> has_number b -> runs (commit env b) (fun _ => core_ok) c.
Proof.
  intros Hc Hb. destruct (core_ok_some c Hc) as [rs Hcur]. apply runs_bind. eapply runs_current; [done|].
  destruct (LockedBlock rs) as [lb|]; [|done]. destruct (negb _); [done|]. apply runs_bind, runs_get, runs_bind.
  eapply runs_mono with (Q := fun _ c' => core_ok c' /\ exists rs', c_current c' = Some rs' /\ is_Some (rs_executed rs')).
  - apply runs_when.
    + intros _. destruct (c_IsProposer c).
      * by apply runs_set_executed.
      * apply runs_bind, runs_lift; [done|apply safe_on_err, Henv|]. intros x _. by apply runs_set_executed.
    + intros Hm%negb_false_iff. split; [done|]. exists rs. split; [done|]. unfold executed_matches in Hm. by destruct (rs_executed rs).
  - intros [] c1 (Hc1 & rs1 & Hcur1 & [x Ex]). apply runs_bind. eapply runs_current; [done|]. rewrite Ex.
    apply runs_bind, runs_lift; [done|done|]. intros x' [= <-]. apply runs_bind, runs_modify.
    assert (effect_total (ECommit (rs_height rs1) (rs_node rs1) x)) as He by (intros b'; by apply (ro_executed _ (core_ok_rs _ _ Hc1 Hcur1))).
    apply runs_lift; [by apply core_ok_out; [apply effects_snoc|]|by apply Henv|]. intros _ _. by apply core_ok_out; [apply effects_snoc|].
Qed.

Lemma runs_handleCommitVote data c : core_ok c -> runs (handleCommitVote env data) (fun _ => core_ok) c.
Proof.
  intros Hc. destruct (core_ok_some c Hc) as [rs Hcur]. pose proof (core_ok_rs c rs Hc Hcur) as Hr.
  eapply runs_plain_decode; [done|done|]. intros vote Hvote.
  apply runs_check; [done|by apply safe_c_checkView|intros _ _]. apply runs_check; [done|apply safe_checkMsgDest|intros _ _].
  apply runs_check; [done|by apply safe_checkVote|].
  intros u Hu. destruct (checkVote_vote _ _ _ _ _ Hu Hcur) as [ev Hev]. apply runs_bind. eapply runs_current; [done|].
  destruct (LockedBlock rs) as [lb|] eqn:El; [|done]. apply runs_bind, runs_wrap.
  eapply (runs_AddVote rs_commitVotes set_rs_commitVotes); [done|done|by exists vote|apply Hr| |].
  { intros ms Hms. split; [|done]. constructor; cbn; try apply Hr. done. }
  intros ms Hc1. set (c1 := set_c_current _ c) in *. apply runs_bind. eapply runs_current; [done|].
  apply runs_bind, runs_get. destruct (_ && _); [|done]. destruct (UnsignedVote_code _ (m_Code data) _ _ Hev) as [ev' Hev'].
  apply runs_check; [done|by eapply safe_messagesToQC|]. intros qc _.
  apply runs_bind, runs_lift; [done|apply Henv|]. intros sb Hsb.
  apply runs_bind. eapply runs_mono; [apply runs_acceptCommitQC; [done|]|].
  { eapply (et_sealed _ Henv); [|done]. by eapply LockedBlock_number. }
  intros [] c2 Hc2. destruct (core_ok_some c2 Hc2) as [rs2 Hcur2]. apply runs_bind. eapply runs_newLogger; [done|].
  apply runs_or_return; [auto with safe|done|]. intros p _. apply runs_broadcast; [done|by apply core_out_ok].
Qed.

Lemma check_decision_total qc h c : core_ok c -> safe (check_decision qc h c) /\
  forall b, check_decision qc h c = Ret b -> has_number b.
Proof.
  intros Hc. destruct (core_ok_some c Hc) as [rs Hcur]. pose proof (core_ok_rs c rs Hc Hcur) as Hr.
  unfold check_decision. rewrite Hcur. cbn [deref mbind outcome_bind].
  destruct (LockedBlock rs) as [lb|] eqn:El; [|done]. pose proof (LockedBlock_number _ _ Hr El) as Hlb.
  destruct (fail_if _ _) as [[]|e|] eqn:Ef; [|done|by destruct (_ || _)]. cbn [mbind outcome_bind].
  destruct (rs_node rs) as [n|] eqn:En; [|done]. destruct (pb_Block n) as [b|] eqn:Eb; [|done].
  pose proof (safe_node_Hash n (ro_node _ Hr n En)) as Hs. split.
  - apply safe_bind; [done|auto with safe].
  - intros b' Hd. apply outcome_bind_Ret in Hd as (h' & _ & Hd).
    do 2 apply outcome_bind_Ret in Hd as ([] & _ & Hd). by injection Hd as <-.
Qed.

Lemma runs_handleDecide data c : core_ok c -> is_Some (m_View data) -> runs (handleDecide env data) (fun _ => core_ok) c.
Proof.
  intros Hc Hv. destruct (core_ok_some c Hc) as [rs Hcur]. eapply runs_decode; [done|done|]. intros d Hd.
  apply runs_check; [done|by apply safe_c_checkView|intros _ _]. apply runs_check; [done|apply safe_checkMsgSource|intros _ _].
  apply runs_check; [done|by apply safe_verifyQC|]. intros u Hu.
  destruct (dip_CommitQC d) as [qc|]; [|done]. apply runs_bind, runs_lift; [done|done|]. intros qc' [= <-].
  destruct (check_decision_total qc (dip_BlockHash d) c Hc) as [Hs Hn].
  apply runs_check; [done|done|]. intros lb Hlb%Hn. apply runs_bind, runs_get, runs_bind. eapply runs_current; [done|].
  apply runs_bind. eapply runs_mono with (Q := fun _ => core_ok).
  { apply runs_when; intros _; [|done]. by apply runs_commit. }
  intros [] c2 Hc2. destruct (core_ok_some c2 Hc2) as [rs2 Hcur2]. apply runs_bind, runs_get, runs_bind.
  eapply runs_current; [done|]. apply runs_bind. eapply runs_mono with (Q := fun _ => core_ok).
  { apply runs_when; intros _; [|done]. apply runs_bind, runs_lift; [done|apply Henv|]. intros sb Hsb.
    apply runs_bind. eapply runs_mono; [apply runs_acceptCommitQC; [done|by eapply (et_sealed _ Henv)]|].
    intros [] c3 Hc3. apply runs_commit; [done|by eapply (et_sealed _ Henv)]. }
  intros [] c3 Hc3. by apply runs_startNewRound.
Qed.

(** *** Requests, timeouts and dispatch *)

Lemma runs_handleFinalCommitted h c : core_ok c -> is_Some (hdr_Number h) -> runs (handleFinalCommitted env h) (fun _ => core_ok) c.
Proof.
  intros Hc [n Hn]. destruct (core_ok_some c Hc) as [rs Hcur]. apply runs_bind. eapply runs_newLogger; [done|].
  rewrite Hn. apply runs_bind, runs_lift; [done|done|]. intros n' _. apply runs_bind. eapply runs_current; [done|].
  apply runs_when; intros _; [by apply runs_startNewRound|done].
Qed.

Lemma core_ok_pending c r : core_ok c -> request_ok r -> runs (mod_rs (SetPendingRequest r)) (fun _ => core_ok) c.
Proof.
  intros Hc Hr. destruct (core_ok_some c Hc) as [rs Hcur]. eapply runs_mod_rs; [done|].
  eapply core_ok_mod; [done|done| |unfold SetPendingRequest; by case_match|unfold SetPendingRequest; by case_match].
  intros Ho. unfold SetPendingRequest. destruct (rs_pendingRequest rs); [done|]. constructor; cbn; try apply Ho.
  by intros r' [= <-].
Qed.

Lemma runs_handleRequest b c : core_ok c -> (forall blk, b = Some blk -> has_number blk) ->
  runs (handleRequest env (mkRequest b)) (fun _ => core_ok) c.
Proof.
  intros Hc Hb. destruct (core_ok_some c Hc) as [rs Hcur]. pose proof (core_ok_rs c rs Hc Hcur) as Hr.
  apply runs_bind. eapply runs_newLogger; [done|]. apply runs_bind, runs_get.
  pose proof (safe_checkRequestMsg (mkRequest b) c Hc Hb) as Hs.
  assert (forall blk, b = Some blk -> request_ok (mkRequest b)) as Hok by (intros blk E; exists blk; auto).
  destruct b as [b|]; [specialize (Hok b eq_refl)|by eapply runs_bind, runs_when].
  destruct (checkRequestMsg _ c) as [[]|e|] eqn:Ec; [| |done].
  - apply runs_bind. eapply runs_current; [done|]. destruct (_ =? _); [by apply runs_storeRequestMsg|].
    destruct (_ =? _).
    + apply runs_bind, runs_lift; [done| |].
      { destruct (rs_pendingRequest rs) as [r|] eqn:Ep; [|done]. destruct (ro_pending _ Hr r Ep) as (b' & -> & Hn).
        apply safe_bind; [done|]. intros x [= <-]. apply safe_bind; [by apply safe_NumberU64|done]. }
      intros stale _. apply runs_when; intros _; [|done]. apply runs_bind. eapply runs_mono; [by apply core_ok_pending|].
      intros [] c1 Hc1. by apply runs_sendPrepare.
    + apply runs_when; intros _; [by apply core_ok_pending|done].
  - apply runs_bind, runs_when; intros _; [|done]. eapply runs_mono; [by apply runs_storeRequestMsg|]. by intros [] c1 Hc1.
Qed.

Lemma runs_dispatch m c : core_ok c -> is_Some (m_View m) -> runs (dispatch env m) (fun _ => core_ok) c.
Proof.
  intros Hc Hv. unfold dispatch.
  destruct (m_Code m =? MsgTypeNewView); [by apply runs_handleNewView|].
  destruct (m_Code m =? MsgTypePrepare); [by apply runs_handlePrepare|].
  destruct (m_Code m =? MsgTypePrepareVote); [by apply runs_handlePrepareVote|].
  destruct (m_Code m =? MsgTypePreCommit); [by apply runs_handlePreCommit|].
  destruct (m_Code m =? MsgTypePreCommitVote); [by apply runs_handlePreCommitVote|].
  destruct (m_Code m =? MsgTypeCommit); [by apply runs_handleCommit|].
  destruct (m_Code m =? MsgTypeCommitVote); [by apply runs_handleCommitVote|].
  destruct (m_Code m =? MsgTypeDecide); [by apply runs_handleDecide|].
  done.
Qed.

Lemma runs_handleCheckedMsg m c : core_ok c -> is_Some (m_View m) -> runs (handleCheckedMsg env m) (fun _ => core_ok) c.
Proof.
  intros Hc Hv. unfold runs, handleCheckedMsg. destruct (c_current c); [|done].
  pose proof (runs_dispatch m c Hc Hv) as Hd. unfold runs in Hd. destruct (dispatch env m c) as [[[]|e|] c1]; [done| |done].
  destruct (decide _); [|done]. fold (runs (_ ← storeBacklog m; throw (A:=unit) e) (fun _ => core_ok) c1).
  apply runs_bind. eapply runs_mono; [by apply runs_storeBacklog|]. by intros [] c2 Hc2.
Qed.

Lemma runs_handleMsg src payload c : core_ok c -> runs (handleMsg env src payload) (fun _ => core_ok) c.
Proof.
  intros Hc. apply runs_bind, runs_get, runs_bind, runs_lift; [done|apply safe_on_err, safe_FromPayload|].
  intros m Hm%on_err_Ret%FromPayload_view. destruct (GetByAddress src (c_valSet c)) as [i v].
  destruct (_ || _); [done|]. by apply runs_handleCheckedMsg.
Qed.

Lemma runs_handleTimeoutMsg c : core_ok c -> runs (handleTimeoutMsg env) (fun _ => core_ok) c.
Proof.
  intros Hc. destruct (core_ok_some c Hc) as [rs Hcur]. apply runs_bind. eapply runs_current; [done|]. by apply runs_startNewRound.
Qed.

(** What is posted locally is complete; messages of peers are arbitrary. *)
Definition event_total (ev : Event) : Prop :=
  match ev with
  | RequestEvent b => forall blk, b = Some blk -> has_number blk
  | BacklogEvent _ m => is_Some (m_View m)
  | FinalCommittedEvent h => is_Some (hdr_Number h)
  | MessageEvent _ _ | TimeoutEvent => True
  end.

Lemma handleEvent_total ev c : core_ok c -> event_total ev ->
  (handleEvent env ev c).1 = Ret tt /\ core_ok (handleEvent env ev c).2.
Proof.
  intros Hc He. assert (forall m : M Core unit, runs m (fun _ => core_ok) c -> (ignore m c).1 = Ret tt /\ core_ok (ignore m c).2) as Hi.
  { intros m. unfold runs, ignore. by destruct (m c) as [[[]|e|] c']. }
  apply Hi. destruct ev as [b|src p|src m| |h].
  - by apply runs_handleRequest.
  - by apply runs_handleMsg.
  - by apply runs_handleCheckedMsg.
  - by apply runs_handleTimeoutMsg.
  - by apply runs_handleFinalCommitted.
Qed.

(** Starting the engine establishes the invariant. *)
Lemma start_runs db timeout sg vs : valset_live vs -> is_Some (e_LastProposal env).1 ->
  runs (Core_Start env) (fun _ => core_ok) (Core_New db timeout sg vs).
Proof.
  intros Hvs [lp Hlp]. destruct (e_LastProposal env) as [o addr] eqn:El. cbn in Hlp. subst o.
  destruct (et_last _ Henv lp addr El) as (n & Hn & Hpos).
  set (c0 := set_c_current None (set_c_isRunning true (Core_New db timeout sg vs))).
  assert (Core_Start env (Core_New db timeout sg vs) = enter_round env 0 lp addr false c0) as E.
  { unfold Core_Start. rewrite (bind_Ret _ _ _ tt c0) by done. unfold startNewRound.
    rewrite (bind_Ret get _ c0 c0 c0) by done. cbn [negb c_isRunning c0 set_c_current set_c_isRunning]. rewrite El.
    rewrite (bind_Ret _ _ c0 (u64 n) c0); [done|]. unfold lift, Block_NumberU64. by rewrite Hn. }
  assert (base_ok c0) as Hb.
  { constructor; [done| |apply map_Forall_empty|constructor]. exists []. split; [apply Prque_New_rel|done]. }
  unfold runs. rewrite E. by eapply runs_enter_round.
Qed.

Lemma start_ok db timeout sg vs : valset_live vs -> is_Some (e_LastProposal env).1 ->
  core_ok (Core_Start env (Core_New db timeout sg vs)).2.
Proof.
  intros Hvs Hl. pose proof (start_runs db timeout sg vs Hvs Hl) as Hr. unfold runs in Hr.
  by destruct (Core_Start env (Core_New db timeout sg vs)) as [[[]|e|] c1].
Qed.

End Handlers.
End Checks.

(** C7: the engine does not panic.  Started on a chain with a head, with a
    non-empty validator set and a rotating policy, it handles any sequence of
    events to the end, whatever the peers' messages contain, and its state
    stays well-formed; the handlers' errors are values.  The surroundings may
    answer each event differently, as long as they do not panic themselves and
    the database accepts writes. *)
Theorem engine_never_panics env db timeout sg vs evs :
  crypto_total -> env_total env -> is_Some (e_LastProposal env).1 -> valset_live vs ->
  Forall (fun p => env_total p.1 /\ event_total p.2) evs ->
  let c := (Core_Start env (Core_New db timeout sg vs)).2 in
  (handleEvents evs c).1 = Ret tt /\ core_ok (handleEvents evs c).2.
Proof.
  intros Hlib He Hl Hvs Hevs. cbv zeta. pose proof (start_ok Hlib env He db timeout sg vs Hvs Hl) as Hc. revert Hc.
  generalize (Core_Start env (Core_New db timeout sg vs)).2.
  induction Hevs as [|[env' ev] evs [He' Hev] _ IH]; intros c Hc; cbn [handleEvents]; [done|].
  destruct (handleEvent_total Hlib env' He' ev c Hc Hev) as [Hr Hc'].
  destruct (handleEvent env' ev c) as [o c'] eqn:E. cbn in Hr, Hc'. subst o. rewrite (bind_Ret _ _ c tt c') by done. by apply IH.
Qed.

End Progress.
