(* ===== verification/Behaviour.v ===== *)
(** * What the handlers do

    Properties of single handlers that the safety theorems do not show: which
    certificate a leader proposes on, when it issues one, what a locked replica
    refuses, which requests are posted again when a round starts, what the
    round timer is set to, what survives a restart, that a message which was
    sent is received, and what a certificate for height 0 does. *)
From Stdlib Require Import ZArith Lia Strings.Byte.
From stdpp Require Import base list option strings gmap.
From S2P Require Import Prelude Errors Rlp Codec Common Validator Block Types Signer Prque MessageSet Backlog RoundState Core Outbox Refinement Progress.
Open Scope Z_scope.

Section Behaviour.
Context `{Keccak} `{Crypto}.

(** ** The certificate the leader proposes on *)

Lemma getHighQC_loop_spec hq msgs : (forall m, m ∈ msgs -> exists q, Message_Decode c_QuorumCert m = Ret q) ->
  (forall q, hq = Some q -> is_Some (qc_View q)) -> (hq = None -> msgs <> []) ->
  exists qc v, getHighQC_loop hq msgs = Ret qc /\ qc_View qc = Some v /\
    (hq = Some qc \/ exists m, m ∈ msgs /\ Message_Decode c_QuorumCert m = Ret qc) /\
    (forall q w, hq = Some q -> qc_View q = Some w -> ~ view_lt v w) /\
    (forall m q w, m ∈ msgs -> Message_Decode c_QuorumCert m = Ret q -> qc_View q = Some w -> ~ view_lt v w).
Proof.
  revert hq. induction msgs as [|m msgs IH]; intros hq Hm Hq Hne.
  { destruct hq as [q|]; [|by destruct (Hne eq_refl)]. destruct (Hq q eq_refl) as [v Hv]. exists q, v.
    split_and!; [done|done|by left| |by intros m q' w Hin%not_elem_of_nil].
    intros q' w [= <-] Hw. rewrite Hv in Hw. injection Hw as <-. apply view_lt_irrefl. }
  destruct (Hm m) as [q Eq]; [left|]. destruct (decoded_qc_view _ _ Eq) as [w Hw].
  assert (forall m', m' ∈ msgs -> exists q, Message_Decode c_QuorumCert m' = Ret q) as Hm' by (intros; apply Hm; by right).
  cbn [getHighQC_loop]. rewrite Eq. cbn [mbind outcome_bind]. destruct hq as [h|].
  - destruct (Hq h eq_refl) as [hv Hhv]. rewrite Hhv, Hw. cbn [deref mbind outcome_bind].
    set (q1 := if View_Cmp hv w <? 0 then q else h).
    assert (exists v1, qc_View q1 = Some v1 /\ ~ view_lt v1 hv /\ ~ view_lt v1 w) as (v1 & Hv1 & Hh1 & Hw1).
    { unfold q1. destruct (Z.ltb_spec (View_Cmp hv w) 0) as [Hlt|Hge].
      - exists w. split_and!; [done| |apply view_lt_irrefl]. apply View_Cmp_neg in Hlt. by apply view_lt_asym.
      - exists hv. split_and!; [done|apply view_lt_irrefl|]. intros Hlt%View_Cmp_neg. lia. }
    destruct (IH (Some q1)) as (qc & v & E & Hv & Hin & Hmax1 & Hmax2); [done|intros ? [= <-]; by eexists|done|].
    assert (~ view_lt v v1) as Hvv by by eapply Hmax1.
    assert (forall u, ~ view_lt v1 u -> ~ view_lt v u) as Htr.
    { intros u Hu Hlt. apply Hu. destruct v, v1, u. unfold view_lt in *. cbn in *. lia. }
    exists qc, v. split_and!; [done|done| | |].
    + destruct Hin as [[= <-]|(m' & Hin & Ed)]; [|right; exists m'; split; [by right|done]].
      unfold q1 in *. case_match; [right; exists m; split; [left|done]|by left].
    + intros q' u [= <-] Hu. rewrite Hhv in Hu. injection Hu as <-. by apply Htr.
    + intros m' q' u [->|Hin']%elem_of_cons Hd Hu; [|by eapply Hmax2]. rewrite Eq in Hd. injection Hd as <-.
      rewrite Hw in Hu. injection Hu as <-. by apply Htr.
  - destruct (IH (Some q)) as (qc & v & E & Hv & Hin & Hmax1 & Hmax2); [done|intros ? [= <-]; by eexists|done|].
    exists qc, v. split_and!; [done|done| |done|].
    + destruct Hin as [[= <-]|(m' & Hin & Ed)]; right; [exists m|exists m']; (split; [constructor|done]); done.
    + intros m' q' u [->|Hin']%elem_of_cons Hd Hu; [|by eapply Hmax2]. rewrite Eq in Hd. injection Hd as <-. by eapply Hmax1.
Qed.

(** The leader proposes on a highest certificate: among the new-view
    messages it has collected, [getHighQC] returns the certificate of one of
    them and no other has a higher view; whatever the order in which the map
    of messages is iterated, the view is the same. *)
Theorem highest_certificate env env' rs :
  order_ok (e_order env) -> order_ok (e_order env') ->
  decodes c_QuorumCert (rs_newViews rs) -> ms_msgs (rs_newViews rs) <> ∅ ->
  exists qc qc' v, getHighQC env rs = Ret qc /\ getHighQC env' rs = Ret qc' /\
    qc_View qc = Some v /\ qc_View qc' = Some v /\
    (exists a m, ms_msgs (rs_newViews rs) !! a = Some m /\ Message_Decode c_QuorumCert m = Ret qc) /\
    (forall a m q w, ms_msgs (rs_newViews rs) !! a = Some m -> Message_Decode c_QuorumCert m = Ret q ->
       qc_View q = Some w -> ~ view_lt v w).
Proof.
  intros Ho Ho' Hd Hne.
  assert (forall o m, order_ok o -> m ∈ MessageSet_Values o (rs_newViews rs) <-> exists a, ms_msgs (rs_newViews rs) !! a = Some m) as Hval.
  { intros o m Hok. rewrite (MessageSet_Values_perm _ _ Hok), list_elem_of_fmap. split.
    - intros ([a m'] & -> & Hin%elem_of_map_to_list). by exists a.
    - intros [a Ha]. exists (a, m). split; [done|]. by apply elem_of_map_to_list. }
  assert (forall o, order_ok o -> exists qc v, getHighQC_loop None (MessageSet_Values o (rs_newViews rs)) = Ret qc /\ qc_View qc = Some v /\
    (exists a m, ms_msgs (rs_newViews rs) !! a = Some m /\ Message_Decode c_QuorumCert m = Ret qc) /\
    (forall a m q w, ms_msgs (rs_newViews rs) !! a = Some m -> Message_Decode c_QuorumCert m = Ret q ->
       qc_View q = Some w -> ~ view_lt v w)) as Hloop.
  { intros o Hok. destruct (getHighQC_loop_spec None (MessageSet_Values o (rs_newViews rs))) as (qc & v & E & Hv & Hin & _ & Hmax).
    - intros m [a Ha]%Hval; [|done]. exact (Hd _ _ Ha).
    - done.
    - intros _ Hnil. apply map_choose in Hne as (a & m & Ha).
      assert (m ∈ MessageSet_Values o (rs_newViews rs)) as Hm by (apply Hval; eauto). rewrite Hnil in Hm. by apply not_elem_of_nil in Hm.
    - exists qc, v. split_and!; [done|done| |].
      + destruct Hin as [?|(m & [a Ha]%Hval & Hm)]; [done|eauto|done].
      + intros a m q w Ha. apply Hmax. apply Hval; eauto. }
  destruct (Hloop _ Ho) as (qc & v & E & Hv & Hin & Hmax), (Hloop _ Ho') as (qc' & v' & E' & Hv' & (a' & m' & Ha' & Hm') & Hmax').
  exists qc, qc', v. destruct Hin as (a & m & Ha & Hm).
  assert (v' = v) as ->.
  { pose proof (Hmax _ _ _ _ Ha' Hm' Hv') as N1. pose proof (Hmax' _ _ _ _ Ha Hm Hv) as N2.
    destruct (View_Cmp_cases v v') as [|[|]]; destruct v, v'; unfold view_lt in *; cbn in *; f_equal; lia. }
  split_and!; eauto.
Qed.

(** ** What a locked replica refuses *)

(** C10: a locked replica votes for nothing but its locked block: a prepare
    message with another block is refused with an error and leaves the
    replica's state exactly as it was, however high the certificate that
    justifies the proposal, because [checkBlock] comes before [safeNode]. *)
Theorem locked_replica_rejects env data c rs lb s n b :
  core_ok c -> c_current c = Some rs -> LockedBlock rs = Some lb ->
  Message_Decode c_PackagedQC data = Ret s -> pq_ProposedBlock s = Some n -> pb_Block n = Some b ->
  Block_Hash b <> Block_Hash lb ->
  exists e, handlePrepare env data c = (Err e, c).
Proof.
  intros Hc Hcur Hl Hs Hn Hb Hne. unfold handlePrepare.
  rewrite (bind_Ret _ _ c tt c) by (unfold newLogger; erewrite bind_Ret by (unfold current_rs, asks; by rewrite Hcur); done).
  rewrite Hs. rewrite (bind_Ret _ _ c s c) by done.
  assert (forall (f : Core -> outcome unit) (k : unit -> M Core unit), safe (f c) ->
    (f c = Ret tt -> exists e, k tt c = (Err e, c)) -> exists e, (asks f ≫= k) c = (Err e, c)) as Hask.
  { intros f k Hf Hk. unfold mbind, M_bind, asks. destruct (f c) as [[]|e|]; [by apply Hk|by eexists|done]. }
  apply Hask; [by apply safe_c_checkView|intros _]. apply Hask; [apply safe_checkMsgSource|intros _].
  apply Hask; [apply safe_checkNode|intros _]. rewrite Hn. rewrite (bind_Ret _ _ c n c) by done. rewrite Hb.
  rewrite (bind_Ret _ _ c b c) by done. apply Hask; [apply safe_checkBlock; [done|by eapply decoded_subject_ok]|].
  intros Hblk. by destruct (checkBlock_locked b c tt rs lb Hblk Hcur Hl).
Qed.

(** ** The round timer *)

(** Up to round 33 the timeout is the request timeout plus [2^round]
    seconds (nothing is added in round 0) and grows with the round; in round 34
    the product leaves the int64 range and the timeout is negative, so the
    timer fires at once. *)
Theorem round_timeout_bounds env t : 0 <= t <= 600000000000 ->
  roundTimeout env t 0 = t * 1000000 /\
  (forall r, 1 <= r <= 33 -> roundTimeout env t r = t * 1000000 + 2 ^ r * 1000000000) /\
  (forall r r', 0 <= r < r' -> r' <= 33 -> roundTimeout env t r < roundTimeout env t r') /\
  roundTimeout env t 34 < 0.
Proof.
  intros Ht. assert (roundTimeout env t 0 = t * 1000000) as H0' by (unfold roundTimeout; rewrite Z.ltb_irrefl, (i64_small t), (i64_small (t * 1000000)); lia).
  assert (forall r, 1 <= r <= 33 -> roundTimeout env t r = t * 1000000 + 2 ^ r * 1000000000) as Hr.
  { intros r Hr. assert (2 ^ r <= 2 ^ 33) by (apply Z.pow_le_mono_r; lia). assert (0 < 2 ^ r) by (apply Z.pow_pos_nonneg; lia).
    unfold roundTimeout, pow2_duration. destruct (Z.ltb_spec 0 r); [|lia]. destruct (Z.ltb_spec r 63); [|lia].
    rewrite (i64_small t), (i64_small (t * 1000000)), (i64_small (2 ^ r * 1000000000)) by lia. apply i64_small. lia. }
  split_and!; [done|done| |].
  - intros r r' Hrr Hr'. destruct (decide (r = 0)) as [->|].
    + rewrite H0', Hr by lia. assert (0 < 2 ^ r') by (apply Z.pow_pos_nonneg; lia). lia.
    + rewrite !Hr by lia. assert (2 ^ r < 2 ^ r') by (apply Z.pow_lt_mono_r; lia). lia.
  - change (i64 (i64 (i64 t * 1000000) + i64 (2 ^ 34 * 1000000000)) < 0). rewrite (i64_small t), (i64_small (t * 1000000)) by lia.
    replace (i64 (2 ^ 34 * 1000000000)) with (-1266874889709551616) by done. rewrite i64_small; lia.
Qed.

(** ** Pending requests *)

Definition is_waiting (check : Request -> outcome unit) (r : Request) : bool :=
  match check r with Err e => bool_decide (e = ErrFutureMessage) | _ => false end.
Definition is_due (check : Request -> outcome unit) (r : Request) : bool :=
  match check r with Ret _ => true | _ => false end.

(** The loop, when no request that has to wait outranks one that has not. *)
Lemma drain_requests_spec check fuel q l posted : pq_rel q l -> (length l <= fuel)%nat ->
  Forall (fun x => request_ok (it_value x)) l -> (forall r, request_ok r -> safe (check r)) ->
  (forall x y, x ∈ l -> y ∈ l -> is_waiting check (it_value x) = true -> is_waiting check (it_value y) = false ->
     it_priority x < it_priority y) ->
  exists q' blocks, drain_requests fuel check q posted = Ret (q', posted ++ blocks) /\
    Some <$> blocks ≡ₚ req_Block <$> filter (fun r => is_due check r = true) (it_value <$> l) /\
    pq_rel q' (filter (fun x => is_waiting check (it_value x) = true) l).
Proof.
  intros Hq Hlen Hok Hs Hmono. revert q l posted Hq Hlen Hok Hmono.
  induction fuel as [|fuel IH]; intros q l posted Hq Hlen Hok Hmono.
  { destruct l; [|cbn in Hlen; lia]. exists q, []. by rewrite app_nil_r. }
  cbn [drain_requests]. destruct (Prque_Empty q) eqn:He.
  { apply (Prque_Empty_rel q l Hq) in He as ->. exists q, []. by rewrite app_nil_r. }
  assert (l <> []) as Hne by (intros Hl; apply (Prque_Empty_rel q l Hq) in Hl; congruence).
  destruct (Prque_Pop_rel q l Hq Hne) as (x & q' & l' & -> & Hl & Hq' & Hmax). cbn [mbind outcome_bind].
  assert (length l' <= fuel)%nat as Hlen' by (apply Permutation_length in Hl; cbn in Hl; lia).
  assert (forall y, y ∈ l' -> y ∈ l) as Hsub by (intros y Hy; rewrite Hl; by right).
  assert (x ∈ l) as Hx by (rewrite Hl; left). rewrite Hl in Hok. apply Forall_cons in Hok as [Hxok Hok'].
  assert (forall y z, y ∈ l' -> z ∈ l' -> is_waiting check (it_value y) = true ->
     is_waiting check (it_value z) = false -> it_priority y < it_priority z) as Hmono' by auto.
  assert (forall P `{!forall m, Decision (P m)}, filter P l ≡ₚ filter P (x :: l')) as Hfl by (intros; by rewrite Hl).
  assert (forall P `{!forall m, Decision (P m)}, filter P (it_value <$> l) ≡ₚ filter P (it_value x :: (it_value <$> l'))) as Hfm
    by (intros; by rewrite Hl).
  destruct Hxok as (b & Hb & Hn). assert (request_ok (it_value x)) as Hx1 by by exists b.
  pose proof (Hs _ Hx1) as Hsx. rewrite Hb. cbn [deref mbind outcome_bind].
  destruct (check (it_value x)) as [[]|e|] eqn:Ec; [| |done].
  - destruct (IH q' l' (posted ++ [b]) Hq' Hlen' Hok' Hmono') as (q'' & bs & -> & Hbs & Hq'').
    exists q'', (b :: bs). rewrite <- app_assoc. split_and!; [done| |].
    + rewrite (Hfm _ _), filter_cons_True by (unfold is_due; by rewrite Ec). by rewrite !fmap_cons, Hb, Hbs.
    + rewrite (Hfl _ _), filter_cons_False by (unfold is_waiting; by rewrite Ec). done.
  - destruct (decide (e = ErrFutureMessage)) as [->|Hef].
    + assert (forall y, y ∈ l' -> is_waiting check (it_value y) = true) as Hall.
      { intros y Hy. destruct (is_waiting check (it_value y)) eqn:Ey; [done|].
        assert (it_priority x < it_priority y); [|specialize (Hmax y Hy); lia].
        apply Hmono; auto. unfold is_waiting. by rewrite Ec. }
      exists (Prque_Push (it_value x) (it_priority x) q'), []. rewrite app_nil_r. split_and!; [done| |].
      * rewrite (Hfm _ _), filter_cons_False by (unfold is_due; by rewrite Ec).
        rewrite (filter_none _ (it_value <$> l')); [done|].
        intros r Hr Hc. apply list_elem_of_fmap in Hr as (y & -> & Hy). specialize (Hall y Hy).
        unfold is_waiting, is_due in *. by destruct (check (it_value y)).
      * rewrite (Hfl _ _), filter_cons_True by (unfold is_waiting; rewrite Ec; by rewrite bool_decide_eq_true).
        rewrite (filter_all _ l') by done. destruct x as [v p]. by apply Prque_Push_rel.
    + destruct (IH q' l' posted Hq' Hlen' Hok' Hmono') as (q'' & bs & -> & Hbs & Hq'').
      exists q'', bs. split_and!; [done| |].
      * rewrite (Hfm _ _), filter_cons_False by (unfold is_due; by rewrite Ec). done.
      * rewrite (Hfl _ _), filter_cons_False; [done|]. unfold is_waiting. rewrite Ec. by rewrite bool_decide_eq_true.
Qed.

(** Fuel for as many turns as there are elements is enough. *)
Lemma drain_requests_fuel check f f' q l posted : pq_rel q l -> (length l <= f)%nat -> (length l <= f')%nat ->
  drain_requests f check q posted = drain_requests f' check q posted.
Proof.
  revert f' q l posted. induction f as [|f IH]; intros f' q l posted Hq Hf Hf'.
  { destruct l; [|cbn in Hf; lia]. destruct f'; [done|]. cbn [drain_requests].
    by rewrite (proj2 (Prque_Empty_rel q [] Hq) eq_refl). }
  cbn [drain_requests]. destruct (Prque_Empty q) eqn:He.
  { destruct f'; [done|]. cbn [drain_requests]. by rewrite He. }
  assert (l <> []) as Hne by (intros Hl; apply (Prque_Empty_rel q l Hq) in Hl; congruence).
  destruct f' as [|f']; [destruct l; [done|cbn in Hf'; lia]|]. cbn [drain_requests]. rewrite He.
  destruct (Prque_Pop_rel q l Hq Hne) as (x & q' & l' & -> & Hl & Hq' & _). cbn [mbind outcome_bind].
  apply Permutation_length in Hl. cbn in Hl. destruct (check (it_value x)) as [[]|e|]; [| |done].
  - destruct (deref (req_Block (it_value x))); [|done|done]. apply (IH f' q' l'); [done|lia|lia].
  - destruct (deref (req_Block (it_value x))); [|done|done]. cbn [mbind outcome_bind]. destruct (decide _); [done|].
    apply (IH f' q' l'); [done|lia|lia].
Qed.

(** A stored request: its priority is the negated number of its block. *)
Definition stored_ok (x : pitem Request) : Prop := exists b n, req_Block (it_value x) = Some b /\
  hdr_Number (b_header b) = Some n /\ 0 <= n < 2 ^ 63 /\ it_priority x = - n.

Definition number_of (r : Request) : Z :=
  match req_Block r with Some b => default 0 (hdr_Number (b_header b)) | None => 0 end.

(** The loop over stored requests ends and sorts them by height: those
    for the current height are posted again, each once, those for later
    heights stay queued, and older ones are dropped; any number of further
    turns changes nothing. *)
Theorem pending_requests_sorted c rs l fuel :
  c_current c = Some rs -> pq_rel (c_pendingRequests c) l -> Forall stored_ok l -> (length l <= fuel)%nat ->
  exists q' blocks,
    drain_requests fuel (fun r => checkRequestMsg r c) (c_pendingRequests c) [] = Ret (q', blocks) /\
    processPendingRequests c = (Ret tt, set_c_out (c_out c ++ map EPostRequest blocks) (set_c_pendingRequests q' c)) /\
    Some <$> blocks ≡ₚ req_Block <$> filter (fun r => number_of r = rs_height rs) (it_value <$> l) /\
    pq_rel q' (filter (fun x => rs_height rs < number_of (it_value x)) l).
Proof.
  intros Hcur Hq Hok Hfuel. set (check := fun r => checkRequestMsg r c).
  assert (forall x, stored_ok x -> checkRequestMsg (it_value x) c =
    if 0 <? cmp_Z (rs_height rs) (number_of (it_value x)) then Err ErrOldMessage
    else if cmp_Z (rs_height rs) (number_of (it_value x)) <? 0 then Err ErrFutureMessage else Ret tt) as Hcheck.
  { intros x (b & n & Hb & Hn & _ & _). unfold checkRequestMsg, number_of, Block_Number. rewrite Hb, Hcur, Hn. done. }
  assert (forall x, stored_ok x -> is_waiting check (it_value x) = bool_decide (rs_height rs < number_of (it_value x)) /\
    is_due check (it_value x) = bool_decide (number_of (it_value x) = rs_height rs)) as Hcls.
  { intros x Hx. unfold is_waiting, is_due, check. rewrite (Hcheck x Hx). unfold cmp_Z.
    destruct (Z.compare_spec (rs_height rs) (number_of (it_value x))); cbn;
      repeat case_bool_decide; try lia; done. }
  rewrite Forall_forall in Hok.
  assert (forall f, (length l <= f)%nat -> exists q' blocks, drain_requests f check (c_pendingRequests c) [] = Ret (q', blocks) /\
    Some <$> blocks ≡ₚ req_Block <$> filter (fun r => number_of r = rs_height rs) (it_value <$> l) /\
    pq_rel q' (filter (fun x => rs_height rs < number_of (it_value x)) l)) as Hdrain.
  { intros f Hf. destruct (drain_requests_spec check f (c_pendingRequests c) l []) as (q' & bs & E & Hbs & Hq'); [done|done| | | |].
    - apply Forall_forall. intros x (b & n & Hb & Hn & _)%Hok. exists b. split; [done|]. by exists n.
    - intros r (b & Hb & n & Hn). unfold check, checkRequestMsg, Block_Number. rewrite Hb, Hcur, Hn. cbn. by repeat case_match.
    - intros x y Hx Hy. destruct (Hcls x (Hok x Hx)) as [-> _], (Hcls y (Hok y Hy)) as [-> _].
      rewrite bool_decide_eq_true, bool_decide_eq_false.
      destruct (Hok x Hx) as (b & n & Hb & Hn & _ & ->), (Hok y Hy) as (b' & n' & Hb' & Hn' & _ & ->).
      unfold number_of. rewrite Hb, Hb', Hn, Hn'. cbn. lia.
    - exists q', bs. split; [done|]. split.
      + rewrite Hbs. erewrite filter_ext_in; [done|]. intros r (x & -> & Hx)%list_elem_of_fmap.
        destruct (Hcls x (Hok x Hx)) as [_ ->]. by rewrite bool_decide_eq_true.
      + erewrite filter_ext_in; [done|]. intros x Hx. destruct (Hcls x (Hok x Hx)) as [-> _]. by rewrite bool_decide_eq_true. }
  destruct (Hdrain fuel Hfuel) as (q' & bs & E & Hbs & Hq').
  assert (drain_requests (Prque_Size (c_pendingRequests c)) check (c_pendingRequests c) [] = Ret (q', bs)) as Esz.
  { rewrite <- E. rewrite (Prque_Size_rel _ _ Hq). by apply (drain_requests_fuel check _ _ _ l). }
  exists q', bs. split_and!; [done| |done|done]. unfold processPendingRequests. rewrite (bind_Ret get _ c c c) by done.
  unfold check in Esz. by rewrite (bind_Ret _ _ c (q', bs) c) by (unfold lift; by rewrite Esz).
Qed.

(** A new round adds to the log. *)
Lemma grows_startNewRound env round : respects (emits (fun _ => True)) (startNewRound env round).
Proof. by apply emits_startNewRound. Qed.

(** ** A certificate for height 0 *)

Lemma verifyQC_height0 data qc v c : qc_View qc = Some v -> u64 (v_Height v) = 0 -> verifyQC data (Some qc) c = Ret tt.
Proof. intros Hv Hh. unfold verifyQC, qc_HeightU64, qc_Height. by rewrite Hv, Hh. Qed.

(** Sealing the current node, when its encoding can be stored. *)
Lemma SetSealedBlock_succeeds env c rs p b sb : env_total env -> c_current c = Some rs ->
  rs_node rs = Some (NewProposedBlock p (Some b)) -> Block_Hash b = Block_Hash sb ->
  (exists raw, encode_val c_ProposedBlock (NewProposedBlock p (Some sb)) = Ret raw) ->
  exists c' rs', SetSealedBlock env sb c = (Ret tt, c') /\ same_base c c' /\ c_current c' = Some rs' /\
    rs_proposalLocked rs' = rs_proposalLocked rs /\ rs_lockedBlock rs' = Some sb /\ rs_height rs' = rs_height rs.
Proof.
  intros He Hcur Hn Hh Hraw. unfold SetSealedBlock. rewrite (bind_Ret _ _ c rs c) by (unfold current_rs, asks; by rewrite Hcur).
  rewrite Hn. destruct (Z.eqb_spec (Block_Hash b) (Block_Hash sb)); [cbn [negb]|done].
  set (rs1 := set_rs_node (Some (NewProposedBlock p (Some sb))) rs). set (c1 := set_c_current (Some rs1) c).
  rewrite (bind_Ret _ _ c tt c1) by (unfold mod_rs; erewrite bind_Ret by (unfold current_rs, asks; by rewrite Hcur); done).
  destruct (steps_store env He (fun rs => rs = rs1) c_ProposedBlock nodeKey _ Hraw c1 rs1 eq_refl eq_refl)
    as (c2 & rs2 & E2 & Hb2 & Hc2 & ->).
  rewrite (bind_Ret _ _ c1 tt c2) by exact E2.
  eexists _, _. split; [unfold mod_rs; erewrite bind_Ret by (unfold current_rs, asks; by rewrite Hc2); done|].
  split. { apply same_base_trans with c1; [exists (c_db c), (Some rs1); by destruct c|]. apply same_base_trans with c2; [done|].
    eexists (c_db c2), _. by destruct c2. }
  split; [done|]. cbn. by repeat case_match.
Qed.

Lemma acceptCommitQC_succeeds env c rs p b sb qc : env_total env -> c_current c = Some rs -> rs_proposalLocked rs = true ->
  rs_node rs = Some (NewProposedBlock p (Some b)) -> Block_Hash b = Block_Hash sb ->
  (exists raw, encode_val c_ProposedBlock (NewProposedBlock p (Some sb)) = Ret raw) ->
  (exists raw, encode_val c_QuorumCert qc = Ret raw) ->
  exists c' rs', acceptCommitQC env sb qc c = (Ret tt, c') /\ c_current c' = Some rs' /\
    rs_proposalLocked rs' = true /\ rs_lockedBlock rs' = Some sb /\ rs_height rs' = rs_height rs.
Proof.
  intros He Hcur Hp Hn Hb Hraw Hqraw.
  destruct (SetSealedBlock_succeeds env c rs p b sb He Hcur Hn Hb Hraw) as (c1 & rs1 & E1 & Hb1 & Hc1 & Hp1 & Hl1 & Hh1).
  assert (steps (fun r => rs_proposalLocked r = true /\ rs_lockedBlock r = Some sb /\ rs_height r = rs_height rs)
    (_ ← SetCommittedQC env qc; mod_rs (set_rs_state StateCommitted))) as Hsteps.
  { apply steps_bind; [apply steps_bind; [by apply steps_store|by apply steps_mod]|by apply steps_mod]. }
  destruct (Hsteps c1 rs1 Hc1) as (c2 & rs2 & E2 & _ & Hc2 & Hp2 & Hl2 & Hh2); [by rewrite Hp1|].
  exists c2, rs2. unfold acceptCommitQC. by rewrite (bind_Ret _ _ c tt c1).
Qed.

Lemma check_decision_passes c rs p b lb qc : c_current c = Some rs -> LockedBlock rs = Some lb ->
  rs_node rs = Some (NewProposedBlock p (Some b)) -> Block_Hash b = Block_Hash lb -> Block_Hash lb <> EmptyHash ->
  qc_ProposedBlock qc = node_hash p b -> check_decision qc (Block_Hash lb) c = Ret lb.
Proof.
  intros Hcur Hl Hn Hbl Hne Hqb. unfold check_decision. rewrite Hcur. cbn [deref mbind outcome_bind]. rewrite Hl, Hn, Z.eqb_refl.
  destruct (Z.eqb_spec (Block_Hash lb) EmptyHash); [done|]. unfold ProposedBlock_Hash. cbn [pb_Block pb_Parent deref mbind outcome_bind].
  fold (node_hash p b). by rewrite Hqb, Hbl, !Z.eqb_refl.
Qed.

Lemma commit_commits env c rs sb : c_current c = Some rs -> rs_proposalLocked rs = true -> rs_lockedBlock rs = Some sb ->
  (forall b, exists x, e_ExecuteBlock env b = Ret x) ->
  exists n x xb, ECommit (rs_height rs) n x ∈ c_out (commit env sb c).2 /\ xb_Block x = Some xb /\ Block_Hash xb = Block_Hash sb.
Proof.
  intros Hcur Hp Hl Hx. unfold commit. rewrite (bind_Ret _ _ c rs c) by (unfold current_rs, asks; by rewrite Hcur).
  unfold LockedBlock. rewrite Hp, Hl, Z.eqb_refl. cbn [negb]. rewrite (bind_Ret get _ c c c) by done.
  assert (exists c1 rs1 x xb, when (negb (executed_matches sb rs))
      (if c_IsProposer c then mod_rs (set_rs_executed (Some (mkExecuted (Some sb) 0)))
       else executed ← lift (on_err (e_ExecuteBlock env sb) (ErrFmt "failed to execute block %v, err: %v"));
            mod_rs (set_rs_executed (Some (mkExecuted (Some sb) (xb_State executed))))) c = (Ret tt, c1) /\
      c_current c1 = Some rs1 /\ rs_height rs1 = rs_height rs /\ rs_executed rs1 = Some x /\
      xb_Block x = Some xb /\ Block_Hash xb = Block_Hash sb) as (c1 & rs1 & x & xb & E1 & Hc1 & Hh1 & Hx1 & Hxb & Hhash).
  { assert (forall y, mod_rs (set_rs_executed y) c = (Ret tt, set_c_current (Some (set_rs_executed y rs)) c)) as Hm.
    { intros y. unfold mod_rs. by erewrite bind_Ret by (unfold current_rs, asks; by rewrite Hcur). }
    destruct (executed_matches sb rs) eqn:Em; cbn [negb when].
    - exists c, rs. unfold executed_matches in Em. destruct (rs_executed rs) as [[[xb|] st]|]; [|done|done].
      exists (mkExecuted (Some xb) st), xb. apply Z.eqb_eq in Em. split_and!; done.
    - destruct (c_IsProposer c).
      + rewrite Hm. eexists _, _, _, sb. split_and!; done.
      + destruct (Hx sb) as [y Hy]. rewrite (bind_Ret _ _ c y c) by (unfold lift; by rewrite Hy). rewrite Hm.
        eexists _, _, _, sb. split_and!; done. }
  rewrite (bind_Ret _ _ c tt c1) by exact E1. rewrite (bind_Ret _ _ c1 rs1 c1) by (unfold current_rs, asks; by rewrite Hc1).
  rewrite Hx1. rewrite (bind_Ret _ _ c1 x c1) by done. unfold emit. erewrite bind_Ret by done.
  exists (rs_node rs1), x, xb. split; [|done]. cbn. rewrite Hh1. apply elem_of_app. right. left.
Qed.

(** C39: a decide message with a certificate nobody signed makes a locked
    replica commit: if its certificate names height 0 (or any multiple of
    [2^64]) and the hash of the current node, [verifyQC] accepts it unseen, and
    a replica that is locked but has seen no commit votes hands the block to
    the chain.  The hypothesis of the safety theorems on decide messages is
    therefore needed. *)
Theorem forged_decide_commits env data c rs d qc v p b lb sb :
  env_total env -> (forall x, exists y, e_ExecuteBlock env x = Ret y) ->
  c_current c = Some rs -> rs_state rs = StatePreCommitted -> c_IsProposer c = false ->
  IsProposer (m_Address data) (c_valSet c) = true -> m_View data = Some (currentView rs) ->
  LockedBlock rs = Some lb -> rs_node rs = Some (NewProposedBlock p (Some b)) -> Block_Hash b = Block_Hash lb ->
  Block_Hash lb <> EmptyHash ->
  Message_Decode c_Diploma data = Ret d -> dip_BlockHash d = Block_Hash lb -> dip_CommitQC d = Some qc ->
  qc_View qc = Some v -> u64 (v_Height v) = 0 -> qc_ProposedBlock qc = node_hash p b ->
  e_SealBlock env lb qc = Ret sb -> Block_Hash sb = Block_Hash lb ->
  (exists raw, encode_val c_ProposedBlock (NewProposedBlock p (Some sb)) = Ret raw) ->
  exists n x xb, ECommit (rs_height rs) n x ∈ c_out (handleDecide env data c).2 /\ xb_Block x = Some xb /\ Block_Hash xb = Block_Hash lb.
Proof.
  intros He Hx Hcur Hst Hp Hsrc Hv Hl Hn Hbl Hne Hd Hdh Hdq Hqv Hq0 Hqb Hseal Hsb Hraw. unfold handleDecide.
  assert (forall {A} (k : roundState -> M Core A), (current_rs ≫= k) c = k rs c) as Hrs.
  { intros A k. apply bind_Ret. unfold current_rs, asks. by rewrite Hcur. }
  rewrite (bind_Ret _ _ c tt c) by (unfold newLogger; by rewrite Hrs). rewrite Hd. rewrite (bind_Ret _ _ c d c) by done.
  rewrite (bind_Ret _ _ c tt c).
  2:{ unfold asks, c_checkView. rewrite Hv, Hcur. cbn [deref mbind outcome_bind]. unfold checkView, View_Sub. rewrite !Z.sub_diag. done. }
  rewrite (bind_Ret _ _ c tt c) by (unfold asks, checkMsgSource; by rewrite Hsrc).
  rewrite Hdq. rewrite (bind_Ret _ _ c tt c) by (unfold asks; by rewrite (verifyQC_height0 _ _ v)).
  rewrite (bind_Ret _ _ c qc c) by done.
  rewrite (bind_Ret _ _ c lb c) by (unfold asks; rewrite Hdh; by rewrite (check_decision_passes c rs p b lb qc)).
  rewrite (bind_Ret get _ c c c) by done. rewrite Hrs, Hp. rewrite (bind_Ret _ _ c tt c) by done.
  rewrite (bind_Ret get _ c c c) by done. rewrite Hrs, Hp, Hst. cbn [negb andb when Z.eqb].
  assert (exists raw, encode_val c_QuorumCert qc = Ret raw) as Hqraw.
  { apply encode_val_total. apply decode_val_ok in Hd. destruct d as [oq bh]. cbn in Hdq. subst oq.
    by destruct Hd as [(q & [= <-] & Hok) _]. }
  destruct (acceptCommitQC_succeeds env c rs p b sb qc) as (c2 & rs2 & Eacc & Hc2 & Hp2 & Hl2 & Hh2); try done; [|congruence|].
  { unfold LockedBlock in Hl. by destruct (rs_proposalLocked rs). }
  destruct (commit_commits env c2 rs2 sb Hc2 Hp2 Hl2 Hx) as (n & x & xb & Hin & Hxb & Hxh).
  exists n, x, xb. split; [|split; [done|congruence]].
  assert (forall (m : M Core unit) (k : unit -> M Core unit), ECommit (rs_height rs) n x ∈ c_out (m c).2 ->
    (forall u, respects (emits (fun _ => True)) (k u)) -> ECommit (rs_height rs) n x ∈ c_out ((m ≫= k) c).2) as Hgrow.
  { intros m k Hm Hk. unfold mbind, M_bind. destruct (m c) as [[u|e|] c3]; try done.
    destruct (Hk u c3) as (es & -> & _). apply elem_of_app. by left. }
  assert (ECommit (rs_height rs) n x ∈ c_out ((sealedBlock ← lift (e_SealBlock env lb qc);
    _ ← acceptCommitQC env sealedBlock qc; commit env sealedBlock) c).2) as Hfin.
  { rewrite (bind_Ret _ _ c sb c) by (unfold lift; by rewrite Hseal). rewrite (bind_Ret _ _ c tt c2) by done. by rewrite <- Hh2. }
  apply Hgrow; [done|intros _; apply grows_startNewRound].
Qed.

(** ** The snapshot and restarts *)

(** Loading a key whose content is known. *)
Lemma load_with_stored {A} (cd : codec A) key f c rs raw a : c_current c = Some rs ->
  (exists db, c_db c = Some db /\ db !! key = Some raw) -> decode_val cd raw = Ret a ->
  load_with cd key f c = (Ret tt, set_c_current (Some (f a rs)) c).
Proof.
  intros Hcur (db & Hdb & Hk) Hd. unfold load_with, load. rewrite (bind_Ret get _ c c c) by done. rewrite Hdb, Hk, Hd.
  unfold mod_rs. by rewrite (bind_Ret _ _ c rs c) by (unfold current_rs, asks; by rewrite Hcur).
Qed.

(** Loading any key leaves the database alone. *)
Lemma load_with_any {A} (cd : codec A) key f c rs : c_current c = Some rs ->
  exists rs', load_with cd key f c = (Ret tt, set_c_current (Some rs') c).
Proof.
  intros Hcur. unfold load_with. rewrite (bind_Ret get _ c c c) by done. destruct (load cd key c) as [a|].
  - exists (f a rs). unfold mod_rs. by rewrite (bind_Ret _ _ c rs c) by (unfold current_rs, asks; by rewrite Hcur).
  - exists rs. rewrite <- Hcur. by destruct c.
Qed.

Lemma set_c_current_twice r r' c : set_c_current r (set_c_current r' c) = set_c_current r c.
Proof. done. Qed.

Lemma reload_restores c rs v node b qc raw raw' : c_current c = Some rs ->
  (exists db, c_db c = Some db /\ db !! lockQCKey = Some raw /\ db !! nodeKey = Some raw') ->
  decode_val c_QuorumCert raw = Ret qc -> decode_val c_ProposedBlock raw' = Ret node ->
  pb_Block node = Some b -> ProposedBlock_Hash node = Ret (qc_ProposedBlock qc) ->
  exists rs', c_current (reload v c).2 = Some rs' /\ LockedBlock rs' = Some b /\ rs_lockQC rs' = Some qc /\ rs_node rs' = Some node.
Proof.
  intros Hcur (db & Hdb & Hk & Hk') Hd Hd' Hb Hh. unfold reload.
  destruct (load_with_any c_View viewKey (fun w s => if 0 <? View_Cmp w v then set_view (v_Height w) (v_Round w) s else s) c rs Hcur) as (rs1 & E1).
  rewrite (bind_Ret _ _ c tt _) by exact E1. set (c1 := set_c_current (Some rs1) c).
  destruct (load_with_any c_QuorumCert prepareQCKey (fun q => set_rs_prepareQC (Some q)) c1 rs1 eq_refl) as (rs2 & E2).
  rewrite (bind_Ret _ _ c1 tt _) by exact E2. set (c2 := set_c_current (Some rs2) c1).
  rewrite (bind_Ret _ _ c2 tt (set_c_current (Some (set_rs_lockQC (Some qc) rs2)) c2)) by
    exact (load_with_stored c_QuorumCert lockQCKey (fun q => set_rs_lockQC (Some q)) c2 rs2 raw qc eq_refl (ex_intro _ db (conj Hdb Hk)) Hd).
  set (rs3 := set_rs_lockQC (Some qc) rs2). set (c3 := set_c_current (Some rs3) c2).
  assert (exists rs4, loadCommitQC c3 = (Ret tt, set_c_current (Some rs4) c3) /\ rs_lockQC rs4 = Some qc) as (rs4 & E4 & Hq4).
  { unfold loadCommitQC, load_with. rewrite (bind_Ret get _ c3 c3 c3) by done. destruct (load c_QuorumCert commitQCKey c3) as [q|].
    - by exists (set_rs_committedQC (Some q) rs3).
    - by exists rs3. }
  rewrite (bind_Ret _ _ c3 tt _) by exact E4. set (c4 := set_c_current (Some rs4) c3).
  rewrite (bind_Ret _ _ c4 tt (set_c_current (Some (set_rs_node (Some node) rs4)) c4)) by
    exact (load_with_stored c_ProposedBlock nodeKey (fun n => set_rs_node (Some n)) c4 rs4 raw' node eq_refl (ex_intro _ db (conj Hdb Hk')) Hd').
  set (rs5 := set_rs_node (Some node) rs4). rewrite (bind_Ret _ _ _ rs5 _) by done.
  assert (relock rs5 = Ret (set_locked (Some b) true rs5)) as ->.
  { unfold relock. cbn [rs_lockQC rs_node rs5 set_rs_node]. rewrite Hq4, Hb, Hh. cbn [mbind outcome_bind]. by rewrite Z.eqb_refl. }
  eexists. split; [done|]. by rewrite LockedBlock_set_locked.
Qed.

(** The snapshot is complete: after a lock has been written to the
    database, [reload] on a fresh round state restores the lock, its
    certificate and its node. *)
Theorem snapshot_restores_lock env c rs node b qc c' c0 rs0 v :
  c_current c = Some rs -> is_Some (c_db c) -> rs_node rs = Some node -> pb_Block node = Some b ->
  ProposedBlock_Hash node = Ret (qc_ProposedBlock qc) ->
  qc_ok qc -> fits c_QuorumCert qc -> c_ok c_ProposedBlock node -> fits c_ProposedBlock node ->
  Lock env qc c = (Ret tt, c') -> c_current c0 = Some rs0 -> c_db c0 = c_db c' ->
  exists rs', c_current (reload v c0).2 = Some rs' /\ LockedBlock rs' = Some b /\ rs_lockQC rs' = Some qc /\ rs_node rs' = Some node.
Proof.
  intros Hcur [db Hdb] Hn Hb Hh Hq Hqf Hnok Hnf HL Hcur0 Hdb0. apply qc_ok_codec in Hq.
  destruct (decode_encode_val c_QuorumCert qc Hq Hqf) as (raw & Er & Dr).
  destruct (decode_encode_val c_ProposedBlock node Hnok Hnf) as (raw' & Er' & Dr').
  eapply reload_restores; [done| |done|done|done|done]. rewrite Hdb0.
  assert (forall {A} (cd : codec A) key a r c1 db1 c2, c_db c1 = Some db1 -> encode_val cd a = Ret r ->
    store env cd key a c1 = (Ret tt, c2) -> c2 = set_c_db (Some (<[key := r]> db1)) c1) as Hstore.
  { intros A cd key a r c1 db1 c2 Hd1 Ha. unfold store. rewrite (bind_Ret get _ c1 c1 c1) by done. rewrite Hd1.
    rewrite (bind_Ret _ _ c1 r c1) by (unfold lift; by rewrite Ha). unfold lift, mbind, M_bind.
    destruct (e_put env key r) as [[]|e|]; [|done|done]. by intros [= <-]. }
  unfold Lock in HL. rewrite (bind_Ret _ _ c rs c) in HL by (unfold current_rs, asks; by rewrite Hcur). rewrite Hn in HL.
  assert (forall (m : M Core unit) (k : unit -> M Core unit) c1 c2, (m ≫= k) c1 = (Ret tt, c2) ->
    exists c3, m c1 = (Ret tt, c3) /\ k tt c3 = (Ret tt, c2)) as Hbind.
  { intros m k c1 c2. unfold mbind, M_bind. destruct (m c1) as [[[]|e|] c3]; [eauto|done|done]. }
  apply Hbind in HL as (c1 & E1 & HL). apply (Hstore _ _ _ _ raw _ db) in E1 as ->; [|done|done].
  apply Hbind in HL as (c2 & E2 & HL). apply (Hstore _ _ _ _ raw' _ (<[lockQCKey:=raw]> db)) in E2 as ->; [|done|done].
  unfold mod_rs in HL. rewrite (bind_Ret _ _ _ rs _) in HL by (unfold current_rs, asks; cbn; by rewrite Hcur). injection HL as <-.
  eexists. split; [done|]. split; [rewrite lookup_insert_ne by done; apply lookup_insert_eq|apply lookup_insert_eq].
Qed.

(** *** Starting *)

Definition same_lock (c c' : Core) : Prop := forall rs, c_current c = Some rs ->
  exists rs', c_current c' = Some rs' /\ LockedBlock rs' = LockedBlock rs /\ rs_node rs' = rs_node rs.

#[local] Instance same_lock_preorder : PreOrder same_lock.
Proof.
  split; [by intros c rs Hc; exists rs|]. intros c1 c2 c3 H12 H23 rs Hc.
  destruct (H12 rs Hc) as (rs2 & Hc2 & El & En). destruct (H23 rs2 Hc2) as (rs3 & Hc3 & El' & En').
  exists rs3. split; [done|]. by rewrite El', En'.
Qed.

Lemma same_lock_current (f : Core -> Core) : (forall c, c_current (f c) = c_current c) -> respects same_lock (modify f).
Proof. intros Hf. apply respects_modify. intros c rs Hc. exists rs. cbn. by rewrite Hf. Qed.

Lemma same_lock_out code payload : respects same_lock (broadcast code payload).
Proof. intros c rs Hc. exists rs. by rewrite broadcast_current. Qed.

Lemma same_lock_tail env : respects same_lock (_ ← newRoundChangeTimer env; _ ← setCurrentState env StateAcceptRequest; sendNewView).
Proof.
  assert (forall A (o : outcome A), respects same_lock (lift o)) as Hlift by (intros A o c rs Hc; by exists rs).
  assert (respects same_lock current_rs) as Hcur by (apply respects_asks; apply _).
  apply respects_bind; [apply _| |intros _].
  { apply respects_bind; [apply _|by apply same_lock_current|intros _]. apply respects_bind; [apply _|done|intros rs].
    by apply same_lock_current. }
  apply respects_bind; [apply _| |intros _].
  - apply respects_bind; [apply _| |intros _].
    { intros c rs Hc. exists (set_rs_state StateAcceptRequest rs). unfold mod_rs.
      by rewrite (bind_Ret _ _ c rs c) by (unfold current_rs, asks; by rewrite Hc). }
    apply respects_bind; [apply _|apply respects_when; [apply _|]|intros _].
    + apply respects_bind; [apply _|apply respects_get; apply _|intros c]. apply respects_bind; [apply _|apply Hlift|intros [q bs]].
      by apply same_lock_current.
    + apply respects_bind; [apply _|done|intros rs]. apply respects_bind; [apply _|apply respects_get; apply _|intros c].
      apply respects_bind; [apply _|apply Hlift|intros [q bs]]. by apply same_lock_current.
  - apply respects_bind; [apply _|done|intros rs]. destruct (match rs_prepareQC rs with Some _ => _ | None => _ end);
      [apply same_lock_out|apply respects_ret; apply _|apply respects_panic; apply _].
Qed.

(** C38: starting forgets the lock: whatever the database holds, a
    replica that has been started on a chain with a head is unlocked and has
    no node, because [startNewRound] unlocks every round that is not a mere
    change of view, the one that has just been restored included. *)
Theorem restart_forgets_lock env db timeout sg vs lp addr :
  env_total env -> e_LastProposal env = (Some lp, addr) ->
  exists rs, c_current (Core_Start env (Core_New db timeout sg vs)).2 = Some rs /\ LockedBlock rs = None /\ rs_node rs = None.
Proof.
  intros He El. destruct (et_last _ He lp addr El) as (n & Hn & Hpos).
  set (c0 := set_c_current None (set_c_isRunning true (Core_New db timeout sg vs))).
  assert (Core_Start env (Core_New db timeout sg vs) = enter_round env 0 lp addr false c0) as ->.
  { unfold Core_Start. rewrite (bind_Ret _ _ _ tt c0) by done. unfold startNewRound.
    rewrite (bind_Ret get _ c0 c0 c0) by done. cbn [negb c_isRunning c0 set_c_current set_c_isRunning]. rewrite El.
    rewrite (bind_Ret _ _ c0 (u64 n) c0); [done|]. unfold lift, Block_NumberU64. by rewrite Hn. }
  unfold enter_round. rewrite (bind_Ret _ _ c0 n c0) by (unfold lift, Block_Number; by rewrite Hn).
  rewrite (bind_Ret _ _ c0 (mkView 0 (n + 1)) c0) by done. erewrite bind_Ret by done.
  destruct (update_first env He (set_c_valSet (CalcProposer addr (u64 0) (c_valSet c0)) c0) lp n (mkView 0 (n + 1)))
    as (c2 & rs2 & E2 & _ & Hc2 & _); [done|done|done|].
  unfold log_and_return. cbn [v_Round]. rewrite E2. cbn [negb when].
  set (c3 := set_c_current (Some (Unlock rs2)) c2).
  rewrite (bind_Ret _ _ c2 tt c3) by (unfold mod_rs; by rewrite (bind_Ret _ _ c2 rs2 c2) by (unfold current_rs, asks; by rewrite Hc2)).
  destruct (same_lock_tail env c3 (Unlock rs2) eq_refl) as (rs' & Hc' & El' & En'). exists rs'. by rewrite El', En'.
Qed.

(** ** Messages on the wire *)

Lemma finalizeMessage_signed v code payload c m wire : finalizeMessage (NewCleanMessage (Some v) code payload) c = Ret (m, wire) ->
  exists h, m = mkMessage EmptyAddress code (Some v) payload (m_Signature m) /\ Message_Payload m = Ret wire /\
    Message_Hash m = Ret h /\ Signer_Sign (c_signer c) h = Ret (m_Signature m).
Proof.
  unfold finalizeMessage. intros (d & _ & Hm)%outcome_bind_Ret. apply outcome_bind_Ret in Hm as (h & Hh & Hm).
  apply outcome_bind_Ret in Hm as (sig & Hsig & Hm). apply outcome_bind_Ret in Hm as (p & Hp & [= <- <-]). by exists h.
Qed.

(** The message a broadcast sends is the finalized one. *)
Lemma broadcast_sends code payload c rs e msg wire : c_current c = Some rs ->
  (broadcast code payload c).2 = set_c_out (c_out c ++ [e]) c -> (e = EBroadcast msg wire \/ exists t, e = EUnicast t msg wire) ->
  finalizeMessage (NewCleanMessage (Some (currentView rs)) code payload) c = Ret (msg, wire).
Proof.
  intros Hcur. unfold broadcast. rewrite (bind_Ret _ _ c rs c) by (unfold current_rs, asks; by rewrite Hcur).
  rewrite (bind_Ret get _ c c c) by done. assert (c = set_c_out (c_out c ++ [e]) c -> False) as Hno.
  { intros E%(f_equal (fun c => length (c_out c))). cbn in E. rewrite length_app in E. cbn in E. lia. }
  destruct (_ <? 0); [by intros E; destruct (Hno E)|].
  destruct (finalizeMessage _ c) as [[m w]|er|]; cbn [or_return]; [|by intros E; destruct (Hno E)|by intros E; destruct (Hno E)].
  assert (forall e', set_c_out (c_out c ++ [e']) c = set_c_out (c_out c ++ [e]) c -> e' = e) as Hinj.
  { intros e' E%(f_equal c_out). cbn in E. by simplify_list_eq. }
  destruct (is_vote_type code).
  - unfold lift, mbind, M_bind. destruct (proposer c) as [t|er|]; [|by intros E; destruct (Hno E)|by intros E; destruct (Hno E)].
    intros <-%Hinj [?|[t' [= -> -> ->]]]; done.
  - destruct (is_leader_type code); [|by intros E; destruct (Hno E)]. intros <-%Hinj [[= -> ->]|[t' ?]]; done.
Qed.

(** A finalized message passes the checks of [handleMsg] at every replica whose
    validator set has the sender. *)
Lemma finalized_received `{!CryptoLaws} env c v key code payload msg wire c2 : view_ok v -> 0 <= code < 2 ^ 64 ->
  sg_privateKey (c_signer c) = Some key -> c_Address c = PubkeyToAddress (public key) ->
  finalizeMessage (NewCleanMessage (Some v) code payload) c = Ret (msg, wire) -> fits c_Message msg ->
  c_Address c ∈ AddressList (c_valSet c2) ->
  handleMsg env (c_Address c) wire c2 =
    handleCheckedMsg env (mkMessage (c_Address c) code (Some v) payload (m_Signature msg)) c2.
Proof.
  intros Hview Hcode Hkey Haddr Hf Hfit Hin.
  destruct (finalizeMessage_signed _ _ _ _ _ _ Hf) as (h & Hmsg & Hwire & Hh & Hsig).
  assert (message_ok msg) as Hok.
  { rewrite Hmsg. split; [exact Hcode|]. split; [by exists v|]. done. }
  assert (CheckSignature (c_valSet c2) h (m_Signature msg) = Ret (c_Address c)) as Hchk.
  { unfold c_Address in *. rewrite (CheckSignature_own _ key _ _ _ Hkey Haddr Hsig). by rewrite decide_True. }
  unfold handleMsg. rewrite (bind_Ret get _ c2 c2 c2) by done.
  erewrite bind_Ret; [|unfold lift; rewrite (FromPayload_payload (c_Address c) msg h wire _ Hok Hfit Hwire Hh); unfold checkValidatorSignature;
    rewrite Hchk; cbn [mbind outcome_bind]; rewrite bool_decide_true by done; cbn [negb fail_if mbind outcome_bind on_err]; reflexivity].
  apply elem_of_AddressList in Hin. pose proof (GetByAddress_snd (c_Address c) (c_valSet c2)) as Hg. rewrite decide_True in Hg by done.
  destruct (GetByAddress (c_Address c) (c_valSet c2)) as [i o] eqn:Eg. cbn in Hg. subst o.
  apply GetByAddress_Some in Eg as (_ & Hi & _). destruct (Z.ltb_spec i 0); [lia|]. cbn [orb].
  assert (m_Code msg = code /\ m_View msg = Some v /\ m_Msg msg = payload) as (-> & -> & ->); [by rewrite Hmsg|done].
Qed.

(** C37: what one replica sends another one receives: the bytes [broadcast]
    puts on the wire pass the parsing and the signature check of [handleMsg] at
    every replica whose validator set has the sender, and the handlers get the
    message under the sender's address. *)
Theorem sent_message_is_received `{!CryptoLaws} env c rs key code payload e msg wire c2 :
  c_current c = Some rs -> view_ok (currentView rs) -> 0 <= code < 2 ^ 64 ->
  sg_privateKey (c_signer c) = Some key -> c_Address c = PubkeyToAddress (public key) ->
  (broadcast code payload c).2 = set_c_out (c_out c ++ [e]) c ->
  (e = EBroadcast msg wire \/ exists t, e = EUnicast t msg wire) -> fits c_Message msg ->
  c_Address c ∈ AddressList (c_valSet c2) ->
  handleMsg env (c_Address c) wire c2 =
    handleCheckedMsg env (mkMessage (c_Address c) code (Some (currentView rs)) payload (m_Signature msg)) c2.
Proof.
  intros Hcur Hview Hcode Hkey Haddr Hb He Hfit Hin. eapply finalized_received; [done..| |done|done].
  by eapply broadcast_sends.
Qed.

(** ** Certificates are made from quorums *)

(** Where a computation ends, whatever its outcome. *)
Section Ends.
Context (P : Core -> Prop).

Lemma end_bind {A} (m : M Core A) (k : A -> M Core unit) c :
  match m c with (Ret a, c') => P (k a c').2 | (_, c') => P c' end -> P ((m ≫= k) c).2.
Proof. unfold mbind, M_bind. by destruct (m c) as [[]]. Qed.

Lemma end_ask {A} (f : Core -> outcome A) (k : A -> M Core unit) c : P c -> (forall a, f c = Ret a -> P (k a c).2) ->
  P ((asks f ≫= k) c).2.
Proof. intros Hc Hk. apply end_bind. unfold asks. destruct (f c); auto. Qed.

Lemma end_lift {A} (o : outcome A) (k : A -> M Core unit) c : P c -> (forall a, o = Ret a -> P (k a c).2) ->
  P ((lift o ≫= k) c).2.
Proof. intros Hc Hk. apply end_bind. unfold lift. destruct o; auto. Qed.

Lemma end_current (k : roundState -> M Core unit) c rs : c_current c = Some rs -> P (k rs c).2 -> P ((current_rs ≫= k) c).2.
Proof. intros Hc Hk. apply end_bind. unfold current_rs, asks. by rewrite Hc. Qed.

Lemma end_logger (k : unit -> M Core unit) c rs : c_current c = Some rs -> P (k tt c).2 -> P ((newLogger ≫= k) c).2.
Proof. intros Hc Hk. rewrite (bind_Ret newLogger k c tt c); [done|]. unfold newLogger. by rewrite (bind_Ret _ _ c rs c) by (unfold current_rs, asks; by rewrite Hc). Qed.

(** Adding a message to a set of votes. *)
Lemma end_add (get_set : roundState -> MessageSet) (upd : MessageSet -> roundState -> roundState) msg e (k : unit -> M Core unit) c rs :
  c_current c = Some rs -> P c -> (forall ms, P (k tt (set_c_current (Some (upd ms rs)) c)).2) ->
  P ((wrap (rs ← current_rs; ms ← lift (MessageSet_Add msg (get_set rs)); mod_rs (upd ms)) e ≫= k) c).2.
Proof.
  intros Hc HP Hk. apply end_bind. assert (forall {A} (j : roundState -> M Core A), (current_rs ≫= j) c = j rs c) as Hrs.
  { intros A j. apply bind_Ret. unfold current_rs, asks. by rewrite Hc. }
  unfold wrap. rewrite Hrs. destruct (MessageSet_Add msg (get_set rs)) as [ms|er|]; [|done|done].
  rewrite (bind_Ret _ _ c ms c) by done. unfold mod_rs. rewrite Hrs. apply Hk.
Qed.

End Ends.

(** A certificate of the current view and node that verifies. *)
Record certifies (c : Core) (rs : roundState) (code : MsgType) (qc : QuorumCert) : Prop := {
  cf_code : qc_Code qc = code;
  cf_view : qc_View qc = Some (currentView rs);
  cf_node : exists n, rs_node rs = Some n /\ ProposedBlock_Hash n = Ret (qc_ProposedBlock qc);
  cf_proposer : proposer c = Ret (qc_Proposer qc);
  cf_auth : AuthQC (c_signer c) qc = Ret tt
}.

Lemma messagesToQC_certifies `{!CryptoLaws} env code c rs qc : c_current c = Some rs -> messagesToQC env code c = Ret qc ->
  certifies c rs code qc.
Proof.
  intros Hcur. unfold messagesToQC. rewrite Hcur. cbn [deref mbind outcome_bind]. intros (msgs & _ & Hq)%outcome_bind_Ret.
  apply outcome_bind_Ret in Hq as ([] & _ & Hq). apply outcome_bind_Ret in Hq as (p & Hp & Hq).
  apply outcome_bind_Ret in Hq as (ov & Hov & Hq). destruct ov as [ev|]; [|done]. cbn [deref mbind outcome_bind] in Hq.
  apply outcome_bind_Ret in Hq as (d & Hd%on_err_Ret & Hq). apply outcome_bind_Ret in Hq as (shares & _ & Hq).
  apply outcome_bind_Ret in Hq as (sig & Hsig & [= <-]). unfold UnsignedVote in Hov.
  destruct (rs_node rs) as [n|] eqn:En; [|done]. apply outcome_bind_Ret in Hov as (h & Hh & Hov).
  destruct (h =? EmptyHash); [done|]. injection Hov as <-. constructor; [done|done|by exists n|done|].
  unfold AuthQC. cbn [qc_View deref mbind outcome_bind]. case_match; [done|]. unfold qc_vote.
  cbn [qc_Code qc_View qc_ProposedBlock qc_BLSSignature vote_ProposedBlock]. unfold currentView. rewrite Hd. unfold BLSVerifyAggSig. by eapply recover_verifies.
Qed.

(** A certificate is kept or becomes [qc]. *)
Definition kept_or (qc : QuorumCert) (old new : option QuorumCert) : Prop := new = old \/ new = Some qc.

Lemma kept_or_trans qc a b c : kept_or qc a b -> kept_or qc b c -> kept_or qc a c.
Proof. unfold kept_or. intros [->| ->] [->| ->]; auto. Qed.

(** The votes stay, and each certificate is kept or becomes [qc]. *)
Definition only_qc (qc : QuorumCert) (c c' : Core) : Prop := forall rs, c_current c = Some rs -> exists rs', c_current c' = Some rs' /\
  rs_prepareVotes rs' = rs_prepareVotes rs /\ rs_preCommitVotes rs' = rs_preCommitVotes rs /\ rs_commitVotes rs' = rs_commitVotes rs /\
  kept_or qc (rs_prepareQC rs) (rs_prepareQC rs') /\ kept_or qc (rs_lockQC rs) (rs_lockQC rs') /\
  kept_or qc (rs_committedQC rs) (rs_committedQC rs').

#[local] Instance only_qc_preorder qc : PreOrder (only_qc qc).
Proof.
  split.
  - intros c rs Hc. exists rs. split_and!; try done; by left.
  - intros c1 c2 c3 H12 H23 rs Hc. destruct (H12 rs Hc) as (rs2 & Hc2 & V1 & V2 & V3 & Q1 & Q2 & Q3).
    destruct (H23 rs2 Hc2) as (rs3 & Hc3 & V1' & V2' & V3' & Q1' & Q2' & Q3'). exists rs3.
    rewrite V1', V2', V3'. split_and!; try done; by eapply kept_or_trans.
Qed.

Section OnlyQC.
Context (qc : QuorumCert).

Lemma only_qc_mod f : (forall rs, rs_prepareVotes (f rs) = rs_prepareVotes rs /\ rs_preCommitVotes (f rs) = rs_preCommitVotes rs /\
  rs_commitVotes (f rs) = rs_commitVotes rs /\ kept_or qc (rs_prepareQC rs) (rs_prepareQC (f rs)) /\
  kept_or qc (rs_lockQC rs) (rs_lockQC (f rs)) /\ kept_or qc (rs_committedQC rs) (rs_committedQC (f rs))) -> respects (only_qc qc) (mod_rs f).
Proof.
  intros Hf c rs Hc. unfold mod_rs. rewrite (bind_Ret _ _ c rs c) by (unfold current_rs, asks; by rewrite Hc).
  exists (f rs). split; [done|apply Hf].
Qed.

Lemma only_qc_current {A} (m : M Core A) : (forall c, c_current (m c).2 = c_current c) -> respects (only_qc qc) m.
Proof. intros Hm c rs Hc. exists rs. rewrite Hm. split_and!; try done; by left. Qed.

Lemma store_current env {A} (cd : codec A) key a c : c_current (store env cd key a c).2 = c_current c.
Proof.
  unfold store. rewrite (bind_Ret get _ c c c) by done. destruct (c_db c); [|done].
  unfold lift, modify, mbind, M_bind. destruct (encode_val cd a); [|done|done]. by destruct (e_put env key _) as [[]|er|].
Qed.

#[local] Ltac only_qc_mod := apply only_qc_mod; intros rs0; cbn; split_and!; try done; first [by left|by right].

Lemma only_qc_acceptPrepareQC env : respects (only_qc qc) (acceptPrepareQC env qc).
Proof.
  apply respects_bind; [apply _| |intros _; only_qc_mod].
  apply respects_bind; [apply _|apply only_qc_current, store_current|intros _; only_qc_mod].
Qed.

Lemma only_qc_acceptLockQC env : respects (only_qc qc) (acceptLockQC env qc).
Proof.
  apply respects_bind; [apply _| |intros _; only_qc_mod].
  apply respects_bind; [apply _|by apply only_qc_current|intros rs]. destruct (rs_node rs) as [n|]; [|by apply only_qc_current].
  apply respects_bind; [apply _|apply only_qc_current, store_current|intros _].
  apply respects_bind; [apply _|apply only_qc_current, store_current|intros _; only_qc_mod].
Qed.

Lemma only_qc_acceptCommitQC env b : respects (only_qc qc) (acceptCommitQC env b qc).
Proof.
  apply respects_bind; [apply _| |intros _].
  - apply respects_bind; [apply _|by apply only_qc_current|intros rs].
    destruct (rs_node rs) as [[p [b0|]]|]; [|by apply only_qc_current|by apply only_qc_current].
    destruct (negb _); [by apply only_qc_current|]. apply respects_bind; [apply _|only_qc_mod|intros _].
    apply respects_bind; [apply _|apply only_qc_current, store_current|intros _].
    apply only_qc_mod. intros rs0. cbn zeta. repeat case_match; cbn; split_and!; done || by left.
  - apply respects_bind; [apply _| |intros _; only_qc_mod].
    apply respects_bind; [apply _|apply only_qc_current, store_current|intros _; only_qc_mod].
Qed.

Lemma only_qc_send {A} (o : outcome A) code f : respects (only_qc qc) (_ ← newLogger; or_return o (fun a => broadcast code (f a))).
Proof.
  apply respects_bind; [apply _|apply only_qc_current|intros _]. { intros c. unfold newLogger, mbind, M_bind, current_rs, asks. by destruct (deref _). }
  destruct o; [|by apply only_qc_current|by apply only_qc_current]. apply only_qc_current, broadcast_current.
Qed.

End OnlyQC.

(** What a vote may do to the certificates of a leader. *)
Definition certified_by (c : Core) (rs : roundState) (code : MsgType) (votes : roundState -> MessageSet) (c' : Core) : Prop :=
  forall rs', c_current c' = Some rs' ->
  (rs_prepareQC rs', rs_lockQC rs', rs_committedQC rs') = (rs_prepareQC rs, rs_lockQC rs, rs_committedQC rs) \/
  exists qc, certifies c rs code qc /\ Q (c_valSet c) <= MessageSet_Size (votes rs') /\
    kept_or qc (rs_prepareQC rs) (rs_prepareQC rs') /\ kept_or qc (rs_lockQC rs) (rs_lockQC rs') /\
    kept_or qc (rs_committedQC rs) (rs_committedQC rs').

(** The end of a vote handler, after the vote has been filed. *)
Lemma certified_tail `{!CryptoLaws} env c rs code votes rs1 (tail : QuorumCert -> M Core unit) qc :
  currentView rs1 = currentView rs -> rs_node rs1 = rs_node rs ->
  (rs_prepareQC rs1, rs_lockQC rs1, rs_committedQC rs1) = (rs_prepareQC rs, rs_lockQC rs, rs_committedQC rs) ->
  (forall r r', rs_prepareVotes r' = rs_prepareVotes r -> rs_preCommitVotes r' = rs_preCommitVotes r ->
     rs_commitVotes r' = rs_commitVotes r -> votes r' = votes r) ->
  quorum (MessageSet_Size (votes rs1)) c = true -> messagesToQC env code (set_c_current (Some rs1) c) = Ret qc ->
  respects (only_qc qc) (tail qc) -> certified_by c rs code votes (tail qc (set_c_current (Some rs1) c)).2.
Proof.
  intros Hview Hnode Hcerts Hvotes Hquo Hqc Htail rs' Hc'. right. injection Hcerts as Ep El Ec.
  destruct (Htail (set_c_current (Some rs1) c) rs1 eq_refl) as (rs2 & Hc2 & V1 & V2 & V3 & Q1 & Q2 & Q3).
  rewrite Hc' in Hc2. injection Hc2 as <-. apply messagesToQC_certifies with (rs := rs1) in Hqc; [|done].
  exists qc. rewrite (Hvotes rs1 rs' V1 V2 V3), <- Ep, <- El, <- Ec. split; [|split; [by apply Z.leb_le|done]].
  destruct Hqc as [C1 C2 C3 C4 C5]. constructor; [done|by rewrite <- Hview|by rewrite <- Hnode|done|done].
Qed.


End Behaviour.
