(* ===== verification/Phases.v ===== *)
(** * The phases of a round that goes well

    What a replica does in each phase when it is given the message it waits
    for: the handlers run to their end, and leave a replica that has voted, a
    leader that has announced a certificate, or a replica that has committed.
    [succeeds] is the logic for computations that end without an error.  The
    round is fixed for the file: its validators, leader, view, proposal and
    keys ([setting]).  What is needed of the cryptographic libraries beyond
    [CryptoLaws] is that they work when given valid keys ([LiveCrypto]). *)
From Stdlib Require Import ZArith Lia Strings.Byte.
From stdpp Require Import base list option strings gmap.
From S2P Require Import Prelude Errors Rlp Codec Common Validator Block Types Signer Prque MessageSet Backlog RoundState Core Refinement Outbox Progress Behaviour.
Open Scope Z_scope.

(** ** Sizes of encodings *)

Lemma putint_size i : zlen (putint i) <= 8.
Proof. unfold putint, zlen. repeat case_match; rewrite length_be_fixed; lia. Qed.

Lemma encode_str_size b : zlen (encode (Str b)) <= zlen b + 9.
Proof.
  pose proof (putint_size (zlen b)). cbn [encode]. unfold encodeString, encodeStringHeader, zlen in *.
  destruct b as [|x [|y b]]; [by vm_compute|destruct (_ <=? _); by vm_compute|]. rewrite length_app. destruct (_ <? 56); cbn [length] in *; lia.
Qed.

Lemma encode_list_size l : zlen (encode (Lst l)) <= zlen (concat (map encode l)) + 9.
Proof.
  cbn [encode]. pose proof (putint_size (zlen (concat (map encode l)))). unfold puthead, zlen in *. rewrite length_app.
  destruct (_ <? 56); cbn [length]; lia.
Qed.

Lemma bytes_zlen_app {A} (l l' : list A) : zlen (l ++ l') = zlen l + zlen l'.
Proof. unfold zlen. rewrite length_app. lia. Qed.

(** ** Libraries that work *)

(** Digests are not zero, signing with a valid key succeeds, and so does the
    recovery of a signature from enough shares of different members; BLS
    signatures are short. *)
Class LiveCrypto `{Keccak} `{Crypto} := {
  share_of : PubPoly -> PriShare -> Prop;
  live_digest d : Keccak256Hash d <> EmptyHash;
  live_sign d k : length d = 32%nat -> exists sig, ecdsa_Sign d k = Ret sig;
  live_share i d : exists s, tbls_Sign i d = Ret s /\ zlen s < 2 ^ 32;
  live_recover pub d t n js ss : Forall (share_of pub) js -> NoDup js -> t <= zlen js ->
    Forall2 (fun j s => tbls_Sign j d = Ret s) js ss -> exists sig, tbls_Recover pub d ss t n = Ret sig /\ zlen sig < 2 ^ 32
}.

(** ** Computations that succeed *)

Section Phases.
Context `{Keccak} `{Crypto} `{!CryptoLaws}.

Definition succeeds {A} (m : M Core A) (Q : A -> Core -> Prop) (c : Core) : Prop := exists a c', m c = (Ret a, c') /\ Q a c'.

Lemma succeeds_bind {A B} (m : M Core A) (k : A -> M Core B) Q c :
  succeeds m (fun a => succeeds (k a) Q) c -> succeeds (m ≫= k) Q c.
Proof. intros (a & c1 & E & b & c2 & E' & HQ). exists b, c2. by rewrite (bind_Ret _ _ _ _ _ E). Qed.

Lemma succeeds_mono {A} (m : M Core A) (Q Q' : A -> Core -> Prop) c :
  succeeds m Q c -> (forall a c', Q a c' -> Q' a c') -> succeeds m Q' c.
Proof. intros (a & c' & E & HQ) Hm. exists a, c'. auto. Qed.

Lemma succeeds_ret {A} (a : A) (Q : A -> Core -> Prop) c : Q a c -> succeeds (mret a) Q c.
Proof. by exists a, c. Qed.

Lemma succeeds_get (Q : Core -> Core -> Prop) c : Q c c -> succeeds get Q c.
Proof. by exists c, c. Qed.

Lemma succeeds_asks {A} (f : Core -> outcome A) a (Q : A -> Core -> Prop) c : f c = Ret a -> Q a c -> succeeds (asks f) Q c.
Proof. intros E HQ. exists a, c. unfold asks. by rewrite E. Qed.

Lemma succeeds_lift {A} (o : outcome A) a (Q : A -> Core -> Prop) c : o = Ret a -> Q a c -> succeeds (lift o) Q c.
Proof. intros -> HQ. by exists a, c. Qed.

Lemma succeeds_current (Q : roundState -> Core -> Prop) c rs : c_current c = Some rs -> Q rs c -> succeeds current_rs Q c.
Proof. intros E HQ. apply succeeds_asks with rs; [by rewrite E|done]. Qed.

Lemma succeeds_newLogger (Q : unit -> Core -> Prop) c rs : c_current c = Some rs -> Q tt c -> succeeds newLogger Q c.
Proof. intros E HQ. apply succeeds_bind. eapply succeeds_current; [done|]. by apply succeeds_ret. Qed.

Lemma succeeds_modify f (Q : unit -> Core -> Prop) c : Q tt (f c) -> succeeds (modify f) Q c.
Proof. by exists tt, (f c). Qed.

Lemma succeeds_mod_rs f (Q : unit -> Core -> Prop) c rs : c_current c = Some rs ->
  Q tt (set_c_current (Some (f rs)) c) -> succeeds (mod_rs f) Q c.
Proof. intros E HQ. apply succeeds_bind. eapply succeeds_current; [done|]. by apply succeeds_modify. Qed.

Lemma succeeds_wrap {A} (m : M Core A) e Q c : succeeds m Q c -> succeeds (wrap m e) Q c.
Proof. intros (a & c' & E & HQ). exists a, c'. unfold wrap. by rewrite E. Qed.

Lemma succeeds_when (b : bool) (m : M Core unit) (Q : unit -> Core -> Prop) c :
  (if b then succeeds m Q c else Q tt c) -> succeeds (when b m) Q c.
Proof. destruct b; [done|]. by apply succeeds_ret. Qed.

Lemma succeeds_or_return {A} (o : outcome A) a (k : A -> M Core unit) (Q : unit -> Core -> Prop) c : o = Ret a ->
  succeeds (k a) Q c -> succeeds (or_return o k) Q c.
Proof. by intros ->. Qed.

(** A value that can be encoded is stored, if there is a database at all. *)
Lemma succeeds_store env {A} (cd : codec A) key x (Q : unit -> Core -> Prop) c : env_total env -> c_ok cd x ->
  (forall db, Q tt (set_c_db db c)) -> succeeds (store env cd key x) Q c.
Proof.
  intros He Hx HQ. destruct (encode_val_total cd x Hx) as [raw Er]. unfold store. apply succeeds_bind, succeeds_get.
  destruct (c_db c) as [db|] eqn:Edb; [|apply succeeds_ret; rewrite <- (set_c_db_id c); apply HQ].
  apply succeeds_bind. eapply succeeds_lift; [done|]. apply succeeds_bind. eapply succeeds_lift; [apply (et_put _ He)|].
  by apply succeeds_modify.
Qed.

(** ** Sizes of messages *)

Definition item_sum (l : list item) : Z := fold_right (fun it n => zlen (encode it) + n) 0 l.

Lemma encode_sum_size l : zlen (encode (Lst l)) <= item_sum l + 9.
Proof.
  assert (zlen (concat (map encode l)) = item_sum l) as <-; [|apply encode_list_size].
  induction l as [|it l IH]; [done|]. cbn [map concat item_sum fold_right]. rewrite bytes_zlen_app, IH. done.
Qed.

Lemma encode_uint_size z : 0 <= z < 2 ^ 64 -> zlen (encode (Str (bigint_bytes z))) <= 17.
Proof.
  intros Hz. pose proof (encode_str_size (bigint_bytes z)). pose proof (length_bigint_bytes z 8 Hz). unfold zlen in *. lia.
Qed.

Lemma encode_array_size n z : zlen (encode (writeByteArray n z)) <= Z.of_nat n + 9.
Proof. pose proof (encode_str_size (be_fixed n z)) as Hs. unfold zlen in *. rewrite length_be_fixed in Hs. exact Hs. Qed.

(** A view of the engine: both numbers are 64-bit integers. *)
Definition view_small (v : View) : Prop := 0 <= v_Round v < 2 ^ 64 /\ 0 <= v_Height v < 2 ^ 64.

Lemma view_small_ok v : view_small v -> view_ok v.
Proof. unfold view_small, view_ok. lia. Qed.

Lemma enc_View_size v : view_small v -> exists it, enc c_View v = Ret it /\ zlen (encode it) <= 43.
Proof.
  intros [Hr Hh]. destruct v as [r k]. cbn [v_Round v_Height] in *. rewrite enc_View by lia. eexists. split; [done|].
  pose proof (encode_sum_size [Str (bigint_bytes r); Str (bigint_bytes k)]) as Hs. cbn [item_sum fold_right] in Hs.
  pose proof (encode_uint_size r Hr). pose proof (encode_uint_size k Hh). lia.
Qed.

Lemma enc_Message_size a code v payload sig : view_small v -> 0 <= code < 2 ^ 64 ->
  exists it, enc c_Message (mkMessage a code (Some v) payload sig) = Ret it /\ zlen (encode it) <= zlen payload + zlen sig + 200.
Proof.
  intros Hv Hc. destruct (enc_View_size v Hv) as (vt & Ev & Hvt).
  change (enc c_Message (mkMessage a code (Some v) payload sig)) with
    (l ← (l ← (it ← enc c_View v; Ret [it; Str payload; writeByteArray 20 a; Str sig]); Ret (writeUint code :: l)); Ret (Lst l)).
  rewrite Ev. cbn [mbind outcome_bind]. eexists. split; [done|].
  pose proof (encode_sum_size [writeUint code; vt; Str payload; writeByteArray 20 a; Str sig]) as Hs. cbn [item_sum fold_right] in Hs.
  pose proof (encode_uint_size code Hc). pose proof (encode_array_size 20 a). pose proof (encode_str_size payload).
  pose proof (encode_str_size sig). unfold writeUint in *. lia.
Qed.

Lemma enc_Vote_size code v nh sig : view_small v -> 0 <= code < 2 ^ 64 ->
  exists it, enc c_Vote (mkVote code (Some v) nh sig) = Ret it /\ zlen (encode it) <= zlen sig + 200.
Proof.
  intros Hv Hc. destruct (enc_View_size v Hv) as (vt & Ev & Hvt).
  change (enc c_Vote (mkVote code (Some v) nh sig)) with
    (l ← (l ← (it ← enc c_View v; Ret [it; writeByteArray 32 nh; Str sig]); Ret (writeUint code :: l)); Ret (Lst l)).
  rewrite Ev. cbn [mbind outcome_bind]. eexists. split; [done|].
  pose proof (encode_sum_size [writeUint code; vt; writeByteArray 32 nh; Str sig]) as Hs. cbn [item_sum fold_right] in Hs.
  pose proof (encode_uint_size code Hc). pose proof (encode_array_size 32 nh). pose proof (encode_str_size sig). unfold writeUint in *. lia.
Qed.

Lemma enc_QC_size code v nh p sig : view_small v -> 0 <= code < 2 ^ 64 ->
  exists it, enc c_QuorumCert (mkQC (Some v) code nh p sig) = Ret it /\ zlen (encode it) <= zlen sig + 200.
Proof.
  intros Hv Hc. destruct (enc_View_size v Hv) as (vt & Ev & Hvt).
  change (enc c_QuorumCert (mkQC (Some v) code nh p sig)) with
    (l ← (it ← enc c_View v; Ret [it; writeUint code; writeByteArray 32 nh; writeByteArray 20 p; Str sig]); Ret (Lst l)).
  rewrite Ev. cbn [mbind outcome_bind]. eexists. split; [done|].
  pose proof (encode_sum_size [vt; writeUint code; writeByteArray 32 nh; writeByteArray 20 p; Str sig]) as Hs. cbn [item_sum fold_right] in Hs.
  pose proof (encode_uint_size code Hc). pose proof (encode_array_size 32 nh). pose proof (encode_array_size 20 p).
  pose proof (encode_str_size sig). unfold writeUint in *. lia.
Qed.

Lemma enc_Diploma_size code v nh p sig bh : view_small v -> 0 <= code < 2 ^ 64 ->
  exists it, enc c_Diploma (mkDiploma (Some (mkQC (Some v) code nh p sig)) bh) = Ret it /\ zlen (encode it) <= zlen sig + 300.
Proof.
  intros Hv Hc. destruct (enc_QC_size code v nh p sig Hv Hc) as (qt & Eq & Hqt).
  change (enc c_Diploma (mkDiploma (Some (mkQC (Some v) code nh p sig)) bh)) with
    (l ← (it ← enc c_QuorumCert (mkQC (Some v) code nh p sig); Ret [it; writeByteArray 32 bh]); Ret (Lst l)).
  rewrite Eq. cbn [mbind outcome_bind]. eexists. split; [done|].
  pose proof (encode_sum_size [qt; writeByteArray 32 bh]) as Hs. cbn [item_sum fold_right] in Hs. pose proof (encode_array_size 32 bh). lia.
Qed.

(** A value whose encoding is short can be sent and read back. *)
Lemma encode_decode_size {A} (cd : codec A) x n : c_ok cd x -> (exists it, enc cd x = Ret it /\ zlen (encode it) <= n) -> n < 2 ^ 63 ->
  exists d, encode_val cd x = Ret d /\ decode_val cd d = Ret x /\ zlen d <= n.
Proof.
  intros Hx (it & E & Hn) Hlt. assert (fits cd x) as Hf by (intros it'; rewrite E; intros [= <-]; lia).
  destruct (decode_encode_val cd x Hx Hf) as (d & Hd & Hd'). exists d. split_and!; [done|done|]. unfold encode_val in Hd. rewrite E in Hd.
  cbn [mbind outcome_bind] in Hd. rewrite EncodeToBytes_encode in Hd by lia. injection Hd as <-. done.
Qed.

(** ** The round *)

Section Setting.
Context `{!LiveCrypto}.
Context (vs : defaultSet) (leader : Address) (w : View) (members : list Address) (pub : PubPoly)
  (signers : Address -> HotstuffSigner) (parent : Hash) (b : Block).

(** The members, a quorum of the validators with the leader among them, have
    their keys; the proposal can be encoded. *)
Record setting : Prop := {
  st_leader : GetProposer vs = Some (New leader);
  st_leader_member : leader ∈ members;
  st_leader_address : leader <> EmptyAddress;
  st_validators a : a ∈ members -> a ∈ AddressList vs;
  st_nodup : NoDup members;
  st_quorum : Q vs <= zlen members;
  st_address a : a ∈ members -> sg_address (signers a) = a;
  st_key a : a ∈ members -> exists k, sg_privateKey (signers a) = Some k /\ a = PubkeyToAddress (public k);
  st_pub a : a ∈ members -> sg_blsPubPoly (signers a) = pub /\ share_of pub (sg_blsPrivKey (signers a));
  st_shares : NoDup ((fun a => sg_blsPrivKey (signers a)) <$> members);
  st_threshold : sg_t (signers leader) <= Q vs;
  st_view : view_small w;
  st_height : 0 < v_Height w;
  st_parent : hash_ok parent /\ parent <> EmptyHash;
  st_block : c_ok c_Block b;
  st_number : hdr_Number (b_header b) = Some (v_Height w)
}.
Hypothesis Hset : setting.

Definition proposal_hash : Hash := node_hash parent b.

(** The node at hand is the proposal, or its sealed form. *)
Definition proposed (rs : roundState) : Prop :=
  exists b', rs_node rs = Some (NewProposedBlock parent (Some b')) /\ Block_Hash b' = Block_Hash b.

Definition round_vote (code : MsgType) (share : bytes) : Vote := mkVote code (Some w) proposal_hash share.
Definition vote_data (code : MsgType) : bytes := match encode_val c_Vote (round_vote code []) with Ret d => d | _ => [] end.

(** A member in the view of the round. *)
Record at_round (a : Address) (c : Core) (rs : roundState) : Prop := {
  ar_current : c_current c = Some rs;
  ar_signer : c_signer c = signers a;
  ar_set : c_valSet c = vs;
  ar_view : currentView rs = w;
  ar_backlogs : backlogs_ok (c_backlogs c);
  ar_requests : requests_ok (c_pendingRequests c)
}.

(** The bytes reach the handlers of every replica as this message. *)
Definition carries (a : Address) (data : Message) (wire : bytes) : Prop :=
  forall env c, c_valSet c = vs -> handleMsg env a wire c = handleCheckedMsg env data c.

(** A message with a member's share of the signature of the round's vote. *)
Record vote_of (a : Address) (code : MsgType) (data : Message) : Prop := {
  vo_address : m_Address data = a;
  vo_code : m_Code data = code;
  vo_view : m_View data = Some w;
  vo_vote : exists s, Message_Decode c_Vote data = Ret (round_vote code s) /\
    tbls_Sign (sg_blsPrivKey (signers a)) (vote_data code) = Ret s
}.

(** What was sent has a vote for the leader, or a message for everyone. *)
Definition voted (a : Address) (code : MsgType) (es : list Effect) : Prop :=
  exists m wire data, EUnicast leader m wire ∈ es /\ carries a data wire /\ vote_of a code data.

Definition announced (code : MsgType) (P : bytes -> Prop) (es : list Effect) : Prop :=
  exists m wire data, EBroadcast m wire ∈ es /\ carries leader data wire /\ m_Address data = leader /\ m_Code data = code /\
    m_View data = Some w /\ P (m_Msg data).

Lemma at_round_out a c rs es : at_round a c rs -> at_round a (set_c_out es c) rs.
Proof. by intros []. Qed.

Lemma at_round_db a c rs db : at_round a c rs -> at_round a (set_c_db db c) rs.
Proof. by intros []. Qed.

Lemma at_round_rs a c rs rs' : at_round a c rs -> currentView rs' = w -> at_round a (set_c_current (Some rs') c) rs'.
Proof. by intros [] ?. Qed.

Lemma proposed_hash rs : proposed rs -> exists n, rs_node rs = Some n /\ ProposedBlock_Hash n = Ret proposal_hash.
Proof. intros (b' & En & Hb). eexists. split; [done|]. unfold ProposedBlock_Hash, proposal_hash, node_hash. cbn. by rewrite Hb. Qed.

Lemma proposal_hash_nonzero : proposal_hash <> EmptyHash.
Proof. unfold proposal_hash, node_hash, rlpHash. case_match; apply live_digest. Qed.

Lemma vote_codec code share : 0 <= code < 2 ^ 64 -> c_ok c_Vote (round_vote code share).
Proof.
  intros Hc. apply vote_ok_codec. split; [done|]. split; [|apply node_hash_ok]. exists w. split; [done|]. apply view_small_ok, (st_view Hset).
Qed.

Lemma encode_round_vote code share : 0 <= code < 2 ^ 64 -> zlen share < 2 ^ 32 ->
  exists d, encode_val c_Vote (round_vote code share) = Ret d /\ decode_val c_Vote d = Ret (round_vote code share) /\ zlen d < 2 ^ 33.
Proof.
  intros Hc Hl. destruct (encode_decode_size c_Vote (round_vote code share) (zlen share + 200)) as (d & E & D & Hd);
    [by apply vote_codec|by apply enc_Vote_size; [apply (st_view Hset)|]|lia|]. exists d. split_and!; [done|done|lia].
Qed.

Lemma vote_data_encodes code : 0 <= code < 2 ^ 64 -> encode_val c_Vote (round_vote code []) = Ret (vote_data code).
Proof. intros Hc. destruct (encode_round_vote code [] Hc) as (d & E & _); [done|]. unfold vote_data. by rewrite E. Qed.

(** *** Sending *)

Lemma leader_of c : c_valSet c = vs -> proposer c = Ret leader.
Proof. intros E. unfold proposer. by rewrite E, (st_leader Hset). Qed.

Lemma finalize_live a c rs code payload : at_round a c rs -> a ∈ members -> 0 <= code < 2 ^ 64 -> zlen payload < 2 ^ 63 ->
  exists m wire sig, finalizeMessage (NewCleanMessage (Some w) code payload) c = Ret (m, wire) /\
    carries a (mkMessage a code (Some w) payload sig) wire.
Proof.
  intros Ha Hin Hc Hp. destruct (st_key Hset a Hin) as (k & Ek & Eaddr). pose proof (st_view Hset) as Hw.
  assert (forall addr sig, zlen sig < 100 -> address_ok addr -> let m := mkMessage addr code (Some w) payload sig in
    exists d, encode_val c_Message m = Ret d /\ fits c_Message m) as Henc.
  { intros addr sig Hsig Haddr m. destruct (enc_Message_size addr code w payload sig Hw Hc) as (it & Ei & Hi).
    destruct (encode_val_total c_Message m) as [d Ed].
    { apply message_ok_codec. split; [exact Hc|]. split; [|exact Haddr]. exists w. split; [done|by apply view_small_ok]. }
    exists d. split; [done|]. intros it'. unfold m. rewrite Ei. intros [= <-]. lia. }
  destruct (Henc EmptyAddress []) as (d0 & E0 & _); [done|done|].
  destruct (live_sign (Hash_Bytes (Keccak256Hash d0)) k) as [sig Esig]; [apply length_be_fixed|].
  destruct (Henc EmptyAddress sig) as (d1 & E1 & Hfit); [unfold zlen; by rewrite (sign_length _ _ _ Esig)|done|].
  assert (finalizeMessage (NewCleanMessage (Some w) code payload) c = Ret (mkMessage EmptyAddress code (Some w) payload sig, d1)) as Ef.
  { unfold finalizeMessage, Message_PayloadNoSig, Message_Hash, Message_PayloadNoSig, unsigned, NewCleanMessage. cbn [m_View m_Code m_Msg].
    rewrite E0. cbn [mbind outcome_bind]. unfold Signer_Sign. destruct (Z.eqb_spec (Keccak256Hash d0) EmptyHash) as [Hz|_]; [by apply live_digest in Hz|].
    rewrite (ar_signer _ _ _ Ha), Ek, Esig. cbn [mbind outcome_bind]. unfold Message_Payload. cbn [m_Address m_Code m_View m_Msg]. by rewrite E1. }
  assert (c_Address c = a) as Hca by (unfold c_Address; rewrite (ar_signer _ _ _ Ha); by apply (st_address Hset)).
  exists (mkMessage EmptyAddress code (Some w) payload sig), d1, sig. split; [done|]. intros env c2 Hc2. rewrite <- Hca.
  apply (finalized_received env c w k code payload (mkMessage EmptyAddress code (Some w) payload sig) d1 c2); try done.
  - by apply view_small_ok.
  - by rewrite (ar_signer _ _ _ Ha).
  - by rewrite Hca.
  - rewrite Hca, Hc2. by apply (st_validators Hset).
Qed.

Lemma broadcast_live a c rs code payload (Q : unit -> Core -> Prop) : at_round a c rs -> a ∈ members -> 0 <= code < 2 ^ 64 ->
  zlen payload < 2 ^ 63 -> is_vote_type code || is_leader_type code = true ->
  (forall m wire sig, carries a (mkMessage a code (Some w) payload sig) wire ->
     Q tt (set_c_out (c_out c ++ [if is_vote_type code then EUnicast leader m wire else EBroadcast m wire]) c)) ->
  succeeds (broadcast code payload) Q c.
Proof.
  intros Ha Hin Hc Hp Ht HQ. unfold broadcast. apply succeeds_bind. eapply succeeds_current; [apply Ha|]. apply succeeds_bind, succeeds_get.
  assert (c_Address c = a) as -> by (unfold c_Address; rewrite (ar_signer _ _ _ Ha); by apply (st_address Hset)).
  rewrite (ar_set _ _ _ Ha), (ar_view _ _ _ Ha).
  pose proof (st_validators Hset a Hin) as Hv%elem_of_AddressList. pose proof (GetByAddress_snd a vs) as Hg. rewrite decide_True in Hg by done.
  destruct (GetByAddress a vs) as [i o] eqn:Eg. cbn [fst snd] in *. subst o. apply GetByAddress_Some in Eg as (_ & Hi & _).
  destruct (Z.ltb_spec i 0); [lia|]. destruct (finalize_live a c rs code payload Ha Hin Hc Hp) as (m & wire & sig & Ef & Hcar).
  eapply succeeds_or_return; [exact Ef|]. cbn beta iota. specialize (HQ m wire sig Hcar). destruct (is_vote_type code).
  - apply succeeds_bind. eapply succeeds_lift; [apply leader_of, Ha|]. by apply succeeds_modify.
  - cbn [orb] in Ht. rewrite Ht. by apply succeeds_modify.
Qed.

Definition vote_code (code : MsgType) : Prop :=
  code = MsgTypePrepareVote \/ code = MsgTypePreCommitVote \/ code = MsgTypeCommitVote.

Lemma vote_code_range code : vote_code code -> 0 <= code < 2 ^ 64 /\ is_vote_type code = true.
Proof. by intros [->|[->| ->]]. Qed.

Lemma UnsignedVote_round rs code : proposed rs -> currentView rs = w -> UnsignedVote code rs = Ret (Some (round_vote code [])).
Proof.
  intros (n & En & Hn)%proposed_hash Hv. unfold UnsignedVote. rewrite En, Hn. cbn [mbind outcome_bind].
  destruct (Z.eqb_spec proposal_hash EmptyHash) as [Hz|_]; [by destruct (proposal_hash_nonzero Hz)|].
  unfold currentView in Hv. by rewrite Hv.
Qed.

Lemma sendVote_live a c rs code (Q : unit -> Core -> Prop) : at_round a c rs -> a ∈ members -> vote_code code -> proposed rs ->
  (forall es, voted a code es -> Q tt (set_c_out (c_out c ++ es) c)) -> succeeds (sendVote code) Q c.
Proof.
  intros Ha Hin [Hc Ht]%vote_code_range Hp HQ. unfold sendVote. apply succeeds_bind. eapply succeeds_current; [apply Ha|].
  apply succeeds_bind. eapply succeeds_lift; [apply UnsignedVote_round; [done|apply Ha]|].
  eapply succeeds_or_return; [by apply vote_data_encodes|]. apply succeeds_bind, succeeds_get.
  destruct (live_share (sg_blsPrivKey (signers a)) (vote_data code)) as (s & Es & Hs).
  eapply succeeds_or_return; [unfold BLSSign; rewrite (ar_signer _ _ _ Ha); exact Es|]. apply succeeds_bind, succeeds_modify.
  destruct (encode_round_vote code s Hc Hs) as (d & Ed & Dd & Hd). eapply succeeds_or_return; [exact Ed|].
  eapply broadcast_live; [apply at_round_out, Ha|done|done|lia|by rewrite Ht|]. intros m wire sig Hcar. rewrite Ht.
  cbn [c_out set_c_out]. rewrite <- app_assoc. apply (HQ [_; _]). eexists m, wire, _. split; [right; by left|]. split; [exact Hcar|].
  constructor; [done..|]. by exists s.
Qed.

(** *** Certificates *)

Definition round_qc (code : MsgType) (sig : bytes) : QuorumCert := mkQC (Some w) code proposal_hash leader sig.

(** A certificate of the round's vote. *)
Definition certificate (code : MsgType) (qc : QuorumCert) : Prop :=
  exists sig, qc = round_qc code sig /\ zlen sig < 2 ^ 32 /\ bls_Verify pub (vote_data code) sig = Ret tt.

Lemma leader_address_ok : address_ok leader.
Proof. destruct (st_key Hset leader (st_leader_member Hset)) as (k & _ & ->). apply BytesToAddress_ok. Qed.

Lemma round_qc_codec code sig : 0 <= code < 2 ^ 64 -> c_ok c_QuorumCert (round_qc code sig).
Proof.
  intros Hc. apply qc_ok_codec. split; [exists w; split; [done|apply view_small_ok, (st_view Hset)]|]. split; [exact Hc|].
  split; [apply node_hash_ok|apply leader_address_ok].
Qed.

(** The message that announces a certificate of a phase. *)
Definition announces (code vcode : MsgType) : Prop :=
  (code = MsgTypePreCommit /\ vcode = MsgTypePrepareVote) \/ (code = MsgTypeCommit /\ vcode = MsgTypePreCommitVote) \/
  (code = MsgTypeDecide /\ vcode = MsgTypeCommitVote).

Lemma IsProposer_leader a : a ∈ members -> IsProposer a vs = bool_decide (a = leader).
Proof.
  intros Hin. unfold IsProposer. rewrite (st_leader Hset), GetByAddress_snd. apply (st_validators Hset), elem_of_AddressList in Hin.
  rewrite decide_True by done. apply bool_decide_ext. split; [by intros [= ->]|by intros ->].
Qed.

Lemma at_round_proposer a c rs : at_round a c rs -> a ∈ members -> c_IsProposer c = bool_decide (a = leader).
Proof.
  intros Ha Hin. unfold c_IsProposer, c_Address. rewrite (ar_signer _ _ _ Ha), (ar_set _ _ _ Ha), (st_address Hset a Hin).
  by apply IsProposer_leader.
Qed.

Lemma height_nonzero : (u64 (v_Height w) =? 0) = false.
Proof. pose proof (st_height Hset). destruct (st_view Hset) as [_ Hh]. rewrite u64_small by lia. apply Z.eqb_neq. lia. Qed.

Lemma verifyQC_live a c rs data code vcode qc : at_round a c rs -> a ∈ members -> proposed rs -> announces code vcode ->
  certificate vcode qc -> m_Code data = code -> m_View data = Some w -> verifyQC data (Some qc) c = Ret tt.
Proof.
  intros Ha Hin Hp Hann (sig & -> & Hl & Hsig) Hcode Hview.
  assert (0 <= vcode < 2 ^ 64) as Hvc by (destruct Hann as [[_ ->]|[[_ ->]|[_ ->]]]; done).
  unfold verifyQC, qc_HeightU64, qc_Height. cbn [round_qc qc_View qc_Code qc_ProposedBlock qc_Proposer].
  rewrite height_nonzero. destruct (Z.eqb_spec proposal_hash EmptyHash) as [Hz|_]; [by destruct (proposal_hash_nonzero Hz)|].
  destruct (Z.eqb_spec leader EmptyAddress) as [Hz|_]; [by destruct (st_leader_address Hset)|]. cbn [orb fail_if mbind outcome_bind].
  assert (code_mismatch (m_Code data) vcode = false) as -> by (rewrite Hcode; destruct Hann as [[-> ->]|[[-> ->]|[-> ->]]]; done).
  cbn [fail_if mbind outcome_bind].
  assert ((m_Code data =? MsgTypeNewView) || (m_Code data =? MsgTypePrepare) = false) as ->
    by (rewrite Hcode; destruct Hann as [[-> ->]|[[-> ->]|[-> ->]]]; done).
  assert ((m_Code data =? MsgTypePreCommit) || (m_Code data =? MsgTypeCommit) || (m_Code data =? MsgTypeDecide) = true) as ->
    by (rewrite Hcode; destruct Hann as [[-> ->]|[[-> ->]|[-> ->]]]; done).
  cbn [mbind outcome_bind]. rewrite Hview. cbn [deref mbind outcome_bind].
  assert (View_Cmp w w = 0) as -> by by apply View_Cmp_eq. cbn [Z.eqb negb fail_if mbind outcome_bind].
  rewrite (leader_of c (ar_set _ _ _ Ha)). cbn [mbind outcome_bind]. rewrite Z.eqb_refl. cbn [negb fail_if mbind outcome_bind].
  rewrite (ar_current _ _ _ Ha). cbn [deref mbind outcome_bind]. destruct (proposed_hash rs Hp) as (n & -> & ->).
  cbn [mbind outcome_bind]. rewrite Z.eqb_refl. cbn [negb fail_if mbind outcome_bind].
  set (msg := NewCleanMessage _ _ _). destruct (encode_val_total c_Message (unsigned msg)) as [d Ed].
  { apply message_ok_codec. split; [exact Hvc|]. split; [|done]. exists w. split; [done|apply view_small_ok, (st_view Hset)]. }
  unfold Message_Hash, qc_SealHash, Message_PayloadNoSig. cbn [round_qc qc_View qc_Code qc_ProposedBlock]. fold msg. rewrite Ed.
  cbn [on_err mbind outcome_bind]. rewrite Z.eqb_refl. cbn [negb fail_if mbind outcome_bind].
  unfold AuthQC. cbn [round_qc qc_View deref mbind outcome_bind]. rewrite height_nonzero. unfold BLSVerifyAggSig, qc_vote.
  cbn [round_qc qc_Code qc_View qc_ProposedBlock qc_BLSSignature]. change (mkVote vcode (Some w) proposal_hash []) with (round_vote vcode []).
  rewrite vote_data_encodes by done. rewrite (ar_signer _ _ _ Ha). by rewrite (proj1 (st_pub Hset a Hin)).
Qed.

(** *** Checks *)

Lemma c_checkView_live a c rs : at_round a c rs -> c_checkView (Some w) c = Ret tt.
Proof.
  intros Ha. unfold c_checkView. rewrite (ar_current _ _ _ Ha). cbn [deref mbind outcome_bind]. rewrite (ar_view _ _ _ Ha).
  unfold checkView, View_Sub. by rewrite !Z.sub_diag.
Qed.

Lemma checkMsgSource_live a c rs : at_round a c rs -> checkMsgSource leader c = Ret tt.
Proof.
  intros Ha. unfold checkMsgSource. rewrite (ar_set _ _ _ Ha), (IsProposer_leader leader (st_leader_member Hset)).
  by rewrite bool_decide_true.
Qed.

Lemma checkMsgDest_live c rs : at_round leader c rs -> checkMsgDest c = Ret tt.
Proof.
  intros Ha. unfold checkMsgDest. rewrite (at_round_proposer leader c rs Ha (st_leader_member Hset)). by rewrite bool_decide_true.
Qed.

Definition grown (c c' : Core) : Prop := exists es, c_out c' = c_out c ++ es.

Lemma setCurrentState_live env a c rs st (Q : unit -> Core -> Prop) : env_total env -> at_round a c rs ->
  (forall c', at_round a c' (set_rs_state st rs) -> grown c c' -> Q tt c') -> succeeds (setCurrentState env st) Q c.
Proof.
  intros He Ha HQ. set (c1 := set_c_current (Some (set_rs_state st rs)) c).
  assert (at_round a c1 (set_rs_state st rs)) as Ha1 by (apply (at_round_rs a c rs); [done|apply Ha]).
  assert (forall c2, at_round a c2 (set_rs_state st rs) -> grown c c2 -> succeeds (processBacklog env) Q c2) as Hback.
  { intros c2 Ha2 [es Hes]. unfold processBacklog. apply succeeds_bind. eapply succeeds_current; [apply Ha2|]. apply succeeds_bind, succeeds_get.
    destruct (process_senders_total (currentView (set_rs_state st rs)) (c_valSet c2) (e_order env _ (c_backlogs c2)) (c_backlogs c2))
      as (b' & out & E & Hb' & _).
    { rewrite (et_order _ He _ (c_backlogs c2)). apply Forall_forall. intros [k q] Hk%elem_of_map_to_list. exact (ar_backlogs _ _ _ Ha2 _ _ Hk). }
    { apply Ha2. }
    apply succeeds_bind. eapply succeeds_lift; [unfold processBacklog_loop; exact E|]. cbn beta iota. apply succeeds_modify. apply HQ.
    - destruct Ha2. by constructor.
    - eexists. cbn [c_out set_c_out]. rewrite Hes, <- app_assoc. done. }
  unfold setCurrentState. apply succeeds_bind. eapply succeeds_mod_rs; [apply Ha|]. apply succeeds_bind, succeeds_when. fold c1.
  destruct (_ || _); [|apply Hback; [done|exists []; by rewrite app_nil_r]]. unfold processPendingRequests. apply succeeds_bind, succeeds_get.
  destruct (ar_requests _ _ _ Ha1) as (l & Hq & Hl).
  destruct (drain_requests_total (fun r => checkRequestMsg r c1) (Prque_Size (c_pendingRequests c1)) _ l [] Hq Hl) as (q' & posted & E & Hq' & _).
  { intros r (b0 & Hb0 & n & Hn). unfold checkRequestMsg. rewrite Hb0, (ar_current _ _ _ Ha1). unfold Block_Number. cbn. rewrite Hn. cbn.
    by repeat case_match. }
  { constructor. }
  apply succeeds_bind. eapply succeeds_lift; [exact E|]. cbn beta iota. apply succeeds_modify, Hback.
  - destruct Ha1. by constructor.
  - eexists. done.
Qed.

(** From the handler of a message to the event. *)
Lemma event_live env src data wire c rs (Q : unit -> Core -> Prop) : carries src data wire -> c_valSet c = vs -> c_current c = Some rs ->
  succeeds (dispatch env data) Q c -> Q tt (handleEvent env (MessageEvent src wire) c).2.
Proof.
  intros Hcar Hv Hcur ([] & c' & E & HQ). unfold handleEvent, ignore. rewrite (Hcar env c Hv). unfold handleCheckedMsg. by rewrite Hcur, E.
Qed.

(** *** What is asked of a member's surroundings *)

Record env_live (env : Env) : Prop := {
  el_total : env_total env;
  el_verify : e_Verify env b = Ret tt;
  el_execute : exists st, e_ExecuteBlock env b = Ret (mkExecuted (Some b) st);
  el_seal qc : certificate MsgTypeCommitVote qc -> exists sb, e_SealBlock env b qc = Ret sb /\ Block_Hash sb = Block_Hash b /\ c_ok c_Block sb
}.

(** ** Prepare *)

Definition proposal : ProposedBlock := NewProposedBlock parent (Some b).

Definition executed (rs : roundState) : Prop := exists st, rs_executed rs = Some (mkExecuted (Some b) st).

(** A member that has the proposal, in the given state. *)
Record stage (a : Address) (st : State) (c : Core) (rs : roundState) : Prop := {
  sg_round : at_round a c rs;
  sg_state : rs_state rs = st;
  sg_node : rs_node rs = Some proposal
}.

(** The votes at hand are the same. *)
Definition same_votes (rs rs' : roundState) : Prop :=
  rs_prepareVotes rs' = rs_prepareVotes rs /\ rs_preCommitVotes rs' = rs_preCommitVotes rs /\ rs_commitVotes rs' = rs_commitVotes rs.

Lemma stage_proposed a st c rs : stage a st c rs -> proposed rs.
Proof. intros Hs. exists b. split; [apply Hs|done]. Qed.

Section Prepare.
Context (highQC : QuorumCert).

Definition package : PackagedQC := NewPackagedQC (Some proposal) (Some highQC).

(** The proposal extends the certificate, and can be sent. *)
Record package_ok : Prop := {
  pk_parent : qc_ProposedBlock highQC = parent;
  pk_view : is_Some (qc_View highQC);
  pk_codec : c_ok c_PackagedQC package;
  pk_size : exists it, enc c_PackagedQC package = Ret it /\ zlen (encode it) <= 2 ^ 62
}.
Hypothesis Hpk : package_ok.

(** The member's chain and its lock admit the proposal. *)
Definition admits (c : Core) : Prop :=
  checkBlock b c = Ret tt /\ safeNode proposal (Some highQC) c = Ret tt /\
  verifyQC (mkMessage leader MsgTypePrepare (Some w) [] []) (Some highQC) c = Ret tt.

Lemma verifyQC_prepare data c c' : m_Code data = MsgTypePrepare -> m_View data = Some w -> c_signer c' = c_signer c ->
  verifyQC data (Some highQC) c' = verifyQC (mkMessage leader MsgTypePrepare (Some w) [] []) (Some highQC) c.
Proof. intros Hc Hv Hs. unfold verifyQC. rewrite Hc, Hv, Hs. done. Qed.

Lemma admits_same c c' rs rs' : c_current c = Some rs -> c_current c' = Some rs' -> c_signer c' = c_signer c ->
  rs_lastChainedBlock rs' = rs_lastChainedBlock rs -> LockedBlock rs' = LockedBlock rs -> rs_lockQC rs' = rs_lockQC rs ->
  admits c -> admits c'.
Proof.
  intros E E' Hs Hl Hk Hq (Hb & Hn & Hv). split_and!.
  - rewrite <- Hb. unfold checkBlock. by rewrite E, E'; cbn [deref mbind outcome_bind]; rewrite Hl, Hk.
  - rewrite <- Hn. unfold safeNode. by rewrite E, E'; cbn [deref mbind outcome_bind]; rewrite Hq.
  - rewrite <- Hv. by apply verifyQC_prepare.
Qed.

Definition prepare_payload (d : bytes) : Prop := decode_val c_PackagedQC d = Ret package.

Lemma handlePrepare_live env a data c rs (Q : unit -> Core -> Prop) : env_live env -> at_round a c rs -> a ∈ members -> admits c ->
  m_Address data = leader -> m_Code data = MsgTypePrepare -> m_View data = Some w -> prepare_payload (m_Msg data) ->
  (if bool_decide (a = leader) then stage a StateHighQC c rs else rs_state rs < StateHighQC) ->
  (forall c' rs', stage a StateHighQC c' rs' -> executed rs' -> same_votes rs rs' -> (exists es, c_out c' = c_out c ++ es /\ voted a MsgTypePrepareVote es) -> Q tt c') ->
  succeeds (handlePrepare env data) Q c.
Proof.
  intros He Ha Hin Had Hsrc Hcode Hview Hpay Hst HQ. unfold handlePrepare. apply succeeds_bind. eapply succeeds_newLogger; [apply Ha|].
  apply succeeds_bind. eapply succeeds_lift; [unfold Message_Decode; by rewrite Hpay|].
  apply succeeds_bind. eapply succeeds_asks; [rewrite Hview; by eapply c_checkView_live|].
  apply succeeds_bind. eapply succeeds_asks; [rewrite Hsrc; by eapply checkMsgSource_live|].
  apply succeeds_bind. eapply (succeeds_asks _ tt).
  { cbn. destruct (Z.eqb_spec parent EmptyHash) as [Hz|_]; [by destruct (proj2 (st_parent Hset))|done]. }
  apply succeeds_bind. eapply succeeds_lift; [done|]. apply succeeds_bind. eapply succeeds_lift; [done|].
  apply succeeds_bind. eapply succeeds_asks; [apply Had|]. apply succeeds_bind. eapply succeeds_lift; [by rewrite (el_verify _ He)|].
  apply succeeds_bind. unfold executeBlock. apply succeeds_bind, succeeds_get.
  assert (succeeds (if c_IsProposer c then mod_rs (set_rs_executed (Some (mkExecuted (Some b) 0)))
    else executed ← lift (e_ExecuteBlock env b); mod_rs (set_rs_executed (Some executed)))
    (fun _ c1 => exists st, c1 = set_c_current (Some (set_rs_executed (Some (mkExecuted (Some b) st)) rs)) c) c) as Hexec.
  { destruct (c_IsProposer c); [eapply succeeds_mod_rs; [apply Ha|by exists 0]|]. destruct (el_execute _ He) as [st Est].
    apply succeeds_bind. eapply succeeds_lift; [exact Est|]. eapply succeeds_mod_rs; [apply Ha|by exists st]. }
  eapply succeeds_mono; [exact Hexec|]. intros [] c1 [st ->]. set (rs1 := set_rs_executed _ rs). set (c1 := set_c_current _ c).
  assert (at_round a c1 rs1) as Ha1 by (apply (at_round_rs a c rs); [done|apply Ha]).
  assert (admits c1) as (_ & Hsafe & Hver) by by apply (admits_same c c1 rs rs1); [apply Ha|..].
  apply succeeds_bind. eapply succeeds_asks; [by erewrite verifyQC_prepare|].
  apply succeeds_bind. eapply (succeeds_asks _ tt); [cbn [package pq_QC]; by rewrite Hsafe|].
  apply succeeds_bind, succeeds_get. apply succeeds_bind. eapply succeeds_current; [apply Ha1|].
  rewrite (at_round_proposer a c1 rs1 Ha1 Hin). destruct (bool_decide (a = leader)) eqn:El; cbn [andb negb].
  - apply succeeds_bind, succeeds_when. change (rs_state rs1) with (rs_state rs). rewrite (sg_state _ _ _ _ Hst). cbn.
    assert (stage a StateHighQC c1 rs1) as Hs1 by (destruct Hst; by constructor).
    eapply sendVote_live; [exact Ha1|done|by left|by eapply stage_proposed|]. intros es Hes. apply succeeds_bind, succeeds_get.
    apply succeeds_bind. eapply succeeds_current; [apply Ha1|]. apply succeeds_when.
    rewrite (at_round_proposer a _ rs1 (at_round_out _ _ _ _ Ha1) Hin), El. cbn [negb andb].
    apply (HQ _ rs1); [destruct Hs1; constructor; [by apply at_round_out|done|done]|by exists st|done|by exists es].
  - apply succeeds_bind, succeeds_when. apply succeeds_bind, succeeds_get. apply succeeds_bind. eapply succeeds_current; [apply Ha1|].
    apply succeeds_when. rewrite (at_round_proposer a c1 rs1 Ha1 Hin), El. change (rs_state rs1) with (rs_state rs).
    destruct (Z.ltb_spec (rs_state rs) StateHighQC); [cbn [negb andb]|lia]. apply succeeds_bind. unfold SetProposedBlock.
    cbn [proposal package pq_ProposedBlock pb_Block]. eapply succeeds_mod_rs; [apply Ha1|]. set (rs2 := set_rs_node _ rs1). set (c2 := set_c_current _ c1).
    assert (at_round a c2 rs2) as Ha2 by (apply (at_round_rs a c1 rs1); [done|apply Ha1]).
    apply succeeds_bind. eapply setCurrentState_live; [apply He|exact Ha2|]. intros c3 Ha3 [es3 Hes3].
    assert (stage a StateHighQC c3 (set_rs_state StateHighQC rs2)) as Hs3 by by constructor.
    eapply sendVote_live; [exact Ha3|done|by left|by eapply stage_proposed|]. intros es Hes. eapply HQ.
    + destruct Hs3. constructor; [by apply at_round_out|done|done].
    + by exists st.
    + done.
    + exists (es3 ++ es). cbn [c_out set_c_out]. rewrite Hes3, app_assoc. split; [done|].
      destruct Hes as (m & wire & d & Hin' & Hrest). exists m, wire, d. split; [apply elem_of_app; by right|done].
Qed.

(** The leader is given the block while it waits for one. *)
Record waiting (c : Core) (rs : roundState) : Prop := {
  wt_round : at_round leader c rs;
  wt_state : rs_state rs = StateHighQC;
  wt_highQC : rs_highQC rs = Some highQC;
  wt_unlocked : LockedBlock rs = None;
  wt_request : rs_pendingRequest rs = None
}.

Lemma sendPrepare_live env c rs (Q : unit -> Core -> Prop) : at_round leader c rs -> rs_state rs = StateHighQC ->
  rs_highQC rs = Some highQC -> proposal_block c rs = Ret (Some b) -> admits c ->
  (forall c' rs', stage leader StateHighQC c' rs' -> admits c' -> same_votes rs rs' ->
    (exists es, c_out c' = c_out c ++ es /\ announced MsgTypePrepare prepare_payload es) -> Q tt c') ->
  succeeds (sendPrepare env) Q c.
Proof.
  intros Ha Hst Hhigh Hblock Had HQ. unfold sendPrepare. apply succeeds_bind, succeeds_get.
  rewrite (at_round_proposer leader c rs Ha (st_leader_member Hset)), bool_decide_true by done. cbn [negb].
  apply succeeds_bind. eapply succeeds_current; [apply Ha|]. rewrite Hst. cbn [Z.eqb negb StateHighQC Pos.eqb].
  apply succeeds_bind. eapply succeeds_lift; [exact Hblock|]. apply succeeds_bind.
  assert (succeeds (when (e_now env <? Block_Time b) (emit (ESleepUntil (Block_Time b))))
    (fun _ c1 => exists es, c1 = set_c_out (c_out c ++ es) c) c) as Hsleep.
  { apply succeeds_when. destruct (_ <? _); [apply succeeds_modify; by eexists|]. exists []. by rewrite app_nil_r, set_c_out_id. }
  eapply succeeds_mono; [exact Hsleep|]. intros [] c1 [es1 ->]. apply succeeds_bind. eapply succeeds_lift; [by rewrite Hhigh|].
  destruct (pk_size Hpk) as (it & Eit & Hit). destruct (encode_decode_size c_PackagedQC package (2 ^ 62) (pk_codec Hpk)) as (d & Ed & Dd & Hd);
    [by exists it|lia|].
  rewrite (pk_parent Hpk). eapply succeeds_or_return; [exact Ed|]. apply succeeds_bind. unfold SetProposedBlock. cbn [pb_Block].
  eapply succeeds_mod_rs; [apply Ha|]. set (rs2 := set_rs_node _ rs). set (c2 := set_c_current _ _).
  assert (at_round leader c2 rs2) as Ha2 by (apply (at_round_rs leader _ rs); [by apply at_round_out|apply Ha]).
  eapply broadcast_live; [exact Ha2|apply (st_leader_member Hset)|done|lia|done|]. intros m wire sig Hcar.
  cbn [is_vote_type MsgTypePrepare MsgTypeNewView MsgTypePrepareVote MsgTypePreCommitVote MsgTypeCommitVote Z.eqb Pos.eqb orb].
  apply (HQ _ rs2).
  - constructor; [by apply at_round_out|done|done].
  - by apply (admits_same c _ rs rs2); [apply Ha|..].
  - done.
  - eexists (es1 ++ [EBroadcast m wire]). cbn [c_out set_c_out c2 set_c_current]. rewrite app_assoc. split; [done|].
    eexists m, wire, _. split; [apply elem_of_app; right; by left|]. by split; [exact Hcar|].
Qed.

Lemma handleRequest_live env c rs (Q : unit -> Core -> Prop) : waiting c rs -> admits c ->
  (forall c' rs', stage leader StateHighQC c' rs' -> admits c' -> same_votes rs rs' ->
    (exists es, c_out c' = c_out c ++ es /\ announced MsgTypePrepare prepare_payload es) -> Q tt c') ->
  succeeds (handleRequest env (mkRequest (Some b))) Q c.
Proof.
  intros [Ha Hst Hhigh Hunl Hreq] Had HQ. unfold handleRequest. apply succeeds_bind. eapply succeeds_newLogger; [apply Ha|].
  apply succeeds_bind, succeeds_get. unfold checkRequestMsg. cbn [req_Block]. rewrite (ar_current _ _ _ Ha). unfold Block_Number.
  rewrite (st_number Hset). cbn [deref mbind outcome_bind].
  assert (rs_height rs = v_Height w) as Hh by (rewrite <- (ar_view _ _ _ Ha); done).
  assert (cmp_Z (rs_height rs) (v_Height w) = 0) as -> by (rewrite Hh; unfold cmp_Z; by rewrite Z.compare_refl). cbn [Z.ltb Z.compare].
  apply succeeds_bind. eapply succeeds_current; [apply Ha|]. rewrite Hst, Hreq. cbn. apply succeeds_bind. eapply succeeds_lift; [done|].
  apply succeeds_bind. eapply succeeds_mod_rs; [apply Ha|]. unfold SetPendingRequest. rewrite Hreq.
  set (rs1 := set_rs_pendingRequest _ rs). set (c1 := set_c_current _ c).
  apply (sendPrepare_live env c1 rs1); [apply (at_round_rs leader c rs); [done|apply Ha]|done|done| | |exact HQ].
  - unfold proposal_block. change (LockedBlock rs1) with (LockedBlock rs). rewrite Hunl. cbn [rs1 rs_pendingRequest set_rs_pendingRequest].
    unfold Block_NumberU64. rewrite (st_number Hset). cbn [deref mbind outcome_bind]. unfold c_HeightU64, rs_HeightU64. cbn.
    by rewrite Hh, Z.eqb_refl.
  - by apply (admits_same c c1 rs rs1); [apply Ha|..].
Qed.

End Prepare.

(** ** Votes *)

(** The set has the votes of these members and no other message. *)
Record filed (code : MsgType) (voters : list Address) (ms : MessageSet) : Prop := {
  fi_set : ms_vs ms = vs;
  fi_votes : map_Forall (fun a m => a ∈ members /\ vote_of a code m) (ms_msgs ms);
  fi_dom : dom (ms_msgs ms) = (list_to_set voters : gset Z)
}.

Lemma file_vote code voters ms a data : filed code voters ms -> a ∈ members -> vote_of a code data ->
  exists ms', MessageSet_Add data ms = Ret ms' /\ filed code (a :: voters) ms'.
Proof.
  intros [Fs Fv Fd] Hin Hv. eexists. split.
  - apply MessageSet_Add_member. rewrite Fs, (vo_address _ _ _ Hv). by apply (st_validators Hset).
  - rewrite (vo_address _ _ _ Hv). constructor; cbn [ms_vs ms_msgs]; [done|by apply map_Forall_insert_2|]. rewrite dom_insert_L, Fd. done.
Qed.

Lemma filed_size code voters ms : filed code voters ms -> NoDup voters -> MessageSet_Size ms = zlen voters.
Proof.
  intros [_ _ Fd] Hn. unfold MessageSet_Size, zlen. rewrite <- size_dom, Fd. by rewrite size_list_to_set.
Qed.

Lemma filed_ok code voters ms : filed code voters ms -> ms_ok ms.
Proof.
  intros [Fs Fv _]. unfold ms_ok. intros a m Hm. destruct (Fv a m Hm) as [Hin Hv]. split; [apply Hv|]. rewrite Fs. by apply (st_validators Hset).
Qed.

(** The shares of a list of votes. *)
Lemma collect_shares code msgs : 0 <= code < 2 ^ 64 -> Forall (fun m => m_Address m ∈ members /\ vote_of (m_Address m) code m) msgs ->
  exists ss, mapM_outcome (fun ov => v ← deref ov; Ret (vote_BLSSignature v)) (GetMessageVotes msgs) = Ret ss /\
    Forall2 (fun j s => tbls_Sign j (vote_data code) = Ret s) ((fun m => sg_blsPrivKey (signers (m_Address m))) <$> msgs) ss.
Proof.
  intros Hc. induction 1 as [|m msgs [_ Hv] _ (ss & Ess & Hss)]; [by exists []|]. destruct (vo_vote _ _ _ Hv) as (s & Ds & Es).
  exists (s :: ss). cbn [GetMessageVotes fmap list_fmap]. rewrite Ds. cbn [mapM_outcome deref mbind outcome_bind round_vote vote_BLSSignature].
  fold (GetMessageVotes msgs). rewrite Ess. split; [done|]. by constructor.
Qed.

Lemma share_injective a a' : a ∈ members -> a' ∈ members -> sg_blsPrivKey (signers a) = sg_blsPrivKey (signers a') -> a = a'.
Proof.
  intros [i Hi]%list_elem_of_lookup [j Hj]%list_elem_of_lookup E. pose proof (st_shares Hset) as Hn. rewrite NoDup_alt in Hn.
  assert (i = j) as -> by (eapply Hn; rewrite list_lookup_fmap; [rewrite Hi|rewrite Hj]; cbn; by rewrite ?E). congruence.
Qed.

Lemma votes_make_certificate env code c rs ms voters : order_ok (e_order env) -> at_round leader c rs -> proposed rs -> vote_code code ->
  GetMessages env code rs = Ret (MessageSet_Values (e_order env) ms) -> filed code voters ms -> NoDup voters -> Q vs <= zlen voters ->
  voters <> [] -> exists qc, messagesToQC env code c = Ret qc /\ certificate code qc.
Proof.
  intros Ho Ha Hp [Hc _]%vote_code_range Hget Hf Hn Hq Hne. set (msgs := MessageSet_Values (e_order env) ms) in *.
  destruct (message_set_counts_validators (e_order env) ms Ho (filed_ok _ _ _ Hf)) as (Hnd & _ & Hsz & _). fold msgs in Hnd, Hsz.
  assert (Forall (fun m => m_Address m ∈ members /\ vote_of (m_Address m) code m) msgs) as Hall.
  { apply Forall_forall. intros m Hm. unfold msgs in Hm. rewrite MessageSet_Values_perm in Hm by done.
    apply list_elem_of_fmap in Hm as ([a m'] & -> & Hm%elem_of_map_to_list). destruct (fi_votes _ _ _ Hf a m' Hm) as [Hin Hv].
    cbn [snd]. by rewrite (vo_address _ _ _ Hv). }
  destruct (collect_shares code msgs Hc Hall) as (ss & Ess & Hss).
  destruct (live_recover pub (vote_data code) (sg_t (signers leader)) (sg_n (signers leader))
    ((fun m => sg_blsPrivKey (signers (m_Address m))) <$> msgs) ss) as (sig & Esig & Hsig); [| | |exact Hss|].
  { apply Forall_fmap. eapply Forall_impl; [exact Hall|]. intros m [Hin _]. cbn. by apply (st_pub Hset). }
  { change (fun m => sg_blsPrivKey (signers (m_Address m))) with ((fun a => sg_blsPrivKey (signers a)) ∘ m_Address).
    rewrite list_fmap_compose.
    apply NoDup_fmap_2_strong; [|done]. intros a a' Ha1 Ha2. rewrite Forall_forall in Hall.
    apply list_elem_of_fmap in Ha1 as (m1 & -> & Hm1). apply list_elem_of_fmap in Ha2 as (m2 & -> & Hm2).
    apply share_injective; by apply Hall. }
  { unfold zlen. rewrite length_fmap. rewrite (filed_size code voters ms Hf Hn) in Hsz. pose proof (st_threshold Hset). lia. }
  exists (round_qc code sig). split; [|exists sig; split_and!; [done|done|by eapply recover_verifies]].
  unfold messagesToQC. rewrite (ar_current _ _ _ Ha). cbn [deref mbind outcome_bind]. rewrite Hget. cbn [mbind outcome_bind].
  rewrite (filed_size code voters ms Hf Hn) in Hsz. destruct msgs as [|m0 msgs'] eqn:Em; [unfold zlen in *; destruct voters; cbn in Hsz; [done|lia]|]. rewrite <- Em in *.
  cbn [fail_if mbind outcome_bind]. rewrite (leader_of c (ar_set _ _ _ Ha)). cbn [mbind outcome_bind].
  rewrite (UnsignedVote_round rs code Hp (ar_view _ _ _ Ha)). cbn [deref mbind outcome_bind]. rewrite vote_data_encodes by done.
  cbn [on_err mbind outcome_bind]. rewrite Ess. cbn [mbind outcome_bind]. unfold BLSRecoverAggSig.
  rewrite (ar_signer _ _ _ Ha), (proj1 (st_pub Hset leader (st_leader_member Hset))), Esig. cbn [mbind outcome_bind].
  by rewrite (ar_view _ _ _ Ha).
Qed.

Lemma checkVote_live c rs code s : at_round leader c rs -> proposed rs -> vote_code code -> checkVote (round_vote code s) code c = Ret tt.
Proof.
  intros Ha Hp [Hc _]%vote_code_range. unfold checkVote. rewrite (ar_current _ _ _ Ha). cbn [deref mbind outcome_bind].
  rewrite (UnsignedVote_round rs code Hp (ar_view _ _ _ Ha)). cbn [deref mbind outcome_bind].
  change (Vote_Unsigned (round_vote code s)) with (round_vote code []). rewrite bool_decide_true by done. cbn [negb fail_if mbind outcome_bind].
  rewrite vote_data_encodes by done. cbn [on_err mbind outcome_bind]. by rewrite bool_decide_true.
Qed.

(** ** The leader's half *)

(** The leader, with the votes it has of each phase. *)
Record leading (st : State) (v1 v2 v3 : list Address) (c : Core) (rs : roundState) : Prop := {
  ld_stage : stage leader st c rs;
  ld_executed : executed rs;
  ld_prepare : filed MsgTypePrepareVote v1 (rs_prepareVotes rs);
  ld_preCommit : filed MsgTypePreCommitVote v2 (rs_preCommitVotes rs);
  ld_commit : filed MsgTypeCommitVote v3 (rs_commitVotes rs)
}.

Definition locked (rs : roundState) : Prop := LockedBlock rs = Some b.

(** A certificate as the payload of a message. *)
Definition qc_payload (code : MsgType) (d : bytes) : Prop := exists qc, certificate code qc /\ decode_val c_QuorumCert d = Ret qc.

Lemma certificate_codec code qc : vote_code code -> certificate code qc -> c_ok c_QuorumCert qc.
Proof. intros [Hc _]%vote_code_range (sig & -> & _). by apply round_qc_codec. Qed.

Lemma certificate_encodes code qc : vote_code code -> certificate code qc ->
  exists d, encode_val c_QuorumCert qc = Ret d /\ decode_val c_QuorumCert d = Ret qc /\ zlen d < 2 ^ 33.
Proof.
  intros Hv Hq. pose proof (certificate_codec code qc Hv Hq) as Hok. destruct Hq as (sig & -> & Hl & _).
  destruct (encode_decode_size c_QuorumCert (round_qc code sig) (zlen sig + 200) Hok) as (d & Ed & Dd & Hd).
  - apply enc_QC_size; [apply (st_view Hset)|by apply vote_code_range in Hv as [? _]].
  - lia.
  - exists d. split_and!; [done|done|lia].
Qed.

Lemma sendQC_live c rs code vcode qc (Q : unit -> Core -> Prop) : at_round leader c rs -> announces code vcode -> certificate vcode qc ->
  (forall es, announced code (qc_payload vcode) es -> Q tt (set_c_out (c_out c ++ es) c)) -> succeeds (sendQC code qc) Q c.
Proof.
  intros Ha Hann Hqc HQ. assert (vote_code vcode) as Hv by (destruct Hann as [[_ ->]|[[_ ->]|[_ ->]]]; unfold vote_code; tauto).
  destruct (certificate_encodes vcode qc Hv Hqc) as (d & Ed & Dd & Hd). unfold sendQC. apply succeeds_bind.
  eapply succeeds_newLogger; [apply Ha|]. eapply succeeds_or_return; [exact Ed|].
  assert (0 <= code < 2 ^ 64 /\ is_vote_type code = false /\ is_leader_type code = true) as (Hc & Hvt & Hlt)
    by (destruct Hann as [[-> _]|[[-> _]|[-> _]]]; done).
  eapply broadcast_live; [exact Ha|apply (st_leader_member Hset)|done|lia|by rewrite Hvt, Hlt|]. intros m wire sig Hcar. rewrite Hvt.
  apply HQ. eexists m, wire, _. split; [by left|]. split; [exact Hcar|]. split_and!; [done..|]. by exists qc.
Qed.

(** Accepting a certificate. *)
Lemma acceptPrepareQC_live env a st c rs qc (Q : unit -> Core -> Prop) : env_live env -> stage a st c rs -> certificate MsgTypePrepareVote qc ->
  (forall c', stage a StatePrepared c' (set_rs_state StatePrepared (set_rs_prepareQC (Some qc) rs)) -> c_out c' = c_out c -> Q tt c') ->
  succeeds (acceptPrepareQC env qc) Q c.
Proof.
  intros He [Ha Hst Hn] Hqc HQ. unfold acceptPrepareQC, SetPrepareQC, storePrepareQC. apply succeeds_bind, succeeds_bind.
  apply succeeds_store; [apply He|apply (certificate_codec MsgTypePrepareVote); [by left|done]|]. intros db.
  eapply succeeds_mod_rs; [apply Ha|]. eapply succeeds_mod_rs; [done|]. apply HQ; [|done].
  constructor; [|done|done]. destruct Ha. by constructor.
Qed.

Lemma proposal_codec b' : c_ok c_Block b' -> c_ok c_ProposedBlock (NewProposedBlock parent (Some b')).
Proof. intros Hb. split; [apply (st_parent Hset)|]. split; [|done]. by exists b'. Qed.

Lemma acceptLockQC_live env a st c rs qc (Q : unit -> Core -> Prop) : env_live env -> stage a st c rs -> certificate MsgTypePreCommitVote qc ->
  (forall c', let rs' := set_rs_state StatePreCommitted (set_locked (Some b) true (set_rs_lockQC (Some qc) rs)) in
    stage a StatePreCommitted c' rs' -> locked rs' -> c_out c' = c_out c -> Q tt c') ->
  succeeds (acceptLockQC env qc) Q c.
Proof.
  intros He [Ha Hst Hn] Hqc HQ. unfold acceptLockQC, Lock, storeLockQC, storeNode. apply succeeds_bind, succeeds_bind.
  eapply succeeds_current; [apply Ha|]. rewrite Hn. apply succeeds_bind.
  apply succeeds_store; [apply He|apply (certificate_codec MsgTypePreCommitVote); [by right; left|done]|]. intros db. apply succeeds_bind.
  apply succeeds_store; [apply He|apply proposal_codec, (st_block Hset)|]. intros db'.
  eapply succeeds_mod_rs; [apply Ha|]. eapply succeeds_mod_rs; [done|]. apply HQ; [|done|done].
  constructor; [|done|done]. destruct Ha. by constructor.
Qed.

Lemma quorum_live c rs code voters ms : at_round leader c rs -> filed code voters ms -> NoDup voters ->
  quorum (MessageSet_Size ms) c = (Q vs <=? zlen voters).
Proof. intros Ha Hf Hn. unfold quorum. by rewrite (ar_set _ _ _ Ha), (filed_size _ _ _ Hf Hn). Qed.

(** A vote that is filed. *)
Lemma add_vote_live (get_set : roundState -> MessageSet) (upd : MessageSet -> roundState -> roundState) code voters a data c rs e
  (Q : unit -> Core -> Prop) : c_current c = Some rs -> filed code voters (get_set rs) -> a ∈ members -> vote_of a code data ->
  (forall ms, filed code (a :: voters) ms -> Q tt (set_c_current (Some (upd ms rs)) c)) ->
  succeeds (wrap (rs ← current_rs; ms ← lift (MessageSet_Add data (get_set rs)); mod_rs (upd ms)) e) Q c.
Proof.
  intros Hc Hf Hin Hv HQ. destruct (file_vote code voters (get_set rs) a data Hf Hin Hv) as (ms & Ems & Hms).
  apply succeeds_wrap, succeeds_bind. eapply succeeds_current; [done|]. apply succeeds_bind. eapply succeeds_lift; [exact Ems|].
  eapply succeeds_mod_rs; [done|]. by apply HQ.
Qed.

(** A member that has sealed the proposal. *)
Record sealed (a : Address) (sb : Block) (c : Core) (rs : roundState) : Prop := {
  sl_round : at_round a c rs;
  sl_state : rs_state rs = StateCommitted;
  sl_node : rs_node rs = Some (NewProposedBlock parent (Some sb));
  sl_locked : LockedBlock rs = Some sb;
  sl_executed : exists st, rs_executed rs = Some (mkExecuted (Some sb) st);
  sl_hash : Block_Hash sb = Block_Hash b
}.

Lemma Block_Hash_live bl : hash_ok (Block_Hash bl) /\ Block_Hash bl <> EmptyHash.
Proof.
  unfold Block_Hash, Header_Hash, rlpHash. split; repeat case_match; (apply Keccak256Hash_ok || apply live_digest).
Qed.

Lemma acceptCommitQC_live env a st c rs qc sb (Q : unit -> Core -> Prop) : env_live env -> stage a st c rs -> locked rs -> executed rs ->
  certificate MsgTypeCommitVote qc -> Block_Hash sb = Block_Hash b -> c_ok c_Block sb ->
  (forall c' rs', sealed a sb c' rs' -> c_out c' = c_out c -> Q tt c') -> succeeds (acceptCommitQC env sb qc) Q c.
Proof.
  intros He [Ha Hst Hn] Hk [st' Hx] Hqc Hh Hsb HQ. unfold acceptCommitQC. apply succeeds_bind. unfold SetSealedBlock, storeNode. apply succeeds_bind.
  eapply succeeds_current; [apply Ha|]. rewrite Hn. cbn [proposal]. rewrite Hh, Z.eqb_refl. cbn [negb]. apply succeeds_bind.
  eapply succeeds_mod_rs; [apply Ha|]. apply succeeds_bind. apply succeeds_store; [apply He|by apply proposal_codec|]. intros db.
  eapply succeeds_mod_rs; [done|]. cbn zeta. cbn [rs_executed set_rs_node]. rewrite Hx, Z.eqb_refl.
  apply succeeds_bind. unfold SetCommittedQC, storeCommitQC. apply succeeds_bind.
  apply succeeds_store; [apply He|apply (certificate_codec MsgTypeCommitVote); [by right; right|done]|]. intros db'.
  eapply succeeds_mod_rs; [done|]. eapply succeeds_mod_rs; [done|]. eapply HQ; [|done]. constructor.
  - destruct Ha. by constructor.
  - done.
  - done.
  - unfold locked, LockedBlock in *. cbn. by destruct (rs_proposalLocked rs).
  - by exists st'.
  - done.
Qed.

Definition diploma_payload (d : bytes) : Prop :=
  exists qc, certificate MsgTypeCommitVote qc /\ decode_val c_Diploma d = Ret (mkDiploma (Some qc) (Block_Hash b)).

Lemma sendDecide_live c rs qc (Q : unit -> Core -> Prop) : at_round leader c rs -> certificate MsgTypeCommitVote qc ->
  (forall es, announced MsgTypeDecide diploma_payload es -> Q tt (set_c_out (c_out c ++ es) c)) -> succeeds (sendDecide (Block_Hash b) qc) Q c.
Proof.
  intros Ha Hqc HQ. assert (c_ok c_Diploma (mkDiploma (Some qc) (Block_Hash b))) as Hok.
  { split; [exists qc; split; [done|]|split; [apply Block_Hash_live|done]]. apply (certificate_codec MsgTypeCommitVote); [by right; right|done]. }
  destruct (encode_decode_size c_Diploma _ (2 ^ 33) Hok) as (d & Ed & Dd & Hd); [|lia|].
  { destruct Hqc as (sig & -> & Hl & _).
    destruct (enc_Diploma_size MsgTypeCommitVote w proposal_hash leader sig (Block_Hash b) (st_view Hset)) as (it & Eit & Hit); [done|].
    exists it. split; [done|lia]. }
  unfold sendDecide. apply succeeds_bind. eapply succeeds_newLogger; [apply Ha|]. eapply succeeds_or_return; [exact Ed|].
  eapply broadcast_live; [exact Ha|apply (st_leader_member Hset)|done|lia|done|]. intros m wire sig Hcar.
  apply HQ. eexists m, wire, _. split; [by left|]. split; [exact Hcar|]. split_and!; [done..|]. by exists qc.
Qed.

Section LeaderVotes.
Context (env : Env) (Henv : env_live env) (a : Address) (Hin : a ∈ members).

(** What follows a vote: the leader waits on, or it has a certificate. *)
Definition after_vote (waits : Core -> Prop) (goes_on : Core -> Prop) (voters : list Address) (c : Core) : Prop :=
  if Q vs <=? zlen voters then goes_on c else waits c.

Lemma handlePrepareVote_live data voters c rs : leading StateHighQC voters [] [] c rs -> NoDup (a :: voters) ->
  vote_of a MsgTypePrepareVote data ->
  succeeds (handlePrepareVote env data) (fun _ => after_vote
    (fun c' => exists rs', leading StateHighQC (a :: voters) [] [] c' rs')
    (fun c' => exists rs' es, leading StatePrepared (a :: voters) [] [] c' rs' /\ c_out c' = c_out c ++ es /\
       announced MsgTypePreCommit (qc_payload MsgTypePrepareVote) es) (a :: voters)) c.
Proof.
  intros [[Ha Hst Hn] Hx Hv1 Hv2 Hv3] Hnd Hv. destruct (vo_vote _ _ _ Hv) as (s & Ds & _). unfold handlePrepareVote.
  apply succeeds_bind. eapply succeeds_newLogger; [apply Ha|]. apply succeeds_bind. eapply succeeds_lift; [by rewrite Ds|].
  apply succeeds_bind. eapply succeeds_asks; [rewrite (vo_view _ _ _ Hv); by eapply c_checkView_live|].
  apply succeeds_bind. eapply succeeds_asks; [eapply checkVote_live; [exact Ha|exists b; by rewrite Hn|by left]|].
  apply succeeds_bind. eapply succeeds_asks; [by eapply checkMsgDest_live|]. apply succeeds_bind.
  eapply (add_vote_live rs_prepareVotes set_rs_prepareVotes); [apply Ha|done..|]. intros ms Hms.
  set (rs1 := set_rs_prepareVotes ms rs). set (c1 := set_c_current (Some rs1) c).
  assert (leading StateHighQC (a :: voters) [] [] c1 rs1) as Hl1.
  { constructor; [|done|done|done|done]. constructor; [|done|done]. apply (at_round_rs leader c rs); [done|apply Ha]. }
  apply succeeds_bind. eapply succeeds_current; [done|]. apply succeeds_bind, succeeds_get.
  rewrite (quorum_live c1 rs1 MsgTypePrepareVote (a :: voters)) by (try done; apply Hl1). unfold after_vote. destruct (Z.leb_spec (Q vs) (zlen (a :: voters))) as [Hq|Hq].
  - change (rs_state rs1) with (rs_state rs). rewrite Hst. cbn [andb Z.eqb Pos.eqb StateHighQC].
    destruct (votes_make_certificate env MsgTypePrepareVote c1 rs1 ms (a :: voters)) as (qc & Eqc & Hqc); try done.
    { apply (et_order _ (el_total _ Henv)). } { apply Hl1. } { by eapply stage_proposed, Hl1. } { by left. }
    apply succeeds_bind. eapply succeeds_asks; [by rewrite (vo_code _ _ _ Hv), Eqc|].
    apply succeeds_bind. eapply acceptPrepareQC_live; [done|apply Hl1|done|]. intros c2 Hs2 Ho2.
    eapply sendQC_live; [apply Hs2|by left|done|]. intros es Hes.
    exists (set_rs_state StatePrepared (set_rs_prepareQC (Some qc) rs1)), es. split; [|by cbn [c_out set_c_out]; rewrite Ho2].
    destruct Hl1, Hs2. constructor; [|done..]. constructor; [by apply at_round_out|done|done].
  - cbn [andb]. apply succeeds_ret. by exists rs1.
Qed.

Lemma handlePreCommitVote_live data v1 voters c rs : leading StatePrepared v1 voters [] c rs -> NoDup (a :: voters) ->
  vote_of a MsgTypePreCommitVote data ->
  succeeds (handlePreCommitVote env data) (fun _ => after_vote
    (fun c' => exists rs', leading StatePrepared v1 (a :: voters) [] c' rs')
    (fun c' => exists rs' es, leading StatePreCommitted v1 (a :: voters) [] c' rs' /\ locked rs' /\ c_out c' = c_out c ++ es /\
       announced MsgTypeCommit (qc_payload MsgTypePreCommitVote) es) (a :: voters)) c.
Proof.
  intros [[Ha Hst Hn] Hx Hv1 Hv2 Hv3] Hnd Hv. destruct (vo_vote _ _ _ Hv) as (s & Ds & _). unfold handlePreCommitVote.
  apply succeeds_bind. eapply succeeds_newLogger; [apply Ha|]. apply succeeds_bind. eapply succeeds_lift; [by rewrite Ds|].
  apply succeeds_bind. eapply succeeds_asks; [rewrite (vo_view _ _ _ Hv); by eapply c_checkView_live|].
  apply succeeds_bind. eapply succeeds_asks; [eapply checkVote_live; [exact Ha|exists b; by rewrite Hn|by right; left]|].
  apply succeeds_bind. eapply succeeds_asks; [by eapply checkMsgDest_live|]. apply succeeds_bind.
  eapply (add_vote_live rs_preCommitVotes set_rs_preCommitVotes); [apply Ha|done..|]. intros ms Hms.
  set (rs1 := set_rs_preCommitVotes ms rs). set (c1 := set_c_current (Some rs1) c).
  assert (leading StatePrepared v1 (a :: voters) [] c1 rs1) as Hl1.
  { constructor; [|done|done|done|done]. constructor; [|done|done]. apply (at_round_rs leader c rs); [done|apply Ha]. }
  apply succeeds_bind. eapply succeeds_current; [done|]. apply succeeds_bind, succeeds_get.
  rewrite (quorum_live c1 rs1 MsgTypePreCommitVote (a :: voters)) by (try done; apply Hl1). unfold after_vote. destruct (Z.leb_spec (Q vs) (zlen (a :: voters))) as [Hq|Hq].
  - change (rs_state rs1) with (rs_state rs). rewrite Hst. cbn [andb Z.ltb Z.compare Pos.compare Pos.compare_cont StatePrepared StatePreCommitted].
    destruct (votes_make_certificate env MsgTypePreCommitVote c1 rs1 ms (a :: voters)) as (qc & Eqc & Hqc); try done.
    { apply (et_order _ (el_total _ Henv)). } { apply Hl1. } { by eapply stage_proposed, Hl1. } { by right; left. }
    apply succeeds_bind. eapply succeeds_asks; [by rewrite (vo_code _ _ _ Hv), Eqc|].
    apply succeeds_bind. eapply acceptLockQC_live; [done|apply Hl1|done|]. intros c2 rs2 Hs2 Hk2 Ho2.
    eapply sendQC_live; [apply Hs2|by right; left|done|]. intros es Hes. exists rs2, es. split; [|by cbn [c_out set_c_out]; rewrite Ho2].
    destruct Hl1, Hs2. constructor; [|done..]. constructor; [by apply at_round_out|done|done].
  - cbn [andb]. apply succeeds_ret. by exists rs1.
Qed.

Lemma handleCommitVote_live data v1 v2 voters c rs : leading StatePreCommitted v1 v2 voters c rs -> locked rs -> NoDup (a :: voters) ->
  vote_of a MsgTypeCommitVote data ->
  succeeds (handleCommitVote env data) (fun _ => after_vote
    (fun c' => exists rs', leading StatePreCommitted v1 v2 (a :: voters) c' rs' /\ locked rs')
    (fun c' => exists rs' sb es, sealed leader sb c' rs' /\ c_out c' = c_out c ++ es /\
       announced MsgTypeDecide diploma_payload es) (a :: voters)) c.
Proof.
  intros [[Ha Hst Hn] Hx Hv1 Hv2 Hv3] Hk Hnd Hv. destruct (vo_vote _ _ _ Hv) as (s & Ds & _). unfold handleCommitVote.
  apply succeeds_bind. eapply succeeds_newLogger; [apply Ha|]. apply succeeds_bind. eapply succeeds_lift; [by rewrite Ds|].
  apply succeeds_bind. eapply succeeds_asks; [rewrite (vo_view _ _ _ Hv); by eapply c_checkView_live|].
  apply succeeds_bind. eapply succeeds_asks; [by eapply checkMsgDest_live|].
  apply succeeds_bind. eapply succeeds_asks; [eapply checkVote_live; [exact Ha|exists b; by rewrite Hn|by right; right]|].
  apply succeeds_bind. eapply succeeds_current; [apply Ha|]. rewrite Hk. apply succeeds_bind.
  eapply (add_vote_live rs_commitVotes set_rs_commitVotes); [apply Ha|done..|]. intros ms Hms.
  set (rs1 := set_rs_commitVotes ms rs). set (c1 := set_c_current (Some rs1) c).
  assert (leading StatePreCommitted v1 v2 (a :: voters) c1 rs1) as Hl1.
  { constructor; [|done|done|done|done]. constructor; [|done|done]. apply (at_round_rs leader c rs); [done|apply Ha]. }
  apply succeeds_bind. eapply succeeds_current; [done|]. apply succeeds_bind, succeeds_get.
  rewrite (quorum_live c1 rs1 MsgTypeCommitVote (a :: voters)) by (try done; apply Hl1). unfold after_vote. destruct (Z.leb_spec (Q vs) (zlen (a :: voters))) as [Hq|Hq].
  - change (rs_state rs1) with (rs_state rs). rewrite Hst. cbn [andb Z.eqb Pos.eqb StatePreCommitted].
    destruct (votes_make_certificate env MsgTypeCommitVote c1 rs1 ms (a :: voters)) as (qc & Eqc & Hqc); try done.
    { apply (et_order _ (el_total _ Henv)). } { apply Hl1. } { by eapply stage_proposed, Hl1. } { by right; right. }
    apply succeeds_bind. eapply succeeds_asks; [by rewrite (vo_code _ _ _ Hv), Eqc|].
    destruct (el_seal _ Henv qc Hqc) as (sb & Esb & Hh & Hsb). apply succeeds_bind. eapply succeeds_lift; [exact Esb|].
    apply succeeds_bind. eapply acceptCommitQC_live; [done|apply Hl1|done|apply Hl1|done..|]. intros c2 rs2 Hs2 Ho2. rewrite Hh.
    eapply sendDecide_live; [apply Hs2|done|]. intros es Hes. exists rs2, sb, es. split; [|by cbn [c_out set_c_out]; rewrite Ho2].
    destruct Hs2. constructor; [by apply at_round_out|done..].
  - cbn [andb]. apply succeeds_ret. by exists rs1.
Qed.

End LeaderVotes.

(** ** A member's half *)

Section MemberHalf.
Context (env : Env) (Henv : env_live env) (a : Address) (Hin : a ∈ members).
Context (data : Message) (Hsrc : m_Address data = leader) (Hview : m_View data = Some w).

(** The member has voted, and kept what the leader's half relies on. *)
Definition has_voted (code : MsgType) (st : State) (c : Core) (rs : roundState) (c' : Core) (rs' : roundState) : Prop :=
  stage a st c' rs' /\ (a = leader -> rs' = rs) /\ (executed rs -> executed rs') /\
  exists es, c_out c' = c_out c ++ es /\ voted a code es.

Lemma handlePreCommit_live c rs : stage a (if bool_decide (a = leader) then StatePrepared else StateHighQC) c rs ->
  m_Code data = MsgTypePreCommit -> qc_payload MsgTypePrepareVote (m_Msg data) ->
  succeeds (handlePreCommit env data) (fun _ c' => exists rs', has_voted MsgTypePreCommitVote StatePrepared c rs c' rs') c.
Proof.
  intros Hs Hcode (qc & Hqc & Dqc). pose proof (sg_round _ _ _ _ Hs) as Ha. unfold handlePreCommit.
  apply succeeds_bind. eapply succeeds_newLogger; [apply Ha|]. apply succeeds_bind. eapply succeeds_lift; [unfold Message_Decode; by rewrite Dqc|].
  apply succeeds_bind. eapply succeeds_asks; [rewrite Hview; by eapply c_checkView_live|].
  apply succeeds_bind. eapply succeeds_asks; [rewrite Hsrc; by eapply checkMsgSource_live|].
  apply succeeds_bind. eapply succeeds_asks; [eapply verifyQC_live; [exact Ha|done|by eapply stage_proposed|by left|done..]|].
  apply succeeds_bind, succeeds_get. apply succeeds_bind. eapply succeeds_current; [apply Ha|].
  rewrite (at_round_proposer a c rs Ha Hin), (sg_state _ _ _ _ Hs). destruct (bool_decide_reflect (a = leader)) as [Hl|Hl].
  - apply succeeds_bind, succeeds_when. cbn [andb Z.eqb Pos.eqb StatePrepared].
    eapply sendVote_live; [exact Ha|done|by right; left|by eapply stage_proposed|]. intros es Hes. apply succeeds_bind, succeeds_get.
    apply succeeds_bind. eapply succeeds_current; [apply Ha|]. apply succeeds_when.
    rewrite (at_round_proposer a _ rs (at_round_out _ _ _ _ Ha) Hin), bool_decide_true by done. cbn [negb andb]. exists rs.
    split_and!; [|done|done|by exists es]. destruct Hs. constructor; [by apply at_round_out|done|done].
  - apply succeeds_bind, succeeds_when. cbn [andb]. apply succeeds_bind, succeeds_get. apply succeeds_bind. eapply succeeds_current; [apply Ha|].
    apply succeeds_when. rewrite (at_round_proposer a c rs Ha Hin), bool_decide_false, (sg_state _ _ _ _ Hs) by done.
    cbn [negb andb Z.eqb Pos.eqb StateHighQC]. apply succeeds_bind. eapply acceptPrepareQC_live; [done|exact Hs|done|]. intros c1 Hs1 Ho1.
    eapply sendVote_live; [apply Hs1|done|by right; left|by eapply stage_proposed|]. intros es Hes.
    exists (set_rs_state StatePrepared (set_rs_prepareQC (Some qc) rs)). split_and!; [|done|by intros [st Hx]; exists st|exists es; by cbn [c_out set_c_out]; rewrite Ho1].
    destruct Hs1. constructor; [by apply at_round_out|done|done].
Qed.

Lemma handleCommit_live c rs : stage a (if bool_decide (a = leader) then StatePreCommitted else StatePrepared) c rs ->
  (a = leader -> locked rs) -> m_Code data = MsgTypeCommit -> qc_payload MsgTypePreCommitVote (m_Msg data) ->
  succeeds (handleCommit env data) (fun _ c' => exists rs', has_voted MsgTypeCommitVote StatePreCommitted c rs c' rs' /\ locked rs') c.
Proof.
  intros Hs Hk Hcode (qc & Hqc & Dqc). pose proof (sg_round _ _ _ _ Hs) as Ha. unfold handleCommit.
  apply succeeds_bind. eapply succeeds_newLogger; [apply Ha|]. apply succeeds_bind. eapply succeeds_lift; [unfold Message_Decode; by rewrite Dqc|].
  apply succeeds_bind. eapply (succeeds_asks _ tt); [destruct Hqc as (sig & -> & _); by eapply c_checkView_live|].
  apply succeeds_bind. eapply succeeds_asks; [rewrite Hsrc; by eapply checkMsgSource_live|].
  apply succeeds_bind. eapply succeeds_asks; [eapply verifyQC_live; [exact Ha|done|by eapply stage_proposed|by right; left|done..]|].
  apply succeeds_bind, succeeds_get. apply succeeds_bind. eapply succeeds_current; [apply Ha|].
  rewrite (at_round_proposer a c rs Ha Hin), (sg_state _ _ _ _ Hs). destruct (bool_decide_reflect (a = leader)) as [Hl|Hl].
  - apply succeeds_bind, succeeds_when. cbn [andb Z.ltb Z.compare Pos.compare Pos.compare_cont StatePreCommitted StateCommitted].
    eapply sendVote_live; [exact Ha|done|by right; right|by eapply stage_proposed|]. intros es Hes. apply succeeds_bind, succeeds_get.
    apply succeeds_bind. eapply succeeds_current; [apply Ha|]. apply succeeds_when.
    rewrite (at_round_proposer a _ rs (at_round_out _ _ _ _ Ha) Hin), bool_decide_true by done. cbn [negb andb]. exists rs.
    split; [|by apply Hk]. split_and!; [|done|done|by exists es]. destruct Hs. constructor; [by apply at_round_out|done|done].
  - apply succeeds_bind, succeeds_when. cbn [andb]. apply succeeds_bind, succeeds_get. apply succeeds_bind. eapply succeeds_current; [apply Ha|].
    apply succeeds_when. rewrite (at_round_proposer a c rs Ha Hin), bool_decide_false, (sg_state _ _ _ _ Hs) by done.
    cbn [negb andb Z.ltb Z.compare Pos.compare Pos.compare_cont StatePreCommitted StatePrepared]. apply succeeds_bind.
    eapply acceptLockQC_live; [done|exact Hs|done|]. intros c1 rs1 Hs1 Hk1 Ho1.
    eapply sendVote_live; [apply Hs1|done|by right; right|by eapply stage_proposed|]. intros es Hes. exists rs1. split; [|done].
    split_and!; [|done|by intros [st Hx]; exists st|exists es; by cbn [c_out set_c_out]; rewrite Ho1].
    destruct Hs1. constructor; [by apply at_round_out|done|done].
Qed.

(** The block has been handed to the chain. *)
Definition committed (c : Core) : Prop :=
  exists n x xb, ECommit (v_Height w) n x ∈ c_out c /\ xb_Block x = Some xb /\ Block_Hash xb = Block_Hash b.

Lemma committed_grows c c' : emits (fun _ => True) c c' -> committed c -> committed c'.
Proof. intros (es & E & _) (n & x & xb & Hin' & Hx). exists n, x, xb. rewrite E. split; [apply elem_of_app; by left|done]. Qed.

(** Once committed, always committed. *)
Lemma committed_bind {A} (m : M Core A) (k : A -> M Core unit) c : (forall x, respects (emits (fun _ => True)) (k x)) ->
  committed (m c).2 -> committed ((m ≫= k) c).2.
Proof.
  intros Hk Hm. unfold mbind, M_bind. destruct (m c) as [[x|e|] c1]; [|done|done]. eapply committed_grows; [apply Hk|done].
Qed.

Lemma commit_live sb c rs : sealed a sb c rs -> committed (commit env sb c).2.
Proof.
  intros [Ha Hst Hn Hk [st Hx] Hh]. unfold commit. rewrite (bind_Ret _ _ c rs c) by (unfold current_rs, asks; by rewrite (ar_current _ _ _ Ha)).
  rewrite Hk, Z.eqb_refl. cbn [negb]. rewrite (bind_Ret get _ c c c) by done. unfold executed_matches. rewrite Hx, Z.eqb_refl. cbn [negb when].
  rewrite (bind_Ret _ _ c tt c) by done. rewrite (bind_Ret _ _ c rs c) by (unfold current_rs, asks; by rewrite (ar_current _ _ _ Ha)).
  rewrite Hx. rewrite (bind_Ret _ _ c (mkExecuted (Some sb) st) c) by done. unfold emit. erewrite bind_Ret by done.
  exists (rs_node rs), (mkExecuted (Some sb) st), sb. split; [|done]. cbn. rewrite <- (ar_view _ _ _ Ha). apply elem_of_app. right. by left.
Qed.

Lemma event_committed src wire c rs : carries src data wire -> at_round a c rs -> committed (dispatch env data c).2 ->
  committed (handleEvent env (MessageEvent src wire) c).2.
Proof.
  intros Hcar Ha Hc. unfold handleEvent, ignore. rewrite (Hcar env c (ar_set _ _ _ Ha)). unfold handleCheckedMsg. rewrite (ar_current _ _ _ Ha).
  destruct (dispatch env data c) as [[[]|e|] c1]; [done| |done]. cbn [snd] in Hc. destruct (decide _); [|done].
  assert (respects (emits (fun _ => True)) (_ ← storeBacklog data; throw (A:=unit) e)) as Hr
    by (apply respects_bind; [apply _|by apply emits_storeBacklog|intros _; apply respects_throw; apply _]).
  pose proof (committed_grows _ _ (Hr c1) Hc) as Hst.
  by destruct ((_ ← storeBacklog data; throw (A:=unit) e) c1) as [[[]|e'|] c2].
Qed.

(** What a member must be for the leader's last message. *)
Definition ready_to_decide (c : Core) (rs : roundState) : Prop :=
  if bool_decide (a = leader) then exists sb, sealed a sb c rs else stage a StatePreCommitted c rs /\ locked rs /\ executed rs.

Lemma ready_to_decide_facts c rs : ready_to_decide c rs -> at_round a c rs /\ proposed rs /\
  exists lb, LockedBlock rs = Some lb /\ rs_node rs = Some (NewProposedBlock parent (Some lb)) /\ Block_Hash lb = Block_Hash b.
Proof.
  unfold ready_to_decide. case_bool_decide.
  - intros [sb Hs]. split_and!; [apply Hs|exists sb; split; apply Hs|]. exists sb. split_and!; apply Hs.
  - intros (Hs & Hk & _). split_and!; [apply Hs|by eapply stage_proposed|]. exists b. split_and!; [apply Hk|apply Hs|done].
Qed.

Lemma succeeds_end {A} (m : M Core A) (k : A -> M Core unit) (P : Core -> Prop) c :
  succeeds m (fun x c1 => P (k x c1).2) c -> P ((m ≫= k) c).2.
Proof. intros (x & c1 & E & HP). by rewrite (bind_Ret _ _ _ _ _ E). Qed.

Lemma handleDecide_live c rs : ready_to_decide c rs -> m_Code data = MsgTypeDecide -> diploma_payload (m_Msg data) ->
  committed (handleDecide env data c).2.
Proof.
  intros Hd Hcode (qc & Hqc & Dqc). destruct (ready_to_decide_facts c rs Hd) as (Ha & Hp & lb & Hlk & Hn & Hh). unfold handleDecide.
  apply succeeds_end. eapply succeeds_newLogger; [apply Ha|]. apply succeeds_end. eapply succeeds_lift; [unfold Message_Decode; by rewrite Dqc|].
  apply succeeds_end. eapply succeeds_asks; [rewrite Hview; by eapply c_checkView_live|].
  apply succeeds_end. eapply succeeds_asks; [rewrite Hsrc; by eapply checkMsgSource_live|].
  apply succeeds_end. eapply succeeds_asks; [eapply verifyQC_live; [exact Ha|done|done|by right; right|done..]|].
  apply succeeds_end. eapply succeeds_lift; [done|]. apply succeeds_end. eapply (succeeds_asks _ lb).
  { cbn [dip_BlockHash]. rewrite <- Hh. apply (check_decision_passes c rs parent lb lb); [apply Ha|done..|apply Block_Hash_live|].
    destruct Hqc as (sig & -> & _). cbn. unfold proposal_hash, node_hash. by rewrite Hh. }
  apply succeeds_end, succeeds_get. apply succeeds_end. eapply succeeds_current; [apply Ha|].
  assert (forall round, respects (emits (fun _ => True)) (startNewRound env round)) as Hgrow by (intros round; apply grows_startNewRound).
  unfold ready_to_decide in Hd. rewrite (at_round_proposer a c rs Ha Hin). destruct (bool_decide (a = leader)) eqn:El.
  - destruct Hd as [sb Hs]. assert (lb = sb) as -> by (pose proof (sl_locked _ _ _ _ Hs); congruence).
    rewrite (sl_state _ _ _ _ Hs). cbn [andb Z.eqb Pos.eqb StateCommitted when]. apply committed_bind; [|by eapply commit_live].
    intros _. apply respects_bind; [apply _|apply respects_get; apply _|intros c']. apply respects_bind; [apply _|apply respects_asks; apply _|intros rs'].
    apply respects_bind; [apply _|apply respects_when; [apply _|]|intros _; apply Hgrow]. apply respects_bind; [apply _|by intros ?|intros sb'].
    apply respects_bind; [apply _| |intros _; by apply emits_commit]. unfold acceptCommitQC.
    apply respects_bind; [apply _|by apply emits_SetSealedBlock|intros _]. apply respects_bind; [apply _|by apply emits_SetCommittedQC|intros _].
    apply emits_mod_rs.
  - destruct Hd as (Hs & Hk & Hx). assert (lb = b) as -> by (unfold locked in Hk; congruence). cbn [andb when].
    apply succeeds_end, succeeds_ret. apply succeeds_end, succeeds_get. apply succeeds_end. eapply succeeds_current; [apply Ha|].
    rewrite (at_round_proposer a c rs Ha Hin), El, (sg_state _ _ _ _ Hs). cbn [negb andb Z.eqb Pos.eqb StatePreCommitted when].
    apply committed_bind; [intros _; apply Hgrow|]. destruct (el_seal _ Henv qc Hqc) as (sb & Esb & Hsh & Hsb).
    apply succeeds_end. eapply succeeds_lift; [exact Esb|]. apply succeeds_end. eapply acceptCommitQC_live; [done|exact Hs|done..|].
    intros c2 rs2 Hs2 _. by eapply commit_live.
Qed.

End MemberHalf.

End Setting.

End Phases.
