(* ===== verification/Liveness.v ===== *)
(** * Liveness: a round that goes well commits

    A network of engines, each with its surroundings; a step gives a replica a
    block to propose or a message some replica has sent it ([delivery]).  If a
    quorum of replicas with an honest leader are in one view, the leader has its
    highest certificate and is given a block that the others' locks admit, and
    the messages among them are delivered, then every one of them hands the
    block to its chain, whatever the other validators do or have done. *)
From Stdlib Require Import ZArith Lia Strings.Byte.
From stdpp Require Import base list option strings gmap relations.
From S2P Require Import Prelude Errors Rlp Codec Common Validator Block Types Signer Prque MessageSet Backlog RoundState Core Refinement Outbox Progress Behaviour Phases.
Open Scope Z_scope.

Section Liveness.
Context `{Keccak} `{Crypto} `{!CryptoLaws} `{!LiveCrypto}.

(** ** Networks *)

Definition Network := Address -> Core.

(** Bytes that were sent to a replica, possibly to all. *)
Definition sent_to (dst : Address) (wire : bytes) (es : list Effect) : Prop :=
  exists m, EBroadcast m wire ∈ es \/ EUnicast dst m wire ∈ es.

Section Deliveries.
Context (envs : Address -> Env).

Definition receive (a : Address) (ev : Event) (f : Network) : Network :=
  fun x => if decide (x = a) then (handleEvent (envs a) ev (f a)).2 else f x.

Inductive delivery (f : Network) : Network -> Prop :=
| deliver_request a b : delivery f (receive a (RequestEvent (Some b)) f)
| deliver_message src dst wire : sent_to dst wire (c_out (f src)) -> delivery f (receive dst (MessageEvent src wire) f).

Lemma receive_at a ev f : receive a ev f a = (handleEvent (envs a) ev (f a)).2.
Proof. unfold receive. by rewrite decide_True. Qed.

Lemma receive_other a a' ev f : a <> a' -> receive a ev f a' = f a'.
Proof. intros Hne. unfold receive. by rewrite decide_False. Qed.

Lemma receive_grows a ev f a' : c_out (f a') ⊆ c_out (receive a ev f a').
Proof.
  destruct (decide (a = a')) as [<-|Hne]; [|by rewrite receive_other]. rewrite receive_at.
  destruct (emits_handleEvent (fun _ => True) ltac:(done) ltac:(done) (envs a) ev (f a)) as (es & -> & _). set_solver.
Qed.

(** A message for all is delivered to all. *)
Lemma deliver_all src m wire (Pre Post : Address -> Core -> Prop) ms :
  (forall a c, a ∈ ms -> Pre a c -> Post a (handleEvent (envs a) (MessageEvent src wire) c).2) -> NoDup ms ->
  forall f, EBroadcast m wire ∈ c_out (f src) -> (forall a, a ∈ ms -> Pre a (f a)) ->
  exists f', rtc delivery f f' /\ (forall a, a ∈ ms -> Post a (f' a)) /\ (forall a, a ∉ ms -> f' a = f a).
Proof.
  induction ms as [|x ms IH]; intros Hstep Hnd f Hsent Hpre; [exists f; split_and!; [done| |done]; by intros a ?%not_elem_of_nil|].
  apply NoDup_cons in Hnd as [Hx Hnd]. set (f1 := receive x (MessageEvent src wire) f).
  destruct (IH ltac:(intros a c Ha; apply Hstep; by right) Hnd f1) as (f' & Hrtc & Hpost & Hsame).
  { by apply receive_grows. }
  { intros a Ha. unfold f1. rewrite receive_other by (intros ->; done). apply Hpre. by right. }
  exists f'. split_and!.
  - eapply rtc_l; [|exact Hrtc]. apply deliver_message. exists m. by left.
  - intros a [->|Ha]%elem_of_cons; [|by apply Hpost]. rewrite Hsame by done. unfold f1. rewrite receive_at.
    apply Hstep; [by left|]. apply Hpre. by left.
  - intros a [Hne Ha]%not_elem_of_cons. rewrite Hsame by done. unfold f1. by rewrite receive_other.
Qed.

End Deliveries.

(** ** The round *)

Section Round.
Context (vs : defaultSet) (leader : Address) (w : View) (members : list Address) (pub : PubPoly)
  (signers : Address -> HotstuffSigner) (parent : Hash) (b : Block) (highQC : QuorumCert) (envs : Address -> Env).

#[local] Abbreviation setting := (setting vs leader w members pub signers parent b).
#[local] Abbreviation at_round := (at_round vs w signers).
#[local] Abbreviation stage := (stage vs w signers parent b).
#[local] Abbreviation leading := (leading vs leader w members signers parent b).
#[local] Abbreviation filed := (filed vs w members signers parent b).
#[local] Abbreviation voted := (voted vs leader w signers parent b).
#[local] Abbreviation announced := (announced vs leader w).
#[local] Abbreviation carries := (carries vs).
#[local] Abbreviation vote_of := (vote_of w signers parent b).
#[local] Abbreviation after_vote := (after_vote vs).
#[local] Abbreviation qc_payload := (qc_payload leader w pub parent b).
#[local] Abbreviation executed := (executed b).
#[local] Abbreviation locked := (locked b).

Definition no_votes (rs : roundState) : Prop :=
  rs_prepareVotes rs = NewMessageSet vs /\ rs_preCommitVotes rs = NewMessageSet vs /\ rs_commitVotes rs = NewMessageSet vs.

(** Where the round starts: the leader has its highest certificate and no
    votes yet, the others have not seen a proposal, and every member's chain
    and lock admit the block. *)
Record ready (f : Network) : Prop := {
  rd_setting : setting;
  rd_package : package_ok parent b highQC;
  rd_envs a : a ∈ members -> env_live leader w pub parent b (envs a);
  rd_admits a : a ∈ members -> admits leader w parent b highQC (f a);
  rd_leader : exists rs, waiting vs leader w signers highQC (f leader) rs /\ no_votes rs;
  rd_member a : a ∈ members -> a <> leader -> exists rs, at_round a (f a) rs /\ rs_state rs < StateHighQC
}.

(** *** Quorums *)

Lemma voted_mono a code es es' : es ⊆ es' -> voted a code es -> voted a code es'.
Proof. intros Hs (m & wire & d & Hin & Hv). exists m, wire, d. split; [by apply Hs|done]. Qed.

Lemma announced_mono code P es es' : es ⊆ es' -> announced code P es -> announced code P es'.
Proof. intros Hs (m & wire & d & Hin & Hv). exists m, wire, d. split; [by apply Hs|done]. Qed.

(** The leader is given votes until they are a quorum. *)
Lemma collect_votes code (Inv : list Address -> Core -> Prop) (Goal : Core -> Prop) :
  (forall a got c data wire, a ∈ members -> NoDup (a :: got) -> Inv got c -> carries a data wire -> vote_of a code data ->
    after_vote (Inv (a :: got)) Goal (a :: got) (handleEvent (envs leader) (MessageEvent a wire) c).2) ->
  forall todo got f, todo <> [] -> NoDup (todo ++ got) -> zlen todo + zlen got = Q vs ->
  (forall a, a ∈ todo -> a ∈ members /\ voted a code (c_out (f a))) -> Inv got (f leader) ->
  exists f', rtc (delivery envs) f f' /\ Goal (f' leader) /\ (forall a, a <> leader -> f' a = f a).
Proof.
  intros Hstep. induction todo as [|a todo IH]; intros got f Hne Hnd Hlen Hvotes Hinv; [done|].
  destruct (Hvotes a ltac:(by left)) as [Hin (m & wire & data & Hsent & Hcar & Hvote)].
  assert (NoDup (a :: got)) as Hnd'.
  { cbn in Hnd. apply NoDup_cons in Hnd as [Ha Hnd]. apply NoDup_cons. split; [set_solver|]. by apply NoDup_app in Hnd as (_ & _ & ?). }
  specialize (Hstep a got (f leader) data wire Hin Hnd' Hinv Hcar Hvote) as Hnext. set (f1 := receive envs leader (MessageEvent a wire) f).
  assert (delivery envs f f1) as Hd by (apply deliver_message; exists m; by right).
  rewrite <- (receive_at envs leader (MessageEvent a wire) f) in Hnext. fold f1 in Hnext. unfold Phases.after_vote in Hnext.
  assert (forall x, x <> leader -> f1 x = f x) as Hsame by (intros x Hx; apply receive_other; done).
  unfold zlen in *. cbn [length] in *. destruct (Z.leb_spec (Q vs) (Z.of_nat (S (length got)))).
  - exists f1. split_and!; [by apply rtc_once|done|done].
  - destruct (IH (a :: got) f1) as (f' & Hrtc & Hgoal & Hsame'); [| |cbn; lia| |done|].
    { intros ->. cbn in *. lia. }
    { rewrite <- Permutation_middle. exact Hnd. }
    { intros x Hx. destruct (Hvotes x ltac:(by right)) as [Hxin Hxv]. split; [done|]. eapply voted_mono; [|exact Hxv]. apply receive_grows. }
    exists f'. split_and!; [by eapply rtc_l|done|]. intros x Hx. rewrite Hsame' by done. by apply Hsame.
Qed.

Hypothesis Hset : setting.

Lemma quorum_positive : 0 < Q vs.
Proof.
  assert (0 < Size vs) as Hs.
  { pose proof (st_validators _ _ _ _ _ _ _ _ Hset _ (st_leader_member _ _ _ _ _ _ _ _ Hset)) as Hv%elem_of_AddressList.
    unfold Size, List. destruct (vs_validators vs); [by apply not_elem_of_nil in Hv|cbn; lia]. }
  unfold Q, F. pose proof (Z.quot_le_upper_bound (Size vs - 1) 3 (Size vs - 1)). lia.
Qed.

Lemma collect_quorum code (Inv : list Address -> Core -> Prop) (Goal : Core -> Prop) f :
  (forall a got c data wire, a ∈ members -> NoDup (a :: got) -> Inv got c -> carries a data wire -> vote_of a code data ->
    after_vote (Inv (a :: got)) Goal (a :: got) (handleEvent (envs leader) (MessageEvent a wire) c).2) ->
  (forall a, a ∈ members -> voted a code (c_out (f a))) -> Inv [] (f leader) ->
  exists f', rtc (delivery envs) f f' /\ Goal (f' leader) /\ (forall a, a <> leader -> f' a = f a).
Proof.
  intros Hstep Hvotes Hinv. pose proof quorum_positive as Hq. pose proof (st_quorum _ _ _ _ _ _ _ _ Hset) as Hm. unfold zlen in Hm.
  set (voters := take (Z.to_nat (Q vs)) members). assert (length voters = Z.to_nat (Q vs)) as Hl by (unfold voters; rewrite length_take; lia).
  apply (collect_votes code Inv Goal Hstep voters []); [by intros E; rewrite E in Hl; cbn in Hl; lia| | | |done].
  - rewrite app_nil_r. eapply sublist_NoDup; [apply (st_nodup _ _ _ _ _ _ _ _ Hset)|apply sublist_take].
  - unfold zlen. rewrite Hl. cbn. lia.
  - intros a Ha. assert (a ∈ members) as Hin by (unfold voters in Ha; eapply elem_of_take in Ha as (i & Hi & _); by eapply list_elem_of_lookup_2).
    split; [done|by apply Hvotes].
Qed.

Lemma filed_none code : filed code [] (NewMessageSet vs).
Proof. constructor; [done|by apply map_Forall_empty|]. cbn [NewMessageSet ms_msgs]. apply dom_empty_L. Qed.

(** *** The phases *)

Hypothesis Henvs : forall a, a ∈ members -> env_live leader w pub parent b (envs a).

Let leader_in : leader ∈ members := st_leader_member _ _ _ _ _ _ _ _ Hset.
Let members_nodup : NoDup members := st_nodup _ _ _ _ _ _ _ _ Hset.

(** A member after it has voted in a phase; the leader has the votes of the
    phases before. *)
Definition member_at (code : MsgType) (st : State) (v1 v2 : list Address) (a : Address) (c : Core) : Prop :=
  exists rs, stage a st c rs /\ executed rs /\ voted a code (c_out c) /\ (st = StatePreCommitted -> locked rs) /\
    (a = leader -> leading st v1 v2 [] c rs).

(** One phase: what was announced makes all members vote. *)
Lemma announce_phase code (P : bytes -> Prop) f (Pre Post : Address -> Core -> Prop) : announced code P (c_out (f leader)) ->
  (forall a, a ∈ members -> Pre a (f a)) ->
  (forall a c data wire, a ∈ members -> Pre a c -> carries leader data wire -> m_Address data = leader -> m_Code data = code ->
    m_View data = Some w -> P (m_Msg data) -> Post a (handleEvent (envs a) (MessageEvent leader wire) c).2) ->
  exists f', rtc (delivery envs) f f' /\ (forall a, a ∈ members -> Post a (f' a)).
Proof.
  intros (m & wire & data & Hsent & Hcar & Ha & Hc & Hv & HP) Hpre Hstep.
  destruct (deliver_all envs leader m wire Pre Post members) with f as (f' & Hrtc & Hpost & _); [|done|done|done|by exists f'].
  intros a c Hin Hc'. by eapply Hstep.
Qed.

Lemma prepare_phase f : package_ok parent b highQC -> (forall a, a ∈ members -> admits leader w parent b highQC (f a)) ->
  (exists rs, waiting vs leader w signers highQC (f leader) rs /\ no_votes rs) ->
  (forall a, a ∈ members -> a <> leader -> exists rs, at_round a (f a) rs /\ rs_state rs < StateHighQC) ->
  exists f', rtc (delivery envs) f f' /\ forall a, a ∈ members -> member_at MsgTypePrepareVote StateHighQC [] [] a (f' a).
Proof.
  intros Hpk Had (rs & Hw & Hnv) Hmem. set (f1 := receive envs leader (RequestEvent (Some b)) f).
  set (Pre := fun a c => admits leader w parent b highQC c /\ exists rs, at_round a c rs /\
    if bool_decide (a = leader) then stage a StateHighQC c rs /\ no_votes rs else rs_state rs < StateHighQC).
  assert (Pre leader (f1 leader) /\ announced MsgTypePrepare (prepare_payload parent b highQC) (c_out (f1 leader))) as [Hpl Hann].
  { unfold f1. rewrite receive_at. unfold handleEvent, ignore.
    destruct (handleRequest_live vs leader w members pub signers parent b Hset highQC Hpk (envs leader) (f leader) rs
      (fun _ c' => Pre leader c' /\ announced MsgTypePrepare (prepare_payload parent b highQC) (c_out c')) Hw (Had leader leader_in))
      as ([] & c' & E & HQ); [|by rewrite E].
    intros c' rs' Hs Ha (W1 & W2 & W3) (es & Eo & He). split.
    - split; [done|]. exists rs'. split; [apply Hs|]. rewrite bool_decide_true by done. split; [done|].
      unfold no_votes. rewrite W1, W2, W3. exact Hnv.
    - rewrite Eo. eapply announced_mono; [|exact He]. set_solver. }
  destruct (announce_phase _ _ f1 Pre (member_at MsgTypePrepareVote StateHighQC [] []) Hann) as (f' & Hrtc & Hpost).
  - intros a Hin. destruct (decide (a = leader)) as [->|Hne]; [done|]. unfold f1. rewrite receive_other by done.
    destruct (Hmem a Hin Hne) as (rs' & Ha & Hst). split; [by apply Had|]. exists rs'. split; [done|]. by rewrite bool_decide_false.
  - intros a c data wire Hin [Hadm (rs' & Ha & Hst)] Hcar Hsrc Hcode Hview Hpay.
    apply (event_live vs (envs a) leader data wire c rs' (fun _ => member_at MsgTypePrepareVote StateHighQC [] [] a)); [done|apply Ha|apply Ha|].
    assert (dispatch (envs a) data = handlePrepare (envs a) data) as -> by (unfold dispatch; by rewrite Hcode).
    eapply (handlePrepare_live vs leader w members pub signers parent b Hset highQC); [by apply Henvs|exact Ha|done..| |].
    { destruct (bool_decide (a = leader)); [apply Hst|done]. }
    intros c' rs2 Hs Hx (W1 & W2 & W3) (es & Eo & Hv). exists rs2. split_and!; [done|done| |done|].
    + rewrite Eo. eapply voted_mono; [|exact Hv]. set_solver.
    + intros ->. rewrite bool_decide_true in Hst by done. destruct Hst as [_ (N1 & N2 & N3)].
      constructor; [done|done|rewrite W1, N1|rewrite W2, N2|rewrite W3, N3]; apply filed_none.
  - exists f'. split; [|done]. eapply rtc_l; [apply deliver_request|exact Hrtc].
Qed.

Lemma leading_out st v1 v2 c c' rs : leading st v1 v2 [] c rs -> stage leader st c' rs -> leading st v1 v2 [] c' rs.
Proof. intros [] ?. by constructor. Qed.

Lemma preCommit_phase f : (forall a, a ∈ members -> member_at MsgTypePrepareVote StateHighQC [] [] a (f a)) ->
  exists f' v1, rtc (delivery envs) f f' /\ forall a, a ∈ members -> member_at MsgTypePreCommitVote StatePrepared v1 [] a (f' a).
Proof.
  intros Hall. destruct (collect_quorum MsgTypePrepareVote (fun got c => exists rs, leading StateHighQC got [] [] c rs)
    (fun c => exists rs v1, leading StatePrepared v1 [] [] c rs /\ announced MsgTypePreCommit (qc_payload MsgTypePrepareVote) (c_out c)) f)
    as (f1 & Hrtc1 & (rs1 & v1 & Hl1 & Hann) & Hsame).
  - intros a got c data wire Hin Hnd [rs Hl] Hcar Hv. apply (event_live vs (envs leader) a data wire c rs (fun _ => _)); [done|apply Hl|apply Hl|].
    assert (dispatch (envs leader) data = handlePrepareVote (envs leader) data) as -> by (unfold dispatch; by rewrite (vo_code _ _ _ _ _ _ _ Hv)).
    eapply succeeds_mono; [by eapply (handlePrepareVote_live vs leader w members pub signers parent b Hset (envs leader) (Henvs _ leader_in) a Hin)|].
    intros [] c'. unfold Phases.after_vote. case_match; [|done]. intros (rs' & es & Hl' & Eo & He). exists rs', (a :: got). split; [done|].
    rewrite Eo. eapply announced_mono; [|exact He]. set_solver.
  - intros a Hin. destruct (Hall a Hin) as (rs & _ & _ & Hv & _). done.
  - destruct (Hall leader leader_in) as (rs & _ & _ & _ & _ & Hl). exists rs. by apply Hl.
  - set (Pre := fun a c => exists rs, stage a (if bool_decide (a = leader) then StatePrepared else StateHighQC) c rs /\ executed rs /\
      (a = leader -> leading StatePrepared v1 [] [] c rs)).
    destruct (announce_phase _ _ f1 Pre (member_at MsgTypePreCommitVote StatePrepared v1 []) Hann) as (f' & Hrtc & Hpost).
    + intros a Hin. destruct (decide (a = leader)) as [->|Hne].
      * exists rs1. rewrite bool_decide_true by done. split_and!; [apply Hl1|apply Hl1|done].
      * rewrite Hsame by done. destruct (Hall a Hin) as (rs & Hs & Hx & _). exists rs. by rewrite bool_decide_false.
    + intros a c data wire Hin (rs & Hs & Hx & Hl) Hcar Hsrc Hcode Hview Hpay.
      apply (event_live vs (envs a) leader data wire c rs (fun _ => member_at MsgTypePreCommitVote StatePrepared v1 [] a)); [done|apply Hs|apply Hs|].
      assert (dispatch (envs a) data = handlePreCommit (envs a) data) as -> by (unfold dispatch; by rewrite Hcode).
      eapply succeeds_mono; [by eapply (handlePreCommit_live vs leader w members pub signers parent b Hset (envs a) (Henvs _ Hin) a Hin)|].
      intros _ c' (rs' & Hs' & Hkeep & Hx' & es & Eo & Hv). exists rs'. split_and!; [done|by apply Hx'| |done|].
      * rewrite Eo. eapply voted_mono; [|exact Hv]. set_solver.
      * intros Ha. rewrite (Hkeep Ha) in *. subst a. eapply leading_out; [by apply Hl|done].
    + exists f', v1. split; [|done]. by etrans.
Qed.

Lemma commit_phase f v1 : (forall a, a ∈ members -> member_at MsgTypePreCommitVote StatePrepared v1 [] a (f a)) ->
  exists f' v2, rtc (delivery envs) f f' /\ forall a, a ∈ members -> member_at MsgTypeCommitVote StatePreCommitted v1 v2 a (f' a).
Proof.
  intros Hall. destruct (collect_quorum MsgTypePreCommitVote (fun got c => exists rs, leading StatePrepared v1 got [] c rs)
    (fun c => exists rs v2, leading StatePreCommitted v1 v2 [] c rs /\ locked rs /\ announced MsgTypeCommit (qc_payload MsgTypePreCommitVote) (c_out c)) f)
    as (f1 & Hrtc1 & (rs1 & v2 & Hl1 & Hk1 & Hann) & Hsame).
  - intros a got c data wire Hin Hnd [rs Hl] Hcar Hv. apply (event_live vs (envs leader) a data wire c rs (fun _ => _)); [done|apply Hl|apply Hl|].
    assert (dispatch (envs leader) data = handlePreCommitVote (envs leader) data) as -> by (unfold dispatch; by rewrite (vo_code _ _ _ _ _ _ _ Hv)).
    eapply succeeds_mono; [by eapply (handlePreCommitVote_live vs leader w members pub signers parent b Hset (envs leader) (Henvs _ leader_in) a Hin)|].
    intros [] c'. unfold Phases.after_vote. case_match; [|done]. intros (rs' & es & Hl' & Hk' & Eo & He). exists rs', (a :: got). split_and!; [done|done|].
    rewrite Eo. eapply announced_mono; [|exact He]. set_solver.
  - intros a Hin. destruct (Hall a Hin) as (rs & _ & _ & Hv & _). done.
  - destruct (Hall leader leader_in) as (rs & _ & _ & _ & _ & Hl). exists rs. by apply Hl.
  - set (Pre := fun a c => exists rs, stage a (if bool_decide (a = leader) then StatePreCommitted else StatePrepared) c rs /\ executed rs /\
      (a = leader -> locked rs) /\ (a = leader -> leading StatePreCommitted v1 v2 [] c rs)).
    destruct (announce_phase _ _ f1 Pre (member_at MsgTypeCommitVote StatePreCommitted v1 v2) Hann) as (f' & Hrtc & Hpost).
    + intros a Hin. destruct (decide (a = leader)) as [->|Hne].
      * exists rs1. rewrite bool_decide_true by done. split_and!; [apply Hl1|apply Hl1|done|done].
      * rewrite Hsame by done. destruct (Hall a Hin) as (rs & Hs & Hx & _). exists rs. by rewrite bool_decide_false.
    + intros a c data wire Hin (rs & Hs & Hx & Hk & Hl) Hcar Hsrc Hcode Hview Hpay.
      apply (event_live vs (envs a) leader data wire c rs (fun _ => member_at MsgTypeCommitVote StatePreCommitted v1 v2 a)); [done|apply Hs|apply Hs|].
      assert (dispatch (envs a) data = handleCommit (envs a) data) as -> by (unfold dispatch; by rewrite Hcode).
      eapply succeeds_mono; [by eapply (handleCommit_live vs leader w members pub signers parent b Hset (envs a) (Henvs _ Hin) a Hin)|].
      intros _ c' (rs' & (Hs' & Hkeep & Hx' & es & Eo & Hv) & Hk'). exists rs'. split_and!; [done|by apply Hx'| |done|].
      * rewrite Eo. eapply voted_mono; [|exact Hv]. set_solver.
      * intros Ha. rewrite (Hkeep Ha) in *. subst a. eapply leading_out; [by apply Hl|done].
    + exists f', v2. split; [|done]. by etrans.
Qed.

Lemma decide_phase f v1 v2 : (forall a, a ∈ members -> member_at MsgTypeCommitVote StatePreCommitted v1 v2 a (f a)) ->
  exists f', rtc (delivery envs) f f' /\ forall a, a ∈ members -> committed w b (f' a).
Proof.
  intros Hall. destruct (collect_quorum MsgTypeCommitVote (fun got c => exists rs, leading StatePreCommitted v1 v2 got c rs /\ locked rs)
    (fun c => exists rs sb, sealed vs w signers parent b leader sb c rs /\ announced MsgTypeDecide (diploma_payload leader w pub parent b) (c_out c)) f)
    as (f1 & Hrtc1 & (rs1 & sb & Hs1 & Hann) & Hsame).
  - intros a got c data wire Hin Hnd (rs & Hl & Hk) Hcar Hv. apply (event_live vs (envs leader) a data wire c rs (fun _ => _)); [done|apply Hl|apply Hl|].
    assert (dispatch (envs leader) data = handleCommitVote (envs leader) data) as -> by (unfold dispatch; by rewrite (vo_code _ _ _ _ _ _ _ Hv)).
    eapply succeeds_mono; [by eapply (handleCommitVote_live vs leader w members pub signers parent b Hset (envs leader) (Henvs _ leader_in) a Hin)|].
    intros [] c'. unfold Phases.after_vote. case_match; [|done]. intros (rs' & sb & es & Hs' & Eo & He). exists rs', sb. split; [done|].
    rewrite Eo. eapply announced_mono; [|exact He]. set_solver.
  - intros a Hin. destruct (Hall a Hin) as (rs & _ & _ & Hv & _). done.
  - destruct (Hall leader leader_in) as (rs & _ & _ & _ & Hk & Hl). exists rs. split; [by apply Hl|by apply Hk].
  - destruct (announce_phase _ _ f1 (fun a c => exists rs, ready_to_decide vs leader w signers parent b a c rs) (fun _ => committed w b) Hann)
      as (f' & Hrtc & Hpost).
    + intros a Hin. unfold ready_to_decide. destruct (decide (a = leader)) as [->|Hne].
      * exists rs1. rewrite bool_decide_true by done. by exists sb.
      * rewrite Hsame by done. destruct (Hall a Hin) as (rs & Hs & Hx & _ & Hk & _). exists rs. rewrite bool_decide_false by done.
        split_and!; [done|by apply Hk|done].
    + intros a c data wire Hin (rs & Hd) Hcar Hsrc Hcode Hview Hpay.
      destruct (ready_to_decide_facts vs leader w signers parent b a c rs Hd) as (Ha & _).
      eapply event_committed; [done|exact Ha|].
      assert (dispatch (envs a) data = handleDecide (envs a) data) as -> by (unfold dispatch; by rewrite Hcode).
      by eapply (handleDecide_live vs leader w members pub signers parent b Hset (envs a) (Henvs _ Hin) a Hin).
    + exists f'. split; [by etrans|done].
Qed.

End Round.

End Liveness.
