(* ===== verification/LiveNetwork.v ===== *)
(** * A network in which a round goes well

    Concrete parameters for the liveness theorem: a digest that is never zero,
    a threshold scheme, four validators of which three take part, the first
    block of a chain. *)
From Stdlib Require Import ZArith Lia Strings.Byte.
From stdpp Require Import base list option strings gmap relations.
From S2P Require Import Prelude Errors Rlp Codec Common Validator Block Types Signer Prque MessageSet Backlog RoundState Core Refinement Progress Phases Liveness.
Open Scope Z_scope.

(** ** Parameters *)

Program Definition live_keccak : Keccak := {|
  keccak256 := fun data => be_fixed 32 (1 + fold_left (fun acc b => (acc * 31 + Z_of_byte b + 1) mod 1000003) data 7)
|}.
Next Obligation. intros. apply length_be_fixed. Qed.

#[local] Existing Instance live_keccak.

(** A share names its holder, a signature shows the digest. *)
Definition live_crypto : Crypto := {|
  PrivateKey := Z;
  PublicKey := Z;
  public k := be_value (be_fixed 33 k);
  FromECDSAPub k := x04 :: be_fixed 33 k;
  ecdsa_Sign d k := if (length d =? 32)%nat then Ret (be_fixed 33 k ++ d) else Err (ErrExternal 1);
  SigToPub d sig := if decide (drop 33 sig = d) then Ret (be_value (take 33 sig)) else Err (ErrExternal 2);
  PriShare := Z;
  PubPoly := Z;
  tbls_Sign i d := Ret (be_fixed 8 i ++ keccak256 d);
  tbls_Recover pub d shares t n :=
    if forallb (fun s => bool_decide (drop 8 s = keccak256 d)) shares && (t <=? zlen shares) then Ret (x01 :: keccak256 d) else Err (ErrExternal 3);
  bls_Verify pub d sig := if decide (sig = x01 :: keccak256 d) then Ret tt else Err (ErrExternal 4)
|}.
#[local] Existing Instance live_crypto.

#[local] Instance live_crypto_laws : CryptoLaws.
Proof.
  constructor; cbn [ecdsa_Sign SigToPub public tbls_Recover bls_Verify live_crypto].
  - intros d k sig. destruct (length d =? 32)%nat; [|done]. intros Hs.
    assert (sig = be_fixed 33 k ++ d) as -> by congruence. rewrite drop_app_length', take_app_length' by (symmetry; apply length_be_fixed). by rewrite decide_True.
  - intros d k sig. destruct (Nat.eqb_spec (length d) 32) as [Hd|]; [|done]. intros Hs.
    assert (sig = be_fixed 33 k ++ d) as -> by congruence. by rewrite length_app, length_be_fixed, Hd.
  - intros p d shares t n sig. destruct (_ && _); [|done]. intros Hs.
    assert (sig = x01 :: keccak256 d) as -> by congruence. by rewrite decide_True.
Qed.

Lemma fold_bounded data acc : 0 <= acc < 1000003 ->
  0 <= fold_left (fun acc b => (acc * 31 + Z_of_byte b + 1) mod 1000003) data acc < 1000003.
Proof. revert acc. induction data as [|x data IH]; intros acc Ha; [done|]. cbn [fold_left]. apply IH. by apply Z.mod_pos_bound. Qed.

Lemma live_keccak_nonzero d : Keccak256Hash d <> EmptyHash.
Proof.
  unfold Keccak256Hash, BytesToHash, EmptyHash. cbn [keccak256 live_keccak]. rewrite length_be_fixed, Nat.sub_diag, drop_0.
  pose proof (fold_bounded d 7 ltac:(lia)). rewrite be_value_fixed_small; lia.
Qed.

#[local] Instance live_libraries : LiveCrypto.
Proof.
  refine {| share_of := fun _ _ => True |}; cbn [ecdsa_Sign tbls_Sign tbls_Recover live_crypto].
  - apply live_keccak_nonzero.
  - intros d k ->. by eexists.
  - intros i d. eexists. split; [done|]. unfold zlen. by rewrite length_app, length_be_fixed, keccak256_length.
  - intros pub d t n js ss _ _ Ht Hs. assert (forallb (fun s => bool_decide (drop 8 s = keccak256 d)) ss = true) as ->.
    { apply forallb_forall. intros s Hin%list_elem_of_In. apply bool_decide_eq_true.
      apply list_elem_of_lookup in Hin as [i Hi]. destruct (Forall2_lookup_r _ _ _ _ _ Hs Hi) as (j & _ & Ej).
      assert (s = be_fixed 8 j ++ keccak256 d) as -> by congruence. by rewrite drop_app_length' by (symmetry; apply length_be_fixed). }
    unfold zlen in Ht. rewrite (Forall2_length _ _ _ Hs) in Ht.
    destruct (Z.leb_spec t (zlen ss)) as [_|Hlt]; [|unfold zlen in Hlt; lia]. eexists. split; [done|].
    unfold zlen. cbn [length]. by rewrite keccak256_length.
Defined.

(** ** Validators and chain *)

Definition live_keys : list Z := [42; 43; 44; 45].
Definition live_address (k : Z) : Address := PubkeyToAddress (public (k : PrivateKey)).
Definition live_set : defaultSet := CalcProposer EmptyAddress 0 (newDefaultSet (live_address <$> live_keys) RoundRobin).
Definition live_leader : Address := match GetProposer live_set with Some v => val_Address v | None => 0 end.

(** The key of an address. *)
Definition live_key (a : Address) : Z := default 0 (find (fun k => live_address k =? a) live_keys).
Definition live_signers (a : Address) : HotstuffSigner :=
  NewSigner (live_key a : PrivateKey) (0 : PubPoly) (live_key a : PriShare) 3 4.

Definition live_header (number parent : Z) : Header :=
  mkHeader parent 0 (live_address 42) 0 0 0 0 (Some 1) (Some number) 8000000 0 1000 [] HotstuffDigest 0.
Definition live_genesis : Block := mkBlock (live_header 0 0) [] [].
Definition live_block : Block := mkBlock (live_header 1 (Block_Hash live_genesis)) [] [].

Definition live_env : Env :=
  mkEnv (Some live_genesis, live_leader) (fun _ => Ret tt) (fun b => Ret (mkExecuted (Some b) 1)) (fun b _ => Ret b)
    (fun _ => Ret tt) (fun _ _ => Ret tt) 2000 0 sorted_order.

(** The certificate replicas start with. *)
Definition start_qc : QuorumCert := mkQC (Some (mkView 0 0)) MsgTypePrepareVote 0x12345 EmptyAddress [].
Definition first_view : View := mkView 0 1.

(** ** The replicas *)

(** Three of the four validators take part. *)
Definition live_members : list Address := live_address <$> take 3 live_keys.

Definition live_round : roundState := newRoundState live_set live_genesis first_view.

Definition live_core (a : Address) : Core :=
  mkCore None 5000
    (Some (if decide (a = live_leader) then set_rs_state StateHighQC (set_rs_highQC (Some start_qc) live_round) else live_round))
    (live_signers a) live_set ∅ Prque_New true None [].

Lemma live_members_all (P : Address -> Prop) : Forall P live_members -> forall a, a ∈ live_members -> P a.
Proof. intros Hf. by apply Forall_forall. Qed.

Ltac each_member := apply live_members_all; repeat (apply Forall_cons; split); [vm_compute; reflexivity..|exact (Forall_nil_2 _)].

Lemma live_package : package_ok 0x12345 live_block start_qc.
Proof.
  constructor; [reflexivity|by eexists| |].
  - apply (decode_val_ok c_PackagedQC (match encode_val c_PackagedQC (package 0x12345 live_block start_qc) with Ret d => d | _ => [] end)).
    vm_compute. reflexivity.
  - eexists. split; [vm_compute; reflexivity|]. vm_compute. discriminate.
Qed.

Lemma live_block_codec : c_ok c_Block live_block.
Proof.
  apply (decode_val_ok c_Block (match encode_val c_Block live_block with Ret d => d | _ => [] end)). vm_compute. reflexivity.
Qed.

Lemma live_env_live : env_live live_leader first_view 0 0x12345 live_block live_env.
Proof.
  constructor.
  - constructor; try (intros; apply safe_Ret).
    + apply sorted_order_ok.
    + intros b a Hb. assert (Some live_genesis = Some b) as Eb by exact (f_equal fst Hb). apply (inj Some) in Eb. subst b.
      exists 0. split; [reflexivity|lia].
    + intros b q b' Hb Hs. assert (b = b') as <- by exact (f_equal (fun o => match o with Ret x => x | _ => b end) Hs). exact Hb.
    + intros b x b' Hb Hx Hb'. assert (Some b = Some b') as [= <-]; [|exact Hb].
      rewrite <- Hb'. exact (f_equal (fun o => match o with Ret y => xb_Block y | _ => None end) Hx).
    + intros k v. reflexivity.
  - reflexivity.
  - exists 1. reflexivity.
  - intros qc _. exists live_block. split; [reflexivity|]. split; [reflexivity|exact live_block_codec].
Qed.

Lemma live_setting : setting live_set live_leader first_view live_members 0 live_signers 0x12345 live_block.
Proof.
  constructor.
  - vm_compute. reflexivity.
  - decide_eval.
  - decide_eval.
  - apply live_members_all. decide_eval.
  - decide_eval.
  - decide_eval.
  - each_member.
  - apply live_members_all. repeat (apply Forall_cons; split); [eexists; split; [reflexivity|vm_compute; reflexivity]..|exact (Forall_nil_2 _)].
  - intros a _. split; [reflexivity|exact I].
  - decide_eval.
  - vm_compute. discriminate.
  - decide_eval.
  - decide_eval.
  - decide_eval.
  - exact live_block_codec.
  - reflexivity.
Qed.

Lemma live_at_round a rs : c_current (live_core a) = Some rs -> currentView rs = first_view ->
  at_round live_set first_view live_signers a (live_core a) rs.
Proof.
  intros Hc Hv. constructor; [exact Hc|reflexivity|reflexivity|exact Hv|exact (map_Forall_empty _)|].
  exists []. split; [apply Prque_New_rel|exact (Forall_nil_2 _)].
Qed.

Lemma live_ready : ready live_set live_leader first_view live_members 0 live_signers 0x12345 live_block start_qc (fun _ => live_env) live_core.
Proof.
  constructor.
  - exact live_setting.
  - exact live_package.
  - intros a _. exact live_env_live.
  - apply live_members_all. repeat (apply Forall_cons; split); [split_and!; vm_compute; reflexivity..|exact (Forall_nil_2 _)].
  - exists (set_rs_state StateHighQC (set_rs_highQC (Some start_qc) live_round)). split; [|split_and!; reflexivity].
    constructor; [|reflexivity..]. apply live_at_round; [|reflexivity]. unfold live_core. rewrite decide_True by reflexivity. reflexivity.
  - intros a _ Hne. exists live_round. split; [|reflexivity]. apply live_at_round; [|reflexivity].
    unfold live_core. rewrite decide_False by exact Hne. reflexivity.
Qed.

