(* ===== verification/Node.v ===== *)
(** * A node: backend and engine together

    [Node] composes the backend with the engine the way the program does.  The
    engine calls the backend in the order of its log of effects, so the node
    keeps how many of them have been performed ([nd_done]); events are posted
    by goroutines of their own, so the queue of posted events is taken from in
    any order ([nd_queue]).  An event is handled only when everything the
    previous one caused has been performed.  In between, peers' messages
    arrive, blocks are sealed and imported, and the timer fires: each
    [Action] is one such step, with the [World] of its moment.

    The engine and the backend share the signer; the engine does not use its
    cache of recovered signers, which is kept in the backend's copy.  What the
    engine's calls add to this cache is an action of its own ([AAuthor]). *)
From Stdlib Require Import ZArith Lia Strings.Byte.
From stdpp Require Import base list option strings gmap.
From S2P Require Import Prelude Errors Rlp Codec Common Validator Block Types Signer Cache Prque MessageSet Backlog RoundState Core Outbox Backend Gossip Proposal Protocol Refinement Safety Progress.
Open Scope Z_scope.

Section Node.
Context `{Keccak} `{Crypto} `{Eviction} `{Cache}.

Record Node := mkNode {
  nd_backend : Backend;
  nd_core : Core;
  nd_done : nat;
  nd_queue : list Event
}.

Definition Node_New (config : Config) (key : PrivateKey) (db : option (gmap string bytes)) (valset : defaultSet)
    (pub : PubPoly) (share : PriShare) (t n : Z) : Node :=
  mkNode (NewBackend config key valset pub share t n)
    (Core_New db (cfg_RequestTimeout config) (NewSigner key pub share t n) valset) 0 [].

(** ** Calls *)

Definition posts (os : list Out) : list Event := omap (fun o => match o with OPost ev => Some ev | _ => None end) os.

(** A call of the backend; what it posts joins the queue. *)
Definition call {A} (m : M Backend A) : M Node A := fun nd =>
  let '(o, s) := m (nd_backend nd) in
  (o, mkNode s (nd_core nd) (nd_done nd) (nd_queue nd ++ posts (drop (length (bk_out (nd_backend nd))) (bk_out s)))).

Definition post (ev : Event) : M Node unit :=
  modify (fun nd => mkNode (nd_backend nd) (nd_core nd) (nd_done nd) (nd_queue nd ++ [ev])).

(** An effect of the engine, performed. *)
Definition perform (w : World) (e : Effect) : M Node unit :=
  match e with
  | EBroadcast _ p => nd ← get; call (Broadcast w (c_valSet (nd_core nd)) p)
  | EUnicast t _ p => call (unicast_to w t p)
  | ECommit _ _ x => call (Commit x)
  | EPostRequest b => post (RequestEvent (Some b))
  | EPostBacklog v m => post (BacklogEvent v m)
  | ESign _ _ | ESleepUntil _ => mret tt
  end.

(** [Start] and [Stop]: the subscription begins with [Start] and ends with
    [Stop].  [core.Start] returns no error. *)
Definition Node_Start (w : World) (currentBlock hasBadBlock : bool) : M Node unit := fun nd =>
  let s := nd_backend nd in
  if bk_coreStarted s then (Err ErrStartedEngine, nd)
  else
    let s1 := attach true currentBlock hasBadBlock (set_bk_commitCh [] (set_bk_proposedBlockHash EmptyHash s)) in
    match Core_Start (backend_env w s1) (nd_core nd) with
    | (Panic, c) => (Panic, mkNode s1 c (nd_done nd) [])
    | (_, c) => (Ret tt, mkNode (set_bk_coreStarted true s1) c (nd_done nd) [])
    end.

Definition Node_Stop : M Node unit := fun nd =>
  let s := nd_backend nd in
  if negb (bk_coreStarted s) then (Err ErrStoppedEngine, nd)
  else (Ret tt, mkNode (set_bk_coreStarted false s) (Core_Stop (nd_core nd)).2 (nd_done nd) []).

(** ** Actions *)

Inductive Action :=
| ADeliver (i : nat)
| ATimeout
| APerform
| AHandleMsg (peer : Address) (msg : Msg)
| ANewChainHead (header : Header)
| ASeal (block : Block)
| ADue (task : nat)
| APropose (task : nat)
| AReceive (task : nat)
| AStop (task : nat)
| AImport (header : Header) (seal : bool)
| AAuthor (header : Header)
| ABroadcaster (connected : bool)
| AVote (address : Address) (auth : bool)
| ADiscard (address : Address).

Definition on_backend (f : Backend -> option Backend) (nd : Node) : option (outcome unit * Node) :=
  s ← f (nd_backend nd); Some (call (fun _ => (Ret tt, s)) nd).

Definition void {A} (r : outcome A * Node) : outcome unit * Node :=
  (match r.1 with Ret _ => Ret tt | Err e => Err e | Panic => Panic end, r.2).

(** The result of a step, or [None] if it is not enabled.  That the timer fires
    only once is not needed and not modelled. *)
Definition node_step (w : World) (act : Action) (nd : Node) : option (outcome unit * Node) :=
  match act with
  | ADeliver i =>
      if negb (nd_done nd =? length (c_out (nd_core nd)))%nat then None
      else
        ev ← nd_queue nd !! i;
        let '(o, c) := handleEvent (backend_env w (nd_backend nd)) ev (nd_core nd) in
        Some (o, mkNode (nd_backend nd) c (nd_done nd) (delete i (nd_queue nd)))
  | ATimeout =>
      _ ← c_timer (nd_core nd);
      Some (post TimeoutEvent nd)
  | APerform =>
      e ← c_out (nd_core nd) !! nd_done nd;
      if match e with ECommit _ _ x => commit_blocks x (nd_backend nd) | _ => false end then None
      else
        let '(o, nd') := perform w e nd in
        Some (o, mkNode (nd_backend nd') (nd_core nd') (S (nd_done nd)) (nd_queue nd'))
  | AHandleMsg a m => Some (void (call (HandleMsg (nd_core nd) a m) nd))
  | ANewChainHead h => Some (call (NewChainHead h) nd)
  | ASeal b => c ← the_chain w (nd_backend nd); Some (call (Seal c b) nd)
  | ADue i => on_backend (seal_due i) nd
  | APropose i => on_backend (seal_propose i) nd
  | AReceive i => on_backend (seal_receive i) nd
  | AStop i => on_backend (seal_stop i) nd
  | AImport h seal => c ← the_chain w (nd_backend nd); Some (call (bk_VerifyHeader (Some c) (w_now w) h seal) nd)
  | AAuthor h => Some (void (call (Author h) nd))
  | ABroadcaster b => Some (call (SetBroadcaster b) nd)
  | AVote a auth => Some (call (Propose a auth) nd)
  | ADiscard a => Some (call (Discard a) nd)
  end.

(** ** What the world promises *)

Record world_ok (w : World) : Prop := {
  wo_order : order_ok (w_order w);
  wo_head n : Block_Number (chain_currentBlock (w_chain w)) = Ret n -> 0 <= n < 2 ^ 64 - 1
}.

Lemma LastProposal_head w s b a : (LastProposal w s).1 = Ret (Some b, a) -> b = chain_currentBlock (w_chain w).
Proof.
  unfold LastProposal, get, embed, mbind, M_bind, mret, M_ret. destruct (negb _); [done|].
  destruct (Block_Number _) as [n|e|]; [|done|done]. destruct (0 <? n); [|by intros [= <- _]].
  destruct (try_author _ s) as [[[p|]|e|] s1]; cbn; [by intros [= <- _]|done..].
Qed.

Lemma backend_env_ok w s : world_ok w -> env_ok (backend_env w s).
Proof.
  intros Hw. constructor; [apply Hw|]. intros b addr n Hl Hn. cbn in Hl.
  destruct (LastProposal w s).1 as [[o a]|e|] eqn:El; [|done|done]. injection Hl as -> ->.
  apply LastProposal_head in El as ->. by apply (wo_head _ Hw).
Qed.

(** ** Steps of the backend *)

Section Steps.
Context `{!CacheLaws}.

Definition task_ok (t : SealTask) : Prop := has_number (st_block t).

(** The backend moves on, logging only what satisfies [Q]. *)
Record bsteps (Q : Out -> Prop) (s s' : Backend) : Prop := {
  bs_address : bk_Address s' = bk_Address s;
  bs_chain : bk_chain s' = bk_chain s;
  bs_current : bk_currentBlock s' = bk_currentBlock s;
  bs_peers : peers_ok s -> peers_ok s';
  bs_seals : Forall task_ok (bk_seals s) -> Forall task_ok (bk_seals s');
  bs_out : exists os, bk_out s' = bk_out s ++ os /\ Forall Q os
}.

#[global] Instance bsteps_preorder Q : PreOrder (bsteps Q).
Proof.
  split.
  - intros s. constructor; try done. exists []. by rewrite app_nil_r.
  - intros s1 s2 s3 [] []. constructor; try congruence; auto.
    destruct bs_out0 as (os & E & Ho), bs_out1 as (os' & E' & Ho'). exists (os ++ os'). rewrite E', E, app_assoc. by rewrite Forall_app.
Qed.

(** A step that touches nothing the record speaks of. *)
Lemma bsteps_same Q s s' : bk_Address s' = bk_Address s -> bk_chain s' = bk_chain s -> bk_currentBlock s' = bk_currentBlock s ->
  bk_recentMessages s' = bk_recentMessages s -> bk_caches s' = bk_caches s -> bk_seals s' = bk_seals s -> bk_out s' = bk_out s ->
  bsteps Q s s'.
Proof.
  intros Ha Hc Hb Hr Hp Hs Ho. constructor; try done; [|by rewrite Hs|exists []; by rewrite Ho, app_nil_r].
  apply peers_ok_ext; [by unfold recent; rewrite Hr|done].
Qed.

Lemma bsteps_emit (Q : Out -> Prop) o : Q o -> respects (bsteps Q) (Backend.emit o).
Proof.
  intros Ho s. constructor; try done; [by apply peers_ok_ext|]. exists [o]. split; [done|by constructor].
Qed.

Lemma bsteps_embed Q {A} (o : outcome A) : respects (bsteps Q) (embed o).
Proof. intros s. reflexivity. Qed.

(** The signer's calls change its cache only. *)
Lemma RecoverSigner_address h v : sg_address (RecoverSigner h v).2 = sg_address v.
Proof. unfold RecoverSigner. by repeat case_match. Qed.

Lemma VerifyHeader_address h vs seal v : sg_address (VerifyHeader h vs seal v).2 = sg_address v.
Proof.
  unfold VerifyHeader, mbind, M_bind, asks. destruct (deref _) as [n|e|]; [|done|done]. destruct (_ =? 0); [done|].
  pose proof (RecoverSigner_address h v) as Hr. destruct (RecoverSigner h v) as [[a|e|] v']; [|done|done].
  destruct (negb _); [done|]. destruct (GetByAddress a vs).2; [|done]. by destruct seal.
Qed.

Lemma bsteps_with_signer Q {A} (m : M HotstuffSigner A) : (forall v, sg_address (m v).2 = sg_address v) -> respects (bsteps Q) (with_signer m).
Proof.
  intros Hm s. specialize (Hm (bk_signer s)). unfold with_signer. destruct (m (bk_signer s)) as [o v]. by apply bsteps_same.
Qed.

Lemma bsteps_verifyHeader Q chain now h parents seal : respects (bsteps Q) (verifyHeader chain now h parents seal).
Proof.
  unfold verifyHeader. destruct (hdr_Number h) as [n|]; [|apply respects_throw; apply _].
  do 3 (apply respects_bind; [apply _|apply bsteps_embed|intros _]). destruct (_ =? 0); [apply respects_ret; apply _|].
  do 3 (apply respects_bind; [apply _|apply bsteps_embed|intros ?]). apply respects_bind; [apply _|apply respects_get; apply _|intros s].
  apply respects_bind; [apply _|apply bsteps_embed|intros _].
  apply respects_bind; [apply _|apply bsteps_with_signer, RecoverSigner_address|intros _].
  apply bsteps_with_signer. intros v. apply VerifyHeader_address.
Qed.

Lemma caches_only_steps (Q : Out -> Prop) s k s' os : caches_only (set_bk_knownMessages k s) s' -> (peers_ok s -> peers_ok s') ->
  bk_out s' = bk_out s ++ os -> Forall Q os -> bsteps Q s s'.
Proof. intros (r & cs & o & ->) Hp Ho HQ. constructor; try done. by exists os. Qed.

Lemma bsteps_Seal Q chain b : respects (bsteps Q) (Seal chain b).
Proof.
  intros s. destruct (Seal chain b s) as [o s1] eqn:E. cbn. destruct o as [[]|e|].
  - apply Seal_inv in E as (h' & Hs & ->). constructor; try done; [by apply peers_ok_ext| |exists []; by rewrite app_nil_r].
    intros Ht. cbn. apply Forall_app. split; [done|]. constructor; [|done]. unfold task_ok, has_number. cbn.
    assert (hdr_Number h' = hdr_Number (Block_Header b)) as ->; [|by eexists].
    unfold SignerSeal, SetSeal in Hs. apply outcome_bind_Ret in Hs as (seal & _ & Hs). destruct (negb _); [done|].
    apply outcome_bind_Ret in Hs as (e & _ & Hs). by apply outcome_bind_Ret in Hs as (p & _ & [= <-]).
  - assert (s1 = s) as -> by (unfold Seal, embed, get, modify, throw, mbind, M_bind in E; repeat case_match; by simplify_eq). reflexivity.
  - assert (s1 = s) as -> by (unfold Seal, embed, get, modify, throw, mbind, M_bind in E; repeat case_match; by simplify_eq). reflexivity.
Qed.

(** ** Events and their origin *)

Section Invariant.
Context (sg : HotstuffSigner).

(** The engine has sent these bytes. *)
Definition sent_payload (core : Core) (p : bytes) : Prop :=
  exists m, EBroadcast m p ∈ c_out core \/ exists t, EUnicast t m p ∈ c_out core.

Definition event_from (core : Core) (ev : Event) : Prop :=
  match ev with
  | MessageEvent src p => src = sg_address sg -> sent_payload core p
  | BacklogEvent v m => EPostBacklog v m ∈ c_out core
  | _ => True
  end.

Definition out_from (core : Core) (o : Out) : Prop :=
  match o with
  | OPost ev => event_from core ev
  | OFeed x => exists h n, ECommit h n x ∈ c_out core
  | _ => True
  end.

Record node_inv (nd : Node) : Prop := {
  ni_address : bk_Address (nd_backend nd) = sg_address sg;
  ni_peers : peers_ok (nd_backend nd);
  ni_out : Forall (out_from (nd_core nd)) (bk_out (nd_backend nd));
  ni_queue : Forall (event_from (nd_core nd)) (nd_queue nd);
  ni_sent : Forall sent_ok (c_out (nd_core nd));
  ni_reach : reach sg (nd_core nd)
}.

Lemma event_from_mono c c' ev : c_out c ⊆ c_out c' -> event_from c ev -> event_from c' ev.
Proof.
  intros Hs. destruct ev as [b|src p|v m| |h]; cbn; auto. intros Hp E. destruct (Hp E) as (m & [Hm|(t & Hm)]); exists m; eauto.
Qed.

Lemma out_from_mono c c' o : c_out c ⊆ c_out c' -> out_from c o -> out_from c' o.
Proof.
  intros Hs. destruct o; cbn; auto; [by apply event_from_mono|]. intros (h & n & Hx). eauto.
Qed.

Lemma emits_sub P (c c' : Core) : emits P c c' -> c_out c ⊆ c_out c'.
Proof. intros (es & -> & _). set_solver. Qed.

(** A call of the backend keeps the invariant if it logs what it may. *)
Lemma posts_from core os : Forall (out_from core) os -> Forall (event_from core) (posts os).
Proof.
  intros Ho. rewrite Forall_forall in Ho. apply Forall_forall. intros ev (o & Hin & E)%list_elem_of_omap. specialize (Ho o Hin). destruct o; try done.
  by injection E as <-.
Qed.

Lemma call_inv {A} (m : M Backend A) nd : bsteps (out_from (nd_core nd)) (nd_backend nd) (m (nd_backend nd)).2 ->
  node_inv nd -> node_inv (call m nd).2.
Proof.
  intros [Ba Bc Bb Bp Bs (os & Bo & HQ)] [Ia Ip Io Iq It Ir]. unfold call.
  destruct (m (nd_backend nd)) as [o s']. cbn in *. constructor; cbn; auto; [congruence|by rewrite Bo; apply Forall_app|].
  rewrite Bo, drop_app_length. apply Forall_app. split; [done|by apply posts_from].
Qed.

Lemma post_inv ev nd : event_from (nd_core nd) ev -> node_inv nd -> node_inv (post ev nd).2.
Proof. intros Hev [Ia Ip Io Iq It Ir]. constructor; cbn; auto. apply Forall_app. split; [done|by constructor]. Qed.

(** ** Performing effects *)

Lemma own_message_from nd m p o : node_inv nd -> EBroadcast m p ∈ c_out (nd_core nd) \/ (exists t, EUnicast t m p ∈ c_out (nd_core nd)) ->
  own_message (nd_backend nd) p o -> out_from (nd_core nd) o.
Proof. intros Hi Hm [(a & ->)| ->]; [done|]. intros _. by exists m. Qed.

Lemma bsteps_Commit (Q : Out -> Prop) x : Q (OFeed x) -> (forall b, Q (OEnqueue b)) -> respects (bsteps Q) (Commit x).
Proof.
  intros Hf He. unfold Commit. destruct (xb_Block x) as [b|]; [|apply respects_throw; apply _].
  apply respects_bind; [apply _|by apply bsteps_emit|intros _]. apply respects_bind; [apply _|apply bsteps_embed|intros _].
  apply respects_bind; [apply _|apply respects_get; apply _|intros s]. destruct (_ =? _).
  - intros s'. by apply bsteps_same.
  - apply respects_when; [apply _|]. by apply bsteps_emit.
Qed.

Lemma perform_inv w e nd : world_ok w -> node_inv nd -> e ∈ c_out (nd_core nd) -> node_inv (perform w e nd).2.
Proof.
  intros Hw Hi He. pose proof (ni_peers _ Hi) as Hp. pose proof (wo_order _ Hw) as Ho.
  destruct e as [v n|t m p|m p|b|v m|h n x|t]; cbn [perform]; try done.
  - apply call_inv; [|done]. destruct (unicast_to_spec w t p (nd_backend nd) Hp) as (s' & os & k & -> & Hp' & Hco & Hout & HQ).
    eapply caches_only_steps; [done|done|done|]. eapply Forall_impl; [exact HQ|]. intros o. apply (own_message_from nd m); eauto.
  - rewrite (bind_Ret get _ nd nd nd) by done. apply call_inv; [|done].
    destruct (Broadcast_spec w (c_valSet (nd_core nd)) p (nd_backend nd) Hp Ho) as (s' & os & k & -> & Hp' & Hco & Hout & HQ).
    eapply caches_only_steps; [done|done|done|]. eapply Forall_impl; [exact HQ|]. intros o. apply (own_message_from nd m); eauto.
  - by apply post_inv.
  - by apply post_inv.
  - apply call_inv; [|done]. apply bsteps_Commit; [by exists h, n|done].
Qed.

(** ** Handling events *)

(** A payload determines the message. *)
Lemma payload_determines m0 m p : sent_ok (EBroadcast m0 p) -> zlen p < 2 ^ 60 -> decode_val c_Message p = Ret m ->
  m_Code m0 = m_Code m /\ m_View m0 = m_View m.
Proof.
  intros (Hp & Hc & [v Hv] & Ha) Hl Hd. destruct (decode_val_inv c_Message p m) as (Hok & He & _); [lia|done|].
  assert (m0 = m) as ->; [|done]. eapply (encode_val_inj_short c_Message); [done| |done|exact Hp|exact He].
  apply message_ok_codec. split; [done|]. split; [|rewrite Ha; done]. exists v. split; [done|].
  exact (encoded_message_view m0 v p Hp Hv).
Qed.

(** What may happen: peers are other nodes, and what is delivered satisfies
    the assumption of the safety theorem on decide messages. *)
Definition action_ok (nd : Node) (act : Action) : Prop :=
  match act with
  | ADeliver i => forall src p, nd_queue nd !! i = Some (MessageEvent src p) -> zlen p < 2 ^ 60 /\
      forall m, FromPayload src p (Some (checkValidatorSignature (nd_core nd))) = Ret m -> decide_checked m
  | AHandleMsg a _ => a <> sg_address sg
  | _ => True
  end.

Lemma queue_event_ok nd i ev : node_inv nd -> action_ok nd (ADeliver i) -> nd_queue nd !! i = Some ev ->
  event_ok sg (nd_core nd) ev.
Proof.
  intros Hi Ha Hev. assert (event_from (nd_core nd) ev) as Hfrom.
  { pose proof (ni_queue _ Hi) as Hq. rewrite Forall_forall in Hq. apply Hq. by eapply list_elem_of_lookup_2. }
  destruct ev as [b|src p|v m| |h]; try done. intros m Hm. destruct (Ha src p Hev) as [Hl Hd].
  split; [by apply Hd|]. intros Hown. unfold FromPayload in Hm. apply outcome_bind_Ret in Hm as (m' & Hdec & Hm).
  apply outcome_bind_Ret in Hm as ([] & _ & Hm). apply outcome_bind_Ret in Hm as (h & _ & Hm).
  apply outcome_bind_Ret in Hm as ([] & _ & [= <-]). cbn in Hown |- *.
  pose proof (ni_sent _ Hi) as Hsent. rewrite Forall_forall in Hsent.
  destruct (Hfrom Hown) as (m0 & Hm0). exists m0. destruct Hm0 as [Hm0|(t & Hm0)].
  - destruct (payload_determines m0 m' p (Hsent _ Hm0) Hl Hdec). split_and!; [done|done|]. left. by exists p.
  - destruct (payload_determines m0 m' p (Hsent _ Hm0) Hl Hdec). split_and!; [done|done|]. right. by exists t, p.
Qed.

Lemma deliver_inv w i ev nd : world_ok w -> node_inv nd -> action_ok nd (ADeliver i) -> nd_queue nd !! i = Some ev ->
  node_inv (mkNode (nd_backend nd) (handleEvent (backend_env w (nd_backend nd)) ev (nd_core nd)).2 (nd_done nd) (delete i (nd_queue nd))).
Proof.
  intros Hw Hi Ha Hev. pose proof (queue_event_ok nd i ev Hi Ha Hev) as Hok. destruct Hi as [Ia Ip Io Iq It Ir].
  pose proof (sent_handleEvent (backend_env w (nd_backend nd)) ev (nd_core nd)) as Hem. pose proof (emits_sub _ _ _ Hem) as Hsub.
  constructor; cbn; [done|done| | |by eapply emits_Forall|].
  - eapply Forall_impl; [exact Io|]. intros o. by apply out_from_mono.
  - apply Forall_delete. eapply Forall_impl; [exact Iq|]. intros e. by apply event_from_mono.
  - constructor; [done|by apply backend_env_ok|done].
Qed.

Lemma HandleMsg_steps core a msg s Q : peers_ok s -> (forall p, Q (OPost (MessageEvent a p))) ->
  bsteps Q s (HandleMsg core a msg s).2.
Proof.
  intros Hp HQ. destruct (Z.eqb_spec (msg_Code msg) hotstuffMsg) as [Hc|Hc].
  - destruct (bk_coreStarted s) eqn:Hst.
    + destruct (bk_decode msg) as [[data hash]|e|] eqn:Hd.
      * destruct (HandleMsg_spec core a msg data hash s Hp Hc Hst Hd) as (s' & -> & Hp' & _ & _ & (k & Hco) & Ho).
        eapply caches_only_steps; [exact Hco|done|exact Ho|]. destruct (decide _); [done|]. by constructor.
      * unfold HandleMsg, get, mbind, M_bind. rewrite Hc, Hst, Hd. reflexivity.
      * unfold HandleMsg, get, mbind, M_bind. rewrite Hc, Hst, Hd. reflexivity.
    + unfold HandleMsg, get, mbind, M_bind. rewrite Hc, Hst. reflexivity.
  - unfold HandleMsg, get, mbind, M_bind. apply Z.eqb_neq in Hc. rewrite Hc. destruct (_ && _); [|reflexivity].
    unfold embed. destruct (handle_new_block msg core); reflexivity.
Qed.

(** The steps of a sealing goroutine. *)
Lemma Forall_set_phase i ph s : Forall task_ok (bk_seals s) -> Forall task_ok (bk_seals (set_phase i ph s)).
Proof. intros Ht. cbn. by apply Forall_alter. Qed.

Lemma set_phase_steps Q i ph s s' : bk_Address s' = bk_Address s -> bk_chain s' = bk_chain s -> bk_currentBlock s' = bk_currentBlock s ->
  bk_recentMessages s' = bk_recentMessages s -> bk_caches s' = bk_caches s -> bk_seals s' = bk_seals (set_phase i ph s) ->
  (exists os, bk_out s' = bk_out s ++ os /\ Forall Q os) -> bsteps Q s s'.
Proof.
  intros Ha Hc Hb Hr Hp Hs Ho. constructor; try done.
  - apply peers_ok_ext; [by unfold recent; rewrite Hr|done].
  - rewrite Hs. apply Forall_set_phase.
Qed.

Lemma seal_steps (Q : Out -> Prop) i s s' : (forall t, t ∈ bk_seals s -> Q (OPost (RequestEvent (Some (st_block t))))) -> (forall r, Q (OResult i r)) ->
  seal_due i s = Some s' \/ seal_propose i s = Some s' \/ seal_receive i s = Some s' \/ seal_stop i s = Some s' -> bsteps Q s s'.
Proof.
  intros Hb Hr [Hs|[Hs|[Hs|Hs]]]; unfold seal_due, seal_propose, seal_receive, seal_stop in Hs;
    apply bind_Some in Hs as (t & Ht & Hs); destruct (st_phase t) eqn:Eph; try done.
  - injection Hs as <-. apply (set_phase_steps Q i Locking); try done. exists []. by rewrite app_nil_r.
  - destruct (bk_sealMu s); [done|]. injection Hs as <-. apply (set_phase_steps Q i Proposing); try done.
    eexists [_]. split; [done|]. constructor; [|done]. apply Hb. by eapply list_elem_of_lookup_2.
  - destruct (bk_commitCh s) as [|r ch]; [done|]. injection Hs as <-. case_match.
    + apply (set_phase_steps Q i Finished); try done. eexists [_]. split; [done|by constructor].
    + by apply bsteps_same.
  - injection Hs as <-. apply (set_phase_steps Q i Finished); try done. eexists [_]. split; [done|by constructor].
  - injection Hs as <-. apply (set_phase_steps Q i Finished); try done. eexists [_]. split; [done|by constructor].
Qed.

Lemma on_backend_inv f nd o nd' : (forall s', f (nd_backend nd) = Some s' -> bsteps (out_from (nd_core nd)) (nd_backend nd) s') ->
  node_inv nd -> on_backend f nd = Some (o, nd') -> node_inv nd'.
Proof.
  intros Hf Hi Hs. unfold on_backend in Hs. apply bind_Some in Hs as (s & Es & [= _ <-]).
  apply (call_inv (fun _ => (Ret tt, s))); [by apply Hf|done].
Qed.

Lemma step_inv w act nd o nd' : world_ok w -> node_inv nd -> action_ok nd act -> node_step w act nd = Some (o, nd') -> node_inv nd'.
Proof.
  intros Hw Hi Ha Hs.
  assert (forall A (m : M Backend A), bsteps (out_from (nd_core nd)) (nd_backend nd) (m (nd_backend nd)).2 -> node_inv (call m nd).2) as Hcall
    by (intros A m Hm; by apply call_inv).
  assert (forall i s', seal_due i (nd_backend nd) = Some s' \/ seal_propose i (nd_backend nd) = Some s' \/
    seal_receive i (nd_backend nd) = Some s' \/ seal_stop i (nd_backend nd) = Some s' ->
    bsteps (out_from (nd_core nd)) (nd_backend nd) s') as Hseal by (intros i s'; by apply seal_steps).
  destruct act as [i| | |a m|h|b|i|i|i|i|h seal|h|b|a auth|a]; cbn [node_step] in Hs.
  - destruct (negb _); [done|]. apply bind_Some in Hs as (ev & Hev & Hs).
    pose proof (deliver_inv w i ev nd Hw Hi Ha Hev) as Hd. destruct (handleEvent _ ev (nd_core nd)) as [o' c]. by injection Hs as _ <-.
  - apply bind_Some in Hs as (t & _ & [= _ <-]). by apply post_inv.
  - apply bind_Some in Hs as (e & He & Hs). case_match; [done|].
    pose proof (perform_inv w e nd Hw Hi (list_elem_of_lookup_2 _ _ _ He)) as Hp. destruct (perform w e nd) as [o' nd1].
    injection Hs as _ <-. by destruct Hp.
  - injection Hs as _ <-. unfold void. cbn [snd]. apply Hcall, HandleMsg_steps; [apply Hi|]. intros p E. by destruct Ha.
  - injection Hs as Hs. rewrite (surjective_pairing (call _ nd)) in Hs. injection Hs as _ <-. apply Hcall. unfold NewChainHead.
    rewrite (bind_Ret get _ _ (nd_backend nd) (nd_backend nd)) by done. destruct (negb _); [reflexivity|by apply bsteps_emit].
  - apply bind_Some in Hs as (c & _ & Hs). injection Hs as Hs. rewrite (surjective_pairing (call _ nd)) in Hs. injection Hs as _ <-.
    apply Hcall, bsteps_Seal.
  - eapply on_backend_inv; [|done|exact Hs]. intros s' E. eapply Hseal. eauto.
  - eapply on_backend_inv; [|done|exact Hs]. intros s' E. eapply Hseal. eauto.
  - eapply on_backend_inv; [|done|exact Hs]. intros s' E. eapply Hseal. eauto.
  - eapply on_backend_inv; [|done|exact Hs]. intros s' E. eapply Hseal. eauto.
  - apply bind_Some in Hs as (c & _ & Hs). injection Hs as Hs. rewrite (surjective_pairing (call _ nd)) in Hs. injection Hs as _ <-.
    apply Hcall, bsteps_verifyHeader.
  - injection Hs as _ <-. apply Hcall, bsteps_with_signer, RecoverSigner_address.
  - injection Hs as _ <-. by apply (Hcall _ (SetBroadcaster b)), bsteps_same.
  - injection Hs as _ <-. by apply (Hcall _ (Propose a auth)), bsteps_same.
  - injection Hs as _ <-. by apply (Hcall _ (Discard a)), bsteps_same.
Qed.

Lemma start_inv w config key db vs pub share t n cb bad : sg = NewSigner key pub share t n -> world_ok w ->
  (forall d, db = Some d -> d !! viewKey = None) -> node_inv (Node_Start w cb bad (Node_New config key db vs pub share t n)).2.
Proof.
  intros Hsg Hw Hdb. unfold Node_Start, Node_New. cbn [nd_backend nd_core bk_coreStarted NewBackend nd_done nd_queue].
  set (s1 := attach true cb bad _). pose proof (reach_start (NewSigner key pub share t n) (backend_env w s1) db (cfg_RequestTimeout config) vs
    (backend_env_ok w s1 Hw) Hdb) as Hr.
  pose proof (sent_Core_Start (backend_env w s1) (Core_New db (cfg_RequestTimeout config) (NewSigner key pub share t n) vs)) as He.
  assert (peers_ok s1) as Hp by (apply (peers_ok_ext (NewBackend config key vs pub share t n)); [done|done|apply NewBackend_peers_ok]).
  destruct (Core_Start _ _) as [[u|e|] c]; cbn in Hr, He; (constructor; cbn; [by rewrite Hsg|by apply (peers_ok_ext s1)|done|done| |by rewrite Hsg]);
    by eapply emits_Forall.
Qed.

(** ** Runs *)

(** The states a node reaches: it is started once, on a database that holds no
    view, and then takes steps. *)
Inductive node_reach : Node -> Prop :=
| node_reach_start w config key db vs pub share t n cb bad : sg = NewSigner key pub share t n -> world_ok w ->
    (forall d, db = Some d -> d !! viewKey = None) -> node_reach (Node_Start w cb bad (Node_New config key db vs pub share t n)).2
| node_reach_step w act nd o nd' : node_reach nd -> world_ok w -> action_ok nd act -> node_step w act nd = Some (o, nd') -> node_reach nd'.

Lemma node_reach_inv nd : node_reach nd -> node_inv nd.
Proof.
  induction 1 as [w config key db vs pub share t n cb bad Hsg Hw Hdb|w act nd o nd' _ IH Hw Ha Hs]; [by apply start_inv|].
  by eapply step_inv.
Qed.


End Invariant.

(** ** Agreement of nodes *)


End Steps.
End Node.
