(* ===== verification/NodeProgress.v ===== *)
(** * Nodes do not panic

    The backend is what the engine's no-panic theorem asks of its surroundings
    ([backend_env_total] discharges [env_total]), so a whole node handles
    every event and every call of its peers, its miner and its chain to the
    end. *)
From Stdlib Require Import ZArith Lia Strings.Byte.
From stdpp Require Import base list option strings gmap.
From S2P Require Import Prelude Errors Rlp Codec Common Validator Block Types Signer Cache Prque MessageSet Backlog RoundState Core Outbox Backend Gossip Proposal Protocol Refinement Safety Progress Node.
Open Scope Z_scope.

Section NodeProgress.
Context `{Keccak} `{Crypto} `{Eviction} `{CacheLaws}.
Context (Hlib : crypto_total).

(** ** What the world promises *)

Record world_total (w : World) : Prop := {
  wt_ok : world_ok w;
  wt_head : exists n, hdr_Number (b_header (chain_currentBlock (w_chain w))) = Some n /\ 0 <= n;
  wt_parent hash n p : GetHeader (w_chain w) hash n = Some p -> is_Some (hdr_Number p);
  wt_execute b : safe (chain_ExecuteBlock (w_chain w) b);
  wt_put k v : w_put w k v = Ret tt
}.

(** ** Headers *)

Lemma safe_ExtractHotstuffExtra h : safe (ExtractHotstuffExtra h).
Proof. unfold ExtractHotstuffExtra, ExtractHotstuffExtraPayload. case_match; auto with safe. Qed.

Lemma safe_getSignatureAddress hash sig : safe (getSignatureAddress hash sig).
Proof. unfold getSignatureAddress. case_match; [done|]. apply safe_bind; [apply Hlib|done]. Qed.

Lemma safe_RecoverSigner h v : safe (RecoverSigner h v).1.
Proof.
  unfold RecoverSigner. destruct (_ !! _); [done|]. pose proof (safe_ExtractHotstuffExtra h) as He.
  destruct (ExtractHotstuffExtra h) as [e|e|]; [|done|done]. pose proof (safe_getSignatureAddress (HeaderHash h) (ex_Seal e)) as Hs.
  by destruct (getSignatureAddress _ _).
Qed.

Lemma safe_verify_seal v h : safe (verify_seal v h).
Proof.
  unfold verify_seal. apply safe_bind; [apply safe_on_err, safe_ExtractHotstuffExtra|]. intros e _.
  apply safe_bind; [apply safe_decode_val|]. intros qc Hqc. unfold AuthQC.
  destruct (decoded_qc_view _ _ Hqc) as [w Hw]. rewrite Hw. cbn. case_match; [done|]. apply Hlib.
Qed.

Lemma safe_VerifyHeader h vs seal v : is_Some (hdr_Number h) -> safe (VerifyHeader h vs seal v).1.
Proof.
  intros [n Hn]. unfold VerifyHeader, mbind, M_bind, asks. rewrite Hn. cbn [deref]. destruct (u64 n =? 0); [done|].
  pose proof (safe_RecoverSigner h v) as Hr. destruct (RecoverSigner h v) as [[a|e|] v']; [|done|done].
  destruct (negb _); [done|]. destruct (GetByAddress a vs).2; [|done]. destruct seal; [apply safe_verify_seal|done].
Qed.

Lemma safe_M_bind {S A B} (m : M S A) (k : A -> M S B) s : safe (m s).1 -> (forall a s', m s = (Ret a, s') -> safe (k a s').1) ->
  safe ((m ≫= k) s).1.
Proof. intros Hm Hk. unfold mbind, M_bind. destruct (m s) as [[a|e|] s'] eqn:E; [by apply Hk|done|done]. Qed.

Lemma safe_embed {A} (o : outcome A) s : safe o -> safe (embed o s).1.
Proof. done. Qed.

Lemma safe_verifyHeader c now h parents seal s :
  (forall p, last parents = Some p -> is_Some (hdr_Number p)) -> (forall hash n p, GetHeader c hash n = Some p -> is_Some (hdr_Number p)) ->
  safe (verifyHeader (Some c) now h parents seal s).1.
Proof.
  intros Hpar Hget. unfold verifyHeader. destruct (hdr_Number h) as [n|] eqn:En; [|done].
  do 3 (apply safe_M_bind; [apply safe_fail_if|intros [] ? [= _ <-]]). destruct (_ =? 0); [done|].
  apply safe_M_bind; [unfold embed, find_parent; by destruct (last parents)|]. intros p s' [= Hp <-].
  assert (forall q, p = Some q -> is_Some (hdr_Number q)) as Hq.
  { unfold find_parent in Hp. destruct (last parents) as [q|] eqn:El; cbn in Hp; injection Hp as <-; [intros q' [= <-]|intros q']; eauto. }
  apply safe_M_bind.
  { unfold embed, check_parent. cbn. destruct p as [q|]; [|done]. destruct (Hq q eq_refl) as [m ->]. cbn. by case_match. }
  intros q s' [= _ <-]. apply safe_M_bind; [apply safe_fail_if|intros [] s' [= _ <-]]. apply safe_M_bind; [done|intros s1 s' [= <- <-]].
  apply safe_M_bind; [apply safe_fail_if|intros [] s' [= _ <-]].
  apply safe_M_bind.
  { unfold with_signer. pose proof (safe_RecoverSigner h (bk_signer s)) as Hr. by destruct (RecoverSigner h (bk_signer s)). }
  intros a s' _. unfold with_signer. pose proof (safe_VerifyHeader h (Copy (snap s)) seal (bk_signer s')) as Hv.
  destruct (VerifyHeader _ _ _ _) as [o v]. apply Hv. by rewrite En.
Qed.

(** ** The backend serves the engine *)

Lemma safe_SetEncodedQC q h : safe (SetEncodedQC q h).
Proof. unfold SetEncodedQC. apply safe_bind; [apply safe_ExtractHotstuffExtra|]. intros e _. apply safe_bind; auto with safe. Qed.

Lemma safe_SealBlock b q : safe (SealBlock b q).
Proof.
  unfold SealBlock. apply safe_bind; [auto with safe|]. intros raw _. apply safe_bind; [apply safe_SetEncodedQC|done].
Qed.

Lemma SealBlock_number b q b' : SealBlock b q = Ret b' -> has_number b'.
Proof.
  unfold SealBlock. intros (raw & _ & Hs)%outcome_bind_Ret. apply outcome_bind_Ret in Hs as (h & Hh & [= <-]).
  unfold SetEncodedQC in Hh. apply outcome_bind_Ret in Hh as (e & _ & Hh). apply outcome_bind_Ret in Hh as (p & _ & [= <-]).
  unfold has_number. cbn. by eexists.
Qed.

Lemma safe_Verify w b s : world_total w -> bk_chain s = true -> safe (Verify w b s).1.
Proof.
  intros Hw Hc. unfold Verify. apply safe_M_bind; [done|intros s1 s' [= <- <-]].
  do 3 (apply safe_M_bind; [apply safe_fail_if|intros [] s' [= _ <-]]). unfold the_chain. rewrite Hc.
  apply safe_verifyHeader; [done|apply Hw].
Qed.

Lemma safe_Commit x s : (forall b, xb_Block x = Some b -> has_number b) -> safe (Commit x s).1.
Proof.
  intros Hb. unfold Commit. destruct (xb_Block x) as [b|]; [|done]. destruct (Hb b eq_refl) as [n Hn].
  apply safe_M_bind; [done|intros [] s1 _]. apply safe_M_bind; [unfold embed, Block_Number; by rewrite Hn|intros m s2 _].
  apply safe_M_bind; [done|intros s3 s4 _]. destruct (_ =? _); [done|]. by destruct (bk_broadcaster s3).
Qed.

Lemma backend_env_total w s : world_total w -> bk_chain s = true -> env_total (backend_env w s).
Proof.
  intros Hw Hc. constructor; cbn [backend_env e_order e_LastProposal e_Verify e_ExecuteBlock e_SealBlock e_Commit e_put].
  - apply Hw.
  - intros b a Hl. destruct (LastProposal w s).1 as [[o a']|e|] eqn:El; [|done|done]. injection Hl as -> ->.
    apply LastProposal_head in El as ->. apply Hw.
  - intros b. by apply safe_Verify.
  - intros b. unfold ExecuteBlock, the_chain. rewrite Hc. cbn. apply safe_bind; [apply Hw|done].
  - apply safe_SealBlock.
  - intros b q b' _. apply SealBlock_number.
  - intros b x b' Hb. unfold ExecuteBlock, the_chain. rewrite Hc. cbn.
    intros (st & _ & [= <-])%outcome_bind_Ret. by intros [= <-].
  - intros x. apply safe_Commit.
  - apply Hw.
Qed.

(** ** The invariant *)

Definition post_total (o : Out) : Prop := match o with OPost ev => event_total ev | _ => True end.

Record node_live (nd : Node) : Prop := {
  nl_core : core_ok (nd_core nd);
  nl_chain : bk_chain (nd_backend nd) = true;
  nl_peers : peers_ok (nd_backend nd);
  nl_seals : Forall task_ok (bk_seals (nd_backend nd));
  nl_queue : Forall event_total (nd_queue nd)
}.

Lemma call_live {A} (m : M Backend A) nd : node_live nd -> bsteps post_total (nd_backend nd) (m (nd_backend nd)).2 ->
  node_live (call m nd).2.
Proof.
  intros [Lc Lh Lp Ls Lq] [_ Bc _ Bp Bs (os & Bo & HQ)]. unfold call. destruct (m (nd_backend nd)) as [o s']. cbn in *.
  constructor; cbn; auto; [congruence|]. rewrite Bo, drop_app_length. apply Forall_app. split; [done|].
  apply Forall_forall. intros ev (x & Hin & E)%list_elem_of_omap. rewrite Forall_forall in HQ. specialize (HQ x Hin).
  destruct x; try done. by injection E as <-.
Qed.

Lemma call_safe {A} (m : M Backend A) nd : safe (m (nd_backend nd)).1 -> safe (call m nd).1.
Proof. unfold call. by destruct (m (nd_backend nd)). Qed.

Lemma own_message_total s p o : own_message s p o -> post_total o.
Proof. by intros [(a & ->)| ->]. Qed.

Lemma perform_live w e nd : world_total w -> node_live nd -> e ∈ c_out (nd_core nd) ->
  safe (perform w e nd).1 /\ node_live (perform w e nd).2.
Proof.
  intros Hw Hl He. pose proof (nl_peers _ Hl) as Hp. pose proof (co_out _ (nl_core _ Hl)) as Ht. rewrite Forall_forall in Ht.
  specialize (Ht e He). destruct e as [v n|t m p|m p|b|v m|h n x|t]; cbn [perform].
  - done.
  - destruct (unicast_to_spec w t p (nd_backend nd) Hp) as (s' & os & k & E & Hp' & Hco & Hout & HQ).
    split; [apply call_safe; by rewrite E|]. apply call_live; [done|]. rewrite E.
    eapply caches_only_steps; [done|done|done|]. eapply Forall_impl; [exact HQ|]. apply own_message_total.
  - rewrite (bind_Ret get _ nd nd nd) by done.
    destruct (Broadcast_spec w (c_valSet (nd_core nd)) p (nd_backend nd) Hp) as (s' & os & k & E & Hp' & Hco & Hout & HQ); [apply Hw|].
    split; [apply call_safe; by rewrite E|]. apply call_live; [done|]. rewrite E.
    eapply caches_only_steps; [done|done|done|]. eapply Forall_impl; [exact HQ|]. apply own_message_total.
  - split; [done|]. destruct Hl. constructor; cbn; try done. apply Forall_app. split; [done|]. constructor; [|done]. by intros blk [= <-].
  - split; [done|]. destruct Hl. constructor; cbn; try done. apply Forall_app. split; [done|]. by constructor.
  - split; [by apply call_safe, safe_Commit|]. apply call_live; [done|]. by apply bsteps_Commit.
  - done.
Qed.

(** ** Messages from peers *)

Lemma safe_Msg_Decode {A} (cd : codec A) msg : safe (Msg_Decode cd msg).
Proof.
  unfold Msg_Decode. apply safe_bind; [apply safe_Split|]. intros [[k c] rest] _. apply safe_bind; [|intros; apply codec_safe].
  destruct k; auto with safe. apply safe_bind; [apply safe_decodeList|done].
Qed.

Lemma safe_IsCurrentProposal hash c : core_ok c -> safe (IsCurrentProposal hash c).
Proof.
  intros Hc. destruct (co_current c Hc) as (rs & Hcur & Hr & _). unfold IsCurrentProposal. rewrite Hcur.
  apply safe_bind; [|intros [] _; [done|]; by repeat case_match].
  destruct (rs_node rs) as [n|] eqn:En; [|done]. apply safe_bind; [|done]. apply safe_node_Hash. by apply Hr.
Qed.

Lemma safe_HandleMsg core a msg s : peers_ok s -> core_ok core -> safe (HandleMsg core a msg s).1.
Proof.
  intros Hp Hc. destruct (Z.eqb_spec (msg_Code msg) hotstuffMsg) as [Hm|Hm].
  - destruct (bk_coreStarted s) eqn:Hst; [|unfold HandleMsg, get, mbind, M_bind; by rewrite Hm, Hst].
    assert (safe (bk_decode msg)) as Hsd by (apply safe_bind; [apply safe_on_err, safe_Msg_Decode|done]).
    destruct (bk_decode msg) as [[data hash]|e|] eqn:Hd; [|unfold HandleMsg, get, mbind, M_bind; by rewrite Hm, Hst, Hd|done].
    by destruct (HandleMsg_spec core a msg data hash s Hp Hm Hst Hd) as (s' & -> & _).
  - unfold HandleMsg, get, mbind, M_bind. apply Z.eqb_neq in Hm. rewrite Hm. destruct (_ && _); [|done].
    unfold embed. assert (safe (handle_new_block msg core)) as Hs; [|by destruct (handle_new_block msg core)].
    unfold handle_new_block. destruct (msg_BytesReader msg); [|done]. pose proof (safe_Msg_Decode c_NewBlock msg) as Hd.
    destruct (Msg_Decode c_NewBlock msg) as [[blk rest]|e|]; [|done|done]. case_match; [by apply safe_IsCurrentProposal|done].
Qed.

Lemma safe_Seal c b s : safe (Seal c b s).1.
Proof.
  unfold Seal. apply safe_M_bind; [done|intros n s1 [= _ <-]]. apply safe_M_bind; [done|intros s1 s2 [= <- <-]].
  destruct (GetByAddress _ _).2; [|done]. destruct (GetHeader _ _ _); [|done]. apply safe_M_bind; [|done].
  unfold embed, SignerSeal. cbn. apply safe_bind.
  - apply safe_on_err. unfold Signer_Sign. case_match; [done|]. destruct (sg_privateKey _); [apply Hlib|done].
  - intros seal _. case_match; [done|]. unfold SetSeal. apply safe_bind; [apply safe_ExtractHotstuffExtra|].
    intros e _. apply safe_bind; auto with safe.
Qed.

(** ** Steps *)

Definition action_total (act : Action) : Prop :=
  match act with ANewChainHead h => is_Some (hdr_Number h) | _ => True end.

Lemma call_pair {A} (m : M Backend A) nd o nd' : node_live nd -> safe (m (nd_backend nd)).1 ->
  bsteps post_total (nd_backend nd) (m (nd_backend nd)).2 -> Some (call m nd) = Some (o, nd') -> safe o /\ node_live nd'.
Proof.
  intros Hl Hs Hb E. injection E as E. pose proof (call_safe m nd Hs) as Hs'. pose proof (call_live m nd Hl Hb) as Hl'.
  rewrite E in Hs', Hl'. done.
Qed.

Lemma void_pair {A} (m : M Backend A) nd o nd' : node_live nd -> safe (m (nd_backend nd)).1 ->
  bsteps post_total (nd_backend nd) (m (nd_backend nd)).2 -> Some (void (call m nd)) = Some (o, nd') -> safe o /\ node_live nd'.
Proof.
  intros Hl Hs Hb E. injection E as <- <-. pose proof (call_safe m nd Hs) as Hs'. pose proof (call_live m nd Hl Hb) as Hl'.
  split; [|done]. by destruct (call m nd).1.
Qed.

Lemma seal_pair f nd o nd' : node_live nd -> (forall s', f (nd_backend nd) = Some s' -> bsteps post_total (nd_backend nd) s') ->
  on_backend f nd = Some (o, nd') -> safe o /\ node_live nd'.
Proof.
  intros Hl Hf Hs. unfold on_backend in Hs. apply bind_Some in Hs as (s & Es & E).
  eapply (call_pair (fun _ => (Ret tt, s))); [done|done|by apply Hf|exact E].
Qed.

Lemma step_live w act nd o nd' : world_total w -> node_live nd -> action_total act -> node_step w act nd = Some (o, nd') ->
  safe o /\ node_live nd'.
Proof.
  intros Hw Hl Ha Hs. pose proof (nl_chain _ Hl) as Hch. pose proof (nl_peers _ Hl) as Hp. pose proof (nl_core _ Hl) as Hco.
  assert (forall i s', seal_due i (nd_backend nd) = Some s' \/ seal_propose i (nd_backend nd) = Some s' \/
    seal_receive i (nd_backend nd) = Some s' \/ seal_stop i (nd_backend nd) = Some s' -> bsteps post_total (nd_backend nd) s') as Hseal.
  { intros i s'. apply seal_steps; [|done]. intros t Ht blk [= <-]. pose proof (nl_seals _ Hl) as Hts. rewrite Forall_forall in Hts. by apply Hts. }
  destruct act as [i| | |a m|h|b|i|i|i|i|h seal|h|b|a auth|a]; cbn [node_step] in Hs.
  - destruct (negb _); [done|]. apply bind_Some in Hs as (ev & Hev & Hs).
    assert (event_total ev) as Ht by (pose proof (nl_queue _ Hl) as Hq; rewrite Forall_forall in Hq; by eapply Hq, list_elem_of_lookup_2).
    destruct (handleEvent_total Hlib _ (backend_env_total w (nd_backend nd) Hw Hch) ev (nd_core nd) Hco Ht) as [Hr Hc].
    destruct (handleEvent _ ev (nd_core nd)) as [o' c]. injection Hs as <- <-. cbn in Hr, Hc. subst o'. split; [done|].
    destruct Hl. constructor; cbn; try done. by apply Forall_delete.
  - apply bind_Some in Hs as (t & _ & E). injection E as <- <-. split; [done|]. destruct Hl. constructor; cbn; try done.
    apply Forall_app. split; [done|by constructor].
  - apply bind_Some in Hs as (e & He & Hs). case_match; [done|].
    destruct (perform_live w e nd Hw Hl (list_elem_of_lookup_2 _ _ _ He)) as [Hsf Hlv]. destruct (perform w e nd) as [o' nd1].
    injection Hs as <- <-. split; [done|]. by destruct Hlv.
  - eapply void_pair; [done| | |exact Hs]; [by apply safe_HandleMsg|by apply HandleMsg_steps].
  - eapply call_pair; [done| | |exact Hs]; unfold NewChainHead; rewrite (bind_Ret get _ _ (nd_backend nd) (nd_backend nd)) by done.
    + by destruct (negb _).
    + destruct (negb _); [reflexivity|by apply bsteps_emit].
  - apply bind_Some in Hs as (c & _ & Hs). eapply call_pair; [done| | |exact Hs]; [apply safe_Seal|apply bsteps_Seal].
  - eapply seal_pair; [done| |exact Hs]. intros s' E. eapply Hseal. eauto.
  - eapply seal_pair; [done| |exact Hs]. intros s' E. eapply Hseal. eauto.
  - eapply seal_pair; [done| |exact Hs]. intros s' E. eapply Hseal. eauto.
  - eapply seal_pair; [done| |exact Hs]. intros s' E. eapply Hseal. eauto.
  - apply bind_Some in Hs as (c & Hc & Hs). eapply call_pair; [done| | |exact Hs]; [|apply bsteps_verifyHeader].
    unfold the_chain in Hc. rewrite Hch in Hc. injection Hc as <-. apply safe_verifyHeader; [done|apply Hw].
  - eapply void_pair; [done| | |exact Hs]; [|apply bsteps_with_signer, RecoverSigner_address].
    unfold Author, with_signer. pose proof (safe_RecoverSigner h (bk_signer (nd_backend nd))) as Hr. by destruct (RecoverSigner _ _).
  - eapply (call_pair (SetBroadcaster b)); [done|done| |exact Hs]. by apply bsteps_same.
  - eapply (call_pair (Propose a auth)); [done|done| |exact Hs]. by apply bsteps_same.
  - eapply (call_pair (Discard a)); [done|done| |exact Hs]. by apply bsteps_same.
Qed.

(** ** Runs *)

Section Runs.
Context (w0 : World) (config : Config) (key : PrivateKey) (db : option (gmap string bytes)) (vs : defaultSet).
Context (pub : PubPoly) (share : PriShare) (t n : Z) (bad : bool).

Definition started : outcome unit * Node := Node_Start w0 true bad (Node_New config key db vs pub share t n).

(** The states of a node that was started on a chain whose head has an author. *)
Inductive node_run : Node -> Prop :=
| node_run_start : world_total w0 -> valset_live vs -> (exists b a, (LastProposal w0 (nd_backend started.2)).1 = Ret (Some b, a)) ->
    node_run started.2
| node_run_step w act nd o nd' : node_run nd -> world_total w -> action_total act -> node_step w act nd = Some (o, nd') -> node_run nd'.

Lemma started_live : world_total w0 -> valset_live vs -> (exists b a, (LastProposal w0 (nd_backend started.2)).1 = Ret (Some b, a)) ->
  safe started.1 /\ node_live started.2.
Proof.
  intros Hw Hvs (b & a & Hlast). unfold started, Node_Start, Node_New in *.
  cbn [nd_backend nd_core bk_coreStarted NewBackend nd_done nd_queue] in *. set (s1 := attach true true bad _) in *.
  assert (peers_ok s1) as Hp by (apply (peers_ok_ext (NewBackend config key vs pub share t n)); [done|done|apply NewBackend_peers_ok]).
  assert (forall s, LastProposal w0 (set_bk_coreStarted true s) = ((LastProposal w0 s).1, set_bk_coreStarted true (LastProposal w0 s).2)) as Hsame.
  { intros s. unfold LastProposal, get, embed, try_author, Author, with_signer, mbind, M_bind, mret, M_ret. cbn [bk_currentBlock set_bk_coreStarted bk_signer].
    destruct (negb _); [done|]. destruct (Block_Number _); [|done|done]. destruct (0 <? _); [|done].
    by destruct (RecoverSigner _ _) as [[]]. }
  assert (is_Some (e_LastProposal (backend_env w0 s1)).1) as Hsome.
  { cbn. destruct (Core_Start _ _) as [[u|e|] c] in Hlast; cbn [snd nd_backend] in Hlast; rewrite ?Hsame in Hlast; cbn [fst] in Hlast;
      rewrite Hlast; by eexists. }
  pose proof (start_runs Hlib (backend_env w0 s1) (backend_env_total w0 s1 Hw eq_refl) db (cfg_RequestTimeout config)
    (NewSigner key pub share t n) vs Hvs Hsome) as Hr. unfold runs in Hr.
  destruct (Core_Start (backend_env w0 s1) (Core_New db (cfg_RequestTimeout config) (NewSigner key pub share t n) vs)) as [[u|e|] c]; [| |done];
    (split; [done|]; constructor; cbn; [done|done|by apply (peers_ok_ext s1)|done|done]).
Qed.

(** C8: a whole node does not panic: started on a chain whose head has an
    author, it handles events, performs the engine's calls and serves its
    peers, its miner and its chain, in any order, without a panic, and the
    engine's state stays well-formed. *)
Theorem node_never_panics w act nd o nd' : node_run nd -> world_total w -> action_total act -> node_step w act nd = Some (o, nd') ->
  o <> Panic /\ core_ok (nd_core nd').
Proof.
  intros Hr Hw Ha Hs. assert (node_live nd) as Hl.
  { clear Hs Ha. induction Hr as [Hw0 Hvs Hh|w' act' nd1 o' nd2 _ IH Hw' Ha' Hs']; [by apply started_live|].
    exact (proj2 (step_live w' act' nd1 o' nd2 Hw' IH Ha' Hs')). }
  destruct (step_live w act nd o nd' Hw Hl Ha Hs) as [Ho Hl']. split; [exact Ho|apply Hl'].
Qed.

End Runs.
End NodeProgress.
