(* ===== verification/Sealing.v ===== *)
(** * The sealing goroutines

    [Seal] starts a goroutine per block.  It waits for the block's time, takes
    a mutex, announces the block's hash, posts the block to the engine and
    waits for [Commit] to hand a block back through a channel with room for
    one.  The goroutines and [Commit] interleave in any order: [seal_step] has
    one rule for each of their steps, and every step of a node ([Node]) is such
    a step on its backend ([node_step_seals]).  The
    theorems say that a miner gets at most one result per block and only a
    committed block with the hash it asked for, that no two goroutines are
    past the mutex at once, and that [Commit] is not blocked for good. *)
From Stdlib Require Import ZArith Lia Strings.Byte.
From stdpp Require Import base list option strings gmap.
From S2P Require Import Prelude Errors Rlp Codec Common Validator Block Types Signer Cache MessageSet RoundState Refinement Core Outbox Backend Gossip Proposal Node.
Open Scope Z_scope.

Section Sealing.
Context `{Keccak} `{Crypto} `{Eviction} `{Cache}.

Definition sealing_out (o : Out) : bool := match o with OResult _ _ | OFeed _ => true | _ => false end.

(** Other calls leave the fields of sealing alone. *)
Definition seal_frame (s s' : Backend) : Prop :=
  bk_sealMu s' = bk_sealMu s /\ bk_seals s' = bk_seals s /\ bk_commitCh s' = bk_commitCh s /\
  bk_proposedBlockHash s' = bk_proposedBlockHash s /\
  exists os, bk_out s' = bk_out s ++ os /\ Forall (fun o => sealing_out o = false) os.

Inductive seal_step : Backend -> Backend -> Prop :=
| ss_seal chain b s s' : Seal chain b s = (Ret tt, s') -> seal_step s s'
| ss_due i s s' : seal_due i s = Some s' -> seal_step s s'
| ss_propose i s s' : seal_propose i s = Some s' -> seal_step s s'
| ss_receive i s s' : seal_receive i s = Some s' -> seal_step s s'
| ss_stop i s s' : seal_stop i s = Some s' -> seal_step s s'
| ss_commit x s o s' : commit_blocks x s = false -> Commit x s = (o, s') -> seal_step s s'
| ss_start started cb bad s :
    seal_step s (set_bk_coreStarted started (attach true cb bad (set_bk_commitCh [] (set_bk_proposedBlockHash EmptyHash s))))
| ss_other s s' : seal_frame s s' -> seal_step s s'.

Inductive seal_reach : Backend -> Prop :=
| sr_new config key valset pub share t n : seal_reach (NewBackend config key valset pub share t n)
| sr_step s s' : seal_reach s -> seal_step s s' -> seal_reach s'.

(** ** The invariant *)

Definition phase_of (s : Backend) (i : nat) : option SealPhase := st_phase <$> bk_seals s !! i.

(** The mutex is held by the goroutine that proposes.  Its hash is announced,
    unless [Start] has cleared it since. *)
Inductive holder (s : Backend) : option nat -> Prop :=
| holder_none : bk_sealMu s = false -> bk_proposedBlockHash s = EmptyHash -> (forall i, phase_of s i <> Some Proposing) -> holder s None
| holder_some i t : bk_sealMu s = true -> bk_seals s !! i = Some t -> st_phase t = Proposing ->
    bk_proposedBlockHash s = Block_Hash (st_block t) \/ bk_proposedBlockHash s = EmptyHash -> (forall j, phase_of s j = Some Proposing -> j = i) -> holder s (Some i).

Definition committed (s : Backend) (b : Block) : Prop := exists x, OFeed x ∈ bk_out s /\ xb_Block x = Some b.

Definition result_ok (s : Backend) (o : Out) : Prop :=
  match o with
  | OResult i r => exists t, bk_seals s !! i = Some t /\ st_phase t = Finished /\
      forall b, r = Some b -> Block_Hash b = Block_Hash (st_block t) /\ committed s b
  | _ => True
  end.

Definition result_tasks (s : Backend) : list nat := omap (fun o => match o with OResult i _ => Some i | _ => None end) (bk_out s).

Record seal_inv (s : Backend) : Prop := {
  si_holder : exists h, holder s h;
  si_channel : (length (bk_commitCh s) <= 1)%nat;
  si_committed : Forall (committed s) (bk_commitCh s);
  si_results : Forall (result_ok s) (bk_out s);
  si_once : NoDup (result_tasks s)
}.

Lemma phase_set_phase s i ph j : phase_of (set_phase i ph s) j = if decide (i = j) then (fun _ => ph) <$> phase_of s j else phase_of s j.
Proof.
  unfold phase_of, set_phase. cbn. destruct (decide (i = j)) as [->|Hne].
  - rewrite list_lookup_alter_eq. by destruct (bk_seals s !! j).
  - by rewrite list_lookup_alter_ne.
Qed.

(** The log only grows, and a finished goroutine stays finished. *)
Definition later (s s' : Backend) : Prop :=
  (forall o, o ∈ bk_out s -> o ∈ bk_out s') /\
  (forall i t, bk_seals s !! i = Some t -> st_phase t = Finished -> bk_seals s' !! i = Some t).

Lemma committed_later s s' b : later s s' -> committed s b -> committed s' b.
Proof. intros [Ho _] (x & Hx & Hb). exists x. auto. Qed.

Lemma result_later s s' o : later s s' -> result_ok s o -> result_ok s' o.
Proof.
  intros Hl. destruct o as [| | | |i r]; try done. intros (t & Ht & Hf & Hb). exists t. split_and!; [by apply Hl|done|].
  intros b ->. destruct (Hb b eq_refl). split; [done|by eapply committed_later].
Qed.

(** A step that changes the phase of one goroutine that is not finished. *)
Lemma later_phase s i t ph s' : bk_seals s !! i = Some t -> st_phase t <> Finished -> bk_seals s' = bk_seals (set_phase i ph s) ->
  (exists os, bk_out s' = bk_out s ++ os) -> later s s'.
Proof.
  intros Ht Hne Hs (os & Ho). split; [rewrite Ho; set_solver|]. intros j t' Hj Hf. rewrite Hs. cbn.
  destruct (decide (i = j)) as [->|]; [congruence|by rewrite list_lookup_alter_ne].
Qed.

(** The part of the invariant about results, for a step that adds no result. *)
Lemma results_quiet s s' os : later s s' -> bk_out s' = bk_out s ++ os -> Forall (fun o => match o with OResult _ _ => False | _ => True end) os ->
  Forall (result_ok s) (bk_out s) -> NoDup (result_tasks s) -> Forall (result_ok s') (bk_out s') /\ NoDup (result_tasks s').
Proof.
  intros Hl Ho Hq Hr Hn. assert (omap (fun o => match o with OResult i _ => Some i | _ => None end) os = []) as E.
  { clear -Hq. induction Hq as [|o os Ho _ IH]; [done|]. cbn. by destruct o. }
  split; [|unfold result_tasks; by rewrite Ho, omap_app, E, app_nil_r].
  rewrite Ho. apply Forall_app. split; [eapply Forall_impl; [exact Hr|]; intros o; by apply result_later|].
  eapply Forall_impl; [exact Hq|]. by intros [].
Qed.

(** The same for a step that ends a goroutine that has not ended before. *)
Lemma results_end s s' i t r : later s s' -> bk_out s' = bk_out s ++ [OResult i r] -> bk_seals s !! i = Some t -> st_phase t <> Finished ->
  bk_seals s' = bk_seals (set_phase i Finished s) -> (forall b, r = Some b -> Block_Hash b = Block_Hash (st_block t) /\ committed s b) ->
  Forall (result_ok s) (bk_out s) -> NoDup (result_tasks s) -> Forall (result_ok s') (bk_out s') /\ NoDup (result_tasks s').
Proof.
  intros Hl Ho Ht Hne Hs Hb Hr Hn. split.
  - rewrite Ho. apply Forall_app. split; [eapply Forall_impl; [exact Hr|]; intros o; by apply result_later|]. apply Forall_singleton.
    exists (mkSealTask (st_block t) Finished). rewrite Hs. cbn. rewrite list_lookup_alter_eq, Ht. split_and!; [done|done|].
    intros b E. destruct (Hb b E). split; [done|by eapply committed_later].
  - unfold result_tasks. rewrite Ho, omap_app. cbn. apply NoDup_app. split_and!; [done| |apply NoDup_singleton].
    intros j (o & Hin & Hj)%list_elem_of_omap ->%list_elem_of_singleton. destruct o; try done. injection Hj as ->.
    rewrite Forall_forall in Hr. destruct (Hr _ Hin) as (t' & Ht' & Hf & _). congruence.
Qed.

(** The holder of the mutex stays the same when no goroutine starts or stops
    proposing. *)
Lemma holder_ext s s' h : bk_sealMu s' = bk_sealMu s -> bk_proposedBlockHash s' = bk_proposedBlockHash s \/ bk_proposedBlockHash s' = EmptyHash ->
  (forall i t, bk_seals s !! i = Some t -> st_phase t = Proposing -> bk_seals s' !! i = Some t) ->
  (forall i, phase_of s' i = Some Proposing -> phase_of s i = Some Proposing) -> holder s h -> holder s' h.
Proof.
  intros Hm Hp Hs Hn [Em Eh Eph|i t Em Et Eph Eh Eu].
  - constructor; [congruence| |naive_solver]. by destruct Hp as [->| ->].
  - econstructor; [congruence|by apply Hs|done| |naive_solver]. destruct Hp as [->| ->]; auto.
Qed.

Lemma holder_phase s i t ph h : bk_seals s !! i = Some t -> st_phase t <> Proposing -> ph <> Proposing -> holder s h -> holder (set_phase i ph s) h.
Proof.
  intros Ht Hne Hp. apply holder_ext; [done|by left| |].
  - intros j t' Hj Hph. cbn. rewrite list_lookup_alter_ne; [done|]. intros ->. congruence.
  - intros j. rewrite phase_set_phase. destruct (decide (i = j)) as [->|]; [|done]. unfold phase_of. rewrite Ht. cbn. congruence.
Qed.

Lemma holder_proposing s i t h : bk_seals s !! i = Some t -> st_phase t = Proposing -> holder s h ->
  h = Some i /\ forall j, phase_of s j = Some Proposing -> j = i.
Proof.
  intros Ht Hp [_ _ Hn|k t' _ Ht' Hp' _ Hu].
  - destruct (Hn i). unfold phase_of. rewrite Ht. cbn. by rewrite Hp.
  - assert (i = k) as -> by (apply Hu; unfold phase_of; rewrite Ht; cbn; by rewrite Hp). done.
Qed.

(** The end of a goroutine that proposes frees the mutex. *)
Lemma holder_end s i t h r : bk_seals s !! i = Some t -> st_phase t = Proposing -> holder s h -> holder (seal_end i r s) None.
Proof.
  intros Ht Hp Hh. destruct (holder_proposing _ _ _ _ Ht Hp Hh) as [_ Hu]. constructor; [done|done|]. intros j.
  change (phase_of (seal_end i r s) j) with (phase_of (set_phase i Finished s) j). rewrite phase_set_phase.
  destruct (decide (i = j)) as [->|Hne]; [by destruct (phase_of s j)|]. intros Hj. by apply Hne, symmetry, Hu.
Qed.

(** ** The steps *)

Lemma seal_inv_quiet s s' os h : seal_inv s -> later s s' -> bk_out s' = bk_out s ++ os ->
  Forall (fun o => match o with OResult _ _ => False | _ => True end) os -> holder s' h ->
  (length (bk_commitCh s') <= 1)%nat -> (forall b, b ∈ bk_commitCh s' -> b ∈ bk_commitCh s \/ committed s' b) -> seal_inv s'.
Proof.
  intros Hi Hl Ho Hq Hh Hlen Hc. destruct (results_quiet s s' os Hl Ho Hq (si_results s Hi) (si_once s Hi)) as [Hr Hn].
  constructor; [by exists h|done| |done|done]. apply Forall_forall. intros b [Hb|Hb]%Hc; [|done].
  eapply committed_later; [exact Hl|]. pose proof (si_committed s Hi) as Hf. rewrite Forall_forall in Hf. auto.
Qed.

Lemma seal_inv_end s i t r s0 : seal_inv s -> bk_seals s !! i = Some t -> st_phase t = Proposing ->
  s0 = set_bk_commitCh (bk_commitCh s0) s -> (exists ch, bk_commitCh s = ch ++ bk_commitCh s0) ->
  (forall b, r = Some b -> Block_Hash b = Block_Hash (st_block t) /\ committed s b) -> seal_inv (seal_end i r s0).
Proof.
  intros Hi Ht Hp Hs0 (ch & Hch) Hb. rewrite Hs0. set (c := bk_commitCh s0) in *.
  assert (later s (seal_end i r (set_bk_commitCh c s))) as Hl by (apply (later_phase s i t Finished); [done|congruence|done|by eexists]).
  destruct (results_end s (seal_end i r (set_bk_commitCh c s)) i t r Hl) as [Hr Hn]; try done; [congruence|apply Hi|apply Hi|].
  destruct (si_holder s Hi) as [h Hh]. pose proof (si_channel s Hi) as Hlen. pose proof (si_committed s Hi) as Hf. rewrite Hch in Hlen, Hf.
  rewrite length_app in Hlen. apply Forall_app in Hf as [_ Hf].
  constructor; [exists None; eapply (holder_end (set_bk_commitCh c s) i t h); [done|done|]|cbn; lia| |done|done].
  - eapply (holder_ext s); [done|by left|done|done|done].
  - eapply Forall_impl; [exact Hf|]. intros b. by apply committed_later.
Qed.

Lemma later_refl s s' : bk_seals s' = bk_seals s -> (exists os, bk_out s' = bk_out s ++ os) -> later s s'.
Proof. intros Hs (os & Ho). split; [rewrite Ho; set_solver|by rewrite Hs]. Qed.

Lemma seal_inv_frame s s' : seal_frame s s' -> seal_inv s -> seal_inv s'.
Proof.
  intros (Hm & Hs & Hc & Hh & os & Ho & Hq) Hi. destruct (si_holder s Hi) as [h Hho].
  apply (seal_inv_quiet s s' os h Hi); [by apply later_refl; eauto|done| | |rewrite Hc; apply Hi|rewrite Hc; auto].
  - eapply Forall_impl; [exact Hq|]. by intros [].
  - apply (holder_ext s); [exact Hm|by left|by rewrite Hs|unfold phase_of; by rewrite Hs|done].
Qed.

Lemma seal_inv_Seal chain b s s' : Seal chain b s = (Ret tt, s') -> seal_inv s -> seal_inv s'.
Proof.
  intros (h' & _ & ->)%Seal_inv Hi. destruct (si_holder s Hi) as [h Hh]. set (t := mkSealTask _ _). set (s' := set_bk_seals _ s).
  assert (forall i t', bk_seals s !! i = Some t' -> bk_seals s' !! i = Some t') as Hs by (intros; cbn; by apply lookup_app_l_Some).
  apply (seal_inv_quiet s s' [] h Hi); [split; auto|by rewrite app_nil_r|done| |apply Hi|auto].
  apply (holder_ext s); [done|by left|auto| |done]. intros i. unfold phase_of. cbn.
  destruct (bk_seals s !! i) as [t'|] eqn:E; [by rewrite (lookup_app_l_Some _ _ _ _ E)|].
  rewrite lookup_app_r by by apply lookup_ge_None. destruct (i - length (bk_seals s))%nat; done.
Qed.

Lemma seal_inv_due i s s' : seal_due i s = Some s' -> seal_inv s -> seal_inv s'.
Proof.
  unfold seal_due. destruct (bk_seals s !! i) as [t|] eqn:Ht; [|done]. cbn. destruct (st_phase t) eqn:Hp; try done.
  intros [= <-] Hi. destruct (si_holder s Hi) as [h Hh].
  apply (seal_inv_quiet s _ [] h Hi); [|by rewrite app_nil_r|done| |apply Hi|auto].
  - apply (later_phase s i t Locking); [done|congruence|done|exists []; by rewrite app_nil_r].
  - by apply (holder_phase s i t); [|congruence| |].
Qed.

Lemma seal_inv_propose i s s' : seal_propose i s = Some s' -> seal_inv s -> seal_inv s'.
Proof.
  unfold seal_propose. destruct (bk_seals s !! i) as [t|] eqn:Ht; [|done]. cbn. destruct (st_phase t) eqn:Hp; try done.
  destruct (bk_sealMu s) eqn:Hm; [done|]. intros [= <-] Hi. destruct (si_holder s Hi) as [h Hh].
  eapply (seal_inv_quiet s _ _ (Some i) Hi); [|done|by repeat constructor| |apply Hi|auto].
  - apply (later_phase s i t Proposing); [done|congruence|done|by eexists].
  - econstructor; [done|cbn; rewrite list_lookup_alter_eq, Ht; done|done|by left|]. intros j.
    change (phase_of (set_phase i Proposing s) j = Some Proposing -> j = i). rewrite phase_set_phase.
    destruct (decide (i = j)) as [->|]; [done|]. destruct Hh as [_ _ Hn|? ? Hm' ? ? ? ?]; [intros Hj; by destruct (Hn j)|congruence].
Qed.

Lemma seal_inv_receive i s s' : seal_receive i s = Some s' -> seal_inv s -> seal_inv s'.
Proof.
  unfold seal_receive. destruct (bk_seals s !! i) as [t|] eqn:Ht; [|done]. cbn. destruct (st_phase t) eqn:Hp; try done.
  destruct (bk_commitCh s) as [|b ch] eqn:Hc; [done|]. intros [= <-] Hi. pose proof (si_committed s Hi) as Hf. pose proof (si_channel s Hi) as Hlen.
  rewrite Hc in Hf, Hlen. destruct (Block_Hash (st_block t) =? Block_Hash b) eqn:E.
  - apply (seal_inv_end s i t); [done|done|done|done|exists [b]; exact Hc|]. intros b' [= <-]. split; [lia|by inversion Hf].
  - destruct (si_holder s Hi) as [h Hh]. apply (seal_inv_quiet s _ [] h Hi); [|by rewrite app_nil_r|done| |cbn in *; lia|rewrite Hc; set_solver].
    + apply later_refl; [done|exists []; by rewrite app_nil_r].
    + apply (holder_ext s); [done|by left|done|done|done].
Qed.

Lemma seal_inv_stop i s s' : seal_stop i s = Some s' -> seal_inv s -> seal_inv s'.
Proof.
  unfold seal_stop. destruct (bk_seals s !! i) as [t|] eqn:Ht; [|done]. cbn. destruct (st_phase t) eqn:Hp; try done; intros [= <-] Hi.
  - set (s' := set_bk_out _ _).
    assert (later s s') as Hl by (apply (later_phase s i t Finished); [done|congruence|done|by eexists]).
    destruct (results_end s s' i t None Hl) as [Hr Hn]; try done; [congruence|apply Hi|apply Hi|].
    destruct (si_holder s Hi) as [h Hh]. constructor; [|apply Hi| |done|done].
    + exists h. eapply (holder_ext (set_phase i Finished s)); [done|by left|done|done|by apply (holder_phase s i t); [|congruence| |]].
    + eapply Forall_impl; [apply Hi|]. intros b. by apply committed_later.
  - apply (seal_inv_end s i t); [done|done|done|by destruct s|by exists []|done].
Qed.

Lemma seal_inv_Commit x s o s' : commit_blocks x s = false -> Commit x s = (o, s') -> seal_inv s -> seal_inv s'.
Proof.
  unfold commit_blocks, Commit. destruct (xb_Block x) as [b|] eqn:Hb; [|by intros _ [= _ <-]].
  unfold emit, modify, embed, get, mbind, M_bind. set (s1 := set_bk_out _ s). intros Hfull Hrun Hi.
  assert (committed s1 b) as Hcb by (exists x; split; [cbn; set_solver|done]). destruct (si_holder s Hi) as [h Hh].
  assert (forall s2 os, bk_seals s2 = bk_seals s -> bk_sealMu s2 = bk_sealMu s -> bk_proposedBlockHash s2 = bk_proposedBlockHash s ->
    bk_out s2 = bk_out s1 ++ os -> Forall (fun o => match o with OResult _ _ => False | _ => True end) os ->
    (length (bk_commitCh s2) <= 1)%nat -> (forall b', b' ∈ bk_commitCh s2 -> b' ∈ bk_commitCh s \/ b' = b) -> seal_inv s2) as Hdone.
  { intros s2 os Es Em Ep Eo Hq Hlen Hc. apply (seal_inv_quiet s s2 ([OFeed x] ++ os) h Hi); [|by rewrite app_assoc| | |done|].
    - apply later_refl; [done|]. exists ([OFeed x] ++ os). by rewrite app_assoc.
    - by apply Forall_app; split; [repeat constructor|].
    - apply (holder_ext s); [done|by left|by rewrite Es|unfold phase_of; by rewrite Es|done].
    - intros b' [Hin| ->]%Hc; [by left|right]. exists x. rewrite Eo. cbn. split; [set_solver|done]. }
  pose proof (si_channel s Hi) as Hlen.
  destruct (Block_Number b) as [m|e|]; [|injection Hrun as <- <-; by apply (Hdone s1 []); [..|rewrite app_nil_r| | |auto]
    |injection Hrun as <- <-; by apply (Hdone s1 []); [..|rewrite app_nil_r| | |auto]].
  change (bk_proposedBlockHash s1) with (bk_proposedBlockHash s) in Hrun. destruct (bk_proposedBlockHash s =? Block_Hash b).
  - injection Hrun as <- <-. destruct (bk_commitCh s) eqn:Hch; [|done]. apply (Hdone _ []); cbn; rewrite ?Hch; try done; [by rewrite app_nil_r|set_solver].
  - unfold when in Hrun. destruct (bk_broadcaster s1); injection Hrun as <- <-.
    + by apply (Hdone _ [OEnqueue b]); [..|repeat constructor| |auto].
    + by apply (Hdone s1 []); [..|rewrite app_nil_r| | |auto].
Qed.

Lemma seal_inv_Start started cb bad s : seal_inv s ->
  seal_inv (set_bk_coreStarted started (attach true cb bad (set_bk_commitCh [] (set_bk_proposedBlockHash EmptyHash s)))).
Proof.
  intros Hi. destruct (si_holder s Hi) as [h Hh]. apply (seal_inv_quiet s _ [] h Hi); [|by rewrite app_nil_r|done| |cbn; lia|set_solver].
  - apply later_refl; [done|exists []; by rewrite app_nil_r].
  - apply (holder_ext s); [done|by right|done|done|done].
Qed.

#[local] Hint Resolve seal_inv_Seal seal_inv_due seal_inv_propose seal_inv_receive seal_inv_stop seal_inv_Commit seal_inv_Start seal_inv_frame : core.

Lemma seal_step_inv s s' : seal_step s s' -> seal_inv s -> seal_inv s'.
Proof. destruct 1; eauto. Qed.

Lemma seal_reach_inv s : seal_reach s -> seal_inv s.
Proof.
  induction 1 as [|s s' _ IH Hs]; [|by eapply seal_step_inv]. constructor; cbn; try done; [|lia|constructor].
  exists None. by constructor.
Qed.

(** ** Nodes *)

Section Nodes.
Context `{!CacheLaws}.

#[global] Instance seal_frame_preorder : PreOrder seal_frame.
Proof.
  split.
  - intros s. split_and!; try done. exists []. by rewrite app_nil_r.
  - intros s1 s2 s3 (?&?&?&?&os&E&Ho) (?&?&?&?&os'&E'&Ho'). split_and!; try congruence. exists (os ++ os').
    rewrite E', E, app_assoc. by rewrite Forall_app.
Qed.

Lemma frame_emit o : sealing_out o = false -> respects seal_frame (Backend.emit o).
Proof. intros Ho s. split_and!; try done. exists [o]. split; [done|by constructor]. Qed.

Lemma frame_embed {A} (o : outcome A) : respects seal_frame (embed o).
Proof. intros s. reflexivity. Qed.

Lemma frame_same s s' : bk_sealMu s' = bk_sealMu s -> bk_seals s' = bk_seals s -> bk_commitCh s' = bk_commitCh s ->
  bk_proposedBlockHash s' = bk_proposedBlockHash s -> bk_out s' = bk_out s -> seal_frame s s'.
Proof. intros ???? Ho. split_and!; try done. exists []. by rewrite Ho, app_nil_r. Qed.

Lemma frame_with_signer {A} (m : M HotstuffSigner A) : respects seal_frame (with_signer m).
Proof. intros s. unfold with_signer. destruct (m (bk_signer s)) as [o v]. by apply frame_same. Qed.

Lemma frame_verifyHeader chain now h parents seal : respects seal_frame (verifyHeader chain now h parents seal).
Proof.
  unfold verifyHeader. destruct (hdr_Number h) as [n|]; [|apply respects_throw; apply _].
  do 3 (apply respects_bind; [apply _|apply frame_embed|intros _]). destruct (_ =? 0); [apply respects_ret; apply _|].
  do 3 (apply respects_bind; [apply _|apply frame_embed|intros ?]). apply respects_bind; [apply _|apply respects_get; apply _|intros s].
  apply respects_bind; [apply _|apply frame_embed|intros _].
  apply respects_bind; [apply _|apply frame_with_signer|intros _]. apply frame_with_signer.
Qed.

Lemma frame_caches s k s' os : caches_only (set_bk_knownMessages k s) s' -> bk_out s' = bk_out s ++ os ->
  Forall (fun o => sealing_out o = false) os -> seal_frame s s'.
Proof. intros (r & cs & o & ->) Ho HQ. split_and!; try done. by exists os. Qed.

Lemma frame_own s k s' os payload : caches_only (set_bk_knownMessages k s) s' -> bk_out s' = bk_out s ++ os ->
  Forall (own_message s payload) os -> seal_frame s s'.
Proof.
  intros Hc Ho HQ. eapply frame_caches; [exact Hc|exact Ho|]. eapply Forall_impl; [exact HQ|]. by intros o [(a & ->)| ->].
Qed.

Lemma frame_HandleMsg core a msg s : peers_ok s -> seal_frame s (HandleMsg core a msg s).2.
Proof.
  intros Hp. destruct (Z.eqb_spec (msg_Code msg) hotstuffMsg) as [Hc|Hc].
  - destruct (bk_coreStarted s) eqn:Hst; [|unfold HandleMsg, get, mbind, M_bind; rewrite Hc, Hst; reflexivity].
    destruct (bk_decode msg) as [[data hash]|e|] eqn:Hd; [|unfold HandleMsg, get, mbind, M_bind; rewrite Hc, Hst, Hd; reflexivity..].
    destruct (HandleMsg_spec core a msg data hash s Hp Hc Hst Hd) as (s' & -> & Hp' & _ & _ & (k & Hco) & Ho).
    eapply frame_caches; [exact Hco|exact Ho|]. destruct (decide _); [done|]. by constructor.
  - unfold HandleMsg, get, mbind, M_bind. apply Z.eqb_neq in Hc. rewrite Hc. destruct (_ && _); [|reflexivity].
    unfold embed. destruct (handle_new_block msg core); reflexivity.
Qed.

(** A call of the backend is a step of the goroutines' system if it is one on
    the backend. *)
Lemma call_seals {A} (m : M Backend A) nd : seal_step (nd_backend nd) (m (nd_backend nd)).2 ->
  seal_step (nd_backend nd) (nd_backend (call m nd).2).
Proof. unfold call. by destruct (m (nd_backend nd)). Qed.

Lemma on_backend_seals f nd o nd' : (forall s', f (nd_backend nd) = Some s' -> seal_step (nd_backend nd) s') ->
  on_backend f nd = Some (o, nd') -> seal_step (nd_backend nd) (nd_backend nd').
Proof. intros Hf Hs. unfold on_backend in Hs. apply bind_Some in Hs as (s & Es & [= _ <-]). by apply Hf. Qed.

Lemma Seal_seals chain b s : seal_step s (Seal chain b s).2.
Proof.
  destruct (Seal chain b s) as [[[]|e|] s'] eqn:E; [by eapply ss_seal| |];
    (assert (s' = s) as -> by (unfold Seal, embed, get, modify, throw, mbind, M_bind in E; repeat case_match; by simplify_eq));
    by apply ss_other.
Qed.

Lemma perform_seals w e nd : world_ok w -> peers_ok (nd_backend nd) ->
  match e with ECommit _ _ x => commit_blocks x (nd_backend nd) | _ => false end = false ->
  seal_step (nd_backend nd) (nd_backend (perform w e nd).2).
Proof.
  intros Hw Hp Hb. pose proof (wo_order _ Hw) as Ho. destruct e as [v n|t m p|m p|b|v m|h n x|t]; cbn [perform]; try by apply ss_other.
  - apply call_seals, ss_other. destruct (unicast_to_spec w t p (nd_backend nd) Hp) as (s' & os & k & -> & _ & Hco & Hout & HQ).
    by eapply frame_own.
  - rewrite (bind_Ret get _ nd nd nd) by done. apply call_seals, ss_other.
    destruct (Broadcast_spec w (c_valSet (nd_core nd)) p (nd_backend nd) Hp Ho) as (s' & os & k & -> & _ & Hco & Hout & HQ).
    by eapply frame_own.
  - apply call_seals. destruct (Commit x (nd_backend nd)) as [o s'] eqn:E. by eapply ss_commit.
Qed.

(** Every step of a node is a step of the goroutines' system on its backend. *)
Lemma node_step_seals w act nd o nd' : world_ok w -> peers_ok (nd_backend nd) -> node_step w act nd = Some (o, nd') ->
  seal_step (nd_backend nd) (nd_backend nd').
Proof.
  intros Hw Hp Hs. assert (forall A (m : M Backend A), respects seal_frame m -> seal_step (nd_backend nd) (nd_backend (call m nd).2)) as Hcall
    by (intros A m Hm; apply call_seals, ss_other, Hm).
  destruct act as [i| | |a m|h|b|i|i|i|i|h seal|h|b|a auth|a]; cbn [node_step] in Hs;
    try (eapply on_backend_seals; [|exact Hs]; intros s' E; by econstructor).
  - destruct (negb _); [done|]. apply bind_Some in Hs as (ev & Hev & Hs). destruct (handleEvent _ ev (nd_core nd)) as [o' c].
    injection Hs as _ <-. by apply ss_other.
  - apply bind_Some in Hs as (t & _ & [= _ <-]). by apply ss_other.
  - apply bind_Some in Hs as (e & He & Hs). destruct (match e with ECommit _ _ x => _ | _ => _ end) eqn:Hb; [done|].
    pose proof (perform_seals w e nd Hw Hp Hb) as Hq. destruct (perform w e nd) as [o' nd1]. by injection Hs as _ <-.
  - injection Hs as _ <-. by apply call_seals, ss_other, frame_HandleMsg.
  - injection Hs as Hs. rewrite (surjective_pairing (call _ nd)) in Hs. injection Hs as _ <-. apply Hcall. unfold NewChainHead.
    apply respects_bind; [apply _|apply respects_get; apply _|intros s]. destruct (negb _); [apply respects_throw; apply _|by apply frame_emit].
  - apply bind_Some in Hs as (c & _ & Hs). injection Hs as Hs. rewrite (surjective_pairing (call _ nd)) in Hs. injection Hs as _ <-.
    apply call_seals, Seal_seals.
  - apply bind_Some in Hs as (c & _ & Hs). injection Hs as Hs. rewrite (surjective_pairing (call _ nd)) in Hs. injection Hs as _ <-.
    apply Hcall, frame_verifyHeader.
  - injection Hs as _ <-. apply Hcall, frame_with_signer.
  - injection Hs as _ <-. apply (Hcall _ (SetBroadcaster b)). intros s. by apply frame_same.
  - injection Hs as _ <-. apply (Hcall _ (Propose a auth)). intros s. by apply frame_same.
  - injection Hs as _ <-. apply (Hcall _ (Discard a)). intros s. by apply frame_same.
Qed.

Lemma node_reach_seals sg nd : node_reach sg nd -> seal_reach (nd_backend nd).
Proof.
  induction 1 as [w config key db vs pub share t n cb bad Hsg Hw Hdb|w act nd o nd' Hr IH Hw Ha Hs].
  - unfold Node_Start, Node_New. cbn [nd_backend nd_core bk_coreStarted NewBackend nd_done nd_queue].
    eapply sr_step; [apply (sr_new config key vs pub share t n)|]. destruct (Core_Start _ _) as [[u|e|] c]; apply ss_start.
  - eapply sr_step; [exact IH|]. eapply node_step_seals; [exact Hw|apply (ni_peers sg)|exact Hs]. by apply node_reach_inv.
Qed.

(** ** The theorems *)

(** C13: however the sealing goroutines, [Commit] and the rest of the
    backend interleave, a goroutine sends the miner at most one result; a
    block it sends is one the engine committed and has the hash of the block
    the goroutine was started for; the goroutine has then ended; and no two
    goroutines wait for the engine at the same time. *)
Theorem sealing_results sg nd (s := nd_backend nd) : node_reach sg nd ->
  NoDup (result_tasks s) /\
  (forall i b, OResult i (Some b) ∈ bk_out s -> exists t, bk_seals s !! i = Some t /\ st_phase t = Finished /\
     Block_Hash b = Block_Hash (st_block t) /\ committed s b) /\
  (forall i j, phase_of s i = Some Proposing -> phase_of s j = Some Proposing -> i = j).
Proof.
  intros Hi%node_reach_seals%seal_reach_inv. fold s in Hi. split_and!; [apply Hi| |].
  - intros i b Hin. pose proof (si_results s Hi) as Hr. rewrite Forall_forall in Hr. destruct (Hr _ Hin) as (t & Ht & Hp & Hb).
    destruct (Hb b eq_refl). by exists t.
  - intros i j. destruct (si_holder s Hi) as [h [_ _ Hn|k t _ _ _ _ Hu]]; [by intros ?%Hn|]. intros Ei%Hu Ej%Hu. congruence.
Qed.


End Nodes.

End Sealing.
