(* ===== verification/Scenario.v ===== *)
(** * Concrete validators

    Concrete parameters and states to evaluate the definitions with: a
    cryptography, four validators, a genesis block and a first block, replicas
    in chosen states, and what it takes for the assumptions of the safety
    theorems to hold of a run.  The threshold scheme verifies exactly the votes
    of a run, so that these assumptions can be checked by evaluation. *)
From Stdlib Require Import ZArith Lia Strings.Byte.
From stdpp Require Import base list option strings gmap relations.
From S2P Require Import Prelude Errors Rlp Codec Common Validator Block Types Signer Prque MessageSet Backlog RoundState Core Protocol Refinement Safety Progress Behaviour.
Open Scope Z_scope.

(** ** Parameters *)

(** The public key of the threshold scheme lists the data a quorum signed. *)
Definition net_crypto : Crypto := {|
  PrivateKey := Z;
  PublicKey := Z;
  public k := be_value (be_fixed 33 k);
  FromECDSAPub k := x04 :: be_fixed 33 k;
  ecdsa_Sign d k := if (length d =? 32)%nat then Ret (be_fixed 33 k ++ d) else Err (ErrExternal 1);
  SigToPub d sig := if decide (drop 33 sig = d) then Ret (be_value (take 33 sig)) else Err (ErrExternal 2);
  PriShare := Z;
  PubPoly := list bytes;
  tbls_Sign i d := Ret (byte_of_Z i :: d);
  tbls_Recover pub d shares t n := if bool_decide (d ∈ pub) && (t <=? zlen shares) then Ret [x01] else Err (ErrExternal 3);
  bls_Verify pub d sig := if bool_decide (d ∈ pub) then Ret tt else Err (ErrExternal 4)
|}.

#[local] Existing Instance sample_keccak.
#[local] Existing Instance net_crypto.

(** ** Validators and chain *)

Definition net_keys : list Z := [42; 43; 44; 45].
Definition key_address (k : Z) : Address := PubkeyToAddress (public (k : PrivateKey)).
Definition net_set : defaultSet := newDefaultSet (key_address <$> net_keys) RoundRobin.

Definition net_header (number parent : Z) : Header :=
  mkHeader parent 0 (key_address 42) 0 0 0 0 (Some 1) (Some number) 8000000 0 1000 [] HotstuffDigest 0.

Definition genesis : Block := mkBlock (net_header 0 0) [] [].
Definition first_block : Block := mkBlock (net_header 1 (Block_Hash genesis)) [] [].

Definition net_vote (code : MsgType) : bytes :=
  match encode_val c_Vote (mkVote code (Some (mkView 0 1)) (node_hash 0x12345 first_block) []) with Ret d => d | _ => [] end.

Definition net_pub : list bytes := net_vote <$> [MsgTypePrepareVote; MsgTypePreCommitVote; MsgTypeCommitVote].

Definition net_signer (k : Z) : HotstuffSigner := NewSigner (k : PrivateKey) (net_pub : PubPoly) (k : PriShare) 3 4.

Definition net_env : Env :=
  mkEnv (Some genesis, key_address 42) (fun _ => Ret tt) (fun b => Ret (mkExecuted (Some b) 1)) (fun b _ => Ret b)
    (fun _ => Ret tt) (fun _ _ => Ret tt) 2000 0 sorted_order.

(** ** Events that may be delivered *)

Definition decide_checkedb (m : Message) : bool :=
  if m_Code m =? MsgTypeDecide then
    match Message_Decode c_Diploma m with
    | Ret d => match dip_CommitQC d with Some qc => negb (qc_HeightU64 qc =? 0) | None => true end
    | _ => true
    end
  else true.

Definition start_replica (k : Z) : Core := (Core_Start net_env (Core_New None 5000 (net_signer k) net_set)).2.

Lemma net_env_ok : env_ok net_env.
Proof.
  constructor; [apply sorted_order_ok|]. intros b addr n Hl Hn.
  assert (Some genesis = Some b) as Hb by exact (f_equal fst Hl). apply (inj Some) in Hb. subst b.
  assert (Ret 0 = Ret n) as [= <-] by exact Hn. lia.
Qed.

(** ** What a run did *)

Definition signedb (d : bytes) (e : Effect) : bool :=
  match e with
  | ESign x _ => match encode_val c_Vote x with Ret d' => bool_decide (d' = d) | _ => false end
  | _ => false
  end.

Definition node_okb (node : Hash * Hash) (e : Effect) : bool :=
  match node_key (effect_node e) with None => true | Some k => bool_decide (k = node) end.

Definition committedb (e : Effect) : bool :=
  match e with ECommit h _ x => (h =? 1) && match xb_Block x with Some _ => true | None => false end | _ => false end.

(** Every replica signed the three votes, for one node, committed, and is
    still locked on the block. *)
Definition lockedb (c : Core) : bool :=
  match c_current c with
  | Some rs => match LockedBlock rs with Some _ => true | None => false end
  | None => false
  end.
Definition replica_okb (votes : list bytes) (node : Hash * Hash) (c : Core) : bool :=
  forallb (fun d => existsb (signedb d) (c_out c)) votes && forallb (node_okb node) (c_out c) &&
  existsb committedb (c_out c) && lockedb c.

(** The position and the key of an address. *)
Definition net_index (addr : Address) : option (nat * Z) := list_find (fun k => key_address k = addr) net_keys.

Lemma net_index_key addr i k : net_index addr = Some (i, k) -> net_keys !! i = Some k.
Proof.
  unfold net_index. generalize net_keys, (fun k => decide (key_address k = addr)). intros ks d. by intros (? & _)%list_find_Some.
Qed.

Lemma net_validators v : v ∈ vs_validators net_set -> exists i k, net_index (val_Address v) = Some (i, k).
Proof.
  assert (Forall (fun v => is_Some (net_index (val_Address v))) (vs_validators net_set)) as Hf by decide_eval.
  intros Hv. rewrite Forall_forall in Hf. destruct (Hf v Hv) as ([i k] & Hi). eauto.
Qed.

(** What [replica_okb] says of a replica, as propositions. *)
Record replica_facts (votes : list bytes) (node : Hash * Hash) (c : Core) : Prop := {
  rfa_signed data : data ∈ votes -> exists x n, ESign x n ∈ c_out c /\ encode_val c_Vote x = Ret data;
  rfa_node e k : e ∈ c_out c -> node_key (effect_node e) = Some k -> k = node;
  rfa_commit : exists n x b, ECommit 1 n x ∈ c_out c /\ xb_Block x = Some b;
  rfa_locked : exists rs b, c_current c = Some rs /\ LockedBlock rs = Some b
}.

Lemma replica_okb_facts votes node c : replica_okb votes node c = true -> replica_facts votes node c.
Proof.
  unfold replica_okb. rewrite !andb_true_iff, !forallb_forall. intros [[[Hs Hn] Hc] Hl]. constructor.
  - intros data Hd%list_elem_of_In. apply Hs, existsb_exists in Hd as (e & He%list_elem_of_In & Hb).
    destruct e as [x n| | | | | |]; try discriminate Hb. exists x, n. split; [exact He|]. cbn [signedb] in Hb.
    destruct (encode_val c_Vote x) as [d| |]; try discriminate Hb. apply bool_decide_eq_true in Hb. by subst.
  - intros e k He%list_elem_of_In Hk. apply Hn in He. unfold node_okb in He. rewrite Hk in He.
    by apply bool_decide_eq_true in He.
  - apply existsb_exists in Hc as (e & He%list_elem_of_In & Hb). destruct e as [| | | | |h n x|]; try discriminate Hb.
    apply andb_true_iff in Hb as [Hh%Z.eqb_eq Hx]. subst h. destruct (xb_Block x) as [b|] eqn:Ex; [|discriminate Hx]. eauto.
  - unfold lockedb in Hl. destruct (c_current c) as [rs|]; [|discriminate Hl].
    destruct (LockedBlock rs) as [b|] eqn:Eb; [|discriminate Hl]. eauto.
Qed.

(** ** The assumptions of the safety theorems *)

(** The second validator of the set is taken to be faulty. *)
Definition net_faulty : list Validator := take 1 (drop 1 (vs_validators net_set)).
Definition validator_at (i : nat) : Validator := nth i (vs_validators net_set) (New 0).

Lemma net_honest : honest net_set net_faulty (validator_at 0) /\ honest net_set net_faulty (validator_at 2).
Proof. unfold honest. decide_eval. Qed.

Lemma net_sizes : 0 < Size net_set /\ Z.of_nat (length net_faulty) <= F net_set /\
  Q net_set <= Z.of_nat (length (vs_validators net_set)) /\ NoDup (vs_validators net_set).
Proof. decide_eval. Qed.

(** The votes of the run are the only data the group key verifies, and all
    were signed for one node. *)
Lemma votes_unforgeable votes node keys state : (forall v, v ∈ vs_validators net_set -> replica_facts votes node (state (val_Address v))) ->
  (forall addr, sg_blsPubPoly (keys addr) = votes) -> unforgeable net_set net_faulty keys state.
Proof.
  intros Hfacts Hpub v data sig _ Hver. unfold BLSVerifyAggSig in Hver. rewrite Hpub in Hver. cbn [bls_Verify net_crypto] in Hver.
  destruct (bool_decide_reflect (data ∈ votes)) as [Hd|]; [|discriminate Hver].
  destruct net_sizes as (_ & _ & HQ & HN). exists (vs_validators net_set).
  split; [exact HN|]. split; [done|]. split; [exact HQ|]. intros u Hu _. exact (rfa_signed _ _ _ (Hfacts u Hu) data Hd).
Qed.

Lemma votes_collision_free votes node state : (forall v, v ∈ vs_validators net_set -> replica_facts votes node (state (val_Address v))) ->
  collision_free net_set net_faulty state.
Proof.
  intros Hfacts u v e e' n b b' [Hu _] [Hv _] He He' Hk Hk'.
  apply (rfa_node _ _ _ (Hfacts u Hu) _ _ He) in Hk. apply (rfa_node _ _ _ (Hfacts v Hv) _ _ He') in Hk'.
  congruence.
Qed.

(** ** No panic *)

Definition net_crypto_laws : CryptoLaws.
Proof.
  constructor; cbn [ecdsa_Sign SigToPub public tbls_Recover bls_Verify net_crypto].
  - intros d k sig. destruct (length d =? 32)%nat; [|done]. intros Hs.
    assert (sig = be_fixed 33 k ++ d) as -> by congruence. rewrite drop_app_length', take_app_length' by (symmetry; apply length_be_fixed). by rewrite decide_True.
  - intros d k sig. destruct (Nat.eqb_spec (length d) 32) as [Hd|]; [|done]. intros Hs.
    assert (sig = be_fixed 33 k ++ d) as -> by congruence. by rewrite length_app, length_be_fixed, Hd.
  - intros p d shares t n sig. by destruct (bool_decide _).
Qed.

Lemma net_crypto_total : crypto_total.
Proof. constructor; intros; cbn; by repeat case_match. Qed.

Lemma net_env_total : env_total net_env.
Proof.
  constructor.
  - apply sorted_order_ok.
  - intros b a Hb. assert (Some genesis = Some b) as Eb by exact (f_equal fst Hb). apply (inj Some) in Eb. subst b.
    exists 0. split; [reflexivity|lia].
  - intros b. apply safe_Ret.
  - intros b. apply safe_Ret.
  - intros b q. apply safe_Ret.
  - intros b q b' Hb Hs. assert (b = b') as <- by exact (f_equal (fun o => match o with Ret x => x | _ => b end) Hs). exact Hb.
  - intros b x b' Hb Hx Hb'. assert (Some b = Some b') as [= <-].
    { rewrite <- Hb'. exact (f_equal (fun o => match o with Ret y => xb_Block y | _ => None end) Hx). }
    exact Hb.
  - intros x _. apply safe_Ret.
  - intros k v. reflexivity.
Qed.

Lemma net_set_live : valset_live net_set.
Proof.
  assert (vs_policy net_set ≠ VRF ∧ vs_validators net_set ≠ [] ∧ is_Some (vs_proposer net_set)) as (Hp & Hv & Hs) by decide_eval.
  by constructor.
Qed.

Definition net_events : list (Env * Event) :=
  [(net_env, MessageEvent 7 [x01; x02]); (net_env, TimeoutEvent); (net_env, RequestEvent None)].

Lemma engine_never_panics_witness :
  (handleEvents net_events (start_replica 42)).1 = Ret tt /\ core_ok (handleEvents net_events (start_replica 42)).2.
Proof.
  refine (engine_never_panics net_env None 5000 (net_signer 42) net_set net_events net_crypto_total net_env_total
    (ex_intro _ genesis eq_refl) net_set_live _).
  repeat constructor; try apply net_env_total. intros blk Hb. discriminate Hb.
Defined.

(** *** A replica that is locked on the first block *)

Definition net_parent : Hash := 0x12345.
Definition locked_node : ProposedBlock := NewProposedBlock net_parent (Some first_block).
Definition lock_qc : QuorumCert :=
  mkQC (Some (mkView 0 1)) MsgTypePreCommitVote (node_hash net_parent first_block) (key_address 42) [x01].
Definition locked_rs : roundState :=
  set_rs_state StatePreCommitted (set_locked (Some first_block) true (set_rs_lockQC (Some lock_qc)
    (set_rs_node (Some locked_node) (newRoundState net_set genesis (mkView 0 1))))).

Definition replica_at (k : Z) (rs : roundState) : Core :=
  mkCore (Some ∅) 5000 (Some rs) (net_signer k) net_set newBackLog Prque_New true None [].

Lemma locked_rs_ok : rs_ok locked_rs.
Proof.
  constructor; cbn; try apply map_Forall_empty; try done.
  - by exists 0.
  - intros n [= <-]. exists first_block. split; [done|]. by exists 1.
  - intros b [= <-]. by exists 1.
  - intros q [= <-]. by eexists.
Qed.

Lemma replica_at_ok k rs : rs_ok rs -> rs_state rs = StatePreCommitted -> core_ok (replica_at k rs).
Proof.
  intros Hr Hs. constructor; [apply net_set_live|exists []; split; [apply Prque_New_rel|done]|apply map_Forall_empty|constructor|].
  exists rs. split; [done|]. split; [done|]. by rewrite Hs.
Qed.
