(* ===== verification/Witnesses.v ===== *)
(** * The handlers at work

    Concrete instances of the theorems on the handlers, on states built by
    hand with the validators and the cryptography of the scenario. *)
From Stdlib Require Import ZArith Lia Strings.Byte.
From stdpp Require Import base list option strings gmap.
From S2P Require Import Prelude Errors Rlp Codec Common Validator Block Types Signer Prque MessageSet Backlog RoundState Core Refinement Progress Behaviour Scenario.
Open Scope Z_scope.

#[local] Existing Instance sample_keccak.
#[local] Existing Instance net_crypto.
#[local] Existing Instance net_crypto_laws.

(** The result of a computation that is known to succeed. *)
Definition is_ret {A} (o : outcome A) : bool := match o with Ret _ => true | _ => false end.
Definition ret_of {A} (d : A) (o : outcome A) : A := match o with Ret x => x | _ => d end.

Lemma ret_of_ok {A} (d : A) o : is_ret o = true -> o = Ret (ret_of d o).
Proof. by destruct o. Qed.

(** ** A locked replica and another block *)

Definition other_block : Block :=
  mkBlock (mkHeader (Block_Hash genesis) 0 (key_address 42) 0 0 0 0 (Some 1) (Some 1) 8000000 0 1003 [] HotstuffDigest 0) [] [].
Definition other_subject : PackagedQC := NewPackagedQC (Some (NewProposedBlock net_parent (Some other_block))) (Some lock_qc).
Definition other_prepare : Message :=
  mkMessage (key_address 42) MsgTypePrepare (Some (mkView 0 1)) (ret_of [] (encode_val c_PackagedQC other_subject)) [].
Definition locked_replica : Core := replica_at 43 locked_rs.

Lemma locked_replica_rejects_witness : exists e, handlePrepare net_env other_prepare locked_replica = (Err e, locked_replica).
Proof.
  refine (locked_replica_rejects net_env other_prepare locked_replica locked_rs first_block other_subject
    (NewProposedBlock net_parent (Some other_block)) other_block _ eq_refl eq_refl _ eq_refl eq_refl _).
  - apply replica_at_ok; [apply locked_rs_ok|reflexivity].
  - vm_compute. reflexivity.
  - vm_compute. discriminate.
Defined.

(** ** The timer *)

Lemma round_timeout_bounds_witness : roundTimeout net_env 6000 34 < 0 /\ roundTimeout net_env 6000 3 = 14000000000.
Proof.
  destruct (round_timeout_bounds net_env 6000) as (_ & H3 & _ & H34); [lia|]. split; [exact H34|].
  rewrite H3 by lia. reflexivity.
Defined.

(** ** Restarts *)

Lemma restart_forgets_lock_witness :
  exists rs, c_current (start_replica 42) = Some rs /\ LockedBlock rs = None /\ rs_node rs = None.
Proof. exact (restart_forgets_lock net_env None 5000 (net_signer 42) net_set genesis (key_address 42) net_env_total eq_refl). Defined.

(** ** New-view messages with two certificates *)

Definition qc_at (round height : Z) : QuorumCert :=
  mkQC (Some (mkView round height)) MsgTypePrepareVote 99 (key_address 42) [x01].
Definition new_view_message (k round height : Z) : Message :=
  mkMessage (key_address k) MsgTypeNewView (Some (mkView 0 2)) (ret_of [] (encode_val c_QuorumCert (qc_at round height))) [].
Definition new_views : MessageSet := mkMessageSet (mkView 0 0) net_set
  {[ key_address 42 := new_view_message 42 0 1; key_address 43 := new_view_message 43 2 1 ]}.
Definition new_view_rs : roundState := set_rs_newViews new_views (newRoundState net_set genesis (mkView 0 2)).

Lemma new_view_decodes k round height : is_ret (Message_Decode c_QuorumCert (new_view_message k round height)) = true ->
  exists q, Message_Decode c_QuorumCert (new_view_message k round height) = Ret q.
Proof. intros Hr. eexists. exact (ret_of_ok (qc_at 0 0) _ Hr). Qed.

Lemma highest_certificate_witness : exists qc qc' v,
  getHighQC net_env new_view_rs = Ret qc /\ getHighQC net_env new_view_rs = Ret qc' /\ qc_View qc = Some v /\ qc_View qc' = Some v.
Proof.
  destruct (highest_certificate net_env net_env new_view_rs) as (qc & qc' & v & E & E' & Hv & Hv' & _).
  - apply sorted_order_ok.
  - apply sorted_order_ok.
  - apply map_Forall_insert_2; [apply new_view_decodes; vm_compute; reflexivity|].
    apply map_Forall_singleton, new_view_decodes. vm_compute. reflexivity.
  - apply insert_non_empty.
  - exists qc, qc', v. split; [exact E|]. split; [exact E'|]. split; [exact Hv|exact Hv'].
Defined.

(** ** Two stored requests, one of them for the next height *)

Definition next_block : Block :=
  mkBlock (mkHeader 7 0 (key_address 42) 0 0 0 0 (Some 1) (Some 2) 8000000 0 1006 [] HotstuffDigest 0) [] [].
Definition request_queue : Prque Request :=
  Prque_Push (mkRequest (Some next_block)) (-2) (Prque_Push (mkRequest (Some first_block)) (-1) Prque_New).
Definition request_replica : Core := set_c_pendingRequests request_queue locked_replica.
Definition request_items : list (pitem Request) :=
  [mkItem (mkRequest (Some next_block)) (-2); mkItem (mkRequest (Some first_block)) (-1)].

Lemma pending_requests_sorted_witness : exists q' blocks,
  processPendingRequests request_replica =
    (Ret tt, set_c_out (map EPostRequest blocks) (set_c_pendingRequests q' request_replica)) /\
  Some <$> blocks ≡ₚ [Some first_block] /\ pq_rel q' [mkItem (mkRequest (Some next_block)) (-2)].
Proof.
  destruct (pending_requests_sorted request_replica locked_rs request_items 2) as (q' & bs & _ & E & Hb & Hq); [reflexivity| | |..].
  - apply Prque_Push_rel, Prque_Push_rel, Prque_New_rel.
  - constructor; [exists next_block, 2|constructor; [exists first_block, 1|constructor]]; (split; [reflexivity|]);
      (split; [reflexivity|]); (split; [lia|reflexivity]).
  - apply le_n.
  - exists q', bs. split; [exact E|]. split; [exact Hb|exact Hq].
Defined.

(** ** A decide message nobody signed *)

Definition forged_qc : QuorumCert :=
  mkQC (Some (mkView 0 0)) MsgTypeCommitVote (node_hash net_parent first_block) 0 [].
Definition forged_diploma : Diploma := mkDiploma (Some forged_qc) (Block_Hash first_block).
Definition net_leader : Address := match vs_proposer net_set with Some v => val_Address v | None => 0 end.
Definition forged_decide : Message :=
  mkMessage net_leader MsgTypeDecide (Some (mkView 0 1)) (ret_of [] (encode_val c_Diploma forged_diploma)) [].
(** The key of a validator that is not the leader. *)
Definition follower_key : Z := if net_leader =? key_address 43 then 44 else 43.

#[local] Opaque Block_Hash node_hash net_leader follower_key first_block.

Lemma forged_decide_commits_witness : exists n x xb,
  ECommit 1 n x ∈ c_out (handleDecide net_env forged_decide (replica_at follower_key locked_rs)).2 /\
  xb_Block x = Some xb /\ Block_Hash xb = Block_Hash first_block.
Proof.
  refine (forged_decide_commits net_env forged_decide (replica_at follower_key locked_rs) locked_rs forged_diploma forged_qc
    (mkView 0 0) net_parent first_block first_block first_block net_env_total _ eq_refl eq_refl _ _ eq_refl eq_refl eq_refl eq_refl
    _ _ eq_refl eq_refl eq_refl eq_refl eq_refl eq_refl eq_refl _).
  - intros b. eexists. reflexivity.
  - vm_compute. reflexivity.
  - vm_compute. reflexivity.
  - vm_compute. discriminate.
  - vm_compute. reflexivity.
  - eexists. apply (ret_of_ok []). vm_compute. reflexivity.
Defined.

(** ** A lock that is written and read back *)

Definition unlocked_rs : roundState := set_rs_node (Some locked_node) (newRoundState net_set genesis (mkView 0 1)).
Definition locking_replica : Core := replica_at 43 unlocked_rs.
Definition written_replica : Core := (Lock net_env lock_qc locking_replica).2.
Definition reborn_replica : Core :=
  set_c_db (c_db written_replica) (replica_at 43 (newRoundState net_set genesis (mkView 0 1))).

Lemma written_ok : Lock net_env lock_qc locking_replica = (Ret tt, written_replica).
Proof.
  transitivity ((Lock net_env lock_qc locking_replica).1, written_replica); [exact (surjective_pairing _)|].
  refine (f_equal2 pair _ eq_refl). vm_compute. reflexivity.
Qed.

Lemma lock_names_node : ProposedBlock_Hash locked_node = Ret (qc_ProposedBlock lock_qc).
Proof. vm_compute. reflexivity. Qed.

Lemma snapshot_restores_lock_witness : exists rs',
  c_current (reload (mkView 0 1) reborn_replica).2 = Some rs' /\ LockedBlock rs' = Some first_block /\
  rs_lockQC rs' = Some lock_qc /\ rs_node rs' = Some locked_node.
Proof.
  refine (snapshot_restores_lock net_env locking_replica unlocked_rs locked_node first_block lock_qc written_replica reborn_replica
    (newRoundState net_set genesis (mkView 0 1)) (mkView 0 1) eq_refl (ex_intro _ ∅ eq_refl) eq_refl eq_refl _ _ _ _ _
    written_ok eq_refl eq_refl).
  - exact lock_names_node.
  - apply qc_ok_codec, (decode_val_ok c_QuorumCert (ret_of [] (encode_val c_QuorumCert lock_qc))). vm_compute. reflexivity.
  - fits_eval.
  - apply (decode_val_ok c_ProposedBlock (ret_of [] (encode_val c_ProposedBlock locked_node))). vm_compute. reflexivity.
  - fits_eval.
Defined.

(** ** A vote on its way to the leader *)

Definition vote_wire : Message * bytes := ret_of (other_prepare, [])
  (finalizeMessage (NewCleanMessage (Some (currentView locked_rs)) MsgTypeCommitVote [x01]) locked_replica).
Definition vote_effect : Effect := EUnicast net_leader vote_wire.1 vote_wire.2.

Lemma vote_wire_ok :
  finalizeMessage (NewCleanMessage (Some (currentView locked_rs)) MsgTypeCommitVote [x01]) locked_replica = Ret vote_wire.
Proof. apply ret_of_ok. vm_compute. reflexivity. Qed.

Lemma net_leader_ok : proposer locked_replica = Ret net_leader.
Proof. vm_compute. reflexivity. Qed.

Lemma vote_sent : (broadcast MsgTypeCommitVote [x01] locked_replica).2 = set_c_out ([] ++ [vote_effect]) locked_replica.
Proof.
  unfold broadcast. rewrite (bind_Ret _ _ locked_replica locked_rs locked_replica) by reflexivity.
  rewrite (bind_Ret get _ locked_replica locked_replica locked_replica) by reflexivity.
  assert (((GetByAddress (c_Address locked_replica) (c_valSet locked_replica)).1 <? 0) = false) as -> by (vm_compute; reflexivity).
  rewrite vote_wire_ok. cbn [or_return]. rewrite (surjective_pairing vote_wire).
  assert (is_vote_type MsgTypeCommitVote = true) as -> by reflexivity. rewrite net_leader_ok. reflexivity.
Qed.

Lemma sent_message_is_received_witness :
  handleMsg net_env (c_Address locked_replica) vote_wire.2 (start_replica 44) =
    handleCheckedMsg net_env (mkMessage (c_Address locked_replica) MsgTypeCommitVote (Some (currentView locked_rs)) [x01]
      (m_Signature vote_wire.1)) (start_replica 44).
Proof.
  refine (sent_message_is_received net_env locked_replica locked_rs 43 MsgTypeCommitVote [x01] vote_effect vote_wire.1 vote_wire.2
    (start_replica 44) eq_refl _ _ eq_refl eq_refl vote_sent (or_intror (ex_intro _ net_leader eq_refl)) _ _).
  - split; vm_compute; discriminate.
  - vm_compute. split; [discriminate|reflexivity].
  - fits_eval.
  - decide_eval.
Defined.

(** ** A leader's certificates after a vote *)

