(* ===== verification/Network.v ===== *)
(** * A network of nodes

    A concrete run of whole nodes: four backends with their engines start on a
    genesis block; the miner of the leader prepares, assembles and seals a
    block; the nodes exchange the messages their backends send until every
    backend has handed the block to its chain and the miner has its result.
    Every step of the run is a step of [node_step], so that the theorems on
    nodes can be applied to it. *)
From Stdlib Require Import ZArith Lia Strings.Byte.
From stdpp Require Import base list option strings gmap relations.
From S2P Require Import Prelude Errors Rlp Codec Common Validator Block Types Signer Cache MessageSet RoundState Core Protocol Refinement Safety Backend Gossip Proposal Node NodeProgress Sealing Progress Scenario.
Open Scope Z_scope.

#[local] Existing Instance sample_keccak.
#[local] Existing Instance net_crypto.
#[local] Existing Instance sample_eviction.
#[local] Existing Instance fifo_cache.
#[local] Existing Instance fifo_laws.

(** ** The world *)

Definition node_chain : Chain :=
  mkChain (fun hash n => if (n =? 0) && (hash =? Block_Hash genesis) then Some (b_header genesis) else None)
    (fun n => if n =? 0 then Some (b_header genesis) else None) (fun _ => Ret 1) genesis (fun _ => false).

Definition node_world : World :=
  mkWorld node_chain 2000 (key_address <$> net_keys) sorted_order (fun _ _ => Ret tt) 0.

(** ** The miner's block *)

Definition miner_key : Z := 42.
Definition miner : Backend := NewBackend DefaultBasicConfig (miner_key : PrivateKey) net_set ([] : PubPoly) (miner_key : PriShare) 3 4.
Definition mined_header : Header := mkHeader (Block_Hash genesis) 0 0 0 0 0 0 None (Some 1) 8000000 0 0 [] 0 0.
Definition mined_block : Block :=
  FinalizeAndAssemble 17 (Prepare node_chain 2000 2000 miner mined_header).2 [] (mkReceipts 0 0 0).

Definition node_vote (code : MsgType) : bytes :=
  match encode_val c_Vote (mkVote code (Some (mkView 0 1)) (node_hash 0x12345 mined_block) []) with Ret d => d | _ => [] end.
Definition node_pub : list bytes := node_vote <$> [MsgTypePrepareVote; MsgTypePreCommitVote; MsgTypeCommitVote].

Definition node_signer (k : Z) : HotstuffSigner := NewSigner (k : PrivateKey) (node_pub : PubPoly) (k : PriShare) 3 4.

(** ** Steps that may be taken *)

Definition action_okb (nd : Node) (act : Action) : bool :=
  match act with
  | ADeliver i =>
      match nd_queue nd !! i with
      | Some (MessageEvent src p) => (zlen p <? 2 ^ 60) &&
          match FromPayload src p (Some (checkValidatorSignature (nd_core nd))) with Ret m => decide_checkedb m | _ => true end
      | _ => true
      end
  | AHandleMsg a _ => negb (a =? bk_Address (nd_backend nd))
  | ANewChainHead h => match hdr_Number h with Some _ => true | None => false end
  | _ => true
  end.

Definition try_step (act : Action) (nd : Node) : option Node :=
  if action_okb nd act then snd <$> node_step node_world act nd else None.

Definition take_step (act : Action) (nd : Node) : Node := default nd (try_step act nd).

(** What the engine asked for, then the oldest event, until there is neither. *)
Fixpoint settle (fuel : nat) (nd : Node) : Node :=
  match fuel with
  | O => nd
  | S fuel' =>
      let act := if (nd_done nd <? length (c_out (nd_core nd)))%nat then APerform else ADeliver 0 in
      match try_step act nd with Some nd' => settle fuel' nd' | None => nd end
  end.

Definition sends_to (to : Address) (os : list Out) : list bytes :=
  omap (fun o => match o with OSend a _ p => if a =? to then Some p else None | _ => None end) os.

Definition receive_payload (from : Address) (nd : Node) (p : bytes) : Node :=
  match Msg_of c_bytes hotstuffMsg p with Ret msg => take_step (AHandleMsg from msg) nd | _ => nd end.

(** The messages the senders have sent since their positions. *)
Definition receive_all (senders : list (Node * nat)) (nd : Node) : Node :=
  fold_left (fun nd '(from, pos) => fold_left (receive_payload (bk_Address (nd_backend from)))
    (sends_to (bk_Address (nd_backend nd)) (drop pos (bk_out (nd_backend from)))) nd) senders nd.

Fixpoint rounds (n : nat) (nodes : list Node) (pos : list nat) : list Node :=
  match n with
  | O => nodes
  | S n' =>
      let settled := settle 100 <$> nodes in
      rounds n' (receive_all (zip settled pos) <$> settled) ((fun nd => length (bk_out (nd_backend nd))) <$> settled)
  end.

Definition start_node (k : Z) : Node :=
  let nd := (started node_world DefaultBasicConfig (k : PrivateKey) None net_set (node_pub : PubPoly) (k : PriShare) 3 4 true).2 in
  take_step (ABroadcaster true) nd.

Definition mine (nd : Node) : Node := take_step (APropose 0) (take_step (ADue 0) (take_step (ASeal mined_block) nd)).

Definition node_start : list Node := (fun k => if k =? miner_key then mine (start_node k) else start_node k) <$> net_keys.
Definition node_final : list Node := take_step (AReceive 0) <$> rounds 9 node_start [0; 0; 0; 0]%nat.

(** ** Every state of the run is reachable *)

Section Closed.
Context (P : Node -> Prop).
Hypothesis P_step : forall act nd o nd', P nd -> action_okb nd act = true -> node_step node_world act nd = Some (o, nd') -> P nd'.

Lemma try_step_closed act nd nd' : P nd -> try_step act nd = Some nd' -> P nd'.
Proof.
  intros Hp. unfold try_step. destruct (action_okb nd act) eqn:Ha; [|done]. destruct (node_step node_world act nd) as [[o nd1]|] eqn:E; [|done].
  intros [= <-]. by eapply P_step.
Qed.

Lemma take_step_closed act nd : P nd -> P (take_step act nd).
Proof. intros Hp. unfold take_step. destruct (try_step act nd) eqn:E; [|done]. by eapply try_step_closed. Qed.

Lemma settle_closed fuel nd : P nd -> P (settle fuel nd).
Proof.
  revert nd. induction fuel as [|fuel IH]; intros nd Hp; [done|]. cbn [settle]. case_match eqn:E; [|done].
  apply IH. by eapply try_step_closed.
Qed.

Lemma receive_all_closed senders nd : P nd -> P (receive_all senders nd).
Proof.
  unfold receive_all. revert nd. induction senders as [|[from pos] senders IH]; intros nd Hp; [done|]. cbn [fold_left].
  apply IH. generalize (sends_to (bk_Address (nd_backend nd)) (drop pos (bk_out (nd_backend from)))). intros ps. revert nd Hp.
  induction ps as [|p ps IHp]; intros nd Hp; [done|]. cbn [fold_left]. apply IHp. unfold receive_payload.
  destruct (Msg_of _ _ _); [by apply take_step_closed|done..].
Qed.

End Closed.

(** The same for the states of four nodes. *)
Section Four.
Context (P : Z -> Node -> Prop).
Hypothesis P_step : forall k act nd o nd', P k nd -> action_okb nd act = true -> node_step node_world act nd = Some (o, nd') -> P k nd'.
Hypothesis P_start : forall k, P k (start_node k).

Lemma fmap_closed ks (nodes : list Node) f : (forall k nd, P k nd -> P k (f nd)) -> Forall2 P ks nodes -> Forall2 P ks (f <$> nodes).
Proof. intros Hf Hn. apply Forall2_fmap_r. eapply Forall2_impl; [exact Hn|]. done. Qed.

Lemma rounds_closed n ks nodes pos : Forall2 P ks nodes -> Forall2 P ks (rounds n nodes pos).
Proof.
  revert nodes pos. induction n as [|n IH]; intros nodes pos Hn; [done|]. cbn [rounds]. apply IH.
  apply fmap_closed; [intros k nd; apply (receive_all_closed (P k)); eauto|].
  apply fmap_closed; [intros k nd; apply (settle_closed (P k)); eauto|done].
Qed.

Lemma node_final_closed : Forall2 P net_keys node_final.
Proof.
  unfold node_final. apply fmap_closed; [intros k nd; apply (take_step_closed (P k)); eauto|]. apply rounds_closed.
  unfold node_start. generalize net_keys. intros ks. apply Forall2_fmap_r, Forall_Forall2_diag, Forall_forall. intros k _.
  unfold compose. destruct (k =? miner_key); [|apply P_start]. unfold mine. do 3 (apply (take_step_closed (P k)); [eauto|]). apply P_start.
Qed.

End Four.

Lemma node_world_ok : world_ok node_world.
Proof.
  constructor; [apply sorted_order_ok|]. intros n Hn. assert (Ret 0 = Ret n) as [= <-] by exact Hn. lia.
Qed.

Lemma action_okb_ok sg nd act : node_reach sg nd -> action_okb nd act = true -> action_ok sg nd act.
Proof.
  intros Hr. destruct act as [i| | |a m|h|b|i|i|i|i|h seal|h|b|a auth|a]; try done; cbn [action_okb action_ok].
  - intros Hok src p Hq. rewrite Hq in Hok. apply andb_true_iff in Hok as [Hl%Z.ltb_lt Hd]. split; [exact Hl|]. intros m Hm d qc Hc Hdec Hqc.
    rewrite Hm in Hd. unfold decide_checkedb in Hd. rewrite Hc, Hdec, Hqc in Hd. by apply negb_true_iff, Z.eqb_neq in Hd.
  - rewrite (ni_address sg nd (node_reach_inv sg nd Hr)). by intros Hne%negb_true_iff%Z.eqb_neq.
Qed.

Lemma node_reach_closed k act nd o nd' : node_reach (node_signer k) nd -> action_okb nd act = true ->
  node_step node_world act nd = Some (o, nd') -> node_reach (node_signer k) nd'.
Proof. intros Hr Ha Hs. exact (node_reach_step _ node_world act nd o nd' Hr node_world_ok (action_okb_ok _ _ _ Hr Ha) Hs). Qed.

Lemma start_node_reach k : node_reach (node_signer k) (start_node k).
Proof.
  unfold start_node, started. apply (take_step_closed (node_reach (node_signer k)) (node_reach_closed k)).
  refine (node_reach_start (node_signer k) node_world DefaultBasicConfig k None net_set node_pub k 3 4 true true eq_refl node_world_ok _).
  intros d Hd. discriminate Hd.
Qed.

Lemma node_final_reach : Forall2 (fun k nd => node_reach (node_signer k) nd) net_keys node_final.
Proof. exact (node_final_closed (fun k => node_reach (node_signer k)) node_reach_closed start_node_reach). Qed.


(** ** What the run did *)

Definition mined_node : Hash * Hash := (node_hash 0x12345 mined_block, Block_Hash mined_block).

Definition fedb (o : Out) : bool := match o with OFeed x => match xb_Block x with Some _ => true | None => false end | _ => false end.

Definition resultb (o : Out) : bool := match o with OResult _ (Some _) => true | _ => false end.

(** Every engine did its part, every backend handed a block to its chain, and
    the miner of the first node got its result. *)
Definition nodes_okb (nodes : list Node) : bool :=
  forallb (fun nd => replica_okb node_pub mined_node (nd_core nd) && existsb fedb (bk_out (nd_backend nd))) nodes &&
  match head nodes with Some nd => existsb resultb (bk_out (nd_backend nd)) | None => false end.

Lemma nodes_ok : nodes_okb node_final = true.
Proof. vm_compute. reflexivity. Qed.

(** The node and the key of an address. *)
Definition signer_of (addr : Address) : HotstuffSigner :=
  match net_index addr with Some (_, k) => node_signer k | None => node_signer 0 end.
Definition node_in (nodes : list Node) (addr : Address) : Node :=
  match net_index addr with Some (i, _) => default (start_node 0) (nodes !! i) | None => start_node 0 end.
Definition node_of : Address -> Node := node_in node_final.

(** What [nodes_okb] says of a node, with the node list left abstract. *)
Lemma node_in_facts nodes v : nodes_okb nodes = true -> Forall2 (fun k nd => node_reach (node_signer k) nd) net_keys nodes ->
  v ∈ vs_validators net_set ->
  node_reach (signer_of (val_Address v)) (node_in nodes (val_Address v)) /\
  replica_facts node_pub mined_node (nd_core (node_in nodes (val_Address v))) /\
  exists x b, OFeed x ∈ bk_out (nd_backend (node_in nodes (val_Address v))) /\ xb_Block x = Some b.
Proof.
  intros Hok Hr (i & k & Hi)%net_validators. unfold signer_of, node_in. rewrite Hi. pose proof (net_index_key _ _ _ Hi) as Hk.
  destruct (Forall2_lookup_l _ _ _ _ _ Hr Hk) as (nd & Hn & Hrn). rewrite Hn. cbn [default]. split; [exact Hrn|].
  apply andb_true_iff in Hok as [Hall _]. rewrite forallb_forall in Hall. apply list_elem_of_lookup_2, list_elem_of_In, Hall in Hn.
  apply andb_true_iff in Hn as [Hrep Hfed]. split; [exact (replica_okb_facts _ _ _ Hrep)|].
  apply existsb_exists in Hfed as (o & Ho%list_elem_of_In & Hf). destruct o as [| |x| |]; try discriminate Hf. cbn [fedb] in Hf.
  destruct (xb_Block x) as [b|] eqn:Eb; [|discriminate Hf]. exists x, b. split; [exact Ho|exact Eb].
Qed.

Lemma node_facts v : v ∈ vs_validators net_set ->
  node_reach (signer_of (val_Address v)) (node_of (val_Address v)) /\
  replica_facts node_pub mined_node (nd_core (node_of (val_Address v))) /\
  exists x b, OFeed x ∈ bk_out (nd_backend (node_of (val_Address v))) /\ xb_Block x = Some b.
Proof. exact (node_in_facts node_final v nodes_ok node_final_reach). Qed.

(** ** Agreement and refinement *)

Definition core_of (addr : Address) : Core := nd_core (node_of addr).

Lemma signer_of_pub addr : sg_blsPubPoly (signer_of addr) = node_pub.
Proof. unfold signer_of. destruct (net_index addr) as [[i k]|]; reflexivity. Qed.

Lemma nodes_unforgeable : unforgeable net_set net_faulty signer_of core_of.
Proof. exact (votes_unforgeable node_pub mined_node signer_of core_of (fun v Hv => proj1 (proj2 (node_facts v Hv))) signer_of_pub). Qed.

Lemma nodes_collision_free : collision_free net_set net_faulty core_of.
Proof. exact (votes_collision_free node_pub mined_node core_of (fun v Hv => proj1 (proj2 (node_facts v Hv)))). Qed.

Definition node_at (i : nat) : Node := node_of (val_Address (validator_at i)).

(** Two engines have committed at height 1, and agree. *)
Lemma agreement_witness : exists n n' x y b b',
  ECommit 1 n x ∈ c_out (nd_core (node_at 0)) /\ ECommit 1 n' y ∈ c_out (nd_core (node_at 2)) /\
  xb_Block x = Some b /\ xb_Block y = Some b' /\ Block_Hash b = Block_Hash b'.
Proof.
  destruct net_honest as [Hu Hv]. destruct net_sizes as (Hs & Hf & _).
  destruct (rfa_commit _ _ _ (proj1 (proj2 (node_facts _ (proj1 Hu))))) as (n & x & b & Hx & Ex).
  destruct (rfa_commit _ _ _ (proj1 (proj2 (node_facts _ (proj1 Hv))))) as (n' & y & b' & Hy & Ey).
  exists n, n', x, y, b, b'. split; [exact Hx|]. split; [exact Hy|]. split; [exact Ex|]. split; [exact Ey|].
  exact (agreement net_set net_faulty signer_of core_of (validator_at 0) (validator_at 2) 1 x y n n' b b' Hs Hf nodes_unforgeable
    nodes_collision_free (fun z Hz => ni_reach _ _ (node_reach_inv _ _ (proj1 (node_facts z (proj1 Hz))))) Hu Hv Hx Hy Ex Ey).
Defined.

(** A timeout at an engine of the run. *)
Definition engine0 : Core := nd_core (node_at 0).
Definition signer0 : HotstuffSigner := signer_of (val_Address (validator_at 0)).

Lemma engine0_reach : reach signer0 engine0.
Proof. exact (ni_reach _ _ (node_reach_inv _ _ (proj1 (node_facts _ (proj1 (proj1 net_honest)))))). Qed.




