(* ===== verification/NodeWitnesses.v ===== *)
(** * The nodes at work

    Concrete instances of the theorems on the backend and on nodes, on states
    of the network's run. *)
From Stdlib Require Import ZArith Lia Strings.Byte.
From stdpp Require Import base list option strings gmap.
From S2P Require Import Prelude Errors Rlp Codec Common Validator Block Types Signer Cache MessageSet RoundState Core Protocol Refinement Safety Backend Gossip Proposal Node Progress NodeProgress Sealing Scenario Witnesses Network.
Open Scope Z_scope.

#[local] Existing Instance sample_keccak.
#[local] Existing Instance net_crypto.
#[local] Existing Instance net_crypto_laws.
#[local] Existing Instance sample_eviction.
#[local] Existing Instance fifo_cache.
#[local] Existing Instance fifo_laws.

(** ** Sealing *)

Lemma miner_result nodes : nodes_okb nodes = true -> Forall2 (fun k nd => node_reach (node_signer k) nd) net_keys nodes ->
  exists nd i b, node_reach (node_signer miner_key) nd /\ OResult i (Some b) ∈ bk_out (nd_backend nd).
Proof.
  intros [_ Hres]%andb_true_iff Hr. destruct nodes as [|nd nodes]; [discriminate Hres|]. cbn [head] in Hres.
  apply existsb_exists in Hres as (o & Ho%list_elem_of_In & Hb). destruct o as [| | | |i [b|]]; try discriminate Hb.
  exists nd, i, b. split; [|exact Ho]. inversion Hr as [|? ? ? ? Hn _]. exact Hn.
Qed.

Lemma sealing_results_witness : exists nd i b t, OResult i (Some b) ∈ bk_out (nd_backend nd) /\
  bk_seals (nd_backend nd) !! i = Some t /\ st_phase t = Finished /\ Block_Hash b = Block_Hash (st_block t) /\ committed (nd_backend nd) b.
Proof.
  destruct (miner_result node_final nodes_ok node_final_reach) as (nd & i & b & Hr & Ho).
  destruct (sealing_results (node_signer miner_key) nd Hr) as (_ & Hres & _). destruct (Hres i b Ho) as (t & Ht).
  exists nd, i, b, t. split; [exact Ho|exact Ht].
Defined.

(** The miner's node while it proposes, and the block it is to commit. *)
Definition mining_node : Node := mine (start_node miner_key).
Definition executed : ExecutedBlock := mkExecuted (Some mined_block) 1.
Definition committing : outcome unit * Backend := Commit executed (nd_backend mining_node).

Lemma mining_node_reach : node_reach (node_signer miner_key) mining_node.
Proof.
  unfold mining_node, mine.
  do 3 (apply (take_step_closed (node_reach (node_signer miner_key)) (node_reach_closed miner_key))).
  exact (start_node_reach miner_key).
Qed.

Lemma mining_node_waits : Block_Hash mined_block <> EmptyHash /\
  bk_proposedBlockHash (nd_backend mining_node) = Block_Hash mined_block /\ length (bk_commitCh (nd_backend mining_node)) = 0%nat.
Proof. decide_eval. Qed.

Lemma pair_fst {A B} (p : A * B) a : p.1 = a -> p = (a, p.2).
Proof. destruct p. cbn. by intros ->. Qed.

Lemma committing_ok : Commit executed (nd_backend mining_node) = (Ret tt, committing.2).
Proof. unfold committing. apply pair_fst. vm_compute. reflexivity. Qed.


(** ** No panic *)

Lemma node_world_total : world_total node_world.
Proof.
  constructor.
  - exact node_world_ok.
  - exists 0. split; [reflexivity|lia].
  - intros hash n p Hp. cbn [GetHeader node_world w_chain node_chain] in Hp. destruct ((n =? 0) && _); [|discriminate Hp].
    apply (inj Some) in Hp. subst p. exists 0. reflexivity.
  - intros b. apply safe_Ret.
  - intros k v. reflexivity.
Qed.

Definition node_runs (k : Z) : Node -> Prop :=
  node_run node_world DefaultBasicConfig (k : PrivateKey) None net_set (node_pub : PubPoly) (k : PriShare) 3 4 true.

Lemma node_runs_closed k act nd o nd' : node_runs k nd -> action_okb nd act = true -> node_step node_world act nd = Some (o, nd') -> node_runs k nd'.
Proof.
  intros Hr Ha Hs. refine (node_run_step _ _ _ _ _ _ _ _ _ _ node_world act nd o nd' Hr node_world_total _ Hs).
  destruct act as [i| | |a m|h|b|i|i|i|i|h seal|h|b|a auth|a]; try exact I. cbn [action_okb] in Ha. unfold action_total.
  destruct (hdr_Number h) as [n|]; [by exists n|discriminate Ha].
Qed.

Lemma start_node_runs k : node_runs k (start_node k).
Proof.
  unfold start_node. apply (take_step_closed (node_runs k) (node_runs_closed k)).
  refine (node_run_start node_world DefaultBasicConfig k None net_set node_pub k 3 4 true node_world_total net_set_live _).
  exists genesis, EmptyAddress.
  unfold started, Node_Start. cbn [nd_backend Node_New NewBackend bk_coreStarted]. destruct (Core_Start _ _) as [[u|e|] c]; reflexivity.
Qed.

Lemma node_final_runs : Forall2 node_runs net_keys node_final.
Proof. exact (node_final_closed node_runs node_runs_closed start_node_runs). Qed.

(** The miner's node at the end of the run receives bytes that are no message. *)
Definition garbage : Action := AHandleMsg 7 (mkMsg hotstuffMsg 3 [x83; x01] false).

Lemma node_never_panics_witness : exists nd o nd', node_step node_world garbage nd = Some (o, nd') /\ o <> Panic /\ core_ok (nd_core nd').
Proof.
  destruct (Forall2_lookup_l _ _ _ 0%nat miner_key node_final_runs eq_refl) as (nd & _ & Hr).
  destruct (void (call (HandleMsg (nd_core nd) 7 (mkMsg hotstuffMsg 3 [x83; x01] false)) nd)) as [o nd'] eqn:E.
  exists nd, o, nd'. assert (node_step node_world garbage nd = Some (o, nd')) as Hs by exact (f_equal Some E). split; [exact Hs|].
  exact (node_never_panics net_crypto_total node_world DefaultBasicConfig (miner_key : PrivateKey) None net_set (node_pub : PubPoly)
    (miner_key : PriShare) 3 4 true node_world garbage nd o nd' Hr node_world_total I Hs).
Defined.

(** ** Messages *)

Definition gossiper : Backend := nd_backend (start_node miner_key).
Definition greeting : bytes := [x01; x02; x03].

Lemma gossiper_peers : peers_ok gossiper.
Proof. exact (ni_peers _ _ (node_reach_inv _ _ (start_node_reach miner_key))). Qed.

Lemma gossiper_fresh : bk_broadcaster gossiper = true /\ key_address 43 ∈ AddressList net_set /\ key_address 43 <> bk_Address gossiper /\
  key_address 43 ∈ w_peers node_world /\ ~ seen gossiper (key_address 43) (payload_hash greeting).
Proof. decide_eval. Qed.

(** The first peer is sent the payload. *)
Lemma gossip_sends_once_witness : exists s' l, Gossip node_world net_set greeting gossiper = (Ret tt, s') /\ NoDup l /\ key_address 43 ∈ l /\
  bk_out s' = bk_out gossiper ++ ((fun a => OSend a hotstuffMsg greeting) <$> l).
Proof.
  destruct (gossip_sends_once node_world net_set greeting gossiper gossiper_peers sorted_order_ok) as (s' & l & Hg & _ & _ & Ho & Hn & _ & Hall).
  destruct gossiper_fresh as (Hb & Hin & Hne & Hp & Hs). exists s', l. split; [exact Hg|]. split; [exact Hn|].
  split; [exact (Hall Hb _ Hin Hne Hp Hs)|exact Ho].
Defined.

Definition greeting_msg : Msg := match Msg_of c_bytes hotstuffMsg greeting with Ret m => m | _ => mkMsg 0 0 [] false end.

Lemma gossiper_started : bk_coreStarted gossiper = true /\ ~ known gossiper (payload_hash greeting).
Proof.
  split; [vm_compute; reflexivity|]. intros Hk. apply (bool_decide_unpack (~ is_Some (contents (bk_knownMessages gossiper) !! (payload_hash greeting : Z)))); [|exact Hk].
  vm_compute. exact I.
Qed.

(** A peer's message is posted, and not again when another peer sends it. *)
Lemma message_posted_once_witness : exists s',
  HandleMsg (nd_core (start_node miner_key)) 43 greeting_msg gossiper = (Ret (true, None), s') /\
  bk_out s' = bk_out gossiper ++ [OPost (MessageEvent 43 greeting)] /\
  bk_out (HandleMsg (nd_core (start_node miner_key)) 44 greeting_msg s').2 = bk_out s'.
Proof.
  destruct gossiper_started as [Hst Hk].
  destruct (message_posted_once (nd_core (start_node miner_key)) 43 greeting greeting_msg gossiper gossiper_peers Hst eq_refl eq_refl)
    as (s' & Hh & _ & _ & Ho & Hagain).
  exists s'. split; [exact Hh|]. split; [|exact (Hagain _ 44)]. rewrite (decide_False _ _ Hk) in Ho. exact Ho.
Defined.

(** ** Proposals *)

Lemma miner_is_mining : mining miner (miner_key : PrivateKey) node_chain 2000 2000 mined_header (b_header genesis) 1.
Proof.
  constructor; [vm_compute; reflexivity|vm_compute; reflexivity|vm_compute; reflexivity|lia|vm_compute; reflexivity|vm_compute; reflexivity
    |vm_compute; reflexivity|lia| |].
  - decide_eval.
  - intros seal [Hl|Hl]; [apply nil_length_inv in Hl; subst seal; fits_eval|]. apply fits_any_seal; [vm_compute; reflexivity|exact Hl].
Qed.

Definition sealing : outcome unit * Backend := Seal node_chain mined_block miner.

Lemma sealing_ok : Seal node_chain mined_block miner = (Ret tt, sealing.2).
Proof. unfold sealing. apply pair_fst. vm_compute. reflexivity. Qed.

(** Another validator, to which the miner's signature is new. *)
Definition validator43 : Backend := nd_backend (start_node 43).

Lemma validator43_fresh : bk_chain validator43 = true /\ cfg_BlockPeriod (bk_config validator43) = cfg_BlockPeriod (bk_config miner) /\
  bk_Address miner ∈ AddressList (bk_valset validator43) /\ HasBadProposal node_world (Block_Hash mined_block) validator43 = false /\
  hdr_Time (Prepare node_chain 2000 2000 miner mined_header).2 <= w_now node_world /\
  GetHeader (w_chain node_world) (hdr_ParentHash mined_header) (1 - 1) = Some (b_header genesis).
Proof.
  split; [vm_compute; reflexivity|].
  split; [vm_compute; reflexivity|].
  split; [decide_eval|].
  split; [vm_compute; reflexivity|].
  split; [apply Z.leb_le|]; vm_compute; reflexivity.
Qed.

Lemma validator43_signatures a : sg_signatures (bk_signer validator43) !! (Block_Hash mined_block : Z) = Some a -> a = bk_Address miner.
Proof.
  assert (~ is_Some (sg_signatures (bk_signer validator43) !! (Block_Hash mined_block : Z))) as Hn by decide_eval.
  intros Ha. destruct Hn. by exists a.
Qed.

(** The sealed block passes the check of another validator. *)
Lemma sealed_proposal_accepted_witness : exists b', bk_seals sealing.2 = [mkSealTask b' Delaying] /\
  Block_Hash b' = Block_Hash mined_block /\ (Verify node_world b' validator43).1 = Ret tt.
Proof.
  destruct (sealed_proposal_accepted miner (miner_key : @PrivateKey net_crypto) node_chain 2000 2000 mined_header (b_header genesis) 1 miner_is_mining
    17 [] (mkReceipts 0 0 0)) as (h1 & Hp & Hs).
  assert (h1 = (Prepare node_chain 2000 2000 miner mined_header).2) as -> by (rewrite Hp; reflexivity).
  fold mined_block in Hs. destruct (Hs sealing.2 sealing_ok) as (b' & Hseals & Hh & Hv). exists b'. split; [exact Hseals|]. split; [exact Hh|].
  destruct validator43_fresh as (Hc & Hper & Hin & Hbad & Ht & Hpar).
  exact (Hv node_world validator43 Hc Hpar Hper Hin Hbad Ht validator43_signatures).
Defined.

(** ** Commits *)

Definition first_task (s : Backend) : Block := match bk_seals s with t :: _ => st_block t | [] => genesis end.
Definition sealed_block : Block := first_task sealing.2.
Definition commit_qc : QuorumCert := mkQC (Some (mkView 0 1)) MsgTypeCommitVote (node_hash 0x12345 mined_block) (key_address miner_key) [x01].
Definition qc_raw : bytes := ret_of [] (encode_val c_QuorumCert commit_qc).
Definition sealed_extra : HotstuffExtra := ret_of (mkHotstuffExtra [] [] [] []) (ExtractHotstuffExtra (b_header sealed_block)).
Definition recovering : outcome Address * HotstuffSigner := RecoverSigner (b_header sealed_block) (bk_signer validator43).

Lemma sealed_acceptable : acceptable (cfg_BlockPeriod (bk_config validator43)) (b_header genesis) (b_header sealed_block).
Proof.
  constructor.
  - exists 1. split; [vm_compute; reflexivity|]. split; [lia|vm_compute; reflexivity].
  - vm_compute. reflexivity.
  - vm_compute. reflexivity.
  - vm_compute. reflexivity.
  - vm_compute. reflexivity.
  - apply Z.leb_le. vm_compute. reflexivity.
Qed.

Lemma sealed_facts : ExtractHotstuffExtra (b_header sealed_block) = Ret sealed_extra /\ encode_val c_QuorumCert commit_qc = Ret qc_raw /\
  AuthQC (bk_signer validator43) commit_qc = Ret tt /\
  hdr_Number (b_header sealed_block) = Some 1 /\
  GetHeader node_chain (hdr_ParentHash (b_header sealed_block)) (u64 (u64 1 - 1)) = Some (b_header genesis).
Proof. do 4 (split; [vm_compute; reflexivity|]). vm_compute. reflexivity. Qed.

Lemma sealed_recovers : RecoverSigner (b_header sealed_block) (bk_signer validator43) = (Ret (hdr_Coinbase (b_header sealed_block)), recovering.2).
Proof. unfold recovering. apply pair_fst. vm_compute. reflexivity. Qed.

Lemma sealed_fits : fits c_HotstuffExtra (mkHotstuffExtra (ex_Validators sealed_extra) qc_raw (ex_Seal sealed_extra) (ex_Salt sealed_extra)) /\
  fits c_QuorumCert commit_qc.
Proof. split; fits_eval. Qed.

Lemma commit_qc_ok : qc_ok commit_qc.
Proof.
  split; [exists (mkView 0 1); split; [reflexivity|decide_eval]|]. decide_eval.
Qed.

Lemma sealed_in_time : hdr_Time (b_header sealed_block) <= 2000 /\ hdr_Coinbase (b_header sealed_block) ∈ AddressList (bk_valset validator43).
Proof. split; [apply Z.leb_le; vm_compute; reflexivity|decide_eval]. Qed.

Lemma committed_block_imports_witness : exists b', SealBlock sealed_block commit_qc = Ret b' /\ Block_Hash b' = Block_Hash sealed_block /\
  (bk_VerifyHeader (Some node_chain) 2000 (b_header b') true validator43).1 = Ret tt.
Proof.
  destruct sealed_facts as (He & Hraw & Ha & Hn & Hp). destruct sealed_fits as [Hf Hfq]. destruct sealed_in_time as [Ht Hin].
  destruct (committed_block_imports node_chain 2000 sealed_block commit_qc sealed_extra (b_header genesis) validator43 recovering.2
    sealed_acceptable He commit_qc_ok Hfq) as (b' & Hs & Hh & _ & Hv).
  - intros raw Er. rewrite Hraw in Er. injection Er as <-. exact Hf.
  - exact Ha.
  - intros n En. rewrite Hn in En. injection En as <-. exact Hp.
  - exact Ht.
  - exact Hin.
  - exact sealed_recovers.
  - exists b'. split; [exact Hs|]. split; [exact Hh|exact Hv].
Defined.

(** ** Batches *)

(** A header on top of the sealed block, and the chain that has both. *)
Definition child_header : Header :=
  mkHeader (Block_Hash sealed_block) 0 0 0 0 0 0 None (Some 2) 8000000 0 2003 [] HotstuffDigest 0.
Definition longer_chain : Chain :=
  mkChain (fun hash n => if (n =? 1) && (hash =? Block_Hash sealed_block) then Some (b_header sealed_block) else GetHeader node_chain hash n)
    (fun n => None) (fun _ => Ret 1) sealed_block (fun _ => false).

Lemma longer_chain_links : GetHeader longer_chain (hdr_ParentHash child_header) (u64 (u64 2 - 1)) = Some (b_header sealed_block).
Proof. vm_compute. reflexivity. Qed.

Lemma batch_is_one_by_one_witness :
  VerifyHeaders (Some longer_chain) 2000 [b_header sealed_block; child_header] [false; false] validator43 =
  verify_each (Some longer_chain) 2000 [b_header sealed_block; child_header] [false; false] validator43.
Proof.
  refine (batch_is_one_by_one longer_chain 2000 [b_header sealed_block; child_header] [false; false] validator43 _).
  split; [intros p n Hp; discriminate Hp|]. split; [|exact I]. intros p n Hp Hn. apply (inj Some) in Hp, Hn. subst p n. exact longer_chain_links.
Defined.
